(* ===== verification/_CoqProject ===== *)
-Q . S2P
Prelude.v
Names.v
Sha2.v
HD.v
Words.v
WordsOps.v
Bcrypt.v
Symmetric.v
Merkle.v
MerkleTree.v
MerkleProps.v
Wire.v
Int.v
Rational.v
Errors.v
Coin.v
Parsing.v
KVStore.v
MergeIterator.v
CacheKV.v
PrefixStore.v
GasKV.v
IAVL.v
Linear.v
LinearOps.v
LinearExamples.v
Keybase.v
KeybaseOps.v
KeybaseExamples.v
MultiStore.v
Account.v
Context.v
ProgLogic.v
Auth.v
Records.v
Address.v
Ante.v
Bank.v
RunTx.v
ReadOnly.v
BaseApp.v
BankApp.v
RootMulti.v
RootRestart.v
RootStore.v
Pool.v
Validator.v
StakeKey.v
StakeMsg.v
StakeKeeper.v
StakeVal.v
StakeDel.v
StakeHandler.v
StakeModel.v
StakeRep.v
StakeInv.v
StakeConserve.v
StakeSupply.v
StakeBlock.v
StakeExamples.v
Footprint.v
GovTypes.v
GovKeeper.v
GovRep.v
GovDeposit.v
GovTally.v
GovCount.v
GovSteps.v
GovBlock.v
GovStake.v
GovExamples.v
SlashTypes.v
SlashKeeper.v
SlashRep.v
SlashWindow.v
SlashOps.v
SlashBlock.v
IbcTypes.v
IbcOps.v
IbcNet.v
