(* ===== verification/Prelude.v ===== *)
(** * Verification of the tepleton-sdk core

    The repository is a framework for blockchain applications: transactions
    arrive at an application (BaseApp), pass an ante handler that checks
    signatures and takes fees, and are routed by message to modules (bank,
    staking, ...) whose keepers read and write records in key-value stores,
    which are stacked in caches over a multi-store that is committed block by
    block.  This library translates that code into executable definitions and
    proves what it promises.  Paths below are under src/.

    ** How the code is represented

    A Go function that may panic returns [outcome]; one that also changes an
    object is a function of the monad [M] (below), which keeps the state when
    a panic unwinds, because a deferred recover sees it.  Machine integers are
    [Z] with their wrap-around written out ([wrap64], [wrapu16], ...), big
    integers are [Z] with the range checks of the code, rationals are [Q] in
    lowest terms, byte slices [option (list byte)] with nil distinct from
    empty.  Interfaces (KVStore, MultiStore, CommitMultiStore, Msg) are type
    classes whose laws are what an implementation promises; implementations
    are instances.  Handlers and keepers are programs of the type [prog]
    (Context.v): trees of store operations, gas charges and deferred actions
    over a context, which [interp] runs on any multi-store.  Third-party code
    (amino, JSON, bech32, the IAVL tree, signatures, Tendermint's keys) is a
    class of parameters; classes named ...Laws state its documented behaviour
    and each has a concrete model that satisfies them and runs the examples.

    ** The files

    - Prelude: panics, the monad, bytes and machine integers, sums over maps.
    - Wire: self-delimiting encodings, for the models of codecs.
    - Int, Rational, Coin: types/int.go, rational.go, coin.go.  Exactness and
      range panics, normal forms, bankers' rounding, canonical coin lists.
    - Parsing: their text forms; what is parsed is valid and prints back.
    - Errors: types/errors.go, result.go, tags.go, gas.go, codespacer.go.
    - Address: types/account.go, bech32 and hexadecimal addresses.
    - KVStore, MergeIterator, CacheKV, PrefixStore, GasKV, IAVL, MultiStore:
      the interfaces of types/store.go with a finite map as their abstract
      view, and the stores of store/.  Each store refines that view; the cache
      layers are transactions over their parents.
    - Account, Context, ProgLogic: x/auth/account.go, types/context.go, and the
      program logic [pspec] of handlers: what a program does on the maps of a
      multi-store, with any gas meter, returning, panicking or out of gas.
      [interp_sim] carries it over to every lawful multi-store.
    - Auth, Ante, Bank: x/auth (accounts, transactions, the ante handler) and
      x/bank.  The ante handler accepts exactly the transactions it should,
      rejects replays and conserves coins; sending conserves them too.
    - Records: decoding and encoding the values of a keeper's store.
    - RootMulti, RootRestart, RootStore: store/rootmultistore.go over a database
      and the trees on it: mounting, loading and committing; a restart and a
      crash in the middle of a commit restore the last commit, its hash does
      not depend on the order of the stores; queries are routed to a store.
    - RunTx, ReadOnly, BaseApp, BankApp: baseapp/.  BaseApp refines a small
      specification (states as maps, deliver and check), transactions are
      atomic, commits persist; what runs on a cache leaves the store below as
      it is, so that checks change no response and no hash of the other calls;
      BankApp is an application of the parts.
    - Pool, Validator, StakeKey, StakeMsg: x/stake/types, the keys
      of x/stake/keeper/key.go.  Shares are worth what was paid for them up to
      what rounding loses, the supply is conserved, keys are injective.
    - StakeKeeper, StakeVal, StakeDel, StakeHandler: the keeper's records and
      indexes, the updates of the validator set, delegations and slashing, the
      handlers, the end blocker and genesis.
    - StakeModel, StakeRep, StakeInv, StakeConserve, StakeSupply, StakeBlock,
      StakeExamples: an encoding of the staking records; the abstract state
      [astate] that the bytes of the store stand for, with a specification of
      each getter and setter on it; what updates of the validator set leave
      alone; what delegating and unbonding move; the theorem that every
      message accounts for the tokens it moves; the end of a block; examples.
      Accounts may hold coins of amount zero there, which unbonding less than
      a token pays.
    - GovTypes, GovKeeper: x/gov, the module's types, messages, keys, keeper,
      tally, handlers, end blocker and genesis.
    - GovRep, GovDeposit, GovTally, GovCount, GovSteps, GovBlock, GovStake,
      GovExamples: the abstract state [gstate] of the store; the invariant and
      the keeper's methods on it; the tally as a function of validators,
      delegations and votes and the interface that tells it of them, which
      the staking keeper serves; what it counts; the steps of the module as a
      state machine, the specification of its programs; the handlers and the
      end blocker do such steps, the blocks end, and over any chain of
      messages, blocks and other modules' programs the invariant holds, no
      coins are made and no identifier is given twice; examples.
    - Footprint: which stores a program touches, and what a
      module may assume of another that stays off its store; the staking
      programs touch the staking and account stores only.
    - SlashTypes, SlashKeeper: x/slashing.  SlashRep, SlashWindow, SlashOps,
      SlashBlock: the signing infos and bit arrays as a state,
      the ring buffer as the last 40000 votes of a validator and the counter
      as the number of those it signed; when the handlers slash, revoke and
      jail, and what a message to unrevoke does; that the windows hold over
      any sequence of blocks, messages and other modules' programs; examples.
    - IbcTypes: x/ibc.  IbcOps, IbcNet: the outgoing queues and incoming
      sequence numbers and the two handlers; two chains and a relayer that
      repeats and reorders deliveries, which conserve coins; examples.
    - Names: the bytes of keys made of text and numbers, decimal and
      hexadecimal texts, splitting.
    - Sha2: SHA-256, SHA-512 and HMAC, and the hash of Tendermint's trees.
    - Merkle, MerkleTree, MerkleProps: crypto/merkle.  The trails of a tree as
      cells of a heap; the proofs made for a list or a map are accepted, and
      an accepted proof is of an item of the list, unless two different
      inputs among those the two computations hash have the same hash; the
      test vectors of the repository.
    - HD, Words, WordsOps, Bcrypt, Symmetric: crypto/keys/hd, words and bcrypt
      and crypto/symmetric.go.  Words decode to the bytes they were made of,
      and a checksum notices any change of a byte.
    - Keybase, KeybaseOps, KeybaseExamples: the key base of crypto/keys over a
      key-value store.  What each operation returns and leaves under the names:
      an operation touches one key, or none when it fails; a mnemonic
      recovers its key, and a changed passphrase replaces the old one.
    - Linear, LinearOps, LinearExamples: types/lib/linear.go, lists and queues
      in a store; over any lawful store a queue refines a list with a
      possible hole at its front, which a flush that is broken off leaves.

    ** Bounds

    Loops whose length the data bounds are structural; the others have fuel
    that is proved enough where it matters (RegisterNext searches 2^16
    codespaces; PrefixEndBytes has the length of its argument; reading a range
    reads twice as many entries at a time until the iterator is exhausted; the
    loops of the governance end blocker pop a queue at every turn; a Merkle
    tree halves its list, and the walk from a leaf up to the root visits a cell
    of the heap once; Flush turns once per element, and Iterate may turn 2^65
    times, more often than a list has indices).
    The specifications of the staking module are partial: a panic, on a store
    that does not decode or an overflow, discards the state of the
    transaction, and [any_panic] allows it; the other modules list the panics.

    ** Not modelled

    The modules of the example applications and the JSON forms of integers are
    not modelled.  Input and output (command line, REST, start-up), the assets the
    word lists are loaded from, and earlier generations of the code that are
    still in the tree, the state library among them, are left out for good:
    they hold no logic of the core or are not used by it.  Other text forms of
    numbers and records (JSON, amino, Human... methods) belong to libraries or
    are for display. *)
From Stdlib Require Export ZArith Lia.
From Stdlib Require Import Strings.Byte Strings.String.
From stdpp Require Export base tactics option list gmap strings sorting.

#[local] Open Scope Z_scope.

Create HintDb sdk.

Declare Scope sdk_scope.
Delimit Scope sdk_scope with sdk.

(** ** Panics and the effect monad

    A Go function either returns or panics.  [outcome A] is the result of a
    pure function; [M S A] is a function that also reads and writes a state
    [S].  The state is kept when a panic unwinds, because a deferred
    [recover] sees every write made before the panic. *)

(** The values the modelled code panics with. *)
Inductive panic_value : Type :=
  | ErrorOutOfGas (descriptor : string)   (* types/gas.go ErrorOutOfGas *)
  | PanicString (msg : string)            (* panic("...") *)
  | RuntimeError (what : string).         (* nil dereference, index out of range, ... *)

Inductive outcome (A : Type) : Type :=
  | Ok (a : A)
  | Panicked (p : panic_value).
Arguments Ok {A} a.
Arguments Panicked {A} p.

#[export] Instance outcome_ret : MRet outcome := @Ok.
#[export] Instance outcome_bind : MBind outcome := fun A B f m =>
  match m with Ok a => f a | Panicked p => Panicked p end.

Definition M (S A : Type) : Type := S -> outcome A * S.

#[export] Instance M_ret {S} : MRet (M S) := fun A a s => (Ok a, s).
#[export] Instance M_bind {S} : MBind (M S) := fun A B f m s =>
  match m s with
  | (Ok a, s') => f a s'
  | (Panicked p, s') => (Panicked p, s')
  end.

Definition panicM {S A} (p : panic_value) : M S A := fun s => (Panicked p, s).
Definition getM {S} : M S S := fun s => (Ok s, s).
Definition putM {S} (s : S) : M S unit := fun _ => (Ok tt, s).
Definition liftO {S A} (o : outcome A) : M S A := fun s => (o, s).

(** A result whose error the code panics with. *)
Definition must {A} (o : option A) (what : string) : outcome A :=
  match o with Some a => Ok a | None => Panicked (PanicString what) end.

Definition is_Ok {A} (o : outcome A) : Prop := exists a, o = Ok a.

(** [mapM_ f l] runs [f] over [l] in order (a [for range] loop). *)
Fixpoint iterM {S A} (f : A -> M S unit) (l : list A) : M S unit :=
  match l with
  | [] => mret tt
  | a :: l' => f a ≫= fun _ => iterM f l'
  end.

Fixpoint foldM {S A B} (f : B -> A -> M S B) (b : B) (l : list A) : M S B :=
  match l with
  | [] => mret b
  | a :: l' => f b a ≫= fun b' => foldM f b' l'
  end.

(** Weakest precondition: [wp m Q E s] says that running [m] from [s] either
    returns with [Q] or panics with [E]. *)
Definition wp {S A} (m : M S A) (Q : A -> S -> Prop) (E : panic_value -> S -> Prop)
    (s : S) : Prop :=
  match m s with
  | (Ok a, s') => Q a s'
  | (Panicked p, s') => E p s'
  end.

Lemma wp_ret {S A} (a : A) (Q : A -> S -> Prop) E s : Q a s -> wp (mret a) Q E s.
Proof. done. Qed.

Lemma wp_bind {S A B} (m : M S A) (f : A -> M S B) Q E s :
  wp m (fun a => wp (f a) Q E) E s -> wp (m ≫= f) Q E s.
Proof. unfold wp, mbind, M_bind. by destruct (m s) as [[] ?]. Qed.

Lemma wp_mono {S A} (m : M S A) (Q Q' : A -> S -> Prop) (E E' : panic_value -> S -> Prop) s :
  wp m Q E s -> (forall a s', Q a s' -> Q' a s') -> (forall p s', E p s' -> E' p s') ->
  wp m Q' E' s.
Proof. unfold wp. destruct (m s) as [[] ?]; auto. Qed.

Lemma wp_Ok {S A} (m : M S A) Q E s a s' : wp m Q E s -> m s = (Ok a, s') -> Q a s'.
Proof. unfold wp. intros H Hm. by rewrite Hm in H. Qed.

Lemma wp_Panicked {S A} (m : M S A) Q E s p s' :
  wp m Q E s -> m s = (Panicked p, s') -> E p s'.
Proof. unfold wp. intros H Hm. by rewrite Hm in H. Qed.

Lemma bind_Ok {S A B} (m : M S A) (f : A -> M S B) s a s' :
  m s = (Ok a, s') -> (m ≫= f) s = f a s'.
Proof. unfold mbind, M_bind. intros H. by rewrite H. Qed.

Lemma bind_Ok_inv {S A B} (m : M S A) (f : A -> M S B) s b s' :
  (m ≫= f) s = (Ok b, s') -> exists a s1, m s = (Ok a, s1) /\ f a s1 = (Ok b, s').
Proof. unfold mbind, M_bind. destruct (m s) as [[a|p] s1]; [eauto|done]. Qed.

(** [inv_bind H] splits a successful run of a sequence at its first [≫=]. *)
Ltac inv_bind H :=
  let a := fresh "r" in let s := fresh "s" in let H1 := fresh "Hrun" in
  apply bind_Ok_inv in H as (a & s & H1 & H).

(** Two computations on related states: both return related values, or both
    panic with the same value, and the states stay related. *)
Definition rsim {S1 S2 A1 A2} (RA : A1 -> A2 -> Prop) (R : S1 -> S2 -> Prop)
    (m1 : M S1 A1) (m2 : M S2 A2) (s1 : S1) (s2 : S2) : Prop :=
  match m1 s1, m2 s2 with
  | (Ok a1, s1'), (Ok a2, s2') => RA a1 a2 /\ R s1' s2'
  | (Panicked p1, s1'), (Panicked p2, s2') => p1 = p2 /\ R s1' s2'
  | _, _ => False
  end.

Lemma rsim_ret {S1 S2 A1 A2} (RA : A1 -> A2 -> Prop) (R : S1 -> S2 -> Prop) a1 a2 s1 s2 :
  RA a1 a2 -> R s1 s2 -> rsim RA R (mret a1) (mret a2) s1 s2.
Proof. by split. Qed.

Lemma rsim_bind {S1 S2 A1 A2 B1 B2} (RA : A1 -> A2 -> Prop) (RB : B1 -> B2 -> Prop)
    (R R' : S1 -> S2 -> Prop) (m1 : M S1 A1) (m2 : M S2 A2) f1 f2 s1 s2 :
  rsim RA R m1 m2 s1 s2 ->
  (forall p s1' s2', m1 s1 = (Panicked p, s1') -> R s1' s2' -> R' s1' s2') ->
  (forall a1 a2 s1' s2', RA a1 a2 -> R s1' s2' -> rsim RB R' (f1 a1) (f2 a2) s1' s2') ->
  rsim RB R' (m1 ≫= f1) (m2 ≫= f2) s1 s2.
Proof.
  unfold rsim, mbind, M_bind. intros Hm HR Hf.
  destruct (m1 s1) as [[a1|p1] s1'], (m2 s2) as [[a2|p2] s2']; try done.
  - apply Hf; apply Hm.
  - destruct Hm as [<- Hm]. split; [done|]. by eapply HR.
Qed.

Lemma rsim_mono {S1 S2 A1 A2} (RA RA' : A1 -> A2 -> Prop) (R R' : S1 -> S2 -> Prop)
    (m1 : M S1 A1) (m2 : M S2 A2) s1 s2 :
  rsim RA R m1 m2 s1 s2 -> (forall a1 a2, RA a1 a2 -> RA' a1 a2) ->
  (forall s1' s2', R s1' s2' -> R' s1' s2') -> rsim RA' R' m1 m2 s1 s2.
Proof.
  unfold rsim. destruct (m1 s1) as [[a1|p1] s1'], (m2 s2) as [[a2|p2] s2']; naive_solver.
Qed.

(** ** Bytes, slices and strings

    A Go [[]byte] is [None] when it is nil and [Some bs] otherwise; a Go
    [string] is a Rocq [string]. *)

Abbreviation bytes := (list Byte.byte).
Abbreviation slice := (option bytes).

#[export] Instance byte_eq_dec : EqDecision Byte.byte := Byte.byte_eq_dec.
#[export] Program Instance byte_countable : Countable Byte.byte :=
  inj_countable Byte.to_N Byte.of_N _.
Next Obligation. apply Byte.of_to_N. Qed.

Definition string_bytes (s : string) : bytes := list_byte_of_string s.

Lemma string_bytes_inj s1 s2 : string_bytes s1 = string_bytes s2 -> s1 = s2.
Proof.
  intros H. rewrite <- (string_of_list_byte_of_string s1).
  rewrite <- (string_of_list_byte_of_string s2). unfold string_bytes in H. by rewrite H.
Qed.

(** [len(bz)] of a possibly nil slice. *)
Definition slice_len (b : slice) : Z := match b with None => 0 | Some l => Z.of_nat (length l) end.

(** [string(key)] / [append(nil, key...)]: nil reads as the empty string. *)
Definition slice_bytes (b : slice) : bytes := match b with None => [] | Some l => l end.

(** ** bytes.Compare *)

Definition byte_compare (a b : Byte.byte) : comparison := N.compare (Byte.to_N a) (Byte.to_N b).

(** Lexicographic comparison, [bytes.Compare] and [strings.Compare]. *)
Fixpoint bytes_compare (a b : bytes) : comparison :=
  match a, b with
  | [], [] => Eq
  | [], _ :: _ => Lt
  | _ :: _, [] => Gt
  | x :: a', y :: b' =>
      match byte_compare x y with Eq => bytes_compare a' b' | c => c end
  end.

Definition bytes_lt (a b : bytes) : Prop := bytes_compare a b = Lt.
Definition bytes_le (a b : bytes) : Prop := bytes_compare a b <> Gt.

#[export] Instance bytes_lt_dec a b : Decision (bytes_lt a b).
Proof. unfold bytes_lt. apply _. Defined.
#[export] Instance bytes_le_dec a b : Decision (bytes_le a b).
Proof. unfold bytes_le. apply _. Defined.

Lemma byte_compare_eq x y : byte_compare x y = Eq <-> x = y.
Proof.
  unfold byte_compare. rewrite N.compare_eq_iff. split; [|by intros ->].
  intros H. apply (f_equal Byte.of_N) in H. rewrite !Byte.of_to_N in H. congruence.
Qed.

Lemma byte_compare_antisym x y : byte_compare y x = CompOpp (byte_compare x y).
Proof. apply N.compare_antisym. Qed.

Lemma bytes_compare_eq a b : bytes_compare a b = Eq <-> a = b.
Proof.
  revert b. induction a as [|x a IH]; intros [|y b]; simpl; try done.
  destruct (byte_compare x y) eqn:E.
  - apply byte_compare_eq in E as ->. rewrite IH. split; [by intros ->|congruence].
  - split; [done|]. intros [= -> ->]. by rewrite (proj2 (byte_compare_eq y y)) in E.
  - split; [done|]. intros [= -> ->]. by rewrite (proj2 (byte_compare_eq y y)) in E.
Qed.

Lemma bytes_compare_refl a : bytes_compare a a = Eq.
Proof. by apply bytes_compare_eq. Qed.

Lemma bytes_compare_antisym a b : bytes_compare b a = CompOpp (bytes_compare a b).
Proof.
  revert b. induction a as [|x a IH]; intros [|y b]; simpl; try done.
  rewrite (byte_compare_antisym x y). destruct (byte_compare x y); simpl; auto.
Qed.

Lemma bytes_compare_gt a b : bytes_compare a b = Gt <-> bytes_lt b a.
Proof. unfold bytes_lt. rewrite (bytes_compare_antisym a b). by destruct (bytes_compare a b). Qed.

Lemma bytes_lt_trans a b c : bytes_lt a b -> bytes_lt b c -> bytes_lt a c.
Proof.
  unfold bytes_lt. revert b c.
  induction a as [|x a IH]; intros [|y b] [|z c]; simpl; try done.
  destruct (byte_compare x y) eqn:E1; [apply byte_compare_eq in E1 as -> | | done].
  - destruct (byte_compare y z) eqn:E2; [intros; eauto | done | done].
  - intros _. destruct (byte_compare y z) eqn:E2;
      [apply byte_compare_eq in E2 as <-; by rewrite E1 | | done].
    intros _. unfold byte_compare in *. apply N.compare_lt_iff in E1, E2.
    by rewrite (proj2 (N.compare_lt_iff (Byte.to_N x) (Byte.to_N z)) (N.lt_trans _ _ _ E1 E2)).
Qed.

Lemma bytes_lt_irrefl a : ~ bytes_lt a a.
Proof. unfold bytes_lt. by rewrite bytes_compare_refl. Qed.

Lemma bytes_lt_asym a b : bytes_lt a b -> ~ bytes_lt b a.
Proof. intros H1 H2. apply (bytes_lt_irrefl a). by eapply bytes_lt_trans. Qed.

Lemma bytes_le_lteq a b : bytes_le a b <-> bytes_lt a b \/ a = b.
Proof.
  unfold bytes_le, bytes_lt. rewrite <- bytes_compare_eq.
  destruct (bytes_compare a b); intuition congruence.
Qed.

Lemma bytes_lt_total a b : bytes_lt a b \/ a = b \/ bytes_lt b a.
Proof.
  destruct (bytes_compare a b) eqn:E.
  - apply bytes_compare_eq in E. auto.
  - auto.
  - apply bytes_compare_gt in E. auto.
Qed.

Lemma bytes_nle_lt a b : ~ bytes_le a b <-> bytes_lt b a.
Proof.
  rewrite <- bytes_compare_gt. unfold bytes_le.
  destruct (bytes_compare a b); intuition congruence.
Qed.

Lemma bytes_nlt_le a b : ~ bytes_lt a b <-> bytes_le b a.
Proof.
  rewrite bytes_le_lteq. destruct (bytes_lt_total a b) as [H|[ -> |H]].
  - split; [done|]. intros [H'| -> ]; [by apply bytes_lt_asym|by apply bytes_lt_irrefl].
  - split; [by right|intros _; apply bytes_lt_irrefl].
  - split; [by left|intros _; by apply bytes_lt_asym].
Qed.

Lemma bytes_le_refl a : bytes_le a a.
Proof. apply bytes_le_lteq. by right. Qed.

Lemma bytes_le_trans a b c : bytes_le a b -> bytes_le b c -> bytes_le a c.
Proof. rewrite !bytes_le_lteq. intros [H1|H1] [H2|H2]; subst; eauto using bytes_lt_trans. Qed.

Lemma bytes_lt_le_trans a b c : bytes_lt a b -> bytes_le b c -> bytes_lt a c.
Proof. rewrite bytes_le_lteq. intros H1 [H2|H2]; subst; eauto using bytes_lt_trans. Qed.

Lemma bytes_le_lt_trans a b c : bytes_le a b -> bytes_lt b c -> bytes_lt a c.
Proof. rewrite bytes_le_lteq. intros [H1|H1] H2; subst; eauto using bytes_lt_trans. Qed.

Lemma bytes_le_total a b : bytes_le a b \/ bytes_le b a.
Proof. rewrite !bytes_le_lteq. destruct (bytes_lt_total a b) as [H|[H|H]]; auto. Qed.

#[export] Hint Resolve bytes_lt_trans bytes_lt_irrefl bytes_le_refl bytes_le_trans
  bytes_lt_le_trans bytes_le_lt_trans : sdk.

Lemma bytes_compare_app p a b : bytes_compare (p ++ a) (p ++ b) = bytes_compare a b.
Proof.
  induction p as [|x p IH]; simpl; [done|].
  by rewrite (proj2 (byte_compare_eq x x) eq_refl).
Qed.

Lemma bytes_le_nil a : bytes_le [] a.
Proof. unfold bytes_le. by destruct a. Qed.

(** Comparison of Go strings, byte by byte. *)
Definition string_compare (a b : string) : comparison :=
  bytes_compare (string_bytes a) (string_bytes b).
Definition string_lt (a b : string) : Prop := string_compare a b = Lt.

#[export] Instance string_lt_dec a b : Decision (string_lt a b).
Proof. unfold string_lt. apply _. Defined.

Lemma string_compare_eq a b : string_compare a b = Eq <-> a = b.
Proof.
  unfold string_compare. rewrite bytes_compare_eq. split; [apply string_bytes_inj|by intros ->].
Qed.

Lemma string_compare_gt a b : string_compare a b = Gt <-> string_lt b a.
Proof. apply bytes_compare_gt. Qed.

Lemma string_lt_trans a b c : string_lt a b -> string_lt b c -> string_lt a c.
Proof. apply bytes_lt_trans. Qed.

Lemma string_lt_irrefl a : ~ string_lt a a.
Proof. apply bytes_lt_irrefl. Qed.

Lemma string_lt_total a b : string_lt a b \/ a = b \/ string_lt b a.
Proof.
  destruct (bytes_lt_total (string_bytes a) (string_bytes b)) as [H|[H|H]]; auto.
  apply string_bytes_inj in H. auto.
Qed.

#[export] Hint Resolve string_lt_trans string_lt_irrefl : sdk.

(** ** Machine integers *)

Definition min_int64 : Z := - 2 ^ 63.
Definition max_int64 : Z := 2 ^ 63 - 1.

(** Two's complement wrap-around of the 64-bit types and of uint16. *)
Definition wrap64 (z : Z) : Z := (z + 2 ^ 63) mod 2 ^ 64 - 2 ^ 63.
Definition wrapu64 (z : Z) : Z := z mod 2 ^ 64.
Definition wrapu16 (z : Z) : Z := z mod 2 ^ 16.

Definition is_int64 (z : Z) : Prop := min_int64 <= z <= max_int64.
Definition is_uint64 (z : Z) : Prop := 0 <= z < 2 ^ 64.

#[export] Instance is_int64_dec z : Decision (is_int64 z).
Proof. unfold is_int64. apply _. Defined.
#[export] Instance is_uint64_dec z : Decision (is_uint64 z).
Proof. unfold is_uint64. apply _. Defined.

Lemma wrap64_id z : is_int64 z -> wrap64 z = z.
Proof.
  unfold is_int64, min_int64, max_int64, wrap64. intros H. rewrite Z.mod_small; lia.
Qed.

Lemma wrapu64_id z : is_uint64 z -> wrapu64 z = z.
Proof. apply Z.mod_small. Qed.

Lemma wrap64_is_int64 z : is_int64 (wrap64 z).
Proof.
  unfold is_int64, min_int64, max_int64, wrap64.
  pose proof (Z.mod_pos_bound (z + 2 ^ 63) (2 ^ 64)). lia.
Qed.

Lemma wrapu64_is_uint64 z : is_uint64 (wrapu64 z).
Proof. apply Z.mod_pos_bound. lia. Qed.

#[export] Hint Resolve wrap64_is_int64 wrapu64_is_uint64 : sdk.
#[export] Hint Rewrite wrap64_id wrapu64_id using (unfold is_int64, is_uint64, min_int64, max_int64 in *; lia) : sdk.

(** ** Sums over a map *)

Section map_total.
Context {K V : Type} `{Countable K} (f : K -> V -> Z).

Definition map_total (m : gmap K V) : Z := map_fold (fun k v z => f k v + z) 0 m.

Lemma map_total_empty : map_total ∅ = 0.
Proof. apply map_fold_empty. Qed.

Lemma map_total_new (m : gmap K V) k v : m !! k = None -> map_total (<[k := v]> m) = f k v + map_total m.
Proof. intros Hk. unfold map_total. rewrite map_fold_insert_L; [done| |done]. intros. lia. Qed.

Lemma map_total_delete (m : gmap K V) k :
  map_total (delete k m) = map_total m - from_option (f k) 0 (m !! k).
Proof.
  destruct (m !! k) as [v|] eqn:E; simpl.
  - rewrite <- (insert_delete_id m k v E) at 2. rewrite map_total_new by apply lookup_delete_eq. lia.
  - rewrite delete_id by done. lia.
Qed.

Lemma map_total_insert (m : gmap K V) k v :
  map_total (<[k := v]> m) = map_total m - from_option (f k) 0 (m !! k) + f k v.
Proof. rewrite <- insert_delete_eq, map_total_new by apply lookup_delete_eq. rewrite map_total_delete. lia. Qed.

Lemma map_total_nonneg (m : gmap K V) : (forall k v, m !! k = Some v -> 0 <= f k v) -> 0 <= map_total m.
Proof.
  induction m as [|k v m Hk IH] using map_ind; intros Hf; [by rewrite map_total_empty|].
  rewrite map_total_new by done. assert (0 <= f k v) by (apply Hf, lookup_insert_eq).
  assert (0 <= map_total m); [|lia]. apply IH. intros k' v' Hk'. apply Hf. rewrite lookup_insert_ne; [done|congruence].
Qed.
End map_total.

Lemma map_total_ext {K V : Type} `{Countable K} (f g : K -> V -> Z) (m : gmap K V) :
  (forall k v, m !! k = Some v -> f k v = g k v) -> map_total f m = map_total g m.
Proof.
  induction m as [|k v m Hk IH] using map_ind; intros Hf; [by rewrite !map_total_empty|].
  rewrite !map_total_new by done. rewrite Hf by apply lookup_insert_eq. f_equal. apply IH.
  intros k' v' Hk'. apply Hf. rewrite lookup_insert_ne; [done|congruence].
Qed.

Lemma map_total_filter {K V : Type} `{Countable K} (f : K -> V -> Z) (P : K * V -> Prop) `{!forall x, Decision (P x)} (M : gmap K V) :
  map_total f (filter P M) = map_total (fun k v => if decide (P (k, v)) then f k v else 0) M.
Proof.
  induction M as [|k v M Hk IH] using map_ind; [by rewrite map_filter_empty, !map_total_empty|].
  rewrite map_total_new by done. destruct (decide (P (k, v))) as [HP|HP].
  - rewrite map_filter_insert_True by done. rewrite map_total_new, IH; [done|]. apply map_lookup_filter_None. by left.
  - rewrite map_filter_insert_False by done. rewrite delete_id by done. by rewrite IH.
Qed.

Lemma map_total_add {K V : Type} `{Countable K} (f g : K -> V -> Z) (M : gmap K V) :
  map_total (fun k v => f k v + g k v) M = map_total f M + map_total g M.
Proof.
  induction M as [|k v M Hk IH] using map_ind; [by rewrite !map_total_empty|]. rewrite !map_total_new by done. lia.
Qed.
