(* ===== verification/Names.v ===== *)
(** * Names and numbers as bytes

    Keys that Go's fmt builds from texts and decimal numbers around a
    separator: the bytes of a concatenation, and when the parts can be told
    apart again; numbers of a fixed width and their order; decimal and
    hexadecimal texts read back; splitting a text at a separator. *)
From Stdlib Require Import Strings.Byte Strings.Ascii Strings.String.
From S2P Require Import Prelude.
From stdpp Require Import pretty.
#[local] Open Scope string_scope.
#[local] Open Scope list_scope.
#[local] Open Scope Z_scope.

Lemma string_bytes_String c s : string_bytes (String c s) = Ascii.byte_of_ascii c :: string_bytes s.
Proof. done. Qed.
Lemma string_bytes_length s : length (string_bytes s) = String.length s.
Proof. induction s as [|c s IH]; [done|]. rewrite string_bytes_String. simpl. by rewrite IH. Qed.
Lemma string_bytes_app s1 s2 : string_bytes (s1 ++ s2)%string = string_bytes s1 ++ string_bytes s2.
Proof.
  induction s1 as [|c s1 IH]; [done|].
  change ((String c s1 ++ s2)%string) with (String c (s1 ++ s2)%string). by rewrite !string_bytes_String, IH.
Qed.

Lemma list_ascii_app a b :
  list_ascii_of_string (a ++ b)%string = list_ascii_of_string a ++ list_ascii_of_string b.
Proof. induction a as [|c a IH]; [done|]. simpl. by rewrite IH. Qed.

Lemma list_ascii_inj a b : list_ascii_of_string a = list_ascii_of_string b -> a = b.
Proof. intros E. rewrite <- (string_of_list_ascii_of_string a), E. apply string_of_list_ascii_of_string. Qed.

(** The text has no [c]. *)
Definition without (c : Ascii.ascii) (s : string) : Prop := c ∉ list_ascii_of_string s.

(** The part before the first separator. *)
Lemma split_at (c : Ascii.ascii) (a b x y : string) :
  without c a -> without c b -> (a ++ String c x)%string = (b ++ String c y)%string -> a = b /\ x = y.
Proof.
  unfold without. intros Ha Hb E. apply (f_equal list_ascii_of_string) in E.
  rewrite !list_ascii_app in E. simpl in E.
  assert (list_ascii_of_string a = list_ascii_of_string b /\ list_ascii_of_string x = list_ascii_of_string y) as [E1 E2];
    [|by split; apply list_ascii_inj].
  revert Ha Hb E. generalize (list_ascii_of_string a) (list_ascii_of_string b).
  intros l. induction l as [|d l IH]; intros [|d' l'] Ha Hb E; simpl in E.
  - by injection E.
  - injection E as E0 E1. exfalso. apply Hb. rewrite <- E0. left.
  - injection E as E0 E1. exfalso. apply Ha. rewrite E0. left.
  - injection E as E0 E1.
    destruct (IH l') as [-> ->]; [by intros Hin; apply Ha; right|by intros Hin; apply Hb; right|done|by subst].
Qed.

Lemma without_name (c : Ascii.ascii) (a b x : string) : without c a -> a <> (b ++ String c x)%string.
Proof. intros Ha ->. apply Ha. rewrite list_ascii_app. apply elem_of_app. right. simpl. left. Qed.

(** Decimal numbers have only digits and a sign. *)
Definition not_decimal (c : Ascii.ascii) : Prop := c <> Ascii.ascii_of_nat 45 /\ forall n, c <> pretty_N_char n.

Lemma pretty_N_go_without c x s : not_decimal c -> without c s -> without c (pretty_N_go x s).
Proof.
  intros [_ Hc]. revert s. induction (N.lt_wf_0 x) as [x _ IH]. intros s Hs.
  assert (x = 0 \/ 0 < x)%N as [ -> |Hx] by lia; [by rewrite pretty_N_go_0|].
  rewrite pretty_N_go_step by done. apply IH; [apply N.div_lt; lia|].
  unfold without. simpl. intros [E|?]%elem_of_cons; [|by apply Hs]. by eapply Hc.
Qed.

Lemma pretty_N_without c (n : N) : not_decimal c -> without c (pretty n).
Proof.
  intros Hc. change (without c (if decide (n = 0)%N then "0" else pretty_N_go n "")). case_decide.
  - unfold without. simpl. intros [E|?%not_elem_of_nil]%elem_of_cons; [|done]. by apply (proj2 Hc 0%N).
  - apply pretty_N_go_without; [done|]. unfold without. simpl. apply not_elem_of_nil.
Qed.

Lemma pretty_Z_without c (z : Z) : not_decimal c -> without c (pretty z).
Proof.
  intros Hc. destruct z as [|p|p].
  - unfold without. cbn. intros [E|?%not_elem_of_nil]%elem_of_cons; [|done]. by apply (proj2 Hc 0%N).
  - by apply pretty_N_without.
  - change (without c ("-" ++ pretty (N.pos p))%string). unfold without. rewrite list_ascii_app. simpl.
    intros [E|?]%elem_of_cons; [by apply (proj1 Hc)|]. by apply (pretty_N_without c (N.pos p)).
Qed.

Lemma colon_not_decimal : not_decimal ":"%char.
Proof. split; [done|]. intros n. unfold pretty_N_char. by repeat case_match. Qed.

(** ** Comparing fixed-width numbers as bytes *)

Lemma bytes_compare_same_length a b x y :
  length a = length b ->
  bytes_compare (a ++ x) (b ++ y) = match bytes_compare a b with Eq => bytes_compare x y | c => c end.
Proof.
  revert b. induction a as [|h a IH]; intros [|h' b] Hl; simpl in *; try done; try lia.
  destruct (byte_compare h h') eqn:E; [|done..]. apply IH. lia.
Qed.

Section digits.
Context (base : Z) (digit : Z -> Byte.byte) (Hbase : 1 < base).
Hypothesis digit_compare : forall a b, 0 <= a < base -> 0 <= b < base ->
  byte_compare (digit a) (digit b) = Z.compare a b.

Fixpoint digits (n : nat) (z : Z) : bytes :=
  match n with O => [] | S n => digits n (z / base) ++ [digit (z mod base)] end.

Lemma digits_length n z : length (digits n z) = n.
Proof. revert z. induction n as [|n IH]; intros z; [done|]. simpl. rewrite length_app, IH. simpl. lia. Qed.

Lemma digits_compare n a b :
  0 <= a < base ^ Z.of_nat n -> 0 <= b < base ^ Z.of_nat n ->
  bytes_compare (digits n a) (digits n b) = Z.compare a b.
Proof using Hbase digit_compare.
  revert a b. induction n as [|n IH]; intros a b Ha Hb.
  - simpl in *. by replace a with 0 by lia; replace b with 0 by lia.
  - rewrite Nat2Z.inj_succ, Z.pow_succ_r in Ha, Hb by lia. simpl.
    rewrite bytes_compare_same_length by by rewrite !digits_length.
    assert (Hd : forall z, 0 <= z < base * base ^ Z.of_nat n -> 0 <= z / base < base ^ Z.of_nat n).
    { intros z Hz. split; [apply Z.div_pos; lia|]. apply Z.div_lt_upper_bound; lia. }
    rewrite IH by auto. simpl.
    pose proof (Z.mod_pos_bound a base ltac:(lia)). pose proof (Z.mod_pos_bound b base ltac:(lia)).
    rewrite digit_compare by done.
    pose proof (Z.div_mod a base ltac:(lia)) as Ea. pose proof (Z.div_mod b base ltac:(lia)) as Eb.
    destruct (Z.compare_spec (a / base) (b / base)) as [E|E|E]; symmetry.
    + rewrite E in Ea. destruct (Z.compare_spec (a mod base) (b mod base)); simpl;
        [apply Z.compare_eq_iff|apply Z.compare_lt_iff|apply Z.compare_gt_iff]; lia.
    + apply Z.compare_lt_iff. nia.
    + apply Z.compare_gt_iff. nia.
Qed.
End digits.

(** ** Big-endian numbers *)

(** binary.BigEndian of [n] bytes. *)
Definition byte_of_Z (z : Z) : Byte.byte := default Byte.x00 (Byte.of_N (Z.to_N (z mod 256))).
Fixpoint be_bytes (n : nat) (z : Z) : bytes :=
  match n with O => [] | S n => be_bytes n (z / 256) ++ [byte_of_Z z] end.

Lemma be_bytes_digits n z : be_bytes n z = digits 256 byte_of_Z n z.
Proof.
  revert z. induction n as [|n IH]; intros z; [done|]. simpl. rewrite IH. do 2 f_equal.
  unfold byte_of_Z. by rewrite Z.mod_mod.
Qed.

Lemma to_N_byte_of_Z z : Byte.to_N (byte_of_Z z) = Z.to_N (z mod 256).
Proof.
  unfold byte_of_Z. pose proof (Z.mod_pos_bound z 256 ltac:(lia)).
  destruct (Byte.of_N (Z.to_N (z mod 256))) eqn:E; simpl; [by apply Byte.to_of_N|].
  apply Byte.of_N_None_iff in E. lia.
Qed.

Lemma be_bytes_length n z : length (be_bytes n z) = n.
Proof. rewrite be_bytes_digits. apply digits_length. Qed.

Lemma be_bytes_compare n a b :
  0 <= a < 256 ^ Z.of_nat n -> 0 <= b < 256 ^ Z.of_nat n ->
  bytes_compare (be_bytes n a) (be_bytes n b) = Z.compare a b.
Proof.
  rewrite !be_bytes_digits. apply digits_compare; [lia|].
  intros x y Hx Hy. unfold byte_compare. rewrite !to_N_byte_of_Z, !Z.mod_small by done.
  rewrite <- (Z2N.id x) at 2 by lia. rewrite <- (Z2N.id y) at 2 by lia. symmetry. apply N2Z.inj_compare.
Qed.

(** The number a slice is, big-endian. *)
Fixpoint be_value_from (acc : Z) (bz : bytes) : Z :=
  match bz with [] => acc | b :: bz => be_value_from (acc * 256 + Z.of_N (Byte.to_N b)) bz end.
Definition be_value (bz : bytes) : Z := be_value_from 0 bz.

Lemma byte_range b : 0 <= Z.of_N (Byte.to_N b) < 256.
Proof. pose proof (Byte.to_N_bounded b). lia. Qed.

Lemma be_value_snoc bz b : be_value (bz ++ [b]) = be_value bz * 256 + Z.of_N (Byte.to_N b).
Proof. unfold be_value. generalize 0. induction bz as [|c bz IH]; intros acc; [done|]. simpl. apply IH. Qed.

Lemma be_value_be_bytes n z : be_value (be_bytes n z) = z mod 256 ^ Z.of_nat n.
Proof.
  revert z. induction n as [|n IH]; intros z; [by rewrite Z.mod_1_r|].
  rewrite Nat2Z.inj_succ, Z.pow_succ_r by lia. cbn [be_bytes]. rewrite be_value_snoc, IH, to_N_byte_of_Z, Z2N.id.
  - rewrite Z.rem_mul_r by lia. lia.
  - pose proof (Z.mod_pos_bound z 256 ltac:(lia)). lia.
Qed.

Lemma be_value_bound bz : 0 <= be_value bz < 256 ^ Z.of_nat (length bz).
Proof.
  induction bz as [|b bz IH] using rev_ind; [done|]. rewrite be_value_snoc, length_app.
  replace (Z.of_nat (length bz + length [b])) with (Z.succ (Z.of_nat (length bz))) by (simpl; lia).
  rewrite Z.pow_succ_r by lia. pose proof (byte_range b). lia.
Qed.

Lemma byte_of_Z_to_N b : byte_of_Z (Z.of_N (Byte.to_N b)) = b.
Proof.
  unfold byte_of_Z. pose proof (byte_range b). rewrite Z.mod_small, N2Z.id by done. by rewrite Byte.of_to_N.
Qed.

Lemma byte_of_Z_mod z k : byte_of_Z (k * 256 + z) = byte_of_Z z.
Proof. unfold byte_of_Z. by rewrite Z.add_comm, Z_mod_plus_full. Qed.

Lemma be_bytes_be_value bz : be_bytes (length bz) (be_value bz) = bz.
Proof.
  induction bz as [|b bz IH] using rev_ind; [done|]. rewrite be_value_snoc, length_app, Nat.add_comm.
  cbn [length Nat.add be_bytes]. pose proof (byte_range b).
  rewrite Z.div_add_l, Z.div_small, Z.add_0_r, IH by lia. by rewrite byte_of_Z_mod, byte_of_Z_to_N.
Qed.

(** ** Zero-padded decimals *)

Definition dec_digit (z : Z) : Byte.byte := Ascii.byte_of_ascii (pretty_N_char (Z.to_N z)).

Lemma dec_digit_compare a b :
  0 <= a < 10 -> 0 <= b < 10 -> byte_compare (dec_digit a) (dec_digit b) = Z.compare a b.
Proof.
  intros Ha Hb.
  assert (Hc : forall z, 0 <= z < 10 -> z = 0 \/ z = 1 \/ z = 2 \/ z = 3 \/ z = 4 \/ z = 5 \/ z = 6 \/ z = 7 \/ z = 8 \/ z = 9) by lia.
  destruct (Hc a Ha) as [E|[E|[E|[E|[E|[E|[E|[E|[E|E]]]]]]]]];
    destruct (Hc b Hb) as [F|[F|[F|[F|[F|[F|[F|[F|[F|F]]]]]]]]]; rewrite E, F; reflexivity.
Qed.

Lemma dec_zero n : digits 10 dec_digit n 0 = repeat Byte.x30 n.
Proof.
  induction n as [|n IH]; [done|]. change (repeat Byte.x30 (S n)) with (Byte.x30 :: repeat Byte.x30 n).
  simpl. rewrite Zdiv_0_l, IH. by rewrite <- repeat_cons.
Qed.

Lemma pretty_N_go_digits n x s :
  (Z.of_N x < 10 ^ Z.of_nat n) ->
  (String.length s <= String.length (pretty_N_go x s) <= n + String.length s)%nat /\
  repeat Byte.x30 (n - (String.length (pretty_N_go x s) - String.length s)) ++ string_bytes (pretty_N_go x s)
  = digits 10 dec_digit n (Z.of_N x) ++ string_bytes s.
Proof.
  revert x s. induction n as [|n IH]; intros x s Hx.
  - simpl in Hx. assert (x = 0%N) as -> by lia. rewrite pretty_N_go_0. simpl. split; [lia|done].
  - destruct (decide (x = 0%N)) as [ -> |Hne].
    + rewrite pretty_N_go_0, Nat.sub_diag, Nat.sub_0_r. split; [lia|]. by rewrite dec_zero.
    + rewrite pretty_N_go_step by lia.
      rewrite Nat2Z.inj_succ, Z.pow_succ_r in Hx by lia.
      destruct (IH (x / 10)%N (String (pretty_N_char (x mod 10)) s)) as [Hl Hd].
      { rewrite N2Z.inj_div. apply Z.div_lt_upper_bound; lia. }
      simpl String.length in Hl, Hd. split; [lia|].
      replace (S n - (String.length (pretty_N_go (x / 10) (String (pretty_N_char (x mod 10)) s)) - String.length s))%nat
        with (n - (String.length (pretty_N_go (x / 10) (String (pretty_N_char (x mod 10)) s)) - S (String.length s)))%nat by lia.
      rewrite Hd, N2Z.inj_div. simpl. rewrite <- app_assoc. do 2 f_equal. simpl. f_equal.
      unfold dec_digit. change 10 with (Z.of_N 10). rewrite <- N2Z.inj_mod, N2Z.id. done.
Qed.

(** ** Reading decimals: strconv *)

Definition digit_value (b : Byte.byte) : option Z :=
  let n := Z.of_N (Byte.to_N b) in if (48 <=? n) && (n <=? 57) then Some (n - 48) else None.

(** Digits of a number below [limit], after those of [acc]. *)
Fixpoint parse_digits (limit acc : Z) (s : bytes) : option Z :=
  match s with
  | [] => Some acc
  | b :: s =>
      match digit_value b with
      | None => None
      | Some d => let acc := acc * 10 + d in if acc <? limit then parse_digits limit acc s else None
      end
  end.
Definition ParseUint (limit : Z) (s : bytes) : option Z := match s with [] => None | _ => parse_digits limit 0 s end.

(** strconv.ParseUint in base 10 for 64 bits. *)
Definition ParseUint64 : bytes -> option Z := ParseUint (2 ^ 64).

(** strconv.Atoi; an int has 64 bits. *)
Definition Atoi (s : bytes) : option Z :=
  match s with
  | Byte.x2b :: s => ParseUint (2 ^ 63) s
  | Byte.x2d :: s => Z.opp <$> ParseUint (2 ^ 63 + 1) s
  | s => ParseUint (2 ^ 63) s
  end.

Lemma digit_value_dec d : 0 <= d < 10 -> digit_value (dec_digit d) = Some d.
Proof.
  intros Hd. assert (d = 0 \/ d = 1 \/ d = 2 \/ d = 3 \/ d = 4 \/ d = 5 \/ d = 6 \/ d = 7 \/ d = 8 \/ d = 9) as Hc by lia.
  destruct Hc as [E|[E|[E|[E|[E|[E|[E|[E|[E|E]]]]]]]]]; rewrite E; reflexivity.
Qed.

Lemma parse_digits_app limit n z acc s :
  0 <= acc -> 0 <= z < 10 ^ Z.of_nat n -> acc * 10 ^ Z.of_nat n + z < limit ->
  parse_digits limit acc (digits 10 dec_digit n z ++ s) = parse_digits limit (acc * 10 ^ Z.of_nat n + z) s.
Proof.
  revert z acc s. induction n as [|n IH]; intros z acc s Ha Hz Hs.
  - simpl in *. f_equal. lia.
  - rewrite Nat2Z.inj_succ, Z.pow_succ_r in Hz, Hs by lia. rewrite Nat2Z.inj_succ, Z.pow_succ_r by lia.
    cbn [digits]. rewrite <- app_assoc.
    pose proof (Z.div_mod z 10 ltac:(lia)) as Ez. pose proof (Z.mod_pos_bound z 10 ltac:(lia)) as Em.
    assert (0 <= z / 10 < 10 ^ Z.of_nat n).
    { split; [apply Z.div_pos; lia|]. apply Z.div_lt_upper_bound; lia. }
    rewrite IH by nia. cbn [app parse_digits]. rewrite digit_value_dec by done.
    replace ((acc * 10 ^ Z.of_nat n + z / 10) * 10 + z mod 10) with (acc * (10 * 10 ^ Z.of_nat n) + z) by nia.
    by rewrite (proj2 (Z.ltb_lt _ _)) by done.
Qed.

Lemma parse_digits_zeros limit k s : 0 < limit -> parse_digits limit 0 (repeat Byte.x30 k ++ s) = parse_digits limit 0 s.
Proof. intros Hl. induction k as [|k IH]; [done|]. simpl. by rewrite (proj2 (Z.ltb_lt _ _)) by done. Qed.

(** The text fmt writes for a number parses to it. *)
Lemma ParseUint_pretty limit (x : N) : Z.of_N x < limit -> ParseUint limit (string_bytes (pretty x)) = Some (Z.of_N x).
Proof.
  intros Hx. destruct (decide (x = 0%N)) as [ -> |Hne].
  { change (string_bytes (pretty 0%N)) with [Byte.x30]. unfold ParseUint, parse_digits.
    change (digit_value Byte.x30) with (Some 0). cbv beta iota zeta. by rewrite (proj2 (Z.ltb_lt _ _)) by (simpl in *; lia). }
  assert (Ep : pretty x = pretty_N_go x "") by (unfold pretty, pretty_N; by destruct x).
  rewrite Ep. destruct (pretty_N_go_digits (N.to_nat x) x "") as [Hlen Hd].
  { rewrite N_nat_Z. apply Z.pow_gt_lin_r; lia. }
  simpl String.length in Hd. rewrite Nat.sub_0_r, app_nil_r in Hd. unfold ParseUint.
  assert (Hp : parse_digits limit 0 (string_bytes (pretty_N_go x "")) = Some (Z.of_N x)).
  { erewrite <- parse_digits_zeros by lia. rewrite Hd, <- (app_nil_r (digits _ _ _ _)), parse_digits_app; [done|lia| |lia].
    rewrite N_nat_Z. split; [lia|]. apply Z.pow_gt_lin_r; lia. }
  destruct (string_bytes (pretty_N_go x "")); [injection Hp as E0; lia|done].
Qed.

Lemma dec_digit_head (x : N) b s : string_bytes (pretty x) = b :: s -> b <> Byte.x2b /\ b <> Byte.x2d.
Proof.
  intros E. pose proof (ParseUint_pretty (Z.of_N x + 1) x ltac:(lia)) as Hp. rewrite E in Hp. cbn in Hp.
  split; intros ->; by vm_compute in Hp.
Qed.

Lemma Atoi_pretty (x : N) : Z.of_N x < 2 ^ 63 -> Atoi (string_bytes (pretty x)) = Some (Z.of_N x).
Proof.
  intros Hx. pose proof (ParseUint_pretty _ x Hx) as Hp. pose proof (dec_digit_head x) as Hh.
  destruct (string_bytes (pretty x)) as [|b s]; [done|]. destruct (Hh b s eq_refl). rewrite <- Hp. by destruct b.
Qed.

(** ** encoding/hex, as far as it is used *)

(** fromHexChar. *)
Definition hex_digit (c : ascii) : option Z :=
  let n := Z.of_N (N_of_ascii c) in
  if (48 <=? n) && (n <=? 57) then Some (n - 48)
  else if (97 <=? n) && (n <=? 102) then Some (n - 97 + 10)
  else if (65 <=? n) && (n <=? 70) then Some (n - 65 + 10)
  else None.

(** DecodeString: an odd length or a foreign character is an error. *)
Fixpoint hex_DecodeString (s : string) : option bytes :=
  match s with
  | "" => Some []
  | String a (String b s) =>
      x ← hex_digit a; y ← hex_digit b; bz ← hex_DecodeString s;
      c ← Byte.of_N (Z.to_N (x * 16 + y)); Some (c :: bz)
  | String _ "" => None
  end.

(** %X of a slice. *)
Definition hex_char (z : Z) : ascii := ascii_of_N (Z.to_N (if z <? 10 then z + 48 else z + 55)).
Fixpoint hex_Upper (bz : bytes) : string :=
  match bz with
  | [] => ""
  | b :: bz =>
      let z := Z.of_N (Byte.to_N b) in
      String (hex_char (z / 16)) (String (hex_char (z mod 16)) (hex_Upper bz))
  end.

Lemma hex_digit_char z : 0 <= z < 16 -> hex_digit (hex_char z) = Some z.
Proof.
  intros Hz. assert (Hall : forallb (fun n => bool_decide (hex_digit (hex_char (Z.of_nat n)) = Some (Z.of_nat n))) (seq 0 16) = true)
    by (vm_compute; reflexivity).
  rewrite forallb_forall in Hall. specialize (Hall (Z.to_nat z)). rewrite Z2Nat.id, bool_decide_eq_true in Hall by lia.
  apply Hall, in_seq. lia.
Qed.

Lemma hex_Decode_Upper bz : hex_DecodeString (hex_Upper bz) = Some bz.
Proof.
  induction bz as [|b bz IH]; [done|]. cbn [hex_Upper hex_DecodeString]. pose proof (byte_range b) as Hb.
  set (z := Z.of_N (Byte.to_N b)) in *.
  rewrite !hex_digit_char by (pose proof (Z.div_mod z 16); pose proof (Z.mod_pos_bound z 16); lia).
  rewrite IH. cbn [mbind option_bind]. replace (z / 16 * 16 + z mod 16) with z by (pose proof (Z.div_mod z 16); lia).
  unfold z. by rewrite N2Z.id, Byte.of_to_N.
Qed.

Example hex_DecodeString_ex : hex_DecodeString "0aF1" = Some [Byte.x0a; Byte.xf1].
Proof. reflexivity. Qed.

(** ** strings.Split *)

Fixpoint Split (sep : Ascii.ascii) (s : string) : list string :=
  match s with
  | EmptyString => [""]
  | String c s =>
      if Ascii.eqb c sep then "" :: Split sep s
      else match Split sep s with
           | [] => [String c ""]
           | w :: ws => String c w :: ws
           end
  end.

Lemma Split_app sep a b : without sep a -> Split sep (a ++ String sep b) = a :: Split sep b.
Proof.
  induction a as [|c a IH]; intros Ha; simpl; [by rewrite Ascii.eqb_refl|].
  destruct (Ascii.eqb_spec c sep) as [->|Hne]; [exfalso; apply Ha; left|].
  rewrite IH; [done|]. intros Hin. apply Ha. by right.
Qed.

Lemma Split_last sep a : without sep a -> Split sep a = [a].
Proof.
  induction a as [|c a IH]; intros Ha; simpl; [done|].
  destruct (Ascii.eqb_spec c sep) as [->|Hne]; [exfalso; apply Ha; left|].
  rewrite IH; [done|]. intros Hin. apply Ha. by right.
Qed.
