(* ===== verification/Sha2.v ===== *)
(** * Hash functions of Go's standard library

    crypto/sha256, crypto/sha512 and crypto/hmac: FIPS 180-4 and RFC 2104, on
    lists of bytes; the constants are computed from the primes they come from.
    [tmhash], the hash of the Merkle trees, is the front of a SHA-256. *)
From Stdlib Require Import Strings.Byte Strings.String.
From S2P Require Import Prelude Names.
#[local] Open Scope string_scope.
#[local] Open Scope list_scope.
#[local] Open Scope Z_scope.

(** ** Constants: fractional parts of square and cube roots of primes *)

Definition is_prime (p : nat) : bool :=
  forallb (fun d => negb (Nat.modulo p d =? 0)%nat) (seq 2 (p - 2)).
(** The first 80 primes are below 410. *)
Definition primes : list Z := Z.of_nat <$> List.filter is_prime (seq 2 408).

(** The largest [r] below [2 ^ n] with [r ^ k <= x]. *)
Fixpoint root_bits (k : Z) (n : nat) (r x : Z) : Z :=
  match n with
  | O => r
  | S n => let r' := r + 2 ^ Z.of_nat n in root_bits k n (if r' ^ k <=? x then r' else r) x
  end.

Definition w64 (z : Z) : Z := z mod 2 ^ 64.
Definition sha_H0 : list Z := Eval vm_compute in (fun p => w64 (root_bits 2 72 0 (p * 2 ^ 128))) <$> take 8 primes.
Definition sha_K : list Z := Eval vm_compute in (fun p => w64 (root_bits 3 68 0 (p * 2 ^ 192))) <$> take 80 primes.

(** ** The compression function *)

Definition rotr (n z : Z) : Z := Z.lor (Z.shiftr z n) (w64 (Z.shiftl z (64 - n))).
Definition Ch (x y z : Z) : Z := Z.lxor (Z.land x y) (Z.land (Z.lnot x) z).
Definition Maj (x y z : Z) : Z := Z.lxor (Z.lxor (Z.land x y) (Z.land x z)) (Z.land y z).
Definition Sigma0 (x : Z) : Z := Z.lxor (Z.lxor (rotr 28 x) (rotr 34 x)) (rotr 39 x).
Definition Sigma1 (x : Z) : Z := Z.lxor (Z.lxor (rotr 14 x) (rotr 18 x)) (rotr 41 x).
Definition sigma0 (x : Z) : Z := Z.lxor (Z.lxor (rotr 1 x) (rotr 8 x)) (Z.shiftr x 7).
Definition sigma1 (x : Z) : Z := Z.lxor (Z.lxor (rotr 19 x) (rotr 61 x)) (Z.shiftr x 6).

(** The schedule, latest word first: [ws] has at least 16 words. *)
Fixpoint schedule (n : nat) (ws : list Z) : list Z :=
  match n with
  | O => rev ws
  | S n =>
      let w i := nth (i - 1) ws 0 in
      schedule n (w64 (sigma1 (w 2%nat) + w 7%nat + sigma0 (w 15%nat) + w 16%nat) :: ws)
  end.

Definition sha_round (s : list Z) (kw : Z * Z) : list Z :=
  match s with
  | [a; b; c; d; e; f; g; h] =>
      let t1 := w64 (h + Sigma1 e + Ch e f g + kw.1 + kw.2) in
      let t2 := w64 (Sigma0 a + Maj a b c) in
      [w64 (t1 + t2); a; b; c; w64 (d + t1); e; f; g]
  | _ => s
  end.

Definition words (block : bytes) : list Z :=
  (fun i => be_value (take 8 (drop (8 * i) block))) <$> seq 0 16.
Definition compress (h : list Z) (block : bytes) : list Z :=
  zip_with (fun x y => w64 (x + y)) h (fold_left sha_round (zip sha_K (schedule 64 (rev (words block)))) h).

(** ** Padding and the digest *)

Definition sha_pad (msg : bytes) : bytes :=
  let n := length msg in
  msg ++ [Byte.x80] ++ repeat Byte.x00 ((239 - n mod 128) mod 128) ++ be_bytes 16 (8 * Z.of_nat n).
Fixpoint blocks (n : nat) (size : nat) (bz : bytes) : list bytes :=
  match n with O => [] | S n => take size bz :: blocks n size (drop size bz) end.

Definition sha512 (msg : bytes) : bytes :=
  let padded := sha_pad msg in
  concat (be_bytes 8 <$> fold_left compress (blocks (length padded / 128) 128 padded) sha_H0).

(** ** HMAC *)

Definition xor_byte (c b : Byte.byte) : Byte.byte :=
  byte_of_Z (Z.lxor (Z.of_N (Byte.to_N c)) (Z.of_N (Byte.to_N b))).
Definition hmac_sha512 (key data : bytes) : bytes :=
  let key := if (128 <? length key)%nat then sha512 key else key in
  let key := key ++ repeat Byte.x00 (128 - length key) in
  sha512 ((xor_byte Byte.x5c <$> key) ++ sha512 ((xor_byte Byte.x36 <$> key) ++ data)).

(** The digests have 64 bytes. *)
Lemma sha_round_length s kw : length s = 8%nat -> length (sha_round s kw) = 8%nat.
Proof. destruct s as [|a [|b [|c [|d [|e [|f [|g [|h [|]]]]]]]]]; done. Qed.

Lemma compress_eight h block : length h = 8%nat -> length (compress h block) = 8%nat.
Proof.
  intros Hh. unfold compress. rewrite length_zip_with. enough (forall kws s, length s = 8%nat -> length (fold_left sha_round kws s) = 8%nat) as ->.
  - lia.
  - done.
  - intros kws. induction kws as [|kw kws IH]; intros s Hs; [done|]. by apply IH, sha_round_length.
Qed.

Lemma concat_words (l : list Z) : length (concat (be_bytes 8 <$> l)) = (8 * length l)%nat.
Proof. induction l as [|z l IH]; [done|]. rewrite fmap_cons. cbn [concat length]. rewrite length_app, be_bytes_length, IH. lia. Qed.

Lemma sha512_length msg : length (sha512 msg) = 64%nat.
Proof.
  unfold sha512. rewrite concat_words. enough (forall bs h, length h = 8%nat -> length (fold_left compress bs h) = 8%nat) as ->; [done|done|].
  intros bs. induction bs as [|b bs IH]; intros h Hh; [done|]. by apply IH, compress_eight.
Qed.

Lemma hmac_sha512_length key data : length (hmac_sha512 key data) = 64%nat.
Proof. apply sha512_length. Qed.

(** The test vectors of FIPS 180-4 and RFC 4231. *)
Example sha512_abc : be_value (sha512 (string_bytes "abc")) =
  0xddaf35a193617abacc417349ae20413112e6fa4e89a97ea20a9eeee64b55d39a2192992a274fc1a836ba3c23a3feebbd454d4423643ce80e2a9ac94fa54ca49f.
Proof. vm_compute. reflexivity. Qed.
Example hmac_sha512_jefe : be_value (hmac_sha512 (string_bytes "Jefe") (string_bytes "what do ya want for nothing?")) =
  0x164b7a7bfcf819e2e395fbe73b56e0a387bd64222e831fd610270cd7ea2505549758bf75c05a994a6d034f65f8f0e6fdcaeab1a34d4a6b4b636e070a38bce737.
Proof. vm_compute. reflexivity. Qed.

(** * crypto/sha256 of Go's standard library, and crypto/tmhash

    FIPS 180-4 with words of 32 bits; tmhash/hash.go keeps the first 20 bytes of
    a digest. *)

Definition w32 (z : Z) : Z := z mod 2 ^ 32.
Definition sha256_H0 : list Z := Eval vm_compute in (fun p => w32 (root_bits 2 40 0 (p * 2 ^ 64))) <$> take 8 primes.
Definition sha256_K : list Z := Eval vm_compute in (fun p => w32 (root_bits 3 36 0 (p * 2 ^ 96))) <$> take 64 primes.

Definition rotr32 (n z : Z) : Z := Z.lor (Z.shiftr z n) (w32 (Z.shiftl z (32 - n))).
Definition Sigma0_32 (x : Z) : Z := Z.lxor (Z.lxor (rotr32 2 x) (rotr32 13 x)) (rotr32 22 x).
Definition Sigma1_32 (x : Z) : Z := Z.lxor (Z.lxor (rotr32 6 x) (rotr32 11 x)) (rotr32 25 x).
Definition sigma0_32 (x : Z) : Z := Z.lxor (Z.lxor (rotr32 7 x) (rotr32 18 x)) (Z.shiftr x 3).
Definition sigma1_32 (x : Z) : Z := Z.lxor (Z.lxor (rotr32 17 x) (rotr32 19 x)) (Z.shiftr x 10).

Fixpoint schedule32 (n : nat) (ws : list Z) : list Z :=
  match n with
  | O => rev ws
  | S n =>
      let w i := nth (i - 1) ws 0 in
      schedule32 n (w32 (sigma1_32 (w 2%nat) + w 7%nat + sigma0_32 (w 15%nat) + w 16%nat) :: ws)
  end.

Definition sha256_round (s : list Z) (kw : Z * Z) : list Z :=
  match s with
  | [a; b; c; d; e; f; g; h] =>
      let t1 := w32 (h + Sigma1_32 e + Ch e f g + kw.1 + kw.2) in
      let t2 := w32 (Sigma0_32 a + Maj a b c) in
      [w32 (t1 + t2); a; b; c; w32 (d + t1); e; f; g]
  | _ => s
  end.

Definition words32 (block : bytes) : list Z :=
  (fun i => be_value (take 4 (drop (4 * i) block))) <$> seq 0 16.
Definition compress32 (h : list Z) (block : bytes) : list Z :=
  zip_with (fun x y => w32 (x + y)) h (fold_left sha256_round (zip sha256_K (schedule32 48 (rev (words32 block)))) h).

Definition sha256_pad (msg : bytes) : bytes :=
  let n := length msg in
  msg ++ [Byte.x80] ++ repeat Byte.x00 ((119 - n mod 64) mod 64) ++ be_bytes 8 (8 * Z.of_nat n).

Definition sha256 (msg : bytes) : bytes :=
  let padded := sha256_pad msg in
  concat (be_bytes 4 <$> fold_left compress32 (blocks (length padded / 64) 64 padded) sha256_H0).

(** ** crypto/tmhash/hash.go *)

Definition tmhash_Size : nat := 20.

(** A hasher that [written] was written to: Sum appends the digest to its
    argument, and cuts the whole. *)
Definition sha256trunc_Sum (written b : bytes) : bytes := take tmhash_Size (b ++ sha256 written).

Definition tmhash_Sum (bz : bytes) : bytes := take tmhash_Size (sha256 bz).

Example sha256_abc : be_value (sha256 (string_bytes "abc")) =
  0xba7816bf8f01cfea414140de5dae2223b00361a396177a9cb410ff61f20015ad.
Proof. vm_compute. reflexivity. Qed.
Example sha256_two_blocks : be_value (sha256 (string_bytes "abcdbcdecdefdefgefghfghighijhijkijkljklmklmnlmnomnopnopq")) =
  0x248d6a61d20638b8e5c026930c3e6039a33ce45964ff2167f6ecedd419db06c1.
Proof. vm_compute. reflexivity. Qed.
