(* ===== verification/HD.v ===== *)
(** * crypto/keys/hd/hdpath.go: hierarchical deterministic keys

    BIP 32 derivation of secp256k1 keys along a path, and the text of BIP 44
    paths.  Keys and chain codes are lists of 32 bytes; the curve is
    third-party code. *)
From Stdlib Require Import Strings.Byte Strings.Ascii Strings.String.
From stdpp Require Import pretty.
From S2P Require Import Prelude Names Sha2.
#[local] Open Scope string_scope.
#[local] Open Scope list_scope.
#[local] Open Scope Z_scope.

(** The compressed public key of a private one, and the order of the group. *)
Class Secp256k1 := {
  Secp256k1_PubKey : bytes -> bytes;
  S256_N : Z;
}.

Class Secp256k1Laws `{Secp256k1} : Prop := { S256_N_range : 0 < S256_N < 2 ^ 256 }.

Definition wrapu32 (z : Z) : Z := z mod 2 ^ 32.
Definition is_uint32 (z : Z) : Prop := 0 <= z < 2 ^ 32.
#[export] Instance is_uint32_dec z : Decision (is_uint32 z).
Proof. unfold is_uint32. apply _. Defined.

(** ** Paths *)

Definition BIP44Prefix : string := "44'/118'/".
Definition FullFundraiserPath : string := BIP44Prefix ++ "0'/0/0".

Record BIP44Params := mk_BIP44Params { purpose : Z; coinType : Z; bip_account : Z; change : bool; addressIdx : Z }.
Definition NewParams (purpose coinType account : Z) (change : bool) (addressIdx : Z) : BIP44Params :=
  mk_BIP44Params purpose coinType account change addressIdx.
Definition NewFundraiserParams (account addressIdx : Z) : BIP44Params := NewParams 44 118 account false addressIdx.

Definition dec_text (z : Z) : string := pretty (Z.to_N z).
Definition BIP44Params_String (p : BIP44Params) : string :=
  let changeStr := if change p then "1" else "0" in
  (dec_text (purpose p) ++ "'/" ++ dec_text (coinType p) ++ "'/" ++ dec_text (bip_account p) ++ "'/" ++
   changeStr ++ "/" ++ dec_text (addressIdx p))%string.

(** ** Derivation *)

Section hd.
Context `{Secp256k1}.

Definition uint32ToBytes (i : Z) : bytes := be_bytes 4 i.

Definition i64 (key data : bytes) : bytes * bytes :=
  let I := hmac_sha512 key data in (take 32 I, drop 32 I).

(** big.Int.Bytes: big-endian without leading zeros. *)
Definition big_Bytes (z : Z) : bytes :=
  be_bytes (if z =? 0 then 0 else S (Z.to_nat (Z.log2 z / 8))) z.

(** [copy(x2[32-len(x):], x)] with a slice that may start below 0. *)
Definition addScalars (a b : bytes) : outcome bytes :=
  let x := big_Bytes ((be_value a + be_value b) mod S256_N) in
  if (32 <? length x)%nat then Panicked (RuntimeError "slice bounds out of range")
  else Ok (repeat Byte.x00 (32 - length x) ++ x).

Definition ComputeMastersFromSeed (seed : bytes) : bytes * bytes := i64 (string_bytes "Bitcoin seed") seed.

Definition derivePrivateKey (privKeyBytes chainCode : bytes) (index : Z) (harden : bool) : outcome (bytes * bytes) :=
  let index := if harden then Z.lor index 0x80000000 else index in
  let data := if harden then Byte.x00 :: privKeyBytes else Secp256k1_PubKey privKeyBytes in
  let '(data2, chainCode2) := i64 chainCode (data ++ uint32ToBytes index) in
  x ← addScalars privKeyBytes data2;
  Ok (x, chainCode2).

(** A part of a path: its index and whether it is hardened. *)
Definition path_part (part : string) : outcome ((Z * bool) + string) :=
  let bz := string_bytes part in
  match last bz with
  | None => Panicked (RuntimeError "slice bounds out of range")
  | Some c =>
      let harden := bool_decide (c = Byte.x27) in
      let bz := if harden then removelast bz else bz in
      match Atoi bz with
      | None => Ok (inr "invalid BIP 32 path: strconv.Atoi")
      | Some idx =>
          if idx <? 0 then Ok (inr "invalid BIP 32 path: index negative ot too large")
          else Ok (inl (wrapu32 idx, harden))
      end
  end.

Fixpoint derive_loop (parts : list string) (data chainCode : bytes) : outcome (bytes + string) :=
  match parts with
  | [] => Ok (inl data)
  | part :: parts =>
      r ← path_part part;
      match r with
      | inr err => Ok (inr err)
      | inl (idx, harden) =>
          '(data, chainCode) ← derivePrivateKey data chainCode idx harden;
          derive_loop parts data chainCode
      end
  end.

(** The last check of the code compares the lengths of two arrays of 32. *)
Definition DerivePrivateKeyForPath (privKeyBytes chainCode : bytes) (path : string) : outcome (bytes + string) :=
  derive_loop (Split "/" path) privKeyBytes chainCode.

(** ** What a path stands for *)

(** Derivation along a list of indices. *)
Fixpoint derive_along (steps : list (Z * bool)) (data chainCode : bytes) : outcome bytes :=
  match steps with
  | [] => Ok data
  | (idx, harden) :: steps =>
      '(data, chainCode) ← derivePrivateKey data chainCode idx harden; derive_along steps data chainCode
  end.

Definition path_of (p : BIP44Params) : list (Z * bool) :=
  [(purpose p, true); (coinType p, true); (bip_account p, true); (if change p then 1 else 0, false); (addressIdx p, false)].
End hd.

(** ** Scalars *)

Lemma big_Bytes_small z n : 0 <= z < 256 ^ Z.of_nat n -> (length (big_Bytes z) <= n)%nat.
Proof.
  intros Hz. unfold big_Bytes. rewrite be_bytes_length. destruct (Z.eqb_spec z 0) as [->|Hne]; [lia|].
  assert (Hl : Z.log2 z < 8 * Z.of_nat n).
  { apply Z.log2_lt_pow2; [lia|]. rewrite Z.pow_mul_r by lia. change (2 ^ 8) with 256. lia. }
  assert (Z.log2 z / 8 < Z.of_nat n) by (apply Z.div_lt_upper_bound; lia).
  assert (0 <= Z.log2 z / 8) by (apply Z.div_pos; [apply Z.log2_nonneg|lia]). lia.
Qed.

Lemma big_Bytes_value z : 0 <= z -> be_value (big_Bytes z) = z.
Proof.
  intros Hz. unfold big_Bytes. rewrite be_value_be_bytes. destruct (Z.eqb_spec z 0) as [->|Hne]; [done|].
  apply Z.mod_small. split; [done|].
  assert (0 <= Z.log2 z / 8) by (apply Z.div_pos; [apply Z.log2_nonneg|lia]).
  rewrite Nat2Z.inj_succ, Z2Nat.id by done. change 256 with (2 ^ 8). rewrite <- Z.pow_mul_r by lia.
  destruct (Z.log2_spec z) as [_ Hl]; [lia|]. eapply Z.lt_le_trans; [exact Hl|]. apply Z.pow_le_mono_r; [lia|].
  pose proof (Z.div_mod (Z.log2 z) 8 ltac:(lia)). pose proof (Z.mod_pos_bound (Z.log2 z) 8 ltac:(lia)). lia.
Qed.

Lemma be_value_zeros k bz : be_value (repeat Byte.x00 k ++ bz) = be_value bz.
Proof. unfold be_value. induction k as [|k IH]; [done|]. exact IH. Qed.

Section laws.
Context `{HSL : Secp256k1Laws}.

(** The sum modulo the order, in 32 bytes. *)
Lemma addScalars_spec a b :
  exists x, addScalars a b = Ok x /\ length x = 32%nat /\ be_value x = (be_value a + be_value b) mod S256_N.
Proof.
  destruct S256_N_range as [HN1 HN2]. unfold addScalars. set (s := (be_value a + be_value b) mod S256_N).
  assert (Hs : 0 <= s < 256 ^ Z.of_nat 32).
  { pose proof (Z.mod_pos_bound (be_value a + be_value b) S256_N HN1). change (256 ^ Z.of_nat 32) with (2 ^ 256). unfold s. lia. }
  pose proof (big_Bytes_small s 32 Hs) as Hl. rewrite (proj2 (Nat.ltb_ge _ _)) by done. eexists. split; [done|]. split.
  - rewrite length_app, repeat_length. lia.
  - rewrite be_value_zeros. apply big_Bytes_value. lia.
Qed.

Lemma i64_lengths key data : length (i64 key data).1 = 32%nat /\ length (i64 key data).2 = 32%nat.
Proof. unfold i64. simpl. rewrite length_take, length_drop, hmac_sha512_length. done. Qed.

Lemma derivePrivateKey_total priv ch index harden :
  exists priv' ch', derivePrivateKey priv ch index harden = Ok (priv', ch') /\ length priv' = 32%nat /\ length ch' = 32%nat.
Proof.
  unfold derivePrivateKey. cbv zeta.
  match goal with |- context [i64 ?k ?d] => pose proof (i64_lengths k d) as [_ Hc]; destruct (i64 k d) as [d2 c2] end.
  destruct (addScalars_spec priv d2) as (x & Hx & Hl & _). rewrite Hx. by exists x, c2.
Qed.

Lemma derive_along_total steps data ch : length data = 32%nat -> exists key, derive_along steps data ch = Ok key /\ length key = 32%nat.
Proof.
  revert data ch. induction steps as [|[idx h] steps IH]; intros data ch Hd; [by exists data|].
  simpl. destruct (derivePrivateKey_total data ch idx h) as (d & c & -> & Hl & _). by apply IH.
Qed.

(** ** Reading back the text of parameters *)

Lemma slash_not_decimal : not_decimal "/"%char.
Proof.
  split; [done|]. intros n. unfold pretty_N_char. by repeat case_match.
Qed.

Lemma path_part_hardened i : is_uint32 i -> path_part (dec_text i ++ "'") = Ok (inl (i, true)).
Proof.
  intros Hi. unfold is_uint32 in Hi. unfold path_part. rewrite string_bytes_app.
  change (string_bytes "'") with [Byte.x27]. rewrite last_snoc, bool_decide_eq_true_2, removelast_last by done.
  unfold dec_text. rewrite Atoi_pretty by (rewrite Z2N.id; lia). rewrite Z2N.id by lia.
  rewrite (proj2 (Z.ltb_ge _ _)) by lia. unfold wrapu32. by rewrite Z.mod_small.
Qed.

Lemma parse_digits_last limit acc l b v : parse_digits limit acc (l ++ [b]) = Some v -> is_Some (digit_value b).
Proof.
  revert acc. induction l as [|c l IH]; intros acc; simpl; [by destruct (digit_value b)|].
  destruct (digit_value c); [|done]. case_match; [apply IH|done].
Qed.

Lemma dec_text_last i : exists c, last (string_bytes (dec_text i)) = Some c /\ c <> Byte.x27.
Proof.
  pose proof (ParseUint_pretty (Z.of_N (Z.to_N i) + 1) (Z.to_N i) ltac:(lia)) as Hp. fold (dec_text i) in Hp.
  destruct (string_bytes (dec_text i)) as [|b l _] using rev_ind; [done|]. exists b. rewrite last_snoc. split; [done|].
  intros ->. destruct (parse_digits_last (Z.of_N (Z.to_N i) + 1) 0 l Byte.x27 (Z.of_N (Z.to_N i))) as [d Hd]; [|done].
  by destruct l.
Qed.

Lemma path_part_plain i : is_uint32 i -> path_part (dec_text i) = Ok (inl (i, false)).
Proof.
  intros Hi. unfold is_uint32 in Hi. unfold path_part. destruct (dec_text_last i) as (c & -> & Hc).
  rewrite bool_decide_eq_false_2 by done. unfold dec_text.
  rewrite Atoi_pretty by (rewrite Z2N.id; lia). rewrite Z2N.id by lia.
  rewrite (proj2 (Z.ltb_ge _ _)) by lia. unfold wrapu32. by rewrite Z.mod_small.
Qed.
Lemma without_quoted i : without "/" (dec_text i ++ "'").
Proof.
  unfold without. rewrite list_ascii_app, elem_of_app. intros [Hin|Hin].
  - by apply (pretty_N_without _ (Z.to_N i) slash_not_decimal).
  - simpl in Hin. apply elem_of_cons in Hin as [Hin|Hin]; [done|]. by apply not_elem_of_nil in Hin.
Qed.

Lemma path_parts p : BIP44Params_String p =
  ((dec_text (purpose p) ++ "'") ++ String "/" ((dec_text (coinType p) ++ "'") ++ String "/"
    ((dec_text (bip_account p) ++ "'") ++ String "/" (dec_text (if change p then 1 else 0) ++ String "/" (dec_text (addressIdx p))))))%string.
Proof.
  assert (Hassoc : forall a b c : string, ((a ++ b) ++ c = a ++ (b ++ c))%string).
  { induction a as [|x a IH]; intros b c; [done|]. change (String x ((a ++ b) ++ c)%string = String x (a ++ (b ++ c))%string). f_equal. apply IH. }
  unfold BIP44Params_String. rewrite !Hassoc. by destruct (change p).
Qed.

Lemma derive_loop_along parts steps d c key :
  Forall2 (fun part step => path_part part = Ok (inl step)) parts steps ->
  derive_along steps d c = Ok key -> derive_loop parts d c = Ok (inl key).
Proof.
  intros Hps. revert d c. induction Hps as [|part [idx h] parts steps Hp _ IH]; intros d c; simpl; [by intros [= ->]|].
  rewrite Hp. simpl. destruct (derivePrivateKey d c idx h) as [[d1 c1]|]; [apply IH|done].
Qed.

Lemma derive_params_ok (p : BIP44Params) (priv ch : bytes) :
  length priv = 32%nat -> is_uint32 (purpose p) -> is_uint32 (coinType p) -> is_uint32 (bip_account p) -> is_uint32 (addressIdx p) ->
  exists key, length key = 32%nat /\ derive_along (path_of p) priv ch = Ok key /\
    DerivePrivateKeyForPath priv ch (BIP44Params_String p) = Ok (inl key).
Proof.
  intros Hl Hp Hc Ha Hi. destruct (derive_along_total (path_of p) priv ch Hl) as (key & Hk & Hlk).
  exists key. split; [done|]. split; [done|]. unfold DerivePrivateKeyForPath. rewrite path_parts.
  rewrite !Split_app by (apply without_quoted || apply (pretty_N_without _ _ slash_not_decimal)).
  rewrite Split_last by apply (pretty_N_without _ _ slash_not_decimal).
  apply (derive_loop_along _ (path_of p)); [|done]. unfold path_of.
  do 3 (apply List.Forall2_cons; [by apply path_part_hardened|]).
  do 2 (apply List.Forall2_cons; [apply path_part_plain; by destruct (change p)|]). apply List.Forall2_nil.
Qed.

(** deriving along the text of BIP 44 parameters with 32-bit fields succeeds,
    and derives the purpose, coin type and account hardened, then the change
    and the index: the text and the path say the same. *)
Theorem Derive_params (p : BIP44Params) (priv ch : bytes) :
  length priv = 32%nat -> is_uint32 (purpose p) -> is_uint32 (coinType p) -> is_uint32 (bip_account p) -> is_uint32 (addressIdx p) ->
  exists key, length key = 32%nat /\ derive_along (path_of p) priv ch = Ok key /\
    DerivePrivateKeyForPath priv ch (BIP44Params_String p) = Ok (inl key).
Proof. apply derive_params_ok. Qed.

(** An index past 32 bits is not refused: it is cut to 32 bits. *)
Lemma path_part_wraps i : 0 <= i < 2 ^ 63 -> path_part (dec_text i) = Ok (inl (wrapu32 i, false)).
Proof.
  intros Hi. unfold path_part. destruct (dec_text_last i) as (c & -> & Hc).
  rewrite bool_decide_eq_false_2 by done. unfold dec_text.
  rewrite Atoi_pretty by (rewrite Z2N.id; lia). rewrite Z2N.id by lia. by rewrite (proj2 (Z.ltb_ge _ _)) by lia.
Qed.

Lemma large_index_same_key i priv ch :
  is_uint32 i -> DerivePrivateKeyForPath priv ch (dec_text (i + 2 ^ 32)) = DerivePrivateKeyForPath priv ch (dec_text i).
Proof.
  unfold is_uint32. intros Hi. unfold DerivePrivateKeyForPath.
  rewrite !Split_last by apply (pretty_N_without _ _ slash_not_decimal). cbn [derive_loop].
  rewrite !path_part_wraps by lia. unfold wrapu32. rewrite <- (Z_mod_plus_full i 1 (2 ^ 32)). by rewrite Z.mul_1_l.
Qed.
End laws.

(** ** The curve's order, and the first test vector of BIP 32 *)

Definition model_Secp256k1 : Secp256k1 := {|
  Secp256k1_PubKey priv := Byte.x02 :: priv;
  S256_N := 0xfffffffffffffffffffffffffffffffebaaedce6af48a03bbfd25e8cd0364141;
|}.
#[local] Existing Instance model_Secp256k1.
Lemma model_Secp256k1Laws : Secp256k1Laws.
Proof. split. vm_compute. done. Qed.
#[local] Existing Instance model_Secp256k1Laws.

Definition bip32_seed : bytes := be_bytes 16 0x000102030405060708090a0b0c0d0e0f.
Definition bip32_master : bytes := be_bytes 32 0xe8f32e723decf4051aefac8e2c93c9c5b214313817cdb01a1494b917c8436b35.
Definition bip32_chain : bytes := be_bytes 32 0x873dff81c02f525623fd1fe5167eac3a55a049de3d314bb42ee227ffed37d508.
Example bip32_master_key : ComputeMastersFromSeed bip32_seed = (bip32_master, bip32_chain).
Proof. vm_compute. reflexivity. Qed.
Example bip32_first_hardened :
  DerivePrivateKeyForPath bip32_master bip32_chain "0'" =
    Ok (inl (be_bytes 32 0xedb2e14f9ee77d26dd93b4ecede8d16ed408ce149b6cd80b0715a2d911a0afea)).
Proof. vm_compute. reflexivity. Qed.
Example bad_paths :
  DerivePrivateKeyForPath bip32_master bip32_chain "m/0" = Ok (inr "invalid BIP 32 path: strconv.Atoi") /\
  DerivePrivateKeyForPath bip32_master bip32_chain "-1" = Ok (inr "invalid BIP 32 path: index negative ot too large") /\
  DerivePrivateKeyForPath bip32_master bip32_chain "0'//0" = Panicked (RuntimeError "slice bounds out of range").
Proof. vm_compute. repeat split. Qed.
Example fundraiser_path : BIP44Params_String (NewFundraiserParams 0 0) = FullFundraiserPath.
Proof. reflexivity. Qed.

Lemma Derive_params_witness :
  exists key, length key = 32%nat /\ derive_along [(44, true); (118, true); (0, true); (0, false); (7, false)] bip32_master bip32_chain = Ok key /\
    DerivePrivateKeyForPath bip32_master bip32_chain "44'/118'/0'/0/7" = Ok (inl key).
Proof.
  destruct (Derive_params (NewFundraiserParams 0 7) bip32_master bip32_chain) as (key & Hl & Hk & Hd);
    [reflexivity|split; [discriminate|reflexivity]..|].
  exists key. split; [exact Hl|]. split; [exact Hk|exact Hd].
Defined.
