(* ===== verification/Words.v ===== *)
(** * crypto/keys/words: bytes as words of a list

    wordcodec.go and ecc.go.  A codec turns bytes, with a checksum behind them,
    into words of a bank of 2048, eleven bits each, and back.  The checksums of
    hash/crc32 and hash/crc64 are written out; crc16 is third-party code. *)
From Stdlib Require Import Strings.Byte Strings.String.
From S2P Require Import Prelude Names HD.
#[local] Open Scope string_scope.
#[local] Open Scope list_scope.
#[local] Open Scope Z_scope.

(** ** hash/crc32 and hash/crc64 *)

(** An entry of the table of a polynomial: eight steps. *)
Definition crc_step (poly c : Z) : Z :=
  if Z.odd c then Z.lxor (Z.shiftr c 1) poly else Z.shiftr c 1.
Definition crc_entry (poly i : Z) : Z := Nat.iter 8 (crc_step poly) i.

Definition byte_Z (b : Byte.byte) : Z := Z.of_N (Byte.to_N b).
Definition crc_update (poly c : Z) (b : Byte.byte) : Z :=
  Z.lxor (crc_entry poly (Z.lxor (Z.land c 255) (byte_Z b))) (Z.shiftr c 8).
(** Checksum, of a register of [width] bits. *)
Definition crc_checksum (width poly : Z) (data : bytes) : Z :=
  let ones := Z.ones width in
  Z.lxor (fold_left (crc_update poly) data ones) ones.

Definition crc32_IEEE : Z := 0xedb88320.
Definition crc32_Castagnoli : Z := 0x82f63b78.
Definition crc32_Koopman : Z := 0xeb31d82e.
Definition crc64_ISO : Z := 0xd800000000000000.
Definition crc64_ECMA : Z := 0xc96c5795d7870f42.

(** ** ecc.go *)

Record ECC := mk_ECC { AddECC : bytes -> bytes; CheckECC : bytes -> bytes + string }.

Definition errInputTooShort : string := "input too short, no checksum present".
Definition errChecksumDoesntMatch : string := "checksum does not match".

Definition NoECC : ECC := mk_ECC (fun input => input) inl.

(** The methods the three checksums share, but for the size and the function. *)
Definition crc_AddECC (size : nat) (checksum : bytes -> Z) (input : bytes) : bytes := input ++ be_bytes size (checksum input).
Definition crc_CheckECC (size : nat) (checksum : bytes -> Z) (input : bytes) : bytes + string :=
  if (length input <=? size)%nat then inr errInputTooShort
  else
    let cut := (length input - size)%nat in
    let data := take cut input in
    let check := drop cut input in
    if negb (be_value check =? checksum data) then inr errChecksumDoesntMatch
    else inl data.
Definition crc_ECC (size : nat) (checksum : bytes -> Z) : ECC := mk_ECC (crc_AddECC size checksum) (crc_CheckECC size checksum).

(** A polynomial of 0 stands for the first one. *)
Definition CRC32 (Poly : Z) : ECC := crc_ECC 4 (crc_checksum 32 (if Poly =? 0 then crc32_IEEE else Poly)).
Definition NewIEEECRC32 : ECC := CRC32 crc32_IEEE.
Definition NewCastagnoliCRC32 : ECC := CRC32 crc32_Castagnoli.
Definition NewKoopmanCRC32 : ECC := CRC32 crc32_Koopman.
Definition CRC64 (Poly : Z) : ECC := crc_ECC 8 (crc_checksum 64 (if Poly =? 0 then crc64_ISO else Poly)).
Definition NewISOCRC64 : ECC := CRC64 crc64_ISO.
Definition NewECMACRC64 : ECC := CRC64 crc64_ECMA.

(** github.com/howeyc/crc16: its Checksum on each of its tables. *)
Class Crc16 := { crc16_IBM : Z; crc16_SCSI : Z; crc16_CCITT : Z; crc16_Checksum : Z -> bytes -> Z }.
Definition CRC16 `{Crc16} (Poly : Z) : ECC := crc_ECC 2 (crc16_Checksum (if Poly =? 0 then crc16_IBM else Poly)).
Definition NewIBMCRC16 `{Crc16} : ECC := CRC16 crc16_IBM.
Definition NewSCSICRC16 `{Crc16} : ECC := CRC16 crc16_SCSI.
Definition NewCCITTCRC16 `{Crc16} : ECC := CRC16 crc16_CCITT.

(** ** wordcodec.go *)

Definition BankSize : nat := 2048.

(** [wc_bytes] is made when an index is first asked for. *)
Record WordCodec := mk_WordCodec { wc_words : list string; wc_bytes : option (gmap string Z); wc_check : ECC }.

Definition NewCodec (words : list string) : WordCodec + string :=
  if negb (length words =? BankSize)%nat then inr "Bank must have 2048 words"
  else inl (mk_WordCodec words None NewIEEECRC32).

Definition wordlenFromBytes (numBytes : Z) : Z := Z.quot (8 * numBytes + 10) 11.

Definition bytelenFromWords (numWords : Z) : Z * bool :=
  let length := Z.quot (11 * numWords) 8 in
  (length, wordlenFromBytes (length - 1) =? numWords).

Fixpoint build_index (i : Z) (words : list string) (b : gmap string Z) : gmap string Z + string :=
  match words with
  | [] => inl b
  | w :: words =>
      match b !! w with
      | Some _ => inr "Duplicate word in list"
      | None => build_index (i + 1) words (<[w := i]> b)
      end
  end.

Definition GetIndex (word : string) : M WordCodec (Z + string) := fun c =>
  match (match wc_bytes c with Some b => inl b | None => build_index 0 (wc_words c) ∅ end) with
  | inr err => (Ok (inr err), c)
  | inl b =>
      let c := mk_WordCodec (wc_words c) (Some b) (wc_check c) in
      match b !! word with
      | None => (Ok (inr "Unrecognized word"), c)
      | Some rem => (Ok (inl rem), c)
      end
  end.

Definition word_at (rem : Z) : M WordCodec string :=
  c ← getM;
  match wc_words c !! Z.to_nat rem with
  | Some w => mret w
  | None => panicM (RuntimeError "index out of range")
  end.

Fixpoint words_loop (numWords : nat) (nData : Z) (words : list string) : M WordCodec (list string + string) :=
  match numWords with
  | O => mret (inl words)
  | S numWords =>
      w ← word_at (nData mod 2048);
      r ← GetIndex w;
      match r with
      | inr err => mret (inr err)
      | inl _ => words_loop numWords (nData / 2048) (words ++ [w])
      end
  end.

Definition BytesToWords (raw : bytes) : M WordCodec (list string + string) :=
  c ← getM;
  let data := AddECC (wc_check c) raw in
  words_loop (Z.to_nat (wordlenFromBytes (Z.of_nat (length data)))) (be_value data) [].

(** The words from the last to the first. *)
Fixpoint value_loop (rev_words : list string) (nData : Z) : M WordCodec (Z + string) :=
  match rev_words with
  | [] => mret (inl nData)
  | w :: rev_words =>
      r ← GetIndex w;
      match r with
      | inr err => mret (inr err)
      | inl rem => value_loop rev_words (nData * 2048 + rem)
      end
  end.

(** The checksum is validated; one byte shorter, if that is as good a length.
    There is at least one byte for a word. *)
Definition check_flex (check : ECC) (toCheck : bytes) (flex : bool) : bytes + string :=
  match CheckECC check toCheck with
  | inr err => if flex then CheckECC check (drop 1 toCheck) else inr err
  | inl output => inl output
  end.

Definition WordsToBytes (words : list string) : M WordCodec (bytes + string) :=
  match words with
  | [] => mret (inr "Didn't provide any words")
  | _ =>
      r ← value_loop (rev words) 0;
      match r with
      | inr err => mret (inr err)
      | inl nData =>
          let dataBytes := big_Bytes nData in
          let '(outLen, flex) := bytelenFromWords (Z.of_nat (length words)) in
          if outLen <? Z.of_nat (length dataBytes) then mret (inr "Invalid data, could not have been generated by this codec")
          else
            c ← getM;
            mret (check_flex (wc_check c) (repeat Byte.x00 (Z.to_nat outLen - length dataBytes) ++ dataBytes) flex)
      end
  end.

(** The check values of the catalogue of CRCs. *)
Example crc_check_values :
  (fun p => crc_checksum 32 p (string_bytes "123456789")) <$> [crc32_IEEE; crc32_Castagnoli] = [0xcbf43926; 0xe3069283] /\
  crc_checksum 64 crc64_ISO (string_bytes "123456789") = 0xb90956c775a41001 /\
  crc_checksum 64 crc64_ECMA (string_bytes "123456789") = 0x995dc9bbdf1939fa.
Proof. vm_compute. repeat split. Qed.
