(* ===== verification/WordsOps.v ===== *)
(** * Bytes as words: what comes back, and what a checksum detects

    The register of a CRC never forgets a difference; so a byte that is changed
    is noticed, and a leading zero too: of the two lengths a number of words can
    stand for, only the right one passes the check. *)
From Stdlib Require Import Strings.Byte Strings.String ZifyNat.
From stdpp Require Import pretty.
From S2P Require Import Prelude Names HD Words.
#[local] Open Scope string_scope.
#[local] Open Scope list_scope.
#[local] Open Scope Z_scope.

(** ** The register of a CRC *)

Section crc.
Context (width poly : Z) (Hwidth : 8 <= width) (Hpoly : 2 ^ (width - 1) <= poly < 2 ^ width).

Definition in_register (c : Z) : Prop := 0 <= c < 2 ^ width.

Lemma high_bits c i : in_register c -> width <= i -> Z.testbit c i = false.
Proof.
  intros [H0 H1] Hi. destruct (Z.eq_dec c 0) as [->|Hne]; [apply Z.bits_0|].
  apply Z.bits_above_log2; [done|]. assert (Z.log2 c < width) by (apply Z.log2_lt_pow2; lia). lia.
Qed.

Lemma in_register_bits c : 0 <= c -> (forall i, width <= i -> Z.testbit c i = false) -> in_register c.
Proof.
  intros H0 Hb. split; [done|]. destruct (Z.eq_dec c 0) as [->|Hne]; [apply Z.pow_pos_nonneg; lia|].
  apply Z.log2_lt_pow2; [lia|]. destruct (Z.lt_ge_cases (Z.log2 c) width) as [|Hge]; [done|].
  specialize (Hb _ Hge). rewrite Z.bit_log2 in Hb by lia. done.
Qed.

Lemma in_register_lxor a b : in_register a -> in_register b -> in_register (Z.lxor a b).
Proof.
  intros Ha Hb. apply in_register_bits; [apply Z.lxor_nonneg; unfold in_register in *; lia|].
  intros i Hi. by rewrite Z.lxor_spec, !high_bits.
Qed.

Lemma in_register_poly : in_register poly.
Proof. unfold in_register. assert (0 < 2 ^ (width - 1)) by (apply Z.pow_pos_nonneg; lia). lia. Qed.

Lemma in_register_byte b : in_register (byte_Z b).
Proof.
  unfold in_register, byte_Z. pose proof (byte_range b). assert (2 ^ 8 <= 2 ^ width) by (apply Z.pow_le_mono_r; lia). lia.
Qed.

Lemma shiftr1_register c : in_register c -> in_register (Z.shiftr c 1) /\ Z.testbit (Z.shiftr c 1) (width - 1) = false.
Proof.
  intros Hc. split.
  - apply in_register_bits; [apply Z.shiftr_nonneg; unfold in_register in *; lia|]. intros i Hi. rewrite Z.shiftr_spec by lia. apply high_bits; [done|lia].
  - rewrite Z.shiftr_spec by lia. apply high_bits; [done|lia].
Qed.

Lemma poly_top : Z.testbit poly (width - 1) = true.
Proof.
  assert (Hp : 0 < 2 ^ (width - 1)) by (apply Z.pow_pos_nonneg; lia). apply Z.testbit_true; [lia|].
  assert (E : 2 ^ width = 2 * 2 ^ (width - 1)) by (rewrite <- Z.pow_succ_r by lia; f_equal; lia).
  replace (poly / 2 ^ (width - 1)) with 1; [done|]. apply (Z.div_unique _ _ 1 (poly - 2 ^ (width - 1))); lia.
Qed.

Lemma crc_step_register c : in_register c -> in_register (crc_step poly c).
Proof.
  intros Hc. unfold crc_step. destruct (shiftr1_register c Hc) as [Hs _]. destruct (Z.odd c); [|done].
  apply in_register_lxor; [done|apply in_register_poly].
Qed.

(** The top bit tells which way a step went. *)
Lemma crc_step_top c : in_register c -> Z.testbit (crc_step poly c) (width - 1) = Z.odd c.
Proof.
  intros Hc. destruct (shiftr1_register c Hc) as [_ Hs]. unfold crc_step. destruct (Z.odd c); [|done].
  by rewrite Z.lxor_spec, Hs, poly_top.
Qed.

Lemma halves_eq a b : Z.odd a = Z.odd b -> Z.shiftr a 1 = Z.shiftr b 1 -> a = b.
Proof.
  rewrite <- !Z.div2_spec. intros Ho Hs. rewrite (Z.div2_odd a), (Z.div2_odd b). by rewrite Ho, Hs.
Qed.

Lemma lxor_cancel_r a b c : Z.lxor a c = Z.lxor b c -> a = b.
Proof.
  intros E%(f_equal (fun z => Z.lxor z c)). by rewrite !Z.lxor_assoc, Z.lxor_nilpotent, !Z.lxor_0_r in E.
Qed.

Lemma crc_step_inj a b : in_register a -> in_register b -> crc_step poly a = crc_step poly b -> a = b.
Proof.
  intros Ha Hb E. assert (Ho : Z.odd a = Z.odd b) by (rewrite <- !crc_step_top by done; by rewrite E).
  apply halves_eq; [done|]. unfold crc_step in E. rewrite <- Ho in E. destruct (Z.odd a); [|done]. by apply lxor_cancel_r in E.
Qed.

Lemma crc_steps_inj n a b : in_register a -> in_register b ->
  Nat.iter n (crc_step poly) a = Nat.iter n (crc_step poly) b -> a = b.
Proof.
  assert (Hreg : forall n c, in_register c -> in_register (Nat.iter n (crc_step poly) c)).
  { clear n. induction n as [|n IH]; intros c Hc; [done|]. simpl. by apply crc_step_register, IH. }
  intros Ha Hb. induction n as [|n IH]; intros E; [done|]. simpl in E. apply crc_step_inj in E; auto.
Qed.

(** What is above the bits a step looks at is only moved. *)
Lemma crc_step_shift lo hi (n : nat) :
  crc_step poly (Z.lxor lo (Z.shiftl hi (Z.of_nat (S n)))) = Z.lxor (crc_step poly lo) (Z.shiftl hi (Z.of_nat n)).
Proof.
  assert (Ho : Z.odd (Z.lxor lo (Z.shiftl hi (Z.of_nat (S n)))) = Z.odd lo).
  { rewrite <- !Z.bit0_odd, Z.lxor_spec, Z.shiftl_spec_low by lia. by rewrite xorb_false_r. }
  assert (Hs : Z.shiftr (Z.lxor lo (Z.shiftl hi (Z.of_nat (S n)))) 1 = Z.lxor (Z.shiftr lo 1) (Z.shiftl hi (Z.of_nat n))).
  { rewrite Z.shiftr_lxor, Z.shiftr_shiftl_l by lia. do 2 f_equal. lia. }
  unfold crc_step. rewrite Ho, Hs. destruct (Z.odd lo); [|done].
  rewrite !Z.lxor_assoc. f_equal. apply Z.lxor_comm.
Qed.

Lemma crc_steps_shift n lo hi :
  Nat.iter n (crc_step poly) (Z.lxor lo (Z.shiftl hi (Z.of_nat n))) = Z.lxor (Nat.iter n (crc_step poly) lo) hi.
Proof.
  revert lo. induction n as [|n IH]; intros lo; [by rewrite Z.shiftl_0_r|].
  rewrite !Nat.iter_succ_r, crc_step_shift. apply IH.
Qed.

(** The table does eight steps at once. *)
Lemma crc_update_steps c b : in_register c -> crc_update poly c b = Nat.iter 8 (crc_step poly) (Z.lxor c (byte_Z b)).
Proof.
  intros Hc. unfold crc_update, crc_entry. rewrite <- (crc_steps_shift 8). f_equal.
  rewrite <- (Z.lxor_comm (byte_Z b)), <- (Z.lxor_comm (byte_Z b)), Z.lxor_assoc. f_equal.
  apply Z.bits_inj'. intros i Hi. rewrite Z.lxor_spec, Z.land_spec. change 255 with (Z.ones 8). change (Z.of_nat 8) with 8.
  destruct (Z.lt_ge_cases i 8) as [Hlt|Hge].
  - rewrite Z.ones_spec_low, Z.shiftl_spec_low, andb_true_r, xorb_false_r by lia. done.
  - rewrite Z.ones_spec_high, andb_false_r, xorb_false_l, Z.shiftl_spec, Z.shiftr_spec by lia. f_equal. lia.
Qed.

Lemma crc_update_register c b : in_register c -> in_register (crc_update poly c b).
Proof.
  intros Hc. rewrite crc_update_steps by done. generalize 8%nat. intros n. induction n as [|n IH]; simpl.
  - by apply in_register_lxor, in_register_byte.
  - by apply crc_step_register.
Qed.

Lemma crc_update_inj c c' b b' :
  in_register c -> in_register c' -> crc_update poly c b = crc_update poly c' b' -> Z.lxor c (byte_Z b) = Z.lxor c' (byte_Z b').
Proof.
  intros Hc Hc' E. rewrite !crc_update_steps in E by done.
  apply crc_steps_inj in E; [done|by apply in_register_lxor, in_register_byte..].
Qed.

Lemma crc_fold_register data c : in_register c -> in_register (fold_left (crc_update poly) data c).
Proof. revert c. induction data as [|b data IH]; intros c Hc; [done|]. by apply IH, crc_update_register. Qed.

(** Registers that differ still do after the same bytes. *)
Lemma crc_fold_inj data c c' :
  in_register c -> in_register c' -> fold_left (crc_update poly) data c = fold_left (crc_update poly) data c' -> c = c'.
Proof.
  revert c c'. induction data as [|b data IH]; intros c c' Hc Hc' E; [done|]. simpl in E.
  apply IH in E; [|by apply crc_update_register..]. apply crc_update_inj in E; [|done..]. by apply lxor_cancel_r in E.
Qed.

Lemma ones_register : in_register (Z.ones width).
Proof. unfold in_register. rewrite Z.ones_equiv. assert (0 < 2 ^ width) by (apply Z.pow_pos_nonneg; lia). lia. Qed.

Lemma checksum_range data : 0 <= crc_checksum width poly data < 2 ^ width.
Proof. apply in_register_lxor; [apply crc_fold_register|]; apply ones_register. Qed.

(** Another byte at one place gives another checksum. *)
Lemma checksum_byte pre b b' post : b <> b' -> crc_checksum width poly (pre ++ b :: post) <> crc_checksum width poly (pre ++ b' :: post).
Proof.
  intros Hne E. apply Hne. unfold crc_checksum in E. apply lxor_cancel_r in E. rewrite !fold_left_app in E. simpl in E.
  assert (Hr := crc_fold_register pre _ ones_register).
  apply crc_fold_inj in E; [|by apply crc_update_register..]. apply crc_update_inj in E; [|done..].
  rewrite !(Z.lxor_comm (fold_left _ _ _)) in E. apply lxor_cancel_r in E. unfold byte_Z in E. apply byte_compare_eq, N.compare_eq_iff. lia.
Qed.

(** So does a zero in front, if it moves the register at the start. *)
Lemma checksum_zero data :
  crc_update poly (Z.ones width) Byte.x00 <> Z.ones width -> crc_checksum width poly (Byte.x00 :: data) <> crc_checksum width poly data.
Proof.
  intros Hne E. apply Hne. unfold crc_checksum in E. apply lxor_cancel_r in E. simpl in E.
  apply crc_fold_inj in E; [done|apply crc_update_register|]; apply ones_register.
Qed.
End crc.

(** ** Checksums behind the data *)

Section ecc.
Context (size : nat) (checksum : bytes -> Z) (Hrange : forall d, 0 <= checksum d < 256 ^ Z.of_nat size).

Lemma crc_AddECC_length d : length (crc_AddECC size checksum d) = (length d + size)%nat.
Proof. unfold crc_AddECC. by rewrite length_app, be_bytes_length. Qed.

(** What CheckECC makes of data followed by the checksum of other data. *)
Lemma crc_CheckECC_of d d' :
  d <> [] -> crc_CheckECC size checksum (d ++ be_bytes size (checksum d')) =
    if decide (checksum d' = checksum d) then inl d else inr errChecksumDoesntMatch.
Proof.
  intros Hd. unfold crc_CheckECC. rewrite length_app, be_bytes_length.
  assert (Hl : (length d > 0)%nat) by (destruct d; [done|simpl; lia]). rewrite (proj2 (Nat.leb_gt _ _)) by lia.
  replace (length d + size - size)%nat with (length d) by lia. rewrite take_app_length, drop_app_length, be_value_be_bytes, Z.mod_small by done.
  destruct (decide _) as [->|Hne]; [by rewrite Z.eqb_refl|]. by rewrite (proj2 (Z.eqb_neq _ _) Hne).
Qed.

Lemma crc_ecc_roundtrip d : d <> [] -> crc_CheckECC size checksum (crc_AddECC size checksum d) = inl d.
Proof. intros Hd. unfold crc_AddECC. rewrite crc_CheckECC_of by done. by rewrite decide_True. Qed.

Lemma crc_ecc_empty : crc_CheckECC size checksum (crc_AddECC size checksum []) = inr errInputTooShort.
Proof. unfold crc_CheckECC. rewrite crc_AddECC_length. by rewrite (proj2 (Nat.leb_le _ _)) by (simpl; lia). Qed.
End ecc.

Lemma crc32_range d : 0 <= crc_checksum 32 crc32_IEEE d < 256 ^ Z.of_nat 4.
Proof. apply (checksum_range 32 crc32_IEEE); done. Qed.

(** the checksum notices a byte that is changed, wherever it is: data with the
    checksum of other data that differ from them in one byte are refused. *)
Theorem CRC32_detects_byte pre b b' post :
  CheckECC NewIEEECRC32 (AddECC NewIEEECRC32 (pre ++ b :: post)) = inl (pre ++ b :: post) /\
  (b <> b' -> CheckECC NewIEEECRC32 ((pre ++ b' :: post) ++ be_bytes 4 (crc_checksum 32 crc32_IEEE (pre ++ b :: post))) = inr errChecksumDoesntMatch).
Proof.
  assert (Hne : forall b, pre ++ b :: post <> []) by (intros c E; apply app_eq_nil in E as [_ E]; done). split.
  - by apply (crc_ecc_roundtrip 4 _ crc32_range).
  - intros Hb. unfold NewIEEECRC32, CRC32. cbn [CheckECC crc_ECC]. change (crc32_IEEE =? 0) with false. cbv iota.
    rewrite (crc_CheckECC_of 4 _ crc32_range) by apply Hne. rewrite decide_False; [done|]. by apply (checksum_byte 32 crc32_IEEE).
Qed.

(** ** The index of the words *)

Lemma build_index_spec words : forall i b,
  NoDup words -> (forall w, w ∈ words -> b !! w = None) ->
  exists b', build_index i words b = inl b' /\
    (forall w, w ∉ words -> b' !! w = b !! w) /\ forall j w, words !! j = Some w -> b' !! w = Some (i + Z.of_nat j).
Proof.
  induction words as [|w words IH]; intros i b Hnd Hfree; [by exists b|]. apply NoDup_cons in Hnd as [Hw Hnd].
  cbn [build_index]. rewrite (Hfree w) by left. destruct (IH (i + 1) (<[w := i]> b) Hnd) as (b' & Hb' & Hold & Hnew).
  { intros x Hx. rewrite lookup_insert_ne by (intros ->; done). apply Hfree. by right. }
  exists b'. split; [done|]. split.
  - intros x Hx. apply not_elem_of_cons in Hx as [Hne Hx]. rewrite Hold by done. by rewrite lookup_insert_ne.
  - intros [|j] x Hj; simpl in Hj.
    + injection Hj as <-. rewrite Hold, lookup_insert_eq by done. f_equal. lia.
    + rewrite (Hnew j x Hj). f_equal. lia.
Qed.

Section codec.
Context (bank : list string) (Hsize : length bank = BankSize) (Hnd : NoDup bank).

(** A codec of the bank, whether or not its index has been made. *)
Definition codec_ok (c : WordCodec) : Prop :=
  wc_words c = bank /\ wc_check c = NewIEEECRC32 /\
  (wc_bytes c = None \/ exists b, build_index 0 bank ∅ = inl b /\ wc_bytes c = Some b).

Lemma NewCodec_ok : exists c, NewCodec bank = inl c /\ codec_ok c.
Proof. unfold NewCodec. rewrite Hsize. eexists. split; [done|]. split; [done|]. split; [done|by left]. Qed.

Lemma GetIndex_spec c w j :
  codec_ok c -> bank !! j = Some w -> exists c', GetIndex w c = (Ok (inl (Z.of_nat j)), c') /\ codec_ok c'.
Proof.
  intros (Hw & Hc & Hb) Hj. destruct (build_index_spec bank 0 ∅ Hnd) as (b & Hbuild & _ & Hb'); [by intros; apply lookup_empty|].
  exists (mk_WordCodec (wc_words c) (Some b) (wc_check c)). split.
  - unfold GetIndex. destruct Hb as [->|(b2 & Hb2 & ->)].
    + rewrite Hw, Hbuild, (Hb' j w Hj). done.
    + assert (b2 = b) as -> by congruence. by rewrite (Hb' j w Hj).
  - split; [done|]. split; [done|]. right. by exists b.
Qed.

(** The words of a number, its last digit in base 2048 first. *)
Fixpoint words_of (n : nat) (z : Z) : list string :=
  match n with O => [] | S n => nth (Z.to_nat (z mod 2048)) bank "" :: words_of n (z / 2048) end.

Lemma digit_lookup z : bank !! Z.to_nat (z mod 2048) = Some (nth (Z.to_nat (z mod 2048)) bank "").
Proof.
  pose proof (Z.mod_pos_bound z 2048 ltac:(lia)). rewrite nth_lookup.
  destruct (lookup_lt_is_Some_2 bank (Z.to_nat (z mod 2048))) as [w ->]; [rewrite Hsize; unfold BankSize; lia|done].
Qed.

Lemma words_loop_spec n : forall c z ws, codec_ok c ->
  exists c', words_loop n z ws c = (Ok (inl (ws ++ words_of n z)), c') /\ codec_ok c'.
Proof.
  induction n as [|n IH]; intros c z ws Hc; [exists c; by rewrite app_nil_r|]. cbn [words_loop words_of].
  destruct (GetIndex_spec c _ _ Hc (digit_lookup z)) as (c1 & Hg & Hc1).
  unfold mbind, M_bind, word_at, getM. cbn. unfold mbind, M_bind. rewrite (proj1 Hc), (digit_lookup z). cbn. rewrite Hg.
  destruct (IH c1 (z / 2048) (ws ++ [nth (Z.to_nat (z mod 2048)) bank ""]) Hc1) as (c2 & Hr & Hc2).
  exists c2. split; [|done]. rewrite Hr. by rewrite <- app_assoc.
Qed.

Lemma value_loop_spec n : forall z acc c rest, codec_ok c ->
  exists c', value_loop (rev (words_of n z) ++ rest) acc c = value_loop rest (acc * 2048 ^ Z.of_nat n + z mod 2048 ^ Z.of_nat n) c' /\ codec_ok c'.
Proof.
  induction n as [|n IH]; intros z acc c rest Hc.
  - exists c. split; [|done]. simpl. rewrite Z.mod_1_r. f_equal. lia.
  - cbn [words_of rev]. rewrite <- app_assoc. destruct (IH (z / 2048) acc c ([nth (Z.to_nat (z mod 2048)) bank ""] ++ rest) Hc) as (c1 & Hr & Hc1).
    rewrite Hr. cbn [app value_loop]. destruct (GetIndex_spec c1 _ _ Hc1 (digit_lookup z)) as (c2 & Hg & Hc2). exists c2. split; [|done].
    unfold mbind, M_bind. rewrite Hg. f_equal. pose proof (Z.mod_pos_bound z 2048 ltac:(lia)). rewrite Z2Nat.id by lia.
    rewrite Nat2Z.inj_succ, Z.pow_succ_r by lia. rewrite (Z.rem_mul_r z 2048 (2048 ^ Z.of_nat n)) by (try lia; apply Z.pow_pos_nonneg; lia). ring.
Qed.

Lemma words_of_length n z : length (words_of n z) = n.
Proof. revert z. induction n as [|n IH]; intros z; [done|]. simpl. by rewrite IH. Qed.

(** Bytes of a number, filled up with zeros to a length it fits in. *)
Lemma padded_bytes n z : 0 <= z < 256 ^ Z.of_nat n -> repeat Byte.x00 (n - length (big_Bytes z)) ++ big_Bytes z = be_bytes n z.
Proof.
  intros Hz. pose proof (big_Bytes_small z n Hz) as Hl. set (bz := repeat Byte.x00 _ ++ big_Bytes z).
  assert (Hlen : length bz = n) by (unfold bz; rewrite length_app, repeat_length; lia).
  assert (Hval : be_value bz = z) by (unfold bz; rewrite be_value_zeros; apply big_Bytes_value; lia).
  rewrite <- (be_bytes_be_value bz). by rewrite Hlen, Hval.
Qed.

#[local] Ltac Zify.zify_post_hook ::= Z.to_euclidean_division_equations.

(** The length that is tried first is right, or one too much. *)
Lemma bytelen_cases n : 0 <= n ->
  bytelenFromWords (wordlenFromBytes n) = (n, snd (bytelenFromWords (wordlenFromBytes n))) \/
  bytelenFromWords (wordlenFromBytes n) = (n + 1, true).
Proof.
  intros Hn. unfold bytelenFromWords. assert (Hw : wordlenFromBytes n = (8 * n + 10) / 11) by (unfold wordlenFromBytes; apply Z.quot_div_nonneg; lia).
  rewrite Hw. rewrite !(Z.quot_div_nonneg (11 * _)) by lia.
  assert (11 * ((8 * n + 10) / 11) / 8 = n \/ 11 * ((8 * n + 10) / 11) / 8 = n + 1) as [->| ->] by lia; [by left|right].
  f_equal. apply Z.eqb_eq. replace (n + 1 - 1) with n by lia. exact Hw.
Qed.

Lemma enough_words n : 0 <= n -> 256 ^ n <= 2048 ^ wordlenFromBytes n.
Proof.
  intros Hn. unfold wordlenFromBytes. rewrite Z.quot_div_nonneg by lia. change 256 with (2 ^ 8). change 2048 with (2 ^ 11).
  rewrite <- !Z.pow_mul_r by lia. apply Z.pow_le_mono_r; lia.
Qed.

(** Of the two lengths, the right one passes. *)
Lemma check_flex_spec raw data outLen flex :
  raw <> [] -> data = AddECC NewIEEECRC32 raw ->
  (outLen = Z.of_nat (length data) \/ (outLen = Z.of_nat (length data) + 1 /\ flex = true)) ->
  check_flex NewIEEECRC32 (be_bytes (Z.to_nat outLen) (be_value data)) flex = inl raw.
Proof.
  intros Hraw Hdata Hlen. assert (Hgood : CheckECC NewIEEECRC32 data = inl raw) by (rewrite Hdata; by apply (crc_ecc_roundtrip 4 _ crc32_range)).
  unfold check_flex. destruct Hlen as [->|[-> ->]].
  - by rewrite Nat2Z.id, be_bytes_be_value, Hgood.
  - replace (Z.to_nat (Z.of_nat (length data) + 1)) with (length (Byte.x00 :: data)) by (simpl; lia).
    change (be_value data) with (be_value (Byte.x00 :: data)). rewrite be_bytes_be_value. change (drop 1 (Byte.x00 :: data)) with data. rewrite Hgood.
    assert (Hbad : CheckECC NewIEEECRC32 (Byte.x00 :: data) = inr errChecksumDoesntMatch); [|by rewrite Hbad].
    rewrite Hdata. change (Byte.x00 :: AddECC NewIEEECRC32 raw) with ((Byte.x00 :: raw) ++ be_bytes 4 (crc_checksum 32 crc32_IEEE raw)).
    unfold NewIEEECRC32, CRC32. cbn [CheckECC crc_ECC]. change (crc32_IEEE =? 0) with false. cbv iota.
    rewrite (crc_CheckECC_of 4 _ crc32_range) by done. rewrite decide_False; [done|]. intros E. symmetry in E. revert E.
    apply (checksum_zero 32 crc32_IEEE); [done|done|]. vm_compute. discriminate.
Qed.

(** C21: bytes that are not empty, as words of a bank of 2048 different words and
    back: the words are as many as their number and the checksum ask for, they
    are words of the bank, and the bytes come back, leading zeros included,
    whether or not the codec has made its index before. *)
Theorem words_roundtrip raw c :
  codec_ok c -> raw <> [] ->
  exists ws c1 c2, BytesToWords raw c = (Ok (inl ws), c1) /\ codec_ok c1 /\
    Z.of_nat (length ws) = wordlenFromBytes (Z.of_nat (length raw) + 4) /\
    WordsToBytes ws c1 = (Ok (inl raw), c2) /\ codec_ok c2.
Proof.
  intros Hc Hraw. set (data := AddECC NewIEEECRC32 raw). set (n := Z.of_nat (length data)). set (z := be_value data).
  assert (Hn : n = Z.of_nat (length raw) + 4).
  { unfold n, data. change (AddECC NewIEEECRC32 raw) with (crc_AddECC 4 (crc_checksum 32 crc32_IEEE) raw). rewrite crc_AddECC_length. lia. }
  assert (Hw0 : 0 < wordlenFromBytes n) by (unfold wordlenFromBytes; rewrite Z.quot_div_nonneg by lia; lia).
  destruct (words_loop_spec (Z.to_nat (wordlenFromBytes n)) c z [] Hc) as (c1 & Hws & Hc1).
  set (ws := words_of (Z.to_nat (wordlenFromBytes n)) z) in *.
  assert (Hlen : Z.of_nat (length ws) = wordlenFromBytes n) by (unfold ws; rewrite words_of_length; lia).
  assert (Hz : 0 <= z < 256 ^ n) by apply be_value_bound.
  destruct (value_loop_spec (Z.to_nat (wordlenFromBytes n)) z 0 c1 [] Hc1) as (c2 & Hv & Hc2). fold ws in Hv. rewrite app_nil_r in Hv.
  rewrite Z2Nat.id, Z.mod_small, Z.mul_0_l, Z.add_0_l in Hv by (pose proof (enough_words n); lia). cbn [value_loop] in Hv.
  exists ws, c1, c2. split; [|split; [done|split; [by rewrite Hlen, Hn|split; [|done]]]].
  - unfold BytesToWords, mbind, M_bind, getM. cbn. rewrite (proj1 (proj2 Hc)). exact Hws.
  - unfold WordsToBytes. destruct ws as [|w ws'] eqn:Ews; [simpl in Hlen; lia|]. rewrite <- Ews in *.
    unfold mbind at 1, M_bind at 1. rewrite Hv. cbv iota beta. rewrite Hlen. set (bl := bytelenFromWords (wordlenFromBytes n)).
    assert (Hbl : fst bl = n \/ (fst bl = n + 1 /\ snd bl = true)).
    { destruct (bytelen_cases n ltac:(lia)) as [E|E]; unfold bl; rewrite E; [by left|by right]. }
    destruct bl as [outLen flex]. simpl in Hbl. assert (Hfit : z < 256 ^ Z.of_nat (Z.to_nat outLen)).
    { rewrite Z2Nat.id by lia. eapply Z.lt_le_trans; [apply Hz|]. apply Z.pow_le_mono_r; lia. }
    pose proof (big_Bytes_small z (Z.to_nat outLen) ltac:(lia)) as Hbig. unfold mret at 1, M_ret at 1. cbv beta iota zeta. rewrite (proj2 (Z.ltb_ge outLen _)) by lia.
    unfold mbind, M_bind, getM. cbv beta iota zeta. rewrite (padded_bytes (Z.to_nat outLen) z (conj (proj1 Hz) Hfit)). rewrite (proj1 (proj2 Hc2)).
    unfold z. by rewrite (check_flex_spec raw data outLen flex Hraw eq_refl Hbl).
Qed.
End codec.

(** ** A bank, and runs *)

Definition ex_bank : list string := (fun n => pretty (N.of_nat n)) <$> seq 0 2048.
Lemma ex_bank_size : length ex_bank = BankSize.
Proof. unfold ex_bank. by rewrite length_fmap, length_seq. Qed.
Lemma ex_bank_NoDup : NoDup ex_bank.
Proof.
  unfold ex_bank. apply NoDup_fmap_2_strong; [|apply NoDup_seq]. intros a b _ _ E%(inj _). lia.
Qed.
Definition ex_codec : WordCodec := mk_WordCodec ex_bank None NewIEEECRC32.
Lemma ex_codec_ok : codec_ok ex_bank ex_codec.
Proof. split; [reflexivity|]. split; [reflexivity|by left]. Qed.

Definition ex_raw : bytes := [Byte.x00; Byte.x00; Byte.x07; Byte.xff; Byte.x10].
Example words_run :
  (BytesToWords ex_raw ex_codec).1 = Ok (inl ["1166"; "1985"; "311"; "1928"; "127"; "0"; "0"]) /\
  ((ws ← BytesToWords ex_raw; match ws with inl ws => WordsToBytes ws | inr e => mret (inr e) end) ex_codec).1 = Ok (inl ex_raw).
Proof. vm_compute. split; reflexivity. Qed.
Example words_errors :
  (WordsToBytes [] ex_codec).1 = Ok (inr "Didn't provide any words") /\
  (WordsToBytes ["0"; "abandon"] ex_codec).1 = Ok (inr "Unrecognized word") /\
  (WordsToBytes ["1166"; "1985"; "311"; "1929"; "127"; "0"; "0"] ex_codec).1 = Ok (inr errChecksumDoesntMatch) /\
  (WordsToBytes ["2047"; "2047"] ex_codec).1 = Ok (inr "Invalid data, could not have been generated by this codec") /\
  (GetIndex "a" (mk_WordCodec ["a"; "b"; "a"] None NewIEEECRC32)).1 = Ok (inr "Duplicate word in list") /\
  NewCodec ["a"] = inr "Bank must have 2048 words".
Proof. vm_compute. repeat split; reflexivity. Qed.

(** Nothing cannot be written as words and read back. *)
Example words_of_nothing :
  ((ws ← BytesToWords []; match ws with inl ws => WordsToBytes ws | inr e => mret (inr e) end) ex_codec).1 = Ok (inr errInputTooShort).
Proof. vm_compute. reflexivity. Qed.

Lemma words_roundtrip_witness :
  exists ws c1 c2, BytesToWords ex_raw ex_codec = (Ok (inl ws), c1) /\ WordsToBytes ws c1 = (Ok (inl ex_raw), c2).
Proof.
  destruct (words_roundtrip ex_bank ex_bank_size ex_bank_NoDup ex_raw ex_codec ex_codec_ok) as (ws & c1 & c2 & H1 & _ & _ & H2 & _); [discriminate|].
  exists ws, c1, c2. exact (conj H1 H2).
Defined.

Lemma CRC32_detects_byte_witness :
  CheckECC NewIEEECRC32 (([Byte.x01] ++ Byte.x03 :: [Byte.x04]) ++ be_bytes 4 (crc_checksum 32 crc32_IEEE ([Byte.x01] ++ Byte.x02 :: [Byte.x04])))
    = inr errChecksumDoesntMatch.
Proof. apply (CRC32_detects_byte [Byte.x01] Byte.x02 Byte.x03 [Byte.x04]). discriminate. Defined.
