(* ===== verification/Bcrypt.v ===== *)
(** * crypto/keys/bcrypt: password hashing with a given salt

    bcrypt.go and base64.go.  The Blowfish cipher is third-party code; base64
    and strconv are written out.  The result of a function that returns an
    error is a sum, inside [outcome] for the slices that may be indexed out of
    range. *)
From Stdlib Require Import Strings.Byte Strings.Ascii Strings.String ZifyNat.
From stdpp Require Import pretty.
From S2P Require Import Prelude Names.
#[local] Open Scope string_scope.
#[local] Open Scope list_scope.
#[local] Open Scope Z_scope.

(** golang.org/x/crypto/blowfish. *)
Class Blowfish := {
  Cipher : Type;
  NewSaltedCipher : bytes -> bytes -> Cipher + string;
  ExpandKey : bytes -> Cipher -> Cipher;
  Encrypt : Cipher -> bytes -> bytes;
}.

(** Any key but the empty one is accepted, with a salt; blocks keep their 8
    bytes. *)
Class BlowfishLaws `{Blowfish} : Prop := {
  NewSaltedCipher_accepts : forall key salt, key <> [] -> salt <> [] -> exists c, NewSaltedCipher key salt = inl c;
  Encrypt_length : forall c block, length block = 8%nat -> length (Encrypt c block) = 8%nat;
}.

Inductive bcrypt_error :=
  | ErrMismatchedHashAndPassword
  | ErrHashTooShort
  | HashVersionTooNewError (hv : Byte.byte)
  | InvalidHashPrefixError (ih : Byte.byte)
  | InvalidCostError (ic : Z)
  | OtherError (msg : string).

#[export] Instance bcrypt_error_eq_dec : EqDecision bcrypt_error.
Proof. solve_decision. Defined.
#[export] Instance panic_value_eq_dec : EqDecision panic_value.
Proof. solve_decision. Defined.
#[export] Instance outcome_eq_dec {A} `{EqDecision A} : EqDecision (outcome A).
Proof. solve_decision. Defined.

(** [x, err := m; if err != nil { return err }]. *)
Definition try {A B Err} (m : outcome (A + Err)) (k : A -> outcome (B + Err)) : outcome (B + Err) :=
  match m with
  | Ok (inl a) => k a
  | Ok (inr e) => Ok (inr e)
  | Panicked p => Panicked p
  end.
Notation "'let?' x := m 'in' k" := (try m (fun x => k))
  (at level 10, x binder, m at level 100, k at level 200) : sdk_scope.
#[local] Open Scope sdk_scope.

Definition MinCost : Z := 4.
Definition MaxCost : Z := 31.
Definition DefaultCost : Z := 10.
Definition majorVersion : Byte.byte := Byte.x32.
Definition minorVersion : Byte.byte := Byte.x61.
Definition maxSaltSize : nat := 16.
Definition maxCryptedHashSize : nat := 23.
Definition encodedSaltSize : nat := 22.
Definition encodedHashSize : nat := 31.
Definition minHashSize : nat := 59.

(** ** base64.go over encoding/base64 *)

Definition alphabet : bytes := string_bytes "./ABCDEFGHIJKLMNOPQRSTUVWXYZabcdefghijklmnopqrstuvwxyz0123456789".
Definition pad : Byte.byte := Byte.x3d.

Definition enc6 (z : Z) : Byte.byte := nth (Z.to_nat z) alphabet Byte.x00.
Fixpoint index_in (b : Byte.byte) (l : bytes) (i : Z) : option Z :=
  match l with [] => None | c :: l => if decide (b = c) then Some i else index_in b l (i + 1) end.
Definition dec6 (b : Byte.byte) : option Z := index_in b alphabet 0.
Definition to_Z (b : Byte.byte) : Z := Z.of_N (Byte.to_N b).

(** Encoding.Encode, three bytes at a time. *)
Fixpoint base64_Encode (src : bytes) : bytes :=
  match src with
  | [] => []
  | [a] => [enc6 (to_Z a / 4); enc6 (to_Z a mod 4 * 16); pad; pad]
  | [a; b] => [enc6 (to_Z a / 4); enc6 (to_Z a mod 4 * 16 + to_Z b / 16); enc6 (to_Z b mod 16 * 4); pad]
  | a :: b :: c :: src =>
      enc6 (to_Z a / 4) :: enc6 (to_Z a mod 4 * 16 + to_Z b / 16) ::
      enc6 (to_Z b mod 16 * 4 + to_Z c / 64) :: enc6 (to_Z c mod 64) :: base64_Encode src
  end.

(** Encoding.Decode: line breaks are skipped, the last quantum may be padded. *)
Fixpoint decode_quanta (src : bytes) : option bytes :=
  match src with
  | [] => Some []
  | a :: b :: c :: d :: src =>
      x ← dec6 a;
      y ← dec6 b;
      if decide (c = pad) then
        if decide (d = pad /\ src = []) then Some [byte_of_Z (x * 4 + y / 16)] else None
      else
        z ← dec6 c;
        if decide (d = pad) then
          if decide (src = []) then Some [byte_of_Z (x * 4 + y / 16); byte_of_Z (y mod 16 * 16 + z / 4)] else None
        else
          w ← dec6 d;
          rest ← decode_quanta src;
          Some (byte_of_Z (x * 4 + y / 16) :: byte_of_Z (y mod 16 * 16 + z / 4) :: byte_of_Z (z mod 4 * 64 + w) :: rest)
  | _ => None
  end.
Definition base64_Decode (src : bytes) : option bytes :=
  decode_quanta (List.filter (fun b => negb (bool_decide (b = Byte.x0a \/ b = Byte.x0d))) src).

(** [for dst[n-1] == '='] from the end; [rev_dst] is the slice reversed. *)
Fixpoint strip_pad (rev_dst : bytes) : outcome bytes :=
  match rev_dst with
  | [] => Panicked (RuntimeError "index out of range")
  | b :: l => if decide (b = pad) then strip_pad l else Ok (rev rev_dst)
  end.
Definition base64Encode (src : bytes) : outcome bytes := strip_pad (rev (base64_Encode src)).

Definition base64Decode (src : bytes) : bytes + bcrypt_error :=
  match base64_Decode (src ++ repeat pad (4 - length src mod 4)) with
  | Some dst => inl dst
  | None => inr (OtherError "illegal base64 data")
  end.

(** ** bcrypt.go *)

Definition magicCipherData : bytes := string_bytes "OrpheanBeholderScryDoubt".

Record hashed := mk_hashed { h_hash : bytes; h_salt : bytes; h_cost : Z; h_major : Byte.byte; h_minor : Byte.byte }.

Definition checkCost (cost : Z) : option bcrypt_error :=
  if (cost <? MinCost) || (MaxCost <? cost) then Some (InvalidCostError cost) else None.

Section bcrypt.
Context `{Blowfish}.

(** [rounds] is [1 << cost], of a cost that has been checked. *)
Definition expensiveBlowfishSetup (key : bytes) (cost : Z) (salt : bytes) : Cipher + bcrypt_error :=
  match base64Decode salt with
  | inr err => inr err
  | inl csalt =>
      let ckey := key ++ [Byte.x00] in
      match NewSaltedCipher ckey csalt with
      | inr err => inr (OtherError err)
      | inl c => inl (N.iter (Z.to_N (Z.shiftl 1 cost)) (fun c => ExpandKey csalt (ExpandKey ckey c)) c)
      end
  end.

Definition encrypt_block (c : Cipher) (block : bytes) : bytes := Nat.iter 64 (Encrypt c) block.

Definition bcrypt (password : bytes) (cost : Z) (salt : bytes) : outcome (bytes + bcrypt_error) :=
  let? c := Ok (expensiveBlowfishSetup password cost salt) in
  let cipherData := concat ((fun i => encrypt_block c (take 8 (drop (8 * i) magicCipherData))) <$> seq 0 3) in
  hsh ← base64Encode (take maxCryptedHashSize cipherData);
  Ok (inl hsh).

Definition newFromPassword (salt password : bytes) (cost : Z) : outcome (hashed + bcrypt_error) :=
  let cost := if cost <? MinCost then DefaultCost else cost in
  match checkCost cost with
  | Some err => Ok (inr err)
  | None =>
      salt ← base64Encode salt;
      let? hash := bcrypt password cost salt in
      Ok (inl (mk_hashed hash salt cost majorVersion minorVersion))
  end.

(** [copy(arr[n:], src)]. *)
Definition copy_at (n : nat) (src arr : bytes) : bytes :=
  take n arr ++ take (length arr - n) src ++ drop (n + length src) arr.

(** %02d of a cost. *)
Definition cost_text (cost : Z) : bytes :=
  let s := string_bytes (pretty cost) in repeat Byte.x30 (2 - length s) ++ s.

Definition Hash (p : hashed) : bytes :=
  let arr := copy_at 0 [Byte.x24; h_major p] (repeat Byte.x00 60) in
  let '(arr, n) := if decide (h_minor p <> Byte.x00) then (copy_at 2 [h_minor p] arr, 3%nat) else (arr, 2%nat) in
  let arr := copy_at n [Byte.x24] arr in
  let arr := copy_at (n + 1) (cost_text (h_cost p)) arr in
  let arr := copy_at (n + 3) [Byte.x24] arr in
  let arr := copy_at (n + 4) (h_salt p) arr in
  let arr := copy_at (n + 4 + encodedSaltSize) (h_hash p) arr in
  take (n + 4 + encodedSaltSize + encodedHashSize) arr.

Definition GenerateFromPassword (salt password : bytes) (cost : Z) : outcome (bytes + bcrypt_error) :=
  if negb (length salt =? maxSaltSize)%nat then Ok (inr (OtherError "salt len must be 16"))
  else
    let? p := newFromPassword salt password cost in
    Ok (inl (Hash p)).

(** The major and minor version, and the bytes read. *)
Definition decodeVersion (sbytes : bytes) : outcome ((Byte.byte * Byte.byte * nat) + bcrypt_error) :=
  let missing := Panicked (RuntimeError "index out of range") in
  match sbytes with
  | [] => missing
  | b0 :: sbytes =>
      if decide (b0 <> Byte.x24) then Ok (inr (InvalidHashPrefixError b0)) else
      match sbytes with
      | [] => missing
      | b1 :: sbytes =>
          if to_Z majorVersion <? to_Z b1 then Ok (inr (HashVersionTooNewError b1)) else
          match sbytes with
          | [] => missing
          | b2 :: _ => if decide (b2 <> Byte.x24) then Ok (inl (b1, b2, 4%nat)) else Ok (inl (b1, Byte.x00, 3%nat))
          end
      end
  end.

Definition decodeCost (sbytes : bytes) : outcome ((Z * nat) + bcrypt_error) :=
  if (length sbytes <? 2)%nat then Panicked (RuntimeError "slice bounds out of range")
  else
    match Atoi (take 2 sbytes) with
    | None => Ok (inr (OtherError "strconv.Atoi"))
    | Some cost =>
        match checkCost cost with
        | Some err => Ok (inr err)
        | None => Ok (inl (cost, 3%nat))
        end
    end.

Definition newFromHash (hashedSecret : bytes) : outcome (hashed + bcrypt_error) :=
  if (length hashedSecret <? minHashSize)%nat then Ok (inr ErrHashTooShort)
  else
    let? '(major, minor, n) := decodeVersion hashedSecret in
    let hashedSecret := drop n hashedSecret in
    let? '(cost, n) := decodeCost hashedSecret in
    let hashedSecret := drop n hashedSecret in
    if (length hashedSecret <? encodedSaltSize)%nat then Panicked (RuntimeError "slice bounds out of range")
    else Ok (inl (mk_hashed (drop encodedSaltSize hashedSecret) (take encodedSaltSize hashedSecret) cost major minor)).

Definition CompareHashAndPassword (hashedPassword password : bytes) : outcome (unit + bcrypt_error) :=
  let? p := newFromHash hashedPassword in
  let? otherHash := bcrypt password (h_cost p) (h_salt p) in
  let otherP := mk_hashed otherHash (h_salt p) (h_cost p) (h_major p) (h_minor p) in
  if decide (Hash p = Hash otherP) then Ok (inl tt) else Ok (inr ErrMismatchedHashAndPassword).

Definition Cost (hashedPassword : bytes) : outcome (Z + bcrypt_error) :=
  let? p := newFromHash hashedPassword in Ok (inl (h_cost p)).
End bcrypt.

(** ** base64 *)

#[local] Ltac Zify.zify_post_hook ::= Z.to_euclidean_division_equations.

Lemma list_ind3 {A : Type} (P : list A -> Prop) :
  P [] -> (forall a, P [a]) -> (forall a b, P [a; b]) -> (forall a b c l, P l -> P (a :: b :: c :: l)) -> forall l, P l.
Proof.
  intros H0 H1 H2 H3. fix IH 1. intros [|a [|b [|c l]]]; [exact H0|apply H1|apply H2|]. apply H3, IH.
Qed.

Definition plain (b : Byte.byte) : Prop := b <> pad /\ b <> Byte.x0a /\ b <> Byte.x0d.

Lemma enc6_ok z : 0 <= z < 64 -> dec6 (enc6 z) = Some z /\ plain (enc6 z).
Proof.
  intros Hz.
  assert (Hall : forallb (fun n => bool_decide (dec6 (enc6 (Z.of_nat n)) = Some (Z.of_nat n)) && bool_decide (plain (enc6 (Z.of_nat n))))
    (seq 0 64) = true) by (vm_compute; reflexivity).
  rewrite forallb_forall in Hall. specialize (Hall (Z.to_nat z)).
  rewrite Z2Nat.id, andb_true_iff, !bool_decide_eq_true in Hall by lia. apply Hall. apply in_seq. lia.
Qed.

Lemma enc6_plain z : 0 <= z < 64 -> plain (enc6 z).
Proof. intros Hz. exact (proj2 (enc6_ok z Hz)). Qed.

Lemma to_Z_byte b : byte_of_Z (to_Z b) = b.
Proof. apply byte_of_Z_to_N. Qed.

Lemma to_Z_range b : 0 <= to_Z b < 256.
Proof. apply byte_range. Qed.

Lemma byte_is z b : z = to_Z b -> byte_of_Z z = b.
Proof. intros ->. apply to_Z_byte. Qed.

(** The encoding: digits, then the padding. *)
Definition encoded_len (n : nat) : nat := ((4 * n + 2) / 3)%nat.
Lemma base64_Encode_shape src :
  exists body k, base64_Encode src = body ++ repeat pad k /\ Forall plain body /\
    length body = encoded_len (length src) /\ (k = (3 - length src mod 3) mod 3)%nat.
Proof.
  induction src as [|a|a b|a b c src (body & k & He & Hp & Hl & Hk)] using list_ind3.
  - by exists [], 0%nat.
  - pose proof (to_Z_range a).
    eexists [_; _], 2%nat. split; [reflexivity|]. split; [|done].
    repeat (apply List.Forall_cons; [apply enc6_plain; lia|]). apply List.Forall_nil.
  - pose proof (to_Z_range a). pose proof (to_Z_range b).
    eexists [_; _; _], 1%nat. split; [reflexivity|]. split; [|done].
    repeat (apply List.Forall_cons; [apply enc6_plain; lia|]). apply List.Forall_nil.
  - pose proof (to_Z_range a). pose proof (to_Z_range b). pose proof (to_Z_range c).
    eexists (_ :: _ :: _ :: _ :: body), k. split; [cbn [base64_Encode]; rewrite He; reflexivity|]. split; [|split].
    + repeat (apply List.Forall_cons; [apply enc6_plain; lia|]). exact Hp.
    + simpl length. rewrite Hl. unfold encoded_len.
      replace (4 * S (S (S (length src))) + 2)%nat with (4 * length src + 2 + 4 * 3)%nat by lia. rewrite Nat.div_add by lia. lia.
    + simpl length. replace (S (S (S (length src)))) with (length src + 1 * 3)%nat by lia. by rewrite Nat.Div0.mod_add.
Qed.

Lemma decode_quanta_encode src : decode_quanta (base64_Encode src) = Some src.
Proof.
  assert (Hpad : forall z, 0 <= z < 64 -> enc6 z <> pad) by (intros z Hz; by apply enc6_ok).
  assert (Hdec : forall z, 0 <= z < 64 -> dec6 (enc6 z) = Some z) by (intros z Hz; by apply enc6_ok).
  induction src as [|a|a b|a b c src IH] using list_ind3; [done|..];
    pose proof (to_Z_range a) as Ha; cbn [base64_Encode decode_quanta].
  - rewrite !Hdec by lia. simpl. by rewrite (byte_is _ a) by lia.
  - pose proof (to_Z_range b) as Hb. rewrite !Hdec by lia. simpl. rewrite decide_False by (apply Hpad; lia).
    by rewrite (byte_is _ a), (byte_is _ b) by lia.
  - pose proof (to_Z_range b) as Hb. pose proof (to_Z_range c) as Hc. rewrite !Hdec by lia. simpl.
    rewrite !decide_False by (apply Hpad; lia). rewrite IH. simpl.
    by rewrite (byte_is _ a), (byte_is _ b), (byte_is _ c) by lia.
Qed.

Lemma strip_pad_spec body k : body <> [] -> Forall plain body -> strip_pad (rev (body ++ repeat pad k)) = Ok body.
Proof.
  intros Hne Hp. rewrite rev_app_distr, rev_repeat. induction k as [|k IH]; simpl; [|exact IH].
  destruct body as [|b body _] using rev_ind; [done|]. rewrite rev_app_distr. simpl.
  apply Forall_app in Hp as [_ Hb]. apply List.Forall_inv in Hb. destruct Hb as [Hb _].
  rewrite decide_False by done. by rewrite rev_involutive.
Qed.

Lemma no_newlines body k : Forall plain body ->
  List.filter (fun b => negb (bool_decide (b = Byte.x0a \/ b = Byte.x0d))) (body ++ repeat pad k) = body ++ repeat pad k.
Proof.
  intros Hp. induction Hp as [|b body (_ & Ha & Hd) _ IH]; simpl.
  - induction k as [|k IH]; [done|]. simpl. by rewrite IH.
  - rewrite bool_decide_eq_false_2 by (by intros [?|?]). simpl. by rewrite IH.
Qed.

Lemma decode_quanta_padded src : (length src mod 3 = 0)%nat -> decode_quanta (base64_Encode src ++ repeat pad 4) = None.
Proof.
  induction src as [|a|a b|a b c src IH] using list_ind3; intros Hm; [reflexivity|done|done|].
  cbn [length] in Hm. replace (S (S (S (length src)))) with (length src + 1 * 3)%nat in Hm by lia.
  rewrite Nat.Div0.mod_add in Hm. specialize (IH Hm).
  pose proof (to_Z_range a). pose proof (to_Z_range b). pose proof (to_Z_range c).
  assert (Hpad : forall z, 0 <= z < 64 -> enc6 z <> pad) by (intros z Hz; by apply enc6_ok).
  assert (Hdec : forall z, 0 <= z < 64 -> dec6 (enc6 z) = Some z) by (intros z Hz; by apply enc6_ok).
  cbn [base64_Encode app decode_quanta]. rewrite !Hdec by lia. cbn [mbind option_bind].
  rewrite !decide_False by (apply Hpad; lia). by rewrite IH.
Qed.

(** encoding a slice drops the padding and decoding puts it back: a slice
    whose length is not a multiple of 3 comes back, and any other is an error,
    because four signs of padding are added to it. *)
Lemma base64_Encode_ok (src : bytes) :
  src <> [] -> exists body, base64Encode src = Ok body /\ length body = encoded_len (length src) /\
    base64Decode body = if decide (length src mod 3 = 0)%nat then inr (OtherError "illegal base64 data") else inl src.
Proof.
  intros Hne. destruct (base64_Encode_shape src) as (body & k & He & Hp & Hl & Hk). exists body.
  assert (Hnil : body <> []).
  { intros ->. destruct src; [done|]. unfold encoded_len in Hl. cbn [length] in Hl. lia. }
  unfold base64Encode. rewrite He, strip_pad_spec by done. split; [done|]. split; [done|].
  unfold base64Decode, base64_Decode. rewrite no_newlines by done. unfold encoded_len in Hl. case_decide as Hm.
  - replace (4 - length body mod 4)%nat with 4%nat by lia.
    assert (k = O) as -> by lia. rewrite app_nil_r in He.
    rewrite <- He. by rewrite decode_quanta_padded.
  - replace (4 - length body mod 4)%nat with k by lia. by rewrite <- He, decode_quanta_encode.
Qed.

(** ** The text of a hash *)

Lemma cost_ok cost : MinCost <= cost <= MaxCost -> length (cost_text cost) = 2%nat /\ Atoi (cost_text cost) = Some cost.
Proof.
  unfold MinCost, MaxCost. intros Hc.
  assert (Hall : forallb (fun n => bool_decide (length (cost_text (Z.of_nat n)) = 2%nat) &&
    bool_decide (Atoi (cost_text (Z.of_nat n)) = Some (Z.of_nat n))) (seq 4 28) = true) by (vm_compute; reflexivity).
  rewrite forallb_forall in Hall. specialize (Hall (Z.to_nat cost)).
  rewrite Z2Nat.id, andb_true_iff, !bool_decide_eq_true in Hall by lia. apply Hall. apply in_seq. lia.
Qed.

Lemma copy_at_zeros pre src n m :
  length pre = n -> (length src <= m)%nat ->
  copy_at n src (pre ++ repeat Byte.x00 m) = (pre ++ src) ++ repeat Byte.x00 (m - length src).
Proof.
  intros <- Hs. unfold copy_at. rewrite take_app_length, length_app, repeat_length.
  replace (length pre + m - length pre)%nat with m by lia.
  rewrite (take_ge src) by done. rewrite drop_app_add. rewrite <- app_assoc. do 2 f_equal.
  replace m with (length src + (m - length src))%nat at 1 by lia. rewrite repeat_app.
  rewrite drop_app_ge by (rewrite repeat_length; lia). by rewrite repeat_length, Nat.sub_diag.
Qed.

(** A hash made by the module: minor version, and fields of their sizes. *)
Record hash_ok (p : hashed) : Prop := mk_hash_ok {
  ho_minor : h_minor p = minorVersion;
  ho_major : h_major p = majorVersion;
  ho_cost : MinCost <= h_cost p <= MaxCost;
  ho_salt : length (h_salt p) = encodedSaltSize;
  ho_hash : length (h_hash p) = encodedHashSize
}.

Lemma Hash_eq p : hash_ok p ->
  Hash p = [Byte.x24; majorVersion; minorVersion; Byte.x24] ++ cost_text (h_cost p) ++ [Byte.x24] ++ h_salt p ++ h_hash p.
Proof.
  intros [Hmin Hmaj Hc Hs Hh]. destruct (cost_ok _ Hc) as [Hct _]. unfold Hash. rewrite Hmin, Hmaj.
  rewrite decide_True by done. unfold encodedSaltSize, encodedHashSize in *.
  change (copy_at 2 [minorVersion] (copy_at 0 [Byte.x24; majorVersion] (repeat Byte.x00 60)))
    with ([Byte.x24; majorVersion; minorVersion] ++ repeat Byte.x00 57).
  change (3 + 1)%nat with 4%nat. change (3 + 3)%nat with 6%nat. change (3 + 4)%nat with 7%nat.
  change (7 + 22)%nat with 29%nat. change (29 + 31)%nat with 60%nat.
  assert (Hlen : length ([Byte.x24; majorVersion; minorVersion] ++ [Byte.x24]) = 4%nat) by done.
  rewrite (copy_at_zeros _ [Byte.x24]) by (done || (simpl; lia)).
  rewrite (copy_at_zeros _ (cost_text _)) by (done || (rewrite Hct; simpl; lia)).
  rewrite (copy_at_zeros _ [Byte.x24]) by (rewrite ?length_app, ?Hct; simpl; lia).
  rewrite (copy_at_zeros _ (h_salt p)) by (rewrite ?length_app, ?Hct, ?Hs; simpl; lia).
  rewrite (copy_at_zeros _ (h_hash p)) by (rewrite ?length_app, ?Hct, ?Hs, ?Hh; simpl; lia).
  rewrite take_app_le by (rewrite !length_app, Hct, Hs, Hh; simpl; lia).
  rewrite take_ge by (rewrite !length_app, Hct, Hs, Hh; simpl; lia). by rewrite <- !app_assoc.
Qed.

Lemma decodeVersion_Hash l : decodeVersion ([Byte.x24; majorVersion; minorVersion; Byte.x24] ++ l) = Ok (inl (majorVersion, minorVersion, 4%nat)).
Proof. reflexivity. Qed.

Lemma decodeCost_text cost l : MinCost <= cost <= MaxCost -> decodeCost (cost_text cost ++ l) = Ok (inl (cost, 3%nat)).
Proof.
  intros Hc. destruct (cost_ok _ Hc) as [Hl Ha]. unfold decodeCost. rewrite (proj2 (Nat.ltb_ge _ _)) by (rewrite length_app; lia).
  rewrite take_app_le, take_ge, Ha by lia. unfold checkCost.
  by rewrite (proj2 (Z.ltb_ge _ _)), (proj2 (Z.ltb_ge _ _)) by lia.
Qed.

Lemma newFromHash_Hash p : hash_ok p -> newFromHash (Hash p) = Ok (inl p).
Proof.
  intros Hp. rewrite Hash_eq by done. destruct Hp as [Hmin Hmaj Hc Hs Hh]. destruct (cost_ok _ Hc) as [Hct Ha].
  unfold newFromHash. rewrite (proj2 (Nat.ltb_ge _ _)).
  2:{ rewrite !length_app, Hct, Hs, Hh. unfold minHashSize, encodedSaltSize, encodedHashSize. simpl. lia. }
  rewrite decodeVersion_Hash. cbn [try]. rewrite drop_app_length' by done. rewrite decodeCost_text by done. cbn [try].
  rewrite app_assoc, drop_app_length' by (rewrite length_app, Hct; done).
  rewrite (proj2 (Nat.ltb_ge _ _)) by (rewrite length_app; lia).
  rewrite drop_app_length', take_app_length' by done. destruct p. simpl in *. by subst.
Qed.

(** ** Hashing and comparing *)

Section laws.
Context `{HBL : BlowfishLaws}.

(** What is encoded in the end: 23 bytes, whatever the cipher. *)
Lemma cipher_text (c : Cipher) : exists h, length h = encodedHashSize /\
  base64Encode (take maxCryptedHashSize (concat ((fun i => encrypt_block c (take 8 (drop (8 * i) magicCipherData))) <$> seq 0 3))) = Ok h.
Proof.
  set (data := take maxCryptedHashSize _).
  assert (Hl : length data = 23%nat).
  { assert (Hb : forall n block, length block = 8%nat -> length (Nat.iter n (Encrypt c) block) = 8%nat).
    { intros n. induction n as [|n IH]; intros block Hb; [done|]. simpl. by apply Encrypt_length, IH. }
    unfold data. rewrite length_take. simpl concat. rewrite !length_app. unfold encrypt_block. rewrite !Hb by done. done. }
  destruct (base64_Encode_ok data) as (body & He & Hlen & _); [by intros E; rewrite E in Hl|].
  exists body. rewrite Hlen, Hl. by split.
Qed.

Lemma bcrypt_length password cost salt h : bcrypt password cost salt = Ok (inl h) -> length h = encodedHashSize.
Proof.
  unfold bcrypt. destruct (expensiveBlowfishSetup password cost salt) as [c|e]; [|done]. cbn [try].
  destruct (cipher_text c) as (h' & Hl & ->). by intros [= <-].
Qed.

(** An encoded salt of 16 bytes sets the cipher up. *)
Lemma setup_total password cost salt es :
  length salt = maxSaltSize -> base64Encode salt = Ok es -> exists c, expensiveBlowfishSetup password cost es = inl c.
Proof.
  intros Hs He. assert (Hne : salt <> []) by (intros ->; discriminate Hs).
  destruct (base64_Encode_ok salt Hne) as (body & Hb & _ & Hd).
  rewrite He in Hb. injection Hb as <-. unfold expensiveBlowfishSetup. rewrite Hd, decide_False by (rewrite Hs; done).
  destruct (NewSaltedCipher_accepts (password ++ [Byte.x00]) salt) as [c ->]; [by destruct password|done|]. by eexists.
Qed.

Lemma bcrypt_total password cost salt es :
  length salt = maxSaltSize -> base64Encode salt = Ok es -> exists h, bcrypt password cost es = Ok (inl h).
Proof.
  intros Hs He. destruct (setup_total password cost salt es Hs He) as [c Hc]. unfold bcrypt. rewrite Hc. cbn [try].
  destruct (cipher_text c) as (h & _ & ->). by exists h.
Qed.

(** The cost that is used. *)
Definition used_cost (cost : Z) : Z := if cost <? MinCost then DefaultCost else cost.

Lemma generated salt password cost :
  length salt = maxSaltSize -> cost <= MaxCost ->
  exists es h, base64Encode salt = Ok es /\ bcrypt password (used_cost cost) es = Ok (inl h) /\
    hash_ok (mk_hashed h es (used_cost cost) majorVersion minorVersion) /\
    GenerateFromPassword salt password cost = Ok (inl (Hash (mk_hashed h es (used_cost cost) majorVersion minorVersion))).
Proof.
  intros Hs Hc. assert (Hne : salt <> []) by (intros ->; discriminate Hs).
  destruct (base64_Encode_ok salt Hne) as (es & He & Hlen & _).
  destruct (bcrypt_total password (used_cost cost) salt es Hs He) as [h Hh].
  assert (Hu : MinCost <= used_cost cost <= MaxCost).
  { unfold used_cost, MinCost, MaxCost, DefaultCost in *. destruct (Z.ltb_spec cost 4); lia. }
  exists es, h. split; [done|]. split; [done|]. split.
  { split; simpl; [done|done|done| |by eapply bcrypt_length]. by rewrite Hlen, Hs. }
  unfold GenerateFromPassword. rewrite Hs. simpl negb. cbv iota. unfold newFromPassword. fold (used_cost cost).
  unfold checkCost. rewrite (proj2 (Z.ltb_ge _ _)), (proj2 (Z.ltb_ge _ _)) by lia. cbn [orb]. rewrite He. simpl. by rewrite Hh.
Qed.

(** a hash made from a password and 16 bytes of salt, at a cost that is not
    too large, is a text of 60 bytes; comparing it with a password succeeds for
    the one it was made from, and for another exactly if bcrypt gives both the
    same hash - otherwise the error says that they differ. *)
Theorem Compare_generated (salt password : bytes) (cost : Z) :
  length salt = maxSaltSize -> cost <= MaxCost ->
  exists text es, GenerateFromPassword salt password cost = Ok (inl text) /\ length text = 60%nat /\
    base64Encode salt = Ok es /\ CompareHashAndPassword text password = Ok (inl tt) /\
    forall other, CompareHashAndPassword text other =
      if decide (bcrypt other (used_cost cost) es = bcrypt password (used_cost cost) es) then Ok (inl tt)
      else Ok (inr ErrMismatchedHashAndPassword).
Proof.
  intros Hs Hc. destruct (generated salt password cost Hs Hc) as (es & h & He & Hh & Hok & Hg).
  set (p := mk_hashed h es (used_cost cost) majorVersion minorVersion) in *.
  assert (Hcmp : forall other, CompareHashAndPassword (Hash p) other =
    if decide (bcrypt other (used_cost cost) es = bcrypt password (used_cost cost) es) then Ok (inl tt)
    else Ok (inr ErrMismatchedHashAndPassword)).
  { intros other. unfold CompareHashAndPassword. rewrite newFromHash_Hash by done. cbn [try p h_cost h_salt h_major h_minor].
    destruct (bcrypt_total other (used_cost cost) salt es Hs He) as [h' Hh']. rewrite Hh', Hh. cbn [try].
    assert (Hok' : hash_ok (mk_hashed h' es (used_cost cost) majorVersion minorVersion)).
    { destruct Hok. split; simpl in *; try done. by eapply bcrypt_length. }
    destruct (decide (Ok (inl h') = Ok (inl h))) as [[= ->]|Hne]; [by rewrite decide_True|].
    rewrite decide_False; [done|]. rewrite !Hash_eq by done. simpl. intros E. apply Hne. do 2 f_equal.
    injection E as E. apply app_inv_head in E. injection E as E. by apply app_inv_head in E. }
  exists (Hash p), es. split; [done|]. split.
  { rewrite Hash_eq by done. destruct Hok as [_ _ Hc' Hs' Hh']. rewrite !length_app, (proj1 (cost_ok _ Hc')), Hs', Hh'. done. }
  split; [done|]. split; [|done]. rewrite Hcmp. by rewrite decide_True.
Qed.
End laws.

(** ** A cipher that satisfies the laws, and runs on it *)

Definition model_Blowfish : Blowfish := {|
  Cipher := Z;
  NewSaltedCipher key salt := match key with [] => inr "blowfish: invalid key size 0" | _ => inl (be_value key + 7 * be_value salt) end;
  ExpandKey key c := (3 * c + Z.of_nat (length key)) mod 2 ^ 64;
  Encrypt c block := be_bytes 8 (c + 5 * be_value block);
|}.
#[local] Existing Instance model_Blowfish.
Lemma model_BlowfishLaws : BlowfishLaws.
Proof.
  split; simpl.
  - intros [|b key] salt Hk Hs; [done|]. by eexists.
  - intros c block _. exact (be_bytes_length 8 (c + 5 * be_value block)).
Qed.
#[local] Existing Instance model_BlowfishLaws.

Definition ex_salt : bytes := be_bytes 16 0x0123456789abcdef00112233445566.
Example bcrypt_errors :
  GenerateFromPassword [Byte.x00] (string_bytes "secret") 12 = Ok (inr (OtherError "salt len must be 16")) /\
  GenerateFromPassword ex_salt (string_bytes "secret") 32 = Ok (inr (InvalidCostError 32)) /\
  CompareHashAndPassword [] [] = Ok (inr ErrHashTooShort) /\
  CompareHashAndPassword (repeat Byte.x24 60) [] = Ok (inr (OtherError "strconv.Atoi")) /\
  CompareHashAndPassword (repeat Byte.x25 60) [] = Ok (inr (InvalidHashPrefixError Byte.x25)) /\
  CompareHashAndPassword (Byte.x24 :: repeat Byte.x33 60) [] = Ok (inr (HashVersionTooNewError Byte.x33)).
Proof. vm_compute. repeat split. Qed.
Example bcrypt_runs :
  match GenerateFromPassword ex_salt (string_bytes "secret") 4 with
  | Ok (inl h) => (length h, CompareHashAndPassword h (string_bytes "secret"), CompareHashAndPassword h (string_bytes "Secret"), Cost h)
  | _ => (O, Ok (inl tt), Ok (inl tt), Ok (inl 0))
  end = (60%nat, Ok (inl tt), Ok (inr ErrMismatchedHashAndPassword), Ok (inl 4)).
Proof. vm_compute. reflexivity. Qed.

Lemma Compare_generated_witness :
  exists text es, GenerateFromPassword ex_salt (string_bytes "secret") 4 = Ok (inl text) /\ length text = 60%nat /\
    base64Encode ex_salt = Ok es /\ CompareHashAndPassword text (string_bytes "secret") = Ok (inl tt).
Proof.
  destruct (Compare_generated ex_salt (string_bytes "secret") 4) as (text & es & Hg & Hl & He & Hc & _); [reflexivity|discriminate|].
  exists text, es. exact (conj Hg (conj Hl (conj He Hc))).
Defined.
