(* ===== verification/Symmetric.v ===== *)
(** * crypto/symmetric.go: secret-key encryption

    The class [Symmetric] is what a client may rely on; the code of
    symmetric.go, over a secretbox, is an instance of it.  The random nonce of
    an encryption is an argument. *)
From Stdlib Require Import Strings.Byte Strings.String.
From S2P Require Import Prelude Names.
#[local] Open Scope string_scope.
#[local] Open Scope list_scope.
#[local] Open Scope Z_scope.

(** ** The interface *)

Class Symmetric := {
  EncryptSymmetric : bytes -> bytes -> bytes -> outcome bytes;
  DecryptSymmetric : bytes -> bytes -> outcome (bytes + string);
}.

Definition nonceLen : nat := 24.
Definition secretLen : nat := 32.

(** With a secret of 32 bytes both return; what is encrypted, unless it is
    empty, is decrypted again. *)
Class SymmetricLaws `{Symmetric} : Prop := {
  Encrypt_returns : forall nonce plaintext secret, length nonce = nonceLen -> length secret = secretLen ->
    is_Ok (EncryptSymmetric nonce plaintext secret);
  Decrypt_returns : forall ciphertext secret, length secret = secretLen -> is_Ok (DecryptSymmetric ciphertext secret);
  Decrypt_Encrypt : forall nonce plaintext secret ciphertext, length nonce = nonceLen -> plaintext <> [] ->
    EncryptSymmetric nonce plaintext secret = Ok ciphertext -> DecryptSymmetric ciphertext secret = Ok (inl plaintext);
}.

(** ** The code *)

(** golang.org/x/crypto/nacl/secretbox: message, nonce, key. *)
Class Secretbox := {
  Seal : bytes -> bytes -> bytes -> bytes;
  Open_ : bytes -> bytes -> bytes -> option bytes;
}.
Definition Overhead : nat := 16.
Class SecretboxLaws `{Secretbox} : Prop := {
  Seal_length : forall m nonce key, length (Seal m nonce key) = (Overhead + length m)%nat;
  Open_Seal : forall m nonce key, Open_ (Seal m nonce key) nonce key = Some m;
}.

Section symmetric.
Context `{Secretbox}.

Definition bad_secret : panic_value := PanicString "Secret must be 32 bytes long".

(** Seal appends to an empty slice with room for its result, behind the nonce. *)
Definition secretbox_Encrypt (nonce plaintext secret : bytes) : outcome bytes :=
  if negb (length secret =? secretLen)%nat then Panicked bad_secret
  else Ok (take nonceLen nonce ++ Seal plaintext nonce secret).

Definition secretbox_Decrypt (ciphertext secret : bytes) : outcome (bytes + string) :=
  if negb (length secret =? secretLen)%nat then Panicked bad_secret
  else if (length ciphertext <=? Overhead + nonceLen)%nat then Ok (inr "Ciphertext is too short")
  else match Open_ (drop nonceLen ciphertext) (take nonceLen ciphertext) secret with
       | None => Ok (inr "Ciphertext decryption failed")
       | Some plaintext => Ok (inl plaintext)
       end.

#[export] Instance secretbox_Symmetric : Symmetric := {|
  EncryptSymmetric := secretbox_Encrypt;
  DecryptSymmetric := secretbox_Decrypt;
|}.

(** The whole behaviour on its own ciphertexts. *)
Lemma secretbox_roundtrip `{!SecretboxLaws} nonce plaintext secret :
  length nonce = nonceLen -> length secret = secretLen ->
  exists ciphertext, secretbox_Encrypt nonce plaintext secret = Ok ciphertext /\
    length ciphertext = (nonceLen + Overhead + length plaintext)%nat /\
    secretbox_Decrypt ciphertext secret = Ok (if decide (plaintext = []) then inr "Ciphertext is too short" else inl plaintext).
Proof.
  intros Hn Hs. unfold secretbox_Encrypt. rewrite Hs. simpl negb. cbv iota. eexists. split; [done|].
  rewrite take_ge by lia. assert (Hl : length (nonce ++ Seal plaintext nonce secret) = (nonceLen + Overhead + length plaintext)%nat)
    by (rewrite length_app, Seal_length; lia).
  split; [done|]. unfold secretbox_Decrypt. rewrite Hs, Hl. simpl negb. cbv iota.
  rewrite drop_app_length', take_app_length', Open_Seal by done.
  destruct plaintext as [|b p]; simpl decide.
  - done.
  - rewrite decide_False by done. rewrite (proj2 (Nat.leb_gt _ _)); [done|]. unfold Overhead, nonceLen. simpl. lia.
Qed.

#[export] Instance secretbox_SymmetricLaws `{!SecretboxLaws} : SymmetricLaws.
Proof.
  split; simpl.
  - intros nonce p secret Hn Hs. destruct (secretbox_roundtrip nonce p secret Hn Hs) as (c & -> & _). by eexists.
  - intros c secret Hs. unfold secretbox_Decrypt. rewrite Hs. simpl negb. cbv iota. repeat case_match; by eexists.
  - intros nonce p secret c Hn Hp Hc. destruct (decide (length secret = secretLen)) as [Hs|Hs].
    + destruct (secretbox_roundtrip nonce p secret Hn Hs) as (c' & Hc' & _ & Hd).
      rewrite Hc in Hc'. injection Hc' as <-. rewrite Hd. by rewrite decide_False.
    + unfold secretbox_Encrypt in Hc. by rewrite (proj2 (Nat.eqb_neq _ _) Hs) in Hc.
Qed.
End symmetric.

(** ** A secretbox that satisfies the laws *)

Definition model_Secretbox : Secretbox := {|
  Seal m nonce key := be_bytes 16 (be_value key + 3 * be_value nonce) ++ m;
  Open_ c nonce key :=
    if decide (take 16 c = be_bytes 16 (be_value key + 3 * be_value nonce)) then Some (drop 16 c) else None;
|}.
Lemma model_SecretboxLaws : SecretboxLaws (H:=model_Secretbox).
Proof.
  split; unfold Seal, Open_, model_Secretbox.
  - intros. by rewrite length_app, be_bytes_length.
  - intros. rewrite take_app_length', drop_app_length' by (rewrite be_bytes_length; done). by rewrite decide_True.
Qed.
