(* ===== verification/Merkle.v ===== *)
(** * crypto/merkle: simple Merkle trees and their proofs

    simple_tree.go, simple_proof.go and simple_map.go.  A hasher of an item is
    the hash it returns.  The nodes of the trails point to their parent and to
    a sibling, and are written after others hold pointers to them: they are
    cells of a heap, a pointer is the number of a cell. *)
From Stdlib Require Import Strings.Byte Strings.String.
From S2P Require Import Prelude Names Sha2.
#[local] Open Scope string_scope.
#[local] Open Scope list_scope.
#[local] Open Scope Z_scope.

(** go-amino's EncodeByteSlice: the bytes behind their length, so that two of
    them in a row can be told apart.  Writing to a hasher does not fail. *)
Class ByteSlices := { EncodeByteSlice : bytes -> bytes }.
Class ByteSlicesLaws `{ByteSlices} : Prop := {
  EncodeByteSlice_inj : forall a b x y, EncodeByteSlice a ++ x = EncodeByteSlice b ++ y -> a = b /\ x = y;
}.

(** The order of tmlibs' KVPairs, by key. *)
Record KVPair := mk_KVPair { kv_Key : bytes; kv_Value : slice }.
Definition key_before (p q : KVPair) : Prop := bytes_le (kv_Key p) (kv_Key q).
Class KVPairsSort := { Sort_KVPairs : list KVPair -> list KVPair }.
Class KVPairsSortLaws `{KVPairsSort} : Prop := {
  Sort_Permutation : forall l, Sort_KVPairs l ≡ₚ l;
  Sort_sorted : forall l, Sorting.Sorted.StronglySorted key_before (Sort_KVPairs l);
}.

(** The nodes of trails, and pointers to them. *)
Record SimpleProofNode := mk_Node { Hash : slice; Parent : option nat; Left : option nat; Right : option nat }.
Abbreviation Heap := (list SimpleProofNode).

Definition nil_pointer : panic_value := RuntimeError "nil pointer dereference".
Definition new_node (n : SimpleProofNode) : M Heap nat := fun h => (Ok (length h), h ++ [n]).
Definition load (p : option nat) : M Heap SimpleProofNode := fun h =>
  match p ≫= fun p => h !! p with Some n => (Ok n, h) | None => (Panicked nil_pointer, h) end.
Definition modify (p : option nat) (f : SimpleProofNode -> SimpleProofNode) : M Heap unit := fun h =>
  match p ≫= fun p => h !! p with
  | Some n => (Ok tt, match p with Some p => <[p := f n]> h | None => h end)
  | None => (Panicked nil_pointer, h)
  end.
Definition with_Parent (p : option nat) (n : SimpleProofNode) : SimpleProofNode := mk_Node (Hash n) p (Left n) (Right n).
Definition with_Left (p : option nat) (n : SimpleProofNode) : SimpleProofNode := mk_Node (Hash n) (Parent n) p (Right n).
Definition with_Right (p : option nat) (n : SimpleProofNode) : SimpleProofNode := mk_Node (Hash n) (Parent n) (Left n) p.

Section merkle.
Context `{ByteSlices}.

(** ** simple_tree.go *)

Definition SimpleHashFromTwoHashes (left right : slice) : slice :=
  Some (sha256trunc_Sum (EncodeByteSlice (slice_bytes left) ++ EncodeByteSlice (slice_bytes right)) []).

Definition half (n : nat) : nat := ((n + 1) / 2)%nat.

(** The recursion halves the list: its length is fuel enough. *)
Fixpoint simpleHash_loop (fuel : nat) (hashes : list slice) : slice :=
  match hashes with
  | [] => None
  | [h] => h
  | _ =>
      match fuel with
      | O => None
      | S fuel =>
          let left := simpleHash_loop fuel (take (half (length hashes)) hashes) in
          let right := simpleHash_loop fuel (drop (half (length hashes)) hashes) in
          SimpleHashFromTwoHashes left right
      end
  end.
Definition simpleHashFromHashes (hashes : list slice) : slice := simpleHash_loop (length hashes) hashes.

Definition SimpleHashFromHashers (items : list slice) : slice := simpleHashFromHashes items.

(** ** simple_proof.go: checking a proof *)

Record SimpleProof := mk_SimpleProof { Aunts : list slice }.

(** The last inner hash belongs to the root: the recursion takes them from the
    end of the list. *)
Fixpoint compute_hash_loop (index total : Z) (leafHash : slice) (rev_hashes : list slice) : slice :=
  if (total <=? index) || (index <? 0) || (total <=? 0) then None
  else if total =? 1 then
    match rev_hashes with [] => leafHash | _ => None end
  else
    match rev_hashes with
    | [] => None
    | h :: hs =>
        let numLeft := Z.quot (wrap64 (total + 1)) 2 in
        if index <? numLeft then
          match compute_hash_loop index numLeft leafHash hs with
          | None => None
          | leftHash => SimpleHashFromTwoHashes leftHash h
          end
        else
          match compute_hash_loop (wrap64 (index - numLeft)) (wrap64 (total - numLeft)) leafHash hs with
          | None => None
          | rightHash => SimpleHashFromTwoHashes h rightHash
          end
    end.
Definition computeHashFromAunts (index total : Z) (leafHash : slice) (innerHashes : list slice) : slice :=
  compute_hash_loop index total leafHash (rev innerHashes).

Definition Verify (sp : SimpleProof) (index total : Z) (leafHash rootHash : slice) : bool :=
  match computeHashFromAunts index total leafHash (Aunts sp) with
  | None => false
  | Some computedHash => bool_decide (computedHash = slice_bytes rootHash)
  end.

(** ** simple_proof.go: making proofs *)

Definition out_of_fuel : panic_value := RuntimeError "out of fuel".

Fixpoint trails_loop (fuel : nat) (items : list slice) : M Heap (list nat * option nat) :=
  match items with
  | [] => mret ([], None)
  | [item] =>
      trail ← new_node (mk_Node item None None None);
      mret ([trail], Some trail)
  | _ =>
      match fuel with
      | O => panicM out_of_fuel
      | S fuel =>
          '(lefts, leftRoot) ← trails_loop fuel (take (half (length items)) items);
          '(rights, rightRoot) ← trails_loop fuel (drop (half (length items)) items);
          left ← load leftRoot;
          right ← load rightRoot;
          root ← new_node (mk_Node (SimpleHashFromTwoHashes (Hash left) (Hash right)) None None None);
          modify leftRoot (with_Parent (Some root));;
          modify leftRoot (with_Right rightRoot);;
          modify rightRoot (with_Parent (Some root));;
          modify rightRoot (with_Left leftRoot);;
          mret (lefts ++ rights, Some root)
      end
  end.
Definition trailsFromHashers (items : list slice) : M Heap (list nat * option nat) := trails_loop (length items) items.

Fixpoint flatten_loop (fuel : nat) (spn : option nat) (innerHashes : list slice) : M Heap (list slice) :=
  match spn with
  | None => mret innerHashes
  | Some _ =>
      match fuel with
      | O => panicM out_of_fuel
      | S fuel =>
          node ← load spn;
          match Left node, Right node with
          | Some l, _ => sibling ← load (Some l); flatten_loop fuel (Parent node) (innerHashes ++ [Hash sibling])
          | None, Some r => sibling ← load (Some r); flatten_loop fuel (Parent node) (innerHashes ++ [Hash sibling])
          | None, None => mret innerHashes
          end
      end
  end.
(** A trail has no more nodes than the heap. *)
Definition FlattenAunts (spn : option nat) : M Heap (list slice) := fun h => flatten_loop (S (length h)) spn [] h.

Fixpoint flatten_all (trails : list nat) : M Heap (list SimpleProof) :=
  match trails with
  | [] => mret []
  | trail :: trails =>
      aunts ← FlattenAunts (Some trail);
      proofs ← flatten_all trails;
      mret (mk_SimpleProof aunts :: proofs)
  end.

Definition SimpleProofsFromHashers (items : list slice) : outcome (slice * list SimpleProof) :=
  fst ((
    '(trails, rootSPN) ← trailsFromHashers items;
    root ← load rootSPN;
    proofs ← flatten_all trails;
    mret (Hash root, proofs)) []).

(** ** simple_map.go *)

Context `{KVPairsSort}.

Record simpleMap := mk_simpleMap { kvs : list KVPair; sorted : bool }.
Definition newSimpleMap : simpleMap := mk_simpleMap [] false.
Definition simpleMap_Set (sm : simpleMap) (key : string) (value : slice) : simpleMap :=
  mk_simpleMap (kvs sm ++ [mk_KVPair (string_bytes key) value]) false.
Definition simpleMap_Sort (sm : simpleMap) : simpleMap :=
  if sorted sm then sm else mk_simpleMap (Sort_KVPairs (kvs sm)) true.

Definition KVPair_Hash (kv : KVPair) : slice :=
  Some (sha256trunc_Sum (EncodeByteSlice (kv_Key kv) ++ EncodeByteSlice (slice_bytes (kv_Value kv))) []).
Definition hashKVPairs (kvs : list KVPair) : slice := SimpleHashFromHashers (KVPair_Hash <$> kvs).

(** The hash, and the map left sorted. *)
Definition simpleMap_Hash (sm : simpleMap) : slice * simpleMap :=
  let sm := simpleMap_Sort sm in (hashKVPairs (kvs sm), sm).
Definition simpleMap_KVPairs (sm : simpleMap) : list KVPair * simpleMap :=
  let sm := simpleMap_Sort sm in (kvs sm, sm).

(** A Go map in the order in which it happens to be ranged over. *)
Definition set_all (m : list (string * slice)) : simpleMap :=
  fold_left (fun sm kv => simpleMap_Set sm kv.1 kv.2) m newSimpleMap.

Definition SimpleHashFromMap (m : list (string * slice)) : slice := (simpleMap_Hash (set_all m)).1.

Definition key_string (kv : KVPair) : string := string_of_list_byte (kv_Key kv).

Definition SimpleProofsFromMap (m : list (string * slice)) : outcome (slice * gmap string SimpleProof * list string) :=
  let kvs := kvs (simpleMap_Sort (set_all m)) in
  '(rootHash, proofList) ← SimpleProofsFromHashers (KVPair_Hash <$> kvs);
  let proofs := fold_left (fun ps kp => <[key_string kp.1 := kp.2]> ps) (zip kvs proofList) ∅ in
  Ok (rootHash, proofs, key_string <$> kvs).
End merkle.
