(* ===== verification/MerkleTree.v ===== *)
(** * Merkle trees: proofs are checked against the tree they are made for

    The hash of a list by halves, the aunts of an item as a relation, and what
    the check of a proof says: a proof made of the aunts is accepted, and one
    that is accepted is made of them, or among the inputs that were hashed to
    check it and to make the root there are two with the same digest. *)
From Stdlib Require Import Strings.Byte Strings.String ZifyNat.
From S2P Require Import Prelude Names Sha2 Merkle.
#[local] Open Scope string_scope.
#[local] Open Scope list_scope.
#[local] Open Scope Z_scope.
#[local] Ltac Zify.zify_post_hook ::= Z.to_euclidean_division_equations.

Lemma half_bounds n : (2 <= n)%nat -> (1 <= half n < n)%nat.
Proof. unfold half. lia. Qed.

Lemma halves_ind {A} (P : list A -> Prop) :
  P [] -> (forall x, P [x]) ->
  (forall l, (2 <= length l)%nat -> P (take (half (length l)) l) -> P (drop (half (length l)) l) -> P l) -> forall l, P l.
Proof.
  intros H0 H1 H2 l. remember (length l) as n eqn:Hn. revert l Hn.
  induction n as [n IH] using lt_wf_ind. intros l ->. destruct l as [|x [|y l]]; [done..|].
  pose proof (half_bounds (length (x :: y :: l)) ltac:(simpl; lia)) as Hh. apply H2; [simpl; lia|..].
  - eapply IH; [|done]. rewrite length_take. lia.
  - eapply IH; [|done]. rewrite length_drop. lia.
Qed.

Section tree.
Context `{BS : ByteSlices}.

Lemma simpleHash_loop_S fuel l :
  (2 <= length l)%nat ->
  simpleHash_loop (S fuel) l =
    SimpleHashFromTwoHashes (simpleHash_loop fuel (take (half (length l)) l)) (simpleHash_loop fuel (drop (half (length l)) l)).
Proof. intros Hl. destruct l as [|x [|y l]]; [simpl in Hl; lia..|done]. Qed.

Lemma simpleHash_fuel f1 f2 l : (length l <= f1)%nat -> (length l <= f2)%nat -> simpleHash_loop f1 l = simpleHash_loop f2 l.
Proof.
  revert f2 l. induction f1 as [|f1 IH]; intros f2 l H1 H2; [destruct l; [by destruct f2|simpl in H1; lia]|].
  destruct f2 as [|f2]; [destruct l; [done|simpl in H2; lia]|].
  destruct (decide (2 <= length l)%nat) as [Hl|Hl].
  - pose proof (half_bounds _ Hl) as Hh. rewrite !simpleHash_loop_S by done.
    f_equal; apply IH; rewrite ?length_take, ?length_drop; lia.
  - destruct l as [|x [|y l]]; [done..|simpl in Hl; lia].
Qed.

(** The hash of a list is that of the hashes of its halves. *)
Lemma simpleHash_halves l :
  (2 <= length l)%nat ->
  simpleHashFromHashes l =
    SimpleHashFromTwoHashes (simpleHashFromHashes (take (half (length l)) l)) (simpleHashFromHashes (drop (half (length l)) l)).
Proof.
  intros Hl. pose proof (half_bounds _ Hl) as Hh. unfold simpleHashFromHashes at 1.
  rewrite (simpleHash_fuel _ (S (length l)) l), simpleHash_loop_S by lia.
  f_equal; apply simpleHash_fuel; rewrite ?length_take, ?length_drop; lia.
Qed.

Lemma simpleHash_some l : (2 <= length l)%nat -> exists bz, simpleHashFromHashes l = Some bz.
Proof. intros Hl. rewrite simpleHash_halves by done. by eexists. Qed.

(** ** The aunts of an item *)

Inductive aunts_of : list slice -> nat -> list slice -> Prop :=
  | aunts_one h : aunts_of [h] 0 []
  | aunts_left l i aunts :
      (2 <= length l)%nat -> (i < half (length l))%nat -> aunts_of (take (half (length l)) l) i aunts ->
      aunts_of l i (aunts ++ [simpleHashFromHashes (drop (half (length l)) l)])
  | aunts_right l i aunts :
      (2 <= length l)%nat -> aunts_of (drop (half (length l)) l) i aunts ->
      aunts_of l (half (length l) + i) (aunts ++ [simpleHashFromHashes (take (half (length l)) l)]).

Lemma aunts_bounds l i aunts : aunts_of l i aunts -> (i < length l /\ length aunts < length l)%nat.
Proof.
  induction 1 as [h|l i aunts Hl Hi _ [IH1 IH2]|l i aunts Hl _ [IH1 IH2]]; [simpl; lia|..];
    pose proof (half_bounds _ Hl); rewrite ?length_take, ?length_drop in *; rewrite length_app; cbn [length]; lia.
Qed.

(** A step of the check, on an index and a total that are in range. *)
Lemma compute_loop_cons (n i : nat) leaf h hs :
  (2 <= n)%nat -> (i < n)%nat -> Z.of_nat n < 2 ^ 62 ->
  compute_hash_loop (Z.of_nat i) (Z.of_nat n) leaf (h :: hs) =
    if (i <? half n)%nat then
      match compute_hash_loop (Z.of_nat i) (Z.of_nat (half n)) leaf hs with
      | None => None
      | lh => SimpleHashFromTwoHashes lh h
      end
    else
      match compute_hash_loop (Z.of_nat (i - half n)) (Z.of_nat (n - half n)) leaf hs with
      | None => None
      | rh => SimpleHashFromTwoHashes h rh
      end.
Proof.
  intros Hn Hi Hsmall. pose proof (half_bounds _ Hn) as Hb. cbn [compute_hash_loop].
  rewrite (proj2 (Z.leb_gt (Z.of_nat n) (Z.of_nat i))), (proj2 (Z.ltb_ge (Z.of_nat i) 0)),
    (proj2 (Z.leb_gt (Z.of_nat n) 0)), (proj2 (Z.eqb_neq (Z.of_nat n) 1)) by lia. cbn [orb].
  assert (Hq : Z.quot (wrap64 (Z.of_nat n + 1)) 2 = Z.of_nat (half n)).
  { rewrite wrap64_id by (unfold is_int64, min_int64, max_int64; lia). unfold half. lia. }
  rewrite Hq. destruct (Nat.ltb_spec i (half n)) as [Hlt|Hge].
  - by rewrite (proj2 (Z.ltb_lt _ _)) by lia.
  - rewrite (proj2 (Z.ltb_ge _ _)) by lia. rewrite !wrap64_id by (unfold is_int64, min_int64, max_int64; lia).
    by rewrite !Nat2Z.inj_sub by lia.
Qed.

Lemma simpleHash_of_some l i h : l !! i = Some (Some h) -> exists bz, simpleHashFromHashes l = Some bz.
Proof.
  intros Hh. destruct (decide (2 <= length l)%nat) as [Hl|Hl]; [by apply simpleHash_some|].
  destruct l as [|x [|]]; [done| |simpl in Hl; lia]. exists h. by destruct i; simplify_eq/=.
Qed.

(** A proof made of the aunts computes the hash of the tree. *)
Lemma compute_aunts l i aunts h :
  aunts_of l i aunts -> l !! i = Some (Some h) -> Z.of_nat (length l) < 2 ^ 62 ->
  computeHashFromAunts (Z.of_nat i) (Z.of_nat (length l)) (Some h) aunts = simpleHashFromHashes l.
Proof.
  unfold computeHashFromAunts. intros Ha. revert h.
  induction Ha as [h'|l i aunts Hl Hi Ha IH|l i aunts Hl Ha IH]; intros h Hh Hsmall; [by injection Hh as ->|..];
    pose proof (half_bounds _ Hl) as Hb; rewrite rev_app_distr; cbn [rev app].
  - rewrite compute_loop_cons by lia. rewrite (proj2 (Nat.ltb_lt _ _)) by done.
    assert (Hh' : take (half (length l)) l !! i = Some (Some h)) by (by rewrite lookup_take_lt).
    specialize (IH h Hh'). rewrite length_take, Nat.min_l in IH by lia. rewrite IH by lia.
    rewrite (simpleHash_halves l Hl). by destruct (simpleHash_of_some _ _ _ Hh') as [bz ->].
  - pose proof (aunts_bounds _ _ _ Ha) as [Hi _]. rewrite length_drop in Hi.
    rewrite compute_loop_cons by lia. rewrite (proj2 (Nat.ltb_ge _ _)) by lia.
    replace (half (length l) + i - half (length l))%nat with i by lia.
    assert (Hh' : drop (half (length l)) l !! i = Some (Some h)) by (by rewrite lookup_drop).
    specialize (IH h Hh'). rewrite length_drop in IH. rewrite IH by lia.
    rewrite (simpleHash_halves l Hl). by destruct (simpleHash_of_some _ _ _ Hh') as [bz ->].
Qed.

(** *** What is hashed

    The inputs given to the hash function when the root of a list is made, and
    when a proof is checked. *)
Definition node_input (left right : slice) : bytes :=
  EncodeByteSlice (slice_bytes left) ++ EncodeByteSlice (slice_bytes right).

Fixpoint tree_inputs_loop (fuel : nat) (l : list slice) : list bytes :=
  match l, fuel with
  | _ :: _ :: _, S fuel =>
      let left := take (half (length l)) l in
      let right := drop (half (length l)) l in
      node_input (simpleHashFromHashes left) (simpleHashFromHashes right) ::
        tree_inputs_loop fuel left ++ tree_inputs_loop fuel right
  | _, _ => []
  end.
Definition tree_inputs (l : list slice) : list bytes := tree_inputs_loop (length l) l.

Fixpoint check_inputs (index total : Z) (leafHash : slice) (rev_hashes : list slice) : list bytes :=
  match rev_hashes with
  | [] => []
  | h :: hs =>
      let numLeft := Z.quot (wrap64 (total + 1)) 2 in
      if index <? numLeft then
        node_input (compute_hash_loop index numLeft leafHash hs) h :: check_inputs index numLeft leafHash hs
      else
        let i := wrap64 (index - numLeft) in
        let n := wrap64 (total - numLeft) in
        node_input h (compute_hash_loop i n leafHash hs) :: check_inputs i n leafHash hs
  end.

(** An input of the check and one of the making that differ but have the same digest. *)
Definition collision (checked made : list bytes) : Prop :=
  exists x y, x ∈ checked /\ y ∈ made /\ x <> y /\ tmhash_Sum x = tmhash_Sum y.

(** It can be looked for. *)
Definition collides (checked made : list bytes) : bool :=
  existsb (fun x => existsb (fun y => negb (bool_decide (x = y)) && bool_decide (tmhash_Sum x = tmhash_Sum y)) made) checked.

Lemma collides_spec xs ys : collides xs ys = true <-> collision xs ys.
Proof.
  unfold collides, collision. rewrite existsb_exists. setoid_rewrite existsb_exists.
  setoid_rewrite andb_true_iff. setoid_rewrite negb_true_iff. setoid_rewrite bool_decide_eq_true.
  setoid_rewrite bool_decide_eq_false. setoid_rewrite <- list_elem_of_In. naive_solver.
Qed.

Lemma collision_mono xs ys xs' ys' : collision xs ys -> xs ⊆ xs' -> ys ⊆ ys' -> collision xs' ys'.
Proof. intros (x & y & Hx & Hy & H) H1 H2. exists x, y. auto. Qed.

Lemma tree_inputs_fuel f1 f2 l : (length l <= f1)%nat -> (length l <= f2)%nat -> tree_inputs_loop f1 l = tree_inputs_loop f2 l.
Proof.
  revert f2 l. induction f1 as [|f1 IH]; intros f2 l H1 H2; [destruct l; [by destruct f2|simpl in H1; lia]|].
  destruct l as [|x [|y l]]; [by destruct f2..|]. destruct f2 as [|f2]; [simpl in H2; lia|].
  pose proof (half_bounds (length (x :: y :: l)) ltac:(simpl; lia)) as Hh.
  cbn [tree_inputs_loop]. do 2 f_equal; apply IH; rewrite ?length_take, ?length_drop; lia.
Qed.

Lemma tree_inputs_halves l :
  (2 <= length l)%nat ->
  tree_inputs l = node_input (simpleHashFromHashes (take (half (length l)) l)) (simpleHashFromHashes (drop (half (length l)) l)) ::
    tree_inputs (take (half (length l)) l) ++ tree_inputs (drop (half (length l)) l).
Proof.
  intros Hl. pose proof (half_bounds _ Hl) as Hh. unfold tree_inputs at 1.
  rewrite (tree_inputs_fuel _ (S (length l)) l) by lia. destruct l as [|x [|y l]]; [simpl in Hl; lia..|].
  cbn [tree_inputs_loop]. do 2 f_equal; apply tree_inputs_fuel; rewrite ?length_take, ?length_drop; lia.
Qed.

Lemma check_inputs_cons (n i : nat) leaf h hs :
  (2 <= n)%nat -> (i < n)%nat -> Z.of_nat n < 2 ^ 62 ->
  check_inputs (Z.of_nat i) (Z.of_nat n) leaf (h :: hs) =
    if (i <? half n)%nat then
      node_input (compute_hash_loop (Z.of_nat i) (Z.of_nat (half n)) leaf hs) h ::
        check_inputs (Z.of_nat i) (Z.of_nat (half n)) leaf hs
    else
      node_input h (compute_hash_loop (Z.of_nat (i - half n)) (Z.of_nat (n - half n)) leaf hs) ::
        check_inputs (Z.of_nat (i - half n)) (Z.of_nat (n - half n)) leaf hs.
Proof.
  intros Hn Hi Hsmall. pose proof (half_bounds _ Hn) as Hb. cbn [check_inputs].
  assert (Hq : Z.quot (wrap64 (Z.of_nat n + 1)) 2 = Z.of_nat (half n)).
  { rewrite wrap64_id by (unfold is_int64, min_int64, max_int64; lia). unfold half. lia. }
  rewrite Hq. destruct (Nat.ltb_spec i (half n)) as [Hlt|Hge].
  - by rewrite (proj2 (Z.ltb_lt _ _)) by lia.
  - rewrite (proj2 (Z.ltb_ge _ _)) by lia. rewrite !wrap64_id by (unfold is_int64, min_int64, max_int64; lia).
    by rewrite !Nat2Z.inj_sub by lia.
Qed.

Context `{BSL : !ByteSlicesLaws}.

Lemma two_hashes_inj a b c d xs ys :
  SimpleHashFromTwoHashes a b = SimpleHashFromTwoHashes c d ->
  (slice_bytes a = slice_bytes c /\ slice_bytes b = slice_bytes d) \/ collision (node_input a b :: xs) (node_input c d :: ys).
Proof.
  intros [= E]. destruct (decide (node_input a b = node_input c d)) as [Heq|Hne].
  - left. unfold node_input in Heq. apply EncodeByteSlice_inj in Heq as [Ha Hb]. split; [done|].
    rewrite <- (app_nil_r (EncodeByteSlice (slice_bytes b))), <- (app_nil_r (EncodeByteSlice (slice_bytes d))) in Hb.
    by apply EncodeByteSlice_inj in Hb as [Hb _].
  - right. exists (node_input a b), (node_input c d). split; [left|]. split; [left|]. by split.
Qed.

(** What is accepted was made of the aunts. *)
Lemma compute_sound l :
  Z.of_nat (length l) < 2 ^ 62 -> forall (i : Z) leaf rev_hashes c,
  compute_hash_loop i (Z.of_nat (length l)) leaf rev_hashes = Some c -> c = slice_bytes (simpleHashFromHashes l) ->
  (exists k aunts h, i = Z.of_nat k /\ aunts_of l k aunts /\ slice_bytes <$> rev rev_hashes = slice_bytes <$> aunts /\
    l !! k = Some h /\ slice_bytes h = slice_bytes leaf) \/
  collision (check_inputs i (Z.of_nat (length l)) leaf rev_hashes) (tree_inputs l).
Proof.
  induction l as [|x|l Hl IHl IHr] using halves_ind; intros Hsmall i leaf hs c Hc Hroot.
  - destruct hs; cbn in Hc; by rewrite orb_true_r in Hc.
  - left. cbn [length] in Hc. assert (Hi : i = 0).
    { destruct hs; cbn -[Z.leb Z.ltb] in Hc; destruct (Z.leb_spec (Z.of_nat 1) i), (Z.ltb_spec i 0); simpl in Hc; try done; lia. }
    subst i. destruct hs; [|done]. change (leaf = Some c) in Hc. exists 0%nat, [], x. split; [done|]. split; [constructor|]. split; [done|]. split; [done|].
    by rewrite Hc, Hroot.
  - pose proof (half_bounds _ Hl) as Hb. destruct hs as [|h hs].
    { cbn [compute_hash_loop] in Hc. rewrite (proj2 (Z.eqb_neq (Z.of_nat (length l)) 1)) in Hc by lia. by destruct (_ || _). }
    assert (Hi : exists k, i = Z.of_nat k /\ (k < length l)%nat).
    { exists (Z.to_nat i). cbn [compute_hash_loop] in Hc. destruct (Z.leb_spec (Z.of_nat (length l)) i), (Z.ltb_spec i 0); cbn [orb] in Hc; try done; lia. }
    destruct Hi as (k & -> & Hk). rewrite compute_loop_cons in Hc by done. rewrite (simpleHash_halves l Hl) in Hroot.
    rewrite check_inputs_cons, (tree_inputs_halves l Hl) by done.
    rewrite length_take, Nat.min_l in IHl by lia. rewrite length_drop in IHr.
    destruct (Nat.ltb_spec k (half (length l))) as [Hlt|Hge].
    + destruct (compute_hash_loop _ _ leaf hs) as [lc|] eqn:El; [|done]. rewrite Hroot in Hc. injection Hc as Hc.
      destruct (two_hashes_inj (Some lc) h _ _ (check_inputs (Z.of_nat k) (Z.of_nat (half (length l))) leaf hs)
        (tree_inputs (take (half (length l)) l) ++ tree_inputs (drop (half (length l)) l)) (f_equal Some Hc)) as [[Hlc Hh]|?]; [|by right].
      destruct (IHl ltac:(lia) _ _ _ _ El Hlc) as [(k' & aunts & x & Hk' & Ha & He & Hx & Hleaf)|Hcol];
        [|right; eapply collision_mono; [exact Hcol|set_solver|set_solver]]. left.
      apply Nat2Z.inj in Hk' as <-. exists k, (aunts ++ [simpleHashFromHashes (drop (half (length l)) l)]), x.
      split; [done|]. split; [by apply aunts_left|]. split.
      * cbn [rev]. rewrite !fmap_app, He. cbn. by rewrite Hh.
      * split; [|done]. by rewrite lookup_take_lt in Hx.
    + destruct (compute_hash_loop _ _ leaf hs) as [rc|] eqn:Er; [|done]. rewrite Hroot in Hc. injection Hc as Hc.
      destruct (two_hashes_inj h (Some rc) _ _ (check_inputs (Z.of_nat (k - half (length l))) (Z.of_nat (length l - half (length l))) leaf hs)
        (tree_inputs (take (half (length l)) l) ++ tree_inputs (drop (half (length l)) l)) (f_equal Some Hc)) as [[Hh Hrc]|?]; [|by right].
      destruct (IHr ltac:(lia) _ _ _ _ Er Hrc) as [(k' & aunts & x & Hk' & Ha & He & Hx & Hleaf)|Hcol];
        [|right; eapply collision_mono; [exact Hcol|set_solver|set_solver]]. left.
      apply Nat2Z.inj in Hk'. exists k, (aunts ++ [simpleHashFromHashes (take (half (length l)) l)]), x.
      split; [done|]. replace k with (half (length l) + k')%nat by lia. split; [by apply aunts_right|]. split.
      * cbn [rev]. rewrite !fmap_app, He. cbn. by rewrite Hh.
      * split; [|done]. by rewrite lookup_drop in Hx.
Qed.
End tree.

(** * Merkle trees: the trails of a list

    The linked nodes that trailsFromHashers builds, and the proofs read off
    them: from every leaf the parents lead to the root, past the hashes of the
    aunts. *)

Section trails.
Context `{BS : ByteSlices}.
Implicit Types (h : Heap) (n : SimpleProofNode).

(** ** Paths to a root

    The nodes of a path, but the root, have numbers in a range. *)
Definition sibling n : option nat := match Left n with Some l => Some l | None => Right n end.

Inductive path h (lo hi root : nat) : nat -> list slice -> Prop :=
  | path_end : path h lo hi root root []
  | path_up t n s sn p aunts :
      t <> root -> (lo <= t < hi)%nat -> h !! t = Some n -> sibling n = Some s -> h !! s = Some sn -> Parent n = Some p ->
      path h lo hi root p aunts -> path h lo hi root t (Hash sn :: aunts).

(** A heap in which the nodes of a range other than the root are as before,
    and no hash has changed. *)
Lemma path_frame h h' lo hi lo' hi' root t aunts :
  path h lo hi root t aunts -> (lo' <= lo)%nat -> (hi <= hi')%nat ->
  (forall x n, (lo <= x < hi)%nat -> x <> root -> h !! x = Some n -> h' !! x = Some n) ->
  (forall x n, h !! x = Some n -> exists n', h' !! x = Some n' /\ Hash n' = Hash n) ->
  path h' lo' hi' root t aunts.
Proof.
  intros Hp Hlo Hhi Hsame Hhash. induction Hp as [|t n s sn p aunts Hne Ht Hn Hs Hsn Hpar _ IH]; [constructor|].
  destruct (Hhash s sn Hsn) as (sn' & Hsn' & <-). eapply path_up; [done|lia|by eapply Hsame|done|done|done|done].
Qed.

(** One step further up. *)
Lemma path_snoc h lo hi root t aunts n s sn p :
  path h lo hi root t aunts -> (lo <= root < hi)%nat -> (hi <= p)%nat ->
  h !! root = Some n -> sibling n = Some s -> h !! s = Some sn -> Parent n = Some p ->
  path h lo hi p t (aunts ++ [Hash sn]).
Proof.
  intros Hp Hr Hhi Hn Hs Hsn Hpar. induction Hp as [|t n' s' sn' p' aunts Hne Ht Hn' Hs' Hsn' Hpar' _ IH].
  - simpl. eapply path_up; [lia|done..|]. constructor.
  - simpl. eapply path_up; [lia|done..].
Qed.

(** The loop that follows a path. *)
Lemma flatten_path h lo hi root t aunts rn fuel acc :
  path h lo hi root t aunts -> h !! root = Some rn -> sibling rn = None -> (length aunts < fuel)%nat ->
  flatten_loop fuel (Some t) acc h = (Ok (acc ++ aunts), h).
Proof.
  intros Hp Hr Hsib. revert fuel acc. induction Hp as [|t n s sn p aunts Hne Ht Hn Hs Hsn Hpar _ IH]; intros fuel acc Hf.
  - destruct fuel as [|fuel]; [simpl in Hf; lia|]. cbn [flatten_loop]. unfold mbind, M_bind, load. cbn. rewrite Hr.
    unfold sibling in Hsib. destruct (Left rn), (Right rn); try done. by rewrite app_nil_r.
  - destruct fuel as [|fuel]; [simpl in Hf; lia|]. cbn [flatten_loop length] in *. specialize (IH fuel (acc ++ [Hash sn]) ltac:(lia)).
    rewrite <- app_assoc in IH. unfold mbind, M_bind, load. cbn. rewrite Hn. unfold sibling in Hs.
    destruct (Left n) as [l|], (Right n) as [r|]; simplify_eq; cbn; rewrite Hsn, Hpar; exact IH.
Qed.

(** ** What trailsFromHashers builds *)

(** The heap after the trails of [items] have been added to [h]. *)
Record trails_ok (items : list slice) h (ts : list nat) (root : nat) h' : Prop := {
  tr_root : (length h <= root < length h')%nat;
  tr_node : h' !! root = Some (mk_Node (simpleHashFromHashes items) None None None);
  tr_old : forall x, (x < length h)%nat -> h' !! x = h !! x;
  tr_size : (length h + length items <= length h')%nat;
  tr_count : length ts = length items;
  tr_path : forall i t, ts !! i = Some t -> exists aunts, aunts_of items i aunts /\ path h' (length h) (length h') root t aunts;
}.

(** The heap once the two roots have been given their parent. *)
Definition linked h (l r : nat) (lh rh root : slice) : Heap :=
  <[r := mk_Node rh (Some (length h)) (Some l) None]> (<[l := mk_Node lh (Some (length h)) None (Some r)]> (h ++ [mk_Node root None None None])).

Lemma linked_lookup_l h l r lh rh root : (l < length h)%nat -> l <> r -> linked h l r lh rh root !! l = Some (mk_Node lh (Some (length h)) None (Some r)).
Proof. intros Hl Hne. unfold linked. rewrite list_lookup_insert_ne by done. apply list_lookup_insert_eq. rewrite length_app. lia. Qed.

Lemma linked_lookup_r h l r lh rh root : (r < length h)%nat -> linked h l r lh rh root !! r = Some (mk_Node rh (Some (length h)) (Some l) None).
Proof. intros Hr. unfold linked. apply list_lookup_insert_eq. rewrite length_insert, length_app. lia. Qed.

Lemma linked_lookup_new h l r lh rh root : (l < length h)%nat -> (r < length h)%nat -> linked h l r lh rh root !! length h = Some (mk_Node root None None None).
Proof. intros Hl Hr. unfold linked. rewrite !list_lookup_insert_ne by lia. rewrite lookup_app_r, Nat.sub_diag by done. done. Qed.

Lemma linked_lookup_old h l r lh rh root x : (x < length h)%nat -> x <> l -> x <> r -> linked h l r lh rh root !! x = h !! x.
Proof. intros Hx Hl Hr. unfold linked. rewrite !list_lookup_insert_ne by done. by rewrite lookup_app_l. Qed.

Lemma linked_length h l r lh rh root : length (linked h l r lh rh root) = S (length h).
Proof. unfold linked. rewrite !length_insert, length_app. simpl. lia. Qed.

(** Linking keeps every hash. *)
Lemma linked_hash h l r lh rh root :
  (l < r)%nat -> (r < length h)%nat -> h !! l = Some (mk_Node lh None None None) -> h !! r = Some (mk_Node rh None None None) ->
  forall x n, h !! x = Some n -> exists n', linked h l r lh rh root !! x = Some n' /\ Hash n' = Hash n.
Proof.
  intros Hlr Hr Hl Hrn x n Hx. pose proof (lookup_lt_Some _ _ _ Hx) as Hlt.
  destruct (decide (x = r)) as [->|Hxr]; [rewrite linked_lookup_r by done; simplify_eq; by eexists|].
  destruct (decide (x = l)) as [->|Hxl]; [rewrite linked_lookup_l by lia; simplify_eq; by eexists|].
  rewrite linked_lookup_old by done. by exists n.
Qed.

(** The last part of a turn: load the roots, make a node, link. *)
Lemma join_run h l r lh rh (ts : list nat) :
  (l < r)%nat -> h !! l = Some (mk_Node lh None None None) -> h !! r = Some (mk_Node rh None None None) ->
  (left ← load (Some l);
   right ← load (Some r);
   root ← new_node (mk_Node (SimpleHashFromTwoHashes (Hash left) (Hash right)) None None None);
   modify (Some l) (with_Parent (Some root));;
   modify (Some l) (with_Right (Some r));;
   modify (Some r) (with_Parent (Some root));;
   modify (Some r) (with_Left (Some l));;
   mret (ts, Some root)) h =
  (Ok (ts, Some (length h)), linked h l r lh rh (SimpleHashFromTwoHashes lh rh)).
Proof.
  intros Hlr Hl Hr. pose proof (lookup_lt_Some _ _ _ Hl) as Hll. pose proof (lookup_lt_Some _ _ _ Hr) as Hrl.
  unfold mbind, M_bind, load, new_node, modify. cbn. rewrite Hl, Hr. cbn.
  rewrite lookup_app_l, Hl by done. cbn. rewrite list_lookup_insert_eq by (rewrite length_app; lia). cbn. rewrite list_insert_insert_eq.
  rewrite list_lookup_insert_ne, lookup_app_l, Hr by lia. cbn. rewrite list_lookup_insert_eq by (rewrite length_insert, length_app; lia).
  cbn. rewrite list_insert_insert_eq. done.
Qed.

Lemma trails_join items h tl l h1 tr r h2 :
  (2 <= length items)%nat ->
  trails_ok (take (half (length items)) items) h tl l h1 -> trails_ok (drop (half (length items)) items) h1 tr r h2 ->
  trails_ok items h (tl ++ tr) (length h2)
    (linked h2 l r (simpleHashFromHashes (take (half (length items)) items)) (simpleHashFromHashes (drop (half (length items)) items))
      (simpleHashFromHashes items)).
Proof.
  intros Hitems [Lr Ln Lo Ls Lc Lp] [Rr Rn Ro Rs Rc Rp]. pose proof (half_bounds _ Hitems) as Hb.
  rewrite length_take in *. rewrite length_drop in *.
  assert (Hl2 : h2 !! l = Some (mk_Node (simpleHashFromHashes (take (half (length items)) items)) None None None)) by (rewrite Ro by lia; exact Ln).
  set (h3 := linked _ _ _ _ _ _).
  assert (Hhash : forall x n, h2 !! x = Some n -> exists n', h3 !! x = Some n' /\ Hash n' = Hash n) by (apply linked_hash; [lia..|done|done]).
  split.
  - unfold h3. rewrite linked_length. lia.
  - apply linked_lookup_new; lia.
  - intros x Hx. unfold h3. rewrite linked_lookup_old by lia. rewrite Ro, Lo by lia. done.
  - unfold h3. rewrite linked_length. lia.
  - rewrite length_app. lia.
  - unfold h3 at 2. rewrite linked_length. intros i t Ht. apply lookup_app_Some in Ht as [Ht|[Hi Ht]].
    + destruct (Lp i t Ht) as (aunts & Ha & Hp). pose proof (lookup_lt_Some _ _ _ Ht) as Hi. eexists. split; [apply aunts_left; [done|lia|exact Ha]|].
      eapply (path_frame h3 h3 (length h) (length h2)); [|done|lia|done|by eauto].
      eapply (path_snoc h3 (length h) (length h2) l t aunts _ r (mk_Node _ _ _ _)); [|lia|done|apply linked_lookup_l; lia|done|apply linked_lookup_r; lia|done].
      eapply (path_frame h1); [exact Hp|done|lia| |].
      * intros x n Hx Hne Hn. unfold h3. rewrite linked_lookup_old by lia. by rewrite Ro by lia.
      * intros x n Hn. apply Hhash. pose proof (lookup_lt_Some _ _ _ Hn). by rewrite Ro by lia.
    + destruct (Rp _ t Ht) as (aunts & Ha & Hp). exists (aunts ++ [simpleHashFromHashes (take (half (length items)) items)]). split.
      { replace i with (half (length items) + (i - length tl))%nat by lia. by apply aunts_right. }
      eapply (path_frame h3 h3 (length h1) (length h2)); [|lia|lia|done|by eauto].
      eapply (path_snoc h3 (length h1) (length h2) r t aunts _ l (mk_Node _ _ _ _)); [|lia|done|apply linked_lookup_r; lia|done|apply linked_lookup_l; lia|done].
      eapply (path_frame h2); [exact Hp|done|done| |exact Hhash].
      intros x n Hx Hne Hn. unfold h3. by rewrite linked_lookup_old by lia.
Qed.

Lemma trails_spec fuel items h :
  items <> [] -> (length items <= fuel)%nat ->
  exists ts root h', trails_loop fuel items h = (Ok (ts, Some root), h') /\ trails_ok items h ts root h'.
Proof.
  revert items h. induction fuel as [|fuel IH]; intros items h Hne Hf; [destruct items; [done|simpl in Hf; lia]|].
  destruct (decide (2 <= length items)%nat) as [Hl|Hl].
  - pose proof (half_bounds _ Hl) as Hb.
    destruct (IH (take (half (length items)) items) h) as (tl & l & h1 & Hrun1 & Hok1).
    { intros E%(f_equal length). rewrite length_take in E. simpl in E. lia. } { rewrite length_take. lia. }
    destruct (IH (drop (half (length items)) items) h1) as (tr & r & h2 & Hrun2 & Hok2).
    { intros E%(f_equal length). rewrite length_drop in E. simpl in E. lia. } { rewrite length_drop. lia. }
    eexists _, _, _. split; [|by eapply trails_join].
    destruct items as [|x [|y items]]; [done|simpl in Hl; lia|]. cbn [trails_loop].
    unfold mbind at 1, M_bind at 1. rewrite Hrun1. unfold mbind at 1, M_bind at 1. rewrite Hrun2.
    destruct Hok1 as [Lr Ln Lo Ls Lc Lp], Hok2 as [Rr Rn Ro Rs Rc Rp]. rewrite (simpleHash_halves _ Hl). apply join_run; [lia| |done].
    rewrite Ro by lia. exact Ln.
  - destruct items as [|x [|y items]]; [done| |simpl in Hl; lia]. eexists _, _, _. split; [reflexivity|]. split.
    + rewrite length_app. simpl. lia.
    + by rewrite lookup_app_r, Nat.sub_diag by done.
    + intros y Hy. by rewrite lookup_app_l.
    + rewrite length_app. done.
    + done.
    + intros i t Ht. destruct i as [|i]; [|done]. injection Ht as <-. exists []. split; constructor.
Qed.

(** ** The proofs *)

Lemma flatten_all_spec h ts (P : nat -> SimpleProof -> Prop) :
  (forall i t, ts !! i = Some t -> exists aunts, FlattenAunts (Some t) h = (Ok aunts, h) /\ P i (mk_SimpleProof aunts)) ->
  exists ps, flatten_all ts h = (Ok ps, h) /\ length ps = length ts /\ forall i p, ps !! i = Some p -> P i p.
Proof.
  revert P. induction ts as [|t ts IH]; intros P Hts; [by exists []|].
  destruct (Hts 0%nat t eq_refl) as (aunts & Hf & HP).
  destruct (IH (fun i p => P (S i) p)) as (ps & Hps & Hl & Hall); [intros i u Hu; exact (Hts (S i) u Hu)|].
  exists (mk_SimpleProof aunts :: ps). split; [|split].
  - cbn [flatten_all]. unfold mbind, M_bind. rewrite Hf, Hps. done.
  - simpl. by rewrite Hl.
  - intros [|i] p Hp; [by injection Hp as <-|]. by apply Hall.
Qed.

Lemma SimpleProofs_spec items :
  items <> [] ->
  exists ps, SimpleProofsFromHashers items = Ok (simpleHashFromHashes items, ps) /\ length ps = length items /\
    forall i p, ps !! i = Some p -> aunts_of items i (Aunts p).
Proof.
  intros Hne. destruct (trails_spec (length items) items [] Hne) as (ts & root & h & Hrun & [Tr Tn To Ts Tc Tp]); [done|].
  destruct (flatten_all_spec h ts (fun i p => aunts_of items i (Aunts p))) as (ps & Hps & Hl & Hall).
  { intros i t Ht. destruct (Tp i t Ht) as (aunts & Ha & Hp). exists aunts. split; [|done]. unfold FlattenAunts.
    erewrite flatten_path; [done|exact Hp|exact Tn|done|]. pose proof (aunts_bounds _ _ _ Ha). simpl in Ts. lia. }
  exists ps. split; [|split; [by rewrite Hl|done]]. unfold SimpleProofsFromHashers, trailsFromHashers.
  unfold mbind at 1, M_bind at 1. rewrite Hrun. unfold mbind at 1, M_bind at 1, load. cbn. rewrite Tn.
  unfold mbind, M_bind. by rewrite Hps.
Qed.
End trails.
