(* ===== verification/MerkleProps.v ===== *)
(** * Merkle trees: proofs of items and of maps

    The proofs made for a list are accepted for its items and for nothing
    else; the proofs made for a map do not depend on the order in which the map
    is ranged over.  Witnesses and the test vectors of the repository. *)
From Stdlib Require Import Strings.Byte Strings.String ZifyNat.
From S2P Require Import Prelude Names Sha2 Merkle MerkleTree.
#[local] Open Scope string_scope.
#[local] Open Scope list_scope.
#[local] Open Scope Z_scope.
#[local] Ltac Zify.zify_post_hook ::= Z.to_euclidean_division_equations.

Definition small (items : list slice) : Prop := Z.of_nat (length items) < 2 ^ 62.

Section lists.
Context `{BS : ByteSlices}.

Lemma Verify_aunts items i h p :
  small items -> aunts_of items i (Aunts p) -> items !! i = Some (Some h) ->
  Verify p (Z.of_nat i) (Z.of_nat (length items)) (Some h) (SimpleHashFromHashers items) = true.
Proof.
  intros Hs Ha Hh. unfold Verify. rewrite (compute_aunts items i (Aunts p) h) by done. unfold SimpleHashFromHashers.
  destruct (simpleHash_of_some items i h Hh) as [bz ->]. by apply bool_decide_eq_true_2.
Qed.

(** C29: the proofs of a list that is not empty are computed, with the hash of its
    tree as their root, one for each item; each is accepted for its item at its
    place. *)
Theorem proofs_accepted items :
  items <> [] -> Forall is_Some items -> small items ->
  exists ps, SimpleProofsFromHashers items = Ok (SimpleHashFromHashers items, ps) /\ length ps = length items /\
    forall i h p, items !! i = Some h -> ps !! i = Some p ->
      Verify p (Z.of_nat i) (Z.of_nat (length items)) h (SimpleHashFromHashers items) = true.
Proof.
  intros Hne Hsome Hs. destruct (SimpleProofs_spec items Hne) as (ps & Hrun & Hl & Hall). exists ps. split; [done|]. split; [done|].
  intros i h p Hh Hp. destruct (proj1 (Forall_lookup _ _) Hsome i h Hh) as [bz ->]. by apply Verify_aunts; [|apply Hall|].
Qed.

Lemma aunts_unique items i a a' : aunts_of items i a -> aunts_of items i a' -> a = a'.
Proof.
  intros Ha. revert a'. induction Ha as [h|l i aunts Hl Hi Ha IH|l i aunts Hl Ha IH]; intros a' Ha'.
  - inversion Ha'; subst; [done|simpl in *; lia..].
  - inversion Ha'; subst; [simpl in *; lia| |lia]. f_equal. by apply IH.
  - inversion Ha' as [|l' i' au Hl' Hi' Hau|l' i' au Hl' Hau Ei]; subst; try (simpl in *; lia). f_equal. apply IH.
    by replace i with i' by lia.
Qed.

Context `{BSL : !ByteSlicesLaws}.

(** C30: a proof that is accepted against the root of a list, for the list's length,
    is for the hash of the item at its place, and its aunts are those of the
    proof made for that item.  The only way out is a collision that can be
    read off the proof: one of the few inputs hashed while checking it, and one
    of those hashed while making the root, differ and have the same digest. *)
Theorem accepted_sound items sp i leaf :
  small items -> Verify sp i (Z.of_nat (length items)) leaf (SimpleHashFromHashers items) = true ->
  collision (check_inputs i (Z.of_nat (length items)) leaf (rev (Aunts sp))) (tree_inputs items) \/
  exists k h ps p, i = Z.of_nat k /\ items !! k = Some h /\ slice_bytes h = slice_bytes leaf /\
    SimpleProofsFromHashers items = Ok (SimpleHashFromHashers items, ps) /\ ps !! k = Some p /\
    slice_bytes <$> Aunts sp = slice_bytes <$> Aunts p.
Proof.
  intros Hs. unfold Verify, computeHashFromAunts. destruct (compute_hash_loop _ _ _ _) as [c|] eqn:Ec; [|done].
  intros Hroot%bool_decide_eq_true_1.
  destruct (compute_sound items Hs i leaf _ c Ec Hroot) as [(k & aunts & h & -> & Ha & He & Hh & Hleaf)|?]; [right|by left].
  rewrite rev_involutive in He. assert (Hne : items <> []) by (by intros ->).
  destruct (SimpleProofs_spec items Hne) as (ps & Hrun & Hl & Hall).
  pose proof (lookup_lt_Some _ _ _ Hh) as Hk. rewrite <- Hl in Hk. apply lookup_lt_is_Some in Hk as [p Hp].
  exists k, h, ps, p. do 5 (split; [done|]). by rewrite He, (aunts_unique _ _ _ _ Ha (Hall k p Hp)).
Qed.
End lists.

(** ** Maps *)

Section maps.
Context `{BS : ByteSlices} `{KSL : KVPairsSortLaws}.

Definition pair_of (kv : string * slice) : KVPair := mk_KVPair (string_bytes kv.1) kv.2.

Lemma set_all_kvs m : kvs (set_all m) = pair_of <$> m /\ sorted (set_all m) = false.
Proof.
  unfold set_all. enough (forall sm, sorted sm = false -> let sm' := fold_left (fun sm kv => simpleMap_Set sm kv.1 kv.2) m sm in
    kvs sm' = kvs sm ++ (pair_of <$> m) /\ sorted sm' = false) as H0 by exact (H0 newSimpleMap eq_refl).
  induction m as [|kv m IH]; intros sm Hsm; simpl; [by rewrite app_nil_r|].
  destruct (IH (simpleMap_Set sm kv.1 kv.2) eq_refl) as [-> ->]. split; [|done]. cbn [simpleMap_Set kvs]. by rewrite <- app_assoc.
Qed.

Definition sorted_pairs (m : list (string * slice)) : list KVPair := kvs (simpleMap_Sort (set_all m)).

Lemma sorted_pairs_eq m : sorted_pairs m = Sort_KVPairs (pair_of <$> m).
Proof. unfold sorted_pairs, simpleMap_Sort. destruct (set_all_kvs m) as [Hk Hs]. by rewrite Hs, <- Hk. Qed.

(** The order of a Go map does not matter. *)
Lemma sorted_pairs_Permutation m m' : NoDup m.*1 -> m ≡ₚ m' -> sorted_pairs m = sorted_pairs m'.
Proof.
  intros Hnd Hp. rewrite !sorted_pairs_eq. apply (StronglySorted_unique_strong key_before); [|apply Sort_sorted..|].
  - intros p q Hin1 Hin2 H1 H2. rewrite Sort_Permutation in Hin1, Hin2. rewrite <- Hp in Hin2.
    apply list_elem_of_fmap in Hin1 as (x & -> & Hx). apply list_elem_of_fmap in Hin2 as (y & -> & Hy).
    f_equal. assert (E : x.1 = y.1).
    { apply string_bytes_inj. unfold key_before in *. simpl in *. destruct (bytes_lt_total (string_bytes x.1) (string_bytes y.1)) as [Hlt|[Heq|Hlt]]; [|done|].
      - exfalso. unfold bytes_le in H2. apply H2. by rewrite bytes_compare_antisym, Hlt.
      - exfalso. unfold bytes_le in H1. apply H1. by rewrite bytes_compare_antisym, Hlt. }
    destruct (list_elem_of_lookup_1 _ _ Hx) as [i Hi]. destruct (list_elem_of_lookup_1 _ _ Hy) as [j Hj].
    assert (i = j) as <-; [|congruence]. eapply (NoDup_lookup m.*1); [done|by rewrite list_lookup_fmap, Hi|by rewrite list_lookup_fmap, Hj, E].
  - by rewrite !Sort_Permutation, Hp.
Qed.

Lemma zip_insert_lookup (l : list (KVPair * SimpleProof)) (ps : gmap string SimpleProof) i kp :
  NoDup ((fun kp => key_string kp.1) <$> l) -> l !! i = Some kp ->
  fold_left (fun ps kp => <[key_string kp.1 := kp.2]> ps) l ps !! key_string kp.1 = Some kp.2.
Proof.
  assert (Hout : forall (l : list (KVPair * SimpleProof)) (ps : gmap string SimpleProof) k, k ∉ ((fun kp => key_string kp.1) <$> l) ->
    fold_left (fun ps kp => <[key_string kp.1 := kp.2]> ps) l ps !! k = ps !! k).
  { clear. induction l as [|kp l IH]; intros ps k Hk; [done|]. rewrite fmap_cons, not_elem_of_cons in Hk. destruct Hk as [Hne Hk].
    simpl. rewrite IH by done. by apply lookup_insert_ne. }
  revert ps i. induction l as [|kp' l IH]; intros ps i Hnd Hi; [done|]. rewrite fmap_cons in Hnd. apply NoDup_cons in Hnd as [Hk Hnd].
  destruct i as [|i]; [|by eapply IH]. injection Hi as ->. simpl. rewrite Hout by done. apply lookup_insert_eq.
Qed.

Lemma key_string_pair kv : key_string (pair_of kv) = kv.1.
Proof. unfold key_string, pair_of, string_bytes. simpl. apply string_of_list_byte_of_string. Qed.

(** C31: the root, the proofs and the sorted keys of a map that is not empty do not
    depend on the order in which the map is ranged over; the root is the hash of
    the map, and the proof found under a key is accepted for its pair at the
    place of the key. *)
Theorem map_proofs m :
  m <> [] -> NoDup m.*1 -> Z.of_nat (length m) < 2 ^ 62 ->
  exists proofs keys, SimpleProofsFromMap m = Ok (SimpleHashFromMap m, proofs, keys) /\
    (forall m', m ≡ₚ m' -> SimpleProofsFromMap m' = SimpleProofsFromMap m /\ SimpleHashFromMap m' = SimpleHashFromMap m) /\
    forall k v, (k, v) ∈ m -> exists i p, keys !! i = Some k /\ proofs !! k = Some p /\
      Verify p (Z.of_nat i) (Z.of_nat (length m)) (KVPair_Hash (pair_of (k, v))) (SimpleHashFromMap m) = true.
Proof.
  intros Hne Hnd Hsmall. set (items := KVPair_Hash <$> sorted_pairs m).
  assert (Hperm : sorted_pairs m ≡ₚ pair_of <$> m) by (rewrite sorted_pairs_eq; apply Sort_Permutation).
  assert (Hlen : length items = length m) by (unfold items; by rewrite length_fmap, Hperm, length_fmap).
  destruct (SimpleProofs_spec items) as (ps & Hrun & Hl & Hall); [intros E; rewrite E in Hlen; by destruct m|].
  eexists _, _. split; [|split].
  - unfold SimpleProofsFromMap. fold (sorted_pairs m). fold items. rewrite Hrun. reflexivity.
  - intros m' Hm. pose proof (sorted_pairs_Permutation m m' Hnd Hm) as E. unfold SimpleProofsFromMap, SimpleHashFromMap, simpleMap_Hash.
    cbn [fst]. fold (sorted_pairs m') (sorted_pairs m). by rewrite E.
  - intros k v Hin. assert (Hkv : pair_of (k, v) ∈ sorted_pairs m) by (rewrite Hperm; by apply list_elem_of_fmap_2).
    apply list_elem_of_lookup_1 in Hkv as [i Hi]. assert (Hitem : items !! i = Some (KVPair_Hash (pair_of (k, v)))) by (unfold items; by rewrite list_lookup_fmap, Hi).
    assert (Hp : is_Some (ps !! i)) by (apply lookup_lt_is_Some; rewrite Hl; by eapply lookup_lt_Some). destruct Hp as [p Hp].
    exists i, p. split; [by rewrite list_lookup_fmap, Hi; simpl; rewrite key_string_pair|]. split.
    + fold (sorted_pairs m). change k with ((k, v).1) at 1. rewrite <- (key_string_pair (k, v)).
      apply (zip_insert_lookup (zip (sorted_pairs m) ps) ∅ i (pair_of (k, v), p)).
      * assert (E : (fun kp : KVPair * SimpleProof => key_string kp.1) <$> zip (sorted_pairs m) ps = key_string <$> sorted_pairs m).
        { rewrite <- (fst_zip (sorted_pairs m) ps) at 2 by (rewrite Hl, Hlen, Hperm, length_fmap; done). by rewrite <- list_fmap_compose. }
        rewrite E, Hperm, <- list_fmap_compose. erewrite (list_fmap_ext _ fst); [exact Hnd|]. intros ? kv _. apply key_string_pair.
      * by rewrite lookup_zip_with, Hi; simpl; rewrite Hp.
    + rewrite <- Hlen. unfold SimpleHashFromMap, simpleMap_Hash. cbn [fst]. fold (sorted_pairs m). unfold hashKVPairs. fold items.
      unfold KVPair_Hash at 1. apply Verify_aunts; [unfold small; lia|by apply Hall|exact Hitem].
Qed.
End maps.

(** * Merkle trees: go-amino's byte slices, a sort, witnesses and test vectors *)

(** ** Byte slices behind their length as a uvarint *)

Fixpoint put_uvarint (fuel : nat) (z : Z) : bytes :=
  match fuel with
  | O => [byte_of_Z z]
  | S fuel => if z <? 128 then [byte_of_Z z] else byte_of_Z (z mod 128 + 128) :: put_uvarint fuel (z / 128)
  end.
Definition uvarint_slice (bz : bytes) : bytes := put_uvarint (length bz) (Z.of_nat (length bz)) ++ bz.

Lemma byte_of_Z_inj a b : 0 <= a < 256 -> 0 <= b < 256 -> byte_of_Z a = byte_of_Z b -> a = b.
Proof.
  intros Ha Hb E%(f_equal Byte.to_N). rewrite !to_N_byte_of_Z, !Z.mod_small in E by done. lia.
Qed.

(** Enough fuel ends with a last byte below 128. *)
Lemma put_uvarint_inj f1 f2 a b x y :
  0 <= a <= Z.of_nat f1 -> 0 <= b <= Z.of_nat f2 -> put_uvarint f1 a ++ x = put_uvarint f2 b ++ y -> a = b /\ x = y.
Proof.
  assert (H0 : forall f, put_uvarint f 0 = [byte_of_Z 0]) by (by intros []).
  revert f2 a b. induction f1 as [|f1 IH]; intros f2 a b Ha Hb E.
  - assert (a = 0) as -> by lia. destruct f2 as [|f2]; cbn [put_uvarint] in E.
    + assert (b = 0) as -> by lia. injection E as E. done.
    + destruct (Z.ltb_spec b 128); injection E as E1 E2; apply byte_of_Z_inj in E1; [done|lia|lia| |lia|lia]. lia.
  - destruct f2 as [|f2]; cbn [put_uvarint] in E.
    + assert (b = 0) as -> by lia. destruct (Z.ltb_spec a 128); injection E as E1 E2; apply byte_of_Z_inj in E1; [done|lia|lia| |lia|lia]. lia.
    + destruct (Z.ltb_spec a 128), (Z.ltb_spec b 128); injection E as E1 E2; apply byte_of_Z_inj in E1; [done|lia|lia|lia|lia|lia|lia|lia|lia| |lia|lia].
      destruct (IH f2 (a / 128) (b / 128)) as [Hd ->]; [lia|lia|done|]. split; [lia|done].
Qed.

#[local] Instance uvarint_ByteSlices : ByteSlices := {| EncodeByteSlice := uvarint_slice |}.
#[local] Instance uvarint_ByteSlicesLaws : ByteSlicesLaws.
Proof.
  split. intros a b x y E. unfold EncodeByteSlice, uvarint_ByteSlices, uvarint_slice in E. rewrite <- !app_assoc in E.
  apply put_uvarint_inj in E as [Hl E]; [|lia|lia]. apply app_inj_1 in E; [done|lia].
Qed.

(** ** Sorting by key *)

#[local] Instance key_before_dec : RelDecision key_before.
Proof. intros p q. unfold key_before. apply _. Defined.
#[local] Instance key_before_trans : Transitive key_before.
Proof. intros p q r. apply bytes_le_trans. Qed.
#[local] Instance key_before_total : Total key_before.
Proof.
  intros p q. unfold key_before, bytes_le. destruct (bytes_lt_total (kv_Key p) (kv_Key q)) as [H|[H|H]].
  - left. by rewrite H.
  - left. rewrite H. by rewrite (proj2 (bytes_compare_eq _ _) eq_refl).
  - right. by rewrite H.
Qed.
#[local] Instance merge_KVPairsSort : KVPairsSort := {| Sort_KVPairs := merge_sort key_before |}.
#[local] Instance merge_KVPairsSortLaws : KVPairsSortLaws.
Proof.
  split; intros l; [apply merge_sort_Permutation|]. apply StronglySorted_merge_sort; apply _.
Qed.

(** ** The tests of simple_map_test.go *)

Definition strHasher (s : string) : slice := Some (tmhash_Sum (string_bytes s)).
Definition digest (h : slice) : Z := be_value (slice_bytes h).

Example map_one : digest (SimpleHashFromMap [("key1", strHasher "value1")]) = 0xfa9bc106ffd932d919bee935ceb6cf2b3dd72d8f.
Proof. vm_compute. reflexivity. Qed.
Example map_two : digest (SimpleHashFromMap [("key2", strHasher "value2"); ("key1", strHasher "value1")]) = 0xeff12d1c703a1022ab509287c0f196130123d786.
Proof. vm_compute. reflexivity. Qed.
Example map_three :
  digest (SimpleHashFromMap [("key2", strHasher "value2"); ("key1", strHasher "value1"); ("key3", strHasher "value3")])
    = 0xb2c62a277c08dbd2ad73ca53cd1d6bfdf5830d26.
Proof. vm_compute. reflexivity. Qed.

(** ** Runs *)

Definition ex_items : list slice := strHasher <$> ["a"; "b"; "c"; "d"; "e"].
Definition ex_proofs : list SimpleProof :=
  match SimpleProofsFromHashers ex_items with Ok (_, ps) => ps | Panicked _ => [] end.
Definition ex_verify (k : nat) (index total : Z) (leaf : string) : bool :=
  match ex_proofs !! k with Some p => Verify p index total (strHasher leaf) (SimpleHashFromHashers ex_items) | None => false end.

(** The proof of "c": accepted, and refused for another place, another total,
    another item; there is no proof for an empty list, and an inner node can be
    passed off as an item of a smaller tree. *)
Example verify_runs :
  length ex_proofs = 5%nat /\ ex_verify 2 2 5 "c" = true /\
  ex_verify 2 1 5 "c" = false /\ ex_verify 2 2 5 "d" = false /\ ex_verify 2 2 1 "c" = false /\ ex_verify 2 (-1) 5 "c" = false.
Proof. vm_compute. repeat split. Qed.

Lemma no_proofs_of_nothing : SimpleProofsFromHashers [] = Panicked nil_pointer /\ SimpleHashFromHashers [] = None.
Proof. done. Qed.

Example inner_node_as_item :
  let items := strHasher <$> ["a"; "b"; "c"; "d"] in
  let inner := [SimpleHashFromHashers (take 2 items); SimpleHashFromHashers (drop 2 items)] in
  SimpleHashFromHashers inner = SimpleHashFromHashers items.
Proof. vm_compute. reflexivity. Qed.

Example sum_prefix : sha256trunc_Sum [] (repeat Byte.x00 20) = repeat Byte.x00 20.
Proof. vm_compute. reflexivity. Qed.

(** ** Witnesses *)

Lemma ex_items_some : Forall is_Some ex_items.
Proof. repeat (apply List.Forall_cons; [by eexists|]). apply List.Forall_nil. Qed.

Lemma proofs_accepted_witness :
  exists ps, SimpleProofsFromHashers ex_items = Ok (SimpleHashFromHashers ex_items, ps) /\ length ps = 5%nat.
Proof.
  destruct (proofs_accepted ex_items) as (ps & H1 & H2 & _); [discriminate|exact ex_items_some|reflexivity|].
  exists ps. exact (conj H1 H2).
Defined.

Lemma accepted_sound_witness :
  let sp := nth 2 ex_proofs (mk_SimpleProof []) in
  Verify sp 2 5 (strHasher "c") (SimpleHashFromHashers ex_items) = true /\
  ~ collision (check_inputs 2 5 (strHasher "c") (rev (Aunts sp))) (tree_inputs ex_items) /\
  exists k h ps p, 2 = Z.of_nat k /\ ex_items !! k = Some h /\ slice_bytes h = slice_bytes (strHasher "c") /\
    SimpleProofsFromHashers ex_items = Ok (SimpleHashFromHashers ex_items, ps) /\ ps !! k = Some p /\
    slice_bytes <$> Aunts sp = slice_bytes <$> Aunts p.
Proof.
  assert (Hv : Verify (nth 2 ex_proofs (mk_SimpleProof [])) 2 5 (strHasher "c") (SimpleHashFromHashers ex_items) = true)
    by (vm_compute; reflexivity).
  assert (Hn : ~ collision (check_inputs 2 5 (strHasher "c") (rev (Aunts (nth 2 ex_proofs (mk_SimpleProof []))))) (tree_inputs ex_items)).
  { rewrite <- collides_spec.
    assert (E : collides (check_inputs 2 5 (strHasher "c") (rev (Aunts (nth 2 ex_proofs (mk_SimpleProof []))))) (tree_inputs ex_items) = false)
      by (vm_compute; reflexivity).
    rewrite E. discriminate. }
  split; [exact Hv|split; [exact Hn|]].
  destruct (accepted_sound ex_items (nth 2 ex_proofs (mk_SimpleProof [])) 2 (strHasher "c")) as [Hc|H];
    [reflexivity|exact Hv|destruct (Hn Hc)|exact H].
Defined.

Lemma map_proofs_witness :
  exists proofs keys, SimpleProofsFromMap [("key2", strHasher "value2"); ("key1", strHasher "value1")]
    = Ok (SimpleHashFromMap [("key2", strHasher "value2"); ("key1", strHasher "value1")], proofs, keys) /\
    exists i p, keys !! i = Some "key1" /\ proofs !! "key1" = Some p.
Proof.
  destruct (map_proofs [("key2", strHasher "value2"); ("key1", strHasher "value1")]) as (proofs & keys & H1 & _ & H3);
    [discriminate|repeat constructor; set_solver|reflexivity|].
  destruct (H3 "key1" (strHasher "value1")) as (i & p & Hi & Hp & _); [right; left|].
  exists proofs, keys. split; [exact H1|]. exists i, p. exact (conj Hi Hp).
Defined.
