(* ===== verification/Wire.v ===== *)
(** * Concrete encodings

    Encodings of records are third-party code and parameters of the
    development.  The models that show their laws can hold are built here: a
    value is written as a self-delimiting string of bytes, so that a tuple is
    the concatenation of its parts. *)
From Stdlib Require Import Strings.Byte Strings.String QArith.
From S2P Require Import Prelude.
#[local] Open Scope list_scope.
#[local] Open Scope Z_scope.

Class Wire (A : Type) := {
  enc : A -> bytes;
  dec : bytes -> option (A * bytes);
  dec_enc : forall a r, dec (enc a ++ r) = Some (a, r)
}.

Fixpoint enc_pos (p : positive) : bytes :=
  match p with
  | xH => [Byte.x02]
  | xO p => Byte.x00 :: enc_pos p
  | xI p => Byte.x01 :: enc_pos p
  end.
Fixpoint dec_pos (bz : bytes) : option (positive * bytes) :=
  match bz with
  | Byte.x02 :: r => Some (xH, r)
  | Byte.x00 :: r => '(p, r) ← dec_pos r; Some (xO p, r)
  | Byte.x01 :: r => '(p, r) ← dec_pos r; Some (xI p, r)
  | _ => None
  end.
#[export] Instance wire_pos : Wire positive.
Proof.
  refine {| enc := enc_pos; dec := dec_pos; dec_enc := _ |}.
  intros p r. induction p as [p IH|p IH|]; simpl; by rewrite ?IH.
Defined.

#[export] Instance wire_byte : Wire Byte.byte.
Proof.
  refine {| enc b := [b]; dec bz := match bz with [] => None | b :: r => Some (b, r) end; dec_enc := _ |}.
  done.
Defined.

#[export] Instance wire_unit : Wire unit.
Proof.
  refine {| enc _ := []; dec bz := Some (tt, bz); dec_enc := _ |}.
  by intros [].
Defined.

#[export] Instance wire_prod A B `{Wire A} `{Wire B} : Wire (A * B).
Proof.
  refine {| enc p := enc p.1 ++ enc p.2;
  dec bz := '(a, r) ← dec bz; '(b, r) ← dec r; Some ((a, b), r); dec_enc := _ |}.
  intros [a b] r. simpl. by rewrite <- app_assoc, dec_enc; simpl; rewrite dec_enc.
Defined.

#[export] Instance wire_sum A B `{Wire A} `{Wire B} : Wire (A + B).
Proof.
  refine {| enc s := match s with inl a => Byte.x00 :: enc a | inr b => Byte.x01 :: enc b end;
  dec bz := match bz with
            | Byte.x00 :: r => '(a, r) ← dec r; Some (inl a, r)
            | Byte.x01 :: r => '(b, r) ← dec r; Some (inr b, r)
            | _ => None
            end; dec_enc := _ |}.
  intros [a|b] r; simpl; by rewrite dec_enc.
Defined.

Fixpoint dec_list {A} `{Wire A} (fuel : nat) (bz : bytes) : option (list A * bytes) :=
  match fuel, bz with
  | S fuel, Byte.x01 :: r => '(a, r) ← dec r; '(l, r) ← dec_list fuel r; Some (a :: l, r)
  | _, Byte.x00 :: r => Some ([], r)
  | _, _ => None
  end.
Fixpoint enc_list {A} `{Wire A} (l : list A) : bytes :=
  match l with [] => [Byte.x00] | a :: l => Byte.x01 :: enc a ++ enc_list l end.
Lemma dec_enc_list {A} `{Wire A} (l : list A) fuel r :
  (length l <= fuel)%nat -> dec_list fuel (enc_list l ++ r) = Some (l, r).
Proof.
  revert fuel. induction l as [|a l IH]; intros fuel Hf; simpl; [by destruct fuel|].
  destruct fuel as [|fuel]; [simpl in Hf; lia|]. simpl. rewrite <- app_assoc, dec_enc. simpl.
  rewrite IH by (simpl in Hf; lia). done.
Qed.
Lemma length_enc_list {A} `{Wire A} (l : list A) : (length l <= length (enc_list l))%nat.
Proof. induction l as [|a l IH]; simpl; [lia|]. rewrite length_app. lia. Qed.
#[export] Instance wire_list A `{Wire A} : Wire (list A).
Proof.
  refine {| enc := enc_list; dec bz := dec_list (length bz) bz; dec_enc := _ |}.
  intros l r. apply dec_enc_list. rewrite length_app. pose proof (length_enc_list l). lia.
Defined.

(** Through a retraction. *)
Definition wire_iso {A B} `{Wire B} (f : A -> B) (g : B -> A) (Hgf : forall a, g (f a) = a) : Wire A.
Proof.
  refine {| enc a := enc (f a); dec bz := '(b, r) ← dec bz; Some (g b, r) |}.
  intros a r. rewrite dec_enc. simpl. by rewrite Hgf.
Defined.

#[export] Instance wire_Z : Wire Z.
Proof.
  refine (wire_iso (fun z => match z with Z0 => inl tt | Zpos p => inr (inl p) | Zneg p => inr (inr p) end)
    (fun s => match s with inl _ => Z0 | inr (inl p) => Zpos p | inr (inr p) => Zneg p end) _).
  by intros [].
Defined.
#[export] Instance wire_Q : Wire Q.
Proof. refine (wire_iso (fun q => (Qnum q, Qden q)) (fun p => p.1 # p.2)%Q _). by intros []. Defined.
#[export] Instance wire_string : Wire string.
Proof. refine (wire_iso list_byte_of_string string_of_list_byte _). apply string_of_list_byte_of_string. Defined.
#[export] Instance wire_bool : Wire bool.
Proof.
  refine (wire_iso (fun b : bool => if b then inl tt else inr tt) (fun s => match s with inl _ => true | inr _ => false end) _).
  by intros [].
Defined.
#[export] Instance wire_option A `{Wire A} : Wire (option A).
Proof.
  refine (wire_iso (fun o => match o with None => inl tt | Some a => inr a end)
    (fun s => match s with inl _ => None | inr a => Some a end) _). by intros [].
Defined.
(** ** Checked decoding *)

Section checked.
Context {A : Type} `{Wire A} (P : A -> Prop) `{forall a, Decision (P a)}.

Definition enc_some (a : A) : option bytes := Some (enc a).
Definition dec_checked (bz : bytes) : option A :=
  match dec bz with
  | Some (a, []) => if decide (P a) then Some a else None
  | _ => None
  end.

Lemma checked_roundtrip a : P a -> exists bz, enc_some a = Some bz /\ dec_checked bz = Some a.
Proof.
  intros HP. eexists. split; [done|]. unfold dec_checked. rewrite <- (app_nil_r (enc a)), dec_enc.
  by rewrite decide_True.
Qed.
Lemma checked_decoded bz a : dec_checked bz = Some a -> P a.
Proof.
  unfold dec_checked. destruct (dec bz) as [[a' [|]]|]; [|done|done]. destruct (decide (P a')); [|done]. by intros [= <-].
Qed.
End checked.

(** Without a check. *)
Definition ser {A} `{Wire A} (a : A) : bytes := enc a.
Definition deser {A} `{Wire A} (bz : bytes) : option A :=
  match dec bz with Some (a, []) => Some a | _ => None end.

Lemma deser_ser {A} `{Wire A} (a : A) : deser (ser a) = Some a.
Proof. unfold deser, ser. by rewrite <- (app_nil_r (enc a)), dec_enc. Qed.

#[global] Arguments ser : simpl never.
#[global] Arguments deser : simpl never.
