(* ===== verification/Int.v ===== *)
(** * types/int.go: the bounded integers Int and Uint

    [Int] wraps a [*big.Int] and keeps it in -(2^255-1) .. 2^255-1; [Uint]
    keeps it in 0 .. 2^256-1.  Both are modelled by the integer the pointer
    designates: a binary [Z] stands for a [big.Int], and an operation that
    panics on overflow or on a zero divisor returns [Panicked].  The text forms
    are in Parsing; the nil pointer of a zero-valued struct and the JSON forms
    are not modelled. *)
From S2P Require Import Prelude.
From Stdlib Require Import Zquot.
#[local] Open Scope Z_scope.

(** ** math/big *)

(** big.Int.BitLen: the length of the absolute value in bits, 0 for 0. *)
Definition BitLen (x : Z) : Z := if Z.abs x =? 0 then 0 else Z.log2 (Z.abs x) + 1.

(** big.Int.Sign and big.Int.Cmp. *)
Definition big_Sign (x : Z) : Z := Z.sgn x.
Definition big_Cmp (x y : Z) : Z := match x ?= y with Lt => -1 | Eq => 0 | Gt => 1 end.

(** big.Int.Div and big.Int.Mod are the Euclidean division: the remainder is
    never negative. *)
Definition big_Div (x y : Z) : Z := Z.sgn y * (x / Z.abs y).
Definition big_Mod (x y : Z) : Z := x mod Z.abs y.

(** big.Int.IsInt64, IsUint64 and Int64 (the low 64 bits, signed). *)
Definition big_IsInt64 (x : Z) : bool := bool_decide (is_int64 x).
Definition big_IsUint64 (x : Z) : bool := bool_decide (is_uint64 x).
Definition big_Int64 (x : Z) : Z := wrap64 x.
Definition big_Uint64 (x : Z) : Z := wrapu64 x.

Lemma BitLen_le x n : 0 <= n -> BitLen x <= n <-> Z.abs x < 2 ^ n.
Proof.
  intros Hn. unfold BitLen. destruct (Z.eqb_spec (Z.abs x) 0) as [->|Hx].
  - pose proof (Z.pow_pos_nonneg 2 n). lia.
  - rewrite Z.log2_lt_pow2 by lia. lia.
Qed.

Lemma BitLen_gt x n : 0 <= n -> n < BitLen x <-> 2 ^ n <= Z.abs x.
Proof. intros Hn. pose proof (BitLen_le x n Hn). lia. Qed.

Lemma BitLen_nonneg x : 0 <= BitLen x.
Proof.
  unfold BitLen. case_match; [done|]. pose proof (Z.log2_nonneg (Z.abs x)). lia.
Qed.

Lemma BitLen_mul_lower x y n :
  0 <= n -> n < BitLen x + BitLen y - 1 -> BitLen x <> 0 -> BitLen y <> 0 ->
  2 ^ n <= Z.abs (x * y).
Proof.
  intros Hn H Hx Hy. pose proof (BitLen_nonneg x). pose proof (BitLen_nonneg y).
  assert (2 ^ (BitLen x - 1) <= Z.abs x) by (apply BitLen_gt; lia).
  assert (2 ^ (BitLen y - 1) <= Z.abs y) by (apply BitLen_gt; lia).
  rewrite Z.abs_mul.
  trans (2 ^ (BitLen x - 1) * 2 ^ (BitLen y - 1)); [|apply Z.mul_le_mono_nonneg; auto using Z.pow_nonneg with lia].
  rewrite <- Z.pow_add_r by lia. apply Z.pow_le_mono_r; lia.
Qed.

Lemma big_Div_euclid x y : y <> 0 -> x = y * big_Div x y + big_Mod x y /\ 0 <= big_Mod x y < Z.abs y.
Proof.
  intros Hy. unfold big_Div, big_Mod. split; [|apply Z.mod_pos_bound; lia].
  pose proof (Z.div_mod x (Z.abs y)). destruct (Z.lt_trichotomy y 0) as [?|[?|?]]; [|lia|].
  - rewrite Z.sgn_neg by lia. rewrite Z.abs_neq in * by lia. lia.
  - rewrite Z.sgn_pos by lia. rewrite Z.abs_eq in * by lia. lia.
Qed.

Lemma big_Div_abs_le x y : y <> 0 -> Z.abs (big_Div x y) <= Z.abs x.
Proof.
  intros Hy. destruct (big_Div_euclid x y Hy) as [E B].
  set (q := big_Div x y) in *. set (r := big_Mod x y) in *.
  destruct (Z.le_gt_cases (Z.abs q) (Z.abs x)) as [|Hlt]; [done|]. exfalso.
  assert (Z.abs (y * q) <= Z.abs x + Z.abs r) by lia.
  rewrite Z.abs_mul in *. nia.
Qed.

(** ** Package-level helpers *)

(** [nil] (here [None]) for a negative exponent. *)
Definition newIntegerWithDecimal (n dec : Z) : option Z :=
  if dec <? 0 then None
  else let exp := 10 ^ dec in Some (n * exp).

Definition equal (i i2 : Z) : bool := big_Cmp i i2 =? 0.
Definition gt (i i2 : Z) : bool := big_Cmp i i2 =? 1.
Definition lt (i i2 : Z) : bool := big_Cmp i i2 =? -1.
Definition add (i i2 : Z) : Z := i + i2.
Definition sub (i i2 : Z) : Z := i - i2.
Definition mul (i i2 : Z) : Z := i * i2.
Definition div (i i2 : Z) : Z := big_Div i i2.
Definition mod_ (i i2 : Z) : Z := big_Mod i i2.
Definition neg (i : Z) : Z := - i.

Lemma equal_spec a b : equal a b = bool_decide (a = b).
Proof. unfold equal, big_Cmp. destruct (Z.compare_spec a b); symmetry; (case_bool_decide; lia || done). Qed.
Lemma gt_spec a b : gt a b = bool_decide (b < a).
Proof. unfold gt, big_Cmp. destruct (Z.compare_spec a b); symmetry; (case_bool_decide; lia || done). Qed.
Lemma lt_spec a b : lt a b = bool_decide (a < b).
Proof. unfold lt, big_Cmp. destruct (Z.compare_spec a b); symmetry; (case_bool_decide; lia || done). Qed.

(** ** Int *)
Module Int.

(** The integer behind the struct's pointer. *)
Abbreviation Int := Z.

(** The documented range, -(2^255-1) .. 2^255-1. *)
Definition wf (i : Int) : Prop := Z.abs i < 2 ^ 255.

#[export] Instance wf_dec i : Decision (wf i).
Proof. unfold wf. apply _. Defined.

Definition BigInt (i : Int) : Z := i.

Definition NewInt (n : Z) : Int := n.

Definition NewIntFromBigInt (i : Z) : outcome Int :=
  if 255 <? BitLen i then Panicked (PanicString "NewIntFromBigInt() out of bound") else Ok i.

(** A negative [dec] makes the helper return nil, whose BitLen dereferences it. *)
Definition NewIntWithDecimal (n dec : Z) : outcome Int :=
  match newIntegerWithDecimal n dec with
  | None => Panicked (RuntimeError "nil pointer dereference")
  | Some i =>
      if 255 <? BitLen i then Panicked (PanicString "NewIntWithDecimal() out of bound") else Ok i
  end.

Definition ZeroInt : Int := 0.
Definition OneInt : Int := 1.

Definition Int64 (i : Int) : outcome Z :=
  if big_IsInt64 i then Ok (big_Int64 i) else Panicked (PanicString "Int64() out of bound").

Definition IsZero (i : Int) : bool := big_Sign i =? 0.
Definition Sign (i : Int) : Z := big_Sign i.
Definition Equal (i i2 : Int) : bool := equal i i2.
Definition GT (i i2 : Int) : bool := gt i i2.
Definition LT (i i2 : Int) : bool := lt i i2.

Definition Add (i i2 : Int) : outcome Int :=
  let res := add i i2 in
  if 255 <? BitLen res then Panicked (PanicString "Int overflow") else Ok res.

Definition AddRaw (i i2 : Int) : outcome Int := Add i (NewInt i2).

Definition Sub (i i2 : Int) : outcome Int :=
  let res := sub i i2 in
  if 255 <? BitLen res then Panicked (PanicString "Int overflow") else Ok res.

Definition SubRaw (i i2 : Int) : outcome Int := Sub i (NewInt i2).

Definition Mul (i i2 : Int) : outcome Int :=
  if 255 <? BitLen i + BitLen i2 - 1 then Panicked (PanicString "Int overflow")
  else
    let res := mul i i2 in
    if 255 <? BitLen res then Panicked (PanicString "Int overflow") else Ok res.

Definition MulRaw (i i2 : Int) : outcome Int := Mul i (NewInt i2).

Definition Div (i i2 : Int) : outcome Int :=
  if big_Sign i2 =? 0 then Panicked (PanicString "Division by zero") else Ok (div i i2).

Definition DivRaw (i i2 : Int) : outcome Int := Div i (NewInt i2).

Definition Neg (i : Int) : Int := neg i.

Lemma BitLen_wf i : (255 <? BitLen i) = negb (bool_decide (wf i)).
Proof.
  unfold wf. case_bool_decide; simpl.
  - apply Z.ltb_ge. apply BitLen_le; lia.
  - apply Z.ltb_lt. apply BitLen_gt; lia.
Qed.

Lemma Add_spec a b :
  Add a b = if decide (wf (a + b)) then Ok (a + b) else Panicked (PanicString "Int overflow").
Proof. unfold Add, add. rewrite BitLen_wf. by repeat case_decide; try case_bool_decide. Qed.

Lemma Sub_spec a b :
  Sub a b = if decide (wf (a - b)) then Ok (a - b) else Panicked (PanicString "Int overflow").
Proof. unfold Sub, sub. rewrite BitLen_wf. by repeat case_decide; try case_bool_decide. Qed.

(** The early test on the operands' lengths never rejects a product that fits. *)
Lemma Mul_spec a b :
  wf a -> wf b ->
  Mul a b = if decide (wf (a * b)) then Ok (a * b) else Panicked (PanicString "Int overflow").
Proof.
  intros Ha Hb. unfold Mul, mul. rewrite BitLen_wf.
  apply BitLen_le in Ha, Hb; [|lia..].
  destruct (Z.ltb_spec 255 (BitLen a + BitLen b - 1)) as [H|H].
  - rewrite decide_False; [done|]. unfold wf. apply Z.nlt_ge.
    apply BitLen_mul_lower; lia.
  - by repeat case_decide; try case_bool_decide.
Qed.

Lemma Div_spec a b :
  Div a b = if decide (b = 0) then Panicked (PanicString "Division by zero") else Ok (big_Div a b).
Proof.
  unfold Div, div, big_Sign. case_decide; subst; [done|].
  rewrite (proj2 (Z.eqb_neq _ _)); [done|]. lia.
Qed.

Lemma Div_wf a b : wf a -> b <> 0 -> wf (big_Div a b).
Proof. unfold wf. intros Ha Hb. pose proof (big_Div_abs_le a b Hb). lia. Qed.

(** C39: on operands in range, [Add], [Sub] and [Mul] return the exact integer
    result when it is in range and panic otherwise - the early length test of
    [Mul] rejects no product that fits - and [Div] panics exactly on a zero
    divisor and otherwise returns the Euclidean quotient, still in range. *)
Theorem Int_arith_exact (a b : Int) (Ha : wf a) (Hb : wf b) :
  Add a b = (if decide (wf (a + b)) then Ok (a + b) else Panicked (PanicString "Int overflow")) /\
  Sub a b = (if decide (wf (a - b)) then Ok (a - b) else Panicked (PanicString "Int overflow")) /\
  Mul a b = (if decide (wf (a * b)) then Ok (a * b) else Panicked (PanicString "Int overflow")) /\
  (Div a 0 = Panicked (PanicString "Division by zero")) /\
  (b <> 0 -> exists q, Div a b = Ok q /\ wf q /\ 0 <= a - b * q < Z.abs b).
Proof.
  split_and!; auto using Add_spec, Sub_spec, Mul_spec.
  intros Hb0. exists (big_Div a b). rewrite Div_spec, decide_False by done.
  pose proof (big_Div_euclid a b Hb0). split_and!; [done|auto using Div_wf|lia..].
Qed.

Lemma Int_arith_exact_witness :
  wf (2 ^ 255 - 1) /\ wf (-3) /\
  Add (2 ^ 255 - 1) (-3) = Ok (2 ^ 255 - 4) /\
  Sub (2 ^ 255 - 1) (-3) = Panicked (PanicString "Int overflow") /\
  Div (-3) 2 = Ok (-2).
Proof.
  assert (H1 : wf (2 ^ 255 - 1)) by (vm_compute; reflexivity).
  assert (H2 : wf (-3)) by (vm_compute; reflexivity).
  pose proof (Int_arith_exact (2 ^ 255 - 1) (-3) H1 H2) as (HA & HS & _).
  split_and!; [exact H1|exact H2|rewrite HA; vm_compute; reflexivity
              |rewrite HS; vm_compute; reflexivity|vm_compute; reflexivity].
Defined.

(** The remaining constructors and comparisons. *)
Lemma NewIntFromBigInt_spec i :
  NewIntFromBigInt i =
    if decide (wf i) then Ok i else Panicked (PanicString "NewIntFromBigInt() out of bound").
Proof. unfold NewIntFromBigInt. rewrite BitLen_wf. by repeat case_decide; try case_bool_decide. Qed.

Lemma NewInt_wf n : is_int64 n -> wf (NewInt n).
Proof. unfold is_int64, min_int64, max_int64, NewInt, wf. lia. Qed.

Lemma Int64_NewInt n : is_int64 n -> Int64 (NewInt n) = Ok n.
Proof.
  intros Hn. unfold Int64, NewInt, big_IsInt64, big_Int64.
  by rewrite bool_decide_true, wrap64_id.
Qed.

Lemma Neg_wf i : wf i -> wf (Neg i).
Proof. unfold wf, Neg, neg. lia. Qed.

Lemma IsZero_spec i : IsZero i = bool_decide (i = 0).
Proof. unfold IsZero, big_Sign. case_bool_decide; [subst; done|]. apply Z.eqb_neq. lia. Qed.
Lemma Equal_spec a b : Equal a b = bool_decide (a = b).
Proof. apply equal_spec. Qed.
Lemma LT_spec a b : LT a b = bool_decide (a < b).
Proof. apply lt_spec. Qed.
Lemma GT_spec a b : GT a b = bool_decide (b < a).
Proof. apply gt_spec. Qed.

End Int.

(** ** Uint *)
Module Uint.

Abbreviation Uint := Z.

Definition wf (i : Uint) : Prop := 0 <= i < 2 ^ 256.

#[export] Instance wf_dec i : Decision (wf i).
Proof. unfold wf. apply _. Defined.

(** The range test the constructors and operations repeat. *)
Definition out_of_range (i : Z) : bool :=
  (big_Sign i =? -1) || ((big_Sign i =? 1) && (256 <? BitLen i)).

Definition NewUint (n : Z) : Uint := n.

Definition NewUintFromBigInt (i : Z) : outcome Uint :=
  if out_of_range i then Panicked (PanicString "Uint overflow") else Ok i.

Definition NewUintWithDecimal (n dec : Z) : outcome Uint :=
  match newIntegerWithDecimal n dec with
  | None => Panicked (RuntimeError "nil pointer dereference")
  | Some i =>
      if out_of_range i then Panicked (PanicString "NewUintWithDecimal() out of bound") else Ok i
  end.

Definition ZeroUint : Uint := 0.
Definition OneUint : Uint := 1.

Definition Uint64 (i : Uint) : outcome Z :=
  if big_IsUint64 i then Ok (big_Uint64 i) else Panicked (PanicString "Uint64() out of bound").

Definition IsZero (i : Uint) : bool := big_Sign i =? 0.
Definition Sign (i : Uint) : Z := big_Sign i.
Definition Equal (i i2 : Uint) : bool := equal i i2.
Definition GT (i i2 : Uint) : bool := gt i i2.
Definition LT (i i2 : Uint) : bool := lt i i2.

Definition Add (i i2 : Uint) : outcome Uint :=
  let res := add i i2 in
  if out_of_range res then Panicked (PanicString "Uint overflow") else Ok res.

Definition AddRaw (i i2 : Uint) : outcome Uint := Add i (NewUint i2).

Definition Sub (i i2 : Uint) : outcome Uint :=
  let res := sub i i2 in
  if out_of_range res then Panicked (PanicString "Uint overflow") else Ok res.

Definition SubRaw (i i2 : Uint) : outcome Uint := Sub i (NewUint i2).

Definition Mul (i i2 : Uint) : outcome Uint :=
  if 256 <? BitLen i + BitLen i2 - 1 then Panicked (PanicString "Uint overflow")
  else
    let res := mul i i2 in
    if out_of_range res then Panicked (PanicString "Uint overflow") else Ok res.

Definition MulRaw (i i2 : Uint) : outcome Uint := Mul i (NewUint i2).

Definition Div (i i2 : Uint) : outcome Uint :=
  if Sign i2 =? 0 then Panicked (PanicString "division-by-zero") else Ok (div i i2).

Definition DivRaw (i i2 : Uint) : outcome Uint := Div i (NewUint i2).

Lemma out_of_range_spec i : out_of_range i = negb (bool_decide (wf i)).
Proof.
  unfold out_of_range, wf, big_Sign.
  destruct (Z.lt_trichotomy i 0) as [Hi|[ -> |Hi]].
  - rewrite Z.sgn_neg by done. simpl. rewrite bool_decide_false; [done|lia].
  - by rewrite bool_decide_true.
  - rewrite Z.sgn_pos by done. simpl. case_bool_decide as Hw; simpl.
    + apply Z.ltb_ge, BitLen_le; lia.
    + apply Z.ltb_lt, BitLen_gt; lia.
Qed.

(** the unsigned operations on operands in range: [Add], [Sub] and [Mul]
    return the exact result when it lies in 0 .. 2^256-1 and panic otherwise,
    so [Sub] panics exactly on underflow; [Div] is the truncated quotient and
    panics exactly on a zero divisor. *)
Theorem Uint_arith_exact (a b : Uint) (Ha : wf a) (Hb : wf b) :
  Add a b = (if decide (a + b < 2 ^ 256) then Ok (a + b) else Panicked (PanicString "Uint overflow")) /\
  Sub a b = (if decide (b <= a) then Ok (a - b) else Panicked (PanicString "Uint overflow")) /\
  Mul a b = (if decide (a * b < 2 ^ 256) then Ok (a * b) else Panicked (PanicString "Uint overflow")) /\
  Div a b = (if decide (b = 0) then Panicked (PanicString "division-by-zero") else Ok (a / b)).
Proof.
  unfold Add, Sub, Mul, add, sub, mul. rewrite !out_of_range_spec. unfold wf in *.
  split_and!.
  - repeat case_decide; case_bool_decide; done || lia.
  - repeat case_decide; case_bool_decide; done || lia.
  - destruct (Z.ltb_spec 256 (BitLen a + BitLen b - 1)) as [H|H].
    + assert (BitLen a <= 256) by (apply BitLen_le; lia).
      assert (BitLen b <= 256) by (apply BitLen_le; lia).
      rewrite decide_False; [done|].
      assert (2 ^ 256 <= Z.abs (a * b)) by (apply BitLen_mul_lower; lia). nia.
    + repeat case_decide; case_bool_decide; done || nia.
  - unfold Div, Sign, big_Sign, div, big_Div. case_decide; subst; [done|].
    rewrite Z.sgn_pos, Z.abs_eq by lia. simpl. f_equal. lia.
Qed.

Lemma Uint_arith_exact_witness :
  wf 5 /\ wf 7 /\ Sub 5 7 = Panicked (PanicString "Uint overflow") /\ Mul 5 7 = Ok 35.
Proof.
  assert (H1 : wf 5) by (split; reflexivity || discriminate).
  assert (H2 : wf 7) by (split; reflexivity || discriminate).
  pose proof (Uint_arith_exact 5 7 H1 H2) as (_ & HS & HM & _).
  split_and!; [exact H1|exact H2|rewrite HS; vm_compute; reflexivity
              |rewrite HM; vm_compute; reflexivity].
Defined.

End Uint.
