(* ===== verification/Rational.v ===== *)
(** * types/rational.go: the rational type Rat

    A [Rat] wraps a [big.Rat], which is always kept in lowest terms with a
    positive denominator.  It is modelled by a [Q] on which every operation
    applies [Qred], so that [Num] and [Denom] read the same integers as the
    code; [is_norm] is the invariant.  Banker's rounding ([EvaluateBig]) and
    its users are modelled on those integers; decimals are read in Parsing, the
    text codecs are not modelled. *)
From Stdlib Require Import Strings.String.
From stdpp Require Import pretty.
From S2P Require Import Prelude Int.
From Stdlib Require Import QArith Qabs Qreduction Lqa Zquot.
#[local] Open Scope Z_scope.

Module Rat.

Abbreviation Rat := Q.

(** Lowest terms. *)
Definition is_norm (r : Rat) : Prop := Qred r = r.

(** big.NewRat and SetFrac: panic on a zero denominator, move the sign to the
    numerator and reduce. *)
Definition big_SetFrac (a b : Z) : outcome Rat :=
  match b with
  | Z0 => Panicked (PanicString "division by zero")
  | Zpos p => Ok (Qred (a # p))
  | Zneg p => Ok (Qred (- a # p))
  end.

Definition ZeroRat : Rat := Qred (0 # 1).
Definition OneRat : Rat := Qred (1 # 1).

(** The variadic denominator is a list, as in Go. *)
Definition NewRat (Numerator : Z) (Denominator : list Z) : outcome Rat :=
  match Denominator with
  | [] => big_SetFrac Numerator 1
  | [d] => big_SetFrac Numerator d
  | _ => Panicked (PanicString "improper use of New, can only have one denominator")
  end.

Definition NewRatFromBigInt (num : Z) (denom : list Z) : outcome Rat :=
  match denom with
  | [] => Ok (Qred (num # 1))
  | [d] => big_SetFrac num d
  | _ => Panicked (PanicString "improper use of NewRatFromBigInt, can only have one denominator")
  end.

Definition NewRatFromInt (num : Int.Int) (denom : list Int.Int) : outcome Rat :=
  match denom with
  | [] => Ok (Qred (Int.BigInt num # 1))
  | [d] => big_SetFrac (Int.BigInt num) (Int.BigInt d)
  | _ => Panicked (PanicString "improper use of NewRatFromBigInt, can only have one denominator")
  end.

(** big.Rat.Cmp. *)
Definition big_RatCmp (r r2 : Rat) : Z :=
  match Qcompare r r2 with Lt => -1 | Eq => 0 | Gt => 1 end.

Definition Num (r : Rat) : Int.Int := Qnum r.
Definition Denom (r : Rat) : Int.Int := Zpos (Qden r).
Definition IsZero (r : Rat) : bool := Int.IsZero (Num r).
Definition Equal (r r2 : Rat) : bool := big_RatCmp r r2 =? 0.
Definition GT (r r2 : Rat) : bool := big_RatCmp r r2 =? 1.
Definition LT (r r2 : Rat) : bool := big_RatCmp r r2 =? -1.
Definition GTE (r r2 : Rat) : bool := negb (LT r r2).
Definition LTE (r r2 : Rat) : bool := negb (GT r r2).
Definition Mul (r r2 : Rat) : Rat := Qred (r * r2)%Q.

(** big.Rat.Quo panics on a zero divisor. *)
Definition Quo (r r2 : Rat) : outcome Rat :=
  if Qnum r2 =? 0 then Panicked (PanicString "division by zero") else Ok (Qred (r / r2)%Q).

Definition Add (r r2 : Rat) : Rat := Qred (r + r2)%Q.
Definition Sub (r r2 : Rat) : Rat := Qred (r - r2)%Q.

(** Banker's rounding of the rational to an integer. *)
Definition EvaluateBig (r : Rat) : Z :=
  let num := Qnum r in
  let denom := Zpos (Qden r) in
  let d := Z.quot num denom in
  let rem := Z.rem num denom in
  if big_Cmp rem 0 =? 0 then d
  else
    let tenNum := num * 10 in
    let tenD := d * 10 in
    let remainderDigit := Z.quot tenNum denom - tenD in
    let isFinalDigit := big_Cmp (Z.rem tenNum denom) 0 =? 0 in
    if isFinalDigit && ((big_Cmp remainderDigit 5 =? 0) || (big_Cmp remainderDigit (-5) =? 0)) then
      let dRem2 := Z.rem d 2 in d + dRem2
    else if negb (big_Cmp remainderDigit 5 =? -1) then d + 1
    else if negb (big_Cmp remainderDigit (-5) =? 1) then d - 1
    else d.

Definition RoundInt64 (r : Rat) : Z := big_Int64 (EvaluateBig r).
Definition RoundInt (r : Rat) : outcome Int.Int := Int.NewIntFromBigInt (EvaluateBig r).

Definition Round (r : Rat) (precisionFactor : Z) : outcome Rat :=
  pf ← big_SetFrac precisionFactor 1;
  let rTen := Mul r pf in
  big_SetFrac (RoundInt64 rTen) precisionFactor.

(** big.Rat.String: always with the denominator. *)
Definition String (r : Rat) : string := (pretty (Qnum r) ++ "/" ++ pretty (Zpos (Qden r)))%string.

(** fmt.Sprintf with the verb %0<n>s: filled up with zeros on the left, never
    cut. *)
Definition ToLeftPadded (r : Rat) (totalDigits : Z) : string :=
  let intStr := pretty (EvaluateBig r) in
  (string_of_list_ascii
     (repeat (Ascii.ascii_of_nat 48) (Z.to_nat totalDigits - String.length intStr)) ++ intStr)%string.

(** The index into [r2s] is in range because the lengths agree. *)
Fixpoint RatsEqual_loop (r1s r2s : list Rat) : bool :=
  match r1s, r2s with
  | r1 :: r1s', r2 :: r2s' => if negb (Equal r1 r2) then false else RatsEqual_loop r1s' r2s'
  | _, _ => true
  end.

Definition RatsEqual (r1s r2s : list Rat) : bool :=
  if negb (length r1s =? length r2s)%nat then false else RatsEqual_loop r1s r2s.

(** ** Arithmetic agrees with the rationals *)

Lemma is_norm_Qred r : is_norm (Qred r).
Proof. apply Qred_complete, Qred_correct. Qed.

Lemma norm_eq r s : is_norm r -> is_norm s -> (r == s)%Q -> r = s.
Proof. intros Hr Hs H. rewrite <- Hr, <- Hs. by apply Qred_complete. Qed.

Lemma Add_eq r s : (Add r s == r + s)%Q.
Proof. apply Qred_correct. Qed.
Lemma Sub_eq r s : (Sub r s == r - s)%Q.
Proof. apply Qred_correct. Qed.
Lemma Mul_eq r s : (Mul r s == r * s)%Q.
Proof. apply Qred_correct. Qed.

Lemma Qnum_zero r : Qnum r = 0 <-> (r == 0)%Q.
Proof. unfold Qeq. simpl. lia. Qed.

Lemma Quo_spec r s :
  Quo r s = if Qeq_bool s 0 then Panicked (PanicString "division by zero") else Ok (Qred (r / s)%Q).
Proof.
  unfold Quo. destruct (Z.eqb_spec (Qnum s) 0) as [H|H].
  - apply Qnum_zero, Qeq_bool_iff in H. by rewrite H.
  - destruct (Qeq_bool s 0) eqn:E; [|done]. apply Qeq_bool_iff, Qnum_zero in E. done.
Qed.

Lemma Rat_IsZero_spec r : IsZero r = Qeq_bool r 0.
Proof.
  unfold IsZero, Num. rewrite Int.IsZero_spec. apply eq_true_iff_eq.
  rewrite bool_decide_eq_true, Qeq_bool_iff. apply Qnum_zero.
Qed.

Lemma Rat_LT_spec r s : LT r s = true <-> (r < s)%Q.
Proof. unfold LT, big_RatCmp. rewrite Qlt_alt. by destruct (r ?= s)%Q. Qed.
Lemma Rat_GT_spec r s : GT r s = true <-> (s < r)%Q.
Proof. unfold GT, big_RatCmp. rewrite Qgt_alt. by destruct (r ?= s)%Q. Qed.
Lemma Rat_Equal_spec r s : Equal r s = true <-> (r == s)%Q.
Proof. unfold Equal, big_RatCmp. rewrite Qeq_alt. by destruct (r ?= s)%Q. Qed.

#[export] Hint Rewrite Add_eq Sub_eq Mul_eq : sdk.
#[export] Hint Resolve is_norm_Qred : sdk.

(** The comparisons and the arithmetic respect equality of rationals. *)
#[export] Instance Add_proper : Proper (Qeq ==> Qeq ==> Qeq) Add.
Proof. intros r r' Hr s s' Hs. by rewrite !Add_eq, Hr, Hs. Qed.
#[export] Instance Sub_proper : Proper (Qeq ==> Qeq ==> Qeq) Sub.
Proof. intros r r' Hr s s' Hs. by rewrite !Sub_eq, Hr, Hs. Qed.
#[export] Instance Mul_proper : Proper (Qeq ==> Qeq ==> Qeq) Mul.
Proof. intros r r' Hr s s' Hs. by rewrite !Mul_eq, Hr, Hs. Qed.
#[export] Instance LT_proper : Proper (Qeq ==> Qeq ==> eq) LT.
Proof. intros r r' Hr s s' Hs. unfold LT, big_RatCmp. by rewrite Hr, Hs. Qed.
#[export] Instance GT_proper : Proper (Qeq ==> Qeq ==> eq) GT.
Proof. intros r r' Hr s s' Hs. unfold GT, big_RatCmp. by rewrite Hr, Hs. Qed.

(** ** Banker's rounding *)

(** [e] is the nearest integer to [n/d], the even one on a tie. *)
Definition nearest_even (n d e : Z) : Prop :=
  2 * Z.abs (n - e * d) <= d /\ (2 * Z.abs (n - e * d) = d -> Z.even e = true).

Lemma nearest_even_unique n d e e' :
  0 < d -> nearest_even n d e -> nearest_even n d e' -> e = e'.
Proof.
  intros Hd [H1 H2] [H1' H2']. destruct (Z.eq_dec e e') as [|Hne]; [done|]. exfalso.
  assert (Hle : Z.abs ((e - e') * d) <= d) by lia.
  assert (Z.abs (e - e') = 1).
  { rewrite Z.abs_mul in Hle. nia. }
  assert (He : e' = e + 1 \/ e' = e - 1) by lia.
  assert (2 * Z.abs (n - e * d) = d /\ 2 * Z.abs (n - e' * d) = d) as [T T'] by (destruct He; subst; nia).
  specialize (H2 T). specialize (H2' T').
  apply Z.even_spec in H2 as [a ->]. apply Z.even_spec in H2' as [b ->]. lia.
Qed.

Lemma nearest_even_opp n d e : nearest_even n d e -> nearest_even (- n) d (- e).
Proof.
  unfold nearest_even. rewrite Z.even_opp.
  replace (Z.abs (- n - - e * d)) with (Z.abs (n - e * d)) by lia. done.
Qed.

Lemma EvaluateBig_opp n p : EvaluateBig (- n # p) = - EvaluateBig (n # p).
Proof.
  unfold EvaluateBig. simpl Qnum. simpl Qden. set (d := Zpos p).
  rewrite Z.quot_opp_l, Z.rem_opp_l by done.
  replace (- n * 10) with (- (n * 10)) by lia. rewrite Z.quot_opp_l, Z.rem_opp_l by done.
  assert (Hc : forall x y, big_Cmp (- x) (- y) = - big_Cmp x y).
  { intros x y. unfold big_Cmp. rewrite Z.compare_opp, (Z.compare_antisym x y). by destruct (x ?= y). }
  replace (- (n * 10 ÷ d) - - (n ÷ d) * 10) with (- (n * 10 ÷ d - n ÷ d * 10)) by lia.
  set (q := n ÷ d). set (g := n * 10 ÷ d - q * 10). rewrite Z.rem_opp_l by done.
  rewrite (Hc (Z.rem n d) 0 : big_Cmp _ 0 = _), (Hc (Z.rem (n * 10) d) 0 : big_Cmp _ 0 = _),
    (Hc g 5 : big_Cmp _ (-5) = _), (Hc g (-5) : big_Cmp _ 5 = _).
  unfold big_Cmp.
  destruct (Z.compare_spec (Z.rem n d) 0), (Z.compare_spec (Z.rem (n * 10) d) 0),
    (Z.compare_spec g 5), (Z.compare_spec g (-5)); simpl; lia.
Qed.

Lemma EvaluateBig_nonneg n p : 0 <= n -> nearest_even n (Zpos p) (EvaluateBig (n # p)).
Proof.
  intros Hn. unfold EvaluateBig, big_Cmp. simpl Qnum. simpl Qden. set (d := Zpos p).
  assert (Hd : 0 < d) by done.
  rewrite !Z.quot_div_nonneg, !Z.rem_mod_nonneg by lia.
  pose proof (Z.div_mod n d). pose proof (Z.mod_pos_bound n d Hd).
  pose proof (Z.div_mod (n * 10) d). pose proof (Z.mod_pos_bound (n * 10) d Hd).
  set (q := n / d) in *. set (r := n mod d) in *.
  set (q' := n * 10 / d) in *. set (r' := n * 10 mod d) in *.
  assert (0 <= q) by (apply Z.div_pos; lia).
  assert (Eg : d * (q' - q * 10) + r' = r * 10) by lia.
  set (g := q' - q * 10) in *.
  assert (0 <= g) by nia.
  unfold nearest_even. replace n with (d * q + r) by lia.
  destruct (Z.compare_spec r 0) as [Hr|Hr|Hr]; simpl; [|lia|].
  { split; lia. }
  pose proof (Z.rem_mod_nonneg q 2 ltac:(lia) ltac:(lia)) as Eq2. rewrite Eq2.
  assert (Hev : Z.even (q + q mod 2) = true).
  { rewrite Z.even_add, Zmod_even. by destruct (Z.even q). }
  assert (0 <= q mod 2 < 2) by (apply Z.mod_pos_bound; lia).
  destruct (Z.compare_spec r' 0), (Z.compare_spec g 5), (Z.compare_spec g (-5)); simpl;
    (lia || (split; [nia|]; intros; try done; nia)).
Qed.

Lemma EvaluateBig_nearest r : nearest_even (Qnum r) (Zpos (Qden r)) (EvaluateBig r).
Proof.
  destruct r as [n p]. simpl. destruct (Z.le_gt_cases 0 n) as [Hn|Hn].
  - by apply EvaluateBig_nonneg.
  - rewrite <- (Z.opp_involutive n), (EvaluateBig_opp (- n)).
    apply nearest_even_opp, EvaluateBig_nonneg. lia.
Qed.

(** Distance to an integer, read on the numerator and denominator. *)
Lemma Qabs_dist_half r e :
  (Qabs (r - inject_Z e) <= 1 # 2)%Q <-> 2 * Z.abs (Qnum r - e * Zpos (Qden r)) <= Zpos (Qden r).
Proof.
  unfold Qle, Qabs, inject_Z, Qminus, Qplus, Qopp. destruct r as [n p]. simpl.
  rewrite Pos.mul_1_r. replace (n * 1 + - e * Zpos p) with (n - e * Zpos p) by lia. lia.
Qed.

Lemma Qabs_dist_half_eq r e :
  (Qabs (r - inject_Z e) == 1 # 2)%Q <-> 2 * Z.abs (Qnum r - e * Zpos (Qden r)) = Zpos (Qden r).
Proof.
  unfold Qeq, Qabs, inject_Z, Qminus, Qplus, Qopp. destruct r as [n p]. simpl.
  rewrite Pos.mul_1_r. replace (n * 1 + - e * Zpos p) with (n - e * Zpos p) by lia. lia.
Qed.

(** C40: [EvaluateBig] is banker's rounding: it returns an integer at distance
    at most 1/2 from the rational, the even one when the distance is exactly
    1/2, and it is the only integer with these two properties. *)
Theorem EvaluateBig_bankers (r : Rat) :
  (Qabs (r - inject_Z (EvaluateBig r)) <= 1 # 2)%Q /\
  ((Qabs (r - inject_Z (EvaluateBig r)) == 1 # 2)%Q -> Z.even (EvaluateBig r) = true) /\
  (forall e, (Qabs (r - inject_Z e) <= 1 # 2)%Q ->
     ((Qabs (r - inject_Z e) == 1 # 2)%Q -> Z.even e = true) -> e = EvaluateBig r).
Proof.
  pose proof (EvaluateBig_nearest r) as [H1 H2]. split_and!.
  - by apply Qabs_dist_half.
  - intros H. apply H2. by apply Qabs_dist_half_eq.
  - intros e He Ht. apply (nearest_even_unique (Qnum r) (Zpos (Qden r))); [done| |by split].
    split; [by apply Qabs_dist_half|]. intros T. apply Ht. by apply Qabs_dist_half_eq.
Qed.

Lemma EvaluateBig_bankers_witness :
  EvaluateBig (5 # 2) = 2 /\ EvaluateBig (7 # 2) = 4 /\ EvaluateBig (- 5 # 2) = -2 /\
  Z.even (EvaluateBig (5 # 2)) = true.
Proof.
  split_and!; [vm_compute; reflexivity..|].
  apply (proj1 (proj2 (EvaluateBig_bankers (5 # 2)))). vm_compute. reflexivity.
Defined.

Lemma EvaluateBig_inject_Z z : EvaluateBig (inject_Z z) = z.
Proof.
  apply (nearest_even_unique z 1); [done|exact (EvaluateBig_nearest (inject_Z z))|].
  split; [lia|]. intros. lia.
Qed.

Lemma EvaluateBig_Qeq r z : (r == inject_Z z)%Q -> EvaluateBig r = z.
Proof.
  intros H. apply (nearest_even_unique (Qnum r) (Zpos (Qden r))); [done|apply EvaluateBig_nearest|].
  unfold Qeq, inject_Z in H. simpl in H. split; [lia|]. intros. lia.
Qed.

Lemma EvaluateBig_dist r : (Qabs (r - inject_Z (EvaluateBig r)) <= 1 # 2)%Q.
Proof. apply Qabs_dist_half, EvaluateBig_nearest. Qed.

Lemma EvaluateBig_range r a b :
  (inject_Z a <= r)%Q -> (r <= inject_Z b)%Q -> a <= EvaluateBig r <= b.
Proof.
  intros Ha Hb. destruct (EvaluateBig_nearest r) as [H _]. revert H Ha Hb.
  generalize (EvaluateBig r). destruct r as [n p]. unfold Qle, inject_Z. simpl. nia.
Qed.

(** The error of rounding to a multiple of [1/pf], used by the inflation code:
    at most half a unit, as long as the scaled value fits an int64. *)
Lemma Round_error r pf q :
  0 < pf -> Round r pf = Ok q ->
  is_int64 (EvaluateBig (Qred (r * Qred (pf # 1)))) ->
  (Qabs (q - r) <= (1 # 2) / inject_Z pf)%Q.
Proof.
  intros Hpf Hr Hi. destruct pf as [|p|p]; try lia.
  unfold Round, mbind, outcome_bind, big_SetFrac, RoundInt64, big_Int64, Mul in Hr.
  rewrite wrap64_id in Hr by exact Hi.
  destruct (EvaluateBig_nearest (Qred (r * Qred (Zpos p # 1)))) as [H _].
  apply Qabs_dist_half in H.
  revert H Hr. generalize (EvaluateBig (Qred (r * Qred (Zpos p # 1)))). intros e H [= <-].
  rewrite !Qred_correct in *. change (Zpos p # 1) with (inject_Z (Zpos p)) in H.
  assert (Hp : (0 < inject_Z (Zpos p))%Q) by done.
  assert (E : ((e # p) == inject_Z e / inject_Z (Zpos p))%Q).
  { rewrite <- Qmake_Qdiv. done. }
  rewrite E. apply Qle_shift_div_l; [done|].
  rewrite <- (Qabs_pos (inject_Z (Zpos p))) by (apply Qlt_le_weak; done).
  assert (E2 : ((inject_Z e / inject_Z (Zpos p) - r) * inject_Z (Zpos p)
                == - (r * inject_Z (Zpos p) - inject_Z e))%Q).
  { field. intros Hz. by rewrite Hz in Hp. }
  by rewrite <- Qabs_Qmult, E2, Qabs_opp.
Qed.

End Rat.
