(* ===== verification/Errors.v ===== *)
(** * types/errors.go, codespacer.go, gas.go, result.go, tags.go

    The values the rest of the SDK reports with: error codes and codespaces,
    the reservation of codespaces, results and tags, and the gas meter.  The
    rendered text of an error ([WRSPLog], which prints a third-party error
    value) is kept as the unrendered [TErr]. *)
From S2P Require Import Prelude.
From stdpp Require Import pretty.
#[local] Open Scope Z_scope.

(** ** types/errors.go *)

(** uint32, uint16 and uint16. *)
Abbreviation WRSPCodeType := Z.
Abbreviation CodeType := Z.
Abbreviation CodespaceType := Z.

Definition WRSPCodeOK : WRSPCodeType := 0.

Definition CodeOK : CodeType := 0.
Definition CodeInternal : CodeType := 1.
Definition CodeTxDecode : CodeType := 2.
Definition CodeInvalidSequence : CodeType := 3.
Definition CodeUnauthorized : CodeType := 4.
Definition CodeInsufficientFunds : CodeType := 5.
Definition CodeUnknownRequest : CodeType := 6.
Definition CodeInvalidAddress : CodeType := 7.
Definition CodeInvalidPubKey : CodeType := 8.
Definition CodeUnknownAddress : CodeType := 9.
Definition CodeInsufficientCoins : CodeType := 10.
Definition CodeInvalidCoins : CodeType := 11.
Definition CodeOutOfGas : CodeType := 12.
Definition CodeMemoTooLarge : CodeType := 13.

Definition CodespaceUndefined : CodespaceType := 0.
Definition CodespaceRoot : CodespaceType := 1.
Definition MaximumCodespace : CodespaceType := 65535.

Definition IsOK (code : WRSPCodeType) : bool := code =? WRSPCodeOK.

Definition ToWRSPCode (space : CodespaceType) (code : CodeType) : WRSPCodeType :=
  if (space =? CodespaceRoot) && (code =? CodeOK) then WRSPCodeOK
  else Z.lor (Z.shiftl space 16 mod 2 ^ 32) code.

Definition CodeToDefaultMsg (code : CodeType) : string :=
  if code =? CodeInternal then "internal error"
  else if code =? CodeTxDecode then "tx parse error"
  else if code =? CodeInvalidSequence then "invalid sequence"
  else if code =? CodeUnauthorized then "unauthorized"
  else if code =? CodeInsufficientFunds then "insufficient funds"
  else if code =? CodeUnknownRequest then "unknown request"
  else if code =? CodeInvalidAddress then "invalid address"
  else if code =? CodeInvalidPubKey then "invalid pubkey"
  else if code =? CodeUnknownAddress then "unknown address"
  else if code =? CodeInsufficientCoins then "insufficient coins"
  else if code =? CodeInvalidCoins then "invalid coins"
  else if code =? CodeOutOfGas then "out of gas"
  else if code =? CodeMemoTooLarge then "memo too large"
  else ("unknown code " ++ pretty code)%string.

(** The embedded third-party error is represented by the format it is built from. *)
Record sdkError : Type := mk_sdkError {
  codespace : CodespaceType;
  code : CodeType;
  cmnError : string
}.

#[export] Instance sdkError_eq_dec : EqDecision sdkError.
Proof. solve_decision. Defined.

Definition newError (codespace : CodespaceType) (code : CodeType) (format : string) : sdkError :=
  let format := if decide (format = EmptyString) then CodeToDefaultMsg code else format in
  mk_sdkError codespace code format.

Definition NewError (codespace : CodespaceType) (code : CodeType) (format : string) : sdkError :=
  newError codespace code format.

Definition newErrorWithRootCodespace (code : CodeType) (format : string) : sdkError :=
  newError CodespaceRoot code format.

Definition ErrInternal (msg : string) := newErrorWithRootCodespace CodeInternal msg.
Definition ErrTxDecode (msg : string) := newErrorWithRootCodespace CodeTxDecode msg.
Definition ErrInvalidSequence (msg : string) := newErrorWithRootCodespace CodeInvalidSequence msg.
Definition ErrUnauthorized (msg : string) := newErrorWithRootCodespace CodeUnauthorized msg.
Definition ErrInsufficientFunds (msg : string) := newErrorWithRootCodespace CodeInsufficientFunds msg.
Definition ErrUnknownRequest (msg : string) := newErrorWithRootCodespace CodeUnknownRequest msg.
Definition ErrInvalidAddress (msg : string) := newErrorWithRootCodespace CodeInvalidAddress msg.
Definition ErrUnknownAddress (msg : string) := newErrorWithRootCodespace CodeUnknownAddress msg.
Definition ErrInvalidPubKey (msg : string) := newErrorWithRootCodespace CodeInvalidPubKey msg.
Definition ErrInsufficientCoins (msg : string) := newErrorWithRootCodespace CodeInsufficientCoins msg.
Definition ErrInvalidCoins (msg : string) := newErrorWithRootCodespace CodeInvalidCoins msg.
Definition ErrOutOfGas (msg : string) := newErrorWithRootCodespace CodeOutOfGas msg.
Definition ErrMemoTooLarge (msg : string) := newErrorWithRootCodespace CodeMemoTooLarge msg.

(** The local [codespace] the code computes is not the one it stores. *)
Definition WithDefaultCodespace (err : sdkError) (cs : CodespaceType) : sdkError :=
  let _codespace := if err.(codespace) =? CodespaceUndefined then cs else err.(codespace) in
  mk_sdkError cs err.(code) err.(cmnError).

Definition WRSPCode (err : sdkError) : WRSPCodeType := ToWRSPCode err.(codespace) err.(code).

(** ** types/tags.go *)

(** A cmn.KVPair of byte slices. *)
Abbreviation Tag := (bytes * bytes)%type.
Abbreviation Tags := (list (bytes * bytes)).

Definition MakeTag (k : string) (v : bytes) : Tag := (string_bytes k, v).
Definition EmptyTags : Tags := [].
Definition AppendTag (t : Tags) (k : string) (v : bytes) : Tags := t ++ [MakeTag k v].
Definition AppendTags (t tags : Tags) : Tags := t ++ tags.

(** The variadic arguments are [interface{}] values; the code asserts a string
    then a byte slice. *)
Inductive tag_arg : Type := ArgString (s : string) | ArgBytes (b : bytes).

Fixpoint NewTags_loop (tags : list tag_arg) (ret : Tags) : outcome Tags :=
  match tags with
  | [] => Ok ret
  | ArgString k :: ArgBytes v :: rest => NewTags_loop rest (ret ++ [(string_bytes k, v)])
  | _ => Panicked (RuntimeError "interface conversion")
  end.

Definition NewTags (tags : list tag_arg) : outcome Tags :=
  if negb (Nat.even (length tags)) then Panicked (PanicString "must specify key-value pairs as varargs")
  else NewTags_loop tags [].

(** ** types/result.go *)

(** Log text: literal parts and errors whose rendering is left abstract. *)
Inductive text : Type :=
  | TStr (s : string)
  | TErr (e : sdkError)
  | TApp (t1 t2 : text).

Record Result : Type := mk_Result {
  Code : WRSPCodeType;
  Data : bytes;
  Log : text;
  GasWanted : Z;
  GasUsed : Z;
  FeeAmount : Z;
  FeeDenom : string;
  ResTags : Tags
}.

(** [sdk.Result{}] *)
Definition zero_Result : Result :=
  mk_Result 0 [] (TStr EmptyString) 0 0 0 EmptyString [].

Definition Result_IsOK (res : Result) : bool := IsOK res.(Code).

(** (err *sdkError) Result(). *)
Definition err_Result (err : sdkError) : Result :=
  mk_Result (WRSPCode err) [] (TErr err) 0 0 0 EmptyString [].

(** wrsp.ResponseQuery, the fields the code sets, and (err *sdkError)
    QueryResult(). *)
Record ResponseQuery : Type := mk_ResponseQuery {
  rq_Code : Z;
  rq_Log : text;
  rq_Key : slice;
  rq_Value : slice;
  rq_Proof : slice;
  rq_Height : Z
}.

Definition zero_ResponseQuery : ResponseQuery :=
  mk_ResponseQuery 0 (TStr EmptyString) None None None 0.

Definition err_QueryResult (err : sdkError) : ResponseQuery :=
  mk_ResponseQuery (WRSPCode err) (TErr err) None None None 0.

(** [sdk.Result{Tags: tags}] *)
Definition tags_Result (tags : Tags) : Result :=
  mk_Result 0 [] (TStr EmptyString) 0 0 0 EmptyString tags.

(** ** types/gas.go *)

Inductive GasMeter : Type :=
  | basicGasMeter (limit consumed : Z)
  | infiniteGasMeter (consumed : Z).

Definition NewGasMeter (limit : Z) : GasMeter := basicGasMeter limit 0.
Definition NewInfiniteGasMeter : GasMeter := infiniteGasMeter 0.

Definition GasConsumed (g : GasMeter) : Z :=
  match g with basicGasMeter _ c => c | infiniteGasMeter c => c end.

(** The meter is charged before the test, so it stays charged when it panics. *)
Definition ConsumeGas (amount : Z) (descriptor : string) : M GasMeter unit := fun g =>
  match g with
  | basicGasMeter limit consumed =>
      let consumed := wrap64 (consumed + amount) in
      if limit <? consumed then (Panicked (ErrorOutOfGas descriptor), basicGasMeter limit consumed)
      else (Ok tt, basicGasMeter limit consumed)
  | infiniteGasMeter consumed => (Ok tt, infiniteGasMeter (wrap64 (consumed + amount)))
  end.

(** ** types/codespacer.go *)

(** [map[CodespaceType]bool]: an absent key reads as [false]. *)
Abbreviation Codespacer := (gmap Z bool).

Definition NewCodespacer : Codespacer := ∅.

Definition is_reserved (c : Codespacer) (cs : CodespaceType) : bool := default false (c !! cs).

(** Each round advances a uint16 that stops the loop at its maximum: at most
    2^16 rounds. *)
Fixpoint RegisterNext_loop (fuel : nat) (codespace : CodespaceType) : M Codespacer CodespaceType :=
  match fuel with
  | O => panicM (RuntimeError "fuel")
  | S fuel => fun c =>
      if negb (is_reserved c codespace) then (Ok codespace, <[codespace := true]> c)
      else
        let codespace := wrapu16 (codespace + 1) in
        if codespace =? MaximumCodespace then (Panicked (PanicString "Maximum codespace reached!"), c)
        else RegisterNext_loop fuel codespace c
  end.

Definition RegisterNext (codespace : CodespaceType) : M Codespacer CodespaceType :=
  RegisterNext_loop (Z.to_nat 65536) codespace.

Definition RegisterOrPanic (codespace : CodespaceType) : M Codespacer unit := fun c =>
  if is_reserved c codespace then
    (Panicked (PanicString "Cannot register codespace, already reserved"), c)
  else (Ok tt, <[codespace := true]> c).

(** ** Properties *)

Definition is_uint16 (z : Z) : Prop := 0 <= z < 2 ^ 16.

Lemma land_shifted_low s c : is_uint16 c -> Z.land (s * 2 ^ 16) c = 0.
Proof.
  unfold is_uint16. intros Hc. apply Z.bits_inj'. intros i Hi.
  rewrite Z.land_spec, Z.bits_0, <- Z.shiftl_mul_pow2 by lia.
  destruct (Z.lt_ge_cases i 16); [by rewrite Z.shiftl_spec_low by lia|].
  destruct (Z.eq_dec c 0) as [ -> |]; [by rewrite Z.bits_0, andb_false_r|].
  rewrite (Z.bits_above_log2 c); [apply andb_false_r|lia|].
  apply Z.log2_lt_pow2; [lia|]. apply Z.lt_le_trans with (2 ^ 16); [lia|].
  apply Z.pow_le_mono_r; lia.
Qed.

Lemma ToWRSPCode_val s c :
  is_uint16 s -> is_uint16 c ->
  ToWRSPCode s c = if decide (s = CodespaceRoot /\ c = CodeOK) then 0 else s * 2 ^ 16 + c.
Proof.
  intros Hs Hc. unfold ToWRSPCode. pose proof (land_shifted_low s c Hc) as Hl.
  assert (Hv : Z.lor (Z.shiftl s 16 mod 2 ^ 32) c = s * 2 ^ 16 + c).
  { unfold is_uint16 in *. rewrite Z.shiftl_mul_pow2, Z.mod_small by lia.
    by rewrite <- Z.lxor_lor, Z.add_nocarry_lxor. }
  destruct (Z.eqb_spec s CodespaceRoot), (Z.eqb_spec c CodeOK); simpl;
    case_decide; tauto || done.
Qed.

(** on uint16 codespaces and codes, the combined code is OK exactly for
    code 0 of the root or of the undefined codespace, it fits a uint32, and no
    two other (codespace, code) pairs share a combined code: the pair is read
    back as quotient and remainder by 2^16. *)
Theorem ToWRSPCode_injective (s c : Z) (Hs : is_uint16 s) (Hc : is_uint16 c) :
  (IsOK (ToWRSPCode s c) = true <-> c = CodeOK /\ (s = CodespaceRoot \/ s = CodespaceUndefined)) /\
  0 <= ToWRSPCode s c < 2 ^ 32 /\
  (IsOK (ToWRSPCode s c) = false -> ToWRSPCode s c / 2 ^ 16 = s /\ ToWRSPCode s c mod 2 ^ 16 = c).
Proof.
  rewrite ToWRSPCode_val by done. unfold IsOK, WRSPCodeOK, is_uint16 in *.
  unfold CodespaceRoot, CodespaceUndefined, CodeOK in *. case_decide; split_and!; try lia.
  - rewrite Z.div_add_l, Z.div_small by lia. rewrite Z.add_comm, Z.mod_add, Z.mod_small; lia.
Qed.

Lemma ToWRSPCode_injective_witness :
  is_uint16 2 /\ is_uint16 101 /\ ToWRSPCode 2 101 / 2 ^ 16 = 2 /\ ToWRSPCode 2 101 mod 2 ^ 16 = 101.
Proof.
  assert (H1 : is_uint16 2) by (split; reflexivity || discriminate).
  assert (H2 : is_uint16 101) by (split; reflexivity || discriminate).
  split_and!; [exact H1|exact H2|..];
    apply (proj2 (proj2 (ToWRSPCode_injective 2 101 H1 H2))); vm_compute; reflexivity.
Defined.

(** [WithDefaultCodespace] overwrites a codespace that was already set. *)
Theorem WithDefaultCodespace_overwrites err cs :
  codespace (WithDefaultCodespace err cs) = cs.
Proof. done. Qed.

Lemma RegisterNext_loop_spec fuel s c :
  0 <= s < MaximumCodespace -> (Z.to_nat (MaximumCodespace - s) <= fuel)%nat ->
  (exists cs, RegisterNext_loop fuel s c = (Ok cs, <[cs := true]> c) /\
     s <= cs < MaximumCodespace /\ is_reserved c cs = false /\
     (forall x, s <= x < cs -> is_reserved c x = true)) \/
  (RegisterNext_loop fuel s c = (Panicked (PanicString "Maximum codespace reached!"), c) /\
     forall x, s <= x < MaximumCodespace -> is_reserved c x = true).
Proof.
  unfold MaximumCodespace. revert s. induction fuel as [|fuel IH]; intros s Hs Hf; [lia|].
  simpl. destruct (is_reserved c s) eqn:Hr; simpl.
  - unfold wrapu16. rewrite Z.mod_small by lia. unfold MaximumCodespace.
    destruct (Z.eqb_spec (s + 1) 65535) as [E|E].
    + right. split; [done|]. intros x Hx. by replace x with s by lia.
    + destruct (IH (s + 1)) as [(cs & Heq & Hcs & Hfree & Hall)|[Heq Hall]]; [lia..| |].
      * left. exists cs. split_and!; [done|lia..|done|].
        intros x Hx. destruct (Z.eq_dec x s) as [ -> |]; [done|]. apply Hall. lia.
      * right. split; [done|]. intros x Hx. destruct (Z.eq_dec x s) as [ -> |]; [done|]. apply Hall. lia.
  - left. exists s. split_and!; [done|lia..|done|]. lia.
Qed.

(** from a starting codespace below the maximum, [RegisterNext] always
    stops: it reserves and returns the lowest free codespace at or above the
    start (never the maximum itself, never one already reserved, and changing
    no other reservation), and it panics exactly when none is free. *)
Theorem RegisterNext_lowest_free (s : CodespaceType) (c : Codespacer)
    (Hs : 0 <= s < MaximumCodespace) :
  (exists cs, RegisterNext s c = (Ok cs, <[cs := true]> c) /\
     s <= cs < MaximumCodespace /\ is_reserved c cs = false /\
     (forall x, s <= x < cs -> is_reserved c x = true)) \/
  (RegisterNext s c = (Panicked (PanicString "Maximum codespace reached!"), c) /\
     forall x, s <= x < MaximumCodespace -> is_reserved c x = true).
Proof.
  apply RegisterNext_loop_spec; [done|]. unfold MaximumCodespace in *. lia.
Qed.

Lemma RegisterNext_lowest_free_witness :
  0 <= 2 < MaximumCodespace /\
  fst (RegisterNext 2 {[ 2 := true; 3 := true ]}) = Ok 4.
Proof.
  assert (Hs : 0 <= 2 < MaximumCodespace) by (split; reflexivity || discriminate).
  split; [exact Hs|].
  destruct (RegisterNext_lowest_free 2 {[ 2 := true; 3 := true ]} Hs) as [_|_];
    vm_compute; reflexivity.
Defined.

(** A meter never panics below its limit, and the charge is recorded even when
    it does. *)
Lemma ConsumeGas_basic limit consumed amount d :
  is_int64 (consumed + amount) ->
  ConsumeGas amount d (basicGasMeter limit consumed) =
    (if decide (consumed + amount <= limit) then Ok tt else Panicked (ErrorOutOfGas d),
     basicGasMeter limit (consumed + amount)).
Proof.
  intros H. simpl. rewrite wrap64_id by done.
  destruct (Z.ltb_spec limit (consumed + amount)); case_decide; done || lia.
Qed.
