(* ===== verification/Coin.v ===== *)
(** * types/coin.go: Coin and Coins

    A [Coin] is an amount of one denomination; [Coins] is a slice of coins,
    meant to be sorted by denomination with no zero amount.  Amounts are
    [Int]s, so adding may panic on overflow.  The abstract view of a slice is
    [amt], the amount it holds of each denomination.  Parsing from text is in
    Parsing. *)
From S2P Require Import Prelude Int.
From stdpp Require Import pretty.
#[local] Open Scope Z_scope.

Record Coin : Type := mk_Coin { Denom : string; Amount : Int.Int }.

#[export] Instance Coin_eq_dec : EqDecision Coin.
Proof. solve_decision. Defined.

Abbreviation Coins := (list Coin).

(** ** Coin *)

Definition NewCoin (denom : string) (amount : Z) : Coin := mk_Coin denom (Int.NewInt amount).

Definition Coin_String (coin : Coin) : string := (pretty coin.(Amount) ++ coin.(Denom))%string.

Definition SameDenomAs (coin other : Coin) : bool := bool_decide (coin.(Denom) = other.(Denom)).

Definition Coin_IsZero (coin : Coin) : bool := Int.IsZero coin.(Amount).

Definition Coin_IsGTE (coin other : Coin) : bool :=
  SameDenomAs coin other && negb (Int.LT coin.(Amount) other.(Amount)).

Definition Coin_IsEqual (coin other : Coin) : bool :=
  SameDenomAs coin other && Int.Equal coin.(Amount) other.(Amount).

Definition Coin_IsPositive (coin : Coin) : bool := Int.Sign coin.(Amount) =? 1.

Definition Coin_IsNotNegative (coin : Coin) : bool := negb (Int.Sign coin.(Amount) =? -1).

Definition Coin_Plus (coin coinB : Coin) : outcome Coin :=
  if negb (SameDenomAs coin coinB) then Ok coin
  else a ← Int.Add coin.(Amount) coinB.(Amount); Ok (mk_Coin coin.(Denom) a).

Definition Coin_Minus (coin coinB : Coin) : outcome Coin :=
  if negb (SameDenomAs coin coinB) then Ok coin
  else a ← Int.Sub coin.(Amount) coinB.(Amount); Ok (mk_Coin coin.(Denom) a).

(** ** Coins *)

Fixpoint String_loop (coins : Coins) (out : string) : string :=
  match coins with
  | [] => out
  | coin :: coins => String_loop coins (out ++ (Coin_String coin ++ ","))%string
  end.

(** [out[:len(out)-1]] *)
Definition Coins_String (coins : Coins) : string :=
  if (length coins =? 0)%nat then EmptyString
  else let out := String_loop coins EmptyString in
       String.substring 0 (String.length out - 1) out.

Fixpoint IsValid_loop (coins : Coins) (lowDenom : string) : bool :=
  match coins with
  | [] => true
  | coin :: coins =>
      if negb (bool_decide (string_lt lowDenom coin.(Denom))) then false
      else if Coin_IsZero coin then false
      else IsValid_loop coins coin.(Denom)
  end.

Definition IsValid (coins : Coins) : bool :=
  match coins with
  | [] => true
  | [c] => negb (Coin_IsZero c)
  | c :: rest => IsValid_loop rest c.(Denom)
  end.

(** The merge loop: the two lists are [coins[indexA:]] and [coinsB[indexB:]]. *)
Fixpoint Plus_loop (coins : Coins) : Coins -> Coins -> outcome Coins :=
  fix inner (coinsB sum : Coins) : outcome Coins :=
    match coins, coinsB with
    | [], [] => Ok sum
    | [], _ => Ok (sum ++ coinsB)
    | _, [] => Ok (sum ++ coins)
    | coinA :: coins', coinB :: coinsB' =>
        match string_compare coinA.(Denom) coinB.(Denom) with
        | Lt => Plus_loop coins' coinsB (sum ++ [coinA])
        | Eq =>
            s ← Int.Add coinA.(Amount) coinB.(Amount);
            if Int.IsZero s then Plus_loop coins' coinsB' sum
            else c ← Coin_Plus coinA coinB; Plus_loop coins' coinsB' (sum ++ [c])
        | Gt => inner coinsB' (sum ++ [coinB])
        end
    end.

Definition Plus (coins coinsB : Coins) : outcome Coins := Plus_loop coins coinsB [].

Definition Negative (coins : Coins) : Coins :=
  map (fun coin => mk_Coin coin.(Denom) (Int.Neg coin.(Amount))) coins.

Definition Minus (coins coinsB : Coins) : outcome Coins := Plus coins (Negative coinsB).

Definition IsNotNegative (coins : Coins) : bool :=
  if (length coins =? 0)%nat then true else forallb Coin_IsNotNegative coins.

Definition IsPositive (coins : Coins) : bool :=
  if (length coins =? 0)%nat then false else forallb Coin_IsPositive coins.

Definition IsZero (coins : Coins) : bool := forallb Coin_IsZero coins.

Definition IsGTE (coins coinsB : Coins) : outcome bool :=
  diff ← Minus coins coinsB;
  if (length diff =? 0)%nat then Ok true else Ok (IsNotNegative diff).

Fixpoint IsEqual_loop (coins coinsB : Coins) : bool :=
  match coins, coinsB with
  | c :: coins, d :: coinsB =>
      if negb (bool_decide (c.(Denom) = d.(Denom))) || negb (Int.Equal c.(Amount) d.(Amount)) then false
      else IsEqual_loop coins coinsB
  | _, _ => true
  end.

Definition IsEqual (coins coinsB : Coins) : bool :=
  if negb (length coins =? length coinsB)%nat then false else IsEqual_loop coins coinsB.

(** Binary search; each call halves the slice, so [length coins] rounds are
    enough (the fuel is spent only on a non-empty slice). *)
Fixpoint AmountOf_loop (fuel : nat) (coins : Coins) (denom : string) : Int.Int :=
  match coins with
  | [] => Int.ZeroInt
  | [coin] => if bool_decide (coin.(Denom) = denom) then coin.(Amount) else Int.ZeroInt
  | _ =>
      match fuel with
      | O => Int.ZeroInt
      | S fuel =>
          let midIdx := (length coins / 2)%nat in
          match coins !! midIdx with
          | None => Int.ZeroInt
          | Some coin =>
              if bool_decide (string_lt denom coin.(Denom)) then
                AmountOf_loop fuel (take midIdx coins) denom
              else if bool_decide (denom = coin.(Denom)) then coin.(Amount)
              else AmountOf_loop fuel (drop (S midIdx) coins) denom
          end
      end
  end.

Definition AmountOf (coins : Coins) (denom : string) : Int.Int :=
  AmountOf_loop (length coins) coins denom.

(** Sort interface. *)
Definition Len (coins : Coins) : nat := length coins.
Definition Less (coins : Coins) (i j : nat) : outcome bool :=
  match coins !! i, coins !! j with
  | Some a, Some b => Ok (bool_decide (string_lt a.(Denom) b.(Denom)))
  | _, _ => Panicked (RuntimeError "index out of range")
  end.
Definition Swap (coins : Coins) (i j : nat) : outcome Coins :=
  match coins !! i, coins !! j with
  | Some a, Some b => Ok (<[j := a]> (<[i := b]> coins))
  | _, _ => Panicked (RuntimeError "index out of range")
  end.

(** ** The abstract view *)

(** The amount held of a denomination, summed over the slice. *)
Fixpoint amt (coins : Coins) (d : string) : Z :=
  match coins with
  | [] => 0
  | c :: coins => (if decide (c.(Denom) = d) then c.(Amount) else 0) + amt coins d
  end.

Definition sorted (coins : Coins) : Prop :=
  StronglySorted (fun a b => string_lt a.(Denom) b.(Denom)) coins.
Definition nonzero (coins : Coins) : Prop := Forall (fun c => c.(Amount) <> 0) coins.
Definition amounts_wf (coins : Coins) : Prop := Forall (fun c => Int.wf c.(Amount)) coins.

(** The intended invariant of the type. *)
Definition canonical (coins : Coins) : Prop := sorted coins /\ nonzero coins.

Lemma amt_app l1 l2 d : amt (l1 ++ l2) d = amt l1 d + amt l2 d.
Proof. induction l1 as [|c l1 IH]; simpl; lia. Qed.

Lemma amt_notin l d : Forall (fun c => c.(Denom) <> d) l -> amt l d = 0.
Proof. induction 1 as [|c l Hc _ IH]; simpl; [done|]. rewrite decide_False by done. lia. Qed.

Lemma amt_Negative l d : amt (Negative l) d = - amt l d.
Proof.
  induction l as [|c l IH]; simpl; [done|]. rewrite IH. unfold Int.Neg, neg. case_decide; lia.
Qed.

(** All denominations of [l] are above [x]. *)
Definition above (x : string) (l : Coins) : Prop := Forall (fun c => string_lt x c.(Denom)) l.

Lemma sorted_cons c l : sorted (c :: l) <-> sorted l /\ above c.(Denom) l.
Proof.
  unfold sorted, above. split; [inversion 1; auto|]. intros [? ?]. by constructor.
Qed.

Lemma above_trans x y l : string_lt x y -> above y l -> above x l.
Proof. intros Hxy Hl. eapply Forall_impl; [exact Hl|]. simpl. eauto with sdk. Qed.

Lemma above_amt x d l : above x l -> (d = x \/ string_lt d x) -> amt l d = 0.
Proof.
  intros Hl Hd. apply amt_notin. eapply Forall_impl; [exact Hl|]. simpl. intros c Hc <-.
  destruct Hd as [Hd|Hd]; [rewrite Hd in Hc; by apply (string_lt_irrefl x)|].
  apply (string_lt_irrefl x). by eapply string_lt_trans.
Qed.

Lemma sorted_amt_head c l : sorted (c :: l) -> amt (c :: l) c.(Denom) = c.(Amount).
Proof.
  intros [_ Ha]%sorted_cons. simpl. rewrite decide_True by done.
  rewrite (above_amt c.(Denom)); auto. lia.
Qed.

Lemma sorted_amt_hd d a l : sorted (mk_Coin d a :: l) -> amt (mk_Coin d a :: l) d = a.
Proof. apply (sorted_amt_head (mk_Coin d a)). Qed.

Lemma sorted_amt_elem c l : sorted l -> c ∈ l -> amt l c.(Denom) = c.(Amount).
Proof.
  induction l as [|c' l IH]; intros Hs Hin; [by apply not_elem_of_nil in Hin|].
  apply elem_of_cons in Hin as [ -> |Hin]; [by apply sorted_amt_head|].
  apply sorted_cons in Hs as [Hs Ha]. simpl. rewrite decide_False; [by rewrite IH|].
  unfold above in Ha. rewrite Forall_forall in Ha. specialize (Ha c Hin). simpl in Ha.
  intros E. rewrite E in Ha. by apply string_lt_irrefl in Ha.
Qed.

(** Two canonical slices with the same amounts are equal. *)
Lemma canonical_ext l1 l2 :
  canonical l1 -> canonical l2 -> (forall d, amt l1 d = amt l2 d) -> l1 = l2.
Proof.
  revert l2. induction l1 as [|[d1 a1] l1 IH]; intros [|[d2 a2] l2] [S1 N1] [S2 N2] H.
  - done.
  - specialize (H d2). rewrite (sorted_amt_hd d2 a2 l2) in H by done.
    inversion N2; subst. simpl in *. lia.
  - specialize (H d1). rewrite (sorted_amt_hd d1 a1 l1) in H by done.
    inversion N1; subst. simpl in *. lia.
  - apply sorted_cons in S1 as S1'. destruct S1' as [S1l A1].
    apply sorted_cons in S2 as S2'. destruct S2' as [S2l A2].
    inversion N1 as [|? ? Nz1 N1l]; subst. inversion N2 as [|? ? Nz2 N2l]; subst. simpl in A1, A2, Nz1, Nz2.
    assert (Hd : d1 = d2).
    { destruct (string_lt_total d1 d2) as [L|[E|L]]; [|done|]; exfalso.
      - specialize (H d1). rewrite (sorted_amt_hd d1 a1 l1) in H by done.
        simpl in H. rewrite decide_False in H by (intros ->; by apply string_lt_irrefl in L).
        rewrite (above_amt d2) in H by auto. lia.
      - specialize (H d2). rewrite (sorted_amt_hd d2 a2 l2) in H by done.
        simpl in H. rewrite decide_False in H by (intros ->; by apply string_lt_irrefl in L).
        rewrite (above_amt d1) in H by auto. lia. }
    subst d2. assert (Ha : a1 = a2).
    { specialize (H d1). rewrite (sorted_amt_hd d1 a1 l1) in H by done.
      rewrite (sorted_amt_hd d1 a2 l2) in H by done. done. }
    subst a2. f_equal. apply IH; [done|done|]. intros d. specialize (H d). simpl in H. lia.
Qed.

(** *** The merge loop *)

Lemma Plus_loop_acc a b sum :
  Plus_loop a b sum = (r ← Plus_loop a b []; Ok (sum ++ r)).
Proof.
  revert b sum. induction a as [|ca a IHa]; intros b sum.
  { destruct b; simpl; by rewrite ?app_nil_r. }
  revert sum. induction b as [|cb b IHb]; intros sum; [done|]. simpl.
  destruct (string_compare (Denom ca) (Denom cb)).
  - destruct (Int.Add _ _) as [s|]; simpl; [|done]. destruct (Int.IsZero s); [by rewrite IHa|].
    destruct (Coin_Plus ca cb) as [c|]; simpl; [|done].
    rewrite (IHa b (sum ++ [c])), (IHa b [c]). destruct (Plus_loop a b []); simpl; [|done].
    by rewrite <- app_assoc.
  - rewrite (IHa (cb :: b) (sum ++ [ca])), (IHa (cb :: b) [ca]).
    destruct (Plus_loop a (cb :: b) []); simpl; [|done]. by rewrite <- app_assoc.
  - specialize (IHb (sum ++ [cb])) as E1. simpl in E1. rewrite E1. clear E1.
    specialize (IHb [cb]) as E2. simpl in E2. rewrite E2. clear E2.
    match goal with |- context [mbind ?f ?m] => destruct m; simpl; [|done] end.
    by rewrite <- app_assoc.
Qed.

Lemma Plus_nil_l b : Plus [] b = Ok b.
Proof. by destruct b. Qed.
Lemma Plus_nil_r a : Plus a [] = Ok a.
Proof. by destruct a. Qed.

(** The recursion equation of [Plus] on two non-empty slices. *)
Lemma Plus_cons ca a cb b :
  Plus (ca :: a) (cb :: b) =
  match string_compare ca.(Denom) cb.(Denom) with
  | Lt => r ← Plus a (cb :: b); Ok (ca :: r)
  | Gt => r ← Plus (ca :: a) b; Ok (cb :: r)
  | Eq =>
      s ← Int.Add ca.(Amount) cb.(Amount);
      if decide (s = 0) then Plus a b else r ← Plus a b; Ok (mk_Coin ca.(Denom) s :: r)
  end.
Proof.
  unfold Plus at 1. simpl. destruct (string_compare _ _) eqn:Ec.
  - apply string_compare_eq in Ec. unfold Coin_Plus, SameDenomAs.
    rewrite bool_decide_true by done. simpl.
    destruct (Int.Add _ _) as [s|]; simpl; [|done]. rewrite Int.IsZero_spec.
    case_bool_decide; case_decide; try done. by rewrite Plus_loop_acc.
  - by rewrite Plus_loop_acc.
  - change ((Plus_loop (ca :: a) b ([] ++ [cb])) = (r ← Plus (ca :: a) b; Ok (cb :: r))).
    by rewrite Plus_loop_acc.
Qed.

(** Case analysis along the merge. *)
Ltac plus_ind a b :=
  revert b; induction a as [|ca a IHa]; intros b;
  [|induction b as [|cb b IHb]].

Lemma Plus_amt a b c d : Plus a b = Ok c -> amt c d = amt a d + amt b d.
Proof.
  revert c. plus_ind a b.
  - rewrite Plus_nil_l. by intros c [= ->].
  - rewrite Plus_nil_r. intros c [= ->]. simpl. lia.
  - intros c. rewrite Plus_cons. destruct (string_compare _ _) eqn:Ec.
    + apply string_compare_eq in Ec. rewrite Int.Add_spec. case_decide; simpl; [|done].
      case_decide as Hz.
      * intros E%IHa. simpl. rewrite <- Ec. case_decide; lia.
      * destruct (Plus a b) as [r|] eqn:E; simpl; [|done]. intros [= <-].
        specialize (IHa _ _ E). simpl. rewrite <- Ec. case_decide; lia.
    + destruct (Plus a (cb :: b)) as [r|] eqn:E; simpl; [|done]. intros [= <-].
      specialize (IHa _ _ E). simpl in *. lia.
    + destruct (Plus (ca :: a) b) as [r|] eqn:E; simpl; [|done]. intros [= <-].
      specialize (IHb _ eq_refl). simpl in *. lia.
Qed.

Lemma Plus_above x a b c : above x a -> above x b -> Plus a b = Ok c -> above x c.
Proof.
  unfold above. revert c. plus_ind a b; intros c Ha Hb.
  - rewrite Plus_nil_l. by intros [= <-].
  - rewrite Plus_nil_r. by intros [= <-].
  - rewrite Plus_cons. inversion Ha as [|? ? Ha1 Ha2]; inversion Hb as [|? ? Hb1 Hb2]; subst.
    destruct (string_compare _ _).
    + destruct (Int.Add _ _); simpl; [|done]. case_decide; [eauto|].
      destruct (Plus a b) eqn:E; simpl; [|done]. intros [= <-]. constructor; eauto.
    + destruct (Plus a (cb :: b)) eqn:E; simpl; [|done]. intros [= <-]. constructor; eauto.
    + destruct (Plus (ca :: a) b) eqn:E; simpl; [|done]. intros [= <-]. constructor; eauto.
Qed.

Lemma Plus_sorted a b c : sorted a -> sorted b -> Plus a b = Ok c -> sorted c.
Proof.
  revert c. plus_ind a b; intros c Ha Hb.
  - rewrite Plus_nil_l. by intros [= <-].
  - rewrite Plus_nil_r. by intros [= <-].
  - rewrite Plus_cons. apply sorted_cons in Ha as Ha'. destruct Ha' as [Sa Aa].
    apply sorted_cons in Hb as Hb'. destruct Hb' as [Sb Ab].
    destruct (string_compare _ _) eqn:Ec.
    + apply string_compare_eq in Ec. destruct (Int.Add _ _); simpl; [|done].
      case_decide; [eauto|]. destruct (Plus a b) eqn:E; simpl; [|done]. intros [= <-].
      apply sorted_cons. simpl. split; [eauto|]. eapply Plus_above; [| |exact E]; [done|by rewrite Ec].
    + destruct (Plus a (cb :: b)) eqn:E; simpl; [|done]. intros [= <-].
      apply sorted_cons. split; [eauto|]. eapply Plus_above; [| |exact E]; [done|].
      constructor; [done|]. by eapply above_trans.
    + destruct (Plus (ca :: a) b) eqn:E; simpl; [|done]. intros [= <-].
      apply string_compare_gt in Ec. apply sorted_cons. split; [eauto|].
      eapply Plus_above; [| |exact E]; [|done]. constructor; [done|]. by eapply above_trans.
Qed.

Lemma Plus_nonzero a b c : nonzero a -> nonzero b -> Plus a b = Ok c -> nonzero c.
Proof.
  unfold nonzero. revert c. plus_ind a b; intros c Ha Hb.
  - rewrite Plus_nil_l. by intros [= <-].
  - rewrite Plus_nil_r. by intros [= <-].
  - rewrite Plus_cons. inversion Ha as [|? ? Ha1 Ha2]; inversion Hb as [|? ? Hb1 Hb2]; subst.
    destruct (string_compare _ _).
    + destruct (Int.Add _ _); simpl; [|done]. case_decide; [eauto|].
      destruct (Plus a b) eqn:E; simpl; [|done]. intros [= <-]. constructor; eauto.
    + destruct (Plus a (cb :: b)) eqn:E; simpl; [|done]. intros [= <-]. constructor; eauto.
    + destruct (Plus (ca :: a) b) eqn:E; simpl; [|done]. intros [= <-]. constructor; eauto.
Qed.

Lemma Plus_canonical a b c : canonical a -> canonical b -> Plus a b = Ok c -> canonical c.
Proof. intros [] [] ?. split; eauto using Plus_sorted, Plus_nonzero. Qed.

Lemma Plus_amounts_wf a b c : amounts_wf a -> amounts_wf b -> Plus a b = Ok c -> amounts_wf c.
Proof.
  unfold amounts_wf. revert c. plus_ind a b; intros c Ha Hb.
  - rewrite Plus_nil_l. by intros [= <-].
  - rewrite Plus_nil_r. by intros [= <-].
  - rewrite Plus_cons. inversion Ha as [|? ? Ha1 Ha2]; inversion Hb as [|? ? Hb1 Hb2]; subst.
    destruct (string_compare _ _).
    + rewrite Int.Add_spec. case_decide; simpl; [|done]. case_decide; [eauto|].
      destruct (Plus a b) eqn:E; simpl; [|done]. intros [= <-]. constructor; eauto.
    + destruct (Plus a (cb :: b)) eqn:E; simpl; [|done]. intros [= <-]. constructor; eauto.
    + destruct (Plus (ca :: a) b) eqn:E; simpl; [|done]. intros [= <-]. constructor; eauto.
Qed.

(** The only panic of an addition is an overflow. *)
Lemma Plus_panics a b q : Plus a b = Panicked q -> q = PanicString "Int overflow".
Proof.
  plus_ind a b.
  - by rewrite Plus_nil_l.
  - by rewrite Plus_nil_r.
  - rewrite Plus_cons. destruct (string_compare _ _).
    + rewrite Int.Add_spec. case_decide; simpl; [|by intros [= <-]]. case_decide; [eauto|].
      destruct (Plus a b) eqn:E; simpl; [done|]. intros [= <-]. eauto.
    + destruct (Plus a (cb :: b)) eqn:E; simpl; [done|]. intros [= <-]. eauto.
    + destruct (Plus (ca :: a) b) eqn:E; simpl; [done|]. intros [= <-]. eauto.
Qed.

Lemma Negative_amounts_wf l : amounts_wf l -> amounts_wf (Negative l).
Proof.
  unfold amounts_wf, Negative. rewrite List.Forall_map. intros Hl.
  eapply Forall_impl; [exact Hl|]. simpl. unfold Int.wf, Int.Neg, neg. intros c. by rewrite Z.abs_opp.
Qed.

Lemma Minus_amounts_wf a b c : amounts_wf a -> amounts_wf b -> Minus a b = Ok c -> amounts_wf c.
Proof. intros Ha Hb. apply Plus_amounts_wf; [done|by apply Negative_amounts_wf]. Qed.

(** On sorted slices the only panic is an overflow of some sum. *)
Lemma Plus_total a b :
  sorted a -> sorted b -> (forall d, Int.wf (amt a d + amt b d)) -> exists c, Plus a b = Ok c.
Proof.
  plus_ind a b; intros Ha Hb Hw.
  - rewrite Plus_nil_l. eauto.
  - rewrite Plus_nil_r. eauto.
  - rewrite Plus_cons. apply sorted_cons in Ha as Ha'. destruct Ha' as [Sa Aa].
    apply sorted_cons in Hb as Hb'. destruct Hb' as [Sb Ab].
    destruct (string_compare _ _) eqn:Ec.
    + apply string_compare_eq in Ec.
      assert (Hwf : Int.wf (ca.(Amount) + cb.(Amount))).
      { specialize (Hw ca.(Denom)). rewrite sorted_amt_head in Hw by done.
        rewrite Ec, sorted_amt_head in Hw by done. done. }
      rewrite Int.Add_spec, decide_True by done. simpl.
      destruct (IHa b) as [c Hc]; [done..| |].
      { intros d. destruct (decide (d = ca.(Denom))) as [ -> |Hne].
        - rewrite (above_amt ca.(Denom) _ a), (above_amt cb.(Denom) _ b) by auto. done.
        - specialize (Hw d). simpl in Hw. rewrite !decide_False in Hw by congruence. done. }
      rewrite Hc. simpl. case_decide; eauto.
    + destruct (IHa (cb :: b)) as [c ->]; [done..| |simpl; eauto].
      intros d. destruct (decide (d = ca.(Denom))) as [ -> |Hne].
      * rewrite (above_amt ca.(Denom) _ a) by auto.
        rewrite (above_amt ca.(Denom) _ (cb :: b)); [done| |by left].
        constructor; [done|]. by eapply above_trans.
      * specialize (Hw d). simpl in *. rewrite (decide_False (P := ca.(Denom) = d)) in Hw by congruence. done.
    + apply string_compare_gt in Ec. destruct IHb as [c ->]; [done..| |simpl; eauto].
      intros d. destruct (decide (d = cb.(Denom))) as [ -> |Hne].
      * rewrite (above_amt cb.(Denom) _ b) by auto.
        rewrite (above_amt cb.(Denom) _ (ca :: a)); [done| |by left].
        constructor; [done|]. by eapply above_trans.
      * specialize (Hw d). simpl in *. rewrite (decide_False (P := cb.(Denom) = d)) in Hw by congruence. done.
Qed.

Lemma Negative_sorted l : sorted l -> sorted (Negative l).
Proof.
  induction l as [|c l IH]; intros Hs; [constructor|].
  apply sorted_cons in Hs as [Hs Ha]. simpl. apply sorted_cons. split; [auto|].
  unfold above in *. unfold Negative. rewrite List.Forall_map. exact Ha.
Qed.

Lemma canonical_Negative l : canonical l -> canonical (Negative l).
Proof.
  intros [Hs Hn]. split; [by apply Negative_sorted|].
  clear Hs. unfold nonzero, Negative. rewrite List.Forall_map.
  eapply Forall_impl; [exact Hn|]. simpl. unfold Int.Neg, neg. lia.
Qed.

Lemma amounts_wf_amt l d : sorted l -> amounts_wf l -> Int.wf (amt l d).
Proof.
  induction l as [|c l IH]; intros Hs Hw; [done|].
  apply sorted_cons in Hs as Hs'. destruct Hs' as [Hs' Ha]. inversion Hw; subst. simpl.
  case_decide as Hd; [|by apply IH]. rewrite (above_amt c.(Denom)) by (try done; by left). by rewrite Z.add_0_r.
Qed.

(** adding two canonical slices whose per-denomination sums are in range
    returns a canonical slice holding exactly the sum of each denomination
    (denominations that cancel disappear), and in either order of the
    arguments. *)
Theorem Plus_correct (a b : Coins) (Ha : canonical a) (Hb : canonical b)
    (Hw : forall d, Int.wf (amt a d + amt b d)) :
  exists c, Plus a b = Ok c /\ canonical c /\
    (forall d, amt c d = amt a d + amt b d) /\ Plus b a = Ok c.
Proof.
  destruct (Plus_total a b) as [c Hc]; [apply Ha|apply Hb|done|].
  destruct (Plus_total b a) as [c' Hc'];
    [apply Hb|apply Ha|intros d; rewrite Z.add_comm; apply Hw|].
  exists c. split_and!; [done|exact (Plus_canonical _ _ _ Ha Hb Hc)|intros d; by apply Plus_amt|].
  rewrite Hc'. f_equal. apply canonical_ext;
    [exact (Plus_canonical _ _ _ Hb Ha Hc')|exact (Plus_canonical _ _ _ Ha Hb Hc)|].
  intros d. rewrite (Plus_amt _ _ _ d Hc), (Plus_amt _ _ _ d Hc'). lia.
Qed.

Definition ex_coins1 : Coins := [NewCoin "atom" 5; NewCoin "steak" 3].
Definition ex_coins2 : Coins := [NewCoin "atom" (-5); NewCoin "mycoin" 7].

(** Closes [sorted l] and [canonical l] for a concrete [l]. *)
Ltac solve_sorted :=
  match goal with |- sorted ?l => let v := eval vm_compute in l in change (sorted v) end;
  unfold sorted; repeat (apply SSorted_cons; [|repeat (apply List.Forall_cons; [vm_compute; reflexivity|]); apply List.Forall_nil]);
  apply SSorted_nil.
Ltac solve_canonical :=
  split; [solve_sorted
         |unfold nonzero; repeat (apply List.Forall_cons; [vm_compute; discriminate|]); apply List.Forall_nil].

Lemma Plus_correct_witness :
  canonical ex_coins1 /\ canonical ex_coins2 /\
  exists c, Plus ex_coins1 ex_coins2 = Ok c /\ c = [NewCoin "mycoin" 7; NewCoin "steak" 3] /\ canonical c.
Proof.
  assert (H1 : canonical ex_coins1) by solve_canonical.
  assert (H2 : canonical ex_coins2) by solve_canonical.
  assert (Hw : forall d, Int.wf (amt ex_coins1 d + amt ex_coins2 d)).
  { intros d. unfold Int.wf. simpl. repeat case_decide; vm_compute; reflexivity. }
  destruct (Plus_correct ex_coins1 ex_coins2 H1 H2 Hw) as (c & Hc & Hcan & _).
  split; [exact H1|]. split; [exact H2|]. exists c. split; [exact Hc|]. split; [|exact Hcan].
  vm_compute in Hc. injection Hc as <-. reflexivity.
Defined.

(** *** The sign tests *)

Lemma Coin_IsNotNegative_spec c : Coin_IsNotNegative c = true <-> 0 <= c.(Amount).
Proof.
  unfold Coin_IsNotNegative, Int.Sign, big_Sign. rewrite negb_true_iff, Z.eqb_neq. lia.
Qed.

Lemma Coin_IsPositive_spec c : Coin_IsPositive c = true <-> 0 < c.(Amount).
Proof. unfold Coin_IsPositive, Int.Sign, big_Sign. rewrite Z.eqb_eq. lia. Qed.

Lemma IsNotNegative_Forall l : IsNotNegative l = true <-> Forall (fun c => 0 <= c.(Amount)) l.
Proof.
  unfold IsNotNegative. destruct l as [|c l]; [by split|].
  change ((length (c :: l) =? 0)%nat) with false.
  rewrite forallb_forall, List.Forall_forall. by setoid_rewrite Coin_IsNotNegative_spec.
Qed.

Lemma IsPositive_Forall l : IsPositive l = true <-> l <> [] /\ Forall (fun c => 0 < c.(Amount)) l.
Proof.
  unfold IsPositive. destruct l as [|c l]; [by split; [|intros []]|].
  change ((length (c :: l) =? 0)%nat) with false.
  rewrite forallb_forall, List.Forall_forall. setoid_rewrite Coin_IsPositive_spec.
  split; [by split|by intros []].
Qed.

Lemma nonneg_amt l d : Forall (fun c => 0 <= c.(Amount)) l -> 0 <= amt l d.
Proof. induction 1; simpl; [done|]. case_decide; lia. Qed.

Lemma IsNotNegative_amt l : sorted l -> IsNotNegative l = true <-> forall d, 0 <= amt l d.
Proof.
  intros Hs. rewrite IsNotNegative_Forall. split; [by intros; apply nonneg_amt|].
  intros H. apply Forall_forall. intros c Hc. rewrite <- (sorted_amt_elem c l) by done. apply H.
Qed.

Lemma Minus_amt a b c d : Minus a b = Ok c -> amt c d = amt a d - amt b d.
Proof. intros H. rewrite (Plus_amt _ _ _ d H), amt_Negative. lia. Qed.

Lemma Minus_sorted a b c : sorted a -> sorted b -> Minus a b = Ok c -> sorted c.
Proof. intros Ha Hb. apply Plus_sorted; [done|by apply Negative_sorted]. Qed.

Lemma Minus_canonical a b c : canonical a -> canonical b -> Minus a b = Ok c -> canonical c.
Proof. intros Ha Hb. apply Plus_canonical; [done|by apply canonical_Negative]. Qed.

Lemma Minus_total a b :
  canonical a -> canonical b -> (forall d, Int.wf (amt a d - amt b d)) -> exists c, Minus a b = Ok c.
Proof.
  intros Ha Hb Hw. apply Plus_total; [apply Ha|apply canonical_Negative, Hb|].
  intros d. rewrite amt_Negative. apply Hw.
Qed.

Lemma IsGTE_Ok a b r :
  canonical a -> canonical b -> IsGTE a b = Ok r ->
  r = true <-> forall d, amt b d <= amt a d.
Proof.
  intros Ha Hb. unfold IsGTE. destruct (Minus a b) as [c|] eqn:E; simpl; [|done].
  pose proof (Minus_canonical _ _ _ Ha Hb E) as [Hs _].
  assert (Hc : IsNotNegative c = true <-> forall d, amt b d <= amt a d).
  { rewrite (IsNotNegative_amt c Hs). split; intros H d; specialize (H d);
      rewrite (Minus_amt _ _ _ d E) in *; lia. }
  case_match eqn:El; intros [= <-]; [|done]. rewrite <- Hc. unfold IsNotNegative. by rewrite El.
Qed.

(** on canonical slices, [IsGTE] is the pointwise order: it returns (when
    no difference overflows) and answers true exactly when every denomination
    is held in at least the other's amount. *)
Theorem IsGTE_pointwise (a b : Coins) (Ha : canonical a) (Hb : canonical b)
    (Hw : forall d, Int.wf (amt a d - amt b d)) :
  exists r, IsGTE a b = Ok r /\ (r = true <-> forall d, amt b d <= amt a d).
Proof.
  destruct (Minus_total a b Ha Hb Hw) as [c Hc].
  exists (if (length c =? 0)%nat then true else IsNotNegative c).
  assert (E : IsGTE a b = Ok (if (length c =? 0)%nat then true else IsNotNegative c)).
  { unfold IsGTE. rewrite Hc. simpl. by destruct (length c =? 0)%nat. }
  split; [done|]. by apply IsGTE_Ok.
Qed.

Lemma IsGTE_pointwise_witness :
  canonical ex_coins1 /\ canonical ex_coins2 /\
  exists r, IsGTE ex_coins1 ex_coins2 = Ok r /\ r = false.
Proof.
  assert (H1 : canonical ex_coins1) by solve_canonical.
  assert (H2 : canonical ex_coins2) by solve_canonical.
  assert (Hw : forall d, Int.wf (amt ex_coins1 d - amt ex_coins2 d)).
  { intros d. unfold Int.wf. simpl. repeat case_decide; vm_compute; reflexivity. }
  destruct (IsGTE_pointwise ex_coins1 ex_coins2 H1 H2 Hw) as (r & Hr & _).
  split; [exact H1|]. split; [exact H2|]. exists r. split; [exact Hr|].
  vm_compute in Hr. injection Hr as <-. reflexivity.
Defined.

(** *** Binary search *)

Lemma sorted_app l1 l2 :
  sorted (l1 ++ l2) -> sorted l1 /\ sorted l2 /\
  (forall c1 c2, c1 ∈ l1 -> c2 ∈ l2 -> string_lt c1.(Denom) c2.(Denom)).
Proof.
  induction l1 as [|c l1 IH]; simpl; intros H.
  - split_and!; [constructor|done|]. intros c1 c2 Hc. by apply not_elem_of_nil in Hc.
  - apply sorted_cons in H as [H Ha]. destruct (IH H) as (S1 & S2 & Hx).
    unfold above in Ha. rewrite Forall_app in Ha. destruct Ha as [A1 A2]. split_and!; [|done|].
    + by apply sorted_cons.
    + intros c1 c2 [ -> |Hc1]%elem_of_cons Hc2; [|by apply Hx].
      rewrite Forall_forall in A2. by apply A2.
Qed.

Lemma AmountOf_loop_amt fuel l d :
  sorted l -> (length l <= fuel)%nat -> AmountOf_loop fuel l d = amt l d.
Proof.
  revert l. induction fuel as [|fuel IH]; intros l Hs Hf.
  { destruct l; [done|simpl in Hf; lia]. }
  destruct l as [|c0 [|c1 l]]; [done| |].
  { simpl. unfold Int.ZeroInt. case_bool_decide; case_decide; lia || done. }
  remember (c0 :: c1 :: l) as L eqn:EL.
  assert (Hlen : (2 <= length L)%nat) by (subst L; simpl; lia).
  assert (Hunf : AmountOf_loop (S fuel) L d =
    match L !! (length L / 2)%nat with
    | None => Int.ZeroInt
    | Some coin =>
        if bool_decide (string_lt d coin.(Denom)) then AmountOf_loop fuel (take (length L / 2) L) d
        else if bool_decide (d = coin.(Denom)) then coin.(Amount)
        else AmountOf_loop fuel (drop (S (length L / 2)) L) d
    end) by (subst L; done).
  rewrite Hunf. clear Hunf EL.
  assert (Hmid : (length L / 2 < length L)%nat) by (apply Nat.div_lt; lia).
  destruct (lookup_lt_is_Some_2 L _ Hmid) as [c Hc]. rewrite Hc.
  pose proof (take_drop_middle L _ c Hc) as Hsplit.
  set (l1 := take (length L / 2) L) in *. set (l2 := drop (S (length L / 2)) L) in *.
  assert (Hl1 : (length l1 <= fuel)%nat) by (unfold l1; rewrite length_take; lia).
  assert (Hl2 : (length l2 <= fuel)%nat) by (unfold l2; rewrite length_drop; lia).
  clearbody l1 l2. rewrite <- Hsplit in *. clear Hsplit Hc.
  apply sorted_app in Hs as (S1 & S2 & Hx).
  apply sorted_cons in S2 as [S2 A2].
  assert (A1 : forall x, x ∈ l1 -> string_lt x.(Denom) c.(Denom))
    by (intros x Hin; apply Hx; [done|left]).
  rewrite amt_app. simpl. case_bool_decide as Hlt; [|case_bool_decide as Heq].
  - rewrite IH by done. rewrite decide_False by (intros E; rewrite E in Hlt; by apply string_lt_irrefl in Hlt).
    rewrite (above_amt c.(Denom) d l2) by auto. lia.
  - subst d. rewrite decide_True by done.
    rewrite (above_amt c.(Denom) c.(Denom) l2) by auto. rewrite (amt_notin l1); [lia|].
    apply Forall_forall. intros x Hx1 E. specialize (A1 x Hx1). rewrite E in A1.
    by apply string_lt_irrefl in A1.
  - rewrite IH by done. rewrite decide_False by congruence. rewrite (amt_notin l1); [lia|].
    apply Forall_forall. intros x Hx1 E. specialize (A1 x Hx1). rewrite E in A1. done.
Qed.

(** on a slice sorted by denomination, the binary search of [AmountOf]
    stops and returns exactly the amount the slice holds (0 when absent). *)
Theorem AmountOf_binary_search (l : Coins) (d : string) (Hs : sorted l) : AmountOf l d = amt l d.
Proof. by apply AmountOf_loop_amt. Qed.

Lemma AmountOf_binary_search_witness : sorted ex_coins1 /\ AmountOf ex_coins1 "steak" = 3.
Proof.
  assert (H : sorted ex_coins1) by solve_sorted.
  split; [exact H|]. rewrite (AmountOf_binary_search ex_coins1 "steak" H). vm_compute. reflexivity.
Defined.

(** *** IsValid *)

Lemma IsValid_loop_spec l x :
  IsValid_loop l x = true <-> sorted l /\ above x l /\ nonzero l.
Proof.
  revert x. induction l as [|c l IH]; intros x; simpl.
  { split; [|done]. intros _. split_and!; constructor. }
  rewrite sorted_cons. unfold above at 2, nonzero. rewrite !Forall_cons.
  unfold Coin_IsZero. rewrite Int.IsZero_spec. case_bool_decide as Hx; simpl.
  - case_bool_decide; [naive_solver|]. rewrite IH. unfold nonzero. split; [|naive_solver].
    intros (Hs & Ha & Hn). split_and!; auto. by eapply above_trans.
  - split; [done|]. naive_solver.
Qed.

Lemma IsValid_spec l :
  IsValid l = true <-> sorted l /\ nonzero (tail l) /\ (length l = 1%nat -> nonzero l).
Proof.
  unfold IsValid. destruct l as [|c [|c' l]].
  - split; [|done]. intros _. split_and!; constructor.
  - simpl. unfold Coin_IsZero. rewrite Int.IsZero_spec, negb_true_iff, bool_decide_eq_false.
    unfold nonzero. split.
    + intros H. split_and!; [repeat constructor|constructor|]. intros _. by repeat constructor.
    + intros (_ & _ & H). specialize (H eq_refl). by inversion H.
  - rewrite IsValid_loop_spec, (sorted_cons c). simpl. naive_solver.
Qed.

(** what [IsValid] accepts: sorted slices without duplicates whose amounts,
    except possibly the first of two or more, are not zero.  The first amount
    of a longer slice is not tested, so a slice that starts with a zero amount
    is accepted, against the method's comment. *)
Theorem IsValid_first_amount_unchecked (l : Coins) :
  (IsValid l = true <-> sorted l /\ nonzero (tail l) /\ (length l = 1%nat -> nonzero l)) /\
  IsValid [NewCoin "atom" 0; NewCoin "steak" 1] = true.
Proof. split; [apply IsValid_spec|reflexivity]. Qed.

(** Together with [IsPositive], as the messages test them, the gap is closed. *)
Lemma IsValid_IsPositive_canonical l :
  IsValid l = true -> IsPositive l = true ->
  canonical l /\ (forall d, 0 <= amt l d) /\ exists d, 0 < amt l d.
Proof.
  intros Hv Hp. apply IsValid_spec in Hv as (Hs & _).
  apply IsPositive_Forall in Hp as [Hne Hp]. split_and!.
  - split; [done|]. eapply Forall_impl; [exact Hp|]. simpl. lia.
  - intros d. apply nonneg_amt. eapply Forall_impl; [exact Hp|]. simpl. lia.
  - destruct l as [|c l]; [done|]. exists c.(Denom). rewrite sorted_amt_head by done.
    by inversion Hp.
Qed.
