(* ===== verification/Parsing.v ===== *)
(** * Numbers and coins as text

    NewRatFromDecimal of types/rational.go, the text of integers of
    types/int.go, ParseCoin and ParseCoins of types/coin.go, with what they use
    of strconv, strings, regexp and math/big.  What printing gives is read
    back; what is read is valid. *)
From Stdlib Require Import Strings.Byte Strings.Ascii Strings.String QArith Qreduction.
From S2P Require Import Prelude Names Int Errors Rational Coin.
From stdpp Require Import pretty.
#[local] Open Scope string_scope.
#[local] Open Scope list_scope.
#[local] Open Scope Z_scope.

(** ** strconv and math/big *)

Inductive NumError := ErrSyntax | ErrRange.

(** strconv.ParseUint in base 10 for 64 bits: a number that is too large is met
    before what follows it. *)
Fixpoint ParseUint_loop (n : Z) (s : bytes) : Z + NumError :=
  match s with
  | [] => inl n
  | b :: s =>
      match digit_value b with
      | None => inr ErrSyntax
      | Some d => let n := n * 10 + d in if n <? 2 ^ 64 then ParseUint_loop n s else inr ErrRange
      end
  end.

(** The sign in front of a number: whether it is a minus. *)
Definition split_sign (s : bytes) : bool * bytes :=
  match s with
  | Byte.x2b :: s => (false, s)
  | Byte.x2d :: s => (true, s)
  | s => (false, s)
  end.

Definition strconv_Atoi (s : bytes) : Z + NumError :=
  match split_sign s with
  | (_, []) => inr ErrSyntax
  | (neg, s) =>
      match ParseUint_loop 0 s with
      | inr err => inr err
      | inl un =>
          if neg : bool then if un <=? 2 ^ 63 then inl (- un) else inr ErrRange
          else if un <? 2 ^ 63 then inl un else inr ErrRange
      end
  end.

(** big.Int.SetString in base 10. *)
Fixpoint dec_value (n : Z) (s : bytes) : option Z :=
  match s with
  | [] => Some n
  | b :: s => match digit_value b with None => None | Some d => dec_value (n * 10 + d) s end
  end.

Definition big_SetString (s : bytes) : option Z :=
  match split_sign s with
  | (_, []) => None
  | (neg, s) => n ← dec_value 0 s; Some (if neg : bool then - n else n)
  end.

Lemma digit_value_range b d : digit_value b = Some d -> 0 <= d <= 9.
Proof. unfold digit_value. case_match eqn:E; [|done]. apply andb_true_iff in E as [?%Z.leb_le ?%Z.leb_le]. intros [= <-]. lia. Qed.

Definition not_digit (c : ascii) : Prop := digit_value (Ascii.byte_of_ascii c) = None.

(** ** types/rational.go *)

Definition not_a_decimal : sdkError := ErrUnknownRequest "not a decimal string".

(** The digits of a decimal and the denominator they are over, or an error. *)
Definition decimal_parts (str : list string) (prec : Z) : (string * Z) + sdkError :=
  match str with
  | [whole] => if (String.length whole =? 0)%nat then inr not_a_decimal else inl (whole, 1)
  | [whole; frac] =>
      if (String.length whole =? 0)%nat || (String.length frac =? 0)%nat then inr not_a_decimal
      else if prec <? Z.of_nat (String.length frac) then inr (ErrUnknownRequest "string has too many decimals")
      else inl ((whole ++ frac)%string, big_Int64 (10 ^ Z.of_nat (String.length frac)))
  | _ => inr not_a_decimal
  end.

Definition NewRatFromDecimal (decimalStr : string) (prec : Z) : outcome (Rat.Rat + sdkError) :=
  match decimalStr with
  | EmptyString => Panicked (RuntimeError "index out of range")
  | String c rest =>
      let neg := Ascii.eqb c "-"%char in
      let str := Split "."%char (if neg then rest else decimalStr) in
      match decimal_parts str prec with
      | inr err => Ok (inr err)
      | inl (numStr, denom) =>
          match strconv_Atoi (string_bytes numStr) with
          | inr ErrRange =>
              match big_SetString (string_bytes numStr) with
              | None => Ok (inr not_a_decimal)
              | Some numBig =>
                  r ← Rat.NewRatFromBigInt (if neg then - numBig else numBig) [denom]; Ok (inl r)
              end
          | inr ErrSyntax => Ok (inr not_a_decimal)
          | inl num => r ← Rat.NewRat (if neg then wrap64 (num * -1) else num) [denom]; Ok (inl r)
          end
      end
  end.

Definition dec_of (s : string) (prec : Z) : option Rat.Rat :=
  match NewRatFromDecimal s prec with Ok (inl r) => Some r | _ => None end.

(** The cases of TestNewFromDecimal, with a precision of 4. *)
Example decimal_cases :
  map (fun s => dec_of s 4) ["0"; "1"; "1.1"; "0.75"; "0.8"; "0.11111"; "628240629832763.5738930323617075341";
    "621947210595948537540277652521.5738930323617075341"; "628240629832763.5738";
    "621947210595948537540277652521.5738"; "."; ".0"; "1."; "foobar"; "0.foobar"; "0.foobar."] =
  [Some 0%Q; Some 1%Q; Some (11 # 10)%Q; Some (3 # 4)%Q; Some (4 # 5)%Q; None; None; None;
   Some (3141203149163817869 # 5000)%Q; Some (3109736052979742687701388262607869 # 5000)%Q;
   None; None; None; None; None; None].
Proof. vm_compute. reflexivity. Qed.

(** *** Digits *)

Lemma dec_value_mono s n v : 0 <= n -> dec_value n s = Some v -> n <= v.
Proof.
  revert n. induction s as [|b s IH]; intros n Hn; simpl; [intros [= ->]; lia|].
  destruct (digit_value b) as [d|] eqn:Hd; [|done]. intros Hv. apply digit_value_range in Hd.
  apply IH in Hv; [|lia]. lia.
Qed.

Lemma dec_value_app n s t : dec_value n (s ++ t) = (m ← dec_value n s; dec_value m t).
Proof. revert n. induction s as [|b s IH]; intros n; simpl; [done|]. by destruct (digit_value b). Qed.

Lemma dec_value_shift s n v : dec_value 0 s = Some v -> dec_value n s = Some (n * 10 ^ Z.of_nat (length s) + v).
Proof.
  revert n v. induction s as [|b s IH] using rev_ind; intros n v.
  { simpl. intros [= <-]. f_equal. lia. }
  rewrite !dec_value_app, length_app. destruct (dec_value 0 s) as [m|] eqn:Hm; [|done].
  rewrite (IH n m) by done. simpl. destruct (digit_value b) as [d|]; [|done]. intros [= <-]. f_equal.
  rewrite Nat.add_1_r, Nat2Z.inj_succ, Z.pow_succ_r by lia. lia.
Qed.

Lemma ParseUint_loop_value s n v :
  0 <= n < 2 ^ 64 -> dec_value n s = Some v -> ParseUint_loop n s = if v <? 2 ^ 64 then inl v else inr ErrRange.
Proof.
  revert n. induction s as [|b s IH]; intros n Hn; simpl.
  { intros [= <-]. by rewrite (proj2 (Z.ltb_lt _ _)) by lia. }
  destruct (digit_value b) as [d|] eqn:Hd; [|done]. intros Hv. apply digit_value_range in Hd.
  pose proof (dec_value_mono s (n * 10 + d) v ltac:(lia) Hv) as Hm.
  destruct (Z.ltb_spec (n * 10 + d) (2 ^ 64)).
  - apply IH; [lia|done].
  - by rewrite (proj2 (Z.ltb_ge _ _)) by lia.
Qed.

Lemma split_sign_digits s v : s <> [] -> dec_value 0 s = Some v -> split_sign s = (false, s).
Proof. destruct s as [|b s]; [done|]. intros _. by destruct b. Qed.

Lemma strconv_Atoi_digits s v :
  s <> [] -> dec_value 0 s = Some v -> strconv_Atoi s = if v <? 2 ^ 63 then inl v else inr ErrRange.
Proof.
  intros Hs Hv. unfold strconv_Atoi. rewrite (split_sign_digits s v) by done.
  rewrite (ParseUint_loop_value s 0 v) by done. destruct s as [|b s]; [done|].
  destruct (Z.ltb_spec v (2 ^ 64)), (Z.ltb_spec v (2 ^ 63)); done || lia.
Qed.

Lemma big_SetString_digits s v : s <> [] -> dec_value 0 s = Some v -> big_SetString s = Some v.
Proof.
  intros Hs Hv. unfold big_SetString. rewrite (split_sign_digits s v), Hv by done. by destruct s.
Qed.

Lemma digits_without c s v : not_digit c -> dec_value 0 (string_bytes s) = Some v -> without c s.
Proof.
  intros Hc. generalize 0. unfold without. induction s as [|x s IH]; intros n; [intros _; apply not_elem_of_nil|].
  rewrite string_bytes_String. simpl. destruct (digit_value (Ascii.byte_of_ascii x)) as [d|] eqn:Hd; [|done].
  intros Hv. apply not_elem_of_cons. split; [|by eapply IH]. intros ->. unfold not_digit in Hc. by rewrite Hd in Hc.
Qed.

(** *** Decimals *)

Lemma big_SetFrac_pos a b : 0 < b -> Rat.big_SetFrac a b = Ok (Qred (a # Z.to_pos b)).
Proof. by destruct b. Qed.

(** What is made of digits over a denominator. *)
Definition signed (neg : bool) (v : Z) : Z := if neg then - v else v.

Lemma decimal_text (neg : bool) body numStr denom prec v :
  body <> "" -> (neg = false -> forall s, body <> String "-" s) -> 0 < denom ->
  decimal_parts (Split "."%char body) prec = inl (numStr, denom) ->
  numStr <> "" -> dec_value 0 (string_bytes numStr) = Some v ->
  NewRatFromDecimal (if neg then String "-" body else body) prec = Ok (inl (Qred (signed neg v # Z.to_pos denom))).
Proof.
  intros Hb Hneg Hd Hp Hn Hv.
  assert (Hs : string_bytes numStr <> []) by (destruct numStr; [done|by rewrite string_bytes_String]).
  assert (H0 : 0 <= v) by (by eapply (dec_value_mono _ 0)).
  assert (Htail : forall neg' : bool,
    match strconv_Atoi (string_bytes numStr) with
    | inr ErrRange =>
        match big_SetString (string_bytes numStr) with
        | None => Ok (inr not_a_decimal)
        | Some numBig => r ← Rat.NewRatFromBigInt (if neg' then - numBig else numBig) [denom]; Ok (inl r)
        end
    | inr ErrSyntax => Ok (inr not_a_decimal)
    | inl num => r ← Rat.NewRat (if neg' then wrap64 (num * -1) else num) [denom]; Ok (inl r)
    end = Ok (inl (Qred (signed neg' v # Z.to_pos denom)) : Rat.Rat + sdkError)).
  { intros neg'. rewrite (strconv_Atoi_digits _ v), (big_SetString_digits _ v) by done.
    unfold Rat.NewRatFromBigInt, Rat.NewRat. destruct (Z.ltb_spec v (2 ^ 63)) as [Hlt|_].
    - rewrite big_SetFrac_pos by done. unfold signed. destruct neg'; [|done].
      replace (v * -1) with (- v) by lia. by rewrite wrap64_id by (unfold is_int64, min_int64, max_int64; lia).
    - by rewrite big_SetFrac_pos. }
  unfold NewRatFromDecimal. destruct neg.
  - rewrite Ascii.eqb_refl, Hp. apply (Htail true).
  - destruct body as [|c body]; [done|]. destruct (Ascii.eqb_spec c "-"%char) as [->|_]; [by destruct (Hneg eq_refl body)|].
    rewrite Hp. apply (Htail false).
Qed.

Lemma digits_no_sign s v body : s <> "" -> dec_value 0 (string_bytes s) = Some v -> forall t, (s ++ body)%string <> String "-" t.
Proof.
  intros Hs Hv t. destruct s as [|c s]; [done|]. intros [= -> _]. by rewrite string_bytes_String in Hv.
Qed.

(** A decimal is read as the number it stands for, whatever its size. *)
Theorem NewRatFromDecimal_value (neg : bool) a b va vb prec :
  a <> "" -> b <> "" -> dec_value 0 (string_bytes a) = Some va -> dec_value 0 (string_bytes b) = Some vb ->
  Z.of_nat (String.length b) <= prec -> (String.length b <= 18)%nat ->
  exists q, NewRatFromDecimal ((if neg then "-" else "") ++ a ++ "." ++ b) prec = Ok (inl q) /\ Rat.is_norm q /\
    (q == inject_Z (signed neg 1) * (inject_Z va + (vb # Z.to_pos (10 ^ Z.of_nat (String.length b)))))%Q.
Proof.
  intros Ha Hb Hva Hvb Hp H18. set (k := String.length b) in *.
  assert (Hd : 0 < 10 ^ Z.of_nat k) by (apply Z.pow_pos_nonneg; lia).
  assert (Hv : dec_value 0 (string_bytes (a ++ b)%string) = Some (va * 10 ^ Z.of_nat k + vb)).
  { rewrite string_bytes_app, dec_value_app, Hva. simpl. rewrite (dec_value_shift _ _ vb) by done. by rewrite string_bytes_length. }
  assert (E : ((if neg then "-" else "") ++ a ++ "." ++ b)%string = if neg then String "-" (a ++ "." ++ b) else (a ++ "." ++ b)%string)
    by by destruct neg.
  rewrite E, (decimal_text neg _ (a ++ b) (10 ^ Z.of_nat k) prec (va * 10 ^ Z.of_nat k + vb)); [|by destruct a|..|done].
  - eexists. split; [done|]. split; [apply Rat.is_norm_Qred|]. rewrite Qred_correct.
    unfold Qeq, Qmult, Qplus, inject_Z, signed. cbn [Qnum Qden]. rewrite ?Pos.mul_1_l, Z2Pos.id by done. destruct neg; lia.
  - intros _. by eapply digits_no_sign.
  - done.
  - change ("." ++ b)%string with (String "." b). rewrite Split_app, Split_last by (by eapply digits_without). unfold decimal_parts.
    rewrite !(proj2 (Nat.eqb_neq _ _)) by (by destruct a, b). simpl. fold k.
    rewrite (proj2 (Z.ltb_ge _ _)) by done. unfold big_Int64. rewrite wrap64_id; [done|].
    pose proof (Z.pow_le_mono_r 10 (Z.of_nat k) 18). unfold is_int64, min_int64, max_int64. lia.
  - by destruct a.
Qed.

(** Without a fraction. *)
Lemma NewRatFromDecimal_whole (neg : bool) a va prec :
  a <> "" -> dec_value 0 (string_bytes a) = Some va ->
  NewRatFromDecimal ((if neg then "-" else "") ++ a) prec = Ok (inl (signed neg va # 1)%Q).
Proof.
  intros Ha Hva. replace ((if neg then "-" else "") ++ a)%string with (if neg then String "-" a else a) by by destruct neg.
  rewrite (decimal_text neg a a 1 prec va); [|done|..|done].
  - change (Z.to_pos 1) with 1%positive. apply (f_equal (fun q => Ok (inl q))).
    unfold Qred. pose proof (Z.ggcd_gcd (signed neg va) 1). pose proof (Z.ggcd_correct_divisors (signed neg va) 1).
    destruct (Z.ggcd _ _) as [g [x y]]. simpl in *. rewrite Z.gcd_1_r in *. subst g. destruct H0. f_equal; lia.
  - intros _ s ->. by rewrite string_bytes_String in Hva.
  - done.
  - rewrite Split_last by (by eapply digits_without). unfold decimal_parts.
    by rewrite (proj2 (Nat.eqb_neq _ _)) by (by destruct a).
  - done.
Qed.

(** A second sign is accepted, and the smallest int64 after a minus stays
    negative; past 18 decimals the denominator wraps around. *)
Example decimal_oddities :
  map (fun s => dec_of s 4) ["+5"; "--5"; "-+1.5"; "--9223372036854775808"; "-"] =
    [Some 5%Q; Some 5%Q; Some (-3 # 2)%Q; Some (-9223372036854775808 # 1)%Q; None] /\
  dec_of "1.0000000000000000000" 19 = Some (-19073486328125 # 16110885760707)%Q /\
  NewRatFromDecimal "" 4 = Panicked (RuntimeError "index out of range").
Proof. vm_compute. done. Qed.

(** ** types/int.go: the text of integers *)

(** A digit in a base up to 36. *)
Definition base_digit (base : Z) (b : byte) : option Z :=
  let n := Z.of_N (Byte.to_N b) in
  let v := if (48 <=? n) && (n <=? 57) then n - 48
           else if (97 <=? n) && (n <=? 122) then n - 87
           else if (65 <=? n) && (n <=? 90) then n - 55 else base in
  if v <? base then Some v else None.

Fixpoint base_value (base n : Z) (s : bytes) : option Z :=
  match s with
  | [] => Some n
  | b :: s => match base_digit base b with None => None | Some d => base_value base (n * base + d) s end
  end.

(** Base 0: the prefix says which base a number is written in (the prefixes of
    Go 1.10, without 0o and underscores). *)
Definition base0_value (s : bytes) : option Z :=
  match s with
  | [] | [x30; x78] | [x30; x58] | [x30; x62] | [x30; x42] => None
  | x30 :: x78 :: s | x30 :: x58 :: s => base_value 16 0 s
  | x30 :: x62 :: s | x30 :: x42 :: s => base_value 2 0 s
  | x30 :: ((_ :: _) as s) => base_value 8 0 s
  | s => base_value 10 0 s
  end.

(** big.Int.SetString in base 0, which UnmarshalText is too. *)
Definition newIntegerFromString (s : string) : option Z :=
  let '(neg, s) := split_sign (string_bytes s) in
  n ← base0_value s; Some (if neg : bool then - n else n).

Definition marshalAmino (i : Z) : string := pretty i.
Definition unmarshalAmino (text : string) : option Z := newIntegerFromString text.

Definition NewIntFromString (s : string) : option Int.Int :=
  i ← newIntegerFromString s; if 255 <? BitLen i then None else Some i.
Definition NewUintFromString (s : string) : option Uint.Uint :=
  i ← newIntegerFromString s;
  if (Z.sgn i =? -1) || (Z.sgn i =? 1) && (256 <? BitLen i) then None else Some i.

Definition Int_String (i : Int.Int) : string := pretty i.
Definition Int_MarshalAmino (i : Int.Int) : string := marshalAmino i.
Definition Int_UnmarshalAmino (text : string) : option Int.Int := unmarshalAmino text.
Definition Uint_MarshalAmino (i : Uint.Uint) : string := marshalAmino i.
Definition Uint_UnmarshalAmino (text : string) : option Uint.Uint := unmarshalAmino text.

Example int_texts :
  map newIntegerFromString ["0"; "-0"; "017"; "0x1F"; "-0b101"; "09"; "0x"; ""; "+7"; "--7"; "1_000"] =
  [Some 0; Some 0; Some 15; Some 31; Some (-5); None; None; None; Some 7; None; None].
Proof. vm_compute. done. Qed.

(** *** What is printed is read back *)

Lemma parse_digits_dec limit s acc v : parse_digits limit acc s = Some v -> dec_value acc s = Some v.
Proof.
  revert acc. induction s as [|b s IH]; intros acc; simpl; [done|]. destruct (digit_value b); [|done].
  destruct (_ <? _); [apply IH|done].
Qed.

Lemma dec_value_pretty z : 0 <= z -> pretty z <> "" /\ dec_value 0 (string_bytes (pretty z)) = Some z.
Proof.
  intros Hz. replace (pretty z) with (pretty (Z.to_N z)) by by destruct z.
  pose proof (ParseUint_pretty (Z.of_N (Z.to_N z) + 1) (Z.to_N z) ltac:(lia)) as Hp. unfold ParseUint in Hp.
  destruct (pretty (Z.to_N z)) as [|c s]; [done|]. split; [done|]. rewrite string_bytes_String in *.
  apply parse_digits_dec in Hp. by rewrite Z2N.id in Hp.
Qed.

Lemma pretty_N_go_head x s : (0 < x)%N -> exists c t, pretty_N_go x s = String c t /\ c <> "0"%char.
Proof.
  revert s. induction (N.lt_wf_0 x) as [x _ IH]. intros s Hx. rewrite pretty_N_go_step by done.
  destruct (decide (0 < x `div` 10)%N) as [Hd|Hd].
  - apply IH; [apply N.div_lt; lia|done].
  - assert (Hq : (x `div` 10 = 0)%N) by (apply N.le_0_r, N.nlt_ge, Hd). rewrite Hq, pretty_N_go_0.
    apply N.div_small_iff in Hq as Hx10; [|done]. rewrite N.mod_small by done. exists (pretty_N_char x), s. split; [done|].
    destruct (decide (x = 1 \/ x = 2 \/ x = 3 \/ x = 4 \/ x = 5 \/ x = 6 \/ x = 7 \/ x = 8 \/ x = 9)%N) as [Hc|]; [|lia].
    by destruct_or! Hc; subst x.
Qed.

Lemma pretty_head z : 0 < z -> exists c t, pretty z = String c t /\ c <> "0"%char.
Proof.
  intros Hz. destruct z as [|p|p]; [lia| |lia]. change (pretty (Zpos p)) with (pretty_N_go (N.pos p) "").
  by apply pretty_N_go_head.
Qed.

Lemma base_digit_10 b : base_digit 10 b = digit_value b.
Proof. by destruct b. Qed.

Lemma base_value_10 n s : base_value 10 n s = dec_value n s.
Proof. revert n. induction s as [|b s IH]; intros n; [done|]. simpl. rewrite base_digit_10. destruct (digit_value b); [apply IH|done]. Qed.

Lemma base0_value_pretty z : 0 <= z -> base0_value (string_bytes (pretty z)) = Some z.
Proof.
  intros Hz. destruct (decide (z = 0)) as [->|Hne]; [done|]. destruct (dec_value_pretty z Hz) as [_ Hv].
  destruct (pretty_head z ltac:(lia)) as (c & t & E & Hc). rewrite E, string_bytes_String in *.
  rewrite <- base_value_10 in Hv. rewrite <- Hv. unfold base0_value.
  assert (Hb : Ascii.byte_of_ascii c <> x30).
  { intros Hb. apply Hc. rewrite <- (Ascii.ascii_of_byte_of_ascii c), Hb. done. }
  by destruct (Ascii.byte_of_ascii c).
Qed.

(** Every integer is read back from its text, in range or not. *)
Lemma amino_roundtrip i : unmarshalAmino (marshalAmino i) = Some i.
Proof.
  unfold unmarshalAmino, newIntegerFromString, marshalAmino. destruct (decide (0 <= i)) as [Hi|Hi].
  - destruct (dec_value_pretty i Hi) as [Hne Hv].
    rewrite (split_sign_digits _ i) by (done || by destruct (pretty i)). by rewrite base0_value_pretty.
  - destruct i as [|p|p]; try lia. change (pretty (Zneg p)) with (String "-" (pretty (Zpos p))).
    rewrite string_bytes_String. change (split_sign (Ascii.byte_of_ascii "-" :: ?s)) with (true, s). cbv iota.
    by rewrite base0_value_pretty.
Qed.

(** The constructors check the range, the decoders do not. *)
Theorem NewIntFromString_String i :
  NewIntFromString (Int_String i) = (if decide (Int.wf i) then Some i else None) /\
  Int_UnmarshalAmino (Int_MarshalAmino i) = Some i /\
  NewUintFromString (Uint_MarshalAmino i) = (if decide (Uint.wf i) then Some i else None) /\
  Uint_UnmarshalAmino (Uint_MarshalAmino i) = Some i.
Proof.
  split_and!; try apply amino_roundtrip.
  - unfold NewIntFromString. pose proof (amino_roundtrip i) as E. unfold unmarshalAmino, marshalAmino in E.
    unfold Int_String. rewrite E. simpl. destruct (Z.ltb_spec 255 (BitLen i)) as [H|H].
    + rewrite decide_False; [done|]. unfold Int.wf. apply BitLen_gt in H; lia.
    + rewrite decide_True; [done|]. unfold Int.wf. by apply BitLen_le in H.
  - unfold NewUintFromString. pose proof (amino_roundtrip i) as E. unfold unmarshalAmino in E.
    unfold Uint_MarshalAmino. rewrite E. simpl. destruct (Z.ltb_spec 256 (BitLen i)) as [H|H].
    + apply BitLen_gt in H; [|lia]. rewrite decide_False by (unfold Uint.wf; lia).
      destruct (Z.sgn_spec i) as [[? ->]|[[? ->]|[? ->]]]; simpl; done || lia.
    + apply BitLen_le in H; [|lia]. rewrite andb_false_r, orb_false_r.
      destruct (Z.sgn_spec i) as [[? ->]|[[? ->]|[? ->]]]; simpl;
        [rewrite decide_True by (unfold Uint.wf; lia)|rewrite decide_True by (unfold Uint.wf; lia)|rewrite decide_False by (unfold Uint.wf; lia)]; done.
Qed.

(** ** types/coin.go: parsing *)

(** The white space of Unicode, in UTF-8. *)
Definition space_runes : list bytes :=
  [[x09]; [x0a]; [x0b]; [x0c]; [x0d]; [x20]; [xc2; x85]; [xc2; xa0]; [xe1; x9a; x80]] ++
  map (fun b => [xe2; x80; b]) [x80; x81; x82; x83; x84; x85; x86; x87; x88; x89; x8a; xa8; xa9; xaf] ++
  [[xe2; x81; x9f]; [xe3; x80; x80]].

Definition has_prefix (p s : bytes) : bool := bool_decide (take (length p) s = p).

(** Each turn drops one rune at least a byte long. *)
Fixpoint TrimLeft_loop (fuel : nat) (runes : list bytes) (s : bytes) : bytes :=
  match fuel with
  | O => s
  | S fuel =>
      match List.find (fun r => has_prefix r s) runes with
      | None => s
      | Some r => TrimLeft_loop fuel runes (drop (length r) s)
      end
  end.

(** strings.TrimSpace *)
Definition TrimSpace_bytes (s : bytes) : bytes :=
  let s := TrimLeft_loop (length s) space_runes s in
  reverse (TrimLeft_loop (length s) (map reverse space_runes) (reverse s)).

Definition TrimSpace (s : string) : string := string_of_list_byte (TrimSpace_bytes (string_bytes s)).

(** The character classes of the expressions. *)
Definition in_range (lo hi : N) (c : ascii) : bool := (lo <=? N_of_ascii c)%N && (N_of_ascii c <=? hi)%N.
Definition is_digit : ascii -> bool := in_range 48 57.
Definition is_alpha (c : ascii) : bool := in_range 65 90 c || in_range 97 122 c.
Definition is_alnum (c : ascii) : bool := is_digit c || is_alpha c.
Definition is_space (c : ascii) : bool := in_range 9 13 c || in_range 32 32 c.

(** The longest front of characters of a class, and the rest. *)
Fixpoint span (p : ascii -> bool) (s : string) : string * string :=
  match s with
  | EmptyString => ("", "")
  | String c s' => if p c then let '(a, b) := span p s' in (String c a, b) else ("", s)
  end.

Definition all_chars (p : ascii -> bool) (s : string) : bool := forallb p (list_ascii_of_string s).

(** [[:alpha:]][[:alnum:]]{2,15} *)
Definition reDnm (s : string) : bool :=
  match s with
  | EmptyString => false
  | String c s => is_alpha c && all_chars is_alnum s && (2 <=? String.length s)%nat && (String.length s <=? 15)%nat
  end.

(** reCoin.FindStringSubmatch: digits, spaces and letters exclude each other, so
    there is one way to match. *)
Definition reCoin (s : string) : option (string * string) :=
  let '(amountStr, rest) := span is_digit s in
  let '(_, denomStr) := span is_space rest in
  if negb (String.length amountStr =? 0)%nat && reDnm denomStr then Some (amountStr, denomStr) else None.

Inductive ParseError :=
  | InvalidCoinExpression (coinStr : string)
  | AtoiError (err : NumError)
  | ParseCoinsInvalid (coins : Coins).

Definition ParseCoin (coinStr : string) : Coin + ParseError :=
  let coinStr := TrimSpace coinStr in
  match reCoin coinStr with
  | None => inr (InvalidCoinExpression coinStr)
  | Some (amountStr, denomStr) =>
      match strconv_Atoi (string_bytes amountStr) with
      | inr err => inr (AtoiError err)
      | inl amount => inl (mk_Coin denomStr (Int.NewInt amount))
      end
  end.

Definition denom_le (a b : Coin) : Prop := ~ string_lt (Denom b) (Denom a).
#[export] Instance denom_le_dec : RelDecision denom_le.
Proof. intros a b. unfold denom_le. apply _. Defined.

(** sort.Sort over Len, Less and Swap.  It may exchange coins of the same
    denomination; a list with such coins is not valid. *)
Definition Sort (coins : Coins) : Coins := merge_sort denom_le coins.

Fixpoint ParseCoins_loop (coinStrs : list string) (coins : Coins) : Coins + ParseError :=
  match coinStrs with
  | [] => inl coins
  | coinStr :: coinStrs =>
      match ParseCoin coinStr with
      | inr err => inr err
      | inl coin => ParseCoins_loop coinStrs (coins ++ [coin])
      end
  end.

Definition ParseCoins (coinsStr : string) : Coins + ParseError :=
  let coinsStr := TrimSpace coinsStr in
  if (String.length coinsStr =? 0)%nat then inl []
  else match ParseCoins_loop (Split ","%char coinsStr) [] with
       | inr err => inr err
       | inl coins =>
           let coins := Sort coins in
           if negb (IsValid coins) then inr (ParseCoinsInvalid coins) else inl coins
       end.

(** The cases of TestParse. *)
Example parse_cases :
  map ParseCoins ["1foo"; "10bar"; "99bar,1foo"; "98 bar , 1 foo  ";
    ("  55" ++ String "009" (" " ++ String "009" (" bling" ++ String "010" "")))%string; "2foo, 97 bar"] =
  map inl [[mk_Coin "foo" 1]; [mk_Coin "bar" 10]; [mk_Coin "bar" 99; mk_Coin "foo" 1]; [mk_Coin "bar" 98; mk_Coin "foo" 1];
    [mk_Coin "bling" 55]; [mk_Coin "bar" 97; mk_Coin "foo" 2]] /\
  ParseCoins "" = inl [] /\
  map ParseCoins ["5 mycoin,"; "2 3foo, 97 bar"; "11me coin, 12you coin"; "1.2btc"; "5foo-bar"] =
  map (fun s => inr (InvalidCoinExpression s)) [""; "2 3foo"; "11me coin"; "1.2btc"; "5foo-bar"].
Proof. vm_compute. done. Qed.

(** *** Classes of characters *)

Lemma append_assoc (a b c : string) : (a ++ b ++ c)%string = ((a ++ b) ++ c)%string.
Proof. induction a as [|x a IH]; [done|]. apply (f_equal (String x)), IH. Qed.

Lemma append_nil_r (a : string) : (a ++ "")%string = a.
Proof. induction a as [|x a IH]; [done|]. apply (f_equal (String x)), IH. Qed.

Ltac by_chars c := destruct c as [[] [] [] [] [] [] [] []]; vm_compute; done.

Lemma alpha_not_digit c : is_alpha c = true -> is_digit c = false.
Proof. by_chars c. Qed.
Lemma alpha_not_space c : is_alpha c = true -> is_space c = false.
Proof. by_chars c. Qed.
Lemma digit_is_digit c : is_digit c = true <-> digit_value (Ascii.byte_of_ascii c) <> None.
Proof. by_chars c. Qed.

(** No rune of the list starts with the byte. *)
Definition starts_none (runes : list bytes) (b : byte) : bool :=
  forallb (fun r => match r with [] => false | c :: _ => negb (Byte.eqb c b) end) runes.

Lemma alnum_starts_none c : is_alnum c = true ->
  starts_none space_runes (Ascii.byte_of_ascii c) = true /\ starts_none (map reverse space_runes) (Ascii.byte_of_ascii c) = true.
Proof. by_chars c. Qed.

Lemma TrimLeft_id runes b t n : starts_none runes b = true -> TrimLeft_loop n runes (b :: t) = b :: t.
Proof.
  intros H. destruct n as [|n]; [done|]. simpl. replace (List.find _ runes) with (@None bytes); [done|].
  induction runes as [|[|c r] runes IH]; simpl in *; [done..|]. apply andb_true_iff in H as [Hc H].
  unfold has_prefix at 1. simpl. rewrite bool_decide_false; [by apply IH|].
  intros [= -> _]. by rewrite (Byte.byte_dec_lb eq_refl) in Hc.
Qed.

(** Texts that begin and end with a letter or a digit are not trimmed. *)
Definition alnum_ends (s : string) : Prop :=
  (exists c t, s = String c t /\ is_alnum c = true) /\ (exists t d, s = (t ++ String d "")%string /\ is_alnum d = true).

Lemma TrimSpace_id s : alnum_ends s -> TrimSpace s = s.
Proof.
  intros [(c & t & E & Hc) (u & d & E' & Hd)]. unfold TrimSpace, TrimSpace_bytes.
  apply alnum_starts_none in Hc as [Hc _], Hd as [_ Hd].
  assert (E1 : TrimLeft_loop (length (string_bytes s)) space_runes (string_bytes s) = string_bytes s).
  { rewrite E at 2 3. rewrite string_bytes_String. by apply TrimLeft_id. }
  rewrite E1. assert (E2 : reverse (string_bytes s) = Ascii.byte_of_ascii d :: reverse (string_bytes u)).
  { by rewrite E', string_bytes_app, reverse_app, string_bytes_String. }
  rewrite E2, TrimLeft_id, <- E2, reverse_involutive by done. apply string_of_list_byte_of_string.
Qed.

Lemma span_app p a c r : all_chars p a = true -> p c = false -> span p (a ++ String c r) = (a, String c r).
Proof.
  intros Ha Hc. induction a as [|x a IH]; simpl; [by rewrite Hc|].
  apply andb_true_iff in Ha as [Hx Ha]. by rewrite Hx, (IH Ha).
Qed.

Lemma span_all p s : let '(a, b) := span p s in s = (a ++ b)%string /\ all_chars p a = true.
Proof.
  induction s as [|c s IH]; simpl; [done|]. destruct (p c) eqn:Hc; [|done]. destruct (span p s) as [a b].
  destruct IH as [-> Ha]. split; [done|]. unfold all_chars. simpl. by rewrite Hc.
Qed.

Lemma all_digits_value s v n : dec_value n (string_bytes s) = Some v -> all_chars is_digit s = true.
Proof.
  unfold all_chars. revert n. induction s as [|c s IH]; intros n; [done|]. rewrite string_bytes_String. simpl.
  destruct (digit_value (Ascii.byte_of_ascii c)) as [d|] eqn:Hd; [|done]. intros Hv.
  rewrite (proj2 (digit_is_digit c)) by (by rewrite Hd). by eapply IH.
Qed.

Lemma all_digits_dec s n : all_chars is_digit s = true -> exists v, dec_value n (string_bytes s) = Some v.
Proof.
  unfold all_chars. revert n. induction s as [|c s IH]; intros n Hs; [by exists n|].
  apply andb_true_iff in Hs as [Hc Hs]. apply digit_is_digit in Hc. rewrite string_bytes_String. simpl.
  destruct (digit_value (Ascii.byte_of_ascii c)) as [d|]; [|done]. by apply IH.
Qed.

(** *** Coins *)

(** The coins a text can stand for. *)
Definition parseable (c : Coin) : Prop := reDnm (Denom c) = true /\ 0 <= Amount c < 2 ^ 63.

Lemma reDnm_cons s : reDnm s = true -> exists c t, s = String c t /\ is_alpha c = true /\ all_chars is_alnum t = true /\ t <> "".
Proof.
  destruct s as [|c t]; [done|]. simpl. rewrite !andb_true_iff. intros [[[Hc Ht] Hl] _]. exists c, t.
  split_and!; try done. by destruct t.
Qed.

Lemma reCoin_text amount denom v :
  amount <> "" -> dec_value 0 (string_bytes amount) = Some v -> reDnm denom = true ->
  reCoin (amount ++ denom) = Some (amount, denom).
Proof.
  intros Ha Hv Hd. destruct (reDnm_cons _ Hd) as (c & t & -> & Hc & _). unfold reCoin.
  rewrite (span_app _ amount) by (eauto using all_digits_value, alpha_not_digit). cbn [span].
  rewrite (alpha_not_space c Hc), Hd. by destruct amount.
Qed.

Lemma reCoin_inv s amount denom :
  reCoin s = Some (amount, denom) -> amount <> "" /\ all_chars is_digit amount = true /\ reDnm denom = true.
Proof.
  unfold reCoin. pose proof (span_all is_digit s) as H. destruct (span is_digit s) as [a r].
  destruct (span is_space r) as [b d]. destruct H as [_ Ha]. destruct (negb _ && reDnm d) eqn:E; [|done].
  intros [= <- <-]. apply andb_true_iff in E as [Hn Hd]. split_and!; try done. by destruct a.
Qed.

Lemma ParseCoin_parseable s c : ParseCoin s = inl c -> parseable c.
Proof.
  unfold ParseCoin. destruct (reCoin _) as [[amount denom]|] eqn:E; [|done].
  apply reCoin_inv in E as (Ha & Hs & Hd). destruct (all_digits_dec _ 0 Hs) as [v Hv].
  rewrite (strconv_Atoi_digits _ v) by (done || by destruct amount).
  destruct (Z.ltb_spec v (2 ^ 63)) as [Hlt|]; [|done]. intros [= <-]. split; [done|].
  pose proof (dec_value_mono (string_bytes amount) 0 v ltac:(lia) Hv). done.
Qed.

Lemma last_char p s : s <> "" -> all_chars p s = true -> exists t d, s = (t ++ String d "")%string /\ p d = true.
Proof.
  unfold all_chars. induction s as [|c s IH]; [done|]. intros _ H. apply andb_true_iff in H as [Hc H].
  destruct s as [|c' s]; [by exists "", c|]. destruct (IH ltac:(done) H) as (t & d & E & Hd).
  exists (String c t), d. by rewrite E.
Qed.

Lemma Coin_String_ends c : parseable c -> alnum_ends (Coin_String c).
Proof.
  intros [Hd [H0 _]]. destruct (dec_value_pretty _ H0) as [Hn Hv]. unfold Coin_String. split.
  - pose proof (all_digits_value _ _ _ Hv) as Hs. destruct (pretty (Amount c)) as [|x s]; [done|].
    unfold all_chars in Hs. apply andb_true_iff in Hs as [Hx _]. exists x, (s ++ Denom c)%string. split; [done|].
    unfold is_alnum. by rewrite Hx.
  - destruct (reDnm_cons _ Hd) as (x & t & -> & _ & Ht & Hne). destruct (last_char _ _ Hne Ht) as (u & d & -> & Hu).
    exists (pretty (Amount c) ++ String x u)%string, d. split; [|done]. apply (append_assoc (pretty (Amount c)) (String x u) (String d "")).
Qed.

Lemma ParseCoin_String c : parseable c -> ParseCoin (Coin_String c) = inl c.
Proof.
  intros Hp. unfold ParseCoin. rewrite TrimSpace_id by by apply Coin_String_ends.
  destruct Hp as [Hd [H0 H1]]. destruct (dec_value_pretty _ H0) as [Hn Hv]. unfold Coin_String.
  rewrite (reCoin_text _ _ (Amount c)) by done.
  rewrite (strconv_Atoi_digits _ (Amount c)) by (done || by destruct (pretty (Amount c))).
  rewrite (proj2 (Z.ltb_lt _ _)) by done. by destruct c.
Qed.

(** *** Lists of coins *)

Lemma String_loop_concat c cs out :
  String_loop (c :: cs) out = (out ++ String.concat "," (Coin_String <$> c :: cs) ++ ",")%string.
Proof.
  revert c out. induction cs as [|d cs IH]; intros c out; [done|].
  change (String_loop (c :: d :: cs) out) with (String_loop (d :: cs) (out ++ (Coin_String c ++ ",")))%string.
  rewrite IH. change (String.concat "," (Coin_String <$> c :: d :: cs)) with
    (Coin_String c ++ "," ++ String.concat "," (Coin_String <$> d :: cs))%string.
  by rewrite !append_assoc.
Qed.

Lemma substring_front a b : String.substring 0 (String.length a) (a ++ b) = a.
Proof. induction a as [|x a IH]; [by destruct b|]. apply (f_equal (String x)), IH. Qed.

Lemma append_length a b : String.length (a ++ b)%string = (String.length a + String.length b)%nat.
Proof. induction a as [|x a IH]; [done|]. apply (f_equal S), IH. Qed.

Lemma Coins_String_concat c cs : Coins_String (c :: cs) = String.concat "," (Coin_String <$> c :: cs).
Proof.
  unfold Coins_String. change ((length (c :: cs) =? 0)%nat) with false. cbv iota. rewrite String_loop_concat.
  change ("" ++ ?a)%string with a. rewrite append_length. simpl (String.length ",").
  rewrite Nat.add_sub. apply substring_front.
Qed.

Lemma Split_concat sep l : l <> [] -> Forall (without sep) l -> Split sep (String.concat (String sep "") l) = l.
Proof.
  intros Hl Hf. induction Hf as [|x l Hx Hf IH]; [done|]. destruct l as [|y l]; [by apply Split_last|].
  change (String.concat (String sep "") (x :: y :: l)) with (x ++ String sep (String.concat (String sep "") (y :: l)))%string.
  rewrite Split_app by done. by rewrite IH.
Qed.

Lemma without_app c a b : without c a -> without c b -> without c (a ++ b)%string.
Proof. unfold without. rewrite list_ascii_app, elem_of_app. tauto. Qed.

Lemma without_class p c s : p c = false -> all_chars p s = true -> without c s.
Proof.
  unfold all_chars, without. rewrite forallb_forall. intros Hc Hs Hin. apply list_elem_of_In, Hs in Hin. congruence.
Qed.

Lemma Coin_String_comma c : parseable c -> without ","%char (Coin_String c).
Proof.
  intros [Hd [H0 _]]. apply without_app; [apply (without_class is_digit); [done|]; eapply all_digits_value, dec_value_pretty, H0|].
  destruct (reDnm_cons _ Hd) as (x & t & -> & Hx & Ht & _). apply (without_class is_alnum); [done|].
  unfold all_chars in *. simpl. rewrite Ht. unfold is_alnum. by rewrite Hx, orb_true_r.
Qed.

Lemma concat_ends c cs : Forall parseable (c :: cs) -> alnum_ends (String.concat "," (Coin_String <$> c :: cs)).
Proof.
  revert c. induction cs as [|d cs IH]; intros c [Hc Hcs]%Forall_cons; [by apply Coin_String_ends|].
  change (String.concat "," (Coin_String <$> c :: d :: cs)) with
    (Coin_String c ++ "," ++ String.concat "," (Coin_String <$> d :: cs))%string.
  destruct (Coin_String_ends c Hc) as [(x & t & -> & Hx) _]. destruct (IH d Hcs) as [_ (u & e & -> & He)]. split.
  - by exists x, (t ++ "," ++ u ++ String e "")%string.
  - exists (String x t ++ "," ++ u)%string, e. by rewrite !append_assoc.
Qed.

Lemma ParseCoins_loop_strings cs acc :
  Forall parseable cs -> ParseCoins_loop (Coin_String <$> cs) acc = inl (acc ++ cs).
Proof.
  intros Hcs. revert acc. induction Hcs as [|c cs Hc _ IH]; intros acc; simpl; [by rewrite app_nil_r|].
  by rewrite ParseCoin_String, IH, <- app_assoc.
Qed.

Lemma ParseCoins_loop_parseable l acc cs :
  ParseCoins_loop l acc = inl cs -> Forall parseable acc -> Forall parseable cs.
Proof.
  revert acc. induction l as [|s l IH]; intros acc; simpl; [by intros [= ->]|].
  destruct (ParseCoin s) as [c|] eqn:E; [|done]. intros Hl Ha. eapply IH; [exact Hl|].
  apply Forall_app. split; [done|]. constructor; [by eapply ParseCoin_parseable|constructor].
Qed.

Lemma Sort_sorted cs cs' : sorted cs -> cs' ≡ₚ cs -> Sort cs' = cs.
Proof.
  intros Hs Hp. assert (Ht : forall a b : Coin, denom_le a b <-> string_lt (Denom a) (Denom b) \/ Denom a = Denom b).
  { intros a b. unfold denom_le. destruct (string_lt_total (Denom a) (Denom b)) as [H|[H|H]].
    - split; [by left|]. intros _ H'. apply (string_lt_irrefl (Denom a)). eauto with sdk.
    - split; [by right|]. intros _. rewrite H. apply string_lt_irrefl.
    - split; [done|]. intros [H'|H'] _; [apply (string_lt_irrefl (Denom a)); eauto with sdk|].
      rewrite H' in H. by apply string_lt_irrefl in H. }
  assert (Hinj : forall a b, a ∈ cs -> b ∈ cs -> Denom a = Denom b -> a = b).
  { intros a b Ha Hb E. pose proof (sorted_amt_elem a cs Hs Ha) as H1. pose proof (sorted_amt_elem b cs Hs Hb) as H2.
    destruct a, b. simpl in *. subst. congruence. }
  apply (StronglySorted_unique_strong denom_le).
  - intros a b Ha Hb. unfold Sort in Ha. rewrite merge_sort_Permutation, Hp in Ha. rewrite !Ht. intros [H1|H1] [H2|H2]; auto.
    exfalso. apply (string_lt_irrefl (Denom a)). eauto with sdk.
  - unfold Sort. apply StronglySorted_merge_sort.
    + intros a b c. rewrite !Ht. intros [H1|H1] [H2|H2].
      * left. eauto with sdk.
      * left. by rewrite <- H2.
      * left. by rewrite H1.
      * right. by rewrite H1.
    + intros a b. rewrite !Ht. destruct (string_lt_total (Denom a) (Denom b)) as [H|[H|H]]; auto.
  - clear Hp Hinj. induction Hs as [|a l Hl IH Ha]; constructor; [done|].
    eapply Forall_impl; [exact Ha|]. intros b H. apply Ht. by left.
  - unfold Sort. by rewrite merge_sort_Permutation.
Qed.

(** What printing a list of coins gives, in whatever order the coins are
    printed, is read back as the valid list of them. *)
Theorem ParseCoins_String coins coins' :
  IsValid coins = true -> Forall parseable coins -> coins' ≡ₚ coins ->
  ParseCoins (Coins_String coins') = inl coins.
Proof.
  intros Hv Hf Hp. assert (Hf' : Forall parseable coins') by by rewrite Hp.
  unfold ParseCoins. destruct coins' as [|c cs].
  { apply Permutation_nil in Hp as ->. done. }
  rewrite Coins_String_concat, TrimSpace_id by by apply concat_ends.
  destruct (concat_ends c cs Hf') as [(x & t & E & _) _]. rewrite E at 1. simpl (String.length _ =? 0)%nat. cbv iota.
  rewrite Split_concat; [|done|apply Forall_fmap; eapply Forall_impl; [exact Hf'|apply Coin_String_comma]].
  rewrite ParseCoins_loop_strings by done. rewrite (Sort_sorted coins); [|by apply IsValid_spec|done]. by rewrite Hv.
Qed.

(** C28: a text that ParseCoins accepts stands for a valid list of coins, each
    with a denomination of the allowed form and an amount that an int64 holds;
    and printing these coins in any order gives a text that is read as the same
    list. *)
Theorem ParseCoins_sound s coins :
  ParseCoins s = inl coins ->
  IsValid coins = true /\ Forall parseable coins /\
  forall coins', coins' ≡ₚ coins -> ParseCoins (Coins_String coins') = inl coins.
Proof.
  intros H. assert (Hs : IsValid coins = true /\ Forall parseable coins).
  { unfold ParseCoins in H. destruct (_ =? 0)%nat; [injection H as <-; done|].
    destruct (ParseCoins_loop _ _) as [cs|] eqn:E; [|done]. destruct (IsValid (Sort cs)) eqn:Hv; [|done].
    injection H as <-. split; [done|]. unfold Sort. rewrite merge_sort_Permutation.
    eapply ParseCoins_loop_parseable; [exact E|constructor]. }
  destruct Hs as [Hv Hf]. split_and!; [done..|]. intros coins' Hp. by apply ParseCoins_String.
Qed.

Lemma ParseCoins_sound_witness :
  ParseCoins "98 foo , 1 bar  " = inl [mk_Coin "bar" 1; mk_Coin "foo" 98] /\
  ParseCoins (Coins_String [mk_Coin "foo" 98; mk_Coin "bar" 1]) = inl [mk_Coin "bar" 1; mk_Coin "foo" 98].
Proof.
  split; [reflexivity|].
  apply (ParseCoins_sound "98 foo , 1 bar  " [mk_Coin "bar" 1; mk_Coin "foo" 98] eq_refl). constructor.
Defined.
