(* ===== verification/KVStore.v ===== *)
(** * types/store.go: the key-value store interface

    The methods of the Go interfaces [KVStore] and [Iterator] as one typeclass
    of operations, the laws a store promises to its clients as a second one,
    [PrefixEndBytes] with the prefix iterators built on it, and the
    specification store: a finite map that meets the laws, used as the
    abstract side of the refinement theorems and in the witnesses. *)
From Stdlib Require Import Strings.Byte Strings.String Sorting.Sorted.
From S2P Require Import Prelude.
#[local] Open Scope Z_scope.
#[local] Open Scope string_scope.
#[local] Open Scope list_scope.

(** ** Zooming: running an operation on a part of the state *)

Definition zoom {T S A} (get : T -> S) (put : S -> T -> T) (m : M S A) : M T A := fun t =>
  let '(r, s) := m (get t) in (r, put s t).

Lemma zoom_eq {T S A} (get : T -> S) put (m : M S A) t r s :
  m (get t) = (r, s) -> zoom get put m t = (r, put s t).
Proof. unfold zoom. by intros ->. Qed.

(** ** The interface

    An iterator is a value of its own; its methods take the store's state
    along with it, because a gas-metered store charges them to its meter. *)
Class KVStore (S : Type) := {
  Iter : Type;
  Get : slice -> M S slice;
  Has : slice -> M S bool;
  Set_ : slice -> slice -> M S unit;
  Delete : slice -> M S unit;
  Iterator : slice -> slice -> M S Iter;
  ReverseIterator : slice -> slice -> M S Iter;
  Valid : M (S * Iter) bool;
  Next : M (S * Iter) unit;
  Key : M (S * Iter) slice;
  Value : M (S * Iter) slice;
}.

(** ** Orders on keys, domains, ordered ranges *)

(** [bytes.Compare], negated when the iteration is descending. *)
Definition key_compare (ascending : bool) (a b : bytes) : comparison :=
  if ascending then bytes_compare a b else CompOpp (bytes_compare a b).
Definition key_lt (ascending : bool) (a b : bytes) : Prop := key_compare ascending a b = Lt.

#[export] Instance key_lt_dec asc a b : Decision (key_lt asc a b).
Proof. unfold key_lt. apply _. Defined.

Lemma key_lt_flip asc a b : key_lt asc a b <-> (if asc then bytes_lt a b else bytes_lt b a).
Proof.
  unfold key_lt, key_compare, bytes_lt. destruct asc; [done|].
  rewrite (bytes_compare_antisym a b). reflexivity.
Qed.

Lemma key_compare_eq asc a b : key_compare asc a b = Eq <-> a = b.
Proof.
  rewrite <- bytes_compare_eq. unfold key_compare.
  destruct asc, (bytes_compare a b); simpl; intuition congruence.
Qed.

Lemma key_compare_gt asc a b : key_compare asc a b = Gt <-> key_lt asc b a.
Proof.
  unfold key_lt, key_compare. rewrite (bytes_compare_antisym a b).
  destruct asc, (bytes_compare a b); simpl; intuition congruence.
Qed.

Lemma key_lt_trans asc a b c : key_lt asc a b -> key_lt asc b c -> key_lt asc a c.
Proof. rewrite !key_lt_flip. destruct asc; eauto with sdk. Qed.

Lemma key_lt_irrefl asc a : ~ key_lt asc a a.
Proof. rewrite key_lt_flip. destruct asc; apply bytes_lt_irrefl. Qed.

Lemma key_lt_total asc a b : key_lt asc a b \/ a = b \/ key_lt asc b a.
Proof. rewrite !key_lt_flip. destruct asc, (bytes_lt_total a b) as [?|[?|?]]; auto. Qed.

#[export] Hint Resolve key_lt_trans key_lt_irrefl : sdk.

(** The keys of a range: [start <= k < end], nil meaning unbounded. *)
Definition in_domain (start end_ : slice) (k : bytes) : Prop :=
  match start with None => True | Some s => bytes_le s k end /\
  match end_ with None => True | Some e => bytes_lt k e end.

#[export] Instance in_domain_dec start end_ k : Decision (in_domain start end_ k).
Proof. unfold in_domain. destruct start, end_; apply _. Defined.

(** "Start must be less than end"; a nil start is the least key. *)
Definition good_range (start end_ : slice) : Prop :=
  match end_ with Some e => bytes_lt (slice_bytes start) e | None => True end.

#[export] Instance good_range_dec start end_ : Decision (good_range start end_).
Proof. unfold good_range. destruct end_; apply _. Defined.

Definition keys_sorted {V} (asc : bool) (l : list (bytes * V)) : Prop :=
  StronglySorted (fun p q => key_lt asc p.1 q.1) l.

(** [is_range asc start end m l]: [l] lists the entries of [m] with a key in
    the domain, in (strict) key order. *)
Definition is_range (asc : bool) (start end_ : slice) (m : gmap bytes bytes)
    (l : list (bytes * bytes)) : Prop :=
  keys_sorted asc l /\
  forall k v, (k, v) ∈ l <-> m !! k = Some v /\ in_domain start end_ k.

(** ** Sorting a map's entries by key *)

Definition key_le {V} (asc : bool) (p q : bytes * V) : Prop := ~ key_lt asc q.1 p.1.
#[export] Instance key_le_dec {V} asc : RelDecision (@key_le V asc).
Proof. intros p q. unfold key_le, key_lt. apply _. Defined.

Definition sort_keys {V} (asc : bool) (l : list (bytes * V)) : list (bytes * V) :=
  merge_sort (key_le asc) l.

Lemma sort_keys_Permutation {V} asc (l : list (bytes * V)) : sort_keys asc l ≡ₚ l.
Proof. apply merge_sort_Permutation. Qed.

#[local] Instance key_le_trans V asc : Transitive (@key_le V asc).
Proof.
  unfold key_le. intros x y z H1 H2 H3.
  destruct (key_lt_total asc y.1 x.1) as [H|[H|H]]; [done|..].
  - rewrite H in H2. done.
  - apply H2. eauto with sdk.
Qed.

#[local] Instance key_le_total V asc : Total (@key_le V asc).
Proof.
  intros x y. unfold key_le.
  destruct (key_lt_total asc x.1 y.1) as [H|[H|H]].
  - left. intros H'. apply (key_lt_irrefl asc x.1). eauto with sdk.
  - left. rewrite H. apply key_lt_irrefl.
  - right. intros H'. apply (key_lt_irrefl asc x.1). eauto with sdk.
Qed.

Lemma StronglySorted_strict {V} asc (l : list (bytes * V)) :
  StronglySorted (key_le asc) l -> NoDup l.*1 -> keys_sorted asc l.
Proof.
  induction 1 as [|p l Hs IH Hf]; simpl; [constructor|].
  intros [Hp Hnd]%NoDup_cons. constructor; [by apply IH|].
  rewrite Forall_forall in *. intros q Hq. specialize (Hf q Hq). unfold key_le in Hf.
  destruct (key_lt_total asc p.1 q.1) as [H|[H|H]]; [done| |done].
  exfalso. apply Hp. rewrite H. apply (list_elem_of_fmap_2 fst l q Hq).
Qed.

Lemma sort_keys_sorted {V} asc (l : list (bytes * V)) :
  NoDup l.*1 -> keys_sorted asc (sort_keys asc l).
Proof.
  intros H. apply StronglySorted_strict.
  - apply StronglySorted_merge_sort; apply _.
  - by rewrite sort_keys_Permutation.
Qed.

Lemma keys_sorted_NoDup {V} asc (l : list (bytes * V)) : keys_sorted asc l -> NoDup l.*1.
Proof.
  induction 1 as [|p l Hs IH Hf]; simpl; constructor; [|done].
  intros (q & Hq1 & Hq2)%list_elem_of_fmap. rewrite Forall_forall in Hf.
  specialize (Hf q Hq2). rewrite Hq1 in Hf. by apply key_lt_irrefl in Hf.
Qed.

Lemma sublist_fmap {A B} (f : A -> B) (l k : list A) : sublist l k -> sublist (f <$> l) (f <$> k).
Proof. induction 1; simpl; by constructor. Qed.

(** The entries of a range, computed. *)
Definition range (asc : bool) (start end_ : slice) (m : gmap bytes bytes) : list (bytes * bytes) :=
  sort_keys asc (filter (fun p => in_domain start end_ p.1) (map_to_list m)).

Lemma range_spec asc start end_ m : is_range asc start end_ m (range asc start end_ m).
Proof.
  unfold range. split.
  - apply sort_keys_sorted. eapply sublist_NoDup; [apply (NoDup_fst_map_to_list m)|].
    by apply sublist_fmap, sublist_filter.
  - intros k v. rewrite sort_keys_Permutation, list_elem_of_filter, elem_of_map_to_list. simpl.
    tauto.
Qed.

(** Two lists of the same range are equal. *)
Lemma keys_sorted_ext {V} asc (l1 l2 : list (bytes * V)) :
  keys_sorted asc l1 -> keys_sorted asc l2 -> (forall p, p ∈ l1 <-> p ∈ l2) -> l1 = l2.
Proof.
  intros H1. revert l2. induction H1 as [|p l1 Hs IH Hf]; intros l2 H2 Heq.
  { destruct l2 as [|q l2]; [done|]. pose proof (proj2 (Heq q) (list_elem_of_here _ _)) as H. by inversion H. }
  inversion H2 as [|q l2' Hs2 Hf2]; subst.
  { pose proof (proj1 (Heq p) (list_elem_of_here _ _)) as H. by inversion H. }
  rewrite Forall_forall in Hf, Hf2.
  assert (Hpq : p = q).
  { pose proof (proj1 (Heq p) (list_elem_of_here _ _)) as [ -> |Hin]%elem_of_cons; [done|].
    pose proof (proj2 (Heq q) (list_elem_of_here _ _)) as [ -> |Hin']%elem_of_cons; [done|].
    exfalso. apply (key_lt_irrefl asc p.1). eauto with sdk. }
  subst q. f_equal. apply IH; [done|]. intros r. split; intros Hr.
  - pose proof (proj1 (Heq r) (list_elem_of_further _ _ _ Hr)) as [ -> |Hin]%elem_of_cons; [|done].
    by apply Hf, key_lt_irrefl in Hr.
  - pose proof (proj2 (Heq r) (list_elem_of_further _ _ _ Hr)) as [ -> |Hin]%elem_of_cons; [|done].
    by apply Hf2, key_lt_irrefl in Hr.
Qed.

Lemma is_range_unique asc start end_ m l1 l2 :
  is_range asc start end_ m l1 -> is_range asc start end_ m l2 -> l1 = l2.
Proof.
  intros [Hs1 H1] [Hs2 H2]. apply (keys_sorted_ext asc); [done..|].
  intros [k v]. by rewrite H1, H2.
Qed.

(** ** The laws

    [view s] is the finite map a store stands for.  Reads may change the
    store (a cache remembers what it read) but never its view. *)
Definition steps {S A} (m : M S A) (s : S) (a : A) (P : S -> Prop) : Prop :=
  exists s', m s = (Ok a, s') /\ P s'.

Class KVStoreLaws (S : Type) `{KVStore S} := {
  wf : S -> Prop;
  view : S -> gmap bytes bytes;
  iter_rep : bool -> Iter -> list (bytes * bytes) -> Prop;
  law_iter_sorted : forall asc it l, iter_rep asc it l -> keys_sorted asc l;
  law_Get : forall s k, wf s ->
    steps (Get (Some k)) s (view s !! k) (fun s' => wf s' /\ view s' = view s);
  law_Has : forall s k, wf s ->
    steps (Has (Some k)) s (bool_decide (is_Some (view s !! k)))
      (fun s' => wf s' /\ view s' = view s);
  law_Set : forall s k v, wf s ->
    steps (Set_ (Some k) (Some v)) s tt (fun s' => wf s' /\ view s' = <[k := v]> (view s));
  law_Delete : forall s k, wf s ->
    steps (Delete (Some k)) s tt (fun s' => wf s' /\ view s' = delete k (view s));
  law_Iterator : forall s start end_, wf s -> good_range start end_ ->
    exists it l, is_range true start end_ (view s) l /\ iter_rep true it l /\
    steps (Iterator start end_) s it (fun s' => wf s' /\ view s' = view s);
  law_Valid : forall s asc it l, wf s -> iter_rep asc it l ->
    steps Valid (s, it) (match l with [] => false | _ => true end)
      (fun '(s', it') => wf s' /\ view s' = view s /\ iter_rep asc it' l);
  law_Next : forall s asc it kv l, wf s -> iter_rep asc it (kv :: l) ->
    steps Next (s, it) tt (fun '(s', it') => wf s' /\ view s' = view s /\ iter_rep asc it' l);
  law_Key : forall s asc it k v l, wf s -> iter_rep asc it ((k, v) :: l) ->
    steps Key (s, it) (Some k)
      (fun '(s', it') => wf s' /\ view s' = view s /\ iter_rep asc it' ((k, v) :: l));
  law_Value : forall s asc it k v l, wf s -> iter_rep asc it ((k, v) :: l) ->
    steps Value (s, it) (Some v)
      (fun '(s', it') => wf s' /\ view s' = view s /\ iter_rep asc it' ((k, v) :: l));
}.

(** The law of ReverseIterator apart: not every store of the code keeps it. *)
Class KVStoreReverse (S : Type) `{KVStoreLaws S} : Prop :=
  law_ReverseIterator : forall s start end_, wf s -> good_range start end_ ->
    exists it l, is_range false start end_ (view s) l /\ iter_rep false it l /\
    steps (ReverseIterator start end_) s it (fun s' => wf s' /\ view s' = view s).

(** Two states that stand for the same map. *)
Definition same_view {S} `{KVStoreLaws S} (s s' : S) : Prop := view s = view s'.

#[export] Instance same_view_equiv {S} `{KVStoreLaws S} : Equivalence same_view.
Proof. split; unfold same_view; repeat intro; congruence. Qed.

(** ** The specification store *)

Abbreviation spec_store :=
  (@gmap bytes (@list_eq_dec Byte.byte byte_eq_dec) (@list_countable Byte.byte byte_eq_dec byte_countable) bytes).

Definition spec_guard {A} (k : slice) (f : bytes -> M spec_store A) : M spec_store A :=
  match k with None => panicM (PanicString "key is nil") | Some k => f k end.

Definition spec_head {A} (f : bytes * bytes -> A) : M (spec_store * list (bytes * bytes)) A :=
  fun st => match st.2 with
            | [] => (Panicked (PanicString "iterator is invalid"), st)
            | kv :: _ => (Ok (f kv), st)
            end.

#[export] Instance spec_KVStore : KVStore spec_store := {
  Iter := list (bytes * bytes);
  Get k := spec_guard k (fun k s => (Ok (s !! k), s));
  Has k := spec_guard k (fun k s => (Ok (bool_decide (is_Some (s !! k))), s));
  Set_ k v := spec_guard k (fun k s => (Ok tt, <[k := slice_bytes v]> s));
  Delete k := spec_guard k (fun k s => (Ok tt, delete k s));
  Iterator start end_ := fun s =>
    (Ok (if decide (good_range start end_) then range true start end_ s else []), s);
  ReverseIterator start end_ := fun s =>
    (Ok (if decide (good_range start end_) then range false start end_ s else []), s);
  Valid := fun st => (Ok (match st.2 with [] => false | _ => true end), st);
  Next := fun '(s, l) => match l with
                         | [] => (Panicked (PanicString "iterator is invalid"), (s, l))
                         | _ :: l' => (Ok tt, (s, l'))
                         end;
  Key := spec_head (fun kv => Some kv.1);
  Value := spec_head (fun kv => Some kv.2);
}.

#[export, refine] Instance spec_laws : KVStoreLaws spec_store := {
  wf _ := True;
  view s := s;
  iter_rep asc it l := it = l /\ keys_sorted asc l;
}.
Proof.
  - by intros ??? [].
  - by intros s k _; eexists.
  - by intros s k _; eexists.
  - by intros s k v _; eexists.
  - by intros s k _; eexists.
  - intros s start end_ _ Hg. exists (range true start end_ s), (range true start end_ s).
    split_and!; [apply range_spec|done|apply range_spec|].
    exists s. simpl. by rewrite decide_True.
  - intros s asc it l _ [ -> ?]. by eexists.
  - intros s asc it kv l _ [ -> Hs]. eexists. repeat split. by inversion Hs.
  - intros s asc it k v l _ [ -> ?]. by eexists.
  - intros s asc it k v l _ [ -> ?]. by eexists.
Defined.

#[export] Instance spec_reverse : KVStoreReverse spec_store.
Proof.
  intros s start end_ _ Hg. exists (range false start end_ s), (range false start end_ s).
  split_and!; [apply range_spec|split; [done|apply range_spec]|].
  exists s. simpl. by rewrite decide_True.
Qed.

(** ** PrefixEndBytes *)

(** [b + 1] on a byte. *)
Definition byte_succ (b : Byte.byte) : Byte.byte :=
  match Byte.of_N (N.succ (Byte.to_N b)) with Some c => c | None => Byte.x00 end.

(** The loop of PrefixEndBytes on [end]: increment the last byte that is not
    0xff, dropping the ones after it; indexing an empty [end] panics. *)
Fixpoint PrefixEndBytes_loop (fuel : nat) (end_ : bytes) : outcome slice :=
  match fuel with
  | O => Panicked (RuntimeError "out of fuel")
  | S fuel =>
      match last end_ with
      | None => Panicked (RuntimeError "index out of range")
      | Some b =>
          if decide (b <> Byte.xff) then Ok (Some (removelast end_ ++ [byte_succ b])%list)
          else
            let end_ := removelast end_ in
            if decide (slice_len (Some end_) = 0) then Ok None
            else PrefixEndBytes_loop fuel end_
      end
  end.

Definition PrefixEndBytes (prefix : slice) : outcome slice :=
  match prefix with
  | None => Ok None
  | Some p => PrefixEndBytes_loop (S (length p)) p
  end.

Definition KVStorePrefixIterator {S} `{KVStore S} (prefix : slice) : M S Iter :=
  end_ ← liftO (PrefixEndBytes prefix); Iterator prefix end_.

Definition KVStoreReversePrefixIterator {S} `{KVStore S} (prefix : slice) : M S Iter :=
  end_ ← liftO (PrefixEndBytes prefix); ReverseIterator prefix end_.

(** The end of a prefix, from the front. *)
Fixpoint prefix_end (p : bytes) : slice :=
  match p with
  | [] => None
  | x :: p' =>
      match prefix_end p' with
      | Some e => Some (x :: e)
      | None => if decide (x <> Byte.xff) then Some [byte_succ x] else None
      end
  end.

Lemma prefix_end_snoc (p : bytes) b :
  prefix_end (p ++ [b]) = if decide (b <> Byte.xff) then Some (p ++ [byte_succ b]) else prefix_end p.
Proof.
  induction p as [|x p IH]; simpl; [by destruct (decide _)|].
  rewrite IH. by destruct (decide (b <> Byte.xff)).
Qed.

Lemma removelast_snoc {A} (l : list A) x : removelast (l ++ [x]) = l.
Proof. apply removelast_last. Qed.

Lemma PrefixEndBytes_loop_eq fuel p :
  p <> [] -> (length p < fuel)%nat -> PrefixEndBytes_loop fuel p = Ok (prefix_end p).
Proof.
  revert p. induction fuel as [|fuel IH]; intros p Hp Hf; [lia|].
  destruct p as [|b p _] using rev_ind; [done|]. simpl.
  rewrite last_snoc, removelast_snoc, prefix_end_snoc.
  destruct (decide (b <> Byte.xff)); [done|].
  rewrite length_app in Hf. simpl in Hf. destruct p as [|x p]; [done|].
  rewrite decide_False by (simpl; lia). apply IH; [done|lia].
Qed.

Lemma PrefixEndBytes_eq p : p <> [] -> PrefixEndBytes (Some p) = Ok (prefix_end p).
Proof. intros. apply PrefixEndBytes_loop_eq; [done|lia]. Qed.

Lemma byte_succ_spec b : b <> Byte.xff -> Byte.to_N (byte_succ b) = N.succ (Byte.to_N b).
Proof. intros Hb. destruct b; try reflexivity. by destruct Hb. Qed.

Lemma byte_le_xff b : (Byte.to_N b <= 255)%N.
Proof. apply Byte.to_N_bounded. Qed.

Lemma bytes_le_cons x p y k :
  bytes_le (x :: p) (y :: k) <->
  (Byte.to_N x < Byte.to_N y)%N \/ (x = y /\ bytes_le p k).
Proof.
  unfold bytes_le. simpl. destruct (byte_compare x y) eqn:E.
  - apply byte_compare_eq in E as ->. split; [tauto|]. intros [H|[_ H]]; [lia|done].
  - unfold byte_compare in E. apply N.compare_lt_iff in E. split; [by left|done].
  - unfold byte_compare in E. apply N.compare_gt_iff in E. split; [done|].
    intros [H|[ -> _]]; lia.
Qed.

Lemma bytes_lt_cons x p y k :
  bytes_lt (x :: p) (y :: k) <->
  (Byte.to_N x < Byte.to_N y)%N \/ (x = y /\ bytes_lt p k).
Proof.
  unfold bytes_lt. simpl. destruct (byte_compare x y) eqn:E.
  - apply byte_compare_eq in E as ->. split; [tauto|]. intros [H|[_ H]]; [lia|done].
  - unfold byte_compare in E. apply N.compare_lt_iff in E. split; [by left|done].
  - unfold byte_compare in E. apply N.compare_gt_iff in E. split; [done|].
    intros [H|[ -> _]]; lia.
Qed.

Lemma to_N_inj x y : Byte.to_N x = Byte.to_N y -> x = y.
Proof. intros H. apply byte_compare_eq, N.compare_eq_iff, H. Qed.

(** A key is in the range [p, prefix_end p) exactly when it starts with [p]. *)
Lemma prefix_end_domain p k : in_domain (Some p) (prefix_end p) k <-> p `prefix_of` k.
Proof.
  unfold in_domain. revert k. induction p as [|x p IH]; intros k.
  { simpl. split; [intros _; apply prefix_nil|intros _; split; [apply bytes_le_nil|done]]. }
  destruct k as [|y k].
  { split; [intros [H _]; by destruct H|by intros ?%prefix_nil_not]. }
  specialize (IH k). simpl. rewrite bytes_le_cons.
  destruct (prefix_end p) as [e|] eqn:E.
  - rewrite bytes_lt_cons. split.
    + intros [[H1|[E1 H1]] [H2|[E2 H2]]]; subst; try lia. by apply prefix_cons, IH.
    + intros H. pose proof (prefix_cons_inv_1 _ _ _ _ H) as ->.
      apply prefix_cons_inv_2, IH in H. tauto.
  - pose proof (byte_le_xff y). destruct (decide (x <> Byte.xff)) as [Hx|Hx].
    + rewrite bytes_lt_cons, byte_succ_spec by done. split.
      * intros [[H1|[E1 H1]] [H2|[_ H2]]]; subst; try lia; [|by apply prefix_cons, IH|].
        -- destruct k; done.
        -- destruct k; done.
      * intros H'. pose proof (prefix_cons_inv_1 _ _ _ _ H') as ->.
        apply prefix_cons_inv_2, IH in H'. split; [tauto|left; lia].
    + assert (x = Byte.xff) as -> by (destruct (decide (x = Byte.xff)); tauto).
      change (Byte.to_N Byte.xff) with 255%N. split.
      * intros [[H1|[ -> H1]] _]; [lia|]. by apply prefix_cons, IH.
      * intros H'. pose proof (prefix_cons_inv_1 _ _ _ _ H') as ->.
        apply prefix_cons_inv_2, IH in H'. tauto.
Qed.

Lemma prefix_end_good p : good_range (Some p) (prefix_end p).
Proof.
  unfold good_range. destruct (prefix_end p) as [e|] eqn:E; [|done].
  pose proof (proj2 (prefix_end_domain p p) (reflexivity p)) as [_ H]. by rewrite E in H.
Qed.

(** A key-value pair; both parts are slices. *)
Record KVPair := mk_KVPair { kv_Key : slice; kv_Value : slice }.

(** ** store/firstlast.go *)

Section firstlast.
Context {S : Type} `{KVStore S}.

(** Running an iterator's method from the store's point of view. *)
Definition with_iter {A} (it : Iter) (m : M (S * Iter) A) : M S (A * Iter) := fun s =>
  match m (s, it) with
  | (Ok a, (s', it')) => (Ok (a, it'), s')
  | (Panicked p, (s', _)) => (Panicked p, s')
  end.

Lemma with_iter_Ok {A} (m : M (S * Iter) A) s it a s' it' :
  m (s, it) = (Ok a, (s', it')) -> with_iter it m s = (Ok (a, it'), s').
Proof. unfold with_iter. by intros ->. Qed.

Lemma with_iter_Panicked {A} (m : M (S * Iter) A) s it p s' it' :
  m (s, it) = (Panicked p, (s', it')) -> with_iter it m s = (Panicked p, s').
Proof. unfold with_iter. by intros ->. Qed.

(** First: the first item of a range. *)
Definition First (start end_ : slice) : M S (KVPair * bool) :=
  it ← Iterator start end_;
  '(valid, it) ← with_iter it Valid;
  if negb valid then mret (mk_KVPair None None, false) else
  '(k, it) ← with_iter it Key;
  '(v, it) ← with_iter it Value;
  mret (mk_KVPair k v, true).

(** Last: the last item of a range, [end] exclusive. *)
Definition Last (start end_ : slice) : M S (KVPair * bool) :=
  it ← ReverseIterator end_ start;
  '(valid, it) ← with_iter it Valid;
  if negb valid then
    v ← Get start;
    match v with
    | Some _ => mret (mk_KVPair start v, true)
    | None => mret (mk_KVPair None None, false)
    end
  else
  '(k, it) ← with_iter it Key;
  if bool_decide (slice_bytes k = slice_bytes end_) then
    '(_, it) ← with_iter it Next;
    '(valid, it) ← with_iter it Valid;
    if negb valid then mret (mk_KVPair None None, false) else
    '(k, it) ← with_iter it Key;
    '(v, it) ← with_iter it Value;
    mret (mk_KVPair k v, true)
  else
    '(k, it) ← with_iter it Key;
    '(v, it) ← with_iter it Value;
    mret (mk_KVPair k v, true).
End firstlast.

Section laws.
Context {S : Type} `{KVStoreLaws S}.

Lemma steps_bind {A B} (m : M S A) (f : A -> M S B) s a P b Q :
  steps m s a P -> (forall s', P s' -> steps (f a) s' b Q) -> steps (m ≫= f) s b Q.
Proof.
  intros (s' & Hm & HP) Hf. destruct (Hf s' HP) as (s'' & Hf' & HQ).
  exists s''. split; [|done]. by rewrite (bind_Ok _ _ _ _ _ Hm).
Qed.

Lemma steps_ret {A} (a : A) s (P : S -> Prop) : P s -> steps (mret a) s a P.
Proof. intros. by exists s. Qed.

Lemma steps_ret_bind {A B} (a : A) (f : A -> M S B) s b Q :
  steps (f a) s b Q -> steps (mret a ≫= f) s b Q.
Proof. done. Qed.

Lemma steps_get_bind {B} (f : S -> M S B) s b Q :
  steps (f s) s b Q -> steps (getM ≫= f) s b Q.
Proof. done. Qed.

Lemma steps_mono {A} (m : M S A) s a (P Q : S -> Prop) :
  steps m s a P -> (forall s', P s' -> Q s') -> steps m s a Q.
Proof. intros (s' & Hm & HP) HPQ. exists s'. eauto. Qed.

Lemma steps_with_iter {A} (m : M (S * Iter) A) s it a (P : S * Iter -> Prop) :
  steps m (s, it) a P ->
  exists it', steps (with_iter it m) s (a, it') (fun s' => P (s', it')).
Proof. intros ([s' it'] & Hm & HP). exists it', s'. unfold with_iter. by rewrite Hm. Qed.

Lemma KVStorePrefixIterator_spec s p :
  wf s -> p <> [] ->
  exists it l, keys_sorted true l /\ iter_rep true it l /\
  (forall k v, (k, v) ∈ l <-> view s !! k = Some v /\ p `prefix_of` k) /\
  steps (KVStorePrefixIterator (Some p)) s it (fun s' => wf s' /\ view s' = view s).
Proof.
  intros Hwf Hp.
  destruct (law_Iterator s (Some p) (prefix_end p) Hwf (prefix_end_good p))
    as (it & l & [Hs Hl] & Hrep & Hrun).
  exists it, l. split_and!; [done..| |].
  - intros k v. by rewrite Hl, prefix_end_domain.
  - unfold KVStorePrefixIterator. eapply steps_bind.
    + exists s. unfold liftO. rewrite PrefixEndBytes_eq by done. split; [done|].
      exact (eq_refl s).
    + intros s' ->. exact Hrun.
Qed.
End laws.

(** ** Clients: sequences of operations

    A client of a store is a sequence of operations; a scan opens an iterator
    and reads at most [n] entries.  Two stores that meet the laws and have the
    same view answer every client alike. *)
Inductive kv_op :=
  | OpGet (k : bytes)
  | OpHas (k : bytes)
  | OpSet (k v : bytes)
  | OpDelete (k : bytes)
  | OpScan (asc : bool) (start end_ : slice) (n : nat).

Inductive kv_result :=
  | RValue (v : slice)
  | RBool (b : bool)
  | RUnit
  | REntries (l : list (slice * slice)).

Definition op_descending (op : kv_op) : bool :=
  match op with OpScan asc _ _ _ => negb asc | _ => false end.

(** Scans ask for ranges the interface allows. *)
Definition op_ok (op : kv_op) : Prop :=
  match op with OpScan _ start end_ _ => good_range start end_ | _ => True end.

Section clients.
Context {S : Type} `{KVStore S}.

Fixpoint scan (n : nat) : M (S * Iter) (list (slice * slice)) :=
  match n with
  | O => mret []
  | Datatypes.S n =>
      valid ← Valid;
      if negb valid then mret [] else
      k ← Key;
      v ← Value;
      Next;;
      rest ← scan n;
      mret ((k, v) :: rest)
  end.

Definition run_op (op : kv_op) : M S kv_result :=
  match op with
  | OpGet k => v ← Get (Some k); mret (RValue v)
  | OpHas k => b ← Has (Some k); mret (RBool b)
  | OpSet k v => Set_ (Some k) (Some v);; mret RUnit
  | OpDelete k => Delete (Some k);; mret RUnit
  | OpScan asc start end_ n =>
      it ← (if asc then Iterator start end_ else ReverseIterator start end_);
      '(l, _) ← with_iter it (scan n);
      mret (REntries l)
  end.

(** A full iteration: up to [2^n] entries, and whether that many were there. *)
Fixpoint scan_pow (n : nat) : M (S * Iter) (bool * list (slice * slice)) :=
  match n with
  | O =>
      valid ← Valid;
      if negb valid then mret (false, []) else
      k ← Key;
      v ← Value;
      Next;;
      mret (true, [(k, v)])
  | Datatypes.S n =>
      '(more, l) ← scan_pow n;
      if negb more then mret (false, l) else
      '(more, l') ← scan_pow n;
      mret (more, l ++ l')
  end.

Definition out_of_memory : panic_value := RuntimeError "out of memory".

(** All entries of a range, as a loop over an iterator sees them; no memory
    holds [2^63] of them. *)
Definition read_range (asc : bool) (start end_ : slice) : M S (list (slice * slice)) :=
  it ← (if asc then Iterator start end_ else ReverseIterator start end_);
  '((more, l), _) ← with_iter it (scan_pow 63);
  if (more : bool) then panicM out_of_memory else mret l.

Fixpoint run_ops (ops : list kv_op) : M S (list kv_result) :=
  match ops with
  | [] => mret []
  | op :: ops => r ← run_op op; rs ← run_ops ops; mret (r :: rs)
  end.
End clients.

(** What a client sees of a map, and what it leaves. *)
Definition spec_op (op : kv_op) (m : gmap bytes bytes) : kv_result :=
  match op with
  | OpGet k => RValue (m !! k)
  | OpHas k => RBool (bool_decide (is_Some (m !! k)))
  | OpSet _ _ | OpDelete _ => RUnit
  | OpScan asc start end_ n =>
      REntries ((fun p => (Some p.1, Some p.2)) <$> take n (range asc start end_ m))
  end.

Definition spec_upd (op : kv_op) (m : gmap bytes bytes) : gmap bytes bytes :=
  match op with
  | OpSet k v => <[k := v]> m
  | OpDelete k => delete k m
  | _ => m
  end.

Definition spec_final (ops : list kv_op) (m : gmap bytes bytes) : gmap bytes bytes :=
  foldl (fun m op => spec_upd op m) m ops.

Fixpoint spec_results (ops : list kv_op) (m : gmap bytes bytes) : list kv_result :=
  match ops with
  | [] => []
  | op :: ops => spec_op op m :: spec_results ops (spec_upd op m)
  end.

Section client_laws.
Context {S : Type} `{KVStoreLaws S}.

Lemma scan_run n s asc it l :
  wf s -> iter_rep asc it l ->
  steps (scan n) (s, it) ((fun p => (Some p.1, Some p.2)) <$> take n l)
    (fun '(s', _) => wf s' /\ view s' = view s).
Proof.
  revert s it l. induction n as [|n IH]; intros s it l Hw Hr; [by apply steps_ret|]. simpl.
  eapply steps_bind; [by eapply law_Valid|]. intros [s1 it1] (Hw1 & Hv1 & Hr1).
  destruct l as [|[k v] l]; simpl; [by apply steps_ret|].
  eapply steps_bind; [by eapply law_Key|]. intros [s2 it2] (Hw2 & Hv2 & Hr2).
  eapply steps_bind; [by eapply law_Value|]. intros [s3 it3] (Hw3 & Hv3 & Hr3).
  eapply steps_bind; [by eapply law_Next|]. intros [s4 it4] (Hw4 & Hv4 & Hr4).
  eapply steps_bind; [by apply IH|]. intros [s5 it5] (Hw5 & Hv5).
  apply steps_ret. split; [done|congruence].
Qed.

(** Entries as an iterator hands them out. *)
Definition slices (l : list (bytes * bytes)) : list (slice * slice) :=
  (fun p => (Some p.1, Some p.2)) <$> l.

Lemma slices_app l l' : slices (l ++ l') = slices l ++ slices l'.
Proof. apply fmap_app. Qed.

Lemma scan_pow_run n s asc it l :
  wf s -> iter_rep asc it l ->
  steps (scan_pow n) (s, it) (bool_decide (2 ^ n <= length l)%nat, slices (take (2 ^ n) l))
    (fun '(s', it') => wf s' /\ view s' = view s /\ iter_rep asc it' (drop (2 ^ n) l)).
Proof.
  revert s it l. induction n as [|n IH]; intros s it l Hw Hr; simpl.
  - eapply steps_bind; [by eapply law_Valid|]. intros [s1 it1] (Hw1 & Hv1 & Hr1).
    destruct l as [|[k v] l]; simpl; [by apply steps_ret|].
    eapply steps_bind; [by eapply law_Key|]. intros [s2 it2] (Hw2 & Hv2 & Hr2).
    eapply steps_bind; [by eapply law_Value|]. intros [s3 it3] (Hw3 & Hv3 & Hr3).
    eapply steps_bind; [by eapply law_Next|]. intros [s4 it4] (Hw4 & Hv4 & Hr4).
    apply steps_ret. split_and!; [done|congruence|done].
  - assert (Hp : (2 ^ n + (2 ^ n + 0) = 2 ^ n + 2 ^ n)%nat) by lia. rewrite Hp.
    eapply steps_bind; [by apply IH|]. intros [s1 it1] (Hw1 & Hv1 & Hr1).
    destruct (decide (2 ^ n <= length l)%nat) as [Hl|Hl].
    + rewrite (bool_decide_eq_true_2 (2 ^ n <= length l)%nat) by done. simpl.
      eapply steps_bind; [by apply IH|]. intros [s2 it2] (Hw2 & Hv2 & Hr2).
      replace (bool_decide (2 ^ n + 2 ^ n <= length l)%nat)
        with (bool_decide (2 ^ n <= length (drop (2 ^ n) l))%nat)
        by (apply bool_decide_ext; rewrite length_drop; lia).
      replace (take (2 ^ n + 2 ^ n) l) with (take (2 ^ n) l ++ take (2 ^ n) (drop (2 ^ n) l))
        by apply take_take_drop.
      rewrite slices_app. apply steps_ret. rewrite drop_drop in Hr2. split_and!; [done|congruence|done].
    + rewrite (bool_decide_eq_false_2 (2 ^ n <= length l)%nat) by done. simpl.
      rewrite bool_decide_eq_false_2 by lia. rewrite !take_ge in * by lia.
      apply steps_ret. rewrite drop_ge in * by lia. done.
Qed.

(** Reading a range returns it all, unless it does not fit in memory. *)
Lemma read_range_spec asc start end_ s :
  wf s -> good_range start end_ -> (asc = false -> KVStoreReverse S) ->
  exists s', wf s' /\ view s' = view s /\
  read_range asc start end_ s =
    ((if decide (2 ^ 63 <= length (range asc start end_ (view s)))%nat then Panicked out_of_memory
      else Ok (slices (range asc start end_ (view s)))), s').
Proof.
  intros Hw Hg Hrev.
  assert (exists it l, is_range asc start end_ (view s) l /\ iter_rep asc it l /\
    steps (if asc then Iterator start end_ else ReverseIterator start end_) s it
      (fun s' => wf s' /\ view s' = view s)) as (it & l & Hl & Hr & s1 & Hrun & Hw1 & Hv1).
  { destruct asc; [by apply law_Iterator|by apply Hrev]. }
  rewrite <- (is_range_unique _ _ _ _ _ _ Hl (range_spec asc start end_ (view s))).
  pose proof (scan_pow_run 63 s1 asc it l Hw1 Hr) as ([s2 it2] & Hs & Hw2 & Hv2 & _).
  exists s2. split_and!; [done|congruence|]. unfold read_range.
  rewrite (bind_Ok _ _ _ _ _ Hrun), (bind_Ok _ _ _ _ _ (with_iter_Ok _ _ _ _ _ _ Hs)).
  revert Hs. generalize 63%nat. intros n _.
  destruct (decide (2 ^ n <= length l)%nat) as [Hd|Hd].
  - by rewrite bool_decide_eq_true_2.
  - rewrite bool_decide_eq_false_2 by done. by rewrite take_ge by lia.
Qed.

Lemma run_op_spec op s :
  wf s -> op_ok op -> (op_descending op = true -> KVStoreReverse S) ->
  steps (run_op op) s (spec_op op (view s)) (fun s' => wf s' /\ view s' = spec_upd op (view s)).
Proof.
  intros Hw Hok Hrev. destruct op as [k|k|k v|k|asc start end_ n]; simpl in *.
  - eapply steps_bind; [by apply law_Get|]. intros s' ?. by apply steps_ret.
  - eapply steps_bind; [by apply law_Has|]. intros s' ?. by apply steps_ret.
  - eapply steps_bind; [by apply law_Set|]. intros s' ?. by apply steps_ret.
  - eapply steps_bind; [by apply law_Delete|]. intros s' ?. by apply steps_ret.
  - assert (exists it l, is_range asc start end_ (view s) l /\ iter_rep asc it l /\
      steps (if asc then Iterator start end_ else ReverseIterator start end_) s it
        (fun s' => wf s' /\ view s' = view s)) as (it & l & Hl & Hr & Hrun).
    { destruct asc; [by apply law_Iterator|by apply Hrev]. }
    rewrite <- (is_range_unique _ _ _ _ _ _ Hl (range_spec asc start end_ (view s))).
    eapply steps_bind; [exact Hrun|]. intros s1 [Hw1 Hv1].
    destruct (steps_with_iter _ _ _ _ _ (scan_run n s1 asc it l Hw1 Hr)) as [it' Hrun'].
    eapply steps_bind; [exact Hrun'|]. intros s2 [Hw2 Hv2]. apply steps_ret.
    split; [done|congruence].
Qed.

Lemma run_ops_spec ops s :
  wf s -> Forall op_ok ops -> (Exists (fun op => op_descending op = true) ops -> KVStoreReverse S) ->
  steps (run_ops ops) s (spec_results ops (view s))
    (fun s' => wf s' /\ view s' = spec_final ops (view s)).
Proof.
  revert s. induction ops as [|op ops IH]; intros s Hw Hok Hrev; [by apply steps_ret|].
  inversion Hok; subst. simpl.
  eapply steps_bind; [apply run_op_spec; auto|]. intros s1 [Hw1 <-].
  eapply steps_bind; [apply IH; auto|]. intros s2 [Hw2 Hv2]. by apply steps_ret.
Qed.
End client_laws.

(** ** Properties *)

(** PrefixEndBytes(p), for a non-empty prefix, returns normally, and the
    range it ends, [p, PrefixEndBytes(p)), holds exactly the keys that start
    with [p] (a nil result, for a prefix of 0xff bytes only, meaning no upper
    bound). *)
Theorem PrefixEndBytes_prefix_range (p : bytes) (Hp : p <> []) :
  exists e, PrefixEndBytes (Some p) = Ok e /\ good_range (Some p) e /\
  forall k, in_domain (Some p) e k <-> p `prefix_of` k.
Proof.
  exists (prefix_end p). split_and!; [by apply PrefixEndBytes_eq|apply prefix_end_good|].
  apply prefix_end_domain.
Qed.

Lemma PrefixEndBytes_prefix_range_witness :
  [Byte.x01; Byte.xff] <> [] /\
  exists e, PrefixEndBytes (Some [Byte.x01; Byte.xff]) = Ok e /\
  good_range (Some [Byte.x01; Byte.xff]) e /\
  forall k, in_domain (Some [Byte.x01; Byte.xff]) e k <-> [Byte.x01; Byte.xff] `prefix_of` k.
Proof. split; [done|apply (PrefixEndBytes_prefix_range [Byte.x01; Byte.xff]); done]. Defined.

Example PrefixEndBytes_ff : PrefixEndBytes (Some [Byte.x01; Byte.xff]) = Ok (Some [Byte.x02]).
Proof. reflexivity. Qed.
Example PrefixEndBytes_empty :
  PrefixEndBytes (Some []) = Panicked (RuntimeError "index out of range").
Proof. reflexivity. Qed.

(** on a store that meets the laws, First(st, start, end) returns the
    entry with the least key of the range, and [ok] is false exactly when the
    range is empty. *)
Theorem First_least {S} `{KVStoreLaws S} (s : S) (start end_ : slice) (Hwf : wf s)
    (Hr : good_range start end_) :
  exists s' kv ok, First start end_ s = (Ok (kv, ok), s') /\ view s' = view s /\
  match ok with
  | false => forall k v, view s !! k = Some v -> ~ in_domain start end_ k
  | true => exists k v, kv = mk_KVPair (Some k) (Some v) /\
      view s !! k = Some v /\ in_domain start end_ k /\
      forall k' v', view s !! k' = Some v' -> in_domain start end_ k' -> bytes_le k k'
  end.
Proof.
  destruct (law_Iterator s start end_ Hwf Hr) as (it & l & [Hs Hl] & Hrep & s1 & Hi & Hwf1 & Hv1).
  unfold First. rewrite (bind_Ok _ _ _ _ _ Hi).
  destruct (law_Valid s1 true it l Hwf1 Hrep) as ([s2 it2] & Hva & Hwf2 & Hv2 & Hrep2).
  unfold mbind, M_bind, with_iter. rewrite Hva. destruct l as [|[k v] l]; simpl.
  { exists s2, (mk_KVPair None None), false. split_and!; [done|congruence|].
    intros k v Hkv Hd. pose proof (proj2 (Hl k v) (conj Hkv Hd)) as Hin. by inversion Hin. }
  destruct (law_Key s2 true it2 k v l Hwf2 Hrep2) as ([s3 it3] & -> & Hwf3 & Hv3 & Hrep3).
  destruct (law_Value s3 true it3 k v l Hwf3 Hrep3) as ([s4 it4] & -> & Hwf4 & Hv4 & Hrep4).
  exists s4, (mk_KVPair (Some k) (Some v)), true. split_and!; [done|congruence|].
  destruct (proj1 (Hl k v) (list_elem_of_here _ _)) as [Hk Hd].
  exists k, v. split_and!; [done..|]. intros k' v' Hk' Hd'.
  pose proof (proj2 (Hl k' v') (conj Hk' Hd')) as [[= -> ->]|Hin]%elem_of_cons.
  - apply bytes_le_refl.
  - inversion Hs as [|? ? _ Hf]; subst. rewrite Forall_forall in Hf.
    specialize (Hf _ Hin). apply bytes_le_lteq. by left.
Qed.

Lemma First_least_witness :
  exists s' kv ok,
    First (Some [Byte.x01]) None ({[ [Byte.x00] := [Byte.x07]; [Byte.x02] := [Byte.x08] ]} : spec_store)
    = (Ok (kv, ok), s') /\ ok = true.
Proof.
  destruct (First_least (S:=spec_store) (H0:=spec_laws)
    {[ [Byte.x00] := [Byte.x07]; [Byte.x02] := [Byte.x08] ]} (Some [Byte.x01]) None I I) as (s' & kv & ok & Hf & _ & _).
  exists s', kv, ok. split; [exact Hf|].
  apply (f_equal (fun r => match r.1 with Ok (_, ok) => ok | _ => false end)) in Hf.
  simpl in Hf. etransitivity; [symmetry; exact Hf|vm_compute; reflexivity].
Defined.
