(* ===== verification/MergeIterator.v ===== *)
(** * store/memiterator.go, store/cachemergeiterator.go

    The iterator over a cache's items and the iterator that merges it with the
    parent store's.  The merge is specified by the function [merge_entries] on the two
    sorted lists; [merge_overlay] says that it lists the parent's range with
    the cache's items written over it. *)
From Stdlib Require Import Strings.Byte Strings.String Sorting.Sorted.
From S2P Require Import Prelude KVStore.
#[local] Open Scope Z_scope.
#[local] Open Scope string_scope.
#[local] Open Scope list_scope.

(** ** libs/db, third-party: the test whether a key lies in an iteration
    domain, with its documented meaning. *)
Class LibDB := { IsKeyInDomain : slice -> slice -> slice -> bool -> bool }.

(** A descending domain runs from [start] (inclusive) down to [end]. *)
Definition in_domain_reverse (start end_ : slice) (k : bytes) : Prop :=
  match start with None => True | Some s => bytes_le k s end /\
  match end_ with None => True | Some e => bytes_lt e k end.
#[export] Instance in_domain_reverse_dec start end_ k : Decision (in_domain_reverse start end_ k).
Proof. unfold in_domain_reverse. destruct start, end_; apply _. Defined.

Class LibDBLaws `{LibDB} : Prop := {
  IsKeyInDomain_forward : forall k start end_,
    IsKeyInDomain (Some k) start end_ false = bool_decide (in_domain start end_ k);
  IsKeyInDomain_reverse : forall k start end_,
    IsKeyInDomain (Some k) start end_ true = bool_decide (in_domain_reverse start end_ k);
}.

(** ** store/memiterator.go *)

Record memIterator := mk_memIterator {
  mi_start : slice; mi_end : slice; mi_items : list KVPair }.

(** bytes.Compare but bounded on both sides by nil; the sign of the result. *)
Definition keyCompare (k1 k2 : slice) : comparison :=
  match k1, k2 with
  | None, None => Eq
  | None, Some _ | Some _, None => Lt
  | Some a, Some b => bytes_compare a b
  end.

Definition newMemIterator `{LibDB} (start end_ : slice) (items : list KVPair) : memIterator :=
  mk_memIterator start end_
    (filter (fun item =>
       let ascending := bool_decide (keyCompare start end_ = Lt) in
       Is_true (IsKeyInDomain (kv_Key item) start end_ (negb ascending))) items).

Definition memIterator_Valid : M memIterator bool :=
  mi ← getM; mret (bool_decide (0 < Z.of_nat (length (mi_items mi)))).

Definition memIterator_assertValid : M memIterator unit :=
  valid ← memIterator_Valid;
  if negb valid then panicM (PanicString "memIterator is invalid") else mret tt.

(** [mi.items[0]], [mi.items[1:]]: out of range when there are no items. *)
Definition memIterator_head : M memIterator KVPair :=
  mi ← getM;
  match mi_items mi with
  | [] => panicM (RuntimeError "index out of range")
  | item :: _ => mret item
  end.

Definition memIterator_Next : M memIterator unit :=
  memIterator_assertValid;;
  mi ← getM;
  match mi_items mi with
  | [] => panicM (RuntimeError "slice bounds out of range")
  | _ :: items => putM (mk_memIterator (mi_start mi) (mi_end mi) items)
  end.

Definition memIterator_Key : M memIterator slice :=
  memIterator_assertValid;; item ← memIterator_head; mret (kv_Key item).

Definition memIterator_Value : M memIterator slice :=
  memIterator_assertValid;; item ← memIterator_head; mret (kv_Value item).

(** ** store/cachemergeiterator.go *)

Record cacheMergeIterator (I : Type) := mk_cacheMergeIterator {
  cm_parent : I; cm_cache : memIterator; cm_ascending : bool }.
Arguments mk_cacheMergeIterator {I}.
Arguments cm_parent {I}.
Arguments cm_cache {I}.
Arguments cm_ascending {I}.

Section merge_iterator.
Context {P : Type} `{KVStore P}.

(** The state of its methods: the parent store and the iterator. *)
Definition mstate : Type := P * cacheMergeIterator Iter.

Definition onParent {A} (m : M (P * Iter) A) : M mstate A :=
  zoom (fun st : mstate => (st.1, cm_parent st.2))
       (fun '(p, it) (st : mstate) =>
          (p, mk_cacheMergeIterator it (cm_cache st.2) (cm_ascending st.2))) m.

Definition onCache {A} (m : M memIterator A) : M mstate A :=
  zoom (fun st : mstate => cm_cache st.2)
       (fun c (st : mstate) =>
          (st.1, mk_cacheMergeIterator (cm_parent st.2) c (cm_ascending st.2))) m.

Definition newCacheMergeIterator (parent : Iter) (cache : memIterator) (ascending : bool)
  : cacheMergeIterator Iter := mk_cacheMergeIterator parent cache ascending.

(** Like bytes.Compare but opposite if not ascending. *)
Definition cm_compare (a b : slice) : M mstate comparison :=
  st ← getM; mret (key_compare (cm_ascending st.2) (slice_bytes a) (slice_bytes b)).

(** The loop of skipCacheDeletes.  Every round takes an item of the cache
    iterator, so [fuel] is the number of its items plus one. *)
Fixpoint skipCacheDeletes_loop (fuel : nat) (until : slice) : M mstate unit :=
  match fuel with
  | O => panicM (RuntimeError "out of fuel")
  | S fuel =>
      valid ← onCache memIterator_Valid;
      if negb valid then mret tt else
      v ← onCache memIterator_Value;
      match v with
      | Some _ => mret tt
      | None =>
          below ← match until with
                  | None => mret true
                  | Some _ =>
                      k ← onCache memIterator_Key;
                      c ← cm_compare k until;
                      mret (bool_decide (c = Lt))
                  end;
          if negb below then mret tt else
          onCache memIterator_Next;;
          skipCacheDeletes_loop fuel until
      end
  end.

Definition cache_fuel : M mstate nat :=
  st ← getM; mret (S (length (mi_items (cm_cache st.2)))).

Definition skipCacheDeletes (until : slice) : M mstate unit :=
  fuel ← cache_fuel; skipCacheDeletes_loop fuel until.

(** The loop of skipUntilExistsOrInvalid; every [continue] has taken an item
    of the cache iterator. *)
Fixpoint skipUntil_loop (fuel : nat) : M mstate bool :=
  match fuel with
  | O => panicM (RuntimeError "out of fuel")
  | S fuel =>
      parentValid ← onParent Valid;
      if negb parentValid then
        skipCacheDeletes None;;
        onCache memIterator_Valid
      else
      cacheValid ← onCache memIterator_Valid;
      if negb cacheValid then mret true else
      keyP ← onParent Key;
      keyC ← onCache memIterator_Key;
      c ← cm_compare keyP keyC;
      match c with
      | Lt => mret true
      | Eq =>
          valueC ← onCache memIterator_Value;
          match valueC with
          | None => onParent Next;; onCache memIterator_Next;; skipUntil_loop fuel
          | Some _ => mret true
          end
      | Gt =>
          valueC ← onCache memIterator_Value;
          match valueC with
          | None => skipCacheDeletes keyP;; skipUntil_loop fuel
          | Some _ => mret true
          end
      end
  end.

Definition skipUntilExistsOrInvalid : M mstate bool :=
  fuel ← cache_fuel; skipUntil_loop fuel.

Definition cm_Valid : M mstate bool := skipUntilExistsOrInvalid.

Definition cm_assertValid : M mstate unit :=
  valid ← cm_Valid;
  if negb valid then panicM (PanicString "iterator is invalid") else mret tt.

Definition cm_Next : M mstate unit :=
  skipUntilExistsOrInvalid;;
  cm_assertValid;;
  parentValid ← onParent Valid;
  if negb parentValid then onCache memIterator_Next else
  cacheValid ← onCache memIterator_Valid;
  if negb cacheValid then onParent Next else
  keyP ← onParent Key;
  keyC ← onCache memIterator_Key;
  c ← cm_compare keyP keyC;
  match c with
  | Lt => onParent Next
  | Eq => onParent Next;; onCache memIterator_Next
  | Gt => onCache memIterator_Next
  end.

Definition cm_Key : M mstate slice :=
  skipUntilExistsOrInvalid;;
  cm_assertValid;;
  parentValid ← onParent Valid;
  if negb parentValid then onCache memIterator_Key else
  cacheValid ← onCache memIterator_Valid;
  if negb cacheValid then onParent Key else
  keyP ← onParent Key;
  keyC ← onCache memIterator_Key;
  c ← cm_compare keyP keyC;
  match c with
  | Lt => mret keyP
  | Eq => mret keyP
  | Gt => mret keyC
  end.

Definition cm_Value : M mstate slice :=
  skipUntilExistsOrInvalid;;
  cm_assertValid;;
  parentValid ← onParent Valid;
  if negb parentValid then onCache memIterator_Value else
  cacheValid ← onCache memIterator_Valid;
  if negb cacheValid then onParent Value else
  keyP ← onParent Key;
  keyC ← onCache memIterator_Key;
  c ← cm_compare keyP keyC;
  match c with
  | Lt => onParent Value
  | Eq => onCache memIterator_Value
  | Gt => onCache memIterator_Value
  end.
End merge_iterator.

(** ** The specification of the merge *)

(** [pl]: the parent's entries; [cl]: the cache's items, a nil value standing
    for a deletion. *)
Fixpoint merge_entries (asc : bool) (pl : list (bytes * bytes)) : list (bytes * slice) -> list (bytes * bytes) :=
  fix go cl :=
    match cl with
    | [] => pl
    | (kc, vc) :: cl' =>
        match pl with
        | [] => match vc with Some v => (kc, v) :: go cl' | None => go cl' end
        | (kp, vp) :: pl' =>
            match key_compare asc kp kc with
            | Lt => (kp, vp) :: merge_entries asc pl' cl
            | Eq => match vc with Some v => (kc, v) :: merge_entries asc pl' cl' | None => merge_entries asc pl' cl' end
            | Gt => match vc with Some v => (kc, v) :: go cl' | None => go cl' end
            end
        end
    end.

Lemma merge_nil_r asc pl : merge_entries asc pl [] = pl.
Proof. by destruct pl as [|[]]. Qed.

Lemma merge_cons_nil asc kc vc cl :
  merge_entries asc [] ((kc, vc) :: cl) =
  match vc with Some v => (kc, v) :: merge_entries asc [] cl | None => merge_entries asc [] cl end.
Proof. reflexivity. Qed.

Lemma merge_cons asc kp vp pl kc vc cl :
  merge_entries asc ((kp, vp) :: pl) ((kc, vc) :: cl) =
  match key_compare asc kp kc with
  | Lt => (kp, vp) :: merge_entries asc pl ((kc, vc) :: cl)
  | Eq => match vc with Some v => (kc, v) :: merge_entries asc pl cl | None => merge_entries asc pl cl end
  | Gt => match vc with
          | Some v => (kc, v) :: merge_entries asc ((kp, vp) :: pl) cl
          | None => merge_entries asc ((kp, vp) :: pl) cl
          end
  end.
Proof. reflexivity. Qed.

#[global] Arguments merge_entries : simpl never.

Lemma keys_sorted_cons {V} asc k (v : V) l :
  keys_sorted asc ((k, v) :: l) <->
  keys_sorted asc l /\ forall k', k' ∈ l.*1 -> key_lt asc k k'.
Proof.
  unfold keys_sorted. split.
  - intros Hs. inversion Hs as [|? ? Hs' Hf]; subst. split; [done|].
    intros k' (q & -> & Hq)%list_elem_of_fmap. rewrite Forall_forall in Hf. by apply Hf.
  - intros [Hs Hf]. constructor; [done|]. rewrite Forall_forall. intros q Hq.
    apply Hf, list_elem_of_fmap. by exists q.
Qed.

Lemma elem_of_fst {V} (l : list (bytes * V)) k v : (k, v) ∈ l -> k ∈ l.*1.
Proof. intros H. apply list_elem_of_fmap. by exists (k, v). Qed.

Lemma key_lt_ne asc a b : key_lt asc a b -> a <> b.
Proof. intros H ->. by apply key_lt_irrefl in H. Qed.

Lemma key_lt_asym asc a b : key_lt asc a b -> ~ key_lt asc b a.
Proof. intros H1 H2. apply (key_lt_irrefl asc a). eauto with sdk. Qed.

(** The merge holds the cache's live items and the parent's entries whose key
    the cache does not mention. *)
Lemma elem_item_Some (k kc : bytes) (v v0 : bytes) :
  (k, Some v) = (kc, Some v0) <-> (k, v) = (kc, v0).
Proof. split; congruence. Qed.

Lemma elem_item_None (k kc : bytes) (v : bytes) : (k, Some v) = (kc, None) <-> False.
Proof. split; [congruence|done]. Qed.

Lemma merge_elem asc pl cl k v :
  keys_sorted asc pl -> keys_sorted asc cl ->
  (k, v) ∈ merge_entries asc pl cl <-> (k, Some v) ∈ cl \/ ((k, v) ∈ pl /\ k ∉ cl.*1).
Proof.
  assert (Hnil : forall A (x : A), x ∈ [] <-> False) by (intros; apply elem_of_nil).
  revert cl. induction pl as [|[kp vp] pl IHp]; intros cl Hp.
  { induction cl as [|[kc vc] cl IHc]; intros Hc.
    - simpl. rewrite !Hnil. tauto.
    - apply keys_sorted_cons in Hc as [Hc Hlt]. specialize (IHc Hc).
      rewrite merge_cons_nil, Hnil in *.
      destruct vc; rewrite ?elem_of_cons, ?elem_item_Some, ?elem_item_None; tauto. }
  pose proof Hp as Hpp. apply keys_sorted_cons in Hp as [Hp Hltp].
  induction cl as [|[kc vc] cl IHc]; intros Hc; [rewrite merge_nil_r; simpl; rewrite !Hnil; tauto|].
  pose proof Hc as Hcc. apply keys_sorted_cons in Hc as [Hc Hltc]. specialize (IHc Hc).
  assert (Hk' : k ∈ cl.*1 -> key_lt asc kc k) by auto.
  rewrite merge_cons. destruct (key_compare asc kp kc) eqn:E.
  - apply key_compare_eq in E as ->. specialize (IHp cl Hp Hc).
    assert ((k, v) ∈ pl -> k <> kc).
    { intros Hin ->. apply (key_lt_irrefl asc kc), Hltp. by eapply elem_of_fst. }
    assert ((k, v) = (kc, vp) -> k = kc) by congruence.
    destruct vc; simpl; rewrite ?elem_of_cons, ?IHp, ?elem_item_Some, ?elem_item_None; tauto.
  - specialize (IHp _ Hp Hcc). change (key_lt asc kp kc) in E.
    assert (kp ∉ kc :: cl.*1).
    { intros [ <- |Hin]%elem_of_cons; [by apply key_lt_irrefl in E|].
      apply (key_lt_irrefl asc kp). eauto with sdk. }
    assert (kp <> k \/ k ∉ kc :: cl.*1) by (destruct (decide (kp = k)); subst; auto).
    assert ((k, v) = (kp, vp) -> kp = k) by congruence.
    assert ((kc, vc).1 = kc) as Hfst by done.
    rewrite (elem_of_cons (merge_entries _ _ _)), IHp, (elem_of_cons pl). rewrite fmap_cons, Hfst. tauto.
  - apply key_compare_gt in E.
    assert ((k, v) ∈ (kp, vp) :: pl -> k <> kc).
    { intros [[= -> ->]|Hin]%elem_of_cons ->; [by apply key_lt_irrefl in E|].
      apply (key_lt_irrefl asc kc). eauto using elem_of_fst with sdk. }
    generalize dependent ((kp, vp) :: pl). intros l _ IHc Hne.
    assert (forall v0, (k, v) = (kc, v0) -> k = kc) as Hkv by congruence.
    destruct vc as [v0|]; [specialize (Hkv v0)|];
      rewrite fmap_cons, ?elem_of_cons, ?IHc, ?elem_item_Some, ?elem_item_None; simpl; tauto.
Qed.

Lemma merge_keys asc pl cl k :
  keys_sorted asc pl -> keys_sorted asc cl ->
  k ∈ (merge_entries asc pl cl).*1 -> k ∈ pl.*1 \/ k ∈ cl.*1.
Proof.
  intros Hp Hc ([k' v] & -> & Hin)%list_elem_of_fmap. simpl.
  apply merge_elem in Hin as [Hin|[Hin _]]; eauto using elem_of_fst.
Qed.

Lemma merge_sorted asc pl cl :
  keys_sorted asc pl -> keys_sorted asc cl -> keys_sorted asc (merge_entries asc pl cl).
Proof.
  revert cl. induction pl as [|[kp vp] pl IHp]; intros cl Hp.
  { induction cl as [|[kc vc] cl IHc]; intros Hc; [done|].
    apply keys_sorted_cons in Hc as [Hc Hlt]. rewrite merge_cons_nil.
    destruct vc; [|auto]. apply keys_sorted_cons. split; [auto|].
    intros k' [H|H]%merge_keys; try done; [by inversion H|auto]. }
  pose proof Hp as Hpp. apply keys_sorted_cons in Hp as [Hp Hltp].
  induction cl as [|[kc vc] cl IHc]; intros Hc; [by rewrite merge_nil_r|].
  pose proof Hc as Hcc. apply keys_sorted_cons in Hc as [Hc Hltc]. specialize (IHc Hc).
  rewrite merge_cons. destruct (key_compare asc kp kc) eqn:E.
  - apply key_compare_eq in E as ->. destruct vc; [|auto]. apply keys_sorted_cons.
    split; [auto|]. intros k' [H|H]%merge_keys; auto.
  - change (key_lt asc kp kc) in E. apply keys_sorted_cons. split; [auto|].
    intros k' [H|H]%merge_keys; auto. apply elem_of_cons in H as [ -> |H]; eauto with sdk.
  - apply key_compare_gt in E. destruct vc; [|auto]. apply keys_sorted_cons.
    split; [auto|]. intros k' [H|H]%merge_keys; auto.
    apply elem_of_cons in H as [ -> |H]; eauto with sdk.
Qed.

(** ** The iterator runs the merge *)

Definition to_item (p : bytes * slice) : KVPair := mk_KVPair (Some p.1) p.2.

(** The head of the merge is visible: the next cache item is live, or lies
    beyond the parent's next key. *)
Definition settled (asc : bool) (pl : list (bytes * bytes)) (cl : list (bytes * slice)) : Prop :=
  match cl, pl with
  | [], _ => True
  | (_, None) :: _, [] => False
  | (kc, None) :: _, (kp, _) :: _ => key_lt asc kp kc
  | (_, Some _) :: _, _ => True
  end.

Definition nonempty {A} (l : list A) : bool := match l with [] => false | _ => true end.

Lemma settled_nonempty asc pl cl :
  settled asc pl cl -> nonempty (merge_entries asc pl cl) = nonempty pl || nonempty cl.
Proof.
  destruct cl as [|[kc [vc|]] cl], pl as [|[kp vp] pl]; try done; intros Hs.
  - rewrite merge_cons. by destruct (key_compare _ _ _).
  - rewrite merge_cons. unfold settled, key_lt in Hs. by rewrite Hs.
Qed.

Section proofs.
Context {P : Type} `{KVStoreLaws P}.
Variable asc : bool.
Variable V : gmap bytes bytes.

(** The iterator's state with its parent at [pl] and its cache at [cl]. *)
Definition mrep (pl : list (bytes * bytes)) (cl : list (bytes * slice)) (st : mstate) : Prop :=
  wf st.1 /\ view st.1 = V /\ iter_rep asc (cm_parent st.2) pl /\
  mi_items (cm_cache st.2) = to_item <$> cl /\ cm_ascending st.2 = asc /\
  keys_sorted asc cl.

Lemma mrep_sorted pl cl st : mrep pl cl st -> keys_sorted asc pl /\ keys_sorted asc cl.
Proof. intros (_ & _ & Hr & _ & _ & Hs). split; [|done]. by eapply law_iter_sorted. Qed.

Lemma run_parent {A} (m : M (P * Iter) A) pl cl st a pl' :
  mrep pl cl st ->
  (forall p it, wf p -> iter_rep asc it pl -> view p = V ->
     steps m (p, it) a (fun '(p', it') => wf p' /\ view p' = view p /\ iter_rep asc it' pl')) ->
  steps (onParent m) st a (mrep pl' cl).
Proof.
  intros (Hwf & Hv & Hr & Hi & Ha & Hs) Hm.
  destruct (Hm _ _ Hwf Hr Hv) as ([p' it'] & Hrun & Hwf' & Hv' & Hr').
  eexists. split; [by apply zoom_eq|]. unfold mrep. simpl. split_and!; congruence.
Qed.

Lemma run_parent_Valid pl cl st :
  mrep pl cl st -> steps (onParent Valid) st (nonempty pl) (mrep pl cl).
Proof. intros Hm. apply (run_parent _ _ _ _ _ _ Hm). intros. by apply law_Valid. Qed.

Lemma run_parent_Next kv pl cl st :
  mrep (kv :: pl) cl st -> steps (onParent Next) st tt (mrep pl cl).
Proof. intros Hm. apply (run_parent _ _ _ _ _ _ Hm). intros. by eapply law_Next. Qed.

Lemma run_parent_Key k v pl cl st :
  mrep ((k, v) :: pl) cl st -> steps (onParent Key) st (Some k) (mrep ((k, v) :: pl) cl).
Proof. intros Hm. apply (run_parent _ _ _ _ _ _ Hm). intros. by eapply law_Key. Qed.

Lemma run_parent_Value k v pl cl st :
  mrep ((k, v) :: pl) cl st -> steps (onParent Value) st (Some v) (mrep ((k, v) :: pl) cl).
Proof. intros Hm. apply (run_parent _ _ _ _ _ _ Hm). intros. by eapply law_Value. Qed.

Lemma run_cache {A} (m : M memIterator A) pl cl st a cl' :
  mrep pl cl st -> keys_sorted asc cl' ->
  (forall c, mi_items c = to_item <$> cl ->
     steps m c a (fun c' => mi_items c' = to_item <$> cl')) ->
  steps (onCache m) st a (mrep pl cl').
Proof.
  intros (Hwf & Hv & Hr & Hi & Ha & Hs) Hs' Hm.
  destruct (Hm _ Hi) as (c' & Hrun & Hi').
  eexists. split; [by apply zoom_eq|]. by unfold mrep.
Qed.

Lemma memIterator_Valid_run (c : memIterator) (cl : list (bytes * slice)) :
  mi_items c = to_item <$> cl -> memIterator_Valid c = (Ok (nonempty cl), c).
Proof.
  intros Hi. unfold memIterator_Valid, mbind, M_bind, getM, mret, M_ret. rewrite Hi.
  by destruct cl.
Qed.

Lemma memIterator_assert_run (c : memIterator) kv (cl : list (bytes * slice)) :
  mi_items c = to_item <$> (kv :: cl) -> memIterator_assertValid c = (Ok tt, c).
Proof.
  intros Hi. unfold memIterator_assertValid.
  by rewrite (bind_Ok _ _ _ _ _ (memIterator_Valid_run _ _ Hi)).
Qed.

Lemma run_cache_Valid pl cl st :
  mrep pl cl st -> steps (onCache memIterator_Valid) st (nonempty cl) (mrep pl cl).
Proof.
  intros Hm. apply (run_cache _ _ _ _ _ _ Hm); [by eapply mrep_sorted|]. intros c Hi. exists c.
  by rewrite (memIterator_Valid_run _ _ Hi).
Qed.

Lemma run_cache_Next pl kv cl st :
  mrep pl (kv :: cl) st -> steps (onCache memIterator_Next) st tt (mrep pl cl).
Proof.
  intros Hm. apply (run_cache _ _ _ _ _ _ Hm).
  { apply mrep_sorted in Hm as [_ Hs]. by inversion Hs. }
  intros c Hi. unfold memIterator_Next, steps.
  rewrite (bind_Ok _ _ _ _ _ (memIterator_assert_run _ _ _ Hi)).
  unfold mbind, M_bind, getM. rewrite Hi. simpl. eexists. split; [done|]. done.
Qed.

Lemma run_cache_Key pl k v cl st :
  mrep pl ((k, v) :: cl) st ->
  steps (onCache memIterator_Key) st (Some k) (mrep pl ((k, v) :: cl)).
Proof.
  intros Hm. apply (run_cache _ _ _ _ _ _ Hm); [by eapply mrep_sorted|]. intros c Hi. exists c.
  split; [|done]. unfold memIterator_Key, memIterator_head.
  rewrite (bind_Ok _ _ _ _ _ (memIterator_assert_run _ _ _ Hi)).
  unfold mbind, M_bind, getM. by rewrite Hi.
Qed.

Lemma run_cache_Value pl k v cl st :
  mrep pl ((k, v) :: cl) st ->
  steps (onCache memIterator_Value) st v (mrep pl ((k, v) :: cl)).
Proof.
  intros Hm. apply (run_cache _ _ _ _ _ _ Hm); [by eapply mrep_sorted|]. intros c Hi. exists c.
  split; [|done]. unfold memIterator_Value, memIterator_head.
  rewrite (bind_Ok _ _ _ _ _ (memIterator_assert_run _ _ _ Hi)).
  unfold mbind, M_bind, getM. by rewrite Hi.
Qed.

Lemma run_compare pl cl st a b :
  mrep pl cl st ->
  steps (cm_compare (Some a) (Some b)) st (key_compare asc a b) (mrep pl cl).
Proof.
  intros Hm. exists st. split; [|done]. unfold cm_compare, mbind, M_bind, getM. simpl.
  by destruct Hm as (_ & _ & _ & _ & -> & _).
Qed.

(** A goal about a run of [x ≪ m; k]: run [m] by the lemma [H]. *)
Ltac step H := eapply steps_bind; [eapply H; eassumption|intros ? ?; simpl].

(** What skipCacheDeletes leaves of the cache's items. *)
Fixpoint drop_deletes (until : slice) (cl : list (bytes * slice)) : list (bytes * slice) :=
  match cl with
  | (k, None) :: cl' =>
      if match until with None => true | Some u => bool_decide (key_lt asc k u) end
      then drop_deletes until cl' else cl
  | _ => cl
  end.

Lemma skipCacheDeletes_loop_run fuel until pl cl st :
  (length cl < fuel)%nat -> mrep pl cl st ->
  steps (skipCacheDeletes_loop fuel until) st tt (mrep pl (drop_deletes until cl)).
Proof.
  revert cl st. induction fuel as [|fuel IH]; intros cl st Hf Hm; [lia|]. simpl.
  step @run_cache_Valid. destruct cl as [|[k v] cl]; [by apply steps_ret|]. simpl.
  step @run_cache_Value. destruct v as [v|]; [by apply steps_ret|].
  simpl in Hf. destruct until as [u|]; simpl.
  - eapply steps_bind.
    { step @run_cache_Key. step @run_compare. apply steps_ret. eassumption. }
    intros s1 Hm1. destruct (decide (key_compare asc k u = Lt)).
    + rewrite !bool_decide_eq_true_2 by done. simpl.
      step @run_cache_Next. apply IH; [lia|done].
    + rewrite !bool_decide_eq_false_2 by done. by apply steps_ret.
  - eapply steps_bind; [apply steps_ret; eassumption|]. intros s1 Hm1. simpl.
    step @run_cache_Next. apply IH; [lia|done].
Qed.

Lemma run_cache_fuel pl cl st :
  mrep pl cl st -> steps cache_fuel st (S (length cl)) (mrep pl cl).
Proof.
  intros Hm. exists st. split; [|done]. unfold cache_fuel, mbind, M_bind, getM.
  destruct Hm as (_ & _ & _ & -> & _). by rewrite length_fmap.
Qed.

Lemma skipCacheDeletes_run until pl cl st :
  mrep pl cl st -> steps (skipCacheDeletes until) st tt (mrep pl (drop_deletes until cl)).
Proof.
  intros Hm. unfold skipCacheDeletes. eapply steps_bind; [by eapply run_cache_fuel|]. intros s' Hs'.
  apply skipCacheDeletes_loop_run; [lia|done].
Qed.

Lemma drop_deletes_length until cl : (length (drop_deletes until cl) <= length cl)%nat.
Proof. induction cl as [|[k [v|]] cl IH]; simpl; try lia. destruct until as [u|]; [case_bool_decide|]; simpl; lia. Qed.

Lemma merge_drop_nil cl : merge_entries asc [] (drop_deletes None cl) = merge_entries asc [] cl.
Proof. induction cl as [|[k [v|]] cl IH]; [done|done|]. rewrite merge_cons_nil. exact IH. Qed.

Lemma drop_deletes_cons u k cl :
  drop_deletes (Some u) ((k, None) :: cl) =
  if bool_decide (key_lt asc k u) then drop_deletes (Some u) cl else (k, None) :: cl.
Proof. done. Qed.

Lemma settled_drop_nil cl : settled asc [] (drop_deletes None cl).
Proof. by induction cl as [|[k [v|]] cl IH]. Qed.

Lemma merge_drop kp vp pl cl :
  merge_entries asc ((kp, vp) :: pl) (drop_deletes (Some kp) cl) = merge_entries asc ((kp, vp) :: pl) cl.
Proof.
  induction cl as [|[k [v|]] cl IH]; [done|done|].
  rewrite drop_deletes_cons. case_bool_decide as E; [|done]. rewrite IH, merge_cons.
  apply key_compare_gt in E. by rewrite E.
Qed.

(** The state, with a visible head, of an iterator that has [l] left. *)
Definition mready (l : list (bytes * bytes)) (st : mstate) : Prop :=
  exists pl cl, settled asc pl cl /\ merge_entries asc pl cl = l /\ mrep pl cl st.

(** The loop ends with its state settled, on the same merge; [fuel] above
    the number of cache items is enough. *)
Lemma skipUntil_loop_run fuel pl cl st :
  (length cl < fuel)%nat -> mrep pl cl st ->
  steps (skipUntil_loop fuel) st (nonempty (merge_entries asc pl cl)) (mready (merge_entries asc pl cl)).
Proof.
  revert pl cl st. induction fuel as [|fuel IH]; intros pl cl st Hf Hm; [lia|]. simpl.
  step @run_parent_Valid. destruct pl as [|[kp vp] pl]; simpl.
  { step skipCacheDeletes_run. rewrite <- merge_drop_nil.
    rewrite settled_nonempty by apply settled_drop_nil.
    eapply steps_mono; [by apply run_cache_Valid|]. intros st' Hst'.
    do 2 eexists. split_and!; [apply settled_drop_nil| |done]. done. }
  step @run_cache_Valid. destruct cl as [|[kc vc] cl]; simpl.
  { apply steps_ret. by exists ((kp, vp) :: pl), []. }
  step @run_parent_Key. step @run_cache_Key. step @run_compare. simpl in Hf.
  rewrite (merge_cons asc kp vp pl kc vc cl).
  destruct (key_compare asc kp kc) eqn:E; [|apply steps_ret|]; simpl.
  - step @run_cache_Value. destruct vc as [vc|].
    { apply steps_ret. do 2 eexists. split_and!; [| |eassumption]; [done|].
      by rewrite merge_cons, E. }
    step @run_parent_Next. step @run_cache_Next. apply IH; [lia|done].
  - do 2 eexists. split_and!; [| |eassumption]; [by destruct vc|]. by rewrite merge_cons, E.
  - step @run_cache_Value. destruct vc as [vc|].
    { apply steps_ret. do 2 eexists. split_and!; [| |eassumption]; [done|].
      by rewrite merge_cons, E. }
    eapply steps_bind; [by eapply skipCacheDeletes_run|].
    apply key_compare_gt in E as E'. rewrite drop_deletes_cons, bool_decide_eq_true_2 by done.
    intros st' Hst'. rewrite <- merge_drop.
    apply IH; [|done]. pose proof (drop_deletes_length (Some kp) cl). lia.
Qed.

(** The state of an iterator that has [l] left. *)
Definition mview (l : list (bytes * bytes)) (st : mstate) : Prop :=
  exists pl cl, merge_entries asc pl cl = l /\ mrep pl cl st.

Lemma mready_mview l st : mready l st -> mview l st.
Proof. intros (pl & cl & _ & Hl & Hm). by exists pl, cl. Qed.

Lemma skip_run l st :
  mview l st -> steps skipUntilExistsOrInvalid st (nonempty l) (mready l).
Proof.
  intros (pl & cl & <- & Hm). eapply steps_bind; [by eapply run_cache_fuel|].
  intros s' Hs'. apply skipUntil_loop_run; [lia|done].
Qed.

Lemma assert_run kv l st : mview (kv :: l) st -> steps cm_assertValid st tt (mready (kv :: l)).
Proof.
  intros Hm. eapply steps_bind; [by apply skip_run|]. intros s' Hs'. by apply steps_ret.
Qed.

Lemma skip_assert_run {A} kv l st (m : M mstate A) a Q :
  mview (kv :: l) st -> (forall st', mready (kv :: l) st' -> steps m st' a Q) ->
  steps (skipUntilExistsOrInvalid;; cm_assertValid;; m) st a Q.
Proof.
  intros Hm Hk. eapply steps_bind; [by apply skip_run|]. intros s1 Hs1.
  eapply steps_bind; [by eapply assert_run, mready_mview|]. apply Hk.
Qed.

(** Where the head of a settled merge comes from. *)
Lemma mready_inv k v l st :
  mready ((k, v) :: l) st ->
  (exists cl, mrep [] ((k, Some v) :: cl) st /\ merge_entries asc [] cl = l) \/
  (mrep ((k, v) :: l) [] st) \/
  (exists pl kc vc cl, mrep ((k, v) :: pl) ((kc, vc) :: cl) st /\ key_compare asc k kc = Lt /\
     merge_entries asc pl ((kc, vc) :: cl) = l) \/
  (exists vp pl cl, mrep ((k, vp) :: pl) ((k, Some v) :: cl) st /\ merge_entries asc pl cl = l) \/
  (exists kp vp pl cl, mrep ((kp, vp) :: pl) ((k, Some v) :: cl) st /\
     key_compare asc kp k = Gt /\ merge_entries asc ((kp, vp) :: pl) cl = l).
Proof.
  intros ([|[kp vp] pl] & [|[kc vc] cl] & Hs & Hl & Hm); [done| | |].
  - destruct vc as [vc|]; [|done]. rewrite merge_cons_nil in Hl. simplify_eq. eauto.
  - rewrite merge_nil_r in Hl. simplify_eq. eauto.
  - rewrite merge_cons in Hl. destruct (key_compare asc kp kc) eqn:E.
    + apply key_compare_eq in E as ->.
      destruct vc as [vc|]; [|by apply key_lt_irrefl in Hs]. simplify_eq. naive_solver.
    + simplify_eq. right; right; left. naive_solver.
    + destruct vc as [vc|]; [|unfold settled, key_lt in Hs; congruence].
      simplify_eq. do 4 right. naive_solver.
Qed.

Ltac both := step @run_parent_Valid; step @run_cache_Valid;
  step @run_parent_Key; step @run_cache_Key; step @run_compare.

Lemma cm_Valid_run l st : mview l st -> steps cm_Valid st (nonempty l) (mview l).
Proof. intros Hm. eapply steps_mono; [by apply skip_run|]. apply mready_mview. Qed.

Lemma cm_Next_run kv l st : mview (kv :: l) st -> steps cm_Next st tt (mview l).
Proof.
  intros Hm. eapply skip_assert_run; [done|]. clear st Hm. intros st Hm. destruct kv as [k v].
  apply mready_inv in Hm as
    [(cl & Hm & Hl)|[Hm|[(pl & kc & vc & cl & Hm & E & Hl)|[(vp & pl & cl & Hm & Hl)|
     (kp & vp & pl & cl & Hm & E & Hl)]]]].
  - step @run_parent_Valid. eapply steps_mono; [by eapply run_cache_Next|].
    intros s Hs. by exists [], cl.
  - step @run_parent_Valid. step @run_cache_Valid.
    eapply steps_mono; [by eapply run_parent_Next|].
    intros s Hs. exists l, []. by rewrite merge_nil_r.
  - both. rewrite E. eapply steps_mono; [by eapply run_parent_Next|].
    intros s Hs. by do 2 eexists.
  - both. rewrite (proj2 (key_compare_eq asc k k) eq_refl). step @run_parent_Next.
    eapply steps_mono; [by eapply run_cache_Next|]. intros s Hs. by exists pl, cl.
  - both. rewrite E. eapply steps_mono; [by eapply run_cache_Next|].
    intros s Hs. by do 2 eexists.
Qed.

Lemma cm_Key_run k v l st :
  mview ((k, v) :: l) st -> steps cm_Key st (Some k) (mview ((k, v) :: l)).
Proof.
  intros Hm. eapply skip_assert_run; [done|]. clear st Hm. intros st Hm.
  apply mready_inv in Hm as
    [(cl & Hm & Hl)|[Hm|[(pl & kc & vc & cl & Hm & E & Hl)|[(vp & pl & cl & Hm & Hl)|
     (kp & vp & pl & cl & Hm & E & Hl)]]]].
  - step @run_parent_Valid. eapply steps_mono; [by eapply run_cache_Key|].
    intros s Hs. do 2 eexists. split; [|eassumption]. by rewrite merge_cons_nil, Hl.
  - step @run_parent_Valid. step @run_cache_Valid.
    eapply steps_mono; [by eapply run_parent_Key|].
    intros s Hs. do 2 eexists. split; [|eassumption]. by rewrite merge_nil_r.
  - both. rewrite E. apply steps_ret. do 2 eexists. split; [|eassumption].
    by rewrite merge_cons, E, Hl.
  - both. pose proof (proj2 (key_compare_eq asc k k) eq_refl) as E. rewrite E.
    apply steps_ret. do 2 eexists. split; [|eassumption]. by rewrite merge_cons, E, Hl.
  - both. rewrite E. apply steps_ret. do 2 eexists. split; [|eassumption].
    by rewrite merge_cons, E, Hl.
Qed.

Lemma cm_Value_run k v l st :
  mview ((k, v) :: l) st -> steps cm_Value st (Some v) (mview ((k, v) :: l)).
Proof.
  intros Hm. eapply skip_assert_run; [done|]. clear st Hm. intros st Hm.
  apply mready_inv in Hm as
    [(cl & Hm & Hl)|[Hm|[(pl & kc & vc & cl & Hm & E & Hl)|[(vp & pl & cl & Hm & Hl)|
     (kp & vp & pl & cl & Hm & E & Hl)]]]].
  - step @run_parent_Valid. eapply steps_mono; [by eapply run_cache_Value|].
    intros s Hs. do 2 eexists. split; [|eassumption]. by rewrite merge_cons_nil, Hl.
  - step @run_parent_Valid. step @run_cache_Valid.
    eapply steps_mono; [by eapply run_parent_Value|].
    intros s Hs. do 2 eexists. split; [|eassumption]. by rewrite merge_nil_r.
  - both. rewrite E. eapply steps_mono; [by eapply run_parent_Value|].
    intros s Hs. do 2 eexists. split; [|eassumption]. by rewrite merge_cons, E, Hl.
  - both. pose proof (proj2 (key_compare_eq asc k k) eq_refl) as E. rewrite E.
    eapply steps_mono; [by eapply run_cache_Value|].
    intros s Hs. do 2 eexists. split; [|eassumption]. by rewrite merge_cons, E, Hl.
  - both. rewrite E. eapply steps_mono; [by eapply run_cache_Value|].
    intros s Hs. do 2 eexists. split; [|eassumption]. by rewrite merge_cons, E, Hl.
Qed.
End proofs.

(** ** The merge as an overlay of maps *)

(** The entries of [c] written over [m], a nil value deleting the key. *)
Definition overlay (c : gmap bytes slice) (m : gmap bytes bytes) : gmap bytes bytes :=
  merge (fun co mo => match co with Some v => v | None => mo end) c m.

Lemma lookup_overlay c m k :
  overlay c m !! k = match c !! k with Some v => v | None => m !! k end.
Proof. unfold overlay. rewrite lookup_merge. by destruct (c !! k), (m !! k). Qed.

Lemma overlay_empty m : overlay ∅ m = m.
Proof. apply map_eq. intros k. by rewrite lookup_overlay, lookup_empty. Qed.

Lemma filter_items (Q : KVPair -> Prop) `{!forall x, Decision (Q x)} start end_
    (cl : list (bytes * slice)) :
  (forall k v, Q (mk_KVPair (Some k) v) <-> in_domain start end_ k) ->
  filter Q (to_item <$> cl) = to_item <$> filter (fun p => in_domain start end_ p.1) cl.
Proof.
  intros HQ. induction cl as [|[k v] cl IH]; [done|].
  rewrite fmap_cons, !filter_cons, IH. specialize (HQ k v). unfold to_item at 1. simpl.
  destruct (decide (Q _)), (decide (in_domain _ _ _)); tauto || done.
Qed.

(** A memIterator on sorted items keeps those of its domain, for the ranges
    the interface allows. *)
Lemma newMemIterator_items `{LibDBLaws} start end_ (cl : list (bytes * slice)) :
  good_range start end_ ->
  mi_items (newMemIterator start end_ (to_item <$> cl)) =
  to_item <$> filter (fun p => in_domain start end_ p.1) cl.
Proof.
  intros Hg.
  assert (Hd : forall k, Is_true (IsKeyInDomain (Some k) start end_
      (negb (bool_decide (keyCompare start end_ = Lt)))) <-> in_domain start end_ k).
  { intros k. destruct (decide (keyCompare start end_ = Lt)) as [E|E].
    - rewrite bool_decide_eq_true_2 by done. simpl.
      by rewrite IsKeyInDomain_forward, bool_decide_spec.
    - rewrite bool_decide_eq_false_2 by done. simpl.
      rewrite IsKeyInDomain_reverse, bool_decide_spec.
      destruct start, end_; simpl in *; done. }
  apply filter_items. intros k v. apply Hd.
Qed.

Lemma keys_sorted_filter {V} asc (Q : bytes * V -> Prop) `{!forall x, Decision (Q x)} l :
  keys_sorted asc l -> keys_sorted asc (filter Q l).
Proof.
  induction 1 as [|p l Hs IH Hf]; [constructor|]. rewrite filter_cons.
  destruct (decide (Q p)); [|done]. constructor; [done|].
  rewrite Forall_forall in *. intros r [_ Hr]%list_elem_of_filter. by apply Hf.
Qed.

(** Merging the parent's range with the sorted items of [c] that lie in the
    domain gives the range of the overlay. *)
Lemma merge_overlay (asc : bool) (start end_ : slice) (m : gmap bytes bytes)
    (c : gmap bytes slice) (pl : list (bytes * bytes)) (cl : list (bytes * slice)) :
  is_range asc start end_ m pl ->
  keys_sorted asc cl ->
  (forall k v, (k, v) ∈ cl <-> c !! k = Some v) ->
  is_range asc start end_ (overlay c m)
    (merge_entries asc pl (filter (fun p => in_domain start end_ p.1) cl)).
Proof.
  intros [Hsp Hp] Hsc Hc.
  pose proof (keys_sorted_filter asc (fun p => in_domain start end_ p.1) _ Hsc) as Hsf.
  split; [by apply merge_sorted|]. intros k v. rewrite merge_elem by done.
  rewrite list_elem_of_filter, Hc, Hp, lookup_overlay. simpl.
  assert (Hin : in_domain start end_ k ->
    k ∈ (filter (fun p => in_domain start end_ p.1) cl).*1 <-> is_Some (c !! k)).
  { intros Hd. rewrite list_elem_of_fmap. split.
    - intros ([k' v'] & -> & [_ H']%list_elem_of_filter). exists v'. by apply Hc.
    - intros [v' H']. exists (k, v'). split; [done|]. apply list_elem_of_filter.
      split; [done|]. by apply Hc. }
  split.
  - intros [[Hd ->]|[[Hm Hd] Hn]]; [done|]. rewrite Hin in Hn by done.
    destruct (c !! k) eqn:E; [|done]. contradict Hn. eauto.
  - intros [Ho Hd]. destruct (c !! k) as [v'|] eqn:E; [left; by subst|].
    right. split; [done|]. rewrite Hin by done. rewrite ?E. by intros [? ?].
Qed.
