(* ===== verification/CacheKV.v ===== *)
(** * store/cachekvstore.go: the write-back cache over a key-value store

    [cacheKVStore] is an instance of the interface [KVStore] over any parent
    that is one; [cacheKV_laws] shows that it keeps the interface's laws, with
    the cached entries written over the parent's as its view, and [Write_view]
    that Write makes the parent agree with that view. *)
From Stdlib Require Import Strings.Byte Strings.String Sorting.Sorted.
From S2P Require Import Prelude KVStore MergeIterator.
#[local] Open Scope Z_scope.
#[local] Open Scope string_scope.
#[local] Open Scope list_scope.

(** If value is nil but deleted is false, it means the parent doesn't have the
    key. *)
Record cValue := mk_cValue { cv_value : slice; cv_deleted : bool; cv_dirty : bool }.

Record cacheKVStore (P : Type) := mk_cacheKVStore {
  ck_cache : gmap bytes cValue; ck_parent : P }.
Arguments mk_cacheKVStore {P}.
Arguments ck_cache {P}.
Arguments ck_parent {P}.

(** sort.Strings *)
Definition sort_Strings (keys : list bytes) : list bytes := merge_sort bytes_le keys.

Section cachekv.
Context {P : Type} `{KVStore P} `{LibDB}.

Definition NewCacheKVStore (parent : P) : cacheKVStore P := mk_cacheKVStore ∅ parent.

Definition onP {A} (m : M P A) : M (cacheKVStore P) A :=
  zoom ck_parent (fun p ci => mk_cacheKVStore (ck_cache ci) p) m.

Definition assertValidKey (key : slice) : M (cacheKVStore P) unit :=
  match key with None => panicM (PanicString "key is nil") | Some _ => mret tt end.

(** Only entrypoint to mutate ci.cache. *)
Definition setCacheValue (key value : slice) (deleted dirty : bool) : M (cacheKVStore P) unit :=
  ci ← getM;
  putM (mk_cacheKVStore (<[slice_bytes key := mk_cValue value deleted dirty]> (ck_cache ci))
          (ck_parent ci)).

Definition cacheKV_Get (key : slice) : M (cacheKVStore P) slice :=
  assertValidKey key;;
  ci ← getM;
  match ck_cache ci !! slice_bytes key with
  | None => value ← onP (Get key); setCacheValue key value false false;; mret value
  | Some cacheValue => mret (cv_value cacheValue)
  end.

Definition cacheKV_Set (key value : slice) : M (cacheKVStore P) unit :=
  assertValidKey key;; setCacheValue key value false true.

Definition cacheKV_Has (key : slice) : M (cacheKVStore P) bool :=
  value ← cacheKV_Get key; mret (bool_decide (value <> None)).

Definition cacheKV_Delete (key : slice) : M (cacheKVStore P) unit :=
  assertValidKey key;; setCacheValue key None true true.

(** The body of Write's loop over the dirty keys. *)
Definition Write_key (key : bytes) : M (cacheKVStore P) unit :=
  ci ← getM;
  let cacheValue := default (mk_cValue None false false) (ck_cache ci !! key) in
  if cv_deleted cacheValue then onP (Delete (Some key))
  else match cv_value cacheValue with
       | None => mret tt
       | Some v => onP (Set_ (Some key) (Some v))
       end.

Definition Write : M (cacheKVStore P) unit :=
  ci ← getM;
  let keys := (filter (fun p => cv_dirty p.2) (map_to_list (ck_cache ci))).*1 in
  iterM Write_key (sort_Strings keys);;
  ci ← getM; putM (mk_cacheKVStore ∅ (ck_parent ci)).

(** A slice of the dirty items, sorted, for the memIterator. *)
Definition dirtyItems (ascending : bool) (ci : cacheKVStore P) : list KVPair :=
  to_item <$> sort_keys ascending
    ((fun p => (p.1, cv_value p.2)) <$> filter (fun p => cv_dirty p.2) (map_to_list (ck_cache ci))).

Definition cacheKV_iterator (start end_ : slice) (ascending : bool)
  : M (cacheKVStore P) (cacheMergeIterator Iter) :=
  parent ← onP (if ascending then Iterator start end_ else ReverseIterator start end_);
  ci ← getM;
  let items := dirtyItems ascending ci in
  let cache := newMemIterator start end_ items in
  mret (newCacheMergeIterator parent cache ascending).

(** A merge iterator's methods, run on the cache store. *)
Definition onIter {A} (m : M (mstate (P:=P)) A)
  : M (cacheKVStore P * cacheMergeIterator Iter) A :=
  zoom (fun st => (ck_parent st.1, st.2))
       (fun '(p, it) st => (mk_cacheKVStore (ck_cache st.1) p, it)) m.

#[global] Instance cacheKV_KVStore : KVStore (cacheKVStore P) := {
  Iter := cacheMergeIterator Iter;
  Get := cacheKV_Get;
  Has := cacheKV_Has;
  Set_ := cacheKV_Set;
  Delete := cacheKV_Delete;
  Iterator start end_ := cacheKV_iterator start end_ true;
  ReverseIterator start end_ := cacheKV_iterator start end_ false;
  Valid := onIter cm_Valid;
  Next := onIter cm_Next;
  Key := onIter cm_Key;
  Value := onIter cm_Value;
}.
End cachekv.

(** CacheWrap: a cache store over the cache store. *)
Definition cacheKV_CacheWrap {P} (ci : cacheKVStore P) : cacheKVStore (cacheKVStore P) :=
  NewCacheKVStore ci.

(** ** The laws *)

Section cachekv_laws.
Context {P : Type} `{KVStoreLaws P} `{LibDBLaws}.

(** A clean entry repeats the parent; a dirty one is a deletion or holds a
    value. *)
Definition cv_ok (parent : gmap bytes bytes) (k : bytes) (cv : cValue) : Prop :=
  if cv_dirty cv
  then (cv_deleted cv = true /\ cv_value cv = None) \/
       (cv_deleted cv = false /\ cv_value cv <> None)
  else cv_deleted cv = false /\ cv_value cv = parent !! k.

Definition ck_wf (V : gmap bytes bytes) (ci : cacheKVStore P) : Prop :=
  wf (ck_parent ci) /\ view (ck_parent ci) = V /\
  forall k cv, ck_cache ci !! k = Some cv -> cv_ok V k cv.

Definition ck_view (ci : cacheKVStore P) : gmap bytes bytes :=
  overlay (cv_value <$> ck_cache ci) (view (ck_parent ci)).

Lemma lookup_ck_view ci k :
  ck_view ci !! k = match ck_cache ci !! k with
                    | Some cv => cv_value cv
                    | None => view (ck_parent ci) !! k
                    end.
Proof. unfold ck_view. rewrite lookup_overlay, lookup_fmap. by destruct (ck_cache ci !! k). Qed.

Lemma ck_wf_self V ci : ck_wf V ci -> ck_wf (view (ck_parent ci)) ci.
Proof. by intros (? & <- & ?). Qed.

Variable V : gmap bytes bytes.

Lemma onP_run {A} (m : M P A) ci a (Q : P -> Prop) :
  steps m (ck_parent ci) a Q ->
  steps (onP m) ci a (fun ci' => ck_cache ci' = ck_cache ci /\ Q (ck_parent ci')).
Proof. intros (p' & Hm & HQ). eexists. split; [by apply zoom_eq|]. by split. Qed.

(** A read through to the parent changes neither the cache nor the view. *)
Lemma onP_keeps ci ci' :
  ck_wf V ci -> ck_cache ci' = ck_cache ci -> wf (ck_parent ci') ->
  view (ck_parent ci') = view (ck_parent ci) -> ck_wf V ci' /\ ck_view ci' = ck_view ci.
Proof.
  intros (Hw & HV & Hc) E Hw' Hv. unfold ck_wf, ck_view. by rewrite E, Hv.
Qed.

Lemma setCacheValue_run ci k v deleted dirty :
  ck_wf V ci -> cv_ok V k (mk_cValue v deleted dirty) ->
  steps (setCacheValue (Some k) v deleted dirty) ci tt
    (fun ci' => ck_wf V ci' /\ ck_parent ci' = ck_parent ci /\
       forall k', ck_view ci' !! k' = if decide (k' = k) then v else ck_view ci !! k').
Proof.
  intros (Hw & HV & Hc) Hok. eexists. split; [done|]. unfold ck_wf. simpl. split_and!; [done..| |done|].
  - intros k' cv' Hcv'. destruct (decide (k' = k)) as [ -> |Hne].
    + rewrite lookup_insert_eq in Hcv'. by injection Hcv' as <-.
    + rewrite lookup_insert_ne in Hcv' by done. by apply Hc.
  - intros k'. rewrite !lookup_ck_view. simpl. destruct (decide (k' = k)) as [ -> |Hne].
    + by rewrite lookup_insert_eq.
    + by rewrite lookup_insert_ne by done.
Qed.

Lemma cacheKV_Get_run ci k :
  ck_wf V ci ->
  steps (cacheKV_Get (Some k)) ci (ck_view ci !! k)
    (fun ci' => ck_wf V ci' /\ ck_view ci' = ck_view ci).
Proof.
  intros Hwf. unfold cacheKV_Get. simpl.
  apply steps_ret_bind, steps_get_bind.
  rewrite lookup_ck_view. destruct (ck_cache ci !! k) as [cv|] eqn:E.
  { by apply steps_ret. }
  eapply steps_bind; [apply onP_run, law_Get, Hwf|]. intros ci1 (Ec & Hw1 & Hv1).
  destruct (onP_keeps ci ci1 Hwf Ec Hw1 Hv1) as [Hwf1 Hview1].
  eapply steps_bind; [apply setCacheValue_run; [done|by destruct Hwf as (_ & <- & _)]|].
  intros ci2 (Hwf2 & Hp2 & Hview2). apply steps_ret. split; [done|].
  apply map_eq. intros k'. rewrite Hview2, Hview1. destruct (decide (k' = k)) as [ -> |]; [|done].
  by rewrite lookup_ck_view, E.
Qed.

Lemma cacheKV_update_run ci k v deleted :
  ck_wf V ci -> (deleted = true /\ v = None) \/ (deleted = false /\ v <> None) ->
  steps (assertValidKey (Some k);; setCacheValue (Some k) v deleted true) ci tt
    (fun ci' => ck_wf V ci' /\ ck_view ci' = partial_alter (fun _ => v) k (ck_view ci)).
Proof.
  intros Hwf Hok. apply steps_ret_bind.
  eapply steps_mono; [by apply setCacheValue_run|].
  intros ci' (Hwf' & _ & Hv). split; [done|]. apply map_eq. intros k'. rewrite Hv.
  destruct (decide (k' = k)) as [ -> |]; [by rewrite lookup_partial_alter_eq|].
  by rewrite lookup_partial_alter_ne.
Qed.

(** *** Iterators *)

Definition ck_iter_rep (asc : bool) (it : cacheMergeIterator Iter) (l : list (bytes * bytes)) : Prop :=
  exists pl cl, merge_entries asc pl cl = l /\ iter_rep asc (cm_parent it) pl /\
    mi_items (cm_cache it) = to_item <$> cl /\ cm_ascending it = asc /\ keys_sorted asc cl.

Lemma ck_iter_mview asc it l ci :
  ck_wf V ci -> ck_iter_rep asc it l ->
  mview asc V l (ck_parent ci, it).
Proof. intros (Hw & HV & _) (pl & cl & Hl & ?). exists pl, cl. split; [done|]. unfold mrep. naive_solver. Qed.

Lemma onIter_run {A} (m : M mstate A) asc it l l' ci a :
  ck_wf V ci -> ck_iter_rep asc it l ->
  (forall st, mview asc V l st -> steps m st a (mview asc V l')) ->
  steps (onIter m) (ci, it) a
    (fun '(ci', it') => ck_wf V ci' /\ ck_view ci' = ck_view ci /\ ck_iter_rep asc it' l').
Proof.
  intros Hwf Hr Hm.
  destruct (Hm _ (ck_iter_mview asc it l ci Hwf Hr)) as ([p' it'] & Hrun & pl & cl & Hl & Hrep).
  eexists. split; [by apply zoom_eq|]. destruct Hrep as (Hw & Hv & Hi & Hit & Ha & Hs). simpl in *.
  destruct (onP_keeps ci (mk_cacheKVStore (ck_cache ci) p') Hwf) as [Hwf' Hview'];
    [done..|by destruct Hwf as (_ & -> & _)|].
  split_and!; [done..|]. exists pl, cl. done.
Qed.

(** The dirty entries alone give the same overlay: the clean ones repeat the
    parent. *)
Definition dirty_map (ci : cacheKVStore P) : gmap bytes slice :=
  cv_value <$> filter (fun p => cv_dirty p.2) (ck_cache ci).

Lemma dirty_overlay ci :
  ck_wf V ci -> overlay (dirty_map ci) (view (ck_parent ci)) = ck_view ci.
Proof.
  intros (_ & HV & Hc). apply map_eq. intros k. rewrite lookup_overlay, lookup_ck_view, HV.
  unfold dirty_map. rewrite lookup_fmap.
  destruct (ck_cache ci !! k) as [cv|] eqn:E.
  - specialize (Hc k cv E). unfold cv_ok in Hc. destruct (cv_dirty cv) eqn:Ed.
    + rewrite (map_lookup_filter_Some_2 _ _ _ cv); [done|done|]. simpl. by rewrite Ed.
    + rewrite map_lookup_filter_None_2; [symmetry; apply Hc|]. right.
      intros cv' Hcv'. simplify_eq. simpl. rewrite Ed. tauto.
  - by rewrite map_lookup_filter_None_2 by (by left).
Qed.

Lemma dirty_list_fst (ci : cacheKVStore P) :
  ((fun p => (p.1, cv_value p.2)) <$> filter (fun p => cv_dirty p.2) (map_to_list (ck_cache ci))).*1
  = (filter (fun p => cv_dirty p.2) (map_to_list (ck_cache ci))).*1.
Proof. rewrite <- list_fmap_compose. by apply list_fmap_ext. Qed.

Lemma dirty_list_NoDup (ci : cacheKVStore P) :
  NoDup (filter (fun p => cv_dirty p.2) (map_to_list (ck_cache ci))).*1.
Proof.
  eapply sublist_NoDup; [apply (NoDup_fst_map_to_list (ck_cache ci))|].
  apply sublist_fmap, sublist_filter.
Qed.

Lemma dirty_list_elem ci k v :
  (k, v) ∈ ((fun p => (p.1, cv_value p.2)) <$>
    filter (fun p => cv_dirty p.2) (map_to_list (ck_cache ci)))
  <-> dirty_map ci !! k = Some v.
Proof.
  unfold dirty_map. rewrite list_elem_of_fmap, lookup_fmap, fmap_Some. split.
  - intros ([k' cv] & [= -> ->] & [Hd Hin]%list_elem_of_filter).
    apply elem_of_map_to_list in Hin. exists cv. split; [|done].
    by apply map_lookup_filter_Some.
  - intros (cv & [Hin Hd]%map_lookup_filter_Some & ->). exists (k, cv). split; [done|].
    apply list_elem_of_filter. split; [done|]. by apply elem_of_map_to_list.
Qed.

Lemma cacheKV_iterator_run ci start end_ asc :
  ck_wf V ci -> good_range start end_ -> (asc = false -> KVStoreReverse P) ->
  exists it l, is_range asc start end_ (ck_view ci) l /\ ck_iter_rep asc it l /\
  steps (cacheKV_iterator start end_ asc) ci it
    (fun ci' => ck_wf V ci' /\ ck_view ci' = ck_view ci).
Proof.
  intros Hwf Hg Hrev.
  assert (exists it pl, is_range asc start end_ (view (ck_parent ci)) pl /\ iter_rep asc it pl /\
    steps (if asc then Iterator start end_ else ReverseIterator start end_) (ck_parent ci) it
      (fun p' => wf p' /\ view p' = view (ck_parent ci))) as (pit & pl & Hrng & Hrep & Hrun).
  { destruct asc; [apply law_Iterator|apply Hrev]; try done; apply Hwf. }
  set (cl := sort_keys asc ((fun p => (p.1, cv_value p.2)) <$>
    filter (fun p => cv_dirty p.2) (map_to_list (ck_cache ci)))).
  assert (Hcs : keys_sorted asc cl).
  { apply sort_keys_sorted. rewrite dirty_list_fst. apply dirty_list_NoDup. }
  exists (newCacheMergeIterator pit (newMemIterator start end_ (dirtyItems asc ci)) asc),
    (merge_entries asc pl (filter (fun p => in_domain start end_ p.1) cl)).
  split_and!.
  - rewrite <- dirty_overlay by done. apply merge_overlay; [done..|]. intros k v.
    unfold cl. rewrite sort_keys_Permutation. apply dirty_list_elem.
  - eexists pl, _. split; [done|].
    split_and!; [exact Hrep|by apply newMemIterator_items|done|by apply keys_sorted_filter].
  - eapply steps_bind; [by apply onP_run|]. intros ci1 (Ec & Hw1 & Hv1).
    destruct (onP_keeps ci ci1 Hwf Ec Hw1 Hv1) as [Hwf1 Hview1].
    exists ci1. split; [|done]. unfold mbind, M_bind, getM, dirtyItems. by rewrite Ec.
Qed.

#[local, refine] Instance cacheKV_laws_at : KVStoreLaws (cacheKVStore P) := {
  wf := ck_wf V; view := ck_view; iter_rep := ck_iter_rep; }.
Proof.
  - intros asc it l (pl & cl & <- & Hr & _ & _ & Hs). apply merge_sorted; [|done].
    by eapply law_iter_sorted.
  - intros ci k Hwf. by apply cacheKV_Get_run.
  - intros ci k Hwf. eapply steps_bind; [by apply cacheKV_Get_run|]. intros ci' Hci'.
    assert (bool_decide (ck_view ci !! k <> None) = bool_decide (is_Some (ck_view ci !! k))) as ->.
    { apply bool_decide_ext. by rewrite not_eq_None_Some. }
    by apply steps_ret.
  - intros ci k v Hwf. eapply steps_mono; [apply cacheKV_update_run; [done|by right]|].
    intros ci' [Hwf' ->]. done.
  - intros ci k Hwf. eapply steps_mono; [apply cacheKV_update_run; [done|by left]|].
    intros ci' [Hwf' ->]. done.
  - intros ci start end_ Hwf Hg. by apply cacheKV_iterator_run.
  - intros ci asc it l Hwf Hr. eapply onIter_run; [done..|]. intros. by apply cm_Valid_run.
  - intros ci asc it kv l Hwf Hr. eapply onIter_run; [done..|]. intros. by eapply cm_Next_run.
  - intros ci asc it k v l Hwf Hr. eapply onIter_run; [done..|]. intros. by eapply cm_Key_run.
  - intros ci asc it k v l Hwf Hr. eapply onIter_run; [done..|]. intros. by eapply cm_Value_run.
Defined.

Lemma cacheKV_reverse_at `{!KVStoreReverse P} : KVStoreReverse (cacheKVStore P) (H0:=cacheKV_laws_at).
Proof. intros ci start end_ Hwf Hg. by apply cacheKV_iterator_run. Qed.
End cachekv_laws.

(** The laws, the parent's view staying the one it is at the start: until
    Write the parent's map is unchanged. *)
#[export, refine] Instance cacheKV_laws {P} `{KVStoreLaws P} `{LibDBLaws}
  : KVStoreLaws (cacheKVStore P) := {
  wf ci := ck_wf (view (ck_parent ci)) ci; view := ck_view; iter_rep := ck_iter_rep; }.
Proof.
  - apply (law_iter_sorted (KVStoreLaws:=cacheKV_laws_at ∅)).
  - intros ci k Hwf. eapply steps_mono; [by apply (law_Get (KVStoreLaws:=cacheKV_laws_at (view (ck_parent ci))))|].
    intros ci' [Hw ?]. split_and!; [exact (ck_wf_self _ _ Hw)|done..].
  - intros ci k Hwf. eapply steps_mono; [by apply (law_Has (KVStoreLaws:=cacheKV_laws_at (view (ck_parent ci))))|].
    intros ci' [Hw ?]. split_and!; [exact (ck_wf_self _ _ Hw)|done..].
  - intros ci k v Hwf. eapply steps_mono; [by apply (law_Set (KVStoreLaws:=cacheKV_laws_at (view (ck_parent ci))))|].
    intros ci' [Hw ?]. split_and!; [exact (ck_wf_self _ _ Hw)|done..].
  - intros ci k Hwf. eapply steps_mono; [by apply (law_Delete (KVStoreLaws:=cacheKV_laws_at (view (ck_parent ci))))|].
    intros ci' [Hw ?]. split_and!; [exact (ck_wf_self _ _ Hw)|done..].
  - intros ci start end_ Hwf Hg.
    destruct (law_Iterator (KVStoreLaws:=cacheKV_laws_at (view (ck_parent ci))) ci start end_ Hwf Hg)
      as (it & l & Hl & Hr & Hs). exists it, l. split_and!; [done..|].
    eapply steps_mono; [exact Hs|]. intros ci' [Hw ?]. split_and!; [exact (ck_wf_self _ _ Hw)|done..].
  - intros ci asc it l Hwf Hr.
    eapply steps_mono; [by apply (law_Valid (KVStoreLaws:=cacheKV_laws_at (view (ck_parent ci))))|].
    intros [ci' it'] (Hw & ? & ?). split_and!; [exact (ck_wf_self _ _ Hw)|done..].
  - intros ci asc it kv l Hwf Hr.
    eapply steps_mono; [by eapply (law_Next (KVStoreLaws:=cacheKV_laws_at (view (ck_parent ci))))|].
    intros [ci' it'] (Hw & ? & ?). split_and!; [exact (ck_wf_self _ _ Hw)|done..].
  - intros ci asc it k v l Hwf Hr.
    eapply steps_mono; [by eapply (law_Key (KVStoreLaws:=cacheKV_laws_at (view (ck_parent ci))))|].
    intros [ci' it'] (Hw & ? & ?). split_and!; [exact (ck_wf_self _ _ Hw)|done..].
  - intros ci asc it k v l Hwf Hr.
    eapply steps_mono; [by eapply (law_Value (KVStoreLaws:=cacheKV_laws_at (view (ck_parent ci))))|].
    intros [ci' it'] (Hw & ? & ?). split_and!; [exact (ck_wf_self _ _ Hw)|done..].
Defined.

#[export] Instance cacheKV_reverse {P} `{KVStoreReverse P} `{LibDBLaws}
  : KVStoreReverse (cacheKVStore P).
Proof.
  intros ci start end_ Hwf Hg.
  destruct (cacheKV_reverse_at (view (ck_parent ci)) ci start end_ Hwf Hg)
    as (it & l & Hl & Hr & Hs). exists it, l. split_and!; [done..|].
  eapply steps_mono; [exact Hs|]. intros ci' [Hw ?]. split_and!; [exact (ck_wf_self _ _ Hw)|done..].
Qed.

Section cachekv_write.
Context {P : Type} `{KVStoreLaws P} `{LibDBLaws}.

(** *** Write *)

Definition flush_key (c : gmap bytes cValue) (m : gmap bytes bytes) (k : bytes) : gmap bytes bytes :=
  let cv := default (mk_cValue None false false) (c !! k) in
  if cv_deleted cv then delete k m
  else match cv_value cv with None => m | Some v => <[k := v]> m end.

(** A loop of parent updates: the cache is left alone and the parent's view
    is the fold of the updates. *)
Lemma Write_loop_run (keys : list bytes) ci :
  wf (ck_parent ci) ->
  steps (iterM Write_key keys) ci tt (fun ci' => ck_cache ci' = ck_cache ci /\ wf (ck_parent ci') /\
    view (ck_parent ci') = foldl (flush_key (ck_cache ci)) (view (ck_parent ci)) keys).
Proof.
  revert ci. induction keys as [|k keys IH]; intros ci Hw; [by apply steps_ret|]. simpl.
  assert (steps (Write_key k) ci tt (fun ci' => ck_cache ci' = ck_cache ci /\
    wf (ck_parent ci') /\ view (ck_parent ci') = flush_key (ck_cache ci) (view (ck_parent ci)) k))
    as Hk.
  { apply steps_get_bind. unfold flush_key. destruct (cv_deleted _).
    { eapply steps_mono; [apply onP_run, law_Delete, Hw|done]. }
    destruct (cv_value _); [|by apply steps_ret].
    eapply steps_mono; [apply onP_run, law_Set, Hw|done]. }
  eapply steps_bind; [exact Hk|]. intros ci1 (Ec & Hw1 & Hv1).
  eapply steps_mono; [by apply IH|]. rewrite Ec, Hv1. done.
Qed.

Lemma lookup_flush V (ci : cacheKVStore P) keys m k :
  (forall k', k' ∈ keys -> is_Some (dirty_map ci !! k')) -> ck_wf V ci ->
  foldl (flush_key (ck_cache ci)) m keys !! k =
  if decide (k ∈ keys) then ck_view ci !! k else m !! k.
Proof.
  intros Hd Hwf. revert m. induction keys as [|k0 keys IH]; intros m; [done|]. simpl.
  rewrite IH by (intros; apply Hd; by right). clear IH.
  destruct (decide (k ∈ keys)).
  { rewrite decide_True by (by right). done. }
  specialize (Hd k0 (list_elem_of_here _ _)). unfold dirty_map in Hd.
  rewrite lookup_fmap, fmap_is_Some in Hd.
  destruct Hd as [cv [Hcv Hdirty]%map_lookup_filter_Some]. simpl in Hdirty.
  destruct Hwf as (_ & _ & Hc). specialize (Hc k0 cv Hcv). unfold cv_ok in Hc.
  destruct (cv_dirty cv); [|done]. unfold flush_key. rewrite Hcv. simpl.
  destruct (decide (k = k0)) as [ -> |Hne].
  - rewrite decide_True by (by left). rewrite lookup_ck_view, Hcv.
    destruct Hc as [[ -> -> ]|[ -> Hv]]; [by rewrite lookup_delete_eq|].
    destruct (cv_value cv); [by rewrite lookup_insert_eq|done].
  - rewrite decide_False by (intros [|]%elem_of_cons; done).
    destruct (cv_deleted cv); [by rewrite lookup_delete_ne|].
    destruct (cv_value cv); [by rewrite lookup_insert_ne|done].
Qed.

Lemma Write_run ci :
  wf ci ->
  steps Write ci tt (fun ci' => wf ci' /\ ck_cache ci' = ∅ /\
    ck_view ci' = ck_view ci /\ view (ck_parent ci') = ck_view ci).
Proof.
  intros Hwf. unfold Write. apply steps_get_bind.
  set (keys := sort_Strings _).
  assert (Hkeys : forall k, k ∈ keys <-> is_Some (dirty_map ci !! k)).
  { intros k. unfold keys, sort_Strings. rewrite merge_sort_Permutation, <- dirty_list_fst.
    rewrite list_elem_of_fmap. split.
    - intros ([k' v] & -> & Hin). exists v. by apply dirty_list_elem.
    - intros [v Hv]. exists (k, v). split; [done|]. by apply dirty_list_elem. }
  eapply steps_bind; [apply Write_loop_run, Hwf|]. intros ci1 (Ec & Hw1 & Hv1).
  apply steps_get_bind. eexists. split; [done|]. simpl. unfold ck_wf, ck_view. simpl.
  rewrite fmap_empty, overlay_empty. fold (ck_view ci).
  assert (view (ck_parent ci1) = ck_view ci) as ->.
  { apply map_eq. intros k. rewrite Hv1.
    rewrite (lookup_flush _ ci keys _ k (fun k' Hk' => proj1 (Hkeys k') Hk') Hwf).
    destruct (decide (k ∈ keys)) as [|Hn]; [done|]. rewrite Hkeys in Hn.
    rewrite <- (dirty_overlay _ ci Hwf), lookup_overlay.
    destruct (dirty_map ci !! k); [by destruct Hn|done]. }
  by split_and!.
Qed.

Lemma NewCacheKVStore_wf p : wf p -> wf (NewCacheKVStore p) /\ ck_view (NewCacheKVStore p) = view p.
Proof.
  intros Hw. unfold ck_view. simpl. unfold ck_wf. simpl. rewrite fmap_empty, overlay_empty. done.
Qed.
End cachekv_write.

(** ** Properties *)


(** Set(k, nil) on a fresh cache store makes k read as absent, but Write
    skips the entry, so a parent that has k keeps it: the cache's own view and
    the flushed state disagree. *)
Theorem Write_skips_nil_set {P} `{KVStoreLaws P} `{LibDBLaws} (p : P) (k : bytes) (Hwf : wf p) :
  exists ci ci',
    (Set_ (Some k) None;; Get (Some k)) (NewCacheKVStore p) = (Ok None, ci) /\
    Write ci = (Ok tt, ci') /\ ck_parent ci' = p /\ view (ck_parent ci') !! k = view p !! k.
Proof.
  eexists _, _. split.
  - simpl. unfold cacheKV_Set, cacheKV_Get, assertValidKey, setCacheValue, mbind, M_bind, getM, putM.
    simpl. rewrite lookup_insert_eq. done.
  - unfold Write, mbind, M_bind, getM, putM, NewCacheKVStore. simpl.
    rewrite insert_empty, map_to_list_singleton. simpl.
    unfold Write_key, mbind, M_bind, getM, putM. simpl. by rewrite lookup_singleton_eq.
Qed.

(** a cache store over a cache store (CacheWrap of a CacheWrap, as a
    transaction's store over the block's): until its Write the inner store's
    map is unchanged; Write hands it the outer one's; the bottom store is not
    touched in either case. *)
Theorem cacheKV_nested_write {P} `{KVStoreReverse P} `{LibDBLaws} (ci : cacheKVStore P)
    (ops : list kv_op) (Hwf : wf ci) (Hops : Forall op_ok ops) :
  exists rs top top',
    run_ops ops (cacheKV_CacheWrap ci) = (Ok rs, top) /\ Write top = (Ok tt, top') /\
    view (ck_parent top) = view ci /\
    view (ck_parent top') = spec_final ops (view ci) /\
    view (ck_parent (ck_parent top')) = view (ck_parent ci).
Proof.
  pose (inner := cacheKV_laws_at (view (ck_parent ci))).
  pose (outer := cacheKV_laws_at (P:=cacheKVStore P) (H0:=inner) (view ci)).
  pose (inner_rev := cacheKV_reverse_at (view (ck_parent ci)) : KVStoreReverse _ (H0:=inner)).
  pose (outer_rev := cacheKV_reverse_at (P:=cacheKVStore P) (H0:=inner) (view ci)).
  destruct (NewCacheKVStore_wf (P:=cacheKVStore P) (H0:=inner) ci Hwf) as [Hw Hv].
  destruct (run_ops_spec (H0:=outer) ops (NewCacheKVStore ci) Hw Hops (fun _ => outer_rev)) as (top & Hrun & Hwt & Hvt).
  destruct (Write_run (P:=cacheKVStore P) (H0:=inner) top (ck_wf_self _ _ Hwt))
    as (top' & HW & Hwt' & _ & _ & Hvt').
  simpl in Hv, Hvt, Hvt'. eexists _, top, top'. split_and!; [exact Hrun|exact HW|apply Hwt| |apply Hwt'].
  simpl. by rewrite Hvt', Hvt, Hv.
Qed.

(** ** Witnesses, over the specification store and a concrete [IsKeyInDomain] *)

Definition model_LibDB : LibDB := {|
  IsKeyInDomain := fun k start end_ rev =>
    if rev then bool_decide (in_domain_reverse start end_ (slice_bytes k))
    else bool_decide (in_domain start end_ (slice_bytes k)) |}.
Lemma model_LibDBLaws : LibDBLaws (H:=model_LibDB).
Proof. split; done. Qed.

#[local] Existing Instance model_LibDB.
#[local] Existing Instance model_LibDBLaws.

Definition cachekv_example : spec_store := {[ [Byte.x01] := [Byte.x0a]; [Byte.x03] := [Byte.x0c] ]}.
Definition cachekv_example_ops : list kv_op :=
  [OpGet [Byte.x01]; OpSet [Byte.x02] [Byte.x0b]; OpDelete [Byte.x03];
   OpScan true None None 5; OpScan false (Some [Byte.x01]) (Some [Byte.x02]) 5; OpHas [Byte.x03]].


Lemma Write_skips_nil_set_witness :
  (wf cachekv_example) /\
  exists ci ci',
    (Set_ (Some [Byte.x01]) None;; Get (Some [Byte.x01])) (NewCacheKVStore cachekv_example)
      = (Ok None, ci) /\
    Write ci = (Ok tt, ci') /\ ck_parent ci' = cachekv_example /\
    view (ck_parent ci') !! [Byte.x01] = view cachekv_example !! [Byte.x01].
Proof. split; [exact I|]. apply (Write_skips_nil_set (P:=spec_store) (H0:=spec_laws) cachekv_example [Byte.x01] I). Defined.

Lemma cacheKV_nested_write_witness :
  wf (NewCacheKVStore cachekv_example) /\ Forall op_ok cachekv_example_ops /\
  exists rs top top',
    run_ops cachekv_example_ops (cacheKV_CacheWrap (NewCacheKVStore cachekv_example)) =
      (Ok rs, top) /\ Write top = (Ok tt, top') /\
    view (ck_parent top) = view (NewCacheKVStore cachekv_example) /\
    view (ck_parent top') =
      spec_final cachekv_example_ops (view (NewCacheKVStore cachekv_example)) /\
    view (ck_parent (ck_parent top')) = view (ck_parent (NewCacheKVStore cachekv_example)).
Proof.
  assert (Hw : wf (NewCacheKVStore cachekv_example)).
  { split_and!; [exact I|reflexivity|]. by intros k cv. }
  assert (Hok : Forall op_ok cachekv_example_ops) by repeat constructor.
  split; [exact Hw|]. split; [exact Hok|].
  apply (cacheKV_nested_write (NewCacheKVStore cachekv_example) cachekv_example_ops Hw Hok).
Defined.
