(* ===== verification/PrefixStore.v ===== *)
(** * store/prefixstore.go: a store confined to the keys with a prefix

    [prefix_laws]: over a parent that keeps the interface's laws, with a
    non-empty prefix, the prefix store keeps them for the map of the parent's
    entries below the prefix.  ReverseIterator is modelled as it is; it does
    not keep its law. *)
From Stdlib Require Import Strings.Byte Strings.String Sorting.Sorted.
From S2P Require Import Prelude KVStore.
#[local] Open Scope Z_scope.
#[local] Open Scope string_scope.
#[local] Open Scope list_scope.

(** [append(a, b...)]: nil when both are nil or empty and [a] is nil. *)
Definition slice_append (a b : slice) : slice :=
  match a, slice_bytes b with
  | None, [] => None
  | _, bs => Some (slice_bytes a ++ bs)
  end.

Lemma slice_append_Some a b : slice_append (Some a) b = Some (a ++ slice_bytes b).
Proof. unfold slice_append. by destruct (slice_bytes b). Qed.

(** [b[n:]]; slicing beyond the length panics. *)
Definition slice_from (b : slice) (n : nat) : outcome slice :=
  if decide (n <= length (slice_bytes b))%nat
  then Ok (match b with None => None | Some l => Some (drop n l) end)
  else Panicked (RuntimeError "slice bounds out of range").

Record prefixStore (P : Type) := mk_prefixStore { ps_store : P; ps_prefix : slice }.
Arguments mk_prefixStore {P}.
Arguments ps_store {P}.
Arguments ps_prefix {P}.

Record prefixIterator (I : Type) := mk_prefixIterator { pi_prefix : slice; pi_iter : I }.
Arguments mk_prefixIterator {I}.
Arguments pi_prefix {I}.
Arguments pi_iter {I}.

Section prefixstore.
Context {P : Type} `{KVStore P}.

Definition onStore {A} (m : M P A) : M (prefixStore P) A :=
  zoom ps_store (fun p s => mk_prefixStore p (ps_prefix s)) m.

Definition prefixStore_Get (key : slice) : M (prefixStore P) slice :=
  s ← getM; onStore (Get (slice_append (ps_prefix s) key)).

Definition prefixStore_Has (key : slice) : M (prefixStore P) bool :=
  s ← getM; onStore (Has (slice_append (ps_prefix s) key)).

Definition prefixStore_Set (key value : slice) : M (prefixStore P) unit :=
  s ← getM; onStore (Set_ (slice_append (ps_prefix s) key) value).

Definition prefixStore_Delete (key : slice) : M (prefixStore P) unit :=
  s ← getM; onStore (Delete (slice_append (ps_prefix s) key)).

Definition prefixStore_Iterator (start end_ : slice) : M (prefixStore P) (prefixIterator Iter) :=
  s ← getM;
  end_ ← match end_ with
         | None => liftO (PrefixEndBytes (ps_prefix s))
         | Some _ => mret (slice_append (ps_prefix s) end_)
         end;
  iter ← onStore (Iterator (slice_append (ps_prefix s) start) end_);
  mret (mk_prefixIterator (ps_prefix s) iter).

(** The start is passed on without the prefix. *)
Definition prefixStore_ReverseIterator (start end_ : slice)
  : M (prefixStore P) (prefixIterator Iter) :=
  s ← getM;
  end_ ← match end_ with
         | None => liftO (PrefixEndBytes (ps_prefix s))
         | Some _ => mret (slice_append (ps_prefix s) end_)
         end;
  iter ← onStore (ReverseIterator start end_);
  mret (mk_prefixIterator (ps_prefix s) iter).

Definition onPrefixIter {A} (m : M (P * Iter) A) : M (prefixStore P * prefixIterator Iter) A :=
  zoom (fun st => (ps_store st.1, pi_iter st.2))
       (fun '(p, it) st => (mk_prefixStore p (ps_prefix st.1), mk_prefixIterator (pi_prefix st.2) it)) m.

Definition prefixIterator_Key : M (prefixStore P * prefixIterator Iter) slice :=
  key ← onPrefixIter Key;
  st ← getM;
  liftO (slice_from key (length (slice_bytes (pi_prefix st.2)))).

#[global] Instance prefixStore_KVStore : KVStore (prefixStore P) := {
  Iter := prefixIterator Iter;
  Get := prefixStore_Get;
  Has := prefixStore_Has;
  Set_ := prefixStore_Set;
  Delete := prefixStore_Delete;
  Iterator := prefixStore_Iterator;
  ReverseIterator := prefixStore_ReverseIterator;
  Valid := onPrefixIter Valid;
  Next := onPrefixIter Next;
  Key := prefixIterator_Key;
  Value := onPrefixIter Value;
}.
End prefixstore.

(** Prefix: a prefix store over a store. *)
Definition Prefix {P} (s : P) (prefix : slice) : prefixStore P := mk_prefixStore s prefix.

(** ** The map below a prefix *)

(** What is left of a key after the prefix. *)
Fixpoint strip (p k : bytes) : option bytes :=
  match p, k with
  | [], _ => Some k
  | x :: p', y :: k' => if decide (x = y) then strip p' k' else None
  | _, [] => None
  end.

Lemma strip_Some p k r : strip p k = Some r <-> k = p ++ r.
Proof.
  revert k. induction p as [|x p IH]; intros k; simpl.
  - split; congruence.
  - destruct k as [|y k]; [done|]. destruct (decide (x = y)) as [ -> |]; [|split; congruence].
    rewrite IH. split; congruence.
Qed.

Definition strip_entry (p : bytes) (kv : bytes * bytes) : option (bytes * bytes) :=
  match strip p kv.1 with Some r => Some (r, kv.2) | None => None end.

Definition prefix_view (p : bytes) (m : gmap bytes bytes) : gmap bytes bytes :=
  list_to_map (omap (strip_entry p) (map_to_list m)).

Lemma elem_of_strip_list (p : bytes) (l : list (bytes * bytes)) (r v : bytes) :
  (r, v) ∈ omap (strip_entry p) l <-> (p ++ r, v) ∈ l.
Proof.
  rewrite list_elem_of_omap. unfold strip_entry. split.
  - intros ([k v'] & Hin & Hs). simpl in Hs. destruct (strip p k) eqn:E; [|done].
    simplify_eq. apply strip_Some in E as ->. done.
  - intros Hin. exists (p ++ r, v). split; [done|]. simpl.
    by rewrite (proj2 (strip_Some p (p ++ r) r) eq_refl).
Qed.

Lemma NoDup_strip_list (p : bytes) (l : list (bytes * bytes)) :
  NoDup l.*1 -> NoDup (omap (strip_entry p) l).*1.
Proof.
  induction l as [|[k v] l IH]; [done|]. rewrite fmap_cons, NoDup_cons. intros [Hn Hnd].
  assert (omap (strip_entry p) ((k, v) :: l) = match strip p k with
    | Some r => (r, v) :: omap (strip_entry p) l | None => omap (strip_entry p) l end) as ->.
  { simpl. unfold strip_entry at 1. simpl. by destruct (strip p k). }
  destruct (strip p k) as [r|] eqn:E; [|by apply IH].
  apply strip_Some in E as ->. constructor; [|by apply IH].
  intros ([r' v'] & Hr & Hin)%list_elem_of_fmap. simpl in Hr. subst r'. apply elem_of_strip_list in Hin.
  apply Hn. apply list_elem_of_fmap. by exists (p ++ r, v').
Qed.

Lemma lookup_prefix_view p m r : prefix_view p m !! r = m !! (p ++ r).
Proof.
  apply option_eq. intros v. unfold prefix_view.
  rewrite <- elem_of_list_to_map by apply NoDup_strip_list, NoDup_fst_map_to_list.
  by rewrite elem_of_strip_list, elem_of_map_to_list.
Qed.

Lemma prefix_view_insert p m r v : prefix_view p (<[p ++ r := v]> m) = <[r := v]> (prefix_view p m).
Proof.
  apply map_eq. intros k. rewrite lookup_prefix_view. destruct (decide (k = r)) as [ -> |Hne].
  - by rewrite !lookup_insert_eq.
  - rewrite !lookup_insert_ne, lookup_prefix_view; [done|done|].
    intros H. by apply app_inv_head in H.
Qed.

Lemma prefix_view_delete p m r : prefix_view p (delete (p ++ r) m) = delete r (prefix_view p m).
Proof.
  apply map_eq. intros k. rewrite lookup_prefix_view. destruct (decide (k = r)) as [ -> |Hne].
  - by rewrite !lookup_delete_eq.
  - rewrite !lookup_delete_ne, lookup_prefix_view; [done|done|].
    intros H. by apply app_inv_head in H.
Qed.

(** Entries with the prefix, and their stripped form. *)
Definition add_prefix (p : bytes) (kv : bytes * bytes) : bytes * bytes := (p ++ kv.1, kv.2).

Lemma keys_sorted_add_prefix asc p l :
  keys_sorted asc (add_prefix p <$> l) -> keys_sorted asc l.
Proof.
  induction l as [|[k v] l IH]; intros Hs; [constructor|]. inversion Hs as [|? ? Hs' Hf]; subst.
  constructor; [by apply IH|]. rewrite Forall_forall in *. intros [k' v'] Hin.
  specialize (Hf (add_prefix p (k', v')) (list_elem_of_fmap_2 _ _ _ Hin)).
  revert Hf. simpl. rewrite !key_lt_flip. unfold bytes_lt. by destruct asc; rewrite bytes_compare_app.
Qed.

(** The bounds the parent is asked for. *)
Definition prefix_domain_end (p : bytes) (end_ : slice) : slice :=
  match end_ with None => prefix_end p | Some e => Some (p ++ e) end.

Lemma bytes_le_app p a b : bytes_le (p ++ a) (p ++ b) <-> bytes_le a b.
Proof. unfold bytes_le. by rewrite bytes_compare_app. Qed.

Lemma bytes_lt_app p a b : bytes_lt (p ++ a) (p ++ b) <-> bytes_lt a b.
Proof. unfold bytes_lt. by rewrite bytes_compare_app. Qed.

Lemma prefix_squeeze p a b k : bytes_le (p ++ a) k -> bytes_lt k (p ++ b) -> p `prefix_of` k.
Proof.
  revert k. induction p as [|x p IH]; intros k H1 H2; [apply prefix_nil|].
  destruct k as [|y k]; [by destruct H1|]. simpl in *.
  rewrite bytes_le_cons in H1. rewrite bytes_lt_cons in H2.
  destruct H1 as [H1|[E1 H1]], H2 as [H2|[E2 H2]]; subst; try lia. by apply prefix_cons, IH.
Qed.

Lemma prefix_domain p start end_ k :
  in_domain (Some (p ++ slice_bytes start)) (prefix_domain_end p end_) k <->
  exists r, k = p ++ r /\ in_domain start end_ r.
Proof.
  assert (Hlow : forall r, bytes_le (p ++ slice_bytes start) (p ++ r) <->
    match start with None => True | Some s => bytes_le s r end).
  { intros r. rewrite bytes_le_app. destruct start; simpl; [done|].
    split; [done|]. intros _. apply bytes_le_nil. }
  split.
  - intros [H1 H2].
    assert (p `prefix_of` k) as [r ->].
    { destruct end_ as [e|]; [exact (prefix_squeeze p _ e k H1 H2)|]. apply prefix_end_domain. split; [|exact H2].
      simpl. eapply bytes_le_trans; [|exact H1]. rewrite <- (app_nil_r p) at 1.
      apply bytes_le_app, bytes_le_nil. }
    exists r. split; [done|]. split; [by apply Hlow|].
    destruct end_ as [e|]; [|done]. by apply bytes_lt_app in H2.
  - intros (r & -> & H1 & H2). split; [by apply Hlow|].
    destruct end_ as [e|]; [by apply bytes_lt_app|].
    pose proof (proj2 (prefix_end_domain p (p ++ r)) (prefix_app_r p p r (reflexivity p))) as [_ H].
    exact H.
Qed.

Lemma prefix_good_range p start end_ :
  good_range start end_ -> good_range (Some (p ++ slice_bytes start)) (prefix_domain_end p end_).
Proof.
  unfold good_range. destruct end_ as [e|]; simpl; [by rewrite bytes_lt_app|].
  intros _. destruct (prefix_end p) as [e|] eqn:E; [|done].
  pose proof (proj2 (prefix_end_domain p (p ++ slice_bytes start))
    (prefix_app_r p p _ (reflexivity p))) as [_ H]. by rewrite E in H.
Qed.

(** ** The laws *)

Section prefixstore_laws.
Context {P : Type} `{KVStoreLaws P}.
Variable p : bytes.

(** The parent's map outside the prefix, which no operation changes. *)
Variable V : gmap bytes bytes.
Definition outside (m : gmap bytes bytes) : Prop :=
  forall k, ~ p `prefix_of` k -> m !! k = V !! k.

Definition ps_wf (s : prefixStore P) : Prop :=
  wf (ps_store s) /\ ps_prefix s = Some p /\ outside (view (ps_store s)).
Definition ps_view (s : prefixStore P) : gmap bytes bytes := prefix_view p (view (ps_store s)).
Definition ps_iter_rep (asc : bool) (it : prefixIterator Iter) (l : list (bytes * bytes)) : Prop :=
  pi_prefix it = Some p /\ iter_rep asc (pi_iter it) (add_prefix p <$> l).

(** Running an operation of the parent; [f] is its effect on the map. *)
Lemma onStore_run {A} (m : M P A) (s : prefixStore P) (a : A) (f : gmap bytes bytes -> gmap bytes bytes) :
  ps_wf s -> (forall m, outside m -> outside (f m)) ->
  steps m (ps_store s) a (fun q => wf q /\ view q = f (view (ps_store s))) ->
  steps (onStore m) s a (fun s' => ps_wf s' /\ view (ps_store s') = f (view (ps_store s))).
Proof.
  intros (Hw & Hp & Ho) Hf (q & Hm & Hwq & Hv). eexists. split; [by apply zoom_eq|].
  simpl. split; [|done]. split_and!; [done..|]. simpl. rewrite Hv. by apply Hf.
Qed.

Lemma onPrefixIter_run {A} (m : M (P * Iter) A) s it a asc l' :
  ps_wf s -> pi_prefix it = Some p ->
  steps m (ps_store s, pi_iter it) a (fun '(q, i) => wf q /\ view q = view (ps_store s) /\
    iter_rep asc i (add_prefix p <$> l')) ->
  steps (onPrefixIter m) (s, it) a
    (fun '(s', it') => ps_wf s' /\ ps_view s' = ps_view s /\ ps_iter_rep asc it' l').
Proof.
  intros (Hw & Hp & Ho) Hpi ([q i] & Hm & Hwq & Hv & Hi). eexists. split; [by apply zoom_eq|].
  unfold ps_view. simpl. rewrite Hv. split_and!; try done. split_and!; [done..|].
  simpl. by rewrite Hv.
Qed.

Lemma outside_insert r v m : outside m -> outside (<[p ++ r := v]> m).
Proof.
  intros Ho k Hk. rewrite lookup_insert_ne; [by apply Ho|]. intros <-.
  apply Hk. by apply prefix_app_r.
Qed.

Lemma outside_delete r m : outside m -> outside (delete (p ++ r) m).
Proof.
  intros Ho k Hk. rewrite lookup_delete_ne; [by apply Ho|]. intros <-.
  apply Hk. by apply prefix_app_r.
Qed.

Lemma is_range_prefix asc start end_ m l :
  is_range asc (Some (p ++ slice_bytes start)) (prefix_domain_end p end_) m l ->
  exists l', l = add_prefix p <$> l' /\ is_range asc start end_ (prefix_view p m) l'.
Proof.
  intros [Hs Hl].
  assert (exists l', l = add_prefix p <$> l') as [l' ->].
  { assert (Hall : forall kv, kv ∈ l -> exists kv', kv = add_prefix p kv').
    { intros [k v] Hin. apply Hl in Hin as [_ Hd]. apply prefix_domain in Hd as (r & -> & _).
      by exists (r, v). }
    clear Hs Hl. induction l as [|kv l IH]; [by exists []|].
    destruct (Hall kv (list_elem_of_here _ _)) as [kv' ->].
    destruct IH as [l' ->]; [intros; apply Hall; by right|]. by exists (kv' :: l'). }
  exists l'. split; [done|]. split; [by eapply keys_sorted_add_prefix|]. intros k v.
  rewrite lookup_prefix_view. specialize (Hl (p ++ k) v). rewrite prefix_domain in Hl.
  rewrite list_elem_of_fmap in Hl. split.
  - intros Hin. destruct (proj1 Hl) as (Hm & r & Hr & Hd); [by exists (k, v)|].
    apply app_inv_head in Hr as ->. done.
  - intros [Hm Hd]. destruct (proj2 Hl) as ([k' v'] & Hkv & Hin); [by eauto|].
    unfold add_prefix in Hkv. simpl in Hkv. simplify_eq. done.
Qed.

Lemma prefixStore_Iterator_run s start end_ :
  p <> [] -> ps_wf s -> good_range start end_ ->
  exists it l, is_range true start end_ (ps_view s) l /\ ps_iter_rep true it l /\
  steps (prefixStore_Iterator start end_) s it (fun s' => ps_wf s' /\ ps_view s' = ps_view s).
Proof.
  intros Hne Hwf Hg.
  destruct (law_Iterator (ps_store s) (Some (p ++ slice_bytes start)) (prefix_domain_end p end_)
    (proj1 Hwf) (prefix_good_range _ _ _ Hg)) as (it & l & Hl & Hr & Hrun).
  apply is_range_prefix in Hl as (l' & -> & Hl').
  exists (mk_prefixIterator (Some p) it), l'. split_and!; [done|by split|].
  unfold prefixStore_Iterator. apply steps_get_bind. rewrite (proj1 (proj2 Hwf)).
  rewrite slice_append_Some.
  assert (Hend : (match end_ with None => liftO (PrefixEndBytes (Some p))
    | Some _ => mret (slice_append (Some p) end_) end : M (prefixStore P) slice) s =
    (Ok (prefix_domain_end p end_), s)).
  { destruct end_ as [e|]; [by rewrite slice_append_Some|].
    unfold liftO. by rewrite PrefixEndBytes_eq. }
  eapply (steps_bind _ _ _ _ (fun s' => s' = s)); [by eexists|]. intros ? ->.
  eapply steps_bind; [by apply (onStore_run _ _ _ id)|]. intros s1 [Hw1 Hv1].
  apply steps_ret. split; [done|]. unfold ps_view. by rewrite Hv1.
Qed.

#[refine] Instance prefix_laws (Hne : p <> []) : KVStoreLaws (prefixStore P) := {
  wf := ps_wf; view := ps_view; iter_rep := ps_iter_rep; }.
Proof.
  - intros asc it l [_ Hr]. by eapply keys_sorted_add_prefix, law_iter_sorted.
  - intros s k Hwf. apply steps_get_bind. rewrite (proj1 (proj2 Hwf)), slice_append_Some.
    unfold ps_view. rewrite lookup_prefix_view.
    eapply steps_mono; [apply (onStore_run _ _ _ id); [done..|apply law_Get, Hwf]|].
    intros s' [Hw' Hv']. by rewrite Hv'.
  - intros s k Hwf. apply steps_get_bind. rewrite (proj1 (proj2 Hwf)), slice_append_Some.
    unfold ps_view. rewrite lookup_prefix_view.
    eapply steps_mono; [apply (onStore_run _ _ _ id); [done..|apply law_Has, Hwf]|].
    intros s' [Hw' Hv']. by rewrite Hv'.
  - intros s k v Hwf. apply steps_get_bind. rewrite (proj1 (proj2 Hwf)), slice_append_Some.
    eapply steps_mono; [apply onStore_run; [done|apply outside_insert|apply law_Set, Hwf]|].
    intros s' [Hw' Hv']. unfold ps_view. by rewrite Hv', prefix_view_insert.
  - intros s k Hwf. apply steps_get_bind. rewrite (proj1 (proj2 Hwf)), slice_append_Some.
    eapply steps_mono; [apply onStore_run; [done|apply outside_delete|apply law_Delete, Hwf]|].
    intros s' [Hw' Hv']. unfold ps_view. by rewrite Hv', prefix_view_delete.
  - intros s start end_ Hwf Hg. by apply prefixStore_Iterator_run.
  - intros s asc it l Hwf [Hp Hr]. apply onPrefixIter_run; [done..|].
    pose proof (law_Valid _ _ _ _ (proj1 Hwf) Hr) as Hv. by destruct l.
  - intros s asc it kv l Hwf [Hp Hr]. apply onPrefixIter_run; [done..|].
    eapply law_Next; [apply Hwf|exact Hr].
  - intros s asc it k v l Hwf [Hp Hr]. unfold prefixIterator_Key.
    eapply steps_bind.
    { apply (onPrefixIter_run _ _ _ _ asc ((k, v) :: l)); [done..|].
      eapply law_Key; [apply Hwf|exact Hr]. }
    intros [s1 it1] (Hw1 & Hv1 & Hr1). apply steps_get_bind. exists (s1, it1). split; [|done].
    unfold liftO, slice_from. simpl. rewrite (proj1 Hr1). simpl.
    rewrite decide_True by (rewrite length_app; lia). by rewrite drop_app_length.
  - intros s asc it k v l Hwf [Hp Hr]. apply (onPrefixIter_run _ _ _ _ asc ((k, v) :: l)); [done..|].
    eapply law_Value; [apply Hwf|exact Hr].
Defined.
End prefixstore_laws.

(** ** Properties *)

(** a prefix store with a non-empty prefix p, over a parent that keeps
    the interface's laws, refines the map of the parent's entries below p: every
    sequence of Get, Has, Set, Delete and bounded ascending scans returns what
    that map would, with the prefix taken off the keys, and no entry of the
    parent whose key does not start with p is changed. *)
Theorem prefixStore_refines {P} `{KVStoreLaws P} (s : P) (p : bytes) (ops : list kv_op)
    (Hp : p <> []) (Hwf : wf s) (Hops : Forall op_ok ops)
    (Hasc : Forall (fun op => op_descending op = false) ops) :
  exists s',
    run_ops ops (Prefix s (Some p)) = (Ok (spec_results ops (prefix_view p (view s))), s') /\
    prefix_view p (view (ps_store s')) = spec_final ops (prefix_view p (view s)) /\
    forall k, ~ p `prefix_of` k -> view (ps_store s') !! k = view s !! k.
Proof.
  assert (Hw : ps_wf p (view s) (Prefix s (Some p))) by done.
  destruct (run_ops_spec (H0:=prefix_laws p (view s) Hp) ops (Prefix s (Some p)) Hw Hops)
    as (s' & Hrun & (_ & _ & Hout) & Hv).
  { intros (op & Hin & Ho)%Exists_exists. rewrite Forall_forall in Hasc.
    by rewrite (Hasc op Hin) in Ho. }
  by exists s'.
Qed.

(** ReverseIterator hands its start on without the prefix: with a nil
    start it goes on past the prefix's first key into the entries of other
    prefixes, and cuts those keys as if they had the prefix. *)
Theorem prefixStore_reverse_leaks :
  let m : spec_store := {[ [Byte.x01; Byte.x05] := [Byte.x0a]; [Byte.x02; Byte.x06] := [Byte.x0b] ]} in
  (run_op (OpScan false None None 5) (Prefix m (Some [Byte.x02]))).1 =
    Ok (REntries [(Some [Byte.x06], Some [Byte.x0b]); (Some [Byte.x05], Some [Byte.x0a])]) /\
  (run_op (OpGet [Byte.x05]) (Prefix m (Some [Byte.x02]))).1 = Ok (RValue None).
Proof. split; vm_compute; reflexivity. Qed.

Definition prefix_example : spec_store :=
  {[ [Byte.x01; Byte.x05] := [Byte.x0a]; [Byte.x02; Byte.x06] := [Byte.x0b] ]}.
Definition prefix_example_ops : list kv_op :=
  [OpSet [Byte.x07] [Byte.x0c]; OpDelete [Byte.x06]; OpScan true None None 5; OpGet [Byte.x05]].

Lemma prefixStore_refines_witness :
  exists s',
    run_ops prefix_example_ops (Prefix prefix_example (Some [Byte.x02])) =
      (Ok [RUnit; RUnit; REntries [(Some [Byte.x07], Some [Byte.x0c])]; RValue None], s') /\
    ps_store s' !! [Byte.x01; Byte.x05] = Some [Byte.x0a].
Proof.
  destruct (prefixStore_refines (P:=spec_store) (H0:=spec_laws) prefix_example [Byte.x02]
    prefix_example_ops) as (s' & Hr & _ & Ho).
  - done.
  - exact I.
  - repeat constructor.
  - repeat constructor.
  - exists s'. split; [exact Hr|]. etransitivity; [apply Ho|reflexivity].
    intros [k Hk]. discriminate.
Defined.
