(* ===== verification/GasKV.v ===== *)
(** * store/gaskvstore.go: a key-value store that charges a gas meter

    (types/gaskvstore.go is the same code in another package.)  The meter is
    part of the state: a parent's operations do not touch it.  [gas_op_run]
    computes what an operation costs and shows that it behaves as the parent's
    when the meter can pay, and otherwise panics before any write. *)
From Stdlib Require Import Strings.Byte Strings.String.
From S2P Require Import Prelude Errors KVStore.
#[local] Open Scope Z_scope.
#[local] Open Scope string_scope.
#[local] Open Scope list_scope.

Definition HasCost : Z := 10.
Definition ReadCostFlat : Z := 10.
Definition ReadCostPerByte : Z := 1.
Definition WriteCostFlat : Z := 10.
Definition WriteCostPerByte : Z := 10.
Definition KeyCostFlat : Z := 5.
Definition ValueCostFlat : Z := 10.
Definition ValueCostPerByte : Z := 1.

Record gasKVStore (P : Type) := mk_gasKVStore { gi_gasMeter : GasMeter; gi_parent : P }.
Arguments mk_gasKVStore {P}.
Arguments gi_gasMeter {P}.
Arguments gi_parent {P}.

Section gaskv.
Context {P : Type} `{KVStore P}.

Definition NewGasKVStore (gasMeter : GasMeter) (parent : P) : gasKVStore P :=
  mk_gasKVStore gasMeter parent.

Definition onMeter {A} (m : M GasMeter A) : M (gasKVStore P) A :=
  zoom gi_gasMeter (fun g gi => mk_gasKVStore g (gi_parent gi)) m.

Definition onGasParent {A} (m : M P A) : M (gasKVStore P) A :=
  zoom gi_parent (fun p gi => mk_gasKVStore (gi_gasMeter gi) p) m.

Definition gasKV_Get (key : slice) : M (gasKVStore P) slice :=
  onMeter (ConsumeGas ReadCostFlat "GetFlat");;
  value ← onGasParent (Get key);
  onMeter (ConsumeGas (wrap64 (ReadCostPerByte * slice_len value)) "ReadPerByte");;
  mret value.

Definition gasKV_Set (key value : slice) : M (gasKVStore P) unit :=
  onMeter (ConsumeGas WriteCostFlat "SetFlat");;
  onMeter (ConsumeGas (wrap64 (WriteCostPerByte * slice_len value)) "SetPerByte");;
  onGasParent (Set_ key value).

Definition gasKV_Has (key : slice) : M (gasKVStore P) bool :=
  onMeter (ConsumeGas HasCost "Has");; onGasParent (Has key).

(** No gas costs for deletion. *)
Definition gasKV_Delete (key : slice) : M (gasKVStore P) unit := onGasParent (Delete key).

Definition gasKV_iterator (start end_ : slice) (ascending : bool) : M (gasKVStore P) Iter :=
  onGasParent (if ascending then Iterator start end_ else ReverseIterator start end_).

(** gasIterator: the parent's iterator with the store's meter. *)
Definition onIterMeter {A} (m : M GasMeter A) : M (gasKVStore P * Iter) A :=
  zoom fst (fun gi st => (gi, st.2)) (onMeter m).

Definition onIterParent {A} (m : M (P * Iter) A) : M (gasKVStore P * Iter) A :=
  zoom (fun st => (gi_parent st.1, st.2))
       (fun '(p, it) st => (mk_gasKVStore (gi_gasMeter st.1) p, it)) m.

Definition gasIterator_Key : M (gasKVStore P * Iter) slice :=
  onIterMeter (ConsumeGas KeyCostFlat "KeyFlat");; onIterParent Key.

Definition gasIterator_Value : M (gasKVStore P * Iter) slice :=
  value ← onIterParent Value;
  onIterMeter (ConsumeGas ValueCostFlat "ValueFlat");;
  onIterMeter (ConsumeGas (wrap64 (ValueCostPerByte * slice_len value)) "ValuePerByte");;
  mret value.

#[global] Instance gasKV_KVStore : KVStore (gasKVStore P) := {
  Iter := Iter (S:=P);
  Get := gasKV_Get;
  Has := gasKV_Has;
  Set_ := gasKV_Set;
  Delete := gasKV_Delete;
  Iterator start end_ := gasKV_iterator start end_ true;
  ReverseIterator start end_ := gasKV_iterator start end_ false;
  Valid := onIterParent Valid;
  Next := onIterParent Next;
  Key := gasIterator_Key;
  Value := gasIterator_Value;
}.
End gaskv.

(** CacheWrap of a gas store panics. *)
Definition gasKV_CacheWrap {P A} : M (gasKVStore P) A :=
  panicM (PanicString "you cannot CacheWrap a GasKVStore").

(** ** What an operation costs *)

Definition entry_gas (kv : bytes * bytes) : Z :=
  KeyCostFlat + (ValueCostFlat + ValueCostPerByte * Z.of_nat (length kv.2)).

Definition sum_gas (l : list (bytes * bytes)) : Z := foldr (fun kv n => entry_gas kv + n) 0 l.

Definition op_gas (op : kv_op) (m : gmap bytes bytes) : Z :=
  match op with
  | OpGet k => ReadCostFlat + ReadCostPerByte * slice_len (m !! k)
  | OpHas _ => HasCost
  | OpSet _ v => WriteCostFlat + WriteCostPerByte * Z.of_nat (length v)
  | OpDelete _ => 0
  | OpScan asc start end_ n => sum_gas (take n (range asc start end_ m))
  end.

Lemma sum_gas_nonneg l : 0 <= sum_gas l.
Proof. induction l as [|[k v] l IH]; simpl; unfold entry_gas, KeyCostFlat, ValueCostFlat, ValueCostPerByte; simpl; lia. Qed.

Lemma slice_len_nonneg b : 0 <= slice_len b.
Proof. destruct b; simpl; lia. Qed.

Lemma op_gas_nonneg op m : 0 <= op_gas op m.
Proof.
  unfold op_gas, ReadCostFlat, ReadCostPerByte, HasCost, WriteCostFlat, WriteCostPerByte.
  destruct op; try lia; [|apply sum_gas_nonneg]. pose proof (slice_len_nonneg (m !! k)). lia.
Qed.

(** ** Runs that are charged

    [charges m s c cost a Q E]: with [c] consumed at the start, [m] returns
    [a] and has consumed [cost] more if that stays within the limit, with [Q]
    of the state; otherwise it panics out of gas, with [E] of the state. *)
Section charges.
Context {T : Type} (meterOf : T -> GasMeter) (limit : Z).

Definition charges {A} (m : M T A) (s : T) (c cost : Z) (a : A) (Q E : T -> Prop) : Prop :=
  if decide (c + cost <= limit)
  then exists s', m s = (Ok a, s') /\ meterOf s' = basicGasMeter limit (c + cost) /\ Q s'
  else exists d s', m s = (Panicked (ErrorOutOfGas d), s') /\
       limit < GasConsumed (meterOf s') /\ E s'.

Lemma charges_bind {A B} (m : M T A) (f : A -> M T B) s c c1 c2 a b (P Q E : T -> Prop) :
  charges m s c c1 a P E -> 0 <= c2 ->
  (forall s', P s' -> meterOf s' = basicGasMeter limit (c + c1) -> c + c1 <= limit ->
     charges (f a) s' (c + c1) c2 b Q E) ->
  charges (m ≫= f) s c (c1 + c2) b Q E.
Proof.
  unfold charges. intros Hm Hc2 Hf. destruct (decide (c + c1 <= limit)) as [Hl|Hl].
  - destruct Hm as (s1 & Hm & Hmeter & HP). specialize (Hf s1 HP Hmeter Hl).
    rewrite Z.add_assoc. rewrite (bind_Ok _ _ _ _ _ Hm). exact Hf.
  - rewrite decide_False by lia. destruct Hm as (d & s1 & Hm & Hmeter & HE).
    exists d, s1. unfold mbind, M_bind. by rewrite Hm.
Qed.

Lemma charges_free {A} (m : M T A) s c a (Q E : T -> Prop) :
  c <= limit ->
  steps m s a (fun s' => meterOf s' = basicGasMeter limit c /\ Q s') ->
  charges m s c 0 a Q E.
Proof.
  intros Hl (s' & Hm & Hmeter & HQ). unfold charges. rewrite Z.add_0_r, decide_True by done.
  by exists s'.
Qed.

Lemma charges_mono {A} (m : M T A) s c cost a (Q Q' E : T -> Prop) :
  charges m s c cost a Q E -> (forall s', Q s' -> Q' s') -> charges m s c cost a Q' E.
Proof. unfold charges. destruct (decide _); [|done]. intros (s' & ? & ? & ?). eauto 6. Qed.
End charges.

Section gaskv_laws.
Context {P : Type} `{KVStoreLaws P}.
Variable limit : Z.
Variable V : gmap bytes bytes.

Definition gi_ok (gi : gasKVStore P) : Prop := wf (gi_parent gi) /\ view (gi_parent gi) = V.

Lemma ConsumeGas_run amount d c g :
  g = basicGasMeter limit c -> 0 <= c -> 0 <= amount -> c + amount <= max_int64 ->
  ConsumeGas amount d g = (if decide (c + amount <= limit) then Ok tt else Panicked (ErrorOutOfGas d),
    basicGasMeter limit (c + amount)).
Proof. intros -> ? ? ?. apply ConsumeGas_basic. unfold is_int64, min_int64. lia. Qed.

Lemma onMeter_run amount d gi c (I : gasKVStore P -> Prop) :
  gi_gasMeter gi = basicGasMeter limit c -> 0 <= c -> 0 <= amount -> c + amount <= max_int64 ->
  (forall g, I (mk_gasKVStore g (gi_parent gi))) ->
  charges gi_gasMeter limit (onMeter (ConsumeGas amount d)) gi c amount tt I I.
Proof.
  intros Hg Hc Ha Hmax HI. unfold charges.
  pose proof (ConsumeGas_run amount d c _ Hg Hc Ha Hmax) as Hrun.
  unfold onMeter. rewrite (zoom_eq _ _ _ _ _ _ Hrun).
  destruct (decide _); [by eexists|]. exists d. eexists. split_and!; [done| |apply HI]. simpl. lia.
Qed.

Lemma onIterMeter_run amount d st c (I : gasKVStore P * Iter -> Prop) :
  gi_gasMeter st.1 = basicGasMeter limit c -> 0 <= c -> 0 <= amount -> c + amount <= max_int64 ->
  (forall g, I (mk_gasKVStore g (gi_parent st.1), st.2)) ->
  charges (fun st => gi_gasMeter st.1) limit (onIterMeter (ConsumeGas amount d)) st c amount tt I I.
Proof.
  intros Hg Hc Ha Hmax HI. unfold charges.
  pose proof (ConsumeGas_run amount d c _ Hg Hc Ha Hmax) as Hrun.
  unfold onIterMeter, onMeter. rewrite (zoom_eq _ _ _ _ _ _ (zoom_eq _ _ _ _ _ _ Hrun)).
  destruct (decide _); [by eexists|]. exists d. eexists. split_and!; [done| |apply HI]. simpl. lia.
Qed.

Lemma onGasParent_run {A} (m : M P A) gi c a (Q : P -> Prop) (E : gasKVStore P -> Prop) :
  gi_gasMeter gi = basicGasMeter limit c -> c <= limit -> steps m (gi_parent gi) a Q ->
  charges gi_gasMeter limit (onGasParent m) gi c 0 a (fun gi' => Q (gi_parent gi')) E.
Proof.
  intros Hg Hl (p & Hm & HQ). apply charges_free; [done|]. eexists.
  split; [by apply zoom_eq|]. by split.
Qed.

(** The state of a scan: the parent's map stays [V]. *)
Definition it_ok (asc : bool) (l : list (bytes * bytes)) (st : gasKVStore P * Iter) : Prop :=
  gi_ok st.1 /\ iter_rep asc st.2 l.
Definition it_safe (st : gasKVStore P * Iter) : Prop := gi_ok st.1.

Lemma onIterParent_run {A} (m : M (P * Iter) A) st c a asc l' :
  gi_gasMeter st.1 = basicGasMeter limit c -> c <= limit -> gi_ok st.1 ->
  steps m (gi_parent st.1, st.2) a (fun '(p', it') => wf p' /\ view p' = view (gi_parent st.1) /\
    iter_rep asc it' l') ->
  charges (fun st => gi_gasMeter st.1) limit (onIterParent m) st c 0 a (it_ok asc l') it_safe.
Proof.
  intros Hg Hl [Hw Hv] ([p it] & Hm & Hw' & Hv' & Hr). apply charges_free; [done|].
  eexists. split; [by apply zoom_eq|]. split; [done|]. split; [split; [done|]|done].
  simpl. by rewrite Hv'.
Qed.

(** A run of free steps and a final return. *)
Lemma charges_ret {A} (a : A) st c asc l :
  gi_gasMeter st.1 = basicGasMeter limit c -> c <= limit -> it_ok asc l st ->
  charges (fun st => gi_gasMeter st.1) limit (mret a) st c 0 a (it_ok asc l) it_safe.
Proof. intros Hg Hl Hok. apply charges_free; [done|]. by apply steps_ret. Qed.

Lemma gas_Key_run st c asc k v l :
  gi_gasMeter st.1 = basicGasMeter limit c -> 0 <= c -> c + KeyCostFlat <= max_int64 ->
  it_ok asc ((k, v) :: l) st ->
  charges (fun st => gi_gasMeter st.1) limit gasIterator_Key st c KeyCostFlat (Some k)
    (it_ok asc ((k, v) :: l)) it_safe.
Proof.
  intros Hg Hc Hmax Hok. rewrite <- (Z.add_0_r KeyCostFlat).
  eapply (charges_bind _ _ _ _ _ _ _ _ _ _ (it_ok asc ((k, v) :: l))); [|done|].
  - assert (Hm : charges (fun st => gi_gasMeter st.1) limit
      (onIterMeter (ConsumeGas KeyCostFlat "KeyFlat")) st c KeyCostFlat tt
      (fun st' => it_ok asc ((k, v) :: l) st') (it_ok asc ((k, v) :: l))).
    { by apply onIterMeter_run. }
    revert Hm. unfold charges. destruct (decide _); [done|].
    intros (d & s' & ? & ? & [? ?]). by exists d, s'.
  - intros s1 [Hok1 Hr1] Hg1 Hl1. apply onIterParent_run; [done..|].
    eapply law_Key; [apply Hok1|exact Hr1].
Qed.

Lemma onIterMeter_safe amount d st c asc l :
  gi_gasMeter st.1 = basicGasMeter limit c -> 0 <= c -> 0 <= amount -> c + amount <= max_int64 ->
  it_ok asc l st ->
  charges (fun st => gi_gasMeter st.1) limit (onIterMeter (ConsumeGas amount d)) st c amount tt
    (it_ok asc l) it_safe.
Proof.
  intros Hg Hc Ha Hmax Hok.
  pose proof (onIterMeter_run amount d st c (it_ok asc l) Hg Hc Ha Hmax (fun _ => Hok)) as Hm.
  revert Hm. unfold charges. destruct (decide _); [done|].
  intros (d' & s' & ? & ? & [? ?]). by exists d', s'.
Qed.

Lemma gas_Value_run st c asc k v l :
  gi_gasMeter st.1 = basicGasMeter limit c -> 0 <= c <= limit ->
  c + (ValueCostFlat + ValueCostPerByte * Z.of_nat (length v)) <= max_int64 ->
  it_ok asc ((k, v) :: l) st ->
  charges (fun st => gi_gasMeter st.1) limit gasIterator_Value st c
    (ValueCostFlat + ValueCostPerByte * Z.of_nat (length v)) (Some v)
    (it_ok asc ((k, v) :: l)) it_safe.
Proof.
  unfold ValueCostFlat, ValueCostPerByte. intros Hg Hc Hmax [Hok Hr].
  replace (10 + 1 * Z.of_nat (length v)) with (0 + (10 + (Z.of_nat (length v) + 0))) by lia.
  eapply charges_bind.
  { apply onIterParent_run; [done|lia|done|]. eapply law_Value; [apply Hok|exact Hr]. }
  { lia. }
  rewrite Z.add_0_r. intros s1 Hok1 Hg1 Hl1.
  eapply charges_bind; [apply onIterMeter_safe; [done|lia|done|unfold ValueCostFlat; lia|done]|lia|].
  intros s2 Hok2 Hg2 Hl2. unfold ValueCostFlat in *.
  assert (wrap64 (ValueCostPerByte * slice_len (Some v)) = Z.of_nat (length v)) as ->.
  { unfold ValueCostPerByte. simpl slice_len. rewrite wrap64_id; [lia|].
    unfold is_int64, min_int64. lia. }
  eapply charges_bind; [apply onIterMeter_safe; [done|lia|lia|lia|done]|lia|].
  intros s3 Hok3 Hg3 Hl3. by apply charges_ret.
Qed.

Lemma scan_gas n st c asc l :
  gi_gasMeter st.1 = basicGasMeter limit c -> 0 <= c <= limit ->
  c + sum_gas (take n l) <= max_int64 -> it_ok asc l st ->
  charges (fun st => gi_gasMeter st.1) limit (scan n) st c (sum_gas (take n l))
    ((fun p => (Some p.1, Some p.2)) <$> take n l) it_safe it_safe.
Proof.
  revert st c l. induction n as [|n IH]; intros st c l Hg Hc Hmax Hok.
  { simpl. eapply charges_mono; [by apply charges_ret; [done|lia|]|]. by intros ? []. }
  simpl scan. rewrite <- (Z.add_0_l (sum_gas _)).
  eapply charges_bind.
  { apply onIterParent_run; [done|lia|apply Hok|]. apply law_Valid; apply Hok. }
  { apply sum_gas_nonneg. }
  rewrite Z.add_0_r. intros s1 Hok1 Hg1 _.
  destruct l as [|[k v] l].
  { simpl. eapply charges_mono; [by apply charges_ret; [done|lia|]|]. by intros ? []. }
  simpl in Hmax |- *. pose proof (sum_gas_nonneg (take n l)) as Hpos. unfold entry_gas in *. simpl in *.
  assert (Hk : 0 <= KeyCostFlat) by done.
  assert (Hv : 0 <= ValueCostFlat + ValueCostPerByte * Z.of_nat (length v)).
  { unfold ValueCostFlat, ValueCostPerByte. lia. }
  rewrite <- Z.add_assoc.
  eapply charges_bind; [apply gas_Key_run; [done|lia|lia|exact Hok1]|lia|].
  intros s2 Hok2 Hg2 Hl2.
  eapply charges_bind; [apply gas_Value_run; [done|lia|lia|exact Hok2]|lia|].
  intros s3 Hok3 Hg3 Hl3. rewrite <- (Z.add_0_l (sum_gas _)).
  eapply charges_bind.
  { apply onIterParent_run; [done|done|apply Hok3|]. eapply law_Next; apply Hok3. }
  { lia. }
  rewrite Z.add_0_r. intros s4 Hok4 Hg4 _. rewrite <- (Z.add_0_r (sum_gas _)).
  eapply charges_bind; [apply IH; [done|lia|lia|exact Hok4]|done|].
  intros s5 Hok5 Hg5 Hl5. apply charges_free; [done|]. by apply steps_ret.
Qed.

Lemma charges_with_iter {A} (m : M (gasKVStore P * Iter) A) gi it c cost a :
  charges (fun st => gi_gasMeter st.1) limit m (gi, it) c cost a it_safe it_safe ->
  exists it', charges gi_gasMeter limit (with_iter (S:=gasKVStore P) it m) gi c cost (a, it') gi_ok gi_ok.
Proof.
  unfold charges. destruct (decide _).
  - intros ([gi' it'] & Hm & Hg & Hok). exists it', gi'. split; [|done].
    by apply (with_iter_Ok (S:=gasKVStore P)).
  - intros (d & [gi' it'] & Hm & Hg & Hok). exists it, d, gi'. split; [|done].
    by eapply (with_iter_Panicked (S:=gasKVStore P)).
Qed.

(** The parent's part of an operation, at no cost. *)
Lemma onGasParent_ok {A} (m : M P A) (gi : gasKVStore P) (c : Z) (a : A) (f : gmap bytes bytes -> gmap bytes bytes) :
  gi_gasMeter gi = basicGasMeter limit c -> c <= limit -> gi_ok gi ->
  steps m (gi_parent gi) a (fun p => wf p /\ view p = f (view (gi_parent gi))) ->
  charges gi_gasMeter limit (onGasParent m) gi c 0 a
    (fun gi' => wf (gi_parent gi') /\ view (gi_parent gi') = f V) gi_ok.
Proof.
  intros Hg Hl [Hw Hv] Hm. eapply charges_mono; [by apply onGasParent_run|].
  intros gi' [Hw' Hv']. by rewrite Hv', Hv.
Qed.

Lemma run_op_gas op gi c :
  gi_gasMeter gi = basicGasMeter limit c -> 0 <= c <= limit -> c + op_gas op V <= max_int64 ->
  op_ok op -> (op_descending op = true -> KVStoreReverse P) -> gi_ok gi ->
  charges gi_gasMeter limit (run_op op) gi c (op_gas op V) (spec_op op V)
    (fun gi' => wf (gi_parent gi') /\ view (gi_parent gi') = spec_upd op V) gi_ok.
Proof.
  intros Hg Hc Hmax Hok Hrev Hgi. pose proof Hgi as [Hw Hv].
  destruct op as [k|k|k v|k|asc start end_ n]; simpl spec_op; simpl spec_upd; simpl run_op.
  - simpl in Hmax. pose proof (slice_len_nonneg (V !! k)).
    unfold gasKV_Get, op_gas, ReadCostFlat, ReadCostPerByte in *.
    replace (10 + 1 * slice_len (V !! k)) with ((10 + (0 + (slice_len (V !! k) + 0))) + 0) by lia.
    eapply (charges_bind _ _ _ _ _ _ _ _ _ _ gi_ok); [|done|].
    + eapply charges_bind; [apply onMeter_run; [done|lia|done|lia|done]|lia|].
      intros s1 Hs1 Hg1 Hl1. eapply charges_bind.
      { apply (onGasParent_ok _ _ _ (V !! k) id); [done|lia|done|].
        destruct Hs1 as [Hw1 <-]. by apply law_Get. }
      { lia. }
      rewrite Z.add_0_r. intros s2 Hs2 Hg2 _.
      assert (wrap64 (1 * slice_len (V !! k)) = slice_len (V !! k)) as ->.
      { rewrite wrap64_id; [lia|]. unfold is_int64, min_int64. lia. }
      eapply charges_bind; [apply (onMeter_run _ _ _ _ gi_ok); [done|lia|lia|lia|done]|done|].
      intros s3 Hs3 Hg3 Hl3. apply charges_free; [done|]. by apply steps_ret.
    + intros s4 Hs4 Hg4 Hl4. apply charges_free; [lia|]. by apply steps_ret.
  - unfold gasKV_Has, op_gas, HasCost in *. change 10 with (10 + 0 + 0) at 2.
    eapply (charges_bind _ _ _ _ _ _ _ _ _ _ gi_ok); [|done|].
    + eapply charges_bind; [apply onMeter_run; [done|lia|done|lia|done]|lia|].
      intros s1 Hs1 Hg1 Hl1.
      apply (onGasParent_ok _ _ _ (bool_decide (is_Some (V !! k))) id); [done|lia|done|].
      destruct Hs1 as [Hw1 <-]. by apply law_Has.
    + intros s4 Hs4 Hg4 Hl4. apply charges_free; [lia|]. by apply steps_ret.
  - unfold gasKV_Set, op_gas, WriteCostFlat, WriteCostPerByte in *.
    replace (10 + 10 * Z.of_nat (length v)) with ((10 + (10 * Z.of_nat (length v) + 0)) + 0) by lia.
    eapply charges_bind; [|done|].
    + eapply charges_bind; [apply onMeter_run; [done|lia|done|lia|done]|lia|].
      intros s1 Hs1 Hg1 Hl1.
      assert (wrap64 (10 * slice_len (Some v)) = 10 * Z.of_nat (length v)) as ->.
      { simpl slice_len. rewrite wrap64_id; [lia|]. unfold is_int64, min_int64. lia. }
      eapply charges_bind; [apply (onMeter_run _ _ _ _ gi_ok); [done|lia|lia|lia|done]|done|].
      intros s2 Hs2 Hg2 Hl2.
      apply (onGasParent_ok _ _ _ _ (fun m => <[k := v]> m)); [done|lia|done|].
      apply law_Set, Hs2.
    + intros s4 Hs4 Hg4 Hl4. apply charges_free; [lia|]. by apply steps_ret.
  - unfold gasKV_Delete, op_gas in *. rewrite <- (Z.add_0_r 0).
    eapply charges_bind; [|done|].
    + apply (onGasParent_ok _ _ _ _ (delete k)); [done|lia|done|]. apply law_Delete, Hw.
    + intros s4 Hs4 Hg4 Hl4. apply charges_free; [lia|]. by apply steps_ret.
  - assert (exists it l, is_range asc start end_ V l /\ iter_rep asc it l /\
      steps (if asc then Iterator start end_ else ReverseIterator start end_) (gi_parent gi) it
        (fun p' => wf p' /\ view p' = V)) as (it & l & Hl & Hr & Hrun).
    { rewrite <- Hv. destruct asc; [by apply law_Iterator|by apply Hrev]. }
    simpl op_gas in *.
    rewrite <- (is_range_unique _ _ _ _ _ _ Hl (range_spec asc start end_ V)) in *.
    rewrite <- (Z.add_0_l (sum_gas _)).
    eapply (charges_bind _ _ _ _ _ _ _ _ _ _ gi_ok); [|apply sum_gas_nonneg|].
    { destruct asc; apply (onGasParent_ok _ _ _ it id); simpl; try done; try lia;
        by rewrite Hv. }
    rewrite Z.add_0_r. intros s1 Hs1 Hg1 _.
    destruct (charges_with_iter _ _ _ _ _ _ (scan_gas n (s1, it) c asc l Hg1 Hc Hmax (conj Hs1 Hr)))
      as [it' Hscan].
    rewrite <- (Z.add_0_r (sum_gas _)). eapply charges_bind; [exact Hscan|done|].
    intros s2 Hs2 Hg2 Hl2. apply charges_free; [lia|]. by apply steps_ret.
Qed.
End gaskv_laws.

(** ** Two gas-metered stores with the same view behave alike *)

Section gas_sim.
Context {P1 : Type} `{HK1 : KVStore P1} `{HL1 : !KVStoreLaws P1} `{HR1 : !KVStoreReverse P1}.
Context {P2 : Type} `{HK2 : KVStore P2} `{HL2 : !KVStoreLaws P2} `{HR2 : !KVStoreReverse P2}.

(** Same meter, same map. *)
Definition gas_rel (g1 : gasKVStore P1) (g2 : gasKVStore P2) : Prop :=
  gi_gasMeter g1 = gi_gasMeter g2 /\ wf (gi_parent g1) /\ wf (gi_parent g2) /\
  view (gi_parent g1) = view (gi_parent g2).

Lemma onMeter_sim {A} (m : M GasMeter A) g1 g2 :
  gas_rel g1 g2 -> rsim eq gas_rel (onMeter m) (onMeter m) g1 g2.
Proof.
  intros (Hg & Hw1 & Hw2 & Hv). unfold rsim, onMeter, zoom. rewrite Hg.
  by destruct (m (gi_gasMeter g2)) as [[] g].
Qed.

Lemma onGasParent_sim {A} (m1 : M P1 A) (m2 : M P2 A) (g1 : gasKVStore P1)
    (g2 : gasKVStore P2) (a : A) (f : gmap bytes bytes -> gmap bytes bytes) :
  gas_rel g1 g2 ->
  steps m1 (gi_parent g1) a (fun p => wf p /\ view p = f (view (gi_parent g1))) ->
  steps m2 (gi_parent g2) a (fun p => wf p /\ view p = f (view (gi_parent g1))) ->
  rsim eq gas_rel (onGasParent m1) (onGasParent m2) g1 g2.
Proof.
  intros (Hg & Hw1 & Hw2 & Hv) (p1 & H1 & Hw1' & Hv1) (p2 & H2 & Hw2' & Hv2).
  unfold rsim, onGasParent, zoom. rewrite H1, H2. split; [done|]. unfold gas_rel. simpl.
  split_and!; [done..|congruence].
Qed.

(** The same with iterators at the same entries. *)
Definition gas_it_rel (asc : bool) (l : list (bytes * bytes))
    (s1 : gasKVStore P1 * Iter (S:=P1)) (s2 : gasKVStore P2 * Iter (S:=P2)) : Prop :=
  gas_rel s1.1 s2.1 /\ iter_rep asc s1.2 l /\ iter_rep asc s2.2 l.

Lemma onIterMeter_sim {A} (m : M GasMeter A) asc l s1 s2 :
  gas_it_rel asc l s1 s2 -> rsim eq (gas_it_rel asc l) (onIterMeter m) (onIterMeter m) s1 s2.
Proof.
  intros [Hg Hr]. pose proof (onMeter_sim m _ _ Hg) as Hm.
  unfold rsim in *. unfold onIterMeter.
  destruct (onMeter m s1.1) as [[a1|p1] g1] eqn:E1, (onMeter m s2.1) as [[a2|p2] g2] eqn:E2;
    rewrite (zoom_eq _ _ _ _ _ _ E1), (zoom_eq _ _ _ _ _ _ E2); try done;
    destruct Hm as [ -> Hg']; done.
Qed.

Lemma onIterParent_sim {A} (m1 : M (P1 * Iter (S:=P1)) A) (m2 : M (P2 * Iter (S:=P2)) A)
    asc l l' s1 s2 (a : A) :
  gas_it_rel asc l s1 s2 ->
  steps m1 (gi_parent s1.1, s1.2) a
    (fun '(p, it) => wf p /\ view p = view (gi_parent s1.1) /\ iter_rep asc it l') ->
  steps m2 (gi_parent s2.1, s2.2) a
    (fun '(p, it) => wf p /\ view p = view (gi_parent s2.1) /\ iter_rep asc it l') ->
  rsim (fun a1 a2 => a1 = a /\ a2 = a) (gas_it_rel asc l') (onIterParent m1) (onIterParent m2) s1 s2.
Proof.
  intros [(Hg & Hw1 & Hw2 & Hv) _] ([p1 i1] & H1 & Hw1' & Hv1 & Hr1) ([p2 i2] & H2 & Hw2' & Hv2 & Hr2).
  unfold rsim, onIterParent, zoom. rewrite H1, H2. split; [done|].
  split; [|by split]. unfold gas_rel. simpl. split_and!; [done..|congruence].
Qed.

Definition gas_safe_rel (s1 : gasKVStore P1 * Iter (S:=P1)) (s2 : gasKVStore P2 * Iter (S:=P2)) : Prop :=
  gas_rel s1.1 s2.1.

Lemma gas_it_safe asc l s1 s2 : gas_it_rel asc l s1 s2 -> gas_safe_rel s1 s2.
Proof. by intros [? _]. Qed.

Lemma rsim_bind_it {A B} (RA : A -> A -> Prop) (m1 : M (gasKVStore P1 * Iter (S:=P1)) A)
    (m2 : M (gasKVStore P2 * Iter (S:=P2)) A) (f1 : A -> M _ B) (f2 : A -> M _ B) asc l s1 s2 :
  rsim RA (gas_it_rel asc l) m1 m2 s1 s2 ->
  (forall a1 a2 s1' s2', RA a1 a2 -> gas_it_rel asc l s1' s2' ->
     rsim eq gas_safe_rel (f1 a1) (f2 a2) s1' s2') ->
  rsim eq gas_safe_rel (m1 ≫= f1) (m2 ≫= f2) s1 s2.
Proof.
  intros Hm Hf. eapply rsim_bind; [exact Hm| |exact Hf].
  intros p s1' s2' _ H. by eapply gas_it_safe.
Qed.

Lemma gas_Key_sim asc k v l s1 s2 :
  gas_it_rel asc ((k, v) :: l) s1 s2 ->
  rsim eq (gas_it_rel asc ((k, v) :: l)) gasIterator_Key gasIterator_Key s1 s2.
Proof.
  intros Hr. eapply rsim_bind; [by apply onIterMeter_sim|done|].
  intros b1 b2 u1 u2 _ Hr2. eapply (rsim_mono (fun a1 a2 => a1 = Some k /\ a2 = Some k));
    [|by intros ?? [ -> -> ]|done].
  eapply onIterParent_sim; [exact Hr2|eapply law_Key; apply Hr2..].
Qed.

Lemma gas_Value_sim asc k v l s1 s2 :
  gas_it_rel asc ((k, v) :: l) s1 s2 ->
  rsim eq (gas_it_rel asc ((k, v) :: l)) gasIterator_Value gasIterator_Value s1 s2.
Proof.
  intros Hr. unfold gasIterator_Value.
  eapply rsim_bind; [eapply onIterParent_sim; [exact Hr|eapply law_Value; apply Hr..]|done|].
  intros a1 a2 t1 t2 [ -> -> ] Hr1. eapply rsim_bind; [by apply onIterMeter_sim|done|].
  intros b1 b2 u1 u2 _ Hr2. eapply rsim_bind; [by apply onIterMeter_sim|done|].
  intros c1 c2 w1 w2 _ Hr3. by apply rsim_ret.
Qed.

Lemma scan_sim n asc l s1 s2 :
  gas_it_rel asc l s1 s2 ->
  rsim eq gas_safe_rel (scan (S:=gasKVStore P1) n) (scan (S:=gasKVStore P2) n) s1 s2.
Proof.
  revert l s1 s2. induction n as [|n IH]; intros l s1 s2 Hr.
  { apply rsim_ret; [done|]. by eapply gas_it_safe. }
  cbn [scan]. eapply (rsim_bind_it _ _ _ _ _ asc l).
  { eapply onIterParent_sim; [exact Hr|eapply law_Valid; apply Hr..]. }
  intros ? ? t1 t2 [ -> -> ] Hr1. destruct l as [|[k v] l]; cbn [negb].
  { apply rsim_ret; [done|by eapply gas_it_safe]. }
  eapply rsim_bind_it; [by apply gas_Key_sim|]. intros k1 k2 u1 u2 -> Hr2.
  eapply rsim_bind_it; [by apply gas_Value_sim|]. intros v1 v2 w1 w2 -> Hr3.
  eapply (rsim_bind_it _ _ _ _ _ asc l).
  { eapply onIterParent_sim; [exact Hr3|eapply law_Next; apply Hr3..]. }
  intros ? ? x1 x2 _ Hr4. eapply rsim_bind; [by eapply IH|done|].
  intros r1 r2 y1 y2 -> Hr5. by apply rsim_ret.
Qed.

Lemma with_iter_sim {A} (m1 : M (gasKVStore P1 * Iter (S:=P1)) A)
    (m2 : M (gasKVStore P2 * Iter (S:=P2)) A) g1 g2 i1 i2 :
  rsim eq gas_safe_rel m1 m2 (g1, i1) (g2, i2) ->
  rsim (fun a1 a2 => a1.1 = a2.1) gas_rel (with_iter (S:=gasKVStore P1) i1 m1)
    (with_iter (S:=gasKVStore P2) i2 m2) g1 g2.
Proof.
  unfold rsim, with_iter, gas_safe_rel. simpl.
  destruct (m1 (g1, i1)) as [[] []], (m2 (g2, i2)) as [[] []]; naive_solver.
Qed.

(** An operation behaves alike on the two stores: same result or same panic,
    same meter, same map. *)
Lemma run_op_sim op g1 g2 :
  op_ok op -> gas_rel g1 g2 ->
  rsim eq gas_rel (run_op (S:=gasKVStore P1) op) (run_op (S:=gasKVStore P2) op) g1 g2.
Proof.
  intros Hok Hr. destruct op as [k|k|k v|k|asc start end_ n]; cbn [run_op].
  - eapply rsim_bind; [|done|intros a1 a2 ? ? -> ?; by apply rsim_ret].
    eapply rsim_bind; [by apply onMeter_sim|done|]. intros _ _ t1 t2 _ Hr1.
    eapply (rsim_bind eq); [|done|].
    + apply (onGasParent_sim _ _ _ _ (view (gi_parent t1) !! k) id); [done|apply law_Get, Hr1|].
      destruct Hr1 as (_ & _ & ? & ->). by apply law_Get.
    + intros a1 a2 u1 u2 -> Hr2. eapply rsim_bind; [by apply onMeter_sim|done|].
      intros _ _ w1 w2 _ Hr3. by apply rsim_ret.
  - eapply rsim_bind; [|done|intros a1 a2 ? ? -> ?; by apply rsim_ret].
    eapply rsim_bind; [by apply onMeter_sim|done|]. intros _ _ t1 t2 _ Hr1.
    apply (onGasParent_sim _ _ _ _ (bool_decide (is_Some (view (gi_parent t1) !! k))) id);
      [done|apply law_Has, Hr1|]. destruct Hr1 as (_ & _ & ? & ->). by apply law_Has.
  - eapply (rsim_bind eq); [|done|intros a1 a2 ? ? _ ?; by apply rsim_ret].
    eapply rsim_bind; [by apply onMeter_sim|done|]. intros _ _ t1 t2 _ Hr1.
    eapply rsim_bind; [by apply onMeter_sim|done|]. intros _ _ u1 u2 _ Hr2.
    apply (onGasParent_sim _ _ _ _ tt (fun m => <[k := v]> m)); [done|apply law_Set, Hr2|].
    destruct Hr2 as (_ & _ & ? & ->). by apply law_Set.
  - eapply (rsim_bind eq); [|done|intros a1 a2 ? ? _ ?; by apply rsim_ret].
    apply (onGasParent_sim _ _ _ _ tt (delete k)); [done|apply law_Delete, Hr|].
    destruct Hr as (_ & _ & ? & ->). by apply law_Delete.
  - pose proof Hr as (Hg & Hw1 & Hw2 & Hv).
    assert (exists it l, is_range asc start end_ (view (gi_parent g1)) l /\ iter_rep asc it l /\
      steps (if asc then Iterator start end_ else ReverseIterator start end_) (gi_parent g1) it
        (fun p' => wf p' /\ view p' = view (gi_parent g1))) as (it1 & l & Hl & Hr1 & Hrun1).
    { destruct asc; [by apply law_Iterator|by apply law_ReverseIterator]. }
    assert (exists it l, is_range asc start end_ (view (gi_parent g2)) l /\ iter_rep asc it l /\
      steps (if asc then Iterator start end_ else ReverseIterator start end_) (gi_parent g2) it
        (fun p' => wf p' /\ view p' = view (gi_parent g2))) as (it2 & l2 & Hl2 & Hr2 & Hrun2).
    { destruct asc; [by apply law_Iterator|by apply law_ReverseIterator]. }
    rewrite <- Hv in Hl2. rewrite (is_range_unique _ _ _ _ _ _ Hl2 Hl) in Hr2.
    eapply (rsim_bind (fun i1 i2 => i1 = it1 /\ i2 = it2) _ gas_rel); [|done|].
    + destruct Hrun1 as (p1 & H1 & Hw1' & Hv1), Hrun2 as (p2 & H2 & Hw2' & Hv2).
      unfold rsim. destruct asc; cbn; unfold gasKV_iterator, onGasParent, zoom; rewrite H1, H2;
        (split; [done|]; unfold gas_rel; simpl; split_and!; [done..|congruence]).
    + intros ? ? t1 t2 [ -> -> ] Hr3. eapply rsim_bind; [|done|].
      * apply with_iter_sim. by eapply scan_sim.
      * intros [a1 j1] [a2 j2] u1 u2 Ha Hr4. simpl in Ha. subst. by apply rsim_ret.
Qed.
End gas_sim.

(** ** Properties *)

(** C33: an operation (Get, Has, Set, Delete or a bounded scan) on a
    gas-metered store costs exactly [op_gas], a function of the parent's map.
    If the meter can pay it, the operation returns what the parent would, has
    the parent's effect and the meter has advanced by the cost; if not, it
    panics out of gas, with the meter past its limit and the parent's map as
    it was: a write is paid for before it happens. *)
Theorem gasKV_charges {P} `{KVStoreLaws P} (p : P) (limit consumed : Z) (op : kv_op)
    (Hwf : wf p) (Hop : op_ok op) (Hrev : op_descending op = true -> KVStoreReverse P)
    (Hc : 0 <= consumed <= limit)
    (Hmax : consumed + op_gas op (view p) <= max_int64) :
  let run := run_op op (NewGasKVStore (basicGasMeter limit consumed) p) in
  if decide (consumed + op_gas op (view p) <= limit)
  then exists p', run = (Ok (spec_op op (view p)),
         mk_gasKVStore (basicGasMeter limit (consumed + op_gas op (view p))) p') /\
       view p' = spec_upd op (view p)
  else exists d gi', run = (Panicked (ErrorOutOfGas d), gi') /\
       limit < GasConsumed (gi_gasMeter gi') /\ view (gi_parent gi') = view p.
Proof.
  pose proof (run_op_gas limit (view p) op (NewGasKVStore (basicGasMeter limit consumed) p)
    consumed eq_refl Hc Hmax Hop Hrev (conj Hwf eq_refl)) as Hrun.
  unfold charges in Hrun. simpl. destruct (decide _).
  - destruct Hrun as ([g p'] & Hrun & Hg & Hw & Hv). simpl in *. subst g. by exists p'.
  - destruct Hrun as (d & gi' & Hrun & Hg & Hw & Hv). by exists d, gi'.
Qed.

Lemma gasKV_charges_witness :
  (exists p', run_op (OpGet [Byte.x01])
      (NewGasKVStore (basicGasMeter 100 0) ({[ [Byte.x01] := [Byte.x05; Byte.x06] ]} : spec_store)) =
    (Ok (RValue (Some [Byte.x05; Byte.x06])), mk_gasKVStore (basicGasMeter 100 12) p')) /\
  (exists d gi', run_op (OpSet [Byte.x01] [])
      (NewGasKVStore (basicGasMeter 100 95) ({[ [Byte.x01] := [Byte.x05] ]} : spec_store)) =
    (Panicked (ErrorOutOfGas d), gi')).
Proof.
  split.
  - destruct (gasKV_charges (P:=spec_store) (H0:=spec_laws) {[ [Byte.x01] := [Byte.x05; Byte.x06] ]}
      100 0 (OpGet [Byte.x01])) as (p' & Hrun & _); try done; try lia.
    by exists p'.
  - destruct (gasKV_charges (P:=spec_store) (H0:=spec_laws) {[ [Byte.x01] := [Byte.x05] ]}
      100 95 (OpSet [Byte.x01] [])) as (d & gi' & Hrun & _); try done; try lia.
    by exists d, gi'.
Defined.
