(* ===== verification/IAVL.v ===== *)
(** * store/iavlstore.go: the versioned, committing store

    The tree itself (github.com/tepleton/iavl) is third-party: [VersionedTree]
    lists the operations the store calls and [VersionedTreeLaws] their
    documented behaviour.  Modelled here: the store's methods, its iterator's
    state, the pruning of old versions in Commit and the choice of height in
    Query. *)
From Stdlib Require Import Strings.Byte Strings.String.
From S2P Require Import Prelude Errors KVStore.
#[local] Open Scope string_scope.
#[local] Open Scope list_scope.
#[local] Open Scope Z_scope.

(** types/store.go CommitID *)
Record CommitID := mk_CommitID { cid_Version : Z; cid_Hash : slice }.

Definition CommitID_IsZero (cid : CommitID) : bool :=
  (cid_Version cid =? 0) && (slice_len (cid_Hash cid) =? 0).

(** A Go [error]: nil or a message. *)
Abbreviation goError := (option string).

(** ** The third-party tree *)

Class VersionedTree (T : Type) := {
  tree_Set : slice -> slice -> M T unit;
  tree_Get : T -> slice -> slice;
  tree_Has : T -> slice -> bool;
  tree_Remove : slice -> M T unit;
  (** The pairs IterateRange hands to its callback, in order. *)
  tree_IterateRange : T -> slice -> slice -> bool -> list (slice * slice);
  tree_SaveVersion : M T (slice * Z * goError);
  tree_DeleteVersion : Z -> M T goError;
  tree_Version64 : T -> Z;
  tree_Hash : T -> slice;
  tree_VersionExists : T -> Z -> bool;
  tree_GetVersioned : T -> slice -> Z -> slice;
  (** With the proof marshalled. *)
  tree_GetVersionedWithProof : T -> slice -> Z -> slice * slice * goError;
}.

Definition iavl_entry (p : bytes * bytes) : slice * slice := (Some p.1, Some p.2).

(** What the store relies on: the working tree is a map, ranges are
    [start, end) in both directions, saving adds the next version, and a
    version that is there and is not the latest can be deleted. *)
Class VersionedTreeLaws (T : Type) `{VersionedTree T} := {
  tree_map : T -> gmap bytes bytes;
  tree_versions : T -> gset Z;
  tree_Set_law : forall t k v, steps (tree_Set (Some k) (Some v)) t tt
    (fun t' => tree_map t' = <[k := v]> (tree_map t) /\ tree_versions t' = tree_versions t /\
       tree_Version64 t' = tree_Version64 t);
  tree_Remove_law : forall t k, steps (tree_Remove (Some k)) t tt
    (fun t' => tree_map t' = delete k (tree_map t) /\ tree_versions t' = tree_versions t /\
       tree_Version64 t' = tree_Version64 t);
  tree_Get_law : forall t k, tree_Get t (Some k) = tree_map t !! k;
  tree_Has_law : forall t k, tree_Has t (Some k) = bool_decide (is_Some (tree_map t !! k));
  tree_IterateRange_law : forall t start end_ asc, good_range start end_ ->
    tree_IterateRange t start end_ asc =
      iavl_entry <$> range asc start end_ (tree_map t);
  tree_VersionExists_law : forall t v, tree_VersionExists t v = bool_decide (v ∈ tree_versions t);
  tree_SaveVersion_law : forall t, exists hash,
    steps tree_SaveVersion t (hash, tree_Version64 t + 1, None)
      (fun t' => tree_map t' = tree_map t /\ tree_Version64 t' = tree_Version64 t + 1 /\
         tree_versions t' = {[ tree_Version64 t + 1 ]} ∪ tree_versions t);
  tree_DeleteVersion_law : forall t v, v ∈ tree_versions t -> v <> tree_Version64 t ->
    steps (tree_DeleteVersion v) t None
      (fun t' => tree_map t' = tree_map t /\ tree_Version64 t' = tree_Version64 t /\
         tree_versions t' = tree_versions t ∖ {[ v ]});
}.

(** ** The store *)

Record iavlStore (T : Type) := mk_iavlStore {
  st_tree : T; st_numRecent : Z; st_storeEvery : Z }.
Arguments mk_iavlStore {T}.
Arguments st_tree {T}.
Arguments st_numRecent {T}.
Arguments st_storeEvery {T}.

Definition defaultIAVLNumRecent : Z := 100.
Definition defaultIAVLStoreEvery : Z := 10000.

(** The iterator: [iterCh] are the pairs the channel still delivers before it
    is closed. *)
Record iavlIterator := mk_iavlIterator {
  ii_iterCh : list (slice * slice); ii_invalid : bool; ii_key : slice; ii_value : slice }.

Definition iavlIterator_assertIsValid : M iavlIterator unit :=
  iter ← getM; if ii_invalid iter then panicM (PanicString "invalid iterator") else mret tt.

Definition setNext (key value : slice) : M iavlIterator unit :=
  iavlIterator_assertIsValid;;
  iter ← getM; putM (mk_iavlIterator (ii_iterCh iter) (ii_invalid iter) key value).

Definition setInvalid : M iavlIterator unit :=
  iavlIterator_assertIsValid;;
  iter ← getM; putM (mk_iavlIterator (ii_iterCh iter) true (ii_key iter) (ii_value iter)).

(** Receives the next pair; a receive from the closed channel is not ok. *)
Definition receiveNext : M iavlIterator unit :=
  iter ← getM;
  match ii_iterCh iter with
  | (k, v) :: rest =>
      putM (mk_iavlIterator rest (ii_invalid iter) (ii_key iter) (ii_value iter));; setNext k v
  | [] => setInvalid
  end.

Definition iavlIterator_Valid : M iavlIterator bool :=
  iter ← getM; mret (negb (ii_invalid iter)).

Definition iavlIterator_Next : M iavlIterator unit := iavlIterator_assertIsValid;; receiveNext.

Definition iavlIterator_Key : M iavlIterator slice :=
  iavlIterator_assertIsValid;; iter ← getM; mret (ii_key iter).

Definition iavlIterator_Value : M iavlIterator slice :=
  iavlIterator_assertIsValid;; iter ← getM; mret (ii_value iter).

Section iavlstore.
Context {T : Type} `{VersionedTree T}.

Definition newIAVLStore (tree : T) (numRecent storeEvery : Z) : iavlStore T :=
  mk_iavlStore tree numRecent storeEvery.

Definition onTree {A} (m : M T A) : M (iavlStore T) A :=
  zoom st_tree (fun t st => mk_iavlStore t (st_numRecent st) (st_storeEvery st)) m.

(** Iteration first fetches its first item (initRoutine). *)
Definition newIAVLIterator (tree : T) (start end_ : slice) (ascending : bool) : outcome iavlIterator :=
  let iter := mk_iavlIterator (tree_IterateRange tree start end_ ascending) false None None in
  match receiveNext iter with
  | (Ok _, iter) => Ok iter
  | (Panicked p, _) => Panicked p
  end.

Definition onIavlIter {A} (m : M iavlIterator A) : M (iavlStore T * iavlIterator) A :=
  zoom snd (fun it st => (st.1, it)) m.

#[global] Instance iavl_KVStore : KVStore (iavlStore T) := {
  Iter := iavlIterator;
  Get key := st ← getM; mret (tree_Get (st_tree st) key);
  Has key := st ← getM; mret (tree_Has (st_tree st) key);
  Set_ key value := onTree (tree_Set key value);
  Delete key := onTree (tree_Remove key);
  Iterator start end_ := st ← getM; liftO (newIAVLIterator (st_tree st) start end_ true);
  ReverseIterator start end_ := st ← getM; liftO (newIAVLIterator (st_tree st) start end_ false);
  Valid := onIavlIter iavlIterator_Valid;
  Next := onIavlIter iavlIterator_Next;
  Key := onIavlIter iavlIterator_Key;
  Value := onIavlIter iavlIterator_Value;
}.

(** Commit: save a new version, release an old one that is no waypoint. *)
Definition iavlStore_Commit : M (iavlStore T) CommitID :=
  '(hash, version, err) ← onTree tree_SaveVersion;
  match err with
  | Some e => panicM (PanicString e)
  | None =>
      st ← getM;
      let previous := wrap64 (version - 1) in
      (if st_numRecent st <? previous then
         let toRelease := wrap64 (previous - st_numRecent st) in
         if (st_storeEvery st =? 0) || negb (Z.rem toRelease (st_storeEvery st) =? 0) then
           err ← onTree (tree_DeleteVersion toRelease);
           match err with
           | Some e => panicM (PanicString e)
           | None => mret tt
           end
         else mret tt
       else mret tt);;
      mret (mk_CommitID version hash)
  end.

Definition iavlStore_LastCommitID (st : iavlStore T) : CommitID :=
  mk_CommitID (tree_Version64 (st_tree st)) (tree_Hash (st_tree st)).

Definition iavlStore_VersionExists (st : iavlStore T) (version : Z) : bool :=
  tree_VersionExists (st_tree st) version.

(** The height a query reads: latest - 1 if it is there, else latest. *)
Definition query_height (tree : T) (height : Z) : Z :=
  if height =? 0 then
    let latest := tree_Version64 tree in
    if tree_VersionExists tree (wrap64 (latest - 1)) then wrap64 (latest - 1) else latest
  else height.
End iavlstore.

(** wrsp.RequestQuery, the fields the code reads. *)
Record RequestQuery := mk_RequestQuery {
  rq_Data : slice; rq_Path : string; rq_ReqHeight : Z; rq_Prove : bool }.

Section query.
Context {T : Type} `{VersionedTree T}.
(** cdc.MustMarshalBinary of a list of pairs, third-party. *)
Variable MarshalKVs : list KVPair -> slice.

(** The loop of the subspace query; [fuel] bounds the entries. *)
Fixpoint collect_KVs (fuel : nat) (KVs : list KVPair)
  : M (iavlStore T * Iter (S:=iavlStore T)) (list KVPair) :=
  match fuel with
  | O => panicM (RuntimeError "out of fuel")
  | S fuel =>
      valid ← Valid;
      if negb valid then mret KVs else
      k ← Key;
      v ← Value;
      Next;;
      collect_KVs fuel (KVs ++ [mk_KVPair k v])
  end.

Definition iavlStore_Query (fuel : nat) (req : RequestQuery) : M (iavlStore T) ResponseQuery :=
  if slice_len (rq_Data req) =? 0 then
    mret (err_QueryResult (ErrTxDecode "Query cannot be zero length"))
  else
  st ← getM;
  let height := query_height (st_tree st) (rq_ReqHeight req) in
  let res := mk_ResponseQuery 0 (TStr "") None None None height in
  if bool_decide (rq_Path req = "/store") || bool_decide (rq_Path req = "/key") then
    let key := rq_Data req in
    if rq_Prove req then
      let '(value, proof, err) := tree_GetVersionedWithProof (st_tree st) key height in
      match err with
      | Some e => mret (mk_ResponseQuery 0 (TStr e) key None None height)
      | None => mret (mk_ResponseQuery 0 (TStr "") key value proof height)
      end
    else mret (mk_ResponseQuery 0 (TStr "") key (tree_GetVersioned (st_tree st) key height) None height)
  else if bool_decide (rq_Path req = "/subspace") then
    let subspace := rq_Data req in
    it ← KVStorePrefixIterator subspace;
    '(KVs, _) ← with_iter it (collect_KVs fuel []);
    mret (mk_ResponseQuery 0 (TStr "") subspace (MarshalKVs KVs) None height)
  else mret (err_QueryResult (ErrUnknownRequest ("Unexpected Query path: " ++ rq_Path req)%string)).
End query.

(** ** The laws *)

Section iavl_laws.
Context {T : Type} `{VersionedTreeLaws T}.

(** The iterator with [l] left: its head is the current entry. *)
Definition iavl_iter_rep (asc : bool) (it : iavlIterator) (l : list (bytes * bytes)) : Prop :=
  keys_sorted asc l /\
  match l with
  | [] => ii_invalid it = true
  | kv :: l' => ii_invalid it = false /\ ii_key it = Some kv.1 /\ ii_value it = Some kv.2 /\
      ii_iterCh it = iavl_entry <$> l'
  end.

Lemma receiveNext_run asc l it :
  keys_sorted asc l -> ii_invalid it = false -> ii_iterCh it = iavl_entry <$> l ->
  steps receiveNext it tt (fun it' => iavl_iter_rep asc it' l).
Proof.
  intros Hs Hi Hl. destruct it as [ch inv k v]. simpl in *. subst. destruct l as [|[k' v'] l].
  - by eexists.
  - eexists. split; [reflexivity|]. by repeat split.
Qed.

Lemma newIAVLIterator_run t start end_ asc :
  good_range start end_ ->
  exists it, newIAVLIterator t start end_ asc = Ok it /\
    iavl_iter_rep asc it (range asc start end_ (tree_map t)).
Proof.
  intros Hg. unfold newIAVLIterator. rewrite tree_IterateRange_law by done.
  destruct (receiveNext_run asc (range asc start end_ (tree_map t))
    (mk_iavlIterator (iavl_entry <$> range asc start end_ (tree_map t)) false None None))
    as (it & -> & Hr); [apply range_spec|done|done|]. by exists it.
Qed.

Lemma iavl_Iterator_run (st : iavlStore T) start end_ asc :
  good_range start end_ ->
  exists it l, is_range asc start end_ (tree_map (st_tree st)) l /\ iavl_iter_rep asc it l /\
  steps (st ← getM; liftO (newIAVLIterator (st_tree st) start end_ asc)) st it (fun st' => st' = st).
Proof.
  intros Hg. destruct (newIAVLIterator_run (st_tree st) start end_ asc Hg) as (it & Hit & Hr).
  exists it, (range asc start end_ (tree_map (st_tree st))). split_and!; [apply range_spec|done|].
  apply steps_get_bind. exists st. split; [|done]. unfold liftO. by rewrite Hit.
Qed.

Lemma onIavlIter_run {A} (m : M iavlIterator A) (st : iavlStore T) it a (Q : iavlIterator -> Prop) :
  steps m it a Q -> steps (onIavlIter m) (st, it) a (fun '(st', it') => st' = st /\ Q it').
Proof. intros (it' & Hm & HQ). eexists. split; [by apply zoom_eq|]. done. Qed.

Lemma onTree_run {A} (m : M T A) (st : iavlStore T) a (Q : T -> Prop) :
  steps m (st_tree st) a Q ->
  steps (onTree m) st a (fun st' => Q (st_tree st') /\ st_numRecent st' = st_numRecent st /\
    st_storeEvery st' = st_storeEvery st).
Proof. intros (t & Hm & HQ). eexists. split; [by apply zoom_eq|]. done. Qed.

(** The laws, with any condition on the versions as part of [wf]: reading and
    writing the working tree do not touch them. *)
Section laws_at.
Variable P : gset Z -> Z -> Z -> Z -> Prop.

Definition versions_ok (st : iavlStore T) : Prop :=
P (tree_versions (st_tree st)) (tree_Version64 (st_tree st)) (st_numRecent st) (st_storeEvery st).

Lemma versions_ok_same st st' :
tree_versions (st_tree st') = tree_versions (st_tree st) ->
tree_Version64 (st_tree st') = tree_Version64 (st_tree st) ->
st_numRecent st' = st_numRecent st -> st_storeEvery st' = st_storeEvery st ->
versions_ok st -> versions_ok st'.
Proof. unfold versions_ok. by intros -> -> -> ->. Qed.

#[refine] Instance iavl_laws_at : KVStoreLaws (iavlStore T) := {
wf := versions_ok; view st := tree_map (st_tree st); iter_rep := iavl_iter_rep; }.
Proof.
- by intros asc it l [Hs _].
- intros st k Hw. exists st. by rewrite <- tree_Get_law.
- intros st k Hw. exists st. by rewrite <- tree_Has_law.
- intros st k v Hw. eapply steps_mono; [apply onTree_run, tree_Set_law|].
  intros st' ((? & ? & ?) & ? & ?). split; [by eapply versions_ok_same|done].
- intros st k Hw. eapply steps_mono; [apply onTree_run, tree_Remove_law|].
  intros st' ((? & ? & ?) & ? & ?). split; [by eapply versions_ok_same|done].
- intros st start end_ Hw Hg.
  destruct (iavl_Iterator_run st start end_ true Hg) as (it & l & Hl & Hr & Hs).
  exists it, l. split_and!; [done..|]. eapply steps_mono; [exact Hs|]. by intros ? ->.
- intros st asc it l Hw [Hs Hr].
  eapply steps_mono; [eapply (onIavlIter_run _ _ _ _ (fun it' => it' = it))|];
    [|intros [st' it'] [ -> -> ]; done].
  exists it. split; [|done]. unfold iavlIterator_Valid, mbind, M_bind, getM, mret, M_ret.
  destruct l; [by rewrite Hr|]. by rewrite (proj1 Hr).
- intros st asc it kv l Hw [Hs Hr]. destruct Hr as (Hi & _ & _ & Hl).
  eapply steps_mono.
  { apply (onIavlIter_run _ _ _ _ (fun it' => iavl_iter_rep asc it' l)).
    unfold iavlIterator_Next, iavlIterator_assertIsValid. apply (steps_bind _ _ _ tt (fun it' => it' = it)).
    - apply steps_get_bind. rewrite Hi. by apply steps_ret.
    - intros ? ->. apply receiveNext_run; [by inversion Hs|done|done]. }
  intros [st' it'] [ -> Hr']. done.
- intros st asc it k v l Hw [Hs Hr]. destruct Hr as (Hi & Hk & Hv & Hl).
  eapply steps_mono; [eapply (onIavlIter_run _ _ _ _ (fun it' => it' = it))|].
  { exists it. unfold iavlIterator_Key, iavlIterator_assertIsValid, mbind, M_bind, getM.
    rewrite Hi. simpl. by rewrite Hk. }
  intros [st' it'] [ -> -> ]. done.
- intros st asc it k v l Hw [Hs Hr]. destruct Hr as (Hi & Hk & Hv & Hl).
  eapply steps_mono; [eapply (onIavlIter_run _ _ _ _ (fun it' => it' = it))|].
  { exists it. unfold iavlIterator_Value, iavlIterator_assertIsValid, mbind, M_bind, getM.
    rewrite Hi. simpl. by rewrite Hv. }
  intros [st' it'] [ -> -> ]. done.
Defined.

#[local] Existing Instance iavl_laws_at.

Lemma iavl_reverse_at : KVStoreReverse (iavlStore T).
Proof.
intros st start end_ Hw Hg.
destruct (iavl_Iterator_run st start end_ false Hg) as (it & l & Hl & Hr & Hs).
exists it, l. split_and!; [done..|]. eapply steps_mono; [exact Hs|]. by intros ? ->.
Qed.
End laws_at.

#[export] Instance iavl_laws : KVStoreLaws (iavlStore T) := iavl_laws_at (fun _ _ _ _ => True).
#[export] Instance iavl_reverse : KVStoreReverse (iavlStore T) := iavl_reverse_at (fun _ _ _ _ => True).
End iavl_laws.

(** ** Versions *)

(** The versions a store at version [n] holds: the last [numRecent] before it
    and itself, and the waypoints. *)
Definition retained (n numRecent storeEvery v : Z) : Prop :=
  1 <= v <= n /\ (n - numRecent <= v \/ (storeEvery <> 0 /\ v mod storeEvery = 0)).

(** What the pruning step of the commit of version [n + 1] must do. *)
Lemma retained_step n r e v :
  0 <= n -> 0 <= r -> 0 <= e ->
  retained (n + 1) r e v <->
  (v = n + 1 \/ retained n r e v) /\ ~ (r < n /\ v = n - r /\ (e = 0 \/ (n - r) mod e <> 0)).
Proof.
  intros Hn Hr He. unfold retained. destruct (Z.eq_dec v (n - r)) as [ -> |Hne]; [|lia].
  generalize ((n - r) mod e). lia.
Qed.

Lemma release_test rel e :
  0 < rel -> 0 <= e ->
  (e =? 0) || negb (Z.rem rel e =? 0) = bool_decide (e = 0 \/ rel mod e <> 0).
Proof.
  intros Hr He. destruct (Z.eqb_spec e 0) as [ -> |Hne]; simpl.
  - done.
  - rewrite Z.rem_mod_nonneg by lia. destruct (Z.eqb_spec (rel mod e) 0); simpl.
    + by rewrite bool_decide_eq_false_2 by lia.
    + by rewrite bool_decide_eq_true_2 by lia.
Qed.

Section versions.
Context {T : Type} `{VersionedTreeLaws T}.

Definition pruned (st : iavlStore T) : Prop :=
  0 <= tree_Version64 (st_tree st) < max_int64 /\
  0 <= st_numRecent st <= max_int64 /\ 0 <= st_storeEvery st /\
  forall v, v ∈ tree_versions (st_tree st) <->
    retained (tree_Version64 (st_tree st)) (st_numRecent st) (st_storeEvery st) v.

(** The parts of the state that the pruning leaves alone. *)
Definition same_store (n : Z) (st st' : iavlStore T) : Prop :=
  tree_map (st_tree st') = tree_map (st_tree st) /\ tree_Version64 (st_tree st') = n /\
  st_numRecent st' = st_numRecent st /\ st_storeEvery st' = st_storeEvery st.

Lemma Commit_run st :
  pruned st -> tree_Version64 (st_tree st) + 1 < max_int64 ->
  exists hash, steps iavlStore_Commit st (mk_CommitID (tree_Version64 (st_tree st) + 1) hash)
    (fun st' => pruned st' /\ same_store (tree_Version64 (st_tree st) + 1) st st').
Proof.
  intros (Hv & Hn & He & Hret) Hmax. set (n := tree_Version64 (st_tree st)) in *.
  destruct (tree_SaveVersion_law (st_tree st)) as [hash Hsave]. fold n in Hsave.
  exists hash. eapply steps_bind; [by apply onTree_run|]. simpl.
  intros st1 ((Hmap1 & Hver1 & Hvs1) & Hn1 & He1). apply steps_get_bind.
  rewrite (wrap64_id (n + 1 - 1)) by (unfold is_int64, min_int64; lia).
  replace (n + 1 - 1) with n by lia. rewrite Hn1, He1.
  assert (Hin : forall v, v ∈ tree_versions (st_tree st1) <->
    v = n + 1 \/ retained n (st_numRecent st) (st_storeEvery st) v).
  { intros v. by rewrite Hvs1, elem_of_union, elem_of_singleton, Hret. }
  assert (Hsame1 : same_store (n + 1) st st1) by done.
  eapply (steps_bind _ _ _ tt (fun st' => same_store (n + 1) st st' /\
    forall v, v ∈ tree_versions (st_tree st') <-> retained (n + 1) (st_numRecent st) (st_storeEvery st) v)).
  - destruct (Z.ltb_spec (st_numRecent st) n) as [Hlt|Hge].
    + rewrite wrap64_id by (unfold is_int64, min_int64; lia).
      rewrite release_test by lia. case_bool_decide as Hrel.
      * eapply steps_bind.
        { apply onTree_run, tree_DeleteVersion_law; [|lia]. apply Hin. right.
          unfold retained. lia. }
        intros st2 ((Hmap2 & Hver2 & Hvs2) & Hn2 & He2). apply steps_ret. split.
        { unfold same_store. rewrite Hmap2, Hver2, Hn2, He2. done. }
        intros v. rewrite Hvs2, elem_of_difference, elem_of_singleton, Hin, retained_step by lia.
        intuition.
      * apply steps_ret. split; [done|]. intros v. rewrite Hin, retained_step by lia. tauto.
    + apply steps_ret. split; [done|]. intros v. rewrite Hin, retained_step by lia.
      assert (~ st_numRecent st < n) by lia. tauto.
  - intros st2 [(Hm2 & Hv2 & Hn2 & He2) Hr2]. apply steps_ret. split; [|done].
    unfold pruned. rewrite Hv2, Hn2, He2. split_and!; [lia..|done].
Qed.

(** [k] commits with no writes between. *)
Fixpoint commits (k : nat) : M (iavlStore T) unit :=
  match k with O => mret tt | S k => iavlStore_Commit;; commits k end.

Lemma commits_run k st :
  pruned st -> tree_Version64 (st_tree st) + Z.of_nat k < max_int64 ->
  steps (commits k) st tt (fun st' => pruned st' /\
    same_store (tree_Version64 (st_tree st) + Z.of_nat k) st st').
Proof.
  revert st. induction k as [|k IH]; intros st Hp Hmax.
  - apply steps_ret. split; [done|]. unfold same_store. split_and!; [done|lia|done..].
  - simpl. destruct (Commit_run st Hp) as [hash Hc]; [lia|].
    eapply steps_bind; [exact Hc|]. intros st1 (Hp1 & Hm1 & Hv1 & Hn1 & He1).
    eapply steps_mono; [apply IH; [done|lia]|]. intros st2 (Hp2 & Hm2 & Hv2 & Hn2 & He2).
    split; [done|]. unfold same_store. split_and!; [congruence|lia|congruence..].
Qed.

(** *** The subspace query *)

Lemma collect_KVs_run fuel KVs st it l :
  (length l < fuel)%nat -> iavl_iter_rep true it l ->
  steps (collect_KVs fuel KVs) (st, it) (KVs ++ ((fun p => mk_KVPair (Some p.1) (Some p.2)) <$> l))
    (fun '(st', _) => tree_map (st_tree st') = tree_map (st_tree st)).
Proof.
  revert KVs st it l. induction fuel as [|fuel IH]; intros KVs st it l Hf Hr; [lia|]. cbn [collect_KVs].
  eapply steps_bind; [exact (law_Valid (KVStoreLaws:=iavl_laws) st true it l I Hr)|]. intros [st1 it1] (_ & Hv1 & Hr1).
  destruct l as [|[k v] l].
  { cbn. rewrite app_nil_r. by apply steps_ret. }
  cbn [negb]. eapply steps_bind; [exact (law_Key (KVStoreLaws:=iavl_laws) st1 true it1 k v l I Hr1)|]. intros [st2 it2] (_ & Hv2 & Hr2).
  eapply steps_bind; [exact (law_Value (KVStoreLaws:=iavl_laws) st2 true it2 k v l I Hr2)|]. intros [st3 it3] (_ & Hv3 & Hr3).
  eapply steps_bind; [exact (law_Next (KVStoreLaws:=iavl_laws) st3 true it3 (k, v) l I Hr3)|]. intros [st4 it4] (_ & Hv4 & Hr4).
  simpl in Hf.
  assert (KVs ++ ((fun p => mk_KVPair (Some p.1) (Some p.2)) <$> (k, v) :: l) =
    (KVs ++ [mk_KVPair (Some k) (Some v)]) ++
    ((fun p => mk_KVPair (Some p.1) (Some p.2)) <$> l)) as -> by (by rewrite <- app_assoc).
  eapply steps_mono; [apply IH; [lia|exact Hr4]|].
  intros [st5 it5] Hv5. simpl in *. congruence.
Qed.
End versions.

(** ** Properties *)

(** k commits in a row, from a store whose versions are the last
    numRecent before its latest, the latest and the waypoints (the multiples of
    storeEvery), return without error, advance the version by k, leave the
    working tree as it is and keep exactly that retention rule: each commit
    releases the one version that falls out of the window, unless it is a
    waypoint. *)
Theorem Commit_retention {T} `{VersionedTreeLaws T} (st : iavlStore T) (k : nat)
    (Hp : pruned st) (Hmax : tree_Version64 (st_tree st) + Z.of_nat k < max_int64) :
  exists st', commits k st = (Ok tt, st') /\
    tree_map (st_tree st') = tree_map (st_tree st) /\
    tree_Version64 (st_tree st') = tree_Version64 (st_tree st) + Z.of_nat k /\
    forall v, iavlStore_VersionExists st' v = true <->
      retained (tree_Version64 (st_tree st) + Z.of_nat k) (st_numRecent st) (st_storeEvery st) v.
Proof.
  destruct (commits_run k st Hp Hmax) as (st' & Hrun & (_ & _ & _ & Hv) & Hm & Hn & Hr & He).
  exists st'. split_and!; [done..|]. intros v. unfold iavlStore_VersionExists.
  by rewrite tree_VersionExists_law, bool_decide_eq_true, Hv, Hn, Hr, He.
Qed.

(** on a store pruned by that rule, with a version committed, a query
    without a height reads a version that is there: latest - 1 when it is
    retained, latest otherwise. *)
Theorem query_height_exists {T} `{VersionedTreeLaws T} (st : iavlStore T)
    (Hp : pruned st) (Hv : 1 <= tree_Version64 (st_tree st)) :
  iavlStore_VersionExists st (query_height (st_tree st) 0) = true /\
  (1 <= st_numRecent st -> 2 <= tree_Version64 (st_tree st) ->
   query_height (st_tree st) 0 = tree_Version64 (st_tree st) - 1).
Proof.
  destruct Hp as (Hmax & Hn & He & Hret). unfold query_height, iavlStore_VersionExists.
  rewrite wrap64_id by (unfold is_int64, min_int64; lia).
  set (n := tree_Version64 (st_tree st)) in *. simpl.
  destruct (tree_VersionExists (st_tree st) (n - 1)) eqn:E; [done|]. split.
  - rewrite tree_VersionExists_law, bool_decide_eq_true, Hret. unfold retained. lia.
  - intros H1 H2. rewrite tree_VersionExists_law, bool_decide_eq_false in E.
    contradict E. apply Hret. unfold retained. lia.
Qed.

(** a "/subspace" query with a non-empty prefix answers with all the
    entries of the working tree below the prefix, in key order, each once. *)
Theorem Query_subspace {T} `{VersionedTreeLaws T} (MarshalKVs : list KVPair -> slice)
    (st : iavlStore T) (subspace : bytes) (height : Z) (fuel : nat)
    (Hne : subspace <> []) (Hfuel : (size (tree_map (st_tree st)) < fuel)%nat) :
  exists l st',
    iavlStore_Query MarshalKVs fuel (mk_RequestQuery (Some subspace) "/subspace" height false) st =
      (Ok (mk_ResponseQuery 0 (TStr "") (Some subspace)
             (MarshalKVs ((fun p => mk_KVPair (Some p.1) (Some p.2)) <$> l)) None
             (query_height (st_tree st) height)), st') /\
    keys_sorted true l /\
    (forall k v, (k, v) ∈ l <-> tree_map (st_tree st) !! k = Some v /\ subspace `prefix_of` k).
Proof.
  destruct (KVStorePrefixIterator_spec (H0:=iavl_laws) st subspace I Hne) as (it & l & Hs & Hr & Hl & Hit).
  exists l.
  assert (Hlen : (length l < fuel)%nat).
  { eapply Nat.le_lt_trans; [|exact Hfuel]. rewrite <- length_map_to_list.
    apply submseteq_length, NoDup_submseteq; [by eapply NoDup_fmap_1, keys_sorted_NoDup|].
    intros [k v] Hin. apply elem_of_map_to_list. by apply Hl in Hin as [? _]. }
  assert (steps (iavlStore_Query MarshalKVs fuel
      (mk_RequestQuery (Some subspace) "/subspace" height false)) st
    (mk_ResponseQuery 0 (TStr "") (Some subspace)
       (MarshalKVs ((fun p => mk_KVPair (Some p.1) (Some p.2)) <$> l)) None
       (query_height (st_tree st) height)) (fun _ => True)) as (st' & Hrun & _); [|by exists st'].
  unfold iavlStore_Query. simpl rq_Data. simpl rq_Path.
  assert ((slice_len (Some subspace) =? 0) = false) as -> by (by destruct subspace).
  apply steps_get_bind. cbn [orb bool_decide]. 
  eapply steps_bind; [exact Hit|]. intros st1 [_ Hv1].
  destruct (steps_with_iter _ _ _ _ _ (collect_KVs_run fuel [] st1 it l Hlen Hr)) as [it' Hc].
  eapply steps_bind; [exact Hc|]. intros st2 _. by apply steps_ret.
Qed.

(** ** A concrete tree, for the witnesses: every saved version is a map *)

Record model_tree := mk_model_tree {
  mt_map : gmap bytes bytes; mt_saved : gmap Z (gmap bytes bytes); mt_latest : Z }.

Definition model_VersionedTree : VersionedTree model_tree := {|
  tree_Set k v := fun t =>
    (Ok tt, mk_model_tree (<[slice_bytes k := slice_bytes v]> (mt_map t)) (mt_saved t) (mt_latest t));
  tree_Get t k := mt_map t !! slice_bytes k;
  tree_Has t k := bool_decide (is_Some (mt_map t !! slice_bytes k));
  tree_Remove k := fun t =>
    (Ok tt, mk_model_tree (delete (slice_bytes k) (mt_map t)) (mt_saved t) (mt_latest t));
  tree_IterateRange t start end_ asc := iavl_entry <$> range asc start end_ (mt_map t);
  tree_SaveVersion := fun t =>
    (Ok (None, mt_latest t + 1, None),
     mk_model_tree (mt_map t) (<[mt_latest t + 1 := mt_map t]> (mt_saved t)) (mt_latest t + 1));
  tree_DeleteVersion v := fun t =>
    if decide (v = mt_latest t) then (Ok (Some "cannot delete latest saved version"), t)
    else match mt_saved t !! v with
         | None => (Ok (Some "version does not exist"), t)
         | Some _ => (Ok None, mk_model_tree (mt_map t) (delete v (mt_saved t)) (mt_latest t))
         end;
  tree_Version64 := mt_latest;
  tree_Hash t := None;
  tree_VersionExists t v := bool_decide (v ∈ dom (mt_saved t));
  tree_GetVersioned t k v := m ← mt_saved t !! v; m !! slice_bytes k;
  tree_GetVersionedWithProof t k v := (m ← mt_saved t !! v; m !! slice_bytes k, None, None);
|}.

#[local] Existing Instance model_VersionedTree.

#[refine] Instance model_VersionedTreeLaws : VersionedTreeLaws model_tree := {
  tree_map := mt_map; tree_versions t := dom (mt_saved t) }.
Proof.
  - intros. by eexists.
  - intros. by eexists.
  - done.
  - done.
  - done.
  - done.
  - intros t. exists None. eexists. split; [done|]. simpl. by rewrite dom_insert_L.
  - intros t v Hv Hne. simpl. unfold steps. rewrite decide_False by done.
    apply elem_of_dom in Hv as [m Hm]. rewrite Hm. eexists. split; [done|].
    simpl. by rewrite dom_delete_L.
Defined.

Definition iavl_example : iavlStore model_tree := newIAVLStore (mk_model_tree ∅ ∅ 0) 2 3.

Lemma iavl_example_pruned : pruned iavl_example.
Proof.
  unfold pruned, max_int64. simpl. split_and!; try lia. intros v. rewrite dom_empty_L, elem_of_empty.
  unfold retained. lia.
Qed.

Lemma Commit_retention_witness :
  pruned iavl_example /\ exists st', commits 7 iavl_example = (Ok tt, st') /\
    iavlStore_VersionExists st' 3 = true /\ iavlStore_VersionExists st' 4 = false /\
    iavlStore_VersionExists st' 5 = true.
Proof.
  split; [exact iavl_example_pruned|].
  destruct (Commit_retention iavl_example 7 iavl_example_pruned) as (st' & Hrun & _ & _ & Hv);
    [simpl; unfold max_int64; lia|].
  exists st'. split; [exact Hrun|]. split; [|split].
  - apply Hv. unfold retained. simpl. split; [lia|]. right. split; [lia|reflexivity].
  - apply not_true_is_false. intros H%Hv. unfold retained in H. simpl in H.
    destruct H as [_ [H|[_ H]]]; [lia|discriminate].
  - apply Hv. unfold retained. simpl. lia.
Defined.

Lemma query_height_exists_witness :
  exists st : iavlStore model_tree, pruned st /\ 1 <= tree_Version64 (st_tree st) /\
    iavlStore_VersionExists st (query_height (st_tree st) 0) = true.
Proof.
  destruct (Commit_run iavl_example iavl_example_pruned) as (h & st' & _ & Hp & _ & Hv & _);
    [simpl; unfold max_int64; lia|].
  exists st'. split; [exact Hp|]. split; [rewrite Hv; simpl; lia|].
  apply (query_height_exists st' Hp). rewrite Hv. simpl. lia.
Defined.

Lemma Query_subspace_witness :
  exists (l : list (bytes * bytes)) st',
    iavlStore_Query (fun _ => None) 3 (mk_RequestQuery (Some [Byte.x01]) "/subspace" 7 false)
      (newIAVLStore (mk_model_tree {[ [Byte.x01; Byte.x02] := [Byte.x09] ]} ∅ 0) 2 3) =
    (Ok (mk_ResponseQuery 0 (TStr "") (Some [Byte.x01]) None None 7), st') /\
    ([Byte.x01; Byte.x02], [Byte.x09]) ∈ l.
Proof.
  destruct (Query_subspace (fun _ => None)
    (newIAVLStore (mk_model_tree {[ [Byte.x01; Byte.x02] := [Byte.x09] ]} ∅ 0) 2 3)
    [Byte.x01] 7 3) as (l & st' & Hrun & _ & Hl); [done| |].
  - vm_compute. lia.
  - exists l, st'. split; [exact Hrun|]. apply Hl. split; [reflexivity|].
    by exists [Byte.x02].
Defined.
