(* ===== verification/Linear.v ===== *)
(** * types/lib/linear.go: lists and queues in a key-value store

    A Linear keeps its length, the position of its front and its elements
    under three keys of a store.  The operations are those of the code over any
    KVStore; the pointer an element is decoded into is a result, and the
    variables a callback captures are an accumulator it is given and returns. *)
From Stdlib Require Import Strings.Byte Strings.String.
From stdpp Require Import pretty.
From S2P Require Import Prelude Names KVStore.
#[local] Open Scope string_scope.
#[local] Open Scope list_scope.
#[local] Open Scope Z_scope.

(** ** Encoding *)

(** amino for the elements and for uint64. *)
Class LinearCodec (E : Type) := {
  MarshalElem : E -> option bytes;
  UnmarshalElem : bytes -> option E;
  MarshalUint64 : Z -> option bytes;
  UnmarshalUint64 : bytes -> option Z;
}.

(** What is encoded decodes to itself, a uint64 can be encoded, and there is
    nothing to decode in an empty slice. *)
Class LinearCodecLaws (E : Type) `{LinearCodec E} : Prop := {
  elem_roundtrip : forall e bz, MarshalElem e = Some bz -> UnmarshalElem bz = Some e;
  elem_empty : UnmarshalElem [] = None;
  uint64_encodes : forall z, is_uint64 z -> exists bz, MarshalUint64 z = Some bz;
  uint64_roundtrip : forall z bz, MarshalUint64 z = Some bz -> UnmarshalUint64 bz = Some z;
}.

(** ** Keys *)

Record LinearKeys := mk_LinearKeys { lk_LengthKey : slice; lk_ElemKey : slice; lk_TopKey : slice }.

Definition DefaultLinearKeys : LinearKeys := mk_LinearKeys (Some [Byte.x00]) (Some [Byte.x01]) (Some [Byte.x02]).

(** The store is the state of the monad, the codec a class. *)
Record Linear := mk_Linear { ln_keys : LinearKeys }.

Definition NewLinear (keys : option LinearKeys) : outcome Linear :=
  let keys := default DefaultLinearKeys keys in
  match lk_LengthKey keys, lk_ElemKey keys, lk_TopKey keys with
  | Some _, Some _, Some _ => Ok (mk_Linear keys)
  | _, _, _ => Panicked (PanicString "Invalid LinearKeys")
  end.

Definition NewList (keys : option LinearKeys) : outcome Linear := NewLinear keys.
Definition NewQueue (keys : option LinearKeys) : outcome Linear := NewLinear keys.

(** fmt.Sprintf with verb %020d, of a uint64. *)
Definition index_text (index : Z) : bytes :=
  let s := pretty (Z.to_N index) in repeat Byte.x30 (20 - String.length s) ++ string_bytes s.

Section linear.
Context {S : Type} `{KVStore S} {E : Type} `{LinearCodec E} (m : Linear).

Definition LengthKey : slice := lk_LengthKey (ln_keys m).
Definition ElemKey (index : Z) : slice := Some (slice_bytes (lk_ElemKey (ln_keys m)) ++ index_text index).
Definition TopKey : slice := lk_TopKey (ln_keys m).

Definition unmarshal {A} (f : bytes -> option A) (bz : slice) : M S A :=
  liftO (must (f (slice_bytes bz)) "MustUnmarshalBinary").
Definition marshal {A} (f : A -> option bytes) (a : A) : M S bytes := liftO (must (f a) "MustMarshalBinary").

(** ** List *)

Definition Len : M S Z :=
  bz ← Get LengthKey;
  match bz with
  | None => mret 0
  | Some _ => unmarshal UnmarshalUint64 bz
  end.

(** The element, or the codec's error. *)
Definition Linear_Get (index : Z) : M S (option E) :=
  bz ← Get (ElemKey index); mret (UnmarshalElem (slice_bytes bz)).

Definition Linear_Set (index : Z) (value : E) : M S unit :=
  bz ← marshal MarshalElem value; Set_ (ElemKey index) (Some bz).

Definition Linear_Delete (index : Z) : M S unit := Delete (ElemKey index).

Definition Push (value : E) : M S unit :=
  length ← Len;
  Linear_Set length value;;
  bz ← marshal MarshalUint64 (wrapu64 (length + 1));
  Set_ LengthKey (Some bz).

(** The index of an element, from the end of its key. *)
Definition index_of_key (k : slice) : M S Z :=
  let k := slice_bytes k in
  if (length k <? 20)%nat then panicM (RuntimeError "slice bounds out of range")
  else match ParseUint64 (drop (length k - 20) k) with
       | Some index => mret index
       | None => panicM (PanicString "strconv.ParseUint")
       end.

Section iterate.
Context {A : Type} (fn : A -> E -> Z -> M S (A * bool)).

(** A turn of the loop, and whether there is another. *)
Definition iterate_turn (a : A) : M (S * Iter) (A * bool) :=
  valid ← Valid;
  if negb valid then mret (a, false) else
  v ← Value;
  e ← zoom fst (fun s st => (s, st.2)) (unmarshal UnmarshalElem v);
  k ← Key;
  index ← zoom fst (fun s st => (s, st.2)) (index_of_key k);
  '(a, brk) ← zoom fst (fun s st => (s, st.2)) (fn a e index);
  if brk : bool then mret (a, false) else
  Next;;
  mret (a, true).

(** Up to [2^n] turns. *)
Fixpoint iterate_turns (n : nat) (a : A) : M (S * Iter) (A * bool) :=
  match n with
  | O => iterate_turn a
  | Datatypes.S n =>
      '(a, more) ← iterate_turns n a;
      if more : bool then iterate_turns n a else mret (a, false)
  end.

Definition Iterate (a : A) : M S A :=
  it ← KVStorePrefixIterator (Some [Byte.x01]);
  '((a, more), _) ← with_iter it (iterate_turns 65 a);
  if more : bool then panicM out_of_memory else mret a.
End iterate.

(** ** Queue *)

Definition getTop : M S Z :=
  bz ← Get TopKey;
  match bz with
  | None => mret 0
  | Some _ => unmarshal UnmarshalUint64 bz
  end.

Definition setTop (top : Z) : M S unit :=
  bz ← marshal MarshalUint64 top; Set_ TopKey (Some bz).

Definition Peek : M S (option E) := top ← getTop; Linear_Get top.

Definition Pop : M S unit :=
  top ← getTop; Linear_Delete top;; setTop (wrapu64 (top + 1)).

Definition IsEmpty : M S bool :=
  top ← getTop; length ← Len; mret (length <=? top).

(** The loop from [i], of as many turns as there are elements. *)
Fixpoint flush_loop {A} (fn : A -> E -> M S (A * bool)) (n : nat) (i : Z) (a : A) : M S (A * Z) :=
  match n with
  | O => mret (a, i)
  | Datatypes.S n =>
      e ← Linear_Get i;
      match e with
      | None => panicM (PanicString "UnmarshalBinary")
      | Some e =>
          Linear_Delete i;;
          '(a, brk) ← fn a e;
          if brk : bool then mret (a, i) else flush_loop fn n (wrapu64 (i + 1)) a
      end
  end.

Definition Flush {A} (fn : A -> E -> M S (A * bool)) (a : A) : M S A :=
  top ← getTop;
  length ← Len;
  '(a, i) ← flush_loop fn (Z.to_nat (length - top)) top a;
  setTop i;;
  mret a.
End linear.

Definition subspace (prefix : bytes) : outcome (bytes * bytes) :=
  match rev prefix with
  | [] => Panicked (RuntimeError "index out of range")
  | b :: l => Ok (prefix, rev l ++ [byte_succ b])
  end.
