(* ===== verification/LinearOps.v ===== *)
(** * Lists and queues in a store: the state and the operations on it

    [lstate] is what the keys of a Linear stand for: the elements by index, the
    length and the front.  Each operation is specified on it, over any lawful
    store. *)
From Stdlib Require Import Strings.Byte Strings.String.
From stdpp Require Import pretty.
From S2P Require Import Prelude Names KVStore Linear.
#[local] Open Scope string_scope.
#[local] Open Scope list_scope.
#[local] Open Scope Z_scope.

(** ** The text of an index *)

Lemma ten_twenty z : is_uint64 z -> 0 <= z < 10 ^ Z.of_nat 20.
Proof. unfold is_uint64. intros Hz. assert (2 ^ 64 < 10 ^ Z.of_nat 20) by (vm_compute; reflexivity). lia. Qed.

Lemma index_text_digits z : is_uint64 z -> index_text z = digits 10 dec_digit 20 z.
Proof.
  intros Hz. unfold index_text. destruct (decide (z = 0)) as [ -> |Hne]; [by vm_compute|].
  pose proof (ten_twenty z Hz) as Hb.
  assert (Hn : Z.to_N z <> 0%N) by (unfold is_uint64 in Hz; lia).
  assert (Ep : pretty (Z.to_N z) = pretty_N_go (Z.to_N z) "").
  { unfold pretty, pretty_N. by destruct (Z.to_N z). }
  rewrite Ep. destruct (pretty_N_go_digits 20 (Z.to_N z) "") as [_ Hd].
  { rewrite Z2N.id by (unfold is_uint64 in Hz; lia). lia. }
  simpl String.length in Hd. rewrite Nat.sub_0_r in Hd. rewrite Hd, app_nil_r.
  f_equal. rewrite Z2N.id by (unfold is_uint64 in Hz; lia). done.
Qed.

Lemma index_text_length z : is_uint64 z -> length (index_text z) = 20%nat.
Proof. intros Hz. rewrite index_text_digits by done. apply digits_length. Qed.

Lemma index_text_compare a b : is_uint64 a -> is_uint64 b -> bytes_compare (index_text a) (index_text b) = Z.compare a b.
Proof.
  intros Ha Hb. rewrite !index_text_digits by done.
  apply digits_compare; [lia|exact dec_digit_compare|by apply ten_twenty..].
Qed.

Lemma index_text_inj a b : is_uint64 a -> is_uint64 b -> index_text a = index_text b -> a = b.
Proof.
  intros Ha Hb He. pose proof (index_text_compare a b Ha Hb) as Hc. rewrite He, bytes_compare_refl in Hc.
  by apply Z.compare_eq.
Qed.

(** It parses back. *)
Lemma ParseUint_index z : is_uint64 z -> ParseUint64 (index_text z) = Some z.
Proof.
  intros Hz. pose proof (index_text_length z Hz) as Hl. unfold ParseUint64, ParseUint.
  destruct (index_text z) eqn:E; [done|]. rewrite <- E, index_text_digits by done.
  rewrite <- (app_nil_r (digits _ _ _ _)), parse_digits_app; [done|lia|by apply ten_twenty|].
  unfold is_uint64 in Hz. lia.
Qed.

(** ** The state *)

Record lstate (E : Type) := mk_lstate { ls_elems : gmap Z E; ls_len : Z; ls_top : Z }.
#[global] Arguments mk_lstate {E}.
#[global] Arguments ls_elems {E}.
#[global] Arguments ls_len {E}.
#[global] Arguments ls_top {E}.

Definition set_elem {E} (L : lstate E) (i : Z) (e : E) : lstate E :=
  mk_lstate (<[i := e]> (ls_elems L)) (ls_len L) (ls_top L).
Definition del_elem {E} (L : lstate E) (i : Z) : lstate E := mk_lstate (delete i (ls_elems L)) (ls_len L) (ls_top L).
Definition set_len {E} (L : lstate E) (n : Z) : lstate E := mk_lstate (ls_elems L) n (ls_top L).
Definition set_top {E} (L : lstate E) (n : Z) : lstate E := mk_lstate (ls_elems L) (ls_len L) n.

Section rep.
Context {E : Type} `{HLC : LinearCodecLaws E} (m : Linear) (lenk elemk topk : bytes).

(** Three keys that cannot be taken for one another. *)
Record keys_ok : Prop := mk_keys_ok {
  ko_keys : ln_keys m = mk_LinearKeys (Some lenk) (Some elemk) (Some topk);
  ko_len_top : lenk <> topk;
  ko_len_elem : ~ elemk `prefix_of` lenk;
  ko_top_elem : ~ elemk `prefix_of` topk
}.

(** A counter that is not stored is 0. *)
Definition counter (b : slice) (z : Z) : Prop :=
  is_uint64 z /\ match b with None => z = 0 | Some bz => UnmarshalUint64 bz = Some z end.

Definition stored (b : slice) (e : option E) : Prop :=
  match b, e with
  | None, None => True
  | Some bz, Some e => UnmarshalElem bz = Some e
  | _, _ => False
  end.

Record rep (V : gmap bytes bytes) (L : lstate E) : Prop := mk_rep {
  rp_len : counter (V !! lenk) (ls_len L);
  rp_top : counter (V !! topk) (ls_top L);
  rp_elem : forall i, is_uint64 i -> stored (V !! (elemk ++ index_text i)) (ls_elems L !! i);
  rp_index : forall i e, ls_elems L !! i = Some e -> is_uint64 i;
  rp_only : forall k, elemk `prefix_of` k -> is_Some (V !! k) -> exists i, is_uint64 i /\ k = elemk ++ index_text i
}.

Context (Hk : keys_ok).
#[local] Set Default Proof Using "All".

Lemma elem_not_len i : elemk ++ index_text i <> lenk.
Proof. intros He. apply (ko_len_elem Hk). rewrite <- He. by eexists. Qed.
Lemma elem_not_top i : elemk ++ index_text i <> topk.
Proof. intros He. apply (ko_top_elem Hk). rewrite <- He. by eexists. Qed.

Lemma elem_key_inj i j : is_uint64 i -> is_uint64 j -> elemk ++ index_text i = elemk ++ index_text j -> i = j.
Proof. intros Hi Hj He. apply app_inv_head in He. by apply index_text_inj. Qed.

Lemma rep_set V L i e bz :
  rep V L -> is_uint64 i -> UnmarshalElem bz = Some e -> rep (<[elemk ++ index_text i := bz]> V) (set_elem L i e).
Proof.
  intros [R1 R2 R3 R4 R5] Hi He. split; simpl.
  - rewrite lookup_insert_ne by apply elem_not_len. done.
  - rewrite lookup_insert_ne by apply elem_not_top. done.
  - intros j Hj. destruct (decide (i = j)) as [ <-|Hne]; [by rewrite !lookup_insert_eq|].
    rewrite !lookup_insert_ne; [by apply R3|done|]. intros Hc. by apply Hne, elem_key_inj.
  - intros j f. destruct (decide (i = j)) as [ <-|Hne]; [done|]. rewrite lookup_insert_ne by done. apply R4.
  - intros k Hp. destruct (decide (k = elemk ++ index_text i)) as [ ->|Hne]; [by exists i|].
    rewrite lookup_insert_ne by done. by apply R5.
Qed.

Lemma rep_del V L i :
  rep V L -> is_uint64 i -> rep (delete (elemk ++ index_text i) V) (del_elem L i).
Proof.
  intros [R1 R2 R3 R4 R5] Hi. split; simpl.
  - rewrite lookup_delete_ne by apply elem_not_len. done.
  - rewrite lookup_delete_ne by apply elem_not_top. done.
  - intros j Hj. destruct (decide (i = j)) as [ <-|Hne]; [by rewrite !lookup_delete_eq|].
    rewrite !lookup_delete_ne; [by apply R3|done|]. intros Hc. by apply Hne, elem_key_inj.
  - intros j f. destruct (decide (i = j)) as [ <-|Hne]; [by rewrite lookup_delete_eq|]. rewrite lookup_delete_ne by done. apply R4.
  - intros k Hp. destruct (decide (k = elemk ++ index_text i)) as [ ->|Hne]; [by exists i|].
    rewrite lookup_delete_ne by done. by apply R5.
Qed.

Lemma rep_set_len V L n bz :
  rep V L -> is_uint64 n -> UnmarshalUint64 bz = Some n -> rep (<[lenk := bz]> V) (set_len L n).
Proof.
  intros [R1 R2 R3 R4 R5] Hn He. pose proof (ko_len_top Hk). split; simpl.
  - by rewrite lookup_insert_eq.
  - by rewrite lookup_insert_ne.
  - intros i Hi. rewrite lookup_insert_ne by (intros Hc; by apply (elem_not_len i)). by apply R3.
  - done.
  - intros k Hp. rewrite lookup_insert_ne; [by apply R5|]. intros <-. by apply (ko_len_elem Hk).
Qed.

Lemma rep_set_top V L n bz :
  rep V L -> is_uint64 n -> UnmarshalUint64 bz = Some n -> rep (<[topk := bz]> V) (set_top L n).
Proof.
  intros [R1 R2 R3 R4 R5] Hn He. pose proof (ko_len_top Hk). split; simpl.
  - by rewrite lookup_insert_ne.
  - by rewrite lookup_insert_eq.
  - intros i Hi. rewrite lookup_insert_ne by (intros Hc; by apply (elem_not_top i)). by apply R3.
  - done.
  - intros k Hp. rewrite lookup_insert_ne; [by apply R5|]. intros <-. by apply (ko_top_elem Hk).
Qed.

(** ** The operations *)

Context {S : Type} `{HKL : KVStoreLaws S}.

Definition lin_st (L : lstate E) (s : S) : Prop := wf s /\ rep (view s) L.

Lemma lin_frame L s s' : lin_st L s -> wf s' /\ view s' = view s -> lin_st L s'.
Proof using Type. intros [_ Hr] [Hw Hv]. split; [done|]. by rewrite Hv. Qed.

Lemma steps_marshal {A : Type} (f : A -> option bytes) a bz s (P : S -> Prop) :
  f a = Some bz -> P s -> steps (marshal f a) s bz P.
Proof using Type. intros Hf HP. exists s. unfold marshal, liftO, must. by rewrite Hf. Qed.

Lemma steps_unmarshal {A : Type} (f : bytes -> option A) b a s (P : S -> Prop) :
  f (slice_bytes b) = Some a -> P s -> steps (unmarshal f b) s a P.
Proof using Type. intros Hf HP. exists s. unfold unmarshal, liftO, must. by rewrite Hf. Qed.

Lemma counter_spec k L s z :
  lin_st L s -> counter (view s !! k) z ->
  steps (bz ← Get (S:=S) (Some k); match bz with None => mret 0 | Some _ => unmarshal UnmarshalUint64 bz end) s z (lin_st L).
Proof.
  intros Hs [_ Hz]. eapply steps_bind; [apply law_Get, Hs|]. intros s1 Hs1.
  pose proof (lin_frame _ _ _ Hs Hs1). destruct (view s !! k) as [bz|]; [by apply steps_unmarshal|].
  subst z. by apply steps_ret.
Qed.

Lemma Len_spec L s : lin_st L s -> steps (Len m) s (ls_len L) (lin_st L).
Proof. intros Hs. unfold Len, LengthKey. rewrite (ko_keys Hk). apply counter_spec; [done|]. apply Hs. Qed.

Lemma getTop_spec L s : lin_st L s -> steps (getTop m) s (ls_top L) (lin_st L).
Proof. intros Hs. unfold getTop, TopKey. rewrite (ko_keys Hk). apply counter_spec; [done|]. apply Hs. Qed.

Lemma ElemKey_eq i : ElemKey m i = Some (elemk ++ index_text i).
Proof. unfold ElemKey. by rewrite (ko_keys Hk). Qed.

Lemma Get_spec L s i : lin_st L s -> is_uint64 i -> steps (Linear_Get m i) s (ls_elems L !! i) (lin_st L).
Proof.
  intros Hs Hi. unfold Linear_Get. rewrite ElemKey_eq. eapply steps_bind; [apply law_Get, Hs|]. intros s1 Hs1.
  exists s1. split; [|by eapply lin_frame]. do 2 f_equal.
  pose proof (rp_elem _ _ (proj2 Hs) i Hi) as Hr. unfold mret, M_ret. do 2 f_equal.
  destruct (view s !! _) as [bz|], (ls_elems L !! i) as [e|]; simpl in *; try done. apply elem_empty.
Qed.

Lemma Set_spec L s i e bz :
  lin_st L s -> is_uint64 i -> MarshalElem e = Some bz -> steps (Linear_Set m i e) s tt (lin_st (set_elem L i e)).
Proof.
  intros Hs Hi He. unfold Linear_Set. eapply steps_bind; [by apply (steps_marshal _ _ bz _ (lin_st L))|].
  intros s1 Hs1. rewrite ElemKey_eq. eapply steps_mono; [apply law_Set, Hs1|]. intros s2 [Hw Hv].
  split; [done|]. rewrite Hv. apply rep_set; [apply Hs1|done|]. by apply elem_roundtrip.
Qed.

Lemma Delete_spec L s i : lin_st L s -> is_uint64 i -> steps (Linear_Delete m i) s tt (lin_st (del_elem L i)).
Proof.
  intros Hs Hi. unfold Linear_Delete. rewrite ElemKey_eq. eapply steps_mono; [apply law_Delete, Hs|].
  intros s1 [Hw Hv]. split; [done|]. rewrite Hv. apply rep_del; [apply Hs|done].
Qed.

Lemma setTop_spec L s n : lin_st L s -> is_uint64 n -> steps (setTop m n) s tt (lin_st (set_top L n)).
Proof.
  intros Hs Hn. unfold setTop, TopKey. rewrite (ko_keys Hk). simpl. destruct (uint64_encodes n Hn) as [bz Hbz].
  eapply steps_bind; [by apply (steps_marshal _ _ bz _ (lin_st L))|]. intros s1 Hs1.
  eapply steps_mono; [apply law_Set, Hs1|]. intros s2 [Hw Hv]. split; [done|]. rewrite Hv.
  apply rep_set_top; [apply Hs1|done|]. by apply uint64_roundtrip.
Qed.

Lemma Push_spec L s e bz :
  lin_st L s -> MarshalElem e = Some bz ->
  steps (Push m e) s tt (lin_st (set_len (set_elem L (ls_len L) e) (wrapu64 (ls_len L + 1)))).
Proof.
  intros Hs He. unfold Push. eapply steps_bind; [by apply Len_spec|]. intros s1 Hs1.
  assert (Hl : is_uint64 (ls_len L)) by apply (rp_len _ _ (proj2 Hs)).
  eapply steps_bind; [by eapply Set_spec|]. intros s2 Hs2.
  destruct (uint64_encodes (wrapu64 (ls_len L + 1))) as [bl Hbl]; [auto with sdk|].
  eapply steps_bind; [by apply (steps_marshal _ _ bl _ (lin_st (set_elem L (ls_len L) e)))|]. intros s3 Hs3.
  unfold LengthKey. rewrite (ko_keys Hk). simpl.
  eapply steps_mono; [apply law_Set, Hs3|]. intros s4 [Hw Hv]. split; [done|]. rewrite Hv.
  apply rep_set_len; [apply Hs3|auto with sdk|]. by apply uint64_roundtrip.
Qed.
End rep.

(** * Queues and lists in a store: what their operations promise

    A queue is the elements from the front to the length, in order, with a hole
    in front of them when a flush has been broken off: pushing, popping,
    peeking and flushing are those of a list with such a hole, as long as
    nothing is popped from an empty queue.  Iterating visits the elements of a
    list in the order of their indices. *)

(** ** The operations of a queue, and those of a list *)

(** A flush breaks off after the first element of which [brk] holds. *)
Inductive queue_op (E : Type) :=
  | QPush (e : E)
  | QPop
  | QPeek
  | QIsEmpty
  | QFlush (brk : E -> bool).
#[global] Arguments QPush {E}.
#[global] Arguments QPop {E}.
#[global] Arguments QPeek {E}.
#[global] Arguments QIsEmpty {E}.
#[global] Arguments QFlush {E}.

Inductive queue_result (E : Type) :=
  | RDone
  | RElem (e : option E)
  | REmpty (b : bool)
  | RFlushed (l : list E).
#[global] Arguments RDone {E}.
#[global] Arguments RElem {E}.
#[global] Arguments REmpty {E}.
#[global] Arguments RFlushed {E}.

(** A list, and whether its front is the place of an element that is gone. *)
Record queue (E : Type) := mk_queue { q_hole : bool; q_elems : list E }.
#[global] Arguments mk_queue {E}.
#[global] Arguments q_hole {E}.
#[global] Arguments q_elems {E}.

(** What a flush processes and what it leaves, and whether it was broken off. *)
Fixpoint flush_split {E} (brk : E -> bool) (l : list E) : list E * list E * bool :=
  match l with
  | [] => ([], [], false)
  | e :: l => if brk e then ([e], l, true) else let '(out, kept, b) := flush_split brk l in (e :: out, kept, b)
  end.

Definition spec_queue {E} (op : queue_op E) (q : queue E) : outcome (queue_result E) * queue E :=
  let '(mk_queue hole l) := q in
  match op with
  | QPush e => (Ok RDone, mk_queue hole (l ++ [e]))
  | QPop => (Ok RDone, mk_queue false (if hole then l else tail l))
  | QPeek => (Ok (RElem (if hole then None else head l)), q)
  | QIsEmpty => (Ok (REmpty (match hole, l with false, [] => true | _, _ => false end)), q)
  | QFlush brk =>
      if hole then (Panicked (PanicString "UnmarshalBinary"), q)
      else let '(out, kept, b) := flush_split brk l in (Ok (RFlushed out), mk_queue b kept)
  end.

(** Operations in a row, up to one that panics. *)
Fixpoint spec_queue_run {E} (ops : list (queue_op E)) (q : queue E) : outcome (list (queue_result E)) * queue E :=
  match ops with
  | [] => (Ok [], q)
  | op :: ops =>
      match spec_queue op q with
      | (Ok r, q) => let '(rs, q) := spec_queue_run ops q in (rs ← rs; mret (r :: rs), q)
      | (Panicked v, q) => (Panicked v, q)
      end
  end.

Section ops.
Context {S : Type} `{KVStore S} {E : Type} `{LinearCodec E} (m : Linear).

(** A flush that collects what it processes. *)
Definition run_queue_op (op : queue_op E) : M S (queue_result E) :=
  match op with
  | QPush e => Push m e;; mret RDone
  | QPop => Pop m;; mret RDone
  | QPeek => e ← Peek m; mret (RElem e)
  | QIsEmpty => b ← IsEmpty m; mret (REmpty b)
  | QFlush brk => l ← Flush m (fun l e => mret (l ++ [e], brk e)) []; mret (RFlushed l)
  end.
Fixpoint run_queue (ops : list (queue_op E)) : M S (list (queue_result E)) :=
  match ops with
  | [] => mret []
  | op :: ops => r ← run_queue_op op; rs ← run_queue ops; mret (r :: rs)
  end.

(** What the interface asks of its user: elements that can be encoded, and no
    pop from an empty queue. *)
Definition legal_op (op : queue_op E) (q : queue E) : Prop :=
  match op with
  | QPush e => is_Some (MarshalElem e)
  | QPop => q <> mk_queue false []
  | _ => True
  end.
Fixpoint legal (ops : list (queue_op E)) (q : queue E) : Prop :=
  match ops with
  | [] => True
  | op :: ops => legal_op op q /\ match spec_queue op q with (Ok _, q) => legal ops q | _ => True end
  end.
End ops.

(** ** The queue a state is *)

Record queue_of {E} (L : lstate E) (l : list E) : Prop := mk_queue_of {
  qo_len : ls_top L + Z.of_nat (length l) = ls_len L;
  qo_elem : forall j e, l !! j = Some e -> ls_elems L !! (ls_top L + Z.of_nat j) = Some e;
  qo_free : forall i, ls_len L <= i -> ls_elems L !! i = None
}.

Lemma queue_head {E} (L : lstate E) l : queue_of L l -> ls_elems L !! (ls_top L) = head l.
Proof.
  intros [Hl He Hf]. destruct l as [|e l]; simpl in *; [apply Hf; lia|].
  rewrite <- (He 0%nat e eq_refl). f_equal. lia.
Qed.

Lemma queue_push {E} (L : lstate E) l e :
  queue_of L l -> 0 <= ls_len L < 2 ^ 64 - 1 ->
  queue_of (set_len (set_elem L (ls_len L) e) (wrapu64 (ls_len L + 1))) (l ++ [e]).
Proof.
  intros [Hl He Hf] Hb. rewrite wrapu64_id by (unfold is_uint64; lia). split; simpl.
  - rewrite length_app. simpl. lia.
  - intros j f Hj. apply lookup_app_Some in Hj as [Hj|[Hj1 Hj2]].
    + rewrite lookup_insert_ne; [by apply He|]. apply lookup_lt_Some in Hj. lia.
    + destruct (j - length l)%nat eqn:E0; [|done]. injection Hj2 as ->.
      rewrite <- Hl. replace j with (length l) by lia. apply lookup_insert_eq.
  - intros i Hi. rewrite lookup_insert_ne by lia. apply Hf. lia.
Qed.

(** The front removed. *)
Lemma queue_pop {E} (L : lstate E) e l :
  queue_of L (e :: l) -> 0 <= ls_top L -> ls_len L < 2 ^ 64 ->
  queue_of (set_top (del_elem L (ls_top L)) (wrapu64 (ls_top L + 1))) l.
Proof.
  intros [Hl He Hf] Ht Hb. simpl in Hl. rewrite wrapu64_id by (unfold is_uint64; lia). split; simpl.
  - lia.
  - intros j f Hj. rewrite lookup_delete_ne by lia. rewrite <- (He (Datatypes.S j) f Hj). f_equal. lia.
  - intros i Hi. destruct (decide (ls_top L = i)) as [ <-|Hne]; [apply lookup_delete_eq|].
    rewrite lookup_delete_ne by done. by apply Hf.
Qed.

(** [n] elements removed from index [i] on. *)
Fixpoint del_range {E} (L : lstate E) (i : Z) (n : nat) : lstate E :=
  match n with O => L | S n => del_range (del_elem L i) (i + 1) n end.

Lemma del_range_counters {E} (L : lstate E) i n :
  ls_len (del_range L i n) = ls_len L /\ ls_top (del_range L i n) = ls_top L.
Proof. revert L i. induction n as [|n IH]; intros L i; [done|]. exact (IH (del_elem L i) (i + 1)). Qed.

Lemma del_range_lookup {E} (L : lstate E) i n j :
  ls_elems (del_range L i n) !! j = if decide (i <= j < i + Z.of_nat n) then None else ls_elems L !! j.
Proof.
  revert L i. induction n as [|n IH]; intros L i; [by rewrite decide_False by lia|].
  cbn [del_range]. rewrite IH. simpl. destruct (decide (i = j)) as [ <-|Hne].
  - rewrite decide_False, decide_True by lia. apply lookup_delete_eq.
  - rewrite lookup_delete_ne by done. do 2 case_decide; lia || done.
Qed.

Section queue.
Context {E : Type} `{HLC : LinearCodecLaws E} (m : Linear) (lenk elemk topk : bytes) (Hk : keys_ok m lenk elemk topk).
Context {S : Type} `{HKL : KVStoreLaws S}.
#[local] Set Default Proof Using "All".
Abbreviation st := (lin_st (S:=S) lenk elemk topk).

Lemma top_uint64 L s : st L s -> is_uint64 (ls_top L).
Proof. intros Hs. apply (rp_top _ _ _ _ _ (proj2 Hs)). Qed.
Lemma len_uint64 L s : st L s -> is_uint64 (ls_len L).
Proof. intros Hs. apply (rp_len _ _ _ _ _ (proj2 Hs)). Qed.

Lemma Peek_spec L s : st L s -> steps (Peek m) s (ls_elems L !! ls_top L) (st L).
Proof.
  intros Hs. unfold Peek. eapply steps_bind; [by apply getTop_spec|]. intros s1 Hs1.
  eapply Get_spec; [done..|]. by eapply top_uint64.
Qed.

Lemma Pop_spec L s :
  st L s -> steps (Pop m) s tt (st (set_top (del_elem L (ls_top L)) (wrapu64 (ls_top L + 1)))).
Proof.
  intros Hs. pose proof (top_uint64 _ _ Hs). unfold Pop. eapply steps_bind; [by apply getTop_spec|]. intros s1 Hs1.
  eapply steps_bind; [by eapply Delete_spec|]. intros s2 Hs2.
  apply (setTop_spec _ _ _ _ Hk (del_elem L (ls_top L))); [done|auto with sdk].
Qed.

Lemma IsEmpty_spec L s : st L s -> steps (IsEmpty m) s (ls_len L <=? ls_top L) (st L).
Proof.
  intros Hs. unfold IsEmpty. eapply steps_bind; [by apply getTop_spec|]. intros s1 Hs1.
  eapply steps_bind; [by apply Len_spec|]. intros s2 Hs2. by apply steps_ret.
Qed.

(** ** Flushing *)

Section flush.
Context {A : Type} (f : A -> E -> A * bool).
#[local] Set Default Proof Using "Type".

(** The elements processed, the last of them perhaps the one that breaks. *)
Fixpoint processed (l : list E) (a : A) : A * nat * bool :=
  match l with
  | [] => (a, O, false)
  | e :: l =>
      let '(a, brk) := f a e in
      if brk : bool then (a, O, true)
      else let '(a, n, brk) := processed l a in (a, Datatypes.S n, brk)
  end.

Lemma processed_length l a : ((processed l a).1.2 <= length l)%nat.
Proof.
  revert a. induction l as [|e l IH]; intros a; [done|]. simpl. destruct (f a e) as [a1 []]; [simpl; lia|].
  specialize (IH a1). destruct (processed l a1) as [[a' n'] b']. simpl in *. lia.
Qed.

#[local] Set Default Proof Using "All".
Abbreviation fn := (fun (a : A) (e : E) => mret (f a e) : M S (A * bool)).

Definition removed (p : A * nat * bool) : nat := (p.1.2 + (if p.2 then 1 else 0))%nat.

(** The loop removes what it processes and stops at the index of the element
    that broke it off. *)
Lemma flush_loop_spec l : forall i a L s,
  st L s -> (forall j e, l !! j = Some e -> ls_elems L !! (i + Z.of_nat j) = Some e) ->
  0 <= i -> i + Z.of_nat (length l) < 2 ^ 64 ->
  steps (flush_loop m fn (length l) i a) s ((processed l a).1.1, i + Z.of_nat (processed l a).1.2)
    (st (del_range L i (removed (processed l a)))).
Proof.
  induction l as [|e l IH]; intros i a L s Hs Hl Hi Hb.
  - simpl. rewrite Z.add_0_r. by apply steps_ret.
  - simpl length in Hb. assert (Hu : is_uint64 i) by (unfold is_uint64; lia).
    assert (He : ls_elems L !! i = Some e) by (rewrite <- (Hl 0%nat e eq_refl); f_equal; simpl; lia).
    cbn [processed length flush_loop]. eapply steps_bind; [by eapply Get_spec|]. intros s1 Hs1. rewrite He.
    eapply steps_bind; [by eapply Delete_spec|]. intros s2 Hs2. apply steps_ret_bind.
    destruct (f a e) as [a1 [|]] eqn:Ef; [simpl; rewrite Z.add_0_r; by apply steps_ret|].
    rewrite wrapu64_id by (unfold is_uint64; lia).
    assert (Hr : steps (flush_loop m fn (length l) (i + 1) a1) s2
      ((processed l a1).1.1, i + 1 + Z.of_nat (processed l a1).1.2)
      (st (del_range (del_elem L i) (i + 1) (removed (processed l a1))))).
    { apply IH; [done| |lia..]. intros j x Hj. simpl. rewrite lookup_delete_ne by lia.
      rewrite <- (Hl (Datatypes.S j) x Hj). f_equal. lia. }
    destruct (processed l a1) as [[a' n'] brk']. unfold removed in *. cbn [fst snd Nat.add del_range] in *.
    replace (i + Z.of_nat (Datatypes.S n')) with (i + 1 + Z.of_nat n') by lia. exact Hr.
Qed.

Lemma Flush_spec L s l a :
  st L s -> queue_of L l ->
  steps (Flush m fn a) s (processed l a).1.1
    (st (set_top (del_range L (ls_top L) (removed (processed l a))) (ls_top L + Z.of_nat (processed l a).1.2))).
Proof.
  intros Hs [Hlen Hel Hfree]. unfold Flush. pose proof (top_uint64 _ _ Hs) as Ht. pose proof (len_uint64 _ _ Hs) as Hl.
  unfold is_uint64 in Ht, Hl. eapply steps_bind; [by apply getTop_spec|]. intros s1 Hs1.
  eapply steps_bind; [by apply Len_spec|]. intros s2 Hs2.
  replace (Z.to_nat (ls_len L - ls_top L)) with (length l) by lia.
  eapply steps_bind; [apply flush_loop_spec; [exact Hs2|exact Hel|lia|lia]|]. intros s3 Hs3.
  eapply steps_bind; [eapply setTop_spec; [done|exact Hs3|]|]. 
  { pose proof (processed_length l a). unfold is_uint64. lia. }
  intros s4 Hs4. by apply steps_ret.
Qed.
End flush.

(** The callback of a flush that collects. *)
Lemma processed_split (brk : E -> bool) l a :
  let '(out, kept, b) := flush_split brk l in
  exists n, processed (fun a e => (a ++ [e], brk e)) l a = (a ++ out, n, b) /\ l = out ++ kept /\
    length out = (n + (if b then 1 else 0))%nat.
Proof.
  revert a. induction l as [|e l IH]; intros a; simpl; [exists 0%nat; by rewrite app_nil_r|].
  destruct (brk e); [by exists 0%nat|]. specialize (IH (a ++ [e])).
  destruct (flush_split brk l) as [[out kept] b]. destruct IH as (n & -> & -> & Hn).
  exists (Datatypes.S n). rewrite <- app_assoc. split; [done|]. split; [done|]. simpl. lia.
Qed.

(** What is left when a part has been removed from the front. *)
Lemma queue_flushed (L : lstate E) out kept :
  queue_of L (out ++ kept) ->
  queue_of (set_top (del_range L (ls_top L) (length out)) (ls_top L + Z.of_nat (length out))) kept.
Proof.
  intros [Hl He Hf]. destruct (del_range_counters L (ls_top L) (length out)) as [El _].
  rewrite length_app in Hl. split; simpl.
  - lia.
  - intros j e Hj. rewrite del_range_lookup, decide_False by lia. rewrite <- (He (length out + j)%nat e); [f_equal; lia|].
    rewrite lookup_app_r by lia. by replace (length out + j - length out)%nat with j by lia.
  - intros i Hi. rewrite del_range_lookup. case_decide; [done|]. apply Hf. lia.
Qed.

(** [ends] is [steps] for an outcome that may be a panic. *)
Definition ends {A} (p : M S A) (s : S) (o : outcome A) (P : S -> Prop) : Prop := exists s', p s = (o, s') /\ P s'.

Lemma steps_bind_ends {A B} (p : M S A) (k : A -> M S B) s a o P Q :
  steps p s a P -> (forall s', P s' -> ends (k a) s' o Q) -> ends (p ≫= k) s o Q.
Proof using Type.
  intros (s1 & Hp & HP) Hk'. destruct (Hk' s1 HP) as (s2 & Hr & HQ). exists s2. split; [|done].
  by rewrite (bind_Ok _ _ _ _ _ Hp).
Qed.

Lemma ends_panic {A B} (p : M S A) (k : A -> M S B) s v P : ends p s (Panicked v) P -> ends (p ≫= k) s (Panicked v) P.
Proof using Type. intros (s1 & Hp & HP). exists s1. split; [|done]. unfold mbind, M_bind. by rewrite Hp. Qed.

(** A queue with a hole is one whose front is behind the hole. *)
Definition queue_rep (L : lstate E) (q : queue E) : Prop :=
  if q_hole q then ls_elems L !! ls_top L = None /\ queue_of (set_top L (ls_top L + 1)) (q_elems q)
  else queue_of L (q_elems q).

Lemma queue_rep_push L q e :
  queue_rep L q -> is_uint64 (ls_len L) -> ls_len L < 2 ^ 64 - 1 ->
  queue_rep (set_len (set_elem L (ls_len L) e) (wrapu64 (ls_len L + 1))) (mk_queue (q_hole q) (q_elems q ++ [e])).
Proof using Type.
  unfold queue_rep, is_uint64. intros Hq Hu Hb. destruct q as [[] l]; cbn [q_hole q_elems] in *; [|apply queue_push; [done|lia]].
  destruct Hq as [Hn Hq]. pose proof (qo_len _ _ Hq) as Hl. cbn [ls_len ls_top set_top] in Hl. split.
  - cbn. rewrite lookup_insert_ne by lia. exact Hn.
  - apply (queue_push (set_top L (ls_top L + 1))); [done|simpl; lia].
Qed.

Lemma queue_rep_pop L q :
  queue_rep L q -> q <> mk_queue false [] -> 0 <= ls_top L -> ls_len L < 2 ^ 64 ->
  queue_rep (set_top (del_elem L (ls_top L)) (wrapu64 (ls_top L + 1)))
    (mk_queue false (if q_hole q then q_elems q else tail (q_elems q))).
Proof using Type.
  intros Hq Hne Ht Hb. destruct q as [[] l]; unfold queue_rep in *; cbn [q_hole q_elems] in *.
  - destruct Hq as [Hn Hq]. pose proof (qo_len _ _ Hq) as Hl. cbn in Hl. rewrite wrapu64_id by (unfold is_uint64; lia).
    unfold del_elem. by rewrite delete_id.
  - destruct l as [|e l]; [done|]. by eapply queue_pop.
Qed.

(** Flushing a queue, its front in place. *)
Lemma queue_rep_flush (brk : E -> bool) L s l :
  st L s -> queue_of L l -> let '(out, kept, b) := flush_split brk l in
  exists L', steps (Flush m (fun l e => mret (l ++ [e], brk e)) []) s out (st L') /\
    queue_rep L' (mk_queue b kept) /\ ls_len L' = ls_len L.
Proof.
  intros Hs Hq. pose proof (Flush_spec (fun l e => (l ++ [e], brk e)) L s l [] Hs Hq) as Hf.
  pose proof (processed_split brk l []) as Hp. destruct (flush_split brk l) as [[out kept] b].
  destruct Hp as (n & Hp & -> & Hn). rewrite Hp in Hf. unfold removed in Hf. cbn [fst snd app] in Hf.
  rewrite <- Hn in Hf. eexists. split; [exact Hf|]. split; [|apply del_range_counters].
  pose proof (queue_flushed L out kept Hq) as Hfl. unfold queue_rep. destruct b; cbn [q_hole q_elems].
  - split; [cbn; rewrite del_range_lookup, decide_True by lia; done|].
    change (queue_of (set_top (del_range L (ls_top L) (length out)) (ls_top L + Z.of_nat n + 1)) kept).
    by replace (ls_top L + Z.of_nat n + 1) with (ls_top L + Z.of_nat (length out)) by lia.
  - by replace n with (length out) by lia.
Qed.

(** Flushing a hole panics, and leaves the queue as it is. *)
Lemma flush_hole (brk : E -> bool) L s l :
  st L s -> queue_rep L (mk_queue true l) ->
  ends (Flush m (fun l e => mret (l ++ [e], brk e)) []) s (Panicked (PanicString "UnmarshalBinary")) (st L).
Proof.
  intros Hs [Hn Hq]. pose proof (qo_len _ _ Hq) as Hl. cbn in Hl. unfold Flush.
  eapply steps_bind_ends; [by apply getTop_spec|]. intros s1 Hs1.
  eapply steps_bind_ends; [by apply Len_spec|]. intros s2 Hs2.
  destruct (Z.to_nat (ls_len L - ls_top L)) as [|n] eqn:En; [lia|]. cbn [flush_loop].
  destruct (Get_spec m _ _ _ Hk L s2 (ls_top L) Hs2 (top_uint64 _ _ Hs2)) as (s3 & Hg & Hs3). rewrite Hn in Hg.
  apply ends_panic. exists s3. split; [|done]. by rewrite (bind_Ok _ _ _ _ _ Hg).
Qed.

Lemma queue_op_spec op L s q :
  st L s -> queue_rep L q -> legal_op op q -> ls_len L < 2 ^ 64 - 1 ->
  exists L', ends (run_queue_op m op) s (spec_queue op q).1 (st L') /\ queue_rep L' (spec_queue op q).2 /\
    ls_len L' <= ls_len L + 1.
Proof.
  intros Hs Hq Hop Hb. pose proof (top_uint64 _ _ Hs) as Ht. pose proof (len_uint64 _ _ Hs) as Hn.
  destruct op as [e| | | |brk]; simpl in Hop |- *.
  - destruct Hop as [bz Hbz]. eexists. destruct q as [hole l].
    split; [|split; [exact (queue_rep_push L (mk_queue hole l) e Hq Hn Hb)|]].
    + eapply steps_bind_ends; [by eapply Push_spec|]. intros s1 Hs1. by exists s1.
    + unfold is_uint64 in Hn. simpl. rewrite wrapu64_id by (unfold is_uint64; lia). lia.
  - unfold is_uint64 in Ht. eexists. destruct q as [hole l].
    split; [|split; [apply (queue_rep_pop L (mk_queue hole l) Hq Hop); lia|simpl; lia]].
    eapply steps_bind_ends; [by apply Pop_spec|]. intros s1 Hs1. by exists s1.
  - exists L. replace (spec_queue QPeek q) with (Ok (RElem (ls_elems L !! ls_top L)), q);
      [split; [|split; [done|lia]]; eapply steps_bind_ends; [by apply Peek_spec|]; intros s1 Hs1; by exists s1|].
    destruct q as [[] l]; simpl; unfold queue_rep in Hq; [by rewrite (proj1 Hq)|]. by rewrite (queue_head _ _ Hq).
  - exists L. replace (spec_queue QIsEmpty q) with (Ok (REmpty (E:=E) (ls_len L <=? ls_top L)), q);
      [split; [|split; [done|lia]]; eapply steps_bind_ends; [by apply IsEmpty_spec|]; intros s1 Hs1; by exists s1|].
    destruct q as [[] l]; unfold queue_rep in Hq; cbn [q_hole q_elems] in Hq.
    + pose proof (qo_len _ _ (proj2 Hq)) as Hl. cbn in Hl. simpl. by rewrite (proj2 (Z.leb_gt _ _)) by lia.
    + pose proof (qo_len _ _ Hq) as Hl. destruct l; simpl in *;
        [rewrite (proj2 (Z.leb_le _ _)) by lia|rewrite (proj2 (Z.leb_gt _ _)) by lia]; done.
  - destruct q as [[] l]; cbn [spec_queue].
    + exists L. split; [|split; [done|lia]]. apply ends_panic. by eapply flush_hole.
    + pose proof (queue_rep_flush brk L s l Hs Hq) as Hf. destruct (flush_split brk l) as [[out kept] b].
      destruct Hf as (L' & Hr & Hq' & Hl'). exists L'. split; [|split; [done|lia]].
      eapply steps_bind_ends; [exact Hr|]. intros s1 Hs1. by exists s1.
Qed.

(** C24: over any lawful store, a queue answers every sequence of its operations
    - at most 2^64 - 1 in all, each element pushed one that can be encoded, and
    none of them a pop of an empty queue - as a list with a possible hole at
    its front does: what was pushed comes out once, in order, and the state
    left is that of the list left.  The hole is what a flush that its callback
    breaks off leaves: the element it broke off at is gone, but its place
    remains, so the queue is not empty, peeking at it is an error, popping it
    removes the place, and flushing it again panics. *)
Theorem queue_refines (ops : list (queue_op E)) (L : lstate E) (s : S) (q : queue E) :
  st L s -> queue_rep L q -> legal ops q -> ls_len L + Z.of_nat (length ops) < 2 ^ 64 ->
  exists L', ends (run_queue m ops) s (spec_queue_run ops q).1 (st L') /\ queue_rep L' (spec_queue_run ops q).2.
Proof.
  revert L s q. induction ops as [|op ops IH]; intros L s q Hs Hq Hop Hb.
  - exists L. split; [by exists s|done].
  - destruct Hop as [Hop Hops]. simpl length in Hb.
    destruct (queue_op_spec op L s q Hs Hq Hop) as (L1 & (s1 & Hr1 & Hs1) & Hq1 & Hl1); [lia|].
    cbn [run_queue spec_queue_run]. destruct (spec_queue op q) as [[r|v] q1]; cbn [fst snd] in *.
    + destruct (IH L1 s1 q1 Hs1 Hq1 Hops) as (L2 & (s2 & Hr2 & Hs2) & Hq2); [lia|].
      destruct (spec_queue_run ops q1) as [rs q2]. cbn [fst snd] in *. exists L2. split; [|done]. exists s2. split; [|done].
      rewrite (bind_Ok _ _ _ _ _ Hr1). unfold mbind, M_bind. rewrite Hr2. by destruct rs.
    + exists L1. split; [|done]. apply ends_panic. by exists s1.
Qed.

Lemma processed_break (f : list E -> E -> list E * bool) l a :
  (processed f l a).2 = true -> ((processed f l a).1.2 < length l)%nat /\
  removed (processed f l a) = Datatypes.S (processed f l a).1.2.
Proof.
  intros Hb. split; [|unfold removed; rewrite Hb; lia].
  revert a Hb. induction l as [|e l IH]; intros a Hb; simpl in *; [done|].
  destruct (f a e) as [a1 []]; [simpl; lia|]. specialize (IH a1).
  destruct (processed f l a1) as [[a' n] b]. simpl in *. specialize (IH Hb). lia.
Qed.

(** a flush that its callback breaks off removes the element it broke off at
    but leaves the front of the queue on it: the queue then says that it is not
    empty, and peeking at it is an error - also when more elements follow. *)
Theorem broken_flush_blocks (p : E -> bool) (L : lstate E) (s : S) (l : list E) :
  st L s -> queue_of L l -> existsb p l = true ->
  steps (Flush m (fun a e => mret (a ++ [e], p e)) [];; b ← IsEmpty m; e ← Peek m; mret (b, e)) s (false, None) (fun _ => True).
Proof.
  intros Hs Hq Hp. set (f := fun (a : list E) e => (a ++ [e], p e)).
  assert (Hb : (processed f l []).2 = true).
  { generalize (@nil E). clear Hs Hq. induction l as [|e l IH]; intros a; simpl in *; [done|].
    destruct (p e) eqn:Ee; [done|]. specialize (IH Hp (a ++ [e])). by destruct (processed f l (a ++ [e])) as [[a' n'] b]. }
  destruct (processed_break f l [] Hb) as [Hn Hr]. pose proof (Flush_spec f L s l [] Hs Hq) as Hf.
  pose proof (top_uint64 _ _ Hs) as Ht. unfold is_uint64 in Ht. pose proof (qo_len _ _ Hq) as Hlen.
  set (n := (processed f l []).1.2) in *. set (L1 := set_top _ _) in Hf.
  destruct (del_range_counters L (ls_top L) (removed (processed f l []))) as [El _].
  eapply steps_bind; [exact Hf|]. intros s1 Hs1. eapply steps_bind; [by apply (IsEmpty_spec L1)|]. intros s2 Hs2.
  rewrite (proj2 (Z.leb_gt _ _)) by (simpl; lia).
  eapply steps_bind; [by apply (Peek_spec L1)|]. intros s3 Hs3.
  replace (ls_elems L1 !! ls_top L1) with (None (A:=E)); [by apply steps_ret|].
  symmetry. unfold L1. simpl. rewrite del_range_lookup, decide_True; [done|]. lia.
Qed.

(** popping an empty queue does not panic: it moves the front past the end,
    and the next element pushed is never seen. *)
Theorem pop_empty_loses (L : lstate E) (s : S) (e : E) :
  st L s -> queue_of L [] -> is_Some (MarshalElem e) -> ls_len L + 1 < 2 ^ 64 ->
  steps (Pop m;; Push m e;; b ← IsEmpty m; x ← Peek m; mret (b, x)) s (true, None) (fun _ => True).
Proof.
  intros Hs [Hl _ Hf] [bz Hbz] Hb. simpl in Hl. pose proof (top_uint64 _ _ Hs) as Ht. unfold is_uint64 in Ht.
  eapply steps_bind; [by apply Pop_spec|]. intros s1 Hs1. eapply steps_bind; [by eapply Push_spec|]. intros s2 Hs2.
  rewrite !wrapu64_id in Hs2 by (unfold is_uint64; simpl; lia).
  eapply steps_bind; [by apply IsEmpty_spec|]. intros s3 Hs3. eapply steps_bind; [by apply Peek_spec|]. intros s4 Hs4.
  simpl. rewrite (proj2 (Z.leb_le _ _)) by lia. rewrite lookup_insert_ne, lookup_delete_ne, Hf by lia. by apply steps_ret.
Qed.

(** ** Iterating *)

Section iterate.
Context {A : Type} (f : A -> E -> Z -> A * bool) (fn : A -> E -> Z -> M S (A * bool)) (L : lstate E).
Hypothesis Hfn : forall a e i s, st L s -> steps (fn a e i) s (f a e i) (st L).

(** The callback over the elements until it breaks. *)
Fixpoint visit (l : list (Z * E)) (a : A) : A :=
  match l with
  | [] => a
  | (i, e) :: l => let '(a, brk) := f a e i in if brk : bool then a else visit l a
  end.

(** At most [n] turns; whether there may be more. *)
Fixpoint visit_turns (n : nat) (l : list (Z * E)) (a : A) : A * bool :=
  match n, l with
  | O, _ => (a, true)
  | _, [] => (a, false)
  | Datatypes.S n, (i, e) :: l => let '(a, brk) := f a e i in if brk : bool then (a, false) else visit_turns n l a
  end.

Lemma visit_turns_all n l a : (length l < n)%nat -> visit_turns n l a = (visit l a, false).
Proof using Type.
  revert l a. induction n as [|n IH]; intros [|[i e] l] a Hn; simpl in *; try lia; try done.
  destruct (f a e i) as [a1 []]; [done|]. apply IH. lia.
Qed.

Lemma visit_turns_plus n k l a :
  visit_turns (n + k) l a = let '(a, more) := visit_turns n l a in if more then visit_turns k (drop n l) a else (a, false).
Proof using Type.
  revert l a. induction n as [|n IH]; intros l a; [by rewrite drop_0|]. destruct l as [|[i e] l]; simpl; [done|].
  destruct (f a e i) as [a1 []]; [done|]. apply IH.
Qed.

(** The entries of the store behind a list of elements. *)
Definition entries_of (es : list (bytes * bytes)) (l : list (Z * E)) : Prop :=
  Forall2 (fun kv ie => is_uint64 ie.1 /\ kv.1 = elemk ++ index_text ie.1 /\ UnmarshalElem kv.2 = Some ie.2) es l.

Lemma index_of_key_spec i s : is_uint64 i -> st L s -> steps (index_of_key (Some (elemk ++ index_text i))) s i (st L).
Proof.
  intros Hi Hs. unfold index_of_key. simpl. rewrite length_app, index_text_length by done.
  rewrite (proj2 (Nat.ltb_ge _ _)) by lia. replace (length elemk + 20 - 20)%nat with (length elemk) by lia.
  rewrite drop_app_length, ParseUint_index by done. by apply steps_ret.
Qed.

Lemma steps_zoom {B I : Type} (p : M S B) s (it : I) b (Q : S -> Prop) (P : S * I -> Prop) :
  steps p s b Q -> (forall s', Q s' -> P (s', it)) -> steps (zoom fst (fun s st => (s, st.2)) p) (s, it) b P.
Proof using Type. intros (s' & Hp & HQ) HP. exists (s', it). split; [|by apply HP]. unfold zoom. simpl. by rewrite Hp. Qed.

Definition at_entries (es : list (bytes * bytes)) : S * Iter -> Prop := fun p => st L p.1 /\ iter_rep true p.2 es.

Lemma at_entries_frame es (s s' : S) (it' : Iter) :
  st L s -> wf s' /\ view s' = view s /\ iter_rep true it' es -> at_entries es (s', it').
Proof. intros Hs (Hw & Hv & Hr). split; [|done]. by apply (lin_frame lenk elemk topk L s). Qed.

Lemma iterate_turn_spec es l a p :
  at_entries es p -> entries_of es l ->
  steps (iterate_turn fn a) p (visit_turns 1 l a)
    (fun p' => st L p'.1 /\ ((visit_turns 1 l a).2 = true -> iter_rep true p'.2 (drop 1 es))).
Proof.
  destruct p as [s it]. intros [Hs Hr] Hes. simpl in Hs, Hr. unfold iterate_turn.
  eapply (steps_bind _ _ _ _ (at_entries es)).
  { eapply steps_mono; [by eapply law_Valid; [apply Hs|]|]. intros [s1 it1] H1. exact (at_entries_frame _ _ _ _ Hs H1). }
  intros [s1 it1] [Hs1 Hr1]. inversion Hes as [|[k v] [i e] es' l' (Hi & Hkey & He) Hes' Ees El]; subst; simpl in *; [|subst k].
  { by apply steps_ret. }
  eapply (steps_bind _ _ _ _ (at_entries ((elemk ++ index_text i, v) :: es'))).
  { eapply steps_mono; [by eapply law_Value; [apply Hs1|]|]. intros [s2 it2] H2. exact (at_entries_frame _ _ _ _ Hs1 H2). }
  intros [s2 it2] [Hs2 Hr2]. eapply (steps_bind _ _ _ _ (at_entries ((elemk ++ index_text i, v) :: es'))).
  { eapply steps_zoom; [by apply (steps_unmarshal _ (Some v) e s2 (st L))|]. by intros s3 Hs3. }
  intros [s3 it3] [Hs3 Hr3]. eapply (steps_bind _ _ _ _ (at_entries ((elemk ++ index_text i, v) :: es'))).
  { eapply steps_mono; [by eapply law_Key; [apply Hs3|]|]. intros [s4 it4] H4. exact (at_entries_frame _ _ _ _ Hs3 H4). }
  intros [s4 it4] [Hs4 Hr4]. eapply (steps_bind _ _ _ _ (at_entries ((elemk ++ index_text i, v) :: es'))).
  { eapply steps_zoom; [by apply index_of_key_spec|]. by intros s5 Hs5. }
  intros [s5 it5] [Hs5 Hr5]. eapply (steps_bind _ _ _ _ (at_entries ((elemk ++ index_text i, v) :: es'))).
  { eapply steps_zoom; [by apply Hfn|]. by intros s6 Hs6. }
  intros [s6 it6] [Hs6 Hr6]. destruct (f a e i) as [a1 []]; [by apply steps_ret|].
  eapply (steps_bind _ _ _ _ (at_entries es')).
  { eapply steps_mono; [by eapply law_Next; [apply Hs6|]|]. intros [s7 it7] H7. exact (at_entries_frame _ _ _ _ Hs6 H7). }
  intros [s7 it7] [Hs7 Hr7]. apply steps_ret. split; [done|]. intros _. by rewrite drop_0.
Qed.

Lemma iterate_turns_spec n : forall es l a p,
  at_entries es p -> entries_of es l ->
  steps (iterate_turns fn n a) p (visit_turns (2 ^ n) l a)
    (fun p' => st L p'.1 /\ ((visit_turns (2 ^ n) l a).2 = true -> iter_rep true p'.2 (drop (2 ^ n) es))).
Proof.
  induction n as [|n IH]; intros es l a p Hp Hes; [by apply iterate_turn_spec|].
  cbn [iterate_turns]. replace (2 ^ Datatypes.S n)%nat with (2 ^ n + 2 ^ n)%nat by (simpl; lia).
  rewrite visit_turns_plus. specialize (IH es l a p Hp Hes) as IH1.
  eapply steps_bind; [exact IH1|]. intros p1 [Hs1 Hr1]. destruct (visit_turns (2 ^ n) l a) as [a1 [|]]; [|by apply steps_ret].
  rewrite <- drop_drop. apply (IH (drop (2 ^ n) es)); [split; [done|by apply Hr1]|]. by apply Forall2_drop.
Qed.

(** The elements in the order of their indices. *)
Definition in_order (l : list (Z * E)) : Prop :=
  StronglySorted (fun p q => p.1 < q.1) l /\ forall i e, (i, e) ∈ l <-> ls_elems L !! i = Some e.
End iterate.

Lemma entries_exist (L : lstate E) (s : S) (es : list (bytes * bytes)) :
  st L s -> keys_sorted true es -> (forall k v, (k, v) ∈ es <-> view s !! k = Some v /\ elemk `prefix_of` k) ->
  exists l, entries_of es l /\ in_order L l.
Proof.
  intros Hs Hsort Hes.
  assert (Hone : Forall (fun kv => exists ie : Z * E, is_uint64 ie.1 /\ kv.1 = elemk ++ index_text ie.1 /\ UnmarshalElem kv.2 = Some ie.2) es).
  { apply Forall_forall. intros [k v] Hin. apply Hes in Hin as [Hv Hp].
    destruct (rp_only _ _ _ _ _ (proj2 Hs) k Hp) as (i & Hi & ->); [by eexists|].
    pose proof (rp_elem _ _ _ _ _ (proj2 Hs) i Hi) as He. rewrite Hv in He.
    destruct (ls_elems L !! i) as [e|] eqn:Ee; [|done]. by exists (i, e). }
  apply Forall_exists_Forall2_l in Hone as [l Hl]. exists l. split; [exact Hl|]. split.
  - clear Hes. revert Hsort. induction Hl as [|[k v] [i e] es l (Hi & Hkey & He) Hl IH]; intros Hsort; [constructor|].
    apply StronglySorted_inv in Hsort as [Hsort Hall]. constructor; [by apply IH|]. simpl in *. subst k.
    apply Forall_forall. intros [j f] Hj. destruct (list_elem_of_lookup_1 _ _ Hj) as [x Hx].
    destruct (Forall2_lookup_r _ _ _ _ _ Hl Hx) as ([k w] & Hkx & Hj' & Hkey & _). simpl in *. subst k.
    pose proof (proj1 (Forall_forall _ _) Hall _ (list_elem_of_lookup_2 _ _ _ Hkx)) as Hlt. simpl in Hlt.
    unfold key_lt, key_compare in Hlt. rewrite bytes_compare_app, index_text_compare in Hlt by done. by apply Z.compare_lt_iff.
  - intros i e. split.
    + intros Hin. apply list_elem_of_lookup_1 in Hin as [x Hx].
      destruct (Forall2_lookup_r _ _ _ _ _ Hl Hx) as ([k v] & Hkx & Hi & Hkey & He). simpl in *. subst k.
      apply list_elem_of_lookup_2, Hes in Hkx as [Hv _]. pose proof (rp_elem _ _ _ _ _ (proj2 Hs) i Hi) as Hst.
      rewrite Hv in Hst. destruct (ls_elems L !! i); simpl in Hst; [congruence|done].
    + intros He. pose proof (rp_index _ _ _ _ _ (proj2 Hs) i e He) as Hi.
      pose proof (rp_elem _ _ _ _ _ (proj2 Hs) i Hi) as Hst. rewrite He in Hst.
      destruct (view s !! (elemk ++ index_text i)) as [bz|] eqn:Ev; [|done]. simpl in Hst.
      assert (Hin : (elemk ++ index_text i, bz) ∈ es) by (apply Hes; split; [done|by eexists]).
      apply list_elem_of_lookup_1 in Hin as [x Hx]. destruct (Forall2_lookup_l _ _ _ _ _ Hl Hx) as ([j f] & Hj & Hju & Hkey & Hf).
      simpl in *. apply app_inv_head, index_text_inj in Hkey as <-; [|done..]. assert (f = e) as <- by congruence.
      by apply list_elem_of_lookup_2 in Hj.
Qed.

(** There are no more than 2^64 of them. *)
Lemma in_order_length (L : lstate E) (s : S) (l : list (Z * E)) :
  st L s -> in_order L l -> Z.of_nat (length l) <= 2 ^ 64.
Proof.
  intros Hs [Hsort Hin].
  assert (Hnd : NoDup l.*1).
  { clear Hin. induction Hsort as [|[i e] l Hsort IH Hall]; [constructor|]. cbn [fmap list_fmap]. constructor; [|done].
    intros Hi. apply list_elem_of_fmap in Hi as ([j f] & Hij & Hj). simpl in *. subst j.
    pose proof (proj1 (Forall_forall _ _) Hall _ Hj). simpl in *. lia. }
  assert (Hsub : l.*1 ⊆+ seqZ 0 (2 ^ 64)).
  { apply NoDup_submseteq; [done|]. intros i Hi. apply list_elem_of_fmap in Hi as ([j e] & -> & Hj). apply Hin in Hj.
    apply (rp_index _ _ _ _ _ (proj2 Hs)) in Hj. apply elem_of_seqZ. simpl. unfold is_uint64 in Hj. lia. }
  apply submseteq_length in Hsub. rewrite length_seqZ, length_fmap in Hsub. lia.
Qed.

(** with the default key of elements, an iteration runs its callback on the
    elements that exist, in the order of their indices, until it breaks - as
    long as the callback keeps to the contract and leaves the list alone. *)
Theorem Iterate_visits {A : Type} (f : A -> E -> Z -> A * bool) (fn : A -> E -> Z -> M S (A * bool))
    (L : lstate E) (s : S) (a : A) :
  elemk = [Byte.x01] -> st L s -> (forall a e i s, st L s -> steps (fn a e i) s (f a e i) (st L)) ->
  exists l, in_order L l /\ steps (Iterate fn a) s (visit f l a) (st L).
Proof.
  intros Eelem Hs Hfn. destruct (KVStorePrefixIterator_spec s elemk (proj1 Hs)) as (it & es & Hsort & Hrep & Hin & Hrun).
  { by rewrite Eelem. }
  destruct (entries_exist L s es Hs Hsort Hin) as (l & Hl & Hord). exists l. split; [done|].
  unfold Iterate. rewrite <- Eelem. eapply steps_bind; [exact Hrun|]. intros s1 Hs1.
  pose proof (lin_frame _ _ _ L s s1 Hs Hs1) as Hst1.
  pose proof (iterate_turns_spec f fn L Hfn 65 es l a (s1, it) (conj Hst1 Hrep) Hl) as Ht.
  pose proof (in_order_length L s l Hs Hord) as Hlen.
  assert (Hlt : (length l < 2 ^ 65)%nat).
  { apply Nat2Z.inj_lt. rewrite Nat2Z.inj_pow. change (Z.of_nat 2) with 2. change (Z.of_nat 65) with 65.
    assert (2 ^ 64 < 2 ^ 65) by (vm_compute; reflexivity). lia. }
  rewrite visit_turns_all in Ht by done.
  destruct (steps_with_iter _ _ _ _ _ Ht) as [it' Ht']. eapply steps_bind; [exact Ht'|]. intros s2 [Hs2 _].
  by apply steps_ret.
Qed.
End queue.

(** With another key the elements are not found at all. *)
Lemma Iterate_other_key {S : Type} `{KVStoreLaws S} {E A : Type} `{LinearCodec E} (fn : A -> E -> Z -> M S (A * bool)) (s : S) (a : A) :
  wf s -> (forall k v, view s !! k = Some v -> ~ [Byte.x01] `prefix_of` k) ->
  steps (Iterate fn a) s a (fun s' => wf s' /\ view s' = view s).
Proof.
  intros Hs Hno. destruct (KVStorePrefixIterator_spec s [Byte.x01] Hs) as (it & es & _ & Hrep & Hin & Hrun); [done|].
  assert (es = []) as ->.
  { destruct es as [|[k v] es]; [done|]. destruct (proj1 (Hin k v)) as [Hv Hp]; [by left|]. by destruct (Hno k v Hv). }
  unfold Iterate. eapply steps_bind; [exact Hrun|]. intros s1 [Hw1 Hv1].
  assert (Ht : forall n, steps (iterate_turns fn n a) (s1, it) (a, false) (fun p => wf p.1 /\ view p.1 = view s1)).
  { induction n as [|n IH].
    - eapply steps_bind; [by eapply law_Valid|]. intros [s2 it2] (Hw2 & Hv2 & _). by apply steps_ret.
    - eapply steps_bind; [exact IH|]. intros p Hp. by apply steps_ret. }
  destruct (steps_with_iter _ _ _ _ _ (Ht 65%nat)) as [it' Ht']. eapply steps_bind; [exact Ht'|]. intros s2 [Hw2 Hv2].
  apply steps_ret. split; [exact Hw2|]. etransitivity; [exact Hv2|exact Hv1].
Qed.
