(* ===== verification/LinearExamples.v ===== *)
(** * Queues and lists in a store: a codec, runs, and the theorems on them *)
From Stdlib Require Import Strings.Byte Strings.String.
From S2P Require Import Prelude Names Wire KVStore Linear LinearOps.
#[local] Open Scope string_scope.
#[local] Open Scope list_scope.
#[local] Open Scope Z_scope.

Definition model_LinearCodec : LinearCodec Z := {|
  MarshalElem e := Some (ser e);
  UnmarshalElem := deser;
  MarshalUint64 z := Some (ser z);
  UnmarshalUint64 := deser;
|}.
#[local] Existing Instance model_LinearCodec.
Lemma model_LinearCodecLaws : LinearCodecLaws Z.
Proof.
  split; simpl.
  - intros e bz [= <-]. apply deser_ser.
  - reflexivity.
  - intros z _. by eexists.
  - intros z bz [= <-]. apply deser_ser.
Qed.
#[local] Existing Instance model_LinearCodecLaws.

Definition ex_linear : Linear := mk_Linear DefaultLinearKeys.
Example NewLinear_default : NewLinear None = Ok ex_linear.
Proof. reflexivity. Qed.
Example NewLinear_nil_key : NewLinear (Some (mk_LinearKeys (Some []) None (Some []))) = Panicked (PanicString "Invalid LinearKeys").
Proof. reflexivity. Qed.

Lemma ex_linear_keys : keys_ok ex_linear [Byte.x00] [Byte.x01] [Byte.x02].
Proof. split; [reflexivity|discriminate|..]; by intros [k [=]]. Qed.

Definition ex_empty : lstate Z := mk_lstate ∅ 0 0.
Abbreviation ex_st := (lin_st (E:=Z) (S:=spec_store) [Byte.x00] [Byte.x01] [Byte.x02]).
Lemma ex_empty_st : ex_st ex_empty ∅.
Proof.
  split; [done|]. split; [done|done| | |].
  - intros i _. simpl. by rewrite !lookup_empty.
  - intros i e. simpl. by rewrite lookup_empty.
  - intros k _ [v Hv]. simpl in Hv. by rewrite lookup_empty in Hv.
Qed.
Lemma ex_empty_queue : queue_of ex_empty [].
Proof. split; [reflexivity|done|]. intros i _. apply lookup_empty. Qed.

Abbreviation ex_run ops := ((run_queue ex_linear ops : M spec_store _) ∅).1.
Abbreviation all := (QFlush (fun _ => false)).
Example queue_runs :
  ex_run [QIsEmpty; QPeek; QPush 5; QPush 6; QPush 7; QPeek; QPop; all; QIsEmpty; QPush 8; QPeek] =
    Ok [REmpty true; RElem None; RDone; RDone; RDone; RElem (Some 5); RDone; RFlushed [6; 7]; REmpty true; RDone; RElem (Some 8)] /\
  ex_run [QPush 5; QPush 6; QPush 7; QFlush (Z.eqb 6); QPeek; QIsEmpty; QPush 8; QPop; QPeek; all] =
    Ok [RDone; RDone; RDone; RFlushed [5; 6]; RElem None; REmpty false; RDone; RDone; RElem (Some 7); RFlushed [7; 8]] /\
  ex_run [QPush 5; QFlush (Z.eqb 5); QIsEmpty; all; QPush 6] = Panicked (PanicString "UnmarshalBinary") /\
  ex_run [QPop; QPush 5; QIsEmpty; QPeek] = Ok [RDone; RDone; REmpty true; RElem None].
Proof. vm_compute. repeat split; reflexivity. Qed.

(** Three elements, the second deleted and the third set: what an iteration
    that breaks at 9 sees. *)
Example list_runs :
  ((Push ex_linear 5;; Push ex_linear 6;; Push ex_linear 7;; Linear_Delete ex_linear 1;; Linear_Set ex_linear 2 8;;
    l ← Iterate (fun l e i => mret (l ++ [(i, e)], e =? 9)) [];
    n ← Len ex_linear; e ← Linear_Get ex_linear 1; mret (l, n, e) : M spec_store _) ∅).1 = Ok ([(0, 5); (2, 8)], 3, None).
Proof. vm_compute. reflexivity. Qed.

(** ** The theorems *)

(** Three elements pushed and one popped, a flush broken off at the first it
    sees, the hole popped, and the rest flushed; or flushed with the hole. *)
Definition ex_ops (last : queue_op Z) : list (queue_op Z) := [QPush 5; QPush 6; QPush 7; QPop; QFlush (Z.eqb 6); QPeek; last; all].
Lemma queue_refines_witness :
  (legal (ex_ops QPop) (mk_queue false []) /\
   exists L', ends (run_queue ex_linear (ex_ops QPop)) (∅ : spec_store)
       (Ok [RDone; RDone; RDone; RDone; RFlushed [6]; RElem None; RDone; RFlushed [7]]) (ex_st L') /\
     queue_rep L' (mk_queue false [])) /\
  exists L', ends (run_queue ex_linear (ex_ops QIsEmpty)) (∅ : spec_store) (Panicked (PanicString "UnmarshalBinary")) (ex_st L') /\
    queue_rep L' (mk_queue true [7]).
Proof.
  assert (Hl : forall last, last = QPop \/ last = QIsEmpty -> legal (ex_ops last) (mk_queue false [])).
  { intros last [ -> | -> ]; repeat split; by eexists || discriminate. }
  split; [split; [apply Hl; by left|]|].
  - exact (queue_refines ex_linear _ _ _ ex_linear_keys (ex_ops QPop) ex_empty ∅ (mk_queue false [])
      ex_empty_st ex_empty_queue (Hl _ (or_introl eq_refl)) eq_refl).
  - exact (queue_refines ex_linear _ _ _ ex_linear_keys (ex_ops QIsEmpty) ex_empty ∅ (mk_queue false [])
      ex_empty_st ex_empty_queue (Hl _ (or_intror eq_refl)) eq_refl).
Defined.

Definition ex_full : lstate Z := set_len (set_elem ex_empty 0 5) 1.
Definition ex_full_s : spec_store := <[[Byte.x00] := ser 1]> (<[[Byte.x01] ++ index_text 0 := ser 5]> ∅).
Lemma ex_full_st : ex_st ex_full ex_full_s.
Proof.
  split; [done|]. unfold ex_full, ex_full_s. eapply (rep_set_len _ _ _ _ ex_linear_keys); [|done|apply deser_ser].
  eapply (rep_set _ _ _ _ ex_linear_keys); [apply ex_empty_st|done|apply deser_ser].
Qed.
Lemma ex_full_queue : queue_of ex_full [5].
Proof.
  split; [reflexivity| |].
  - intros [|j] e; [|done]. intros [= <-]. apply lookup_insert_eq.
  - intros i Hi. simpl in *. rewrite lookup_insert_ne by lia. apply lookup_empty.
Qed.

Lemma broken_flush_blocks_witness :
  steps (Flush ex_linear (fun a e => mret (a ++ [e], e =? 5)) [];; b ← IsEmpty ex_linear; e ← Peek ex_linear; mret (b, e))
    ex_full_s (false, None) (fun _ => True).
Proof.
  exact (broken_flush_blocks ex_linear _ _ _ ex_linear_keys (fun e => e =? 5) ex_full ex_full_s [5]
    ex_full_st ex_full_queue eq_refl).
Defined.

Lemma pop_empty_loses_witness :
  steps (Pop ex_linear;; Push ex_linear 5;; b ← IsEmpty ex_linear; x ← Peek ex_linear; mret (b, x))
    (∅ : spec_store) (true, None) (fun _ => True).
Proof.
  refine (pop_empty_loses ex_linear _ _ _ ex_linear_keys ex_empty ∅ 5 ex_empty_st ex_empty_queue _ _); [by eexists|reflexivity].
Defined.

Lemma Iterate_visits_witness :
  exists l, in_order ex_full l /\
    steps (Iterate (fun a e i => mret (a ++ [(i, e)], false)) []) ex_full_s (visit (fun a e i => (a ++ [(i, e)], false)) l [])
      (ex_st ex_full).
Proof.
  refine (Iterate_visits ex_linear _ _ _ ex_linear_keys (fun a e i => (a ++ [(i, e)], false)) _ ex_full ex_full_s []
    eq_refl ex_full_st _).
  intros a e i s Hs. by apply steps_ret.
Defined.
