(* ===== verification/Keybase.v ===== *)
(** * crypto/keys: the key base

    keybase.go, mintkey.go, types.go and bip39/wordcodec.go, with the Ledger
    keys of crypto/ledger_secp256k1.go and ledger_common.go.  A key base is a
    database of [Info]s under their names, and the Ledger device found so far.
    A local key is stored encrypted: its bytes are sealed with the hash of the
    bcrypt hash of a passphrase and written as an armored text with the salt.

    What an operation is told from outside - random bytes, the device that is
    plugged in, a line of input - is a [World] it is given.  An operation
    returns a result or an error; an exit of the process is a panic. *)
From Stdlib Require Import Strings.Byte Strings.Ascii Strings.String.
From S2P Require Import Prelude Names HD Bcrypt Symmetric KVStore.
#[local] Open Scope string_scope.
#[local] Open Scope list_scope.
#[local] Open Scope Z_scope.
#[local] Open Scope sdk_scope.

(** ** Third-party code *)

(** tepleton/crypto: keys in memory, signatures, armor. *)
Class KeyCrypto := {
  SoftKey : Type;
  PubKey : Type;
  Signature : Type;
  PrivKeySecp256k1 : bytes -> SoftKey;
  SoftKey_Bytes : SoftKey -> bytes;
  PrivKeyFromBytes : bytes -> SoftKey + string;
  SoftKey_PubKey : SoftKey -> PubKey;
  SoftKey_Sign : SoftKey -> bytes -> Signature + string;
  PubKey_VerifyBytes : PubKey -> bytes -> Signature -> bool;
  PubKey_Bytes : PubKey -> bytes;
  PubKey_Equals : PubKey -> PubKey -> bool;
  PubKeyFromBytes : bytes -> PubKey + string;
  Sha256 : bytes -> bytes;
  EncodeArmor : string -> gmap string string -> bytes -> string;
  DecodeArmor : string -> (string * gmap string string * bytes) + string;
}.

(** go-bip39. *)
Class Bip39 := {
  bip39_NewMnemonic : bytes -> string + string;
  bip39_NewSeed : string -> string -> bytes;
  bip39_NewSeedWithErrorChecking : string -> string -> bytes + string;
}.

(** ledger-goclient and btcec; a public key is given and taken as bytes. *)
Class LedgerClient `{KeyCrypto} := {
  Device : Type;
  GetPublicKeySECP256K1 : Device -> list Z -> bytes + string;
  SignSECP256K1 : Device -> list Z -> bytes -> bytes + string;
  ParsePubKey_Compressed : bytes -> option bytes;
  PubKeySecp256k1 : bytes -> PubKey;
  SignatureSecp256k1FromBytes : bytes -> Signature;
}.

(** Keys in memory, and on a Ledger. *)
Inductive PrivKey `{LedgerClient} :=
  | Soft (k : SoftKey)
  | PrivKeyLedgerSecp256k1 (CachedPubKey : PubKey) (Path : list Z).

(** types.go *)
Inductive Info `{KeyCrypto} :=
  | localInfo (Name : string) (PubKey : PubKey) (PrivKeyArmor : string)
  | ledgerInfo (Name : string) (PubKey : PubKey) (Path : list Z)
  | offlineInfo (Name : string) (PubKey : PubKey).

Definition GetType `{KeyCrypto} (i : Info) : string :=
  match i with localInfo _ _ _ => "local" | ledgerInfo _ _ _ => "ledger" | offlineInfo _ _ => "offline" end.
Definition GetName `{KeyCrypto} (i : Info) : string :=
  match i with localInfo n _ _ | ledgerInfo n _ _ | offlineInfo n _ => n end.
Definition GetPubKey `{KeyCrypto} (i : Info) : PubKey :=
  match i with localInfo _ p _ | ledgerInfo _ p _ | offlineInfo _ p => p end.

(** The amino codec of the package, on [Info]s; and what
    MustUnmarshalBinary does when it is given an interface that is nil instead
    of a pointer. *)
Class InfoCodec `{KeyCrypto} := {
  MarshalInfo : Info -> option bytes;
  UnmarshalInfo : slice -> Info + string;
  MustUnmarshal_nil : bytes -> outcome unit;
}.

(** What the outside answers during one operation. *)
Record World `{LedgerClient} := mk_World {
  w_entropy : Z -> bytes + string;   (* go-bip39 NewEntropy, of a number of bits *)
  w_salt : bytes;                    (* CRandBytes(16) *)
  w_nonce : bytes;                   (* the nonce of EncryptSymmetric *)
  w_ledger : Device + string;        (* FindLedger *)
  w_input : string + string;         (* a line of standard input *)
}.
Arguments mk_World {_ _} w_entropy w_salt w_nonce w_ledger w_input.

Record dbKeybase `{LedgerClient} (S : Type) := mk_dbKeybase { kb_db : S; kb_device : option Device }.
Arguments mk_dbKeybase {_ _ S} kb_db kb_device.
Arguments kb_db {_ _ S} d.
Arguments kb_device {_ _ S} d.

(** [x, err := m; if err != nil { return err }] of an operation on a state. *)
Definition tryM {S A B Err} (m : M S (A + Err)) (k : A -> M S (B + Err)) : M S (B + Err) :=
  r ← m;
  match r with inl a => k a | inr e => mret (inr e) end.
Notation "'let!' x := m 'in' k" := (tryM m (fun x => k))
  (at level 10, x binder, m at level 100, k at level 200) : sdk_scope.



(** ** bip39/wordcodec.go *)

Section bip39.
Context `{Bip39}.

Definition FundRaiser : Z := 12.
Definition FundRaiserChecksumSize : Z := 4.
Definition FreshKey : Z := 24.
Definition FreshKeyChecksumSize : Z := 8.

(** The entropy read is of no bits for another length. *)
Definition NewMnemonic (entropy : Z -> bytes + string) (len : Z) : list string + string :=
  let entropySize := if len =? FundRaiser then len * 11 - FundRaiserChecksumSize
                     else if len =? FreshKey then len * 11 - FreshKeyChecksumSize else 0 in
  match entropy entropySize with
  | inr err => inr err
  | inl entropy =>
      match bip39_NewMnemonic entropy with
      | inr err => inr err
      | inl mnemonic => inl (Split " " mnemonic)
      end
  end.

Definition MnemonicToSeed (mne : string) : bytes := bip39_NewSeed mne "".
Definition MnemonicToSeedWithErrChecking (mne : string) : bytes + string := bip39_NewSeedWithErrorChecking mne "".
End bip39.

(** ** mintkey.go *)

Section mintkey.
Context `{KeyCrypto} `{Blowfish} `{Symmetric}.

Definition blockTypePrivKey : string := "TENDERMINT PRIVATE KEY".
Definition blockTypeKeyInfo : string := "TENDERMINT KEY INFO".
Definition blockTypePubKey : string := "TENDERMINT PUBLIC KEY".
Definition BcryptSecurityParameter : Z := 12.

(** Reading a header that may be missing. *)
Definition header (h : gmap string string) (key : string) : string := default "" (h !! key).

Definition armorBytes (bz : bytes) (blockType : string) : string :=
  EncodeArmor blockType (<["type" := "Info"]> {["version" := "0.0.0"]}) bz.
Definition armorInfoBytes (bz : bytes) : string := armorBytes bz blockTypeKeyInfo.
Definition armorPubKeyBytes (bz : bytes) : string := armorBytes bz blockTypePubKey.

Definition unarmorBytes (armorStr blockType : string) : bytes + string :=
  match DecodeArmor armorStr with
  | inr err => inr err
  | inl (bType, h, bz) =>
      if negb (bType =? blockType)%string then inr "Unrecognized armor type"
      else if negb (header h "version" =? "0.0.0")%string then inr "Unrecognized version"
      else inl bz
  end.
Definition unarmorInfoBytes (armorStr : string) : bytes + string := unarmorBytes armorStr blockTypeKeyInfo.
Definition unarmorPubKeyBytes (armorStr : string) : bytes + string := unarmorBytes armorStr blockTypePubKey.

(** The key a passphrase stands for; an error of bcrypt exits the process. *)
Definition passphrase_key (saltBytes : bytes) (passphrase : string) : outcome bytes :=
  r ← GenerateFromPassword saltBytes (string_bytes passphrase) BcryptSecurityParameter;
  match r with
  | inr _ => Panicked (RuntimeError "exit")
  | inl key => Ok (Sha256 key)
  end.

Definition encryptPrivKey (salt nonce : bytes) (privKey : SoftKey) (passphrase : string) : outcome (bytes * bytes) :=
  key ← passphrase_key salt passphrase;
  encBytes ← EncryptSymmetric nonce (SoftKey_Bytes privKey) key;
  Ok (salt, encBytes).

Definition decryptPrivKey (saltBytes encBytes : bytes) (passphrase : string) : outcome (SoftKey + string) :=
  key ← passphrase_key saltBytes passphrase;
  let? privKeyBytes := DecryptSymmetric encBytes key in
  Ok (PrivKeyFromBytes privKeyBytes).

Definition encryptArmorPrivKey (salt nonce : bytes) (privKey : SoftKey) (passphrase : string) : outcome string :=
  '(saltBytes, encBytes) ← encryptPrivKey salt nonce privKey passphrase;
  Ok (EncodeArmor blockTypePrivKey (<["kdf" := "bcrypt"]> {["salt" := hex_Upper saltBytes]}) encBytes).

Definition unarmorDecryptPrivKey (armorStr passphrase : string) : outcome (SoftKey + string) :=
  match DecodeArmor armorStr with
  | inr err => Ok (inr err)
  | inl (blockType, h, encBytes) =>
      if negb (blockType =? blockTypePrivKey)%string then Ok (inr "Unrecognized armor type")
      else if negb (header h "kdf" =? "bcrypt")%string then Ok (inr "Unrecognized KDF type")
      else if (header h "salt" =? "")%string then Ok (inr "Missing salt bytes")
      else match hex_DecodeString (header h "salt") with
           | None => Ok (inr "Error decoding salt")
           | Some saltBytes => decryptPrivKey saltBytes encBytes passphrase
           end
  end.
End mintkey.

Definition infoKey (name : string) : bytes := string_bytes (name ++ ".info")%string.

(** keys.go: an algorithm is a text; a language is a number, of which only the
    first is supported. *)
Definition Secp256k1_algo : string := "secp256k1".
Definition Ed25519_algo : string := "ed25519".
Definition English : Z := 1.

Definition ErrUnsupportedSigningAlgo : string := "unsupported signing algo: only secp256k1 is supported".
Definition ErrUnsupportedLanguage : string := "unsupported language: only english is supported".

Section keybase.
Context `{LC : LedgerClient} `{IC : !InfoCodec} `{SC : Secp256k1} `{BF : Blowfish} `{SY : Symmetric} `{BP : Bip39}.
Context {S : Type} `{KV : KVStore S}.
Implicit Types w : World.

(** The state of an operation: the database and the device found so far. *)
Definition KB (A : Type) : Type := M (dbKeybase S) A.
Definition onDb {A} (m : M S A) : KB A := zoom kb_db (fun db kb => mk_dbKeybase db (kb_device kb)) m.

(** ** crypto/ledger_common.go and ledger_secp256k1.go *)

Definition getLedger (w : World) : KB (Device + string) :=
  kb ← getM;
  match kb_device kb with
  | Some dev => mret (inl dev)
  | None =>
      match w_ledger w with
      | inr err => mret (inr err)
      | inl dev => putM (mk_dbKeybase (kb_db kb) (Some dev));; mret (inl dev)
      end
  end.

(** The error of ParsePubKey is not looked at before its result is used. *)
Definition pubkeyLedgerSecp256k1 (dev : Device) (path : list Z) : outcome (PubKey + string) :=
  match GetPublicKeySECP256K1 dev path with
  | inr err => Ok (inr "error fetching public key")
  | inl key =>
      match ParsePubKey_Compressed key with
      | None => Panicked (RuntimeError "nil pointer dereference")
      | Some cmp => Ok (inl (PubKeySecp256k1 cmp))
      end
  end.

Definition signLedgerSecp256k1 (dev : Device) (path : list Z) (msg : bytes) : Signature + string :=
  match SignSECP256K1 dev path msg with
  | inr err => inr err
  | inl bsig => inl (SignatureSecp256k1FromBytes bsig)
  end.

Definition getPubKey (w : World) (path : list Z) : KB (PubKey + string) :=
  dev ← getLedger w;
  match dev with
  | inr _ => mret (inr "cannot connect to Ledger device")
  | inl dev =>
      key ← liftO (pubkeyLedgerSecp256k1 dev path);
      match key with
      | inr _ => mret (inr "please open Tepleton app on the Ledger device")
      | inl key => mret (inl key)
      end
  end.

Definition NewPrivKeyLedgerSecp256k1 (w : World) (path : list Z) : KB (PrivKey + string) :=
  let! pubKey := getPubKey w path in
  mret (inl (PrivKeyLedgerSecp256k1 pubKey path)).

(** A key of another kind is no Ledger key. *)
Definition ValidateKey (w : World) (CachedPubKey : PubKey) (path : list Z) : KB (unit + string) :=
  let! pub := getPubKey w path in
  mret (if PubKey_Equals pub CachedPubKey then inl tt else inr "cached key does not match retrieved key").

Definition Ledger_Equals (CachedPubKey : PubKey) (other : PrivKey) : bool :=
  match other with Soft _ => false | PrivKeyLedgerSecp256k1 p _ => PubKey_Equals CachedPubKey p end.

Definition PrivKey_PubKey (priv : PrivKey) : PubKey :=
  match priv with Soft k => SoftKey_PubKey k | PrivKeyLedgerSecp256k1 p _ => p end.

Definition PrivKey_Sign (w : World) (priv : PrivKey) (msg : bytes) : KB (Signature + string) :=
  match priv with
  | Soft k => mret (SoftKey_Sign k msg)
  | PrivKeyLedgerSecp256k1 _ path =>
      let! dev := getLedger w in
      mret (signLedgerSecp256k1 dev path msg)
  end.

(** ** keybase.go: writing *)

Definition readInfo (bz : slice) : Info + string := UnmarshalInfo bz.

Definition writeInfo (info : Info) (name : string) : KB unit :=
  bz ← liftO (must (MarshalInfo info) "MustMarshalBinary");
  onDb (Set_ (Some (infoKey name)) (Some bz)).

Definition writeLocalKey (w : World) (priv : SoftKey) (name passphrase : string) : KB Info :=
  privArmor ← liftO (encryptArmorPrivKey (w_salt w) (w_nonce w) priv passphrase);
  let info := localInfo name (SoftKey_PubKey priv) privArmor in
  writeInfo info name;;
  mret info.

Definition writeLedgerKey (pub : PubKey) (path : list Z) (name : string) : KB Info :=
  let info := ledgerInfo name pub path in
  writeInfo info name;;
  mret info.

Definition writeOfflineKey (pub : PubKey) (name : string) : KB Info :=
  let info := offlineInfo name pub in
  writeInfo info name;;
  mret info.

Definition persistDerivedKey (w : World) (seed : bytes) (passwd name fullHdPath : string) : KB (Info + string) :=
  let '(masterPriv, ch) := ComputeMastersFromSeed seed in
  let! derivedPriv := liftO (DerivePrivateKeyForPath masterPriv ch fullHdPath) in
  if negb (passwd =? "")%string then
    info ← writeLocalKey w (PrivKeySecp256k1 derivedPriv) name passwd;
    mret (inl info)
  else
    info ← writeOfflineKey (SoftKey_PubKey (PrivKeySecp256k1 derivedPriv)) name;
    mret (inl info).

(** ** Creating keys *)

Definition CreateMnemonic (w : World) (name : string) (language : Z) (passwd algo : string) : KB ((Info * string) + string) :=
  if negb (language =? English) then mret (inr ErrUnsupportedLanguage)
  else if negb (algo =? Secp256k1_algo)%string then mret (inr ErrUnsupportedSigningAlgo)
  else
    let! mnemonicS := mret (NewMnemonic (w_entropy w) FreshKey) in
    let mnemonic := String.concat " " mnemonicS in
    let seed := MnemonicToSeed mnemonic in
    let! info := persistDerivedKey w seed passwd name FullFundraiserPath in
    mret (inl (info, mnemonic)).

Definition CreateKey (w : World) (name mnemonic passwd : string) : KB (Info + string) :=
  let words := Split " " mnemonic in
  if negb (length words =? 12)%nat && negb (length words =? 24)%nat then
    mret (inr "recovering only works with 12 word (fundraiser) or 24 word mnemonics")
  else
    let! seed := mret (MnemonicToSeedWithErrChecking mnemonic) in
    persistDerivedKey w seed passwd name FullFundraiserPath.

Definition CreateFundraiserKey (w : World) (name mnemonic passwd : string) : KB (Info + string) :=
  let words := Split " " mnemonic in
  if negb (length words =? 12)%nat then mret (inr "recovering only works with 12 word (fundraiser)")
  else
    let! seed := mret (MnemonicToSeedWithErrChecking mnemonic) in
    persistDerivedKey w seed passwd name FullFundraiserPath.

Definition Keybase_Derive (w : World) (name mnemonic passwd : string) (params : BIP44Params) : KB (Info + string) :=
  let! seed := mret (MnemonicToSeedWithErrChecking mnemonic) in
  persistDerivedKey w seed passwd name (BIP44Params_String params).

Definition CreateLedger (w : World) (name : string) (path : list Z) (algo : string) : KB (Info + string) :=
  if negb (algo =? Secp256k1_algo)%string then mret (inr ErrUnsupportedSigningAlgo)
  else
    let! priv := NewPrivKeyLedgerSecp256k1 w path in
    info ← writeLedgerKey (PrivKey_PubKey priv) path name;
    mret (inl info).

Definition CreateOffline (name : string) (pub : PubKey) : KB (Info + string) :=
  info ← writeOfflineKey pub name;
  mret (inl info).

(** ** Reading keys, signing *)

Fixpoint read_infos (entries : list (slice * slice)) (res : list Info) : list Info + string :=
  match entries with
  | [] => inl res
  | (_, v) :: entries =>
      match readInfo v with
      | inr err => inr err
      | inl info => read_infos entries (res ++ [info])
      end
  end.

Definition Keybase_List : KB (list Info + string) :=
  entries ← onDb (read_range true None None);
  mret (read_infos entries []).

Definition Keybase_Get (name : string) : KB (Info + string) :=
  bs ← onDb (Get (Some (infoKey name)));
  mret (readInfo bs).

(** The signature of an offline key would be read from standard input; the
    interface variable it is to be decoded into is nil and stays nil. *)
Definition Sign (w : World) (name passphrase : string) (msg : bytes) : KB ((option Signature * PubKey) + string) :=
  let! info := Keybase_Get name in
  let sign_with (priv : PrivKey) :=
    let! sig := PrivKey_Sign w priv msg in
    mret (inl (Some sig, PrivKey_PubKey priv)) in
  match info with
  | localInfo _ _ PrivKeyArmor =>
      if (PrivKeyArmor =? "")%string then mret (inr "private key not available")
      else
        let! priv := liftO (unarmorDecryptPrivKey PrivKeyArmor passphrase) in
        sign_with (Soft priv)
  | ledgerInfo _ _ Path =>
      let! priv := NewPrivKeyLedgerSecp256k1 w Path in
      sign_with priv
  | offlineInfo _ PubKey =>
      let! signed := mret (w_input w) in
      liftO (MustUnmarshal_nil (string_bytes signed));;
      mret (inl (None, PubKey))
  end.

(** ** Moving keys between key bases *)

Definition Export (name : string) : KB (string + string) :=
  bz ← onDb (Get (Some (infoKey name)));
  match bz with
  | None => mret (inr "no key to export with name")
  | Some bz => mret (inl (armorInfoBytes bz))
  end.

Definition ExportPubKey (name : string) : KB (string + string) :=
  bz ← onDb (Get (Some (infoKey name)));
  match bz with
  | None => mret (inr "no key to export with name")
  | Some _ =>
      match readInfo bz with
      | inr err => mret (inr err)
      | inl info => mret (inl (armorPubKeyBytes (PubKey_Bytes (GetPubKey info))))
      end
  end.

Definition Import (name armor : string) : KB (unit + string) :=
  bz ← onDb (Get (Some (infoKey name)));
  if 0 <? slice_len bz then mret (inr "Cannot overwrite data for name")
  else
    let! infoBytes := mret (unarmorInfoBytes armor) in
    onDb (Set_ (Some (infoKey name)) (Some infoBytes));;
    mret (inl tt).

Definition ImportPubKey (name armor : string) : KB (unit + string) :=
  bz ← onDb (Get (Some (infoKey name)));
  if 0 <? slice_len bz then mret (inr "Cannot overwrite data for name")
  else
    let! pubBytes := mret (unarmorPubKeyBytes armor) in
    let! pubKey := mret (PubKeyFromBytes pubBytes) in
    writeOfflineKey pubKey name;;
    mret (inl tt).

(** ** Deleting a key, changing its passphrase *)

(** A Ledger key's case of the switch is empty. *)
Definition Keybase_Delete (name passphrase : string) : KB (unit + string) :=
  let! info := Keybase_Get name in
  match info with
  | localInfo _ _ PrivKeyArmor =>
      let! _ := liftO (unarmorDecryptPrivKey PrivKeyArmor passphrase) in
      onDb (Delete (Some (infoKey name)));;
      mret (inl tt)
  | ledgerInfo _ _ _ => mret (inl tt)
  | offlineInfo _ _ =>
      if negb (passphrase =? "yes")%string then mret (inr "enter 'yes' exactly to delete the key - this cannot be undone")
      else
        onDb (Delete (Some (infoKey name)));;
        mret (inl tt)
  end.

Definition Update (w : World) (name oldpass newpass : string) : KB (unit + string) :=
  let! info := Keybase_Get name in
  match info with
  | localInfo _ _ PrivKeyArmor =>
      let! key := liftO (unarmorDecryptPrivKey PrivKeyArmor oldpass) in
      writeLocalKey w key name newpass;;
      mret (inl tt)
  | _ => mret (inr "locally stored key required")
  end.
End keybase.
