(* ===== verification/KeybaseOps.v ===== *)
(** * The key base: what its operations promise

    The laws of the third-party code a key base relies on, and the operations
    on any database that meets the laws of a key-value store: what they return
    and what they leave under the names. *)
From Stdlib Require Import Strings.Byte Strings.Ascii Strings.String.
From S2P Require Import Prelude Names HD Bcrypt Symmetric KVStore Keybase.
#[local] Open Scope string_scope.
#[local] Open Scope list_scope.
#[local] Open Scope Z_scope.
#[local] Open Scope sdk_scope.

(** ** Laws *)

(** Texts that survive in the header of an armored text. *)
Definition plain_char (c : ascii) : bool :=
  let n := N_of_ascii c in
  ((48 <=? n) && (n <=? 57) || (65 <=? n) && (n <=? 90) || (97 <=? n) && (n <=? 122) || (n =? 46))%N.
Definition plain_text (s : string) : Prop := s <> "" /\ Forall (fun c => plain_char c = true) (list_ascii_of_string s).
Definition plain_header (h : gmap string string) : Prop := map_Forall (fun k v => plain_text k /\ plain_text v) h.

Class KeyCryptoLaws `{KeyCrypto} : Prop := {
  PrivKey_roundtrip : forall k, PrivKeyFromBytes (SoftKey_Bytes k) = inl k;
  SoftKey_Bytes_nonempty : forall k, SoftKey_Bytes k <> [];
  PubKey_roundtrip : forall p, PubKeyFromBytes (PubKey_Bytes p) = inl p;
  Sha256_length : forall bz, length (Sha256 bz) = 32%nat;
  Armor_roundtrip : forall blockType h bz, Forall plain_text (Split " " blockType) -> plain_header h ->
    EncodeArmor blockType h bz <> "" /\ DecodeArmor (EncodeArmor blockType h bz) = inl (blockType, h, bz);
  Sign_Verify : forall k msg sig, SoftKey_Sign k msg = inl sig -> PubKey_VerifyBytes (SoftKey_PubKey k) msg sig = true;
}.

Class InfoCodecLaws `{InfoCodec} : Prop := {
  Info_roundtrip : forall i, exists bz, MarshalInfo i = Some bz /\ bz <> [] /\ UnmarshalInfo (Some bz) = inl i;
  Info_empty : forall bz, slice_bytes bz = [] -> exists err, UnmarshalInfo bz = inr err;
}.

(** The mnemonic of 256 bits has 24 words, and its checksum is right. *)
Class Bip39Laws `{Bip39} : Prop := {
  Mnemonic_24 : forall entropy, length entropy = 32%nat -> exists m, bip39_NewMnemonic entropy = inl m /\
    length (Split " " m) = 24%nat /\ bip39_NewSeedWithErrorChecking m "" = inl (bip39_NewSeed m "");
}.

(** ** Texts *)


Lemma infoKey_inj a b : infoKey a = infoKey b -> a = b.
Proof.
  unfold infoKey. rewrite !string_bytes_app. intros E%app_inv_tail.
  apply (f_equal string_of_list_byte) in E. unfold string_bytes in E. by rewrite !string_of_list_byte_of_string in E.
Qed.

Lemma plain_char_hex z : 0 <= z < 16 -> plain_char (hex_char z) = true.
Proof.
  intros Hz. assert (Hall : forallb (fun n => plain_char (hex_char (Z.of_nat n))) (seq 0 16) = true) by (vm_compute; reflexivity).
  rewrite forallb_forall in Hall. specialize (Hall (Z.to_nat z)). rewrite Z2Nat.id in Hall by lia. apply Hall, in_seq. lia.
Qed.

Lemma hex_Upper_plain bz : bz <> [] -> plain_text (hex_Upper bz).
Proof.
  intros Hne. split; [by destruct bz|]. clear Hne. induction bz as [|b bz IH]; [constructor|].
  pose proof (byte_range b) as Hb. cbn [hex_Upper list_ascii_of_string].
  pose proof (Z.div_mod (Z.of_N (Byte.to_N b)) 16 ltac:(lia)). pose proof (Z.mod_pos_bound (Z.of_N (Byte.to_N b)) 16 ltac:(lia)).
  repeat (apply List.Forall_cons; [apply plain_char_hex; lia|]). exact IH.
Qed.

Definition plain_textb (s : string) : bool := negb (s =? "")%string && forallb plain_char (list_ascii_of_string s).
Lemma plain_textb_ok s : plain_textb s = true -> plain_text s.
Proof.
  unfold plain_textb, plain_text. rewrite andb_true_iff, negb_true_iff. intros [Hne%String.eqb_neq Ha].
  split; [done|]. apply Forall_forall. intros c Hc. rewrite forallb_forall in Ha. by apply Ha, list_elem_of_In.
Qed.

Lemma armor_type_ok t : forallb plain_textb (Split " " t) = true -> Forall plain_text (Split " " t).
Proof.
  rewrite forallb_forall. intros Ha. apply Forall_forall. intros s Hs. apply plain_textb_ok, Ha. by apply list_elem_of_In.
Qed.

(** ** mintkey.go *)

Section mintkey_laws.
Context `{KCL : KeyCryptoLaws} `{BFL : BlowfishLaws} `{SYL : SymmetricLaws}.

Lemma unarmorInfo_armorInfo bz : unarmorInfoBytes (armorInfoBytes bz) = inl bz.
Proof.
  unfold unarmorInfoBytes, unarmorBytes, armorInfoBytes, armorBytes.
  destruct (Armor_roundtrip blockTypeKeyInfo (<["type" := "Info"]> {["version" := "0.0.0"]}) bz) as [_ ->];
    [by apply armor_type_ok| |done].
  repeat (apply map_Forall_insert_2; [split; by apply plain_textb_ok|]). apply map_Forall_empty.
Qed.

Lemma unarmorPubKey_armorPubKey bz : unarmorPubKeyBytes (armorPubKeyBytes bz) = inl bz.
Proof.
  unfold unarmorPubKeyBytes, unarmorBytes, armorPubKeyBytes, armorBytes.
  destruct (Armor_roundtrip blockTypePubKey (<["type" := "Info"]> {["version" := "0.0.0"]}) bz) as [_ ->];
    [by apply armor_type_ok| |done].
  repeat (apply map_Forall_insert_2; [split; by apply plain_textb_ok|]). apply map_Forall_empty.
Qed.

Lemma passphrase_key_ok salt passphrase :
  length salt = maxSaltSize -> exists key, passphrase_key salt passphrase = Ok key /\ length key = secretLen.
Proof.
  intros Hs. destruct (generated salt (string_bytes passphrase) BcryptSecurityParameter Hs) as (es & h & _ & _ & _ & Hg); [done|].
  unfold passphrase_key. rewrite Hg. eexists. split; [reflexivity|]. apply Sha256_length.
Qed.

Lemma decryptPrivKey_returns salt enc passphrase :
  length salt = maxSaltSize -> is_Ok (decryptPrivKey salt enc passphrase).
Proof.
  intros Hs. destruct (passphrase_key_ok salt passphrase Hs) as (key & Hk & Hl). unfold decryptPrivKey. rewrite Hk.
  destruct (Decrypt_returns enc key Hl) as [[bz|err] Hd]; simpl; rewrite Hd; by eexists.
Qed.

(** The armor of an encrypted key: its passphrase opens it, and for any other
    passphrase it is opened or refused without a panic. *)
Lemma encryptArmorPrivKey_ok salt nonce priv passphrase :
  length salt = maxSaltSize -> length nonce = nonceLen ->
  exists armor, encryptArmorPrivKey salt nonce priv passphrase = Ok armor /\ armor <> "" /\
    unarmorDecryptPrivKey armor passphrase = Ok (inl priv) /\
    forall other, is_Ok (unarmorDecryptPrivKey armor other).
Proof.
  intros Hs Hn. destruct (passphrase_key_ok salt passphrase Hs) as (key & Hk & Hl).
  destruct (Encrypt_returns nonce (SoftKey_Bytes priv) key Hn Hl) as [enc He].
  unfold encryptArmorPrivKey, encryptPrivKey. rewrite Hk. simpl. rewrite He. simpl.
  set (h := <["kdf" := "bcrypt"]> {["salt" := hex_Upper salt]}).
  assert (Hsalt : salt <> []) by (intros ->; discriminate Hs).
  destruct (Armor_roundtrip blockTypePrivKey h enc) as [Hne Ha]; [by apply armor_type_ok| |].
  { repeat (apply map_Forall_insert_2; [split; [by apply plain_textb_ok|]|]); [by apply plain_textb_ok|by apply hex_Upper_plain|].
    apply map_Forall_empty. }
  eexists. split; [done|]. split; [done|].
  assert (Hopen : forall other, unarmorDecryptPrivKey (EncodeArmor blockTypePrivKey h enc) other = decryptPrivKey salt enc other).
  { intros other. unfold unarmorDecryptPrivKey. rewrite Ha. change (header h "kdf") with "bcrypt".
    change (header h "salt") with (hex_Upper salt). simpl. rewrite (proj2 (String.eqb_neq _ _)) by apply hex_Upper_plain, Hsalt.
    by rewrite hex_Decode_Upper. }
  split; [|intros other; rewrite Hopen; by apply decryptPrivKey_returns].
  rewrite Hopen. unfold decryptPrivKey. rewrite Hk. simpl. rewrite (Decrypt_Encrypt nonce (SoftKey_Bytes priv) key enc) by (done || apply SoftKey_Bytes_nonempty).
  simpl. by rewrite PrivKey_roundtrip.
Qed.
End mintkey_laws.

(** ** Sequences with errors *)

Section tryM.
Context {S : Type}.

Lemma steps_try {A B Err} (m : M S (A + Err)) (k : A -> M S (B + Err)) s a P b Q :
  steps m s (inl a) P -> (forall s', P s' -> steps (k a) s' b Q) -> steps (tryM m k) s b Q.
Proof. intros Hm Hk. unfold tryM. eapply steps_bind; [exact Hm|]. exact Hk. Qed.

Lemma steps_try_error {A B Err} (m : M S (A + Err)) (k : A -> M S (B + Err)) s err (P : S -> Prop) :
  steps m s (inr err) P -> steps (tryM m k) s (inr err) P.
Proof. intros Hm. unfold tryM. eapply steps_bind; [exact Hm|]. intros s' Hs. by apply steps_ret. Qed.

Lemma steps_lift_Ok {A} (o : outcome A) a s (P : S -> Prop) : o = Ok a -> P s -> steps (liftO o) s a P.
Proof. intros -> HP. by exists s. Qed.

Lemma steps_at {A} (m : M S A) s a s' : m s = (Ok a, s') -> steps m s a (fun t => t = s').
Proof. intros Hm. by exists s'. Qed.
End tryM.

(** ** The database of a key base *)

Section keybase.
Context `{LC : LedgerClient} `{IC : !InfoCodec} `{SC : Secp256k1} `{BF : Blowfish} `{SY : Symmetric} `{BP : Bip39}.
Context {S : Type} `{KV : KVStoreLaws S}.
Implicit Types kb : dbKeybase S.

Definition keys_of kb : gmap bytes bytes := view (kb_db kb).
Definition kb_wf kb : Prop := wf (kb_db kb).

(** What is left: the entries, in a state that is still well formed. *)
Definition leaves (m : gmap bytes bytes) kb' : Prop := kb_wf kb' /\ keys_of kb' = m.

Lemma steps_onDb {A} (m : M S A) kb a (P : S -> Prop) :
  steps m (kb_db kb) a P -> steps (onDb m) kb a (fun kb' => P (kb_db kb')).
Proof. intros (s' & Hm & HP). exists (mk_dbKeybase s' (kb_device kb)). split; [|done]. unfold onDb. by erewrite zoom_eq. Qed.

Lemma Get_bytes_spec kb name :
  kb_wf kb -> steps (onDb (Get (Some (infoKey name)))) kb (keys_of kb !! infoKey name) (leaves (keys_of kb)).
Proof. intros Hw. apply (steps_onDb _ kb _ (fun s => wf s /\ view s = keys_of kb)). by apply law_Get. Qed.

Lemma Keybase_Get_spec kb name :
  kb_wf kb -> steps (Keybase_Get name) kb (readInfo (keys_of kb !! infoKey name)) (leaves (keys_of kb)).
Proof.
  intros Hw. unfold Keybase_Get. eapply steps_bind; [by apply Get_bytes_spec|]. intros kb' Hkb. by apply steps_ret.
Qed.

Lemma Set_bytes_spec kb name bz :
  kb_wf kb -> steps (onDb (Set_ (Some (infoKey name)) (Some bz))) kb tt (leaves (<[infoKey name := bz]> (keys_of kb))).
Proof. intros Hw. apply (steps_onDb _ kb _ (fun s => wf s /\ view s = <[infoKey name := bz]> (keys_of kb))). by apply law_Set. Qed.

Lemma Delete_bytes_spec kb name :
  kb_wf kb -> steps (onDb (Delete (Some (infoKey name)))) kb tt (leaves (delete (infoKey name) (keys_of kb))).
Proof. intros Hw. apply (steps_onDb _ kb _ (fun s => wf s /\ view s = delete (infoKey name) (keys_of kb))). by apply law_Delete. Qed.

(** A database in which a name stands for some information. *)
Definition holds_info (m : gmap bytes bytes) (name : string) (i : Info) : Prop :=
  exists bz, m !! infoKey name = Some bz /\ UnmarshalInfo (Some bz) = inl i.

Definition same_elsewhere (name : string) (m m' : gmap bytes bytes) : Prop := forall k, k <> infoKey name -> m' !! k = m !! k.

(** The database with some information written under a name. *)
Definition now_holds (name : string) (i : Info) (m : gmap bytes bytes) kb' : Prop :=
  kb_wf kb' /\ holds_info (keys_of kb') name i /\ same_elsewhere name m (keys_of kb').

Context `{ICL : !InfoCodecLaws} `{KCL : !KeyCryptoLaws} `{BFL : !BlowfishLaws} `{SYL : !SymmetricLaws}.

Lemma writeInfo_spec kb i name : kb_wf kb -> steps (writeInfo i name) kb tt (now_holds name i (keys_of kb)).
Proof.
  intros Hw. destruct (Info_roundtrip i) as (bz & Hm & Hne & Hu). unfold writeInfo. rewrite Hm.
  eapply (steps_bind _ _ _ bz (fun kb' => kb' = kb)); [by apply steps_lift_Ok|]. intros _ ->.
  eapply steps_mono; [by apply Set_bytes_spec|]. intros kb' [Hw' Hk]. split; [done|]. rewrite Hk. split.
  - exists bz. by rewrite lookup_insert_eq.
  - intros k Hne'. by rewrite lookup_insert_ne.
Qed.

Lemma writeOfflineKey_spec kb pub name :
  kb_wf kb -> steps (writeOfflineKey pub name) kb (offlineInfo name pub) (now_holds name (offlineInfo name pub) (keys_of kb)).
Proof. intros Hw. unfold writeOfflineKey. eapply steps_bind; [by apply writeInfo_spec|]. intros. by apply steps_ret. Qed.

Lemma writeLocalKey_spec kb (w : World) priv name passphrase :
  kb_wf kb -> length (w_salt w) = maxSaltSize -> length (w_nonce w) = nonceLen ->
  exists armor, armor <> "" /\ unarmorDecryptPrivKey armor passphrase = Ok (inl priv) /\
    (forall other, is_Ok (unarmorDecryptPrivKey armor other)) /\
    steps (writeLocalKey w priv name passphrase) kb (localInfo name (SoftKey_PubKey priv) armor)
      (now_holds name (localInfo name (SoftKey_PubKey priv) armor) (keys_of kb)).
Proof.
  intros Hw Hs Hn. destruct (encryptArmorPrivKey_ok (w_salt w) (w_nonce w) priv passphrase Hs Hn) as (armor & He & Hne & Ho & Hr).
  exists armor. split; [done|]. split; [done|]. split; [done|]. unfold writeLocalKey.
  eapply (steps_bind _ _ _ armor (fun kb' => kb' = kb)); [by apply steps_lift_Ok|]. intros _ ->.
  eapply steps_bind; [by apply writeInfo_spec|]. intros. by apply steps_ret.
Qed.

(** ** Signing *)

(** What signing comes to once the key has been decrypted, or not. *)
Definition sign_result (priv : SoftKey + string) (msg : bytes) : (option Signature * PubKey) + string :=
  match priv with
  | inr err => inr err
  | inl priv =>
      match SoftKey_Sign priv msg with
      | inr err => inr err
      | inl sig => inl (Some sig, SoftKey_PubKey priv)
      end
  end.

Lemma Get_holds kb name i :
  kb_wf kb -> holds_info (keys_of kb) name i -> steps (Keybase_Get name) kb (inl i) (leaves (keys_of kb)).
Proof. intros Hw (bz & Hk & Hu). pose proof (Keybase_Get_spec kb name Hw) as Hg. unfold readInfo in Hg. by rewrite Hk, Hu in Hg. Qed.

Lemma Sign_local kb (w : World) name passphrase msg n p armor r :
  kb_wf kb -> holds_info (keys_of kb) name (localInfo n p armor) -> armor <> "" ->
  unarmorDecryptPrivKey armor passphrase = Ok r ->
  steps (Sign w name passphrase msg) kb (sign_result r msg) (leaves (keys_of kb)).
Proof.
  intros Hw Hi Hne Hr. unfold Sign. eapply steps_try; [by apply Get_holds|]. intros kb1 Hkb1. cbv beta zeta iota.
  rewrite (proj2 (String.eqb_neq _ _) Hne). destruct r as [priv|err].
  - eapply (steps_try _ _ _ priv (leaves (keys_of kb))); [by apply steps_lift_Ok|]. intros kb2 Hkb2.
    cbn [PrivKey_Sign PrivKey_PubKey sign_result]. destruct (SoftKey_Sign priv msg) as [sig|err].
    + eapply (steps_try _ _ _ sig (leaves (keys_of kb))); [by apply steps_ret|]. intros kb3 Hkb3. by apply steps_ret.
    + apply steps_try_error. by apply steps_ret.
  - apply steps_try_error. by apply steps_lift_Ok.
Qed.

(** A name signs with a key in memory when it is given the passphrase. *)
Definition signs_with kb (name passphrase : string) (priv : SoftKey) : Prop :=
  forall (w : World) msg, steps (Sign w name passphrase msg) kb (sign_result (inl priv) msg) (leaves (keys_of kb)).

Lemma now_holds_signs kb kb' name passphrase priv armor :
  now_holds name (localInfo name (SoftKey_PubKey priv) armor) (keys_of kb) kb' -> armor <> "" ->
  unarmorDecryptPrivKey armor passphrase = Ok (inl priv) -> signs_with kb' name passphrase priv.
Proof. intros (Hw & Hi & _) Hne Ho w msg. by eapply Sign_local. Qed.

(** whatever an offline key is asked to sign, and whatever is entered, no
    signature comes back: the call returns none, an error, or panics. *)
Theorem Sign_offline_no_signature kb (w : World) name passphrase msg n p sig pub kb' :
  kb_wf kb -> holds_info (keys_of kb) name (offlineInfo n p) ->
  Sign w name passphrase msg kb = (Ok (inl (sig, pub)), kb') -> sig = None.
Proof.
  intros Hw Hi. destruct (Get_holds kb name _ Hw Hi) as (kb1 & Hg & _).
  unfold Sign, tryM at 1. rewrite (bind_Ok _ _ _ _ _ Hg). cbv beta iota zeta. intros Hrun.
  unfold tryM in Hrun. inv_bind Hrun. destruct r as [line|err].
  - inv_bind Hrun. by injection Hrun as <- <- <-.
  - discriminate Hrun.
Qed.

(** ** Creating keys *)

Context `{SCL : !Secp256k1Laws} `{BPL : !Bip39Laws}.

Definition world_ok (w : World) : Prop := length (w_salt w) = maxSaltSize /\ length (w_nonce w) = nonceLen.





End keybase.

(** * The key base: changing, deleting and moving keys

    A change of passphrase, deletion, the way of a key from one key base to
    another, the list of all keys, and what every operation leaves alone. *)

Section keybase.
Context `{LC : LedgerClient} `{IC : !InfoCodec} `{SC : Secp256k1} `{BF : Blowfish} `{SY : Symmetric} `{BP : Bip39}.
Context {S : Type} `{KV : KVStoreLaws S}.
Context `{ICL : !InfoCodecLaws} `{KCL : !KeyCryptoLaws} `{BFL : !BlowfishLaws} `{SYL : !SymmetricLaws}.
Implicit Types kb : dbKeybase S.

(** ** Update *)

(** C27: changing the passphrase of a local key with the right one succeeds; from
    then on the new passphrase signs with the same private key, and any other
    one, of which the stored text is not the encryption, is refused, for signing
    and for deleting; no other name is touched. *)
Theorem Update_changes_passphrase kb (w : World) name oldpass newpass n p armor priv :
  kb_wf kb -> world_ok w -> holds_info (keys_of kb) name (localInfo n p armor) ->
  unarmorDecryptPrivKey armor oldpass = Ok (inl priv) ->
  exists armor' kb', Update w name oldpass newpass kb = (Ok (inl tt), kb') /\
    now_holds name (localInfo name (SoftKey_PubKey priv) armor') (keys_of kb) kb' /\
    signs_with kb' name newpass priv /\
    forall other err, unarmorDecryptPrivKey armor' other = Ok (inr err) ->
      (forall (w' : World) msg, (Sign w' name other msg kb').1 = Ok (inr err)) /\
      (Keybase_Delete name other kb').1 = Ok (inr err).
Proof.
  intros Hw [Hs Hn] Hi Ho. assert (Hupd : exists armor', armor' <> "" /\ unarmorDecryptPrivKey armor' newpass = Ok (inl priv) /\
    steps (Update w name oldpass newpass) kb (inl tt) (now_holds name (localInfo name (SoftKey_PubKey priv) armor') (keys_of kb))).
  { unfold Update. destruct (Get_holds kb name _ Hw Hi) as (kb1 & Hg & Hw1 & Hk1).
    destruct (writeLocalKey_spec kb1 w priv name newpass Hw1 Hs Hn) as (armor' & Hne & Hnew & _ & Hwr).
    exists armor'. split; [done|]. split; [done|].
    eapply steps_try; [exact (steps_at _ _ _ _ Hg)|]. intros _ ->. cbv beta iota.
    eapply (steps_try _ _ _ priv (fun s => s = kb1)); [apply steps_lift_Ok; [exact Ho|reflexivity]|]. intros _ ->.
    eapply steps_bind; [lazymatch goal with |- steps (writeLocalKey _ _ _ newpass) _ _ _ => exact Hwr end|].
    intros kb' Hkb'. rewrite Hk1 in Hkb'. by apply steps_ret. }
  destruct Hupd as (armor' & Hne & Hnew & kb' & Hrun & Hkb'). exists armor', kb'. split; [done|]. split; [done|].
  split; [by eapply now_holds_signs|]. intros other err Herr. destruct Hkb' as (Hw' & Hi' & _). split.
  - intros w' msg. destruct (Sign_local kb' w' name other msg _ _ _ _ Hw' Hi' Hne Herr) as (kb2 & -> & _). done.
  - assert (Hd : steps (Keybase_Delete name other) kb' (inr err) (leaves (keys_of kb'))).
    { unfold Keybase_Delete. eapply steps_try; [by apply Get_holds|]. intros kb2 Hkb2. cbv beta iota.
      apply steps_try_error. apply steps_lift_Ok; [exact Herr|exact Hkb2]. }
    destruct Hd as (kb2 & -> & _). done.
Qed.

(** ** Delete *)

(** The result of deleting, and whether the name is removed. *)
Definition delete_result (i : Info) (passphrase : string) : outcome ((unit + string) * bool) :=
  match i with
  | localInfo _ _ armor =>
      r ← unarmorDecryptPrivKey armor passphrase;
      Ok (match r with inl _ => (inl tt, true) | inr err => (inr err, false) end)
  | ledgerInfo _ _ _ => Ok (inl tt, false)
  | offlineInfo _ _ =>
      Ok (if decide (passphrase = "yes") then (inl tt, true)
          else (inr "enter 'yes' exactly to delete the key - this cannot be undone", false))
  end.

(** deleting removes exactly the name it is given, and only when a local key's
    passphrase opens it or an offline key is deleted with 'yes'; otherwise the
    entries stay and an error is returned - except for a Ledger key, which is
    never removed although no error is returned. *)
Theorem Delete_effect kb name passphrase i r removed :
  kb_wf kb -> holds_info (keys_of kb) name i -> delete_result i passphrase = Ok (r, removed) ->
  exists kb', Keybase_Delete name passphrase kb = (Ok r, kb') /\ kb_wf kb' /\
    keys_of kb' = if removed then delete (infoKey name) (keys_of kb) else keys_of kb.
Proof.
  intros Hw Hi Hr. unfold Keybase_Delete.
  change (steps (Keybase_Delete name passphrase) kb r (leaves (if removed then delete (infoKey name) (keys_of kb) else keys_of kb))).
  destruct (Get_holds kb name _ Hw Hi) as (kb1 & Hg & Hw1 & Hk1). rewrite <- Hk1. unfold Keybase_Delete.
  assert (Hget : steps (Keybase_Get name) kb (inl i) (fun s => s = kb1)) by exact (steps_at _ _ _ _ Hg).
  assert (Hdel : steps (onDb (Delete (Some (infoKey name)));; mret (inl tt)) kb1 (inl tt : unit + string)
    (leaves (delete (infoKey name) (keys_of kb1)))).
  { eapply steps_bind; [by apply Delete_bytes_spec|]. intros kb2 Hkb2. by apply steps_ret. }
  eapply steps_try; [exact Hget|]. intros _ ->. destruct i as [n p armor|n p path|n p]; cbv beta iota.
  - simpl in Hr. destruct (unarmorDecryptPrivKey armor passphrase) as [[priv|err]|] eqn:Hu; simplify_eq/=.
    + eapply (steps_try _ _ _ priv (fun s => s = kb1)); [by apply steps_lift_Ok|]. by intros _ ->.
    + apply steps_try_error. apply steps_lift_Ok; [reflexivity|]. by split.
  - simplify_eq/=. by apply steps_ret.
  - simpl in Hr. destruct (String.eqb_spec passphrase "yes") as [->|Hne].
    + by injection Hr as <- <-.
    + rewrite decide_False in Hr by done. injection Hr as <- <-. by apply steps_ret.
Qed.

(** ** Export and Import *)

Lemma Import_spec kb name armor bz :
  kb_wf kb -> unarmorInfoBytes armor = inl bz -> slice_bytes (keys_of kb !! infoKey name) = [] ->
  steps (Import name armor) kb (inl tt) (leaves (<[infoKey name := bz]> (keys_of kb))).
Proof.
  intros Hw Ha Hfree. unfold Import. destruct (Get_bytes_spec kb name Hw) as (kb1 & Hg & Hw1 & Hk1).
  eapply steps_bind; [exact (steps_at _ _ _ _ Hg)|]. intros _ ->. cbv beta.
  assert (Hl : (0 <? slice_len (keys_of kb !! infoKey name)) = false) by (by destruct (keys_of kb !! infoKey name) as [[|]|]).
  rewrite Hl. eapply (steps_try _ _ _ bz (fun s => s = kb1)); [rewrite Ha; by apply steps_ret|]. intros _ ->.
  eapply steps_bind; [by apply Set_bytes_spec|]. intros kb2 Hkb2. rewrite Hk1 in Hkb2. by apply steps_ret.
Qed.

Lemma Import_taken kb name armor :
  kb_wf kb -> slice_bytes (keys_of kb !! infoKey name) <> [] ->
  steps (Import name armor) kb (inr "Cannot overwrite data for name") (leaves (keys_of kb)).
Proof.
  intros Hw Htaken. unfold Import. eapply steps_bind; [by apply Get_bytes_spec|]. intros kb1 Hkb1. cbv beta.
  assert (Hl : (0 <? slice_len (keys_of kb !! infoKey name)) = true) by (by destruct (keys_of kb !! infoKey name) as [[|]|]).
  rewrite Hl. by apply steps_ret.
Qed.

(** the text exported for a key puts the same key into another key base, under
    any name that is not taken there: it reads back as the same information; a
    name that is taken is refused and keeps its key. *)
Theorem Export_Import kb1 kb2 name name2 i :
  kb_wf kb1 -> kb_wf kb2 -> holds_info (keys_of kb1) name i ->
  exists armor kb1', Export name kb1 = (Ok (inl armor), kb1') /\ leaves (keys_of kb1) kb1' /\
    if decide (slice_bytes (keys_of kb2 !! infoKey name2) = []) then
      exists kb2', Import name2 armor kb2 = (Ok (inl tt), kb2') /\ now_holds name2 i (keys_of kb2) kb2'
    else exists kb2', Import name2 armor kb2 = (Ok (inr "Cannot overwrite data for name"), kb2') /\ leaves (keys_of kb2) kb2'.
Proof.
  intros Hw1 Hw2 (bz & Hk & Hu). exists (armorInfoBytes bz).
  assert (He : steps (Export name) kb1 (inl (armorInfoBytes bz)) (leaves (keys_of kb1))).
  { unfold Export. eapply steps_bind; [by apply Get_bytes_spec|]. intros kb' Hkb'. rewrite Hk. by apply steps_ret. }
  destruct He as (kb1' & He & Hkb1'). exists kb1'. split; [done|]. split; [done|].
  destruct (decide _) as [Hfree|Htaken]; [|by apply Import_taken].
  destruct (Import_spec kb2 name2 _ _ Hw2 (unarmorInfo_armorInfo bz) Hfree) as (kb2' & Hi & Hw' & Hk').
  exists kb2'. split; [done|]. split; [done|]. rewrite Hk'. split.
  - exists bz. by rewrite lookup_insert_eq.
  - intros k Hne. by rewrite lookup_insert_ne.
Qed.

(** the public key exported for a name, imported, is an offline key with the
    same public key. *)
Lemma ExportPubKey_ImportPubKey kb1 kb2 name name2 i :
  kb_wf kb1 -> kb_wf kb2 -> holds_info (keys_of kb1) name i -> slice_bytes (keys_of kb2 !! infoKey name2) = [] ->
  exists armor, steps (ExportPubKey name) kb1 (inl armor) (leaves (keys_of kb1)) /\
    steps (ImportPubKey name2 armor) kb2 (inl tt) (now_holds name2 (offlineInfo name2 (GetPubKey i)) (keys_of kb2)).
Proof.
  intros Hw1 Hw2 (bz & Hk & Hu) Hfree. exists (armorPubKeyBytes (PubKey_Bytes (GetPubKey i))). split.
  - unfold ExportPubKey. eapply steps_bind; [by apply Get_bytes_spec|]. intros kb' Hkb'. rewrite Hk. unfold readInfo. rewrite Hu.
    by apply steps_ret.
  - unfold ImportPubKey. destruct (Get_bytes_spec kb2 name2 Hw2) as (kb' & Hg & Hw' & Hk').
    eapply steps_bind; [exact (steps_at _ _ _ _ Hg)|]. intros _ ->. cbv beta.
    assert (Hl : (0 <? slice_len (keys_of kb2 !! infoKey name2)) = false) by (by destruct (keys_of kb2 !! infoKey name2) as [[|]|]).
    rewrite Hl. eapply (steps_try _ _ _ _ (fun s => s = kb')); [rewrite unarmorPubKey_armorPubKey; by apply steps_ret|]. intros _ ->.
    eapply (steps_try _ _ _ _ (fun s => s = kb')); [rewrite PubKey_roundtrip; by apply steps_ret|]. intros _ ->.
    eapply steps_bind; [by apply writeOfflineKey_spec|]. intros kb2' Hkb2'. rewrite Hk' in Hkb2'. by apply steps_ret.
Qed.

(** ** List *)

Lemma read_infos_app entries res :
  read_infos entries res = match read_infos entries [] with inl l => inl (res ++ l) | inr err => inr err end.
Proof.
  revert res. induction entries as [|[k v] entries IH]; intros res; simpl; [by rewrite app_nil_r|].
  destruct (readInfo v) as [i|err]; [|done]. rewrite IH, (IH [i]). destruct (read_infos entries []); [|done]. by rewrite <- app_assoc.
Qed.

Lemma read_infos_Forall2 (l : list (bytes * bytes)) infos :
  Forall2 (fun e i => UnmarshalInfo (Some e.2) = inl i) l infos -> read_infos (slices l) [] = inl infos.
Proof.
  induction 1 as [|[k bz] i l infos Hi _ IH]; [done|]. simpl in *. unfold readInfo. rewrite Hi, read_infos_app.
  fold (slices l). by rewrite IH.
Qed.

(** the list holds what every name stands for, each once, in the order of the
    keys the names are stored under. *)
Lemma List_spec kb :
  kb_wf kb -> (length (range true None None (keys_of kb)) < 2 ^ 63)%nat ->
  (forall k bz, keys_of kb !! k = Some bz -> exists i, UnmarshalInfo (Some bz) = inl i) ->
  exists infos, Forall2 (fun e i => UnmarshalInfo (Some e.2) = inl i) (range true None None (keys_of kb)) infos /\
    steps Keybase_List kb (inl infos) (leaves (keys_of kb)).
Proof.
  intros Hw Hsmall Hall.
  assert (Hf : Forall (fun e => exists i, UnmarshalInfo (Some e.2) = inl i) (range true None None (keys_of kb))).
  { apply Forall_forall. intros [k bz] Hin. apply (range_spec true None None (keys_of kb)) in Hin as [Hk _]. by eapply Hall. }
  apply Forall_exists_Forall2_l in Hf as [infos Hinfos]. exists infos. split; [done|]. unfold Keybase_List.
  destruct (read_range_spec true None None (kb_db kb) Hw) as (s' & Hw' & Hv' & Hr); [done|done|]. fold (keys_of kb) in Hr.
  rewrite decide_False in Hr by lia.
  eapply (steps_bind _ _ _ (slices (range true None None (keys_of kb))) (leaves (keys_of kb))).
  - apply (steps_onDb _ kb _ (fun s => wf s /\ view s = keys_of kb)). by exists s'.
  - intros kb' Hkb'. rewrite (read_infos_Forall2 _ _ Hinfos). by apply steps_ret.
Qed.

(** ** What an operation leaves alone *)

(** It only reads. *)
Definition quiet {A} (m : KB A) : Prop :=
  forall kb r kb', kb_wf kb -> m kb = (r, kb') -> leaves (keys_of kb) kb'.

(** It writes under one name, and only if it gets to the end. *)
Definition last_write {A} (name : string) (m : KB A) : Prop :=
  forall kb r kb', kb_wf kb -> m kb = (r, kb') ->
    kb_wf kb' /\ same_elsewhere name (keys_of kb) (keys_of kb') /\ (~ is_Ok r -> keys_of kb' = keys_of kb).

(** It writes under one name, and only if it returns no error. *)
Definition atomic {A Err} (name : string) (m : KB (A + Err)) : Prop :=
  forall kb r kb', kb_wf kb -> m kb = (r, kb') ->
    kb_wf kb' /\ same_elsewhere name (keys_of kb) (keys_of kb') /\ ((forall a, r <> Ok (inl a)) -> keys_of kb' = keys_of kb).

Lemma quiet_steps {A} (m : KB A) : (forall kb, kb_wf kb -> exists a, steps m kb a (leaves (keys_of kb))) -> quiet m.
Proof. intros Hm kb r kb' Hw Hrun. destruct (Hm kb Hw) as (a & kb2 & Hrun2 & Hl). rewrite Hrun in Hrun2. by injection Hrun2 as _ ->. Qed.

Lemma quiet_ret {A} (a : A) : quiet (mret a).
Proof. intros kb r kb' Hw [= _ <-]. by split. Qed.

Lemma quiet_lift {A} (o : outcome A) : quiet (liftO o).
Proof. intros kb r kb' Hw [= _ <-]. by split. Qed.

Lemma quiet_bind {A B} (m : KB A) (k : A -> KB B) : quiet m -> (forall a, quiet (k a)) -> quiet (m ≫= k).
Proof.
  intros Hm Hk kb r kb' Hw. unfold mbind, M_bind. destruct (m kb) as [[a|p] kb1] eqn:Em; destruct (Hm kb _ _ Hw Em) as [Hw1 Hk1].
  - intros Hr. destruct (Hk a kb1 r kb' Hw1 Hr) as [Hw' Hk']. split; [done|congruence].
  - intros [= _ <-]. by split.
Qed.

Lemma quiet_try {A B Err} (m : KB (A + Err)) (k : A -> KB (B + Err)) : quiet m -> (forall a, quiet (k a)) -> quiet (tryM m k).
Proof. intros Hm Hk. apply quiet_bind; [done|]. intros [a|e]; [apply Hk|apply quiet_ret]. Qed.

Lemma quiet_Get name : quiet (Keybase_Get name).
Proof. apply quiet_steps. intros kb Hw. eexists. by apply Keybase_Get_spec. Qed.

Lemma quiet_Get_bytes name : quiet (onDb (Get (Some (infoKey name)))).
Proof. apply quiet_steps. intros kb Hw. eexists. by apply Get_bytes_spec. Qed.

Lemma quiet_getLedger (w : World) : quiet (getLedger w).
Proof.
  intros kb r kb' Hw. unfold getLedger, mbind, M_bind. simpl. destruct (kb_device kb); [by intros [= _ <-]|].
  destruct (w_ledger w); intros [= _ <-]; by split.
Qed.

Lemma quiet_NewPrivKeyLedger (w : World) path : quiet (NewPrivKeyLedgerSecp256k1 w path).
Proof.
  apply quiet_try; [|intros; apply quiet_ret]. apply quiet_bind; [apply quiet_getLedger|]. intros [dev|err]; [|apply quiet_ret].
  apply quiet_bind; [apply quiet_lift|]. intros [key|err]; apply quiet_ret.
Qed.

Lemma last_write_writeInfo i name : last_write name (writeInfo i name).
Proof.
  intros kb r kb' Hw Hrun. destruct (writeInfo_spec kb i name Hw) as (kb2 & Hrun2 & Hw2 & _ & Hs).
  rewrite Hrun in Hrun2. injection Hrun2 as -> ->. split; [done|]. split; [done|]. intros Hn. destruct Hn. by eexists.
Qed.

Lemma last_write_Set name bz : last_write name (onDb (Set_ (Some (infoKey name)) (Some bz))).
Proof.
  intros kb r kb' Hw Hrun. destruct (Set_bytes_spec kb name bz Hw) as (kb2 & Hrun2 & Hw2 & Hk).
  rewrite Hrun in Hrun2. injection Hrun2 as -> ->. split; [done|]. split; [|intros Hn; destruct Hn; by eexists].
  intros k Hne. rewrite Hk. by rewrite lookup_insert_ne.
Qed.

Lemma last_write_Delete name : last_write name (onDb (Delete (Some (infoKey name)))).
Proof.
  intros kb r kb' Hw Hrun. destruct (Delete_bytes_spec kb name Hw) as (kb2 & Hrun2 & Hw2 & Hk).
  rewrite Hrun in Hrun2. injection Hrun2 as -> ->. split; [done|]. split; [|intros Hn; destruct Hn; by eexists].
  intros k Hne. rewrite Hk. by rewrite lookup_delete_ne.
Qed.

Lemma last_write_then {A B} name (m : KB A) (f : A -> B) : last_write name m -> last_write name (a ← m; mret (f a)).
Proof.
  intros Hm kb r kb' Hw. unfold mbind, M_bind. destruct (m kb) as [[a|p] kb1] eqn:Em; destruct (Hm kb _ _ Hw Em) as (Hw1 & Hs & Hu).
  - intros [= <- <-]. split; [done|]. split; [done|]. intros Hn. destruct Hn. by eexists.
  - intros [= <- <-]. split; [done|]. split; [done|]. intros _. apply Hu. by intros [? [=]].
Qed.

Lemma last_write_after {A B} name (m : KB A) (k : A -> KB B) : quiet m -> (forall a, last_write name (k a)) -> last_write name (m ≫= k).
Proof.
  intros Hm Hk kb r kb' Hw. unfold mbind, M_bind. destruct (m kb) as [[a|p] kb1] eqn:Em; destruct (Hm kb _ _ Hw Em) as [Hw1 Hk1].
  - intros Hr. rewrite <- Hk1. by apply (Hk a).
  - intros [= <- <-]. rewrite Hk1. repeat split; done.
Qed.

Lemma atomic_quiet {A Err} name (m : KB (A + Err)) : quiet m -> atomic name m.
Proof. intros Hm kb r kb' Hw Hrun. destruct (Hm kb _ _ Hw Hrun) as [Hw' ->]. repeat split; done. Qed.

Lemma atomic_write {A B Err} name (m : KB A) (f : A -> B) : last_write name m -> atomic name (a ← m; mret (inl (f a) : B + Err)).
Proof.
  intros Hm kb r kb' Hw Hrun. destruct (last_write_then name m (fun a => inl (f a) : B + Err) Hm kb r kb' Hw Hrun) as (Hw' & Hs & Hu).
  split; [done|]. split; [done|]. intros Hn. revert Hrun. unfold mbind, M_bind. destruct (m kb) as [[a|p] kb1].
  - intros [= <- _]. by destruct (Hn (f a)).
  - intros [= <- <-]. apply Hu. by intros [? [=]].
Qed.

Lemma atomic_bind {A B Err} name (m : KB A) (k : A -> KB (B + Err)) : quiet m -> (forall a, atomic name (k a)) -> atomic name (m ≫= k).
Proof.
  intros Hm Hk kb r kb' Hw. unfold mbind, M_bind. destruct (m kb) as [[a|p] kb1] eqn:Em; destruct (Hm kb _ _ Hw Em) as [Hw1 Hk1].
  - intros Hr. rewrite <- Hk1. by apply (Hk a).
  - intros [= <- <-]. rewrite Hk1. repeat split; done.
Qed.

Lemma atomic_try {A B Err} name (m : KB (A + Err)) (k : A -> KB (B + Err)) :
  quiet m -> (forall a, atomic name (k a)) -> atomic name (tryM m k).
Proof. intros Hm Hk. apply atomic_bind; [done|]. intros [a|e]; [apply Hk|apply atomic_quiet, quiet_ret]. Qed.

Lemma atomic_try_last {A B Err} name (m : KB (A + Err)) (f : A -> B) : atomic name m -> atomic name (tryM m (fun a => mret (inl (f a)))).
Proof.
  intros Hm kb r kb' Hw. unfold tryM, mbind, M_bind. destruct (m kb) as [[[a|e]|p] kb1] eqn:Em; destruct (Hm kb _ _ Hw Em) as (Hw1 & Hs & Hu).
  - intros [= <- <-]. split; [done|]. split; [done|]. intros Hn. by destruct (Hn (f a)).
  - intros [= <- <-]. split; [done|]. split; [done|]. intros _. by apply Hu.
  - intros [= <- <-]. split; [done|]. split; [done|]. intros _. by apply Hu.
Qed.

(** ** The operations of the interface *)

Inductive key_op :=
  | OpCreateMnemonic (w : World) (name : string) (language : Z) (passwd algo : string)
  | OpCreateKey (w : World) (name mnemonic passwd : string)
  | OpCreateFundraiserKey (w : World) (name mnemonic passwd : string)
  | OpDerive (w : World) (name mnemonic passwd : string) (params : BIP44Params)
  | OpCreateLedger (w : World) (name : string) (path : list Z) (algo : string)
  | OpCreateOffline (name : string) (pub : PubKey)
  | OpSign (w : World) (name passphrase : string) (msg : bytes)
  | OpExport (name : string)
  | OpExportPubKey (name : string)
  | OpImport (name armor : string)
  | OpImportPubKey (name armor : string)
  | OpKeyDelete (name passphrase : string)
  | OpUpdate (w : World) (name oldpass newpass : string).

Definition op_name (op : key_op) : string :=
  match op with
  | OpCreateMnemonic _ n _ _ _ | OpCreateKey _ n _ _ | OpCreateFundraiserKey _ n _ _ | OpDerive _ n _ _ _ | OpCreateLedger _ n _ _
  | OpCreateOffline n _ | OpSign _ n _ _ | OpExport n | OpExportPubKey n | OpImport n _ | OpImportPubKey n _ | OpKeyDelete n _
  | OpUpdate _ n _ _ => n
  end.

(** An operation, its result forgotten. *)
Definition done_ {A} (m : M (dbKeybase S) (A + string)) : M (dbKeybase S) (unit + string) := let! _ := m in mret (inl tt).
Definition run_key_op (op : key_op) : M (dbKeybase S) (unit + string) :=
  match op with
  | OpCreateMnemonic w n l p a => done_ (CreateMnemonic w n l p a)
  | OpCreateKey w n m p => done_ (CreateKey w n m p)
  | OpCreateFundraiserKey w n m p => done_ (CreateFundraiserKey w n m p)
  | OpDerive w n m p params => done_ (Keybase_Derive w n m p params)
  | OpCreateLedger w n p a => done_ (CreateLedger w n p a)
  | OpCreateOffline n pub => done_ (CreateOffline n pub)
  | OpSign w n p msg => done_ (Sign w n p msg)
  | OpExport n => done_ (Export n)
  | OpExportPubKey n => done_ (ExportPubKey n)
  | OpImport n a => Import n a
  | OpImportPubKey n a => ImportPubKey n a
  | OpKeyDelete n p => Keybase_Delete n p
  | OpUpdate w n o p => Update w n o p
  end.

Lemma atomic_done {A} name (m : KB (A + string)) : atomic name m -> atomic name (done_ m).
Proof. apply (atomic_try_last name m (fun _ => tt)). Qed.

Lemma atomic_persist (w : World) seed passwd name path : atomic name (persistDerivedKey w seed passwd name path).
Proof.
  unfold persistDerivedKey. destruct (ComputeMastersFromSeed seed) as [master ch].
  apply atomic_try; [apply quiet_lift|]. intros key. destruct (negb _).
  - apply (atomic_write name _ id). unfold writeLocalKey. apply last_write_after; [apply quiet_lift|]. intros armor.
    apply (last_write_then name _ (fun _ => _)), last_write_writeInfo.
  - apply (atomic_write name _ id). apply (last_write_then name _ (fun _ => _)), last_write_writeInfo.
Qed.

Lemma atomic_error {A Err} name (err : Err) : atomic name (mret (inr err) : KB (A + Err)).
Proof. apply atomic_quiet, quiet_ret. Qed.

Lemma atomic_from_seed (w : World) (seed : bytes + string) passwd name path :
  atomic name (let! seed := mret seed in persistDerivedKey w seed passwd name path).
Proof. apply atomic_try; [apply quiet_ret|]. intros s. apply atomic_persist. Qed.

Lemma quiet_PrivKey_Sign (w : World) (priv : PrivKey) msg : quiet (PrivKey_Sign w priv msg).
Proof. destruct priv; [apply quiet_ret|]. apply quiet_try; [apply quiet_getLedger|]. intros. apply quiet_ret. Qed.

Lemma quiet_Sign (w : World) name passphrase msg : quiet (Sign w name passphrase msg).
Proof.
  assert (Hwith : forall priv, quiet (let! sig := PrivKey_Sign w priv msg in mret (inl (Some sig, PrivKey_PubKey priv) : _ + string))).
  { intros priv. apply quiet_try; [apply quiet_PrivKey_Sign|]. intros. apply quiet_ret. }
  apply quiet_try; [apply quiet_Get|]. intros [n p armor|n p path|n p]; cbv beta iota zeta.
  - destruct (armor =? "")%string; [apply quiet_ret|]. apply quiet_try; [apply quiet_lift|]. intros priv. apply Hwith.
  - apply quiet_try; [apply quiet_NewPrivKeyLedger|]. intros priv. apply Hwith.
  - apply quiet_try; [apply quiet_ret|]. intros line. apply quiet_bind; [apply quiet_lift|]. intros. apply quiet_ret.
Qed.

Lemma key_op_atomic op : atomic (op_name op) (run_key_op op).
Proof.
  destruct op; cbn [run_key_op op_name]; try apply atomic_done.
  - unfold CreateMnemonic. destruct (negb _); [apply atomic_error|]. destruct (negb _); [apply atomic_error|].
    apply atomic_try; [apply quiet_ret|]. intros words. cbv zeta.
    apply (atomic_try_last name _ (fun i => (i, String.concat " " words))), atomic_persist.
  - unfold CreateKey. cbv zeta. destruct (_ && _); [apply atomic_error|]. apply atomic_from_seed.
  - unfold CreateFundraiserKey. cbv zeta. destruct (negb _); [apply atomic_error|]. apply atomic_from_seed.
  - apply atomic_from_seed.
  - unfold CreateLedger. destruct (negb _); [apply atomic_error|]. apply atomic_try; [apply quiet_NewPrivKeyLedger|]. intros priv.
    apply (atomic_write name _ id). apply (last_write_then name _ (fun _ => _)), last_write_writeInfo.
  - apply (atomic_write name _ id). apply (last_write_then name _ (fun _ => _)), last_write_writeInfo.
  - apply atomic_quiet, quiet_Sign.
  - apply atomic_quiet, quiet_bind; [apply quiet_Get_bytes|]. intros [bz|]; apply quiet_ret.
  - apply atomic_quiet, quiet_bind; [apply quiet_Get_bytes|]. intros [bz|]; [|apply quiet_ret]. destruct (readInfo _); apply quiet_ret.
  - apply atomic_bind; [apply quiet_Get_bytes|]. intros bz. destruct (0 <? slice_len bz); [apply atomic_error|].
    apply atomic_try; [apply quiet_ret|]. intros info. apply (atomic_write name _ (fun _ => tt)), last_write_Set.
  - apply atomic_bind; [apply quiet_Get_bytes|]. intros bz. destruct (0 <? slice_len bz); [apply atomic_error|].
    do 2 (apply atomic_try; [apply quiet_ret|]; intros ?).
    apply (atomic_write name _ (fun _ => tt)), (last_write_then name _ (fun _ => _)), last_write_writeInfo.
  - apply atomic_try; [apply quiet_Get|]. intros [n p armor|n p path|n p].
    + apply atomic_try; [apply quiet_lift|]. intros _. apply (atomic_write name _ (fun _ => tt)), last_write_Delete.
    + apply atomic_quiet, quiet_ret.
    + destruct (negb _); [apply atomic_error|]. apply (atomic_write name _ (fun _ => tt)), last_write_Delete.
  - apply atomic_try; [apply quiet_Get|]. intros [n p armor|n p path|n p]; [|apply atomic_error..].
    apply atomic_try; [apply quiet_lift|]. intros priv. apply (atomic_write name _ (fun _ => tt)). unfold writeLocalKey.
    apply last_write_after; [apply quiet_lift|]. intros a. apply (last_write_then name _ (fun _ => _)), last_write_writeInfo.
Qed.

(** C25: every operation of a key base, however it ends, touches the key of the name
    it is given and no other; when it ends with an error or a panic all keys are
    as they were. *)
Theorem operations_atomic op kb r kb' :
  kb_wf kb -> run_key_op op kb = (r, kb') ->
  kb_wf kb' /\ (forall name, name <> op_name op -> keys_of kb' !! infoKey name = keys_of kb !! infoKey name) /\
  (r <> Ok (inl tt) -> keys_of kb' = keys_of kb).
Proof.
  intros Hw Hrun. destruct (key_op_atomic op kb r kb' Hw Hrun) as (Hw' & Hs & Hu). split; [done|]. split.
  - intros name Hne. apply Hs. by intros E%infoKey_inj.
  - intros Hr. apply Hu. by intros [].
Qed.
End keybase.
