(* ===== verification/KeybaseExamples.v ===== *)
(** * The key base: parameters that satisfy the laws, witnesses and runs

    Keys are bytes, texts and records are written out as binary digits. *)
From Stdlib Require Import Strings.Byte Strings.Ascii Strings.String.
From stdpp Require Import countable.
From S2P Require Import Prelude Names HD Bcrypt Symmetric KVStore Keybase KeybaseOps.
#[local] Open Scope string_scope.
#[local] Open Scope list_scope.
#[local] Open Scope Z_scope.
#[local] Open Scope sdk_scope.

(** ** Parameters *)

Fixpoint pos_string (p : positive) : string :=
  match p with xH => "1" | xO p => String "0" (pos_string p) | xI p => String "I" (pos_string p) end.
Fixpoint string_pos (s : string) : option positive :=
  match s with
  | EmptyString => None
  | String c s =>
      if Ascii.eqb c "1" then Some xH
      else p ← string_pos s; Some (if Ascii.eqb c "0" then xO p else xI p)
  end.
Lemma string_pos_string p : string_pos (pos_string p) = Some p.
Proof. induction p as [p IH|p IH|]; simpl; rewrite ?IH; done. Qed.
Lemma pos_string_nonempty p : pos_string p <> "".
Proof. by destruct p. Qed.
Lemma pos_string_without p : without " " (pos_string p).
Proof. unfold without. induction p; simpl; rewrite ?elem_of_cons; intros [?|?]; [done|by apply IHp|done|by apply IHp|done|by apply not_elem_of_nil in H]. Qed.

Definition text_of {A} `{Countable A} (a : A) : string := pos_string (encode a).
Definition of_text {A} `{Countable A} (s : string) : option A := p ← string_pos s; decode p.
Lemma of_text_of {A} `{Countable A} (a : A) : of_text (text_of a) = Some a.
Proof. unfold of_text, text_of. rewrite string_pos_string. apply decode_encode. Qed.

#[local] Instance model_KeyCrypto : KeyCrypto := {|
  SoftKey := bytes;
  PubKey := bytes;
  Signature := bytes;
  PrivKeySecp256k1 key := key;
  SoftKey_Bytes k := Byte.x01 :: k;
  PrivKeyFromBytes bz := match bz with Byte.x01 :: k => inl k | _ => inr "bad key" end;
  SoftKey_PubKey k := Byte.x02 :: k;
  SoftKey_Sign k msg := inl (k ++ msg);
  PubKey_VerifyBytes p msg sig := bool_decide (Byte.x02 :: sig = p ++ msg);
  PubKey_Bytes p := Byte.x03 :: p;
  PubKey_Equals p q := bool_decide (p = q);
  PubKeyFromBytes bz := match bz with Byte.x03 :: p => inl p | _ => inr "bad key" end;
  Sha256 bz := be_bytes 32 (7 * be_value bz + 5);
  EncodeArmor t h bz := text_of (t, h, bz);
  DecodeArmor s := match of_text s with Some x => inl x | None => inr "EOF" end;
|}.
Lemma model_KeyCryptoLaws : KeyCryptoLaws.
Proof.
  split; cbn -[text_of of_text be_bytes]; try done.
  - intros t h bz _ _. split; [apply pos_string_nonempty|]. by rewrite (of_text_of (t, h, bz)).
  - intros k msg sig [= <-]. by apply bool_decide_eq_true_2.
Qed.
#[local] Existing Instance model_KeyCryptoLaws.

Definition info_tuple (i : Info) : (string * bytes * string + string * bytes * list Z) + string * bytes :=
  match i with
  | localInfo n p a => inl (inl (n, p, a))
  | ledgerInfo n p path => inl (inr (n, p, path))
  | offlineInfo n p => inr (n, p)
  end.
Definition tuple_info (t : (string * bytes * string + string * bytes * list Z) + string * bytes) : Info :=
  match t with
  | inl (inl (n, p, a)) => localInfo n p a
  | inl (inr (n, p, path)) => ledgerInfo n p path
  | inr (n, p) => offlineInfo n p
  end.
Definition info_bytes (i : Info) : bytes := string_bytes (text_of (info_tuple i)).
Definition bytes_info (bz : bytes) : option Info := t ← of_text (string_of_list_byte bz); Some (tuple_info t).
Lemma bytes_info_bytes i : bytes_info (info_bytes i) = Some i.
Proof. unfold bytes_info, info_bytes, string_bytes. rewrite string_of_list_byte_of_string, of_text_of. by destruct i. Qed.

#[local] Instance model_InfoCodec : InfoCodec := {|
  MarshalInfo i := Some (info_bytes i);
  UnmarshalInfo bz := match bytes_info (slice_bytes bz) with Some i => inl i | None => inr "cannot decode" end;
  MustUnmarshal_nil _ := Panicked (PanicString "Unmarshal expects a pointer");
|}.
Lemma model_InfoCodecLaws : InfoCodecLaws.
Proof.
  split.
  - intros i. exists (info_bytes i). split; [done|]. split.
    + unfold info_bytes, text_of. by destruct (encode (info_tuple i)).
    + cbn [UnmarshalInfo model_InfoCodec slice_bytes]. by rewrite bytes_info_bytes.
  - intros bz Hbz. exists "cannot decode". cbn [UnmarshalInfo model_InfoCodec]. by rewrite Hbz.
Qed.
#[local] Existing Instance model_InfoCodecLaws.

#[local] Instance model_LedgerClient : LedgerClient := {|
  Device := unit;
  GetPublicKeySECP256K1 _ path := inl (Byte.x04 :: be_bytes 2 (foldr Z.add 0 path));
  SignSECP256K1 _ path msg := inl msg;
  ParsePubKey_Compressed bz := Some bz;
  PubKeySecp256k1 bz := bz;
  SignatureSecp256k1FromBytes bz := bz;
|}.

Definition more_words : string := " a b c d e f g h i j k l m n o p q r s t u v w".
#[local] Instance model_Bip39 : Bip39 := {|
  bip39_NewMnemonic entropy := inl (text_of entropy ++ more_words)%string;
  bip39_NewSeed m _ := string_bytes m;
  bip39_NewSeedWithErrorChecking m _ := inl (string_bytes m);
|}.
Lemma model_Bip39Laws : Bip39Laws.
Proof.
  split. intros e _. eexists. split; [done|]. split; [|done]. unfold more_words.
  rewrite Split_app by apply pos_string_without. reflexivity.
Qed.
#[local] Existing Instance model_Bip39Laws.
#[local] Existing Instances model_Secp256k1 model_Secp256k1Laws model_Blowfish model_BlowfishLaws model_Secretbox model_SecretboxLaws.

(** ** A key base with a local, a Ledger and an offline key *)

Definition ex_entropy : bytes := be_bytes 32 1.
Definition ex_world : World := mk_World (fun bits => if bits =? 256 then inl ex_entropy else inr "entropy") ex_salt (be_bytes 24 9) (inl tt) (inl "00").
Definition ex_priv : bytes := [Byte.x2a; Byte.x2b].
Definition ex_armor : string :=
  match encryptArmorPrivKey (w_salt ex_world) (w_nonce ex_world) ex_priv "old" with Ok a => a | Panicked _ => "" end.
Lemma ex_armor_opens :
  (ex_armor =? "")%string = false /\
  unarmorDecryptPrivKey ex_armor "old" = Ok (inl ex_priv) /\
  unarmorDecryptPrivKey ex_armor "new" = Ok (inr "Ciphertext decryption failed").
Proof. vm_compute. repeat split. Qed.

Definition ex_local : Info := localInfo "a" (SoftKey_PubKey ex_priv) ex_armor.
Definition ex_offline : Info := offlineInfo "o" [Byte.x05].
Definition ex_ledger : Info := ledgerInfo "l" [Byte.x06] [44; 118].
Definition ex_keys (name : string) (i : Info) : dbKeybase spec_store := mk_dbKeybase {[infoKey name := info_bytes i]} None.
Lemma ex_holds name i : holds_info (keys_of (ex_keys name i)) name i.
Proof.
  exists (info_bytes i). split; [apply lookup_singleton_eq|]. cbn [UnmarshalInfo model_InfoCodec slice_bytes]. by rewrite bytes_info_bytes.
Qed.
Lemma ex_wf name i : kb_wf (ex_keys name i).
Proof. exact I. Qed.
Lemma kb_world_ok : world_ok ex_world.
Proof. split; reflexivity. Qed.

(** ** Runs: a key is made, found, signs, and is deleted *)

(** Normalising the goal would normalise the parameters of its types. *)
Ltac by_vm := repeat split; match goal with |- @eq ?T _ ?y => vm_cast_no_check (@eq_refl T y) end.

Definition result_of {A} (o : outcome A * dbKeybase spec_store) : outcome A := o.1.
Definition empty_keys : dbKeybase spec_store := mk_dbKeybase ∅ None.

Example offline_run :
  result_of ((CreateOffline "o" [Byte.x05];; Keybase_Get "o") empty_keys) = Ok (inl ex_offline) /\
  result_of ((CreateOffline "o" [Byte.x05];; Sign ex_world "o" "" [Byte.x00]) empty_keys) = Panicked (PanicString "Unmarshal expects a pointer") /\
  result_of ((CreateOffline "o" [Byte.x05];; Keybase_Delete "o" "no") empty_keys)
    = Ok (inr "enter 'yes' exactly to delete the key - this cannot be undone") /\
  result_of ((CreateOffline "o" [Byte.x05];; Keybase_Delete "o" "yes";; Keybase_Get "o") empty_keys) = Ok (inr "cannot decode") /\
  result_of ((CreateOffline "b" [];; CreateOffline "a" [];; Keybase_List) empty_keys) = Ok (inl [offlineInfo "a" []; offlineInfo "b" []]).
Proof. by_vm. Qed.

(** A Ledger key is still there after it has been deleted; a name is taken over
    without an error. *)
Example ledger_run :
  result_of ((CreateLedger ex_world "l" [44; 118] "secp256k1";; Keybase_Delete "l" "yes";; Keybase_Get "l") empty_keys)
    = Ok (inl (ledgerInfo "l" [Byte.x04; Byte.x00; Byte.xa2] [44; 118])) /\
  result_of ((CreateLedger ex_world "l" [44; 118] "secp256k1";; Sign ex_world "l" "" [Byte.x07]) empty_keys)
    = Ok (inl (Some [Byte.x07], [Byte.x04; Byte.x00; Byte.xa2])) /\
  result_of (CreateLedger ex_world "l" [44; 118] "ed25519" empty_keys) = Ok (inr ErrUnsupportedSigningAlgo).
Proof. by_vm. Qed.

Example ledger_validation :
  result_of (ValidateKey ex_world [Byte.x04; Byte.x00; Byte.xa2] [44; 118] empty_keys) = Ok (inl tt) /\
  result_of (ValidateKey ex_world [Byte.x05] [44; 118] empty_keys) = Ok (inr "cached key does not match retrieved key").
Proof. by_vm. Qed.

Example taken_name :
  result_of ((CreateOffline "o" [Byte.x05];; CreateOffline "o" [Byte.x06];; Keybase_Get "o") empty_keys) = Ok (inl (offlineInfo "o" [Byte.x06])) /\
  result_of ((CreateOffline "o" [Byte.x05];; ImportPubKey "o" "") empty_keys) = Ok (inr "Cannot overwrite data for name").
Proof. by_vm. Qed.

(** ** Witnesses *)

Lemma empty_wf : kb_wf empty_keys.
Proof. exact I. Qed.

Lemma Update_changes_passphrase_witness :
  exists armor' kb', Update ex_world "a" "old" "new" (ex_keys "a" ex_local) = (Ok (inl tt), kb') /\
    now_holds "a" (localInfo "a" (SoftKey_PubKey ex_priv) armor') (keys_of (ex_keys "a" ex_local)) kb' /\ signs_with kb' "a" "new" ex_priv.
Proof.
  destruct (Update_changes_passphrase (ex_keys "a" ex_local) ex_world "a" "old" "new" "a" _ ex_armor ex_priv
    (ex_wf "a" ex_local) kb_world_ok (ex_holds "a" ex_local) (proj1 (proj2 ex_armor_opens))) as (armor' & kb' & H1 & H2 & H3 & _).
  exists armor', kb'. exact (conj H1 (conj H2 H3)).
Defined.

Lemma Delete_effect_witness :
  exists kb', Keybase_Delete "l" "yes" (ex_keys "l" ex_ledger) = (Ok (inl tt), kb') /\ kb_wf kb' /\
    keys_of kb' = keys_of (ex_keys "l" ex_ledger).
Proof. exact (Delete_effect (ex_keys "l" ex_ledger) "l" "yes" ex_ledger (inl tt) false (ex_wf "l" ex_ledger) (ex_holds "l" ex_ledger) eq_refl). Defined.

Lemma Export_Import_witness :
  exists armor kb1', Export "o" (ex_keys "o" ex_offline) = (Ok (inl armor), kb1') /\
    exists kb2', Import "p" armor empty_keys = (Ok (inl tt), kb2') /\ now_holds "p" ex_offline (keys_of empty_keys) kb2'.
Proof.
  destruct (Export_Import (ex_keys "o" ex_offline) empty_keys "o" "p" ex_offline (ex_wf "o" ex_offline) empty_wf (ex_holds "o" ex_offline))
    as (armor & kb1' & He & _ & Hi).
  exists armor, kb1'. split; [exact He|]. rewrite decide_True in Hi by reflexivity. exact Hi.
Defined.


(** The model's MustUnmarshalBinary panics; one that returns shows that the
    call then ends without a signature. *)
Definition silent_InfoCodec : InfoCodec := {|
  MarshalInfo := MarshalInfo (InfoCodec:=model_InfoCodec);
  UnmarshalInfo := UnmarshalInfo (InfoCodec:=model_InfoCodec);
  MustUnmarshal_nil _ := Ok tt;
|}.
Lemma Sign_offline_no_signature_witness :
  Sign (IC:=silent_InfoCodec) ex_world "o" "" [Byte.x00] (ex_keys "o" ex_offline) = (Ok (inl (None, [Byte.x05])), ex_keys "o" ex_offline) /\
  (None : option bytes) = None.
Proof.
  assert (Hrun : Sign (IC:=silent_InfoCodec) ex_world "o" "" [Byte.x00] (ex_keys "o" ex_offline)
    = (Ok (inl (None, [Byte.x05])), ex_keys "o" ex_offline)).
  { by_vm. }
  split; [exact Hrun|].
  exact (Sign_offline_no_signature (IC:=silent_InfoCodec) (ex_keys "o" ex_offline) ex_world "o" "" [Byte.x00] "o" [Byte.x05] None [Byte.x05] _
    (ex_wf "o" ex_offline) (ex_holds "o" ex_offline) Hrun).
Defined.

Lemma operations_atomic_witness :
  let kb := ex_keys "o" ex_offline in
  let r := run_key_op (OpKeyDelete "o" "no") kb in
  r.1 <> Ok (inl tt) /\ keys_of r.2 = keys_of kb.
Proof.
  assert (Hne : (run_key_op (OpKeyDelete "o" "no") (ex_keys "o" ex_offline)).1 <> Ok (inl tt)).
  { destruct (Get_holds (ex_keys "o" ex_offline) "o" ex_offline (ex_wf _ _) (ex_holds _ _)) as (kb1 & Hg & _).
    cbn [run_key_op]. unfold Keybase_Delete, tryM. rewrite (bind_Ok _ _ _ _ _ Hg). discriminate. }
  split; [exact Hne|].
  exact (proj2 (proj2 (operations_atomic (OpKeyDelete "o" "no") (ex_keys "o" ex_offline) _ _ (ex_wf _ _) (surjective_pairing _))) Hne).
Defined.
