(* ===== verification/MultiStore.v ===== *)
(** * types/store.go MultiStore, store/cachemultistore.go

    A multi-store maps store keys to key-value stores.  [MultiStore] is the
    interface, [MultiStoreLaws] what it promises; [cacheMultiStore] puts a
    cache in front of every store of a parent and [CacheWrap]s of it nest. *)
From Stdlib Require Import Strings.Byte Strings.String.
From S2P Require Import Prelude Errors KVStore MergeIterator CacheKV.
#[local] Open Scope string_scope.
#[local] Open Scope list_scope.
#[local] Open Scope Z_scope.

(** A store key is a capability: the pointer is its identity, the name is for
    people and for the database. *)
Record StoreKey := mk_StoreKey { sk_ptr : positive; sk_name : string }.

#[export] Instance StoreKey_eq_dec : EqDecision StoreKey.
Proof. solve_decision. Defined.
#[export] Program Instance StoreKey_countable : Countable StoreKey :=
  inj_countable' (fun k => (sk_ptr k, sk_name k)) (fun p => mk_StoreKey p.1 p.2) _.
Next Obligation. by intros []. Qed.

(** ** The interface

    [ms_store] and [ms_put] read and write one store's state.  [ms_db] is the
    database a multi-store also wraps. *)
Class MultiStore (MS : Type) := {
  KVS : Type;
  KVS_kv :: KVStore KVS;
  DBS : Type;
  DBS_kv :: KVStore DBS;
  ms_store : MS -> StoreKey -> option KVS;
  ms_put : StoreKey -> KVS -> MS -> MS;
  ms_keys : MS -> list StoreKey;
  ms_db : MS -> DBS;
  ms_put_db : DBS -> MS -> MS;
}.

(** [GetKVStore(key)] followed by [m]: asserting the type of the nil interface
    an absent key gives panics. *)
Definition withStore {MS} `{MultiStore MS} {A} (key : StoreKey) (m : M KVS A) : M MS A := fun ms =>
  match ms_store ms key with
  | None => (Panicked (RuntimeError "interface conversion: interface is nil"), ms)
  | Some s => let '(r, s') := m s in (r, ms_put key s' ms)
  end.

Definition onDB {MS} `{MultiStore MS} {A} (m : M DBS A) : M MS A := zoom ms_db ms_put_db m.

(** The laws of a store may depend on its key: a cache's, for one, fix the map
    its parent has until Write. *)
Class MultiStoreLaws (MS : Type) `{MultiStore MS} := {
  KVS_laws : StoreKey -> KVStoreLaws KVS;
  KVS_rev : forall k, KVStoreReverse KVS (H0:=KVS_laws k);
  DBS_laws : KVStoreLaws DBS;
  ms_store_put_eq : forall ms k s, is_Some (ms_store ms k) -> ms_store (ms_put k s ms) k = Some s;
  ms_store_put_ne : forall ms k k' s, k <> k' -> ms_store (ms_put k s ms) k' = ms_store ms k';
  ms_store_put_db : forall ms k d, ms_store (ms_put_db d ms) k = ms_store ms k;
  ms_db_put : forall ms k s, ms_db (ms_put k s ms) = ms_db ms;
  ms_db_put_db : forall ms d, ms_db (ms_put_db d ms) = d;
  ms_keys_elem : forall ms k, k ∈ ms_keys ms <-> is_Some (ms_store ms k);
  ms_keys_NoDup : forall ms, NoDup (ms_keys ms);
}.

(** ** The cache multi-store *)

(** The states of its stores: [cms_stores] holds the caches, the stores behind
    them are the parent's. *)
Record cacheMultiStore (MS : Type) := mk_cacheMultiStore {
  cms_db : gmap bytes cValue;
  cms_stores : gmap StoreKey (gmap bytes cValue);
  cms_parent : MS }.
Arguments mk_cacheMultiStore {MS}.
Arguments cms_db {MS}.
Arguments cms_stores {MS}.
Arguments cms_parent {MS}.

Section cachems.
Context {MS : Type} `{MultiStore MS} `{LibDB}.

(** newCacheMultiStoreFromRMS, newCacheMultiStoreFromCMS: an empty cache for
    each of the parent's stores and for its database. *)
Definition newCacheMultiStore (parent : MS) : cacheMultiStore MS :=
  mk_cacheMultiStore ∅ (list_to_map ((fun k => (k, ∅)) <$> ms_keys parent)) parent.

Definition cms_store (cms : cacheMultiStore MS) (key : StoreKey) : option (cacheKVStore KVS) :=
  match cms_stores cms !! key, ms_store (cms_parent cms) key with
  | Some c, Some s => Some (mk_cacheKVStore c s)
  | _, _ => None
  end.

Definition cms_put (key : StoreKey) (s : cacheKVStore KVS) (cms : cacheMultiStore MS)
  : cacheMultiStore MS :=
  mk_cacheMultiStore (cms_db cms) (<[key := ck_cache s]> (cms_stores cms))
    (ms_put key (ck_parent s) (cms_parent cms)).

#[global] Instance cacheMS_MultiStore : MultiStore (cacheMultiStore MS) := {
  KVS := cacheKVStore KVS;
  DBS := cacheKVStore DBS;
  ms_store := cms_store;
  ms_put := cms_put;
  ms_keys cms := filter (fun k => is_Some (cms_store cms k)) (map_to_list (cms_stores cms)).*1;
  ms_db cms := mk_cacheKVStore (cms_db cms) (ms_db (cms_parent cms));
  ms_put_db d cms := mk_cacheMultiStore (ck_cache d) (cms_stores cms)
                       (ms_put_db (ck_parent d) (cms_parent cms));
}.

(** Write: the database's cache, then every store's. *)
Definition cacheMS_Write : M (cacheMultiStore MS) unit :=
  onDB (MS:=cacheMultiStore MS) (Write (P:=DBS (MS:=MS)));;
  cms ← getM;
  iterM (fun key => withStore (MS:=cacheMultiStore MS) key (Write (P:=KVS (MS:=MS)))) (ms_keys cms).
End cachems.

(** CacheMultiStore of a cache multi-store. *)
Definition cacheMS_CacheWrap {MS} `{MultiStore MS} `{LibDB} (cms : cacheMultiStore MS)
  : cacheMultiStore (cacheMultiStore MS) := newCacheMultiStore cms.

(** ** Lemmas on multi-stores *)

Section ms_lemmas.
Context {MS : Type} `{HM : MultiStore MS} `{HL : !MultiStoreLaws MS}.

(** What a multi-store stands for: a map of maps. *)
Definition ms_view (ms : MS) (k : StoreKey) : option (gmap bytes bytes) :=
  view (KVStoreLaws:=KVS_laws k) <$> ms_store ms k.

Definition ms_wf (ms : MS) : Prop :=
  (forall k s, ms_store ms k = Some s -> wf (KVStoreLaws:=KVS_laws k) s) /\
  wf (KVStoreLaws:=DBS_laws) (ms_db ms).

Lemma withStore_run {A} (m : M KVS A) ms k s a (Q : KVS -> Prop) :
  ms_store ms k = Some s -> steps m s a Q ->
  steps (withStore k m) ms a (fun ms' => exists s', ms' = ms_put k s' ms /\ Q s').
Proof.
  intros Hk (s' & Hm & HQ). exists (ms_put k s' ms). split; [|by exists s'].
  unfold withStore. by rewrite Hk, Hm.
Qed.

Lemma ms_put_wf ms k s :
  ms_wf ms -> wf (KVStoreLaws:=KVS_laws k) s -> is_Some (ms_store ms k) -> ms_wf (ms_put k s ms).
Proof.
  intros [Hs Hd] Hw Hk. split; [|by rewrite ms_db_put].
  intros k' s' Hk'. destruct (decide (k = k')) as [ <- |Hne].
  - rewrite ms_store_put_eq in Hk' by done. by simplify_eq.
  - rewrite ms_store_put_ne in Hk' by done. eauto.
Qed.

Lemma ms_view_put_eq ms k s :
  is_Some (ms_store ms k) -> ms_view (ms_put k s ms) k = Some (view (KVStoreLaws:=KVS_laws k) s).
Proof. intros Hk. unfold ms_view. by rewrite ms_store_put_eq. Qed.

Lemma ms_view_put_ne ms k s k' : k <> k' -> ms_view (ms_put k s ms) k' = ms_view ms k'.
Proof. intros Hk. unfold ms_view. by rewrite ms_store_put_ne. Qed.

Lemma ms_view_is_Some ms k : is_Some (ms_view ms k) <-> is_Some (ms_store ms k).
Proof. unfold ms_view. by rewrite fmap_is_Some. Qed.

Lemma ms_store_put_is_Some ms k s k' :
  is_Some (ms_store ms k) -> is_Some (ms_store (ms_put k s ms) k') <-> is_Some (ms_store ms k').
Proof.
  intros Hk. destruct (decide (k = k')) as [ <- |Hne]; [|by rewrite ms_store_put_ne].
  rewrite ms_store_put_eq by done. split; [done|by eexists].
Qed.
End ms_lemmas.

(** ** The laws of a cache multi-store *)

Section cachems_laws.
Context {MS : Type} `{HM : MultiStore MS} `{HL : !MultiStoreLaws MS} `{LibDBLaws}.

Lemma cms_store_Some cms k c p :
  cms_store cms k = Some (mk_cacheKVStore c p) <->
  cms_stores cms !! k = Some c /\ ms_store (cms_parent cms) k = Some p.
Proof.
  unfold cms_store. destruct (cms_stores cms !! k), (ms_store (cms_parent cms) k);
    split; intuition congruence.
Qed.

Lemma cms_store_is_Some cms k :
  is_Some (cms_store cms k) <-> is_Some (cms_stores cms !! k) /\ is_Some (ms_store (cms_parent cms) k).
Proof.
  split.
  - intros [[c p] [Hc Hp]%cms_store_Some]. eauto.
  - intros [[c Hc] [p Hp]]. exists (mk_cacheKVStore c p). by apply cms_store_Some.
Qed.

Lemma cms_store_put k s cms k' :
  cms_store (cms_put k s cms) k' =
  match <[k := ck_cache s]> (cms_stores cms) !! k', ms_store (ms_put k (ck_parent s) (cms_parent cms)) k' with
  | Some c, Some p => Some (mk_cacheKVStore c p)
  | _, _ => None
  end.
Proof. reflexivity. Qed.

(** [V] is the parent's view while the cache is in use, [Vd] its database's. *)
Variable V : StoreKey -> gmap bytes bytes.
Variable Vd : gmap bytes bytes.

#[refine] Instance cacheMS_laws_at : MultiStoreLaws (cacheMultiStore MS) := {
  KVS_laws k := cacheKV_laws_at (H0:=KVS_laws k) (V k);
  DBS_laws := cacheKV_laws_at (H0:=DBS_laws) Vd }.
Proof.
  - intros k. apply (cacheKV_reverse_at (H0:=KVS_laws k)). apply KVS_rev.
  - intros cms k [c p] Hk. apply cms_store_is_Some in Hk as [Hc Hp].
    change (cms_store (cms_put k (mk_cacheKVStore c p) cms) k = Some (mk_cacheKVStore c p)).
    rewrite cms_store_put. simpl. by rewrite lookup_insert_eq, ms_store_put_eq.
  - intros cms k k' [c p] Hne.
    change (cms_store (cms_put k (mk_cacheKVStore c p) cms) k' = cms_store cms k').
    rewrite cms_store_put. simpl. by rewrite lookup_insert_ne, ms_store_put_ne.
  - intros cms k [c p].
    change (match cms_stores cms !! k, ms_store (ms_put_db p (cms_parent cms)) k with
      | Some c, Some s => Some (mk_cacheKVStore c s) | _, _ => None end = cms_store cms k).
    by rewrite ms_store_put_db.
  - intros cms k [c p]. simpl. by rewrite ms_db_put.
  - intros cms [c p]. simpl. by rewrite ms_db_put_db.
  - intros cms k. simpl. rewrite list_elem_of_filter. split; [by intros [? _]|].
    intros Hk. split; [done|]. apply cms_store_is_Some in Hk as [[c Hc] _].
    apply list_elem_of_fmap. exists (k, c). split; [done|]. by apply elem_of_map_to_list.
  - intros cms. simpl. apply NoDup_filter, NoDup_fst_map_to_list.
Defined.

(** The caches are those of the parent's stores. *)
Definition cms_full (cms : cacheMultiStore MS) : Prop :=
  forall k, is_Some (cms_stores cms !! k) <-> is_Some (ms_store (cms_parent cms) k).

Lemma cms_full_put k s cms : is_Some (cms_store cms k) -> cms_full cms -> cms_full (cms_put k s cms).
Proof.
  intros Hk Hf k'. apply cms_store_is_Some in Hk as [Hc Hp]. simpl.
  rewrite ms_store_put_is_Some, <- (Hf k') by done.
  destruct (decide (k = k')) as [ <- |Hne]; [|by rewrite lookup_insert_ne].
  rewrite lookup_insert_eq. split; [done|by eexists].
Qed.
End cachems_laws.

Section cachems_write.
Context {MS : Type} `{HM : MultiStore MS} `{HL : !MultiStoreLaws MS} `{LibDBLaws}.

Definition parent_view (parent : MS) (k : StoreKey) : gmap bytes bytes :=
  default ∅ (ms_view parent k).
Definition db_view (ms : MS) : gmap bytes bytes := view (KVStoreLaws:=DBS_laws) (ms_db ms).

Abbreviation laws_of parent := (cacheMS_laws_at (parent_view parent) (db_view parent)).

Lemma lookup_new_stores (parent : MS) k :
  cms_stores (newCacheMultiStore parent) !! k =
  if decide (is_Some (ms_store parent k)) then Some ∅ else None.
Proof.
  simpl. case_decide as Hk.
  - apply elem_of_list_to_map.
    + rewrite <- list_fmap_compose. change (NoDup (id <$> ms_keys parent)).
      rewrite list_fmap_id. apply ms_keys_NoDup.
    + apply list_elem_of_fmap. exists k. split; [done|]. by apply ms_keys_elem.
  - apply not_elem_of_list_to_map. rewrite <- list_fmap_compose.
    change (k ∉ id <$> ms_keys parent). by rewrite list_fmap_id, ms_keys_elem.
Qed.

Lemma cms_store_new (parent : MS) k :
  cms_store (newCacheMultiStore parent) k = mk_cacheKVStore ∅ <$> ms_store parent k.
Proof.
  unfold cms_store. rewrite lookup_new_stores. simpl. case_decide as Hk.
  - by destruct (ms_store parent k).
  - by destruct (ms_store parent k) eqn:E; [destruct Hk; eauto|].
Qed.

Lemma newCacheMultiStore_spec (parent : MS) :
  ms_wf parent ->
  ms_wf (HL:=laws_of parent) (newCacheMultiStore parent) /\
  (forall k, ms_view (HL:=laws_of parent) (newCacheMultiStore parent) k = ms_view parent k) /\
  cms_full (newCacheMultiStore parent).
Proof.
  intros [Hs Hd]. split_and!.
  - split.
    + intros k s Hk. simpl in Hk. rewrite cms_store_new in Hk.
      apply fmap_Some in Hk as (p & Hp & ->). simpl. unfold ck_wf. simpl. split_and!.
      * by apply Hs.
      * unfold parent_view, ms_view. by rewrite Hp.
      * intros k' cv. by rewrite lookup_empty.
    + simpl. unfold ck_wf. simpl. split_and!; [done|done|]. intros k' cv. by rewrite lookup_empty.
  - intros k. unfold ms_view. simpl. rewrite cms_store_new.
    destruct (ms_store parent k) as [p|]; [|done]. simpl. f_equal.
    unfold ck_view. simpl. by rewrite fmap_empty, overlay_empty.
  - intros k. rewrite lookup_new_stores. simpl. case_decide as Hk; [|split; [by intros []|intros ?; by destruct Hk]].
    split; [done|by eexists].
Qed.

(** *** Write *)

(** One store's Write, in the multi-store. *)
Lemma withStore_Write_run (cms : cacheMultiStore MS) k s :
  cms_store cms k = Some s -> ck_wf (H0:=KVS_laws k) (view (KVStoreLaws:=KVS_laws k) (ck_parent s)) s ->
  steps (withStore (MS:=cacheMultiStore MS) k (Write (P:=KVS (MS:=MS)))) cms tt
    (fun cms' => exists p, cms' = cms_put k (mk_cacheKVStore ∅ p) cms /\
       wf (KVStoreLaws:=KVS_laws k) p /\ view (KVStoreLaws:=KVS_laws k) p = ck_view (H0:=KVS_laws k) s).
Proof.
  intros Hs Hself.
  destruct (Write_run (H0:=KVS_laws k) s Hself) as (s' & HW & Hw' & Hc' & _ & Hv').
  destruct s' as [c' p']. simpl in *. subst c'.
  exists (cms_put k (mk_cacheKVStore ∅ p') cms). split.
  - unfold withStore. simpl. by rewrite Hs, HW.
  - exists p'. split_and!; [done|apply Hw'|done].
Qed.

(** The states of Write's loop: the keys [done] have their map in the parent
    and an empty cache, the other stores are as at the start. *)
Definition written (cms0 cms : cacheMultiStore MS) (done_ : list StoreKey) : Prop :=
  (forall k, k ∉ done_ -> cms_store cms k = cms_store cms0 k) /\
  (forall k s, k ∈ done_ -> cms_store cms0 k = Some s ->
     exists p, cms_store cms k = Some (mk_cacheKVStore ∅ p) /\
       wf (KVStoreLaws:=KVS_laws k) p /\ view (KVStoreLaws:=KVS_laws k) p = ck_view (H0:=KVS_laws k) s) /\
  (forall k, is_Some (cms_store cms k) <-> is_Some (cms_store cms0 k)) /\
  ms_db (cms_parent cms) = ms_db (cms_parent cms0) /\ cms_full cms.

Lemma written_step (cms0 cms : cacheMultiStore MS) done_ k s p :
  written cms0 cms done_ -> cms_store cms0 k = Some s ->
  wf (KVStoreLaws:=KVS_laws k) p -> view (KVStoreLaws:=KVS_laws k) p = ck_view (H0:=KVS_laws k) s ->
  written cms0 (cms_put k (mk_cacheKVStore ∅ p) cms) (done_ ++ [k]).
Proof.
  intros (Hn & Hd & Hi & Hdb & Hf) Hs Hw Hv.
  assert (Hk : is_Some (cms_store cms k)) by (apply Hi; eauto).
  assert (Heq : cms_store (cms_put k (mk_cacheKVStore ∅ p) cms) k = Some (mk_cacheKVStore ∅ p)).
  { apply (ms_store_put_eq (MultiStoreLaws:=cacheMS_laws_at (fun _ => ∅) ∅)), Hk. }
  assert (Hne : forall k', k <> k' ->
    cms_store (cms_put k (mk_cacheKVStore ∅ p) cms) k' = cms_store cms k').
  { intros k' ?. by apply (ms_store_put_ne (MultiStoreLaws:=cacheMS_laws_at (fun _ => ∅) ∅)). }
  split_and!.
  - intros k' [H1 H2]%not_elem_of_app. rewrite Hne; [by apply Hn|]. intros ->. apply H2. by left.
  - intros k' s' Hin Hs'. destruct (decide (k = k')) as [ <- |Hkk].
    + simplify_eq. by exists p.
    + rewrite Hne by done. apply Hd; [|done].
      apply elem_of_app in Hin as [?|Hin]; [done|]. apply elem_of_cons in Hin as [ -> |Hin]; [done|].
      by inversion Hin.
  - intros k'. destruct (decide (k = k')) as [ <- |Hkk]; [|by rewrite Hne].
    rewrite Heq, Hs. split; by eexists.
  - simpl. by rewrite ms_db_put.
  - by apply cms_full_put.
Qed.

Lemma Write_loop_written V Vd (cms0 : cacheMultiStore MS) keys : forall done_ cms,
  ms_wf (HL:=cacheMS_laws_at V Vd) cms0 ->
  written cms0 cms done_ -> NoDup (done_ ++ keys) ->
  (forall k, k ∈ keys -> is_Some (cms_store cms0 k)) ->
  steps (iterM (fun key => withStore (MS:=cacheMultiStore MS) key (Write (P:=KVS (MS:=MS)))) keys)
    cms tt (fun cms' => written cms0 cms' (done_ ++ keys)).
Proof.
  induction keys as [|k keys IH]; intros done_ cms Hwf Hwr Hnd Hin.
  { rewrite app_nil_r. by apply steps_ret. }
  simpl. assert (k ∉ done_) as Hk1.
  { intros Hk. apply NoDup_app in Hnd as (_ & Hx & _). apply (Hx k Hk). by left. }
  destruct (Hin k (list_elem_of_here _ _)) as [s Hs].
  assert (Hs' : cms_store cms k = Some s) by (rewrite <- Hs; by apply Hwr).
  eapply steps_bind.
  { apply (withStore_Write_run cms k s Hs').
    exact (ck_wf_self (H0:=KVS_laws k) (V k) s (proj1 Hwf k s Hs)). }
  intros cms' (p & -> & Hw & Hv). replace (done_ ++ k :: keys) with ((done_ ++ [k]) ++ keys)
    by (by rewrite <- app_assoc). apply IH; [done| | |].
  - by eapply written_step.
  - by rewrite <- app_assoc.
  - intros k' Hk'. apply Hin. by right.
Qed.

Lemma written_final (cms cms2 : cacheMultiStore MS) :
  (forall k s, cms_store cms k = Some s -> exists p, cms_store cms2 k = Some (mk_cacheKVStore ∅ p) /\
     wf (KVStoreLaws:=KVS_laws k) p /\ view (KVStoreLaws:=KVS_laws k) p = ck_view (H0:=KVS_laws k) s) ->
  cms_full cms2 ->
  (forall k, is_Some (cms_store cms2 k) <-> is_Some (cms_store cms k)) ->
  (wf (KVStoreLaws:=DBS_laws) (ms_db (cms_parent cms2)) /\
   view (KVStoreLaws:=DBS_laws) (ms_db (cms_parent cms2)) = ck_view (H0:=DBS_laws) (ms_db cms)) ->
  ms_wf (cms_parent cms2) /\
  (forall k, ms_view (cms_parent cms2) k = (ck_view (H0:=KVS_laws k) <$> cms_store cms k)) /\
  db_view (cms_parent cms2) = ck_view (H0:=DBS_laws) (ms_db cms).
Proof.
  intros Hfin Hfull Hi [Hdw Hdv].
  assert (Hpar : forall k, is_Some (ms_store (cms_parent cms2) k) -> is_Some (cms_store cms k)).
  { intros k Hk. apply Hi, cms_store_is_Some. split; [by apply Hfull|done]. }
  split_and!; [split; [|done]| |done].
  - intros k p Hp. destruct (Hpar k) as [s Hs]; [by eexists|].
    destruct (Hfin k s Hs) as (p' & Hp' & Hw & _). apply cms_store_Some in Hp' as [_ Hp'].
    by simplify_eq.
  - intros k. unfold ms_view. destruct (cms_store cms k) as [s|] eqn:Hs.
    + destruct (Hfin k s Hs) as (p' & Hp' & _ & Hv). apply cms_store_Some in Hp' as [_ ->].
      simpl. by f_equal.
    + destruct (ms_store (cms_parent cms2) k) eqn:E; [|done].
      destruct (Hpar k) as [s' Hs']; [by eexists|]. congruence.
Qed.

(** Write: afterwards every store of the parent has the map its cache had. *)
Lemma cacheMS_Write_run V Vd (cms : cacheMultiStore MS) :
  ms_wf (HL:=cacheMS_laws_at V Vd) cms -> cms_full cms ->
  steps cacheMS_Write cms tt (fun cms' => ms_wf (cms_parent cms') /\
    (forall k, ms_view (cms_parent cms') k = ms_view (HL:=cacheMS_laws_at V Vd) cms k) /\
    db_view (cms_parent cms') = ck_view (H0:=DBS_laws) (ms_db cms)).
Proof.
  intros Hwf Hfull. unfold cacheMS_Write.
  set (triv := cacheMS_laws_at (fun _ => ∅) ∅ : MultiStoreLaws (cacheMultiStore MS)).
  set (d0 := mk_cacheKVStore (cms_db cms) (ms_db (cms_parent cms))).
  destruct (Write_run (H0:=DBS_laws) d0 (ck_wf_self (H0:=DBS_laws) Vd d0 (proj2 Hwf)))
    as (d & HW & Hwd & _ & _ & Hvd).
  set (cms1 := ms_put_db (MultiStore:=cacheMS_MultiStore) d cms).
  assert (Hst : forall k, cms_store cms1 k = cms_store cms k).
  { intros k. apply (ms_store_put_db (MultiStoreLaws:=triv)). }
  assert (Hd1 : ms_db (MultiStore:=cacheMS_MultiStore) cms1 = d) by apply (ms_db_put_db (MultiStoreLaws:=triv)).
  assert (Hwf1 : ms_wf (HL:=cacheMS_laws_at V (view (KVStoreLaws:=DBS_laws) (ck_parent d))) cms1).
  { split; [|by rewrite Hd1]. intros k s Hs. apply (proj1 Hwf k s). exact (eq_trans (eq_sym (Hst k)) Hs). }
  assert (Hfull1 : cms_full cms1) by (intros k; simpl; rewrite ms_store_put_db; apply Hfull).
  eapply (steps_bind _ _ _ tt (fun c => c = cms1)).
  { exists cms1. split; [|done]. unfold onDB. by apply zoom_eq. }
  intros ? ->. apply steps_get_bind. eapply steps_mono.
  { apply (Write_loop_written V (view (KVStoreLaws:=DBS_laws) (ck_parent d)) cms1 _ []).
    - done.
    - split_and!; [done| |done|done|done]. intros k s H1. by inversion H1.
    - apply (ms_keys_NoDup (MultiStoreLaws:=triv)).
    - intros k Hk. by apply (ms_keys_elem (MultiStoreLaws:=triv)) in Hk. }
  intros cms2 (_ & Hdone & Hi & Hdb & Hfull2). simpl app in Hdone.
  apply (written_final cms cms2); [|done| |].
  - intros k s Hs. apply Hdone; [|by rewrite Hst].
    refine (proj2 (ms_keys_elem (MultiStoreLaws:=triv) cms1 k) _).
    exists s. exact (eq_trans (Hst k) Hs).
  - intros k. by rewrite Hi, Hst.
  - rewrite Hdb. simpl. rewrite ms_db_put_db. split; [apply Hwd|done].
Qed.
End cachems_write.
