(* ===== verification/Account.v ===== *)
(** * x/auth/account.go: the standard account

    Keys and signatures are third-party (tepleton/crypto): [Crypto] lists what
    the code calls.  An address is the byte string its holder is known by. *)
From Stdlib Require Import Strings.Byte Strings.String.
From S2P Require Import Prelude Int Coin.
#[local] Open Scope string_scope.
#[local] Open Scope list_scope.
#[local] Open Scope Z_scope.

Abbreviation Address := bytes.

(** crypto.PubKey and crypto.Signature, and the text of an address
    (cmn.HexBytes.String). *)
Class Crypto := {
  PubKey : Type;
  Signature : Type;
  PubKey_eq_dec :: EqDecision PubKey;
  PubKey_Address : PubKey -> Address;
  PubKey_Bytes : PubKey -> bytes;
  VerifyBytes : PubKey -> bytes -> Signature -> bool;
  HexString : bytes -> string;
}.

(** Hexadecimal text determines the bytes. *)
Class CryptoLaws `{Crypto} : Prop := {
  HexString_inj : forall a b, HexString a = HexString b -> a = b;
}.

Section account.
Context `{Crypto}.

Record BaseAccount := mk_BaseAccount {
  acc_Address : Address;
  acc_Coins : Coins;
  acc_PubKey : option PubKey;
  acc_AccountNumber : Z;
  acc_Sequence : Z
}.

#[global] Instance BaseAccount_eq_dec : EqDecision BaseAccount.
Proof. solve_decision. Defined.

(** [BaseAccount{}], the prototype. *)
Definition zero_BaseAccount : BaseAccount := mk_BaseAccount [] [] None 0 0.

Definition NewBaseAccountWithAddress (addr : Address) : BaseAccount :=
  mk_BaseAccount addr [] None 0 0.

Definition GetAddress (acc : BaseAccount) : Address := acc_Address acc.
Definition GetPubKey (acc : BaseAccount) : option PubKey := acc_PubKey acc.
Definition GetCoins (acc : BaseAccount) : Coins := acc_Coins acc.
Definition GetAccountNumber (acc : BaseAccount) : Z := acc_AccountNumber acc.
Definition GetSequence (acc : BaseAccount) : Z := acc_Sequence acc.

(** The setters return the account they changed and an [error]. *)
Definition SetAddress (acc : BaseAccount) (addr : Address) : BaseAccount * option string :=
  if negb (bool_decide (length (acc_Address acc) = 0%nat))
  then (acc, Some "cannot override BaseAccount address")
  else (mk_BaseAccount addr (acc_Coins acc) (acc_PubKey acc) (acc_AccountNumber acc)
          (acc_Sequence acc), None).

Definition SetPubKey (acc : BaseAccount) (pubKey : option PubKey) : BaseAccount * option string :=
  (mk_BaseAccount (acc_Address acc) (acc_Coins acc) pubKey (acc_AccountNumber acc)
     (acc_Sequence acc), None).

Definition SetCoins (acc : BaseAccount) (coins : Coins) : BaseAccount * option string :=
  (mk_BaseAccount (acc_Address acc) coins (acc_PubKey acc) (acc_AccountNumber acc)
     (acc_Sequence acc), None).

Definition SetAccountNumber (acc : BaseAccount) (accNumber : Z) : BaseAccount * option string :=
  (mk_BaseAccount (acc_Address acc) (acc_Coins acc) (acc_PubKey acc) accNumber
     (acc_Sequence acc), None).

Definition SetSequence (acc : BaseAccount) (seq : Z) : BaseAccount * option string :=
  (mk_BaseAccount (acc_Address acc) (acc_Coins acc) (acc_PubKey acc) (acc_AccountNumber acc) seq,
   None).
End account.
