(* ===== verification/Context.v ===== *)
(** * types/context.go: contexts, and the programs that run in them

    A handler reaches the state only through its context: by the stores of
    [ctx.KVStore(key)], which charge the context's gas meter, and by the meter
    itself.  [prog] is the type of such programs: every operation on a store,
    every charge is a node.  [interp] runs a program on a multi-store and a
    heap of meters; [interp_sim] shows that it cannot tell two multi-stores
    with the same maps apart, so a handler can be reasoned about on plain maps
    and run on caches over caches over trees. *)
From Stdlib Require Import Strings.Byte Strings.String.
From S2P Require Import Prelude Errors KVStore MergeIterator CacheKV GasKV MultiStore Account.
#[local] Open Scope string_scope.
#[local] Open Scope list_scope.
#[local] Open Scope Z_scope.

(** wrsp.Header and wrsp.SigningValidator, the fields the code reads. *)
Record Header := mk_Header { hd_ChainID : string; hd_Height : Z; hd_Time : Z }.
Record SigningValidator := mk_SigningValidator {
  sv_PubKey : bytes; sv_Power : Z; sv_SignedLastBlock : bool }.

Definition zero_Header : Header := mk_Header "" 0 0.

(** A gas meter is shared by the contexts derived from the one it was set in:
    contexts hold its address. *)
Abbreviation meter_ptr := nat.

(** The values of a context but the multi-store and the logger. *)
Section context.
Context `{Crypto}.

Record Ctx := mk_Ctx {
  cx_BlockHeader : Header;
  cx_BlockHeight : Z;
  cx_ChainID : string;
  cx_IsCheckTx : bool;
  cx_TxBytes : slice;
  cx_SigningValidators : list SigningValidator;
  cx_GasMeter : meter_ptr;
  cx_Signers : option (list BaseAccount)   (* x/auth/context.go *)
}.

(** NewContext; [meter] is the fresh infinite meter. *)
Definition NewContext (header : Header) (isCheckTx : bool) (meter : meter_ptr) : Ctx :=
  mk_Ctx header (hd_Height header) (hd_ChainID header) isCheckTx None [] meter None.

Definition WithBlockHeader (c : Ctx) (header : Header) : Ctx :=
  mk_Ctx header (cx_BlockHeight c) (cx_ChainID c) (cx_IsCheckTx c) (cx_TxBytes c)
    (cx_SigningValidators c) (cx_GasMeter c) (cx_Signers c).
Definition WithBlockHeight (c : Ctx) (height : Z) : Ctx :=
  mk_Ctx (cx_BlockHeader c) height (cx_ChainID c) (cx_IsCheckTx c) (cx_TxBytes c)
    (cx_SigningValidators c) (cx_GasMeter c) (cx_Signers c).
Definition WithChainID (c : Ctx) (chainID : string) : Ctx :=
  mk_Ctx (cx_BlockHeader c) (cx_BlockHeight c) chainID (cx_IsCheckTx c) (cx_TxBytes c)
    (cx_SigningValidators c) (cx_GasMeter c) (cx_Signers c).
Definition WithIsCheckTx (c : Ctx) (isCheckTx : bool) : Ctx :=
  mk_Ctx (cx_BlockHeader c) (cx_BlockHeight c) (cx_ChainID c) isCheckTx (cx_TxBytes c)
    (cx_SigningValidators c) (cx_GasMeter c) (cx_Signers c).
Definition WithTxBytes (c : Ctx) (txBytes : slice) : Ctx :=
  mk_Ctx (cx_BlockHeader c) (cx_BlockHeight c) (cx_ChainID c) (cx_IsCheckTx c) txBytes
    (cx_SigningValidators c) (cx_GasMeter c) (cx_Signers c).
Definition WithSigningValidators (c : Ctx) (vals : list SigningValidator) : Ctx :=
  mk_Ctx (cx_BlockHeader c) (cx_BlockHeight c) (cx_ChainID c) (cx_IsCheckTx c) (cx_TxBytes c)
    vals (cx_GasMeter c) (cx_Signers c).
Definition WithGasMeter (c : Ctx) (meter : meter_ptr) : Ctx :=
  mk_Ctx (cx_BlockHeader c) (cx_BlockHeight c) (cx_ChainID c) (cx_IsCheckTx c) (cx_TxBytes c)
    (cx_SigningValidators c) meter (cx_Signers c).

(** x/auth/context.go *)
Definition WithSigners (c : Ctx) (accounts : list BaseAccount) : Ctx :=
  mk_Ctx (cx_BlockHeader c) (cx_BlockHeight c) (cx_ChainID c) (cx_IsCheckTx c) (cx_TxBytes c)
    (cx_SigningValidators c) (cx_GasMeter c) (Some accounts).
Definition GetSigners (c : Ctx) : list BaseAccount := default [] (cx_Signers c).
End context.

(** ** Programs *)

Inductive prog (A : Type) : Type :=
  | Ret (a : A)
  | Fault (p : panic_value)
  | StoreOp (meter : meter_ptr) (key : StoreKey) (op : kv_op) (k : kv_result -> prog A)
  | ConsumeOp (meter : meter_ptr) (amount : Z) (descriptor : string) (k : prog A)
  | NewMeterOp (g : GasMeter) (k : meter_ptr -> prog A)
  | ConsumedOp (meter : meter_ptr) (k : Z -> prog A)
  | RangeOp (key : StoreKey) (asc : bool) (start end_ : slice) (k : list (slice * slice) -> prog A)
  | OnPanic (B : Type) (p : prog B) (h : prog unit) (k : B -> prog A).
Arguments Ret {A}.
Arguments Fault {A}.
Arguments StoreOp {A}.
Arguments ConsumeOp {A}.
Arguments NewMeterOp {A}.
Arguments ConsumedOp {A}.
Arguments RangeOp {A}.
Arguments OnPanic {A B}.

Fixpoint prog_bind {A B} (f : A -> prog B) (p : prog A) : prog B :=
  match p with
  | Ret a => f a
  | Fault v => Fault v
  | StoreOp meter key op k => StoreOp meter key op (fun r => prog_bind f (k r))
  | ConsumeOp meter amount d k => ConsumeOp meter amount d (prog_bind f k)
  | NewMeterOp g k => NewMeterOp g (fun m => prog_bind f (k m))
  | ConsumedOp meter k => ConsumedOp meter (fun z => prog_bind f (k z))
  | RangeOp key asc start end_ k => RangeOp key asc start end_ (fun l => prog_bind f (k l))
  | OnPanic p h k => OnPanic p h (fun b => prog_bind f (k b))
  end.

#[export] Instance prog_ret : MRet prog := fun A a => Ret a.
#[export] Instance prog_mbind : MBind prog := fun A B => prog_bind.

Definition lift {A} (o : outcome A) : prog A :=
  match o with Ok a => Ret a | Panicked p => Fault p end.

Fixpoint forP {A} (l : list A) (f : A -> prog unit) : prog unit :=
  match l with [] => Ret tt | a :: l => f a ≫= fun _ => forP l f end.

(** The store operations a handler writes [store := ctx.KVStore(key)] for. *)
Section ops.
Context `{Crypto} (ctx : Ctx) (key : StoreKey).

Definition store_Get (k : bytes) : prog slice :=
  StoreOp (cx_GasMeter ctx) key (OpGet k) (fun r => match r with RValue v => Ret v | _ => Ret None end).
Definition store_Has (k : bytes) : prog bool :=
  StoreOp (cx_GasMeter ctx) key (OpHas k) (fun r => match r with RBool b => Ret b | _ => Ret false end).
Definition store_Set (k v : bytes) : prog unit :=
  StoreOp (cx_GasMeter ctx) key (OpSet k v) (fun _ => Ret tt).
Definition store_Delete (k : bytes) : prog unit :=
  StoreOp (cx_GasMeter ctx) key (OpDelete k) (fun _ => Ret tt).
Definition store_Scan (asc : bool) (start end_ : slice) (n : nat) : prog (list (slice * slice)) :=
  StoreOp (cx_GasMeter ctx) key (OpScan asc start end_ n)
    (fun r => match r with REntries l => Ret l | _ => Ret [] end).
Definition ctx_ConsumeGas (amount : Z) (descriptor : string) : prog unit :=
  ConsumeOp (cx_GasMeter ctx) amount descriptor (Ret tt).
(** The entries an iterator of the store goes through: the program charges
    each Key() and Value() call where the code makes it.  The interface
    forbids writes to a range while it is iterated. *)
Definition store_Range (asc : bool) (start end_ : slice) : prog (list (slice * slice)) :=
  RangeOp key asc start end_ Ret.
(** An iteration over KVStorePrefixIterator or KVStoreReversePrefixIterator. *)
Definition store_Prefix (asc : bool) (prefix : bytes) : prog (list (slice * slice)) :=
  prog_bind (fun end_ => store_Range asc (Some prefix) end_) (lift (PrefixEndBytes (Some prefix))).
Definition iter_Key (e : slice * slice) : prog slice :=
  ConsumeOp (cx_GasMeter ctx) KeyCostFlat "KeyFlat" (Ret e.1).
Definition iter_Value (e : slice * slice) : prog slice :=
  ConsumeOp (cx_GasMeter ctx) ValueCostFlat "ValueFlat"
    (ConsumeOp (cx_GasMeter ctx) (wrap64 (ValueCostPerByte * slice_len e.2)) "ValuePerByte" (Ret e.2)).
Definition ctx_GasConsumed : prog Z := ConsumedOp (cx_GasMeter ctx) Ret.
End ops.

(** ** Running a program *)

Record World (MS : Type) := mk_World { w_ms : MS; w_meters : list GasMeter }.
Arguments mk_World {MS}.
Arguments w_ms {MS}.
Arguments w_meters {MS}.

Definition nil_pointer : panic_value :=
  RuntimeError "invalid memory address or nil pointer dereference".

Section interp.
Context {MS : Type} `{MultiStore MS}.

(** A store operation through GetKVStoreWithGas. *)
Definition gas_store_op (meter : meter_ptr) (key : StoreKey) (op : kv_op) : M (World MS) kv_result :=
  fun w =>
    match w_meters w !! meter, ms_store (w_ms w) key with
    | None, _ => (Panicked nil_pointer, w)
    | _, None => (Panicked (RuntimeError "interface conversion: interface is nil"), w)
    | Some g, Some s =>
        let '(r, gi) := run_op op (NewGasKVStore g s) in
        (r, mk_World (ms_put key (gi_parent gi) (w_ms w)) (<[meter := gi_gasMeter gi]> (w_meters w)))
    end.

Definition consume_op (meter : meter_ptr) (amount : Z) (descriptor : string) : M (World MS) unit :=
  fun w =>
    match w_meters w !! meter with
    | None => (Panicked nil_pointer, w)
    | Some g =>
        let '(r, g) := ConsumeGas amount descriptor g in
        (r, mk_World (w_ms w) (<[meter := g]> (w_meters w)))
    end.

(** An iteration through GetKVStoreWithGas: opening it and moving it are free. *)
Definition range_op (key : StoreKey) (asc : bool) (start end_ : slice)
    : M (World MS) (list (slice * slice)) := fun w =>
  match ms_store (w_ms w) key with
  | None => (Panicked (RuntimeError "interface conversion: interface is nil"), w)
  | Some s =>
      let '(r, s) := read_range asc start end_ s in
      (r, mk_World (ms_put key s (w_ms w)) (w_meters w))
  end.

Definition new_meter_op (g : GasMeter) : M (World MS) meter_ptr := fun w =>
  (Ok (length (w_meters w)), mk_World (w_ms w) (w_meters w ++ [g])).

Definition consumed_op (meter : meter_ptr) : M (World MS) Z := fun w =>
  match w_meters w !! meter with
  | None => (Panicked nil_pointer, w)
  | Some g => (Ok (GasConsumed g), w)
  end.

Fixpoint interp {A} (p : prog A) : M (World MS) A :=
  match p with
  | Ret a => mret a
  | Fault v => panicM v
  | StoreOp meter key op k => r ← gas_store_op meter key op; interp (k r)
  | ConsumeOp meter amount d k => consume_op meter amount d;; interp k
  | NewMeterOp g k => m ← new_meter_op g; interp (k m)
  | ConsumedOp meter k => z ← consumed_op meter; interp (k z)
  | RangeOp key asc start end_ k => l ← range_op key asc start end_; interp (k l)
  | OnPanic p h k => fun w =>
      match interp p w with
      | (Ok b, w) => interp (k b) w
      | (Panicked q, w) =>
          match interp h w with
          | (Ok _, w) => (Panicked q, w)
          | (Panicked q, w) => (Panicked q, w)
          end
      end
  end.
End interp.

(** The scans of a program ask for ranges the interface allows. *)
Fixpoint prog_ok {A} (p : prog A) : Prop :=
  match p with
  | Ret _ | Fault _ => True
  | StoreOp _ _ op k => op_ok op /\ forall r, prog_ok (k r)
  | ConsumeOp _ _ _ k => prog_ok k
  | NewMeterOp _ k => forall m, prog_ok (k m)
  | ConsumedOp _ k => forall z, prog_ok (k z)
  | RangeOp _ _ start end_ k => good_range start end_ /\ forall l, prog_ok (k l)
  | OnPanic p h k => prog_ok p /\ prog_ok h /\ forall b, prog_ok (k b)
  end.

Lemma prog_ok_bind {A B} (p : prog A) (f : A -> prog B) :
  prog_ok p -> (forall a, prog_ok (f a)) -> prog_ok (p ≫= f).
Proof.
  intros Hp Hf. unfold mbind, prog_mbind.
  induction p as [| | | | | | |A C p _ h _ k IH]; simpl in *; [naive_solver..|].
  destruct Hp as (? & ? & Hk). split_and!; [done..|]. intros b. apply IH; auto.
Qed.

Lemma prog_ok_lift {A} (o : outcome A) : prog_ok (lift o).
Proof. by destruct o. Qed.

#[export] Hint Resolve prog_ok_bind prog_ok_lift : sdk.

Lemma interp_bind {MS} `{MultiStore MS} {A B} (p : prog A) (f : A -> prog B) w :
  interp (p ≫= f) w = (interp p ≫= fun a => interp (f a)) w.
Proof.
  revert w. unfold mbind at 1, prog_mbind.
  induction p as [| |A m k op c IH|A m a d c IH|A g c IH|A m c IH|A k asc st en c IH|A C p _ h _ c IH];
    intros w; simpl; [done|done|..]; unfold mbind, M_bind in *;
    [destruct (gas_store_op m k op w) as [[] ?]|destruct (consume_op m a d w) as [[] ?]
    |destruct (new_meter_op g w) as [[] ?]|destruct (consumed_op m w) as [[] ?]
    |destruct (range_op k asc st en w) as [[] ?]
    |destruct (interp p w) as [[] w']; [|by destruct (interp h w') as [[] ?]]];
    auto.
Qed.

(** ** The specification multi-store: maps of maps *)

Record spec_ms := mk_spec_ms { sm_stores : gmap StoreKey spec_store; sm_db : spec_store }.

#[export] Instance spec_MultiStore : MultiStore spec_ms := {
  KVS := spec_store;
  DBS := spec_store;
  ms_store ms k := sm_stores ms !! k;
  ms_put k s ms := mk_spec_ms (<[k := s]> (sm_stores ms)) (sm_db ms);
  ms_keys ms := (map_to_list (sm_stores ms)).*1;
  ms_db := sm_db;
  ms_put_db d ms := mk_spec_ms (sm_stores ms) d;
}.

#[export, refine] Instance spec_ms_laws : MultiStoreLaws spec_ms := {
  KVS_laws _ := spec_laws; DBS_laws := spec_laws }.
Proof.
  - intros ms k s _. simpl. by rewrite lookup_insert_eq.
  - intros ms k k' s Hne. simpl. by rewrite lookup_insert_ne.
  - done.
  - done.
  - done.
  - intros ms k. simpl. rewrite list_elem_of_fmap. split.
    + intros ([k' s] & -> & Hin). apply elem_of_map_to_list in Hin. by eexists.
    + intros [s Hs]. exists (k, s). split; [done|]. by apply elem_of_map_to_list.
  - intros ms. apply NoDup_fst_map_to_list.
Defined.

(** ** Running on any multi-store simulates running on maps *)

Section sim.
Context {MS : Type} `{HM : MultiStore MS} `{HL : !MultiStoreLaws MS}.

Definition world_rel (w : World MS) (v : World spec_ms) : Prop :=
  ms_wf (w_ms w) /\ (forall k, ms_view (w_ms w) k = sm_stores (w_ms v) !! k) /\
  w_meters w = w_meters v.

Lemma gas_store_op_sim meter key op w v :
  op_ok op -> world_rel w v ->
  rsim eq world_rel (gas_store_op meter key op) (gas_store_op meter key op) w v.
Proof.
  intros Hok (Hw & Hv & Hm). unfold rsim, gas_store_op. rewrite Hm.
  destruct (w_meters v !! meter) as [g|]; [|done].
  pose proof (Hv key) as Hk. unfold ms_view in Hk.
  change (sm_stores (w_ms v) !! key) with (ms_store (w_ms v) key) in Hk. rewrite <- Hk.
  destruct (ms_store (w_ms w) key) as [s|] eqn:Es; cbn [fmap option_fmap option_map]; [|done].
  pose proof (run_op_sim (HL1:=KVS_laws key) (HR1:=KVS_rev key)
    (P2:=KVS (MS:=spec_ms)) (HK2:=KVS_kv (MS:=spec_ms)) (HL2:=spec_laws) (HR2:=spec_reverse)
    op (NewGasKVStore g s) (NewGasKVStore g (view (KVStoreLaws:=KVS_laws key) s)) Hok
    (conj eq_refl (conj (proj1 Hw key s Es) (conj I eq_refl)))) as Hsim.
  unfold rsim in Hsim.
  destruct (run_op op (NewGasKVStore g s)) as [r1 g1].
  match goal with |- context [run_op op ?x] =>
    change (run_op op (NewGasKVStore g (view (KVStoreLaws:=KVS_laws key) s))) with (run_op op x) in Hsim;
    destruct (run_op op x) as [r2 g2] end.
  assert (Hrel : gas_rel (HL1:=KVS_laws key) (HL2:=spec_laws) g1 g2 ->
    world_rel (mk_World (ms_put key (gi_parent g1) (w_ms w)) (<[meter:=gi_gasMeter g1]> (w_meters v)))
      (mk_World (mk_spec_ms (<[key:=gi_parent g2]> (sm_stores (w_ms v))) (sm_db (w_ms v)))
         (<[meter:=gi_gasMeter g2]> (w_meters v)))).
  { intros (Hg & Hw1 & _ & Hv1). split_and!; simpl; [by apply ms_put_wf; eauto| |by rewrite Hg].
    intros k. destruct (decide (key = k)) as [ <- |Hne].
    - rewrite ms_view_put_eq by eauto. rewrite lookup_insert_eq. by f_equal.
    - by rewrite ms_view_put_ne, lookup_insert_ne, Hv. }
  destruct r1 as [a1|p1], r2 as [a2|p2]; try done;
    destruct Hsim as [Hr Hrel']; (split; [exact Hr|exact (Hrel Hrel')]).
Qed.

Lemma consume_op_sim meter amount d w v :
  world_rel w v -> rsim eq world_rel (consume_op meter amount d) (consume_op meter amount d) w v.
Proof.
  intros (Hw & Hv & Hm). unfold rsim, consume_op. rewrite Hm.
  destruct (w_meters v !! meter) as [g|]; [|done].
  by destruct (ConsumeGas amount d g) as [[] g'].
Qed.

Lemma new_meter_op_sim g w v :
  world_rel w v -> rsim eq world_rel (new_meter_op g) (new_meter_op g) w v.
Proof. intros (Hw & Hv & Hm). unfold rsim, new_meter_op. by rewrite Hm. Qed.

Lemma consumed_op_sim meter w v :
  world_rel w v -> rsim eq world_rel (consumed_op meter) (consumed_op meter) w v.
Proof.
  intros (Hw & Hv & Hm). unfold rsim, consumed_op. rewrite Hm.
  by destruct (w_meters v !! meter) as [g|].
Qed.

Lemma range_op_sim key asc start end_ w v :
  good_range start end_ -> world_rel w v ->
  rsim eq world_rel (range_op key asc start end_) (range_op key asc start end_) w v.
Proof.
  intros Hok (Hw & Hv & Hm). unfold rsim, range_op.
  pose proof (Hv key) as Hk. unfold ms_view in Hk.
  change (sm_stores (w_ms v) !! key) with (ms_store (w_ms v) key) in Hk. rewrite <- Hk.
  destruct (ms_store (w_ms w) key) as [s|] eqn:Es; cbn [fmap option_fmap option_map]; [|done].
  set (V := view (KVStoreLaws:=KVS_laws key) s) in *.
  destruct (read_range_spec (H0:=KVS_laws key) asc start end_ s (proj1 Hw key s Es) Hok
    (fun _ => KVS_rev key)) as (s1 & Hw1 & Hv1 & ->).
  destruct (read_range_spec (S:=spec_store) (H:=spec_KVStore) (H0:=spec_laws)
    asc start end_ V I Hok (fun _ => spec_reverse)) as (s2 & _ & Hv2 & E2).
  change (view (S:=spec_store) (KVStoreLaws:=spec_laws) V) with V in *.
  change (s2 = V) in Hv2. subst s2.
  match goal with |- context [let '(_, _) := ?x in _] =>
    replace x with (read_range (S:=spec_store) (H:=spec_KVStore) asc start end_ V) by reflexivity end.
  rewrite E2.
  assert (Hrel : world_rel (mk_World (ms_put key s1 (w_ms w)) (w_meters w))
    (mk_World (mk_spec_ms (<[key:=V]> (sm_stores (w_ms v))) (sm_db (w_ms v))) (w_meters v))).
  { split_and!; simpl; [by apply ms_put_wf; eauto| |done].
    intros k. destruct (decide (key = k)) as [ <- |Hne].
    - rewrite ms_view_put_eq by eauto. rewrite lookup_insert_eq. f_equal. exact Hv1.
    - by rewrite ms_view_put_ne, lookup_insert_ne, Hv. }
  fold V. by destruct (decide _).
Qed.

Lemma interp_sim {A} (p : prog A) w v :
  prog_ok p -> world_rel w v -> rsim eq world_rel (interp p) (interp p) w v.
Proof.
  revert w v. induction p as [A a|A q|A m k op c IH|A m a d c IH|A g c IH|A m c IH|A k asc start end_ c IH
    |A C p IHp h IHh c IH]; intros w v Hok Hr; simpl in *.
  - by apply rsim_ret.
  - done.
  - eapply rsim_bind; [apply gas_store_op_sim; [apply Hok|done]|done|].
    intros r ? ? ? <- ?. apply IH; [apply Hok|done].
  - eapply rsim_bind; [by apply consume_op_sim|done|]. intros ? ? ? ? _ ?. by apply IH.
  - eapply rsim_bind; [by apply new_meter_op_sim|done|]. intros r ? ? ? <- ?. by apply IH.
  - eapply rsim_bind; [by apply consumed_op_sim|done|]. intros r ? ? ? <- ?. by apply IH.
  - eapply rsim_bind; [apply range_op_sim; [apply Hok|done]|done|].
    intros r ? ? ? <- ?. apply IH; [apply Hok|done].
  - destruct Hok as (Hp & Hh & Hc). specialize (IHp w v Hp Hr). unfold rsim in *.
    destruct (interp p w) as [[b|q] w1], (interp p v) as [[b'|q'] v1]; try done;
      destruct IHp as [Hb Hr1]; [subst b'; by apply IH|].
    specialize (IHh w1 v1 Hh Hr1).
    destruct (interp h w1) as [[]], (interp h v1) as [[]]; try done; by destruct IHh.
Qed.
End sim.

(** ** Invariants of a run *)

Section interp_inv.
Context {MS : Type} `{HM : MultiStore MS}.
Variable I : MS -> Prop.
Hypothesis I_put : forall ms k s, I ms -> is_Some (ms_store ms k) -> I (ms_put k s ms).

(** A program changes a multi-store only by putting back stores it has. *)
Lemma interp_inv {A} (p : prog A) w : I (w_ms w) -> I (w_ms (interp p w).2).
Proof.
  revert w. induction p as [A a|A q|A m k op c IH|A m a d c IH|A g c IH|A m c IH|A k asc start end_ c IH
    |A C p IHp h IHh c IH]; intros w Hw; simpl; unfold mbind, M_bind; try done.
  - unfold gas_store_op. destruct (w_meters w !! m) as [g|]; [|done].
    destruct (ms_store (w_ms w) k) as [s|] eqn:Es; [|done].
    destruct (run_op op (NewGasKVStore g s)) as [r gi].
    assert (I (ms_put k (gi_parent gi) (w_ms w))) by eauto.
    destruct r; [by apply IH|done].
  - unfold consume_op. destruct (w_meters w !! m) as [g|]; [|done].
    destruct (ConsumeGas a d g) as [[] ?]; [by apply IH|done].
  - by apply IH.
  - unfold consumed_op. destruct (w_meters w !! m) as [g|]; [by apply IH|done].
  - unfold range_op. destruct (ms_store (w_ms w) k) as [s|] eqn:Es; [|done].
    destruct (read_range asc start end_ s) as [r s'].
    assert (I (ms_put k s' (w_ms w))) by eauto. destruct r; [by apply IH|done].
  - specialize (IHp w Hw). destruct (interp p w) as [[b|q] w1]; [by apply IH|].
    specialize (IHh w1 IHp). by destruct (interp h w1) as [[] ?].
Qed.
End interp_inv.

(** ** The maps of a multi-store as a specification multi-store *)

Section spec_of.
Context {MS : Type} `{HM : MultiStore MS} `{HL : !MultiStoreLaws MS}.

Definition spec_of (ms : MS) : spec_ms :=
  mk_spec_ms (list_to_map ((fun k => (k, default ∅ (ms_view ms k))) <$> ms_keys ms)) ∅.

Lemma lookup_spec_of ms k : sm_stores (spec_of ms) !! k = ms_view ms k.
Proof.
  simpl. destruct (ms_view ms k) as [v|] eqn:E.
  - apply elem_of_list_to_map.
    + rewrite <- list_fmap_compose. change (NoDup (id <$> ms_keys ms)).
      rewrite list_fmap_id. apply ms_keys_NoDup.
    + apply list_elem_of_fmap. exists k. rewrite E. split; [done|].
      apply ms_keys_elem, ms_view_is_Some. by eexists.
  - apply not_elem_of_list_to_map. rewrite <- list_fmap_compose.
    change (k ∉ id <$> ms_keys ms). rewrite list_fmap_id, ms_keys_elem, <- ms_view_is_Some, E.
    by intros [].
Qed.

Lemma world_rel_spec_of ms meters :
  ms_wf ms -> world_rel (mk_World ms meters) (mk_World (spec_of ms) meters).
Proof. intros Hw. split_and!; [done| |done]. intros k. simpl. by rewrite <- lookup_spec_of. Qed.

Lemma interp_spec {A} (p : prog A) ms meters :
  prog_ok p -> ms_wf ms ->
  (interp p (mk_World ms meters)).1 = (interp p (mk_World (spec_of ms) meters)).1 /\
  world_rel (interp p (mk_World ms meters)).2 (interp p (mk_World (spec_of ms) meters)).2.
Proof.
  intros Hp Hw. pose proof (interp_sim p _ _ Hp (world_rel_spec_of ms meters Hw)) as Hs.
  unfold rsim in Hs.
  destruct (interp p (mk_World ms meters)) as [[a1|p1] w1],
    (interp p (mk_World (spec_of ms) meters)) as [[a2|p2] w2]; try done;
    destruct Hs as [ -> ?]; done.
Qed.
End spec_of.

(** ** A run in a cache: the transaction *)

Section cache_run.
Context {MS : Type} `{HM : MultiStore MS} `{HL : !MultiStoreLaws MS} `{LibDBLaws}.

Abbreviation laws_of parent := (cacheMS_laws_at (parent_view parent) (db_view parent)).

Lemma interp_cache_full {A} (p : prog A) (cms : cacheMultiStore MS) meters :
  cms_full cms -> cms_full (w_ms (interp p (mk_World cms meters)).2).
Proof.
  intros Hf. apply (interp_inv (MS:=cacheMultiStore MS) cms_full); [|done].
  intros c k s Hc Hk. by apply cms_full_put.
Qed.

Lemma interp_cache_keys {A} (p : prog A) (cms : cacheMultiStore MS) meters k :
  is_Some (ms_store (cms_parent (w_ms (interp p (mk_World cms meters)).2)) k) <->
  is_Some (ms_store (cms_parent cms) k).
Proof.
  apply (interp_inv (MS:=cacheMultiStore MS)
    (fun c => is_Some (ms_store (cms_parent c) k) <-> is_Some (ms_store (cms_parent cms) k))); [|done].
  intros c k' s Hc Hk. apply cms_store_is_Some in Hk as [_ Hk]. simpl.
  by rewrite ms_store_put_is_Some.
Qed.

(** After a run the parent still has the view the cache was made on. *)
Lemma wf_parent_view (parent : MS) (cms : cacheMultiStore MS) :
  ms_wf (HL:=laws_of parent) cms -> cms_full cms ->
  (forall k, is_Some (ms_store (cms_parent cms) k) <-> is_Some (ms_store parent k)) ->
  ms_wf (cms_parent cms) /\ (forall k, ms_view (cms_parent cms) k = ms_view parent k).
Proof.
  intros [Hs Hd] Hf Hk.
  assert (Hst : forall k s, ms_store (cms_parent cms) k = Some s ->
    wf (KVStoreLaws:=KVS_laws k) s /\ view (KVStoreLaws:=KVS_laws k) s = parent_view parent k).
  { intros k s Es. destruct (proj2 (Hf k) (ex_intro _ s Es)) as [c Hc].
    destruct (Hs k (mk_cacheKVStore c s)) as (Hw & Hv & _); [by apply cms_store_Some|].
    done. }
  split; [split|].
  - intros k s Es. by apply Hst.
  - by destruct Hd as (Hw & _).
  - intros k. unfold ms_view. destruct (ms_store (cms_parent cms) k) as [s|] eqn:Es.
    + destruct (Hst k s Es) as [_ Hv]. simpl. rewrite Hv. unfold parent_view, ms_view.
      destruct (proj1 (Hk k)) as [s' Es']; [by eexists|]. by rewrite Es'.
    + destruct (ms_store parent k) eqn:Ep; [|done].
      destruct (proj2 (Hk k)) as [s' Es']; [by eexists|]. congruence.
Qed.

(** A run in a cache of [ms], against a run on maps that agree with [ms]. *)
Lemma cache_run_rel {A} (p : prog A) (ms : MS) (v : spec_ms) meters :
  prog_ok p -> ms_wf ms -> (forall k, ms_view ms k = sm_stores v !! k) ->
  let '(r, w) := interp p (mk_World (newCacheMultiStore ms) meters) in
  let '(r', v') := interp p (mk_World v meters) in
  r = r' /\ w_meters w = w_meters v' /\
  (ms_wf (HL:=laws_of ms) (w_ms w) /\ cms_full (w_ms w)) /\
  (ms_wf (cms_parent (w_ms w)) /\ forall k, ms_view (cms_parent (w_ms w)) k = ms_view ms k) /\
  (forall k, ms_view (HL:=laws_of ms) (w_ms w) k = sm_stores (w_ms v') !! k).
Proof.
  intros Hp Hw Hv. destruct (newCacheMultiStore_spec ms Hw) as (Hnw & Hnv & Hnf).
  assert (Hrel : world_rel (HL:=laws_of ms) (mk_World (newCacheMultiStore ms) meters) (mk_World v meters)).
  { split_and!; [done| |done]. intros k. simpl. by rewrite Hnv, Hv. }
  pose proof (interp_sim (HL:=laws_of ms) p _ _ Hp Hrel) as Hs.
  pose proof (interp_cache_full p (newCacheMultiStore ms) meters Hnf) as Hf.
  pose proof (interp_cache_keys p (newCacheMultiStore ms) meters) as Hk.
  unfold rsim in Hs.
  destruct (interp p (mk_World (newCacheMultiStore ms) meters)) as [r w],
    (interp p (mk_World v meters)) as [r' v'].
  assert (r = r' /\ world_rel (HL:=laws_of ms) w v') as [-> (Hww & Hwv & Hm)].
  { destruct r, r'; try done; destruct Hs as [ -> ?]; done. }
  split_and!; try done; by apply (wf_parent_view ms (w_ms w)).
Qed.

Lemma cache_run_spec {A} (p : prog A) (ms : MS) meters :
  prog_ok p -> ms_wf ms ->
  let '(r, w) := interp p (mk_World (newCacheMultiStore ms) meters) in
  let '(r', v) := interp p (mk_World (spec_of ms) meters) in
  r = r' /\ w_meters w = w_meters v /\
  (ms_wf (HL:=laws_of ms) (w_ms w) /\ cms_full (w_ms w)) /\
  (ms_wf (cms_parent (w_ms w)) /\ forall k, ms_view (cms_parent (w_ms w)) k = ms_view ms k) /\
  (forall k, ms_view (HL:=laws_of ms) (w_ms w) k = sm_stores (w_ms v) !! k).
Proof. intros Hp Hw. apply cache_run_rel; [done..|]. intros k. by rewrite lookup_spec_of. Qed.
End cache_run.

(** ** Properties *)

(** a handler program (any use of Get, Has, Set, Delete, bounded scans,
    charges and new meters) behaves on every multi-store that keeps the
    interface's laws as on plain maps: same result or same panic, same gas
    meters, same maps afterwards. *)
Theorem interp_refines_maps {MS} `{HM : MultiStore MS} `{HL : !MultiStoreLaws MS} {A}
    (p : prog A) (ms : MS) (meters : list GasMeter) (Hp : prog_ok p) (Hw : ms_wf ms) :
  let '(r, w) := interp p (mk_World ms meters) in
  let '(r', v) := interp p (mk_World (spec_of ms) meters) in
  r = r' /\ w_meters w = w_meters v /\ ms_wf (w_ms w) /\
  forall k, ms_view (w_ms w) k = sm_stores (w_ms v) !! k.
Proof.
  pose proof (interp_spec p ms meters Hp Hw) as Hs.
  destruct (interp p (mk_World ms meters)) as [r w], (interp p (mk_World (spec_of ms) meters)) as [r' v].
  destruct Hs as [Hr (Hww & Hv & Hm)]. done.
Qed.

(** C32: a program run in a cache of a multi-store (CacheMultiStore, or a
    context's CacheContext) is a transaction: it behaves as on the maps of the
    multi-store; while it runs, and if its cache is dropped, those maps are
    unchanged; Write returns and leaves exactly the program's maps. *)
Theorem cacheMS_transaction {MS} `{HM : MultiStore MS} `{HL : !MultiStoreLaws MS} `{LibDBLaws} {A}
    (p : prog A) (ms : MS) (meters : list GasMeter) (Hp : prog_ok p) (Hw : ms_wf ms) :
  let '(r, w) := interp p (mk_World (newCacheMultiStore ms) meters) in
  let '(r', v) := interp p (mk_World (spec_of ms) meters) in
  r = r' /\ w_meters w = w_meters v /\
  (forall k, ms_view (cms_parent (w_ms w)) k = ms_view ms k) /\
  exists cms', cacheMS_Write (w_ms w) = (Ok tt, cms') /\ ms_wf (cms_parent cms') /\
    forall k, ms_view (cms_parent cms') k = sm_stores (w_ms v) !! k.
Proof.
  pose proof (cache_run_spec p ms meters Hp Hw) as Hs.
  destruct (interp p (mk_World (newCacheMultiStore ms) meters)) as [r w],
    (interp p (mk_World (spec_of ms) meters)) as [r' v].
  destruct Hs as (Hr & Hm & [Hww Hf] & [_ Hpv] & Hv). split_and!; [done..|].
  destruct (cacheMS_Write_run _ _ (w_ms w) Hww Hf) as (cms' & HW & Hw' & Hv' & _).
  exists cms'. split_and!; [done..|]. intros k. by rewrite Hv', Hv.
Qed.

(** ** Witnesses *)

#[local] Existing Instance model_LibDB.
#[local] Existing Instance model_LibDBLaws.

Definition example_key : StoreKey := mk_StoreKey 1 "acc".
Definition example_ms : spec_ms := mk_spec_ms {[ example_key := {[ [Byte.x01] := [Byte.x07] ]} ]} ∅.

(** Overwrites a key, reads it back and runs out of gas on the next write. *)
Definition example_prog : prog slice :=
  StoreOp 0 example_key (OpSet [Byte.x01] [Byte.x02]) (fun _ =>
  StoreOp 0 example_key (OpGet [Byte.x01]) (fun r =>
  ConsumeOp 0 5 "example" (Ret (match r with RValue v => v | _ => None end)))).

Lemma example_prog_ok : prog_ok example_prog.
Proof. repeat split. Qed.

Lemma example_ms_wf : ms_wf example_ms.
Proof. by split. Qed.

Lemma interp_refines_maps_witness :
  let '(r, w) := interp example_prog (mk_World example_ms [basicGasMeter 100 0]) in
  r = Ok (Some [Byte.x02]) /\ ms_wf (w_ms w).
Proof.
  pose proof (interp_refines_maps example_prog example_ms [basicGasMeter 100 0]
    example_prog_ok example_ms_wf) as H.
  destruct (interp example_prog (mk_World example_ms [basicGasMeter 100 0])) as [r w] eqn:E.
  split; [|].
  - apply (f_equal fst) in E. simpl in E. etransitivity; [symmetry; exact E|vm_compute; reflexivity].
  - destruct (interp example_prog (mk_World (spec_of example_ms) [basicGasMeter 100 0])) as [r' v].
    apply H.
Defined.

Lemma cacheMS_transaction_witness :
  let '(r, w) := interp example_prog (mk_World (newCacheMultiStore example_ms) [basicGasMeter 40 0]) in
  r = Ok (Some [Byte.x02]) /\
  (forall k, ms_view (cms_parent (w_ms w)) k = ms_view example_ms k) /\
  exists cms', cacheMS_Write (w_ms w) = (Ok tt, cms').
Proof.
  pose proof (cacheMS_transaction example_prog example_ms [basicGasMeter 40 0]
    example_prog_ok example_ms_wf) as H.
  destruct (interp example_prog (mk_World (newCacheMultiStore example_ms) [basicGasMeter 40 0]))
    as [r w] eqn:E.
  destruct (interp example_prog (mk_World (spec_of example_ms) [basicGasMeter 40 0])) as [r' v].
  destruct H as (_ & _ & Hv & cms' & HW & _). split; [|split; [exact Hv|exists cms'; exact HW]].
  apply (f_equal fst) in E. simpl in E. etransitivity; [symmetry; exact E|vm_compute; reflexivity].
Defined.
