(* ===== verification/ProgLogic.v ===== *)
(** * Reasoning about handler programs

    [pspec m p st Q E]: on the maps [st], with any gas meter at [m], the
    program either returns [a] with maps that satisfy [Q a], or panics with a
    value in [E], or runs out of gas - the last only on a meter with a limit.
    By [interp_sim] what is shown here holds on every multi-store. *)
From Stdlib Require Import Strings.Byte Strings.String.
From S2P Require Import Prelude Errors KVStore GasKV MultiStore Account Context.
#[local] Open Scope string_scope.
#[local] Open Scope list_scope.
#[local] Open Scope Z_scope.

Abbreviation stores := (@gmap StoreKey StoreKey_eq_dec StoreKey_countable spec_store).

Definition has_limit (g : GasMeter) : bool :=
  match g with basicGasMeter _ _ => true | infiniteGasMeter _ => false end.

Definition out_of_gas (limited : bool) (q : panic_value) : Prop :=
  limited = true /\ exists d, q = ErrorOutOfGas d.

(** ** Gas-metered operations on a store, whatever the meter *)

Lemma ConsumeGas_cases amount d g :
  (exists g', ConsumeGas amount d g = (Ok tt, g') /\ has_limit g' = has_limit g) \/
  (exists g', ConsumeGas amount d g = (Panicked (ErrorOutOfGas d), g') /\
     has_limit g' = has_limit g /\ has_limit g = true).
Proof.
  destruct g as [limit c|c]; simpl; [|left; by eexists].
  destruct (limit <? wrap64 (c + amount)); [right|left]; by eexists.
Qed.

(** [metered m s a Q]: [m] returns [a] with [Q], or runs out of gas; the meter
    keeps its kind. *)
Definition metered {T A} (meterOf : T -> GasMeter) (m : M T A) (s : T) (a : A) (Q : T -> Prop) : Prop :=
  match m s with
  | (Ok a', s') => a' = a /\ has_limit (meterOf s') = has_limit (meterOf s) /\ Q s'
  | (Panicked q, s') => out_of_gas (has_limit (meterOf s)) q /\
      has_limit (meterOf s') = has_limit (meterOf s)
  end.

Lemma metered_bind {T A B} (mo : T -> GasMeter) (m : M T A) (f : A -> M T B) s a b (P Q : T -> Prop) :
  metered mo m s a P -> (forall s', P s' -> metered mo (f a) s' b Q) -> metered mo (m ≫= f) s b Q.
Proof.
  unfold metered, mbind, M_bind. intros Hm Hf. destruct (m s) as [[a'|q] s1]; [|done].
  destruct Hm as (-> & Hl & HP). specialize (Hf s1 HP). rewrite Hl in Hf.
  by destruct (f a s1) as [[b'|q] s2].
Qed.

Lemma metered_ret {T A} (mo : T -> GasMeter) (a : A) s (Q : T -> Prop) : Q s -> metered mo (mret a) s a Q.
Proof. intros HQ. by repeat split. Qed.

Section metered.
Context {P : Type} `{KVStoreLaws P}.

Lemma metered_meter amount d (gi : gasKVStore P) (Q : gasKVStore P -> Prop) :
  (forall g, Q (mk_gasKVStore g (gi_parent gi))) ->
  metered gi_gasMeter (onMeter (ConsumeGas amount d)) gi tt Q.
Proof.
  intros HQ. unfold metered, onMeter, zoom.
  destruct (ConsumeGas_cases amount d (gi_gasMeter gi)) as [(g & -> & Hl)|(g & -> & Hl & ?)]; simpl;
    [split_and!; [done|done|apply HQ]|split; [split; [done|by eexists]|done]].
Qed.

Definition parent_is (W : gmap bytes bytes) (gi : gasKVStore P) : Prop :=
  wf (gi_parent gi) /\ view (gi_parent gi) = W.

Lemma metered_parent {A} (m : M P A) (gi : gasKVStore P) a W :
  steps m (gi_parent gi) a (fun p => wf p /\ view p = W) ->
  metered gi_gasMeter (onGasParent m) gi a (parent_is W).
Proof. intros (p & Hm & HQ). unfold metered, onGasParent, zoom. by rewrite Hm. Qed.

Lemma metered_iter_meter amount d (st : gasKVStore P * Iter) (Q : gasKVStore P * Iter -> Prop) :
  (forall g, Q (mk_gasKVStore g (gi_parent st.1), st.2)) ->
  metered (fun st => gi_gasMeter st.1) (onIterMeter (ConsumeGas amount d)) st tt Q.
Proof.
  intros HQ. unfold metered, onIterMeter, onMeter, zoom.
  destruct (ConsumeGas_cases amount d (gi_gasMeter st.1)) as [(g & -> & Hl)|(g & -> & Hl & ?)]; simpl;
    [split_and!; [done|done|apply HQ]|split; [split; [done|by eexists]|done]].
Qed.

Definition scan_inv (V : gmap bytes bytes) (asc : bool) (l : list (bytes * bytes))
    (st : gasKVStore P * Iter) : Prop :=
  wf (gi_parent st.1) /\ view (gi_parent st.1) = V /\ iter_rep asc st.2 l.

Lemma scan_inv_step {A} V (m : M (P * Iter) A) st a asc l l' :
  scan_inv V asc l st ->
  steps m (gi_parent st.1, st.2) a (fun '(p, it) =>
    wf p /\ view p = view (gi_parent st.1) /\ iter_rep asc it l') ->
  metered (fun st => gi_gasMeter st.1) (onIterParent m) st a (scan_inv V asc l').
Proof.
  intros (Hw & Hv & Hr) ([p it] & Hm & Hw' & Hv' & Hr'). unfold metered, onIterParent, zoom. rewrite Hm.
  split_and!; [done..|]. split_and!; simpl; [done|congruence|done].
Qed.

Lemma metered_scan V n asc st l :
  scan_inv V asc l st ->
  metered (fun st => gi_gasMeter st.1) (scan n) st ((fun p => (Some p.1, Some p.2)) <$> take n l)
    (fun st' => wf (gi_parent st'.1) /\ view (gi_parent st'.1) = V).
Proof.
  assert (Hmeter : forall amount d s l, scan_inv V asc l s ->
    metered (fun st => gi_gasMeter st.1) (onIterMeter (ConsumeGas amount d)) s tt (scan_inv V asc l)).
  { intros amount d s l' Hs. by apply metered_iter_meter. }
  revert st l. induction n as [|n IH]; intros st l Hst; [apply metered_ret; by destruct Hst as (? & ? & _)|].
  simpl scan.
  eapply metered_bind; [eapply scan_inv_step; [done|]; apply law_Valid; apply Hst|].
  intros s1 Hs1. destruct l as [|[k v] l]; [apply metered_ret; by destruct Hs1 as (? & ? & _)|]. simpl.
  eapply (metered_bind _ _ _ _ _ _ (scan_inv V asc ((k, v) :: l))).
  { eapply metered_bind; [by apply Hmeter|]. intros s Hs.
    eapply scan_inv_step; [done|]. apply law_Key; apply Hs. }
  intros s2 Hs2. eapply (metered_bind _ _ _ _ _ _ (scan_inv V asc ((k, v) :: l))).
  { eapply metered_bind; [eapply scan_inv_step; [done|]; apply law_Value; apply Hs2|]. intros s Hs.
    eapply metered_bind; [by apply Hmeter|]. intros s' Hs'.
    eapply metered_bind; [by apply Hmeter|]. intros s'' Hs''. by apply metered_ret. }
  intros s3 Hs3. eapply metered_bind; [eapply scan_inv_step; [done|]; eapply law_Next; apply Hs3|].
  intros s4 Hs4. eapply metered_bind; [by apply IH|]. intros s5 [Hw5 Hv5]. by apply metered_ret.
Qed.

Lemma metered_with_iter {A} (m : M (gasKVStore P * Iter (S:=gasKVStore P)) A) gi it a (Q : gasKVStore P -> Prop) :
  metered (fun st => gi_gasMeter st.1) m (gi, it) a (fun st => Q st.1) ->
  exists it', metered gi_gasMeter (with_iter (S:=gasKVStore P) it m) gi (a, it') Q.
Proof.
  unfold metered. destruct (m (gi, it)) as [[a'|q] [gi' it']] eqn:E.
  - intros (Ha & Hl & HQ). exists it'.
    rewrite (with_iter_Ok (S:=gasKVStore P) (H:=gasKV_KVStore) m gi it a' gi' it' E).
    split; [by rewrite Ha|split; [exact Hl|exact HQ]].
  - intros H'. exists it. by rewrite (with_iter_Panicked (S:=gasKVStore P) (H:=gasKV_KVStore) m gi it q gi' it' E).
Qed.

Lemma metered_run_op op (gi : gasKVStore P) :
  op_ok op -> (op_descending op = true -> KVStoreReverse P) -> wf (gi_parent gi) ->
  metered gi_gasMeter (run_op op) gi (spec_op op (view (gi_parent gi)))
    (parent_is (spec_upd op (view (gi_parent gi)))).
Proof.
  intros Hok Hrev Hw. set (V := view (gi_parent gi)).
  set (I := parent_is V).
  assert (HI : I gi) by done.
  assert (Hm : forall amount d s, I s -> metered gi_gasMeter (onMeter (ConsumeGas amount d)) s tt I).
  { intros ? ? s Hs. by apply metered_meter. }
  set (I' := parent_is (spec_upd op V)).
  assert (Hret : forall A (m : M (gasKVStore P) A) a r, metered gi_gasMeter m gi a I' ->
    metered gi_gasMeter (a ← m; mret (r a)) gi (r a : kv_result) I').
  { intros A m a r Hma. eapply metered_bind; [exact Hma|]. intros s Hs. by apply metered_ret. }
  destruct op as [k|k|k v|k|asc start end_ n]; simpl.
  - apply (Hret _ _ (V !! k) RValue). eapply metered_bind; [by apply Hm|].
    intros s [Hw1 Hv1]. eapply (metered_bind _ _ _ _ _ _ I); [unfold I; rewrite <- Hv1; by apply metered_parent, law_Get|].
    intros s2 Hs2. eapply metered_bind; [by apply Hm|]. intros s3 Hs3. rewrite Hv1. by apply metered_ret.
  - apply (Hret _ _ (bool_decide (is_Some (V !! k))) RBool). eapply metered_bind; [by apply Hm|].
    intros s [Hw1 Hv1]. unfold I', spec_upd. rewrite <- Hv1. by apply metered_parent, law_Has.
  - apply (Hret _ _ tt (fun _ => RUnit)). eapply metered_bind; [by apply Hm|].
    intros s Hs. eapply metered_bind; [by apply Hm|]. intros s1 [Hw1 Hv1].
    unfold I', spec_upd. rewrite <- Hv1. by apply metered_parent, law_Set.
  - apply (Hret _ _ tt (fun _ => RUnit)). by apply metered_parent, law_Delete.
  - assert (exists it l, is_range asc start end_ V l /\ iter_rep asc it l /\
      steps (if asc then Iterator start end_ else ReverseIterator start end_) (gi_parent gi) it
        (fun s' => wf s' /\ view s' = V)) as (it & l & Hl & Hr & Hrun).
    { destruct asc; [by apply law_Iterator|by apply Hrev]. }
    rewrite <- (is_range_unique _ _ _ _ _ _ Hl (range_spec asc start end_ V)).
    eapply (metered_bind _ _ _ _ it _ I).
    { apply metered_parent in Hrun. by destruct asc. }
    intros s1 [Hw1 Hv1].
    destruct (metered_with_iter (scan (S:=gasKVStore P) n) s1 it
      ((fun p => (Some p.1, Some p.2)) <$> take n l) I) as [it' Hrun'].
    { by apply (metered_scan V n asc). }
    eapply metered_bind; [exact Hrun'|]. intros s2 Hs2. by apply metered_ret.
Qed.
End metered.

(** ** Specifications of programs *)

Definition flags (meters : list GasMeter) : list bool := has_limit <$> meters.

Definition pspec {A : Type} (m : meter_ptr) (p : prog A) (st : stores)
    (Q : A -> stores -> Prop) (E : panic_value -> Prop) : Prop :=
  forall db meters g, meters !! m = Some g ->
  match interp p (mk_World (mk_spec_ms st db) meters) with
  | (Ok a, w) => Q a (sm_stores (w_ms w)) /\ flags meters `prefix_of` flags (w_meters w)
  | (Panicked q, w) => E q \/ out_of_gas (has_limit g) q
  end.

(** No panic of the program's own. *)
Definition no_panic (q : panic_value) : Prop := False.

Lemma flags_lookup meters meters' m g :
  flags meters `prefix_of` flags meters' -> meters !! m = Some g ->
  exists g', meters' !! m = Some g' /\ has_limit g' = has_limit g.
Proof.
  intros Hp Hm. assert (Hl : flags meters !! m = Some (has_limit g)).
  { unfold flags. by rewrite list_lookup_fmap, Hm. }
  apply (prefix_lookup_Some _ _ _ _ Hl) in Hp. unfold flags in Hp.
  rewrite list_lookup_fmap in Hp. destruct (meters' !! m) as [g'|]; [|done].
  exists g'. split; [done|]. simpl in Hp. congruence.
Qed.

Lemma flags_insert meters m g g' :
  meters !! m = Some g -> has_limit g' = has_limit g -> flags (<[m := g']> meters) = flags meters.
Proof.
  intros Hm Hl. unfold flags. rewrite list_fmap_insert, Hl. apply list_insert_id.
  by rewrite list_lookup_fmap, Hm.
Qed.

Lemma pspec_ret {A : Type} (m : meter_ptr) (a : A) (st : stores) (Q : A -> stores -> Prop) (E : panic_value -> Prop) :
  Q a st -> pspec m (mret a) st Q E.
Proof. intros HQ db meters g Hg. by split. Qed.

Lemma pspec_bind {A B : Type} (m : meter_ptr) (p : prog A) (f : A -> prog B) (st : stores) (Q : B -> stores -> Prop) (E : panic_value -> Prop) :
  pspec m p st (fun a st' => pspec m (f a) st' Q E) E -> pspec m (p ≫= f) st Q E.
Proof.
  intros Hp db meters g Hg. specialize (Hp db meters g Hg). rewrite interp_bind. unfold mbind, M_bind.
  destruct (interp p _) as [[a|q] w]; [|exact Hp]. destruct Hp as [Hf Hpre].
  destruct (flags_lookup _ _ _ _ Hpre Hg) as (g' & Hg' & Hl).
  destruct w as [[st' db'] meters']. specialize (Hf db' meters' g' Hg'). simpl in Hf, Hpre.
  destruct (interp (f a) _) as [[b|q] w']; [|by rewrite <- Hl].
  destruct Hf as [HQ Hpre']. split; [done|]. by etransitivity.
Qed.

Lemma pspec_mono {A : Type} (m : meter_ptr) (p : prog A) (st : stores) (Q Q' : A -> stores -> Prop)
    (E E' : panic_value -> Prop) :
  pspec m p st Q E -> (forall a st', Q a st' -> Q' a st') -> (forall q, E q -> E' q) ->
  pspec m p st Q' E'.
Proof.
  intros Hp HQ HE db meters g Hg. specialize (Hp db meters g Hg).
  destruct (interp p _) as [[a|q] w]; destruct Hp; eauto.
Qed.

(** The consequence rule in front of a sequence: how the specification of a
    procedure is used where it is called. *)
Lemma pspec_call {A B : Type} (m : meter_ptr) (p : prog A) (f : A -> prog B) (st : stores) (P : A -> stores -> Prop)
    (Q : B -> stores -> Prop) (E : panic_value -> Prop) :
  pspec m p st P E -> (forall a st', P a st' -> pspec m (f a) st' Q E) -> pspec m (p ≫= f) st Q E.
Proof. intros Hp Hf. apply pspec_bind. by eapply pspec_mono. Qed.

Lemma pspec_lift {A : Type} (m : meter_ptr) (o : outcome A) (st : stores) (Q : A -> stores -> Prop) (E : panic_value -> Prop) :
  (forall a, o = Ok a -> Q a st) -> (forall q, o = Panicked q -> E q) -> pspec m (lift o) st Q E.
Proof. intros HQ HE db meters g Hg. destruct o; simpl; [by split; auto|left; auto]. Qed.

Lemma pspec_fault {A : Type} (m : meter_ptr) (q : panic_value) (st : stores) (Q : A -> stores -> Prop) (E : panic_value -> Prop) :
  E q -> pspec m (Fault q) st Q E.
Proof. intros HE db meters g Hg. by left. Qed.

Lemma pspec_consume `{Crypto} (ctx : Ctx) (amount : Z) (d : string) (st : stores) (Q : unit -> stores -> Prop) (E : panic_value -> Prop) :
  Q tt st -> pspec (cx_GasMeter ctx) (ctx_ConsumeGas ctx amount d) st Q E.
Proof.
  intros HQ db meters g Hg. simpl. unfold mbind, M_bind, consume_op. simpl. rewrite Hg.
  destruct (ConsumeGas_cases amount d g) as [(g' & -> & Hl)|(g' & -> & Hl & Hb)]; simpl.
  - split; [done|]. by erewrite flags_insert.
  - right. split; [done|by eexists].
Qed.

(** A fresh meter: the rest runs on it. *)
Lemma pspec_new_meter {A : Type} (m : meter_ptr) (g : GasMeter) (k : meter_ptr -> prog A) (st : stores) (Q : A -> stores -> Prop)
    (E : panic_value -> Prop) :
  (forall m', pspec m' (k m') st Q E) -> (has_limit g = true -> forall d, E (ErrorOutOfGas d)) ->
  pspec m (NewMeterOp g k) st Q E.
Proof.
  intros Hk HE db meters g0 Hg0. simpl. unfold mbind, M_bind, new_meter_op. simpl.
  specialize (Hk (length meters) db (meters ++ [g]) g (list_lookup_middle _ _ _ _ eq_refl)).
  destruct (interp (k (length meters)) _) as [[a|q] w].
  - destruct Hk as [HQ Hp]. split; [done|]. etransitivity; [|exact Hp].
    unfold flags. rewrite fmap_app. by eexists.
  - left. destruct Hk as [?|[Hl [d -> ]]]; [done|auto].
Qed.

Lemma pspec_StoreOp {A : Type} (m : meter_ptr) (key : StoreKey) (op : kv_op) (k : kv_result -> prog A) (st : stores) (s : spec_store) (Q : A -> stores -> Prop)
    (E : panic_value -> Prop) :
  st !! key = Some s -> op_ok op ->
  pspec m (k (spec_op op s)) (<[key := spec_upd op s]> st) Q E ->
  pspec m (StoreOp m key op k) st Q E.
Proof.
  intros Hs Hok Hk db meters g Hg. simpl. unfold mbind, M_bind, gas_store_op. simpl. rewrite Hg, Hs.
  pose proof (metered_run_op (H0:=spec_laws) op (NewGasKVStore g s) Hok (fun _ => spec_reverse) I) as Hrun.
  unfold metered in Hrun. change (KVStore.view (NewGasKVStore g s).(gi_parent)) with s in Hrun.
  destruct (run_op op (NewGasKVStore g s)) as [[r|q] gi].
  - destruct Hrun as (-> & Hl & Hw & Hv). simpl in Hl, Hv. change (view _) with (gi_parent gi) in Hv.
    rewrite Hv. specialize (Hk db (<[m := gi_gasMeter gi]> meters) (gi_gasMeter gi)).
    rewrite list_lookup_insert_eq in Hk by (by eapply lookup_lt_Some). specialize (Hk eq_refl).
    rewrite (flags_insert meters m g _ Hg Hl), Hl in Hk. exact Hk.
  - right. apply Hrun.
Qed.

(** The store operations of a context. *)
Section store_ops.
Context `{Crypto} (ctx : Ctx) (key : StoreKey) (st : stores) (s : spec_store)
  (E : panic_value -> Prop).
Hypothesis Hs : st !! key = Some s.

Lemma pspec_Get (k : bytes) (Q : slice -> stores -> Prop) :
  Q (s !! k) st -> pspec (cx_GasMeter ctx) (store_Get ctx key k) st Q E.
Proof.
  intros HQ. apply (pspec_StoreOp _ _ _ _ _ s); [done..|]. simpl.
  rewrite insert_id by done. by apply pspec_ret.
Qed.

Lemma pspec_Has (k : bytes) (Q : bool -> stores -> Prop) :
  Q (bool_decide (is_Some (s !! k))) st -> pspec (cx_GasMeter ctx) (store_Has ctx key k) st Q E.
Proof.
  intros HQ. apply (pspec_StoreOp _ _ _ _ _ s); [done..|]. simpl.
  rewrite insert_id by done. by apply pspec_ret.
Qed.

Lemma pspec_Set (k v : bytes) (Q : unit -> stores -> Prop) :
  Q tt (<[key := <[k := v]> s]> st) -> pspec (cx_GasMeter ctx) (store_Set ctx key k v) st Q E.
Proof. intros HQ. apply (pspec_StoreOp _ _ _ _ _ s); [done..|]. by apply pspec_ret. Qed.

Lemma pspec_Delete (k : bytes) (Q : unit -> stores -> Prop) :
  Q tt (<[key := delete k s]> st) -> pspec (cx_GasMeter ctx) (store_Delete ctx key k) st Q E.
Proof. intros HQ. apply (pspec_StoreOp _ _ _ _ _ s); [done..|]. by apply pspec_ret. Qed.

Lemma pspec_Scan (asc : bool) (start end_ : slice) (n : nat) (Q : list (slice * slice) -> stores -> Prop) :
  good_range start end_ ->
  Q ((fun p => (Some p.1, Some p.2)) <$> take n (range asc start end_ s)) st ->
  pspec (cx_GasMeter ctx) (store_Scan ctx key asc start end_ n) st Q E.
Proof.
  intros Hg HQ. apply (pspec_StoreOp _ _ _ _ _ s); [done..|]. simpl.
  rewrite insert_id by done. by apply pspec_ret.
Qed.
End store_ops.

(** A full iteration. *)
Lemma pspec_Range (ctx_meter : meter_ptr) (key : StoreKey) (st : stores) (s : spec_store)
    (asc : bool) (start end_ : slice) (Q : list (slice * slice) -> stores -> Prop) (E : panic_value -> Prop) :
  st !! key = Some s -> good_range start end_ -> E out_of_memory ->
  Q (slices (range asc start end_ s)) st ->
  pspec ctx_meter (store_Range key asc start end_) st Q E.
Proof.
  intros Hs Hg HE HQ db meters g Hm. simpl. unfold mbind, M_bind, range_op. simpl. rewrite Hs.
  destruct (read_range_spec (S:=spec_store) (H:=spec_KVStore) (H0:=spec_laws) asc start end_ s I Hg
    (fun _ => spec_reverse)) as (s' & _ & Hv & Er).
  change (view (S:=spec_store) (KVStoreLaws:=spec_laws) s) with s in *. change (s' = s) in Hv. subst s'.
  match goal with |- context [let '(_, _) := ?x in _] =>
    replace x with (read_range (S:=spec_store) (H:=spec_KVStore) asc start end_ s) by reflexivity end.
  rewrite Er, insert_id by done. destruct (decide _); [by left|by split].
Qed.

Lemma pspec_Prefix (ctx_meter : meter_ptr) (key : StoreKey) (st : stores) (s : spec_store)
    (asc : bool) (p : bytes) (Q : list (slice * slice) -> stores -> Prop) (E : panic_value -> Prop) :
  st !! key = Some s -> p <> [] -> E out_of_memory ->
  Q (slices (range asc (Some p) (prefix_end p) s)) st ->
  pspec ctx_meter (store_Prefix key asc p) st Q E.
Proof.
  intros Hs Hp HE HQ. unfold store_Prefix. rewrite PrefixEndBytes_eq by done.
  change (pspec ctx_meter (store_Range key asc (Some p) (prefix_end p)) st Q E).
  apply (pspec_Range _ _ _ s); [done|by apply prefix_end_good|done|done].
Qed.

Lemma pspec_iter_Value `{Crypto} (ctx : Ctx) (e : slice * slice) (st : stores)
    (Q : slice -> stores -> Prop) (E : panic_value -> Prop) :
  Q e.2 st -> pspec (cx_GasMeter ctx) (iter_Value ctx e) st Q E.
Proof.
  intros HQ. change (iter_Value ctx e) with
    (ctx_ConsumeGas ctx ValueCostFlat "ValueFlat";;
     ctx_ConsumeGas ctx (wrap64 (ValueCostPerByte * slice_len e.2)) "ValuePerByte";; mret e.2).
  apply pspec_bind, pspec_consume, pspec_bind, pspec_consume. by apply pspec_ret.
Qed.

Lemma pspec_iter_Key `{Crypto} (ctx : Ctx) (e : slice * slice) (st : stores)
    (Q : slice -> stores -> Prop) (E : panic_value -> Prop) :
  Q e.1 st -> pspec (cx_GasMeter ctx) (iter_Key ctx e) st Q E.
Proof.
  intros HQ. change (iter_Key ctx e) with (ctx_ConsumeGas ctx KeyCostFlat "KeyFlat";; mret e.1).
  apply pspec_bind, pspec_consume. by apply pspec_ret.
Qed.

(** ** Deferred actions

    What a panic leaves is not described by [pspec], so the deferred action of
    [OnPanic] is shown safe on any maps with the same stores mounted. *)
Definition same_mounts (st st' : stores) : Prop := forall k, is_Some (st' !! k) <-> is_Some (st !! k).

(** No operation turns a limited meter into an unlimited one. *)
Definition keeps_limit {T A} (meterOf : T -> GasMeter) (m : M T A) : Prop :=
  forall t, has_limit (meterOf (m t).2) = has_limit (meterOf t).

Lemma keeps_limit_bind {T A B} (mo : T -> GasMeter) (m : M T A) (f : A -> M T B) :
  keeps_limit mo m -> (forall a, keeps_limit mo (f a)) -> keeps_limit mo (m ≫= f).
Proof.
  intros Hm Hf t. unfold mbind, M_bind. specialize (Hm t).
  destruct (m t) as [[a|q] t']; [|exact Hm]. rewrite (Hf a t'). exact Hm.
Qed.

Lemma keeps_limit_ret {T A} (mo : T -> GasMeter) (a : A) : keeps_limit mo (mret a).
Proof. done. Qed.

Lemma keeps_limit_ConsumeGas amount d : keeps_limit id (ConsumeGas amount d).
Proof. intros g. by destruct (ConsumeGas_cases amount d g) as [(g' & -> & Hl)|(g' & -> & Hl & _)]. Qed.

Section keeps_limit.
Context {P : Type} `{KVStore P}.

Lemma keeps_limit_onMeter {A} (m : M GasMeter A) :
  keeps_limit id m -> keeps_limit gi_gasMeter (onMeter (P:=P) m).
Proof. intros Hm gi. specialize (Hm (gi_gasMeter gi)). unfold onMeter, zoom. by destruct (m _). Qed.
Lemma keeps_limit_onGasParent {A} (m : M P A) : keeps_limit gi_gasMeter (onGasParent m).
Proof. intros gi. unfold onGasParent, zoom. by destruct (m _). Qed.
Lemma keeps_limit_onIterMeter {A} (m : M GasMeter A) :
  keeps_limit id m -> keeps_limit (fun st => gi_gasMeter st.1) (onIterMeter m).
Proof.
  intros Hm [gi it]. specialize (Hm (gi_gasMeter gi)). unfold onIterMeter, onMeter, zoom. simpl.
  by destruct (m _).
Qed.
Lemma keeps_limit_onIterParent {A} (m : M (P * Iter) A) :
  keeps_limit (fun st => gi_gasMeter st.1) (onIterParent m).
Proof. intros [gi it]. unfold onIterParent, zoom. simpl. by destruct (m _) as [? []]. Qed.

Hint Resolve keeps_limit_ret keeps_limit_ConsumeGas keeps_limit_onMeter keeps_limit_onGasParent
  keeps_limit_onIterMeter keeps_limit_onIterParent : core.

Lemma keeps_limit_scan n : keeps_limit (fun st => gi_gasMeter st.1) (scan (S:=gasKVStore P) n).
Proof.
  induction n as [|n IH]; [done|]. simpl.
  apply keeps_limit_bind; [apply keeps_limit_onIterParent|]. intros [|]; simpl; [|done].
  apply keeps_limit_bind; [apply keeps_limit_bind; intros; auto|]. intros k.
  apply keeps_limit_bind; [|intros v; apply keeps_limit_bind;
    [apply keeps_limit_onIterParent|intros; by apply keeps_limit_bind]].
  repeat (apply keeps_limit_bind; [auto|intros]). done.
Qed.

Lemma keeps_limit_with_iter {A} (m : M (gasKVStore P * Iter (S:=gasKVStore P)) A) it :
  keeps_limit (fun st => gi_gasMeter st.1) m ->
  keeps_limit gi_gasMeter (with_iter (S:=gasKVStore P) it m).
Proof.
  intros Hm gi. specialize (Hm (gi, it)). unfold with_iter.
  by destruct (m (gi, it)) as [[a|q] [gi' it']].
Qed.

Lemma keeps_limit_run_op op : keeps_limit gi_gasMeter (run_op (S:=gasKVStore P) op).
Proof.
  destruct op as [k|k|k v|k|asc start end_ n]; simpl.
  1-4: apply keeps_limit_bind; [|done];
    unfold gasKV_Get, gasKV_Has, gasKV_Set, gasKV_Delete;
    repeat (apply keeps_limit_bind; [auto|intros]); auto.
  apply keeps_limit_bind; [destruct asc; apply keeps_limit_onGasParent|]. intros it.
  apply keeps_limit_bind; [|intros []; done].
  by apply keeps_limit_with_iter, keeps_limit_scan.
Qed.
End keeps_limit.

Lemma interp_flags {A} (p : prog A) (w : World spec_ms) :
  flags (w_meters w) `prefix_of` flags (w_meters (interp p w).2).
Proof.
  assert (Hup : forall meters m g g', meters !! m = Some g -> has_limit g' = has_limit g ->
    flags meters `prefix_of` flags (<[m := g']> meters)).
  { intros. by erewrite flags_insert. }
  revert w. induction p as [A a|A q|A m k op c IH|A m a d c IH|A g c IH|A m c IH|A k asc start end_ c IH
    |A C p IHp h IHh c IH]; intros w; simpl; unfold mbind, M_bind; try done.
  - unfold gas_store_op. destruct (w_meters w !! m) as [g|] eqn:Em; [|done].
    destruct (ms_store (w_ms w) k) as [s|] eqn:Es; [|done].
    assert (Hl : has_limit (gi_gasMeter (run_op op (NewGasKVStore g s)).2) = has_limit g).
    { exact (keeps_limit_run_op (P:=spec_store) op (NewGasKVStore g s)). }
    destruct (run_op op (NewGasKVStore g s)) as [[r|q] gi]; simpl in *; [etransitivity; [|apply IH]|]; by eapply Hup.
  - unfold consume_op. destruct (w_meters w !! m) as [g|] eqn:Em; [|done].
    destruct (ConsumeGas_cases a d g) as [(g' & -> & Hl)|(g' & -> & Hl & _)];
      [etransitivity; [|apply IH]|]; by eapply Hup.
  - etransitivity; [|apply IH]. simpl. unfold flags. rewrite fmap_app. by eexists.
  - unfold consumed_op. destruct (w_meters w !! m) as [g|]; [by apply IH|done].
  - unfold range_op. destruct (ms_store (w_ms w) k) as [s|]; [|done].
    destruct (read_range asc start end_ s) as [[r|q] s']; [|done]. by etransitivity; [|apply IH].
  - specialize (IHp w). destruct (interp p w) as [[b|q] w1]; [etransitivity; [exact IHp|apply IH]|].
    specialize (IHh w1). destruct (interp h w1) as [[] w2]; (etransitivity; [exact IHp|exact IHh]).
Qed.

Lemma interp_mounts {A} (p : prog A) (st : stores) db meters :
  same_mounts st (sm_stores (w_ms (interp p (mk_World (mk_spec_ms st db) meters)).2)).
Proof.
  apply (interp_inv (MS:=spec_ms) (fun ms => same_mounts st (sm_stores ms))); [|done].
  intros ms k s Hms Hk k'. simpl. rewrite <- (Hms k'). destruct (decide (k = k')) as [ <- |Hne].
  - rewrite lookup_insert_eq. split; [intros _; exact Hk|by eexists].
  - by rewrite lookup_insert_ne.
Qed.

Lemma pspec_OnPanic {A B : Type} (m : meter_ptr) (p : prog B) (h : prog unit) (k : B -> prog A)
    (st : stores) (Q : A -> stores -> Prop) (E : panic_value -> Prop) :
  pspec m p st (fun b st' => pspec m (k b) st' Q E) E ->
  (forall st', same_mounts st st' -> pspec m h st' (fun _ _ => True) E) ->
  pspec m (OnPanic p h k) st Q E.
Proof.
  intros Hp Hh db meters g Hg. specialize (Hp db meters g Hg). simpl.
  pose proof (interp_flags p (mk_World (mk_spec_ms st db) meters)) as Hfl.
  pose proof (interp_mounts p st db meters) as Hmt.
  destruct (interp p _) as [[b|q] [[st' db'] meters']]; simpl in *;
    destruct (flags_lookup _ _ _ _ Hfl Hg) as (g' & Hg' & Hl).
  - destruct Hp as [Hk Hpre]. specialize (Hk db' meters' g' Hg').
    destruct (interp (k b) _) as [[a|q] w]; [|by rewrite <- Hl].
    destruct Hk as [HQ Hpre']. split; [done|]. by etransitivity.
  - specialize (Hh st' Hmt db' meters' g' Hg').
    destruct (interp h _) as [[[]|q'] w]; [exact Hp|by rewrite <- Hl].
Qed.

(** ** Partial specifications: any panic is allowed *)

Definition any_panic (q : panic_value) : Prop := True.

Lemma pspec_top {A : Type} (m : meter_ptr) (p : prog A) (st : stores) : pspec m p st (fun _ _ => True) any_panic.
Proof.
  intros db meters g Hg. pose proof (interp_flags p (mk_World (mk_spec_ms st db) meters)) as Hf.
  destruct (interp p _) as [[a|q] w]; [by split|by left].
Qed.

(** A deferred action that only runs on a panic adds nothing to a partial
    specification. *)
Lemma pspec_OnPanic_any {A : Type} (m : meter_ptr) (p : prog A) (h : prog unit) (st : stores)
    (Q : A -> stores -> Prop) :
  pspec m p st Q any_panic -> pspec m (OnPanic p h Ret) st Q any_panic.
Proof.
  intros Hp. apply pspec_OnPanic; [|intros; apply pspec_top].
  eapply pspec_mono; [exact Hp| |done]. intros a st' HQ. by apply (pspec_ret m a).
Qed.

Lemma pspec_lift_any {A : Type} (m : meter_ptr) (o : outcome A) (st : stores) (Q : A -> stores -> Prop) :
  (forall a, o = Ok a -> Q a st) -> pspec m (lift o) st Q any_panic.
Proof. intros HQ. by apply pspec_lift. Qed.

Lemma pspec_fault_any {A : Type} (m : meter_ptr) (q : panic_value) (st : stores) (Q : A -> stores -> Prop) :
  pspec m (Fault q) st Q any_panic.
Proof. by apply pspec_fault. Qed.
