(* ===== verification/Auth.v ===== *)
(** * x/auth: account mapper, fee keeper, standard transactions

    mapper.go, feekeeper.go and stdtx.go.  Encoding is third-party (go-amino):
    [Codec] is what the code calls of it, [CodecLaws] the round trips.  The
    abstract state of the account store is a map from addresses to accounts
    and the next account number ([auth_rep]), that of the fee store the
    collected coins ([fee_rep]); the specifications of the operations are
    stated on them.  An iteration sees the accounts in the order of their
    addresses. *)
From Stdlib Require Import Strings.Byte Strings.String.
From S2P Require Import Prelude Wire Int Coin Errors KVStore MultiStore Account Context ProgLogic.
#[local] Open Scope string_scope.
#[local] Open Scope list_scope.
#[local] Open Scope Z_scope.

(** ** Encoding *)

(** [None] is a returned error. *)
Class Codec `{Crypto} := {
  MarshalAccount : BaseAccount -> option bytes;       (* MarshalBinaryBare(acc) *)
  UnmarshalAccount : bytes -> option BaseAccount;     (* UnmarshalBinaryBare(bz, &acc) *)
  MarshalInt64 : Z -> option bytes;
  UnmarshalInt64 : bytes -> option Z;
  MarshalCoins : Coins -> option bytes;
  UnmarshalCoins : bytes -> option Coins;
}.

(** The values the Go types hold. *)
Definition acc_wf `{Crypto} (acc : BaseAccount) : Prop :=
  amounts_wf (acc_Coins acc) /\ is_int64 (acc_AccountNumber acc) /\ is_int64 (acc_Sequence acc).

Class CodecLaws `{Codec} : Prop := {
  Account_roundtrip : forall acc, acc_wf acc ->
    exists bz, MarshalAccount acc = Some bz /\ UnmarshalAccount bz = Some acc;
  Int64_roundtrip : forall z, is_int64 z ->
    exists bz, MarshalInt64 z = Some bz /\ UnmarshalInt64 bz = Some z;
  Coins_roundtrip : forall c, amounts_wf c ->
    exists bz, MarshalCoins c = Some bz /\ UnmarshalCoins bz = Some c;
}.

(** A setter's result: [if err != nil { panic(err) }]. *)
Definition set_or_panic {A} (r : A * option string) : outcome A :=
  match r with (a, None) => Ok a | (_, Some err) => Panicked (PanicString err) end.

(** ** AccountMapper *)

Definition globalAccountNumberKey : bytes := string_bytes "globalAccountNumber".
Definition account_prefix : bytes := string_bytes "account:".

Definition AddressStoreKey (addr : Address) : bytes := account_prefix ++ addr.

Section mapper.
Context `{Codec}.

Record AccountMapper := mk_AccountMapper { am_key : StoreKey; am_proto : BaseAccount }.

Definition NewAccountMapper (key : StoreKey) (proto : BaseAccount) : AccountMapper :=
  mk_AccountMapper key proto.

(** A new zero struct of the prototype's type. *)
Definition clonePrototype (am : AccountMapper) : BaseAccount := zero_BaseAccount.

Definition encodeAccount (acc : BaseAccount) : outcome bytes := must (MarshalAccount acc) "MarshalBinaryBare".
Definition decodeAccount (bz : bytes) : outcome BaseAccount := must (UnmarshalAccount bz) "UnmarshalBinaryBare".

Context (am : AccountMapper) (ctx : Ctx).

(** A missing account is a nil [Account]. *)
Definition GetAccount (addr : Address) : prog (option BaseAccount) :=
  bz ← store_Get ctx (am_key am) (AddressStoreKey addr);
  match bz with
  | None => mret None
  | Some bz => acc ← lift (decodeAccount bz); mret (Some acc)
  end.

Definition SetAccount (acc : BaseAccount) : prog unit :=
  let addr := GetAddress acc in
  bz ← lift (encodeAccount acc);
  store_Set ctx (am_key am) (AddressStoreKey addr) bz.

Definition GetNextAccountNumber : prog Z :=
  bz ← store_Get ctx (am_key am) globalAccountNumberKey;
  accNumber ← (match bz with
               | None => mret 0
               | Some bz => lift (must (UnmarshalInt64 bz) "UnmarshalBinary")
               end);
  bz ← lift (must (MarshalInt64 (wrap64 (accNumber + 1))) "MustMarshalBinary");
  store_Set ctx (am_key am) globalAccountNumberKey bz;;
  mret accNumber.

Definition NewAccountWithAddress (addr : Address) : prog BaseAccount :=
  let acc := clonePrototype am in
  acc ← lift (set_or_panic (SetAddress acc addr));
  n ← GetNextAccountNumber;
  lift (set_or_panic (SetAccountNumber acc n)).

Definition NewAccount (acc : BaseAccount) : prog BaseAccount :=
  n ← GetNextAccountNumber;
  lift (set_or_panic (SetAccountNumber acc n)).

Definition mapper_GetPubKey (addr : Address) : prog (option PubKey * option sdkError) :=
  acc ← GetAccount addr;
  match acc with
  | None => mret (None, Some (ErrUnknownAddress (HexString addr)))
  | Some acc => mret (GetPubKey acc, None)
  end.

Definition mapper_GetSequence (addr : Address) : prog (Z * option sdkError) :=
  acc ← GetAccount addr;
  match acc with
  | None => mret (0, Some (ErrUnknownAddress (HexString addr)))
  | Some acc => mret (GetSequence acc, None)
  end.

Definition setSequence (addr : Address) (newSequence : Z) : prog (option sdkError) :=
  acc ← GetAccount addr;
  match acc with
  | None => mret (Some (ErrUnknownAddress (HexString addr)))
  | Some acc =>
      acc ← lift (set_or_panic (SetSequence acc newSequence));
      SetAccount acc;;
      mret None
  end.

(** The callback is given the variables it captures and returns them. *)
Fixpoint IterateAccounts_loop {S} (process : BaseAccount -> S -> prog (bool * S))
    (entries : list (slice * slice)) (s : S) : prog S :=
  match entries with
  | [] => mret s
  | iter :: entries =>
      val ← iter_Value ctx iter;
      acc ← lift (decodeAccount (slice_bytes val));
      '(stop, s) ← process acc s;
      if (stop : bool) then mret s else IterateAccounts_loop process entries s
  end.

Definition IterateAccounts {S} (process : BaseAccount -> S -> prog (bool * S)) (s : S) : prog S :=
  entries ← store_Prefix (am_key am) true account_prefix;
  IterateAccounts_loop process entries s.
End mapper.

(** ** FeeCollectionKeeper *)

Definition collectedFeesKey : bytes := string_bytes "collectedFees".

Section feekeeper.
Context `{Codec}.

Record FeeCollectionKeeper := mk_FeeCollectionKeeper { fck_key : StoreKey }.
Definition NewFeeCollectionKeeper (key : StoreKey) : FeeCollectionKeeper := mk_FeeCollectionKeeper key.

Context (fck : FeeCollectionKeeper) (ctx : Ctx).

Definition GetCollectedFees : prog Coins :=
  bz ← store_Get ctx (fck_key fck) collectedFeesKey;
  match bz with
  | None => mret []
  | Some bz => lift (must (UnmarshalCoins bz) "MustUnmarshalBinary")
  end.

Definition setCollectedFees (coins : Coins) : prog unit :=
  bz ← lift (must (MarshalCoins coins) "MustMarshalBinary");
  store_Set ctx (fck_key fck) collectedFeesKey bz.

Definition addCollectedFees (coins : Coins) : prog Coins :=
  old ← GetCollectedFees;
  newCoins ← lift (Plus old coins);
  setCollectedFees newCoins;;
  mret newCoins.

Definition ClearCollectedFees : prog unit := setCollectedFees [].
End feekeeper.

(** ** types/tx_msg.go: Msg and Tx *)

Class Msg (T : Type) := {
  Type_ : T -> string;
  ValidateBasic : T -> outcome (option sdkError);
  GetSignBytes : T -> outcome bytes;
  msg_GetSigners : T -> list Address;
}.

(** ** StdTx *)

Section stdtx.
Context `{Crypto} {T : Type} `{Msg T}.

Record StdFee := mk_StdFee { fee_Amount : Coins; fee_Gas : Z }.
Definition NewStdFee (gas : Z) (amount : Coins) : StdFee := mk_StdFee amount gas.

Record StdSignature := mk_StdSignature {
  sig_PubKey : option PubKey;
  sig_Signature : Signature;
  sig_AccountNumber : Z;
  sig_Sequence : Z
}.

Record StdTx := mk_StdTx {
  tx_Msgs : list T; tx_Fee : StdFee; tx_Signatures : list StdSignature; tx_Memo : string }.

Definition NewStdTx (msgs : list T) (fee : StdFee) (sigs : list StdSignature) (memo : string) : StdTx :=
  mk_StdTx msgs fee sigs memo.

(** An [sdk.Tx]: a StdTx or another implementation. *)
Inductive Tx := TxStd (tx : StdTx) | TxOther (msgs : list T).
Definition GetMsgs (tx : Tx) : list T :=
  match tx with TxStd tx => tx_Msgs tx | TxOther msgs => msgs end.

Definition GetMemo (tx : StdTx) : string := tx_Memo tx.
Definition GetSignatures (tx : StdTx) : list StdSignature := tx_Signatures tx.

(** The loops of GetSigners over all addresses; [seen] is the map's keys. *)
Fixpoint GetSigners_loop (addrs : list Address) (seen : list string) (signers : list Address)
    : list string * list Address :=
  match addrs with
  | [] => (seen, signers)
  | addr :: addrs =>
      if bool_decide (HexString addr ∈ seen) then GetSigners_loop addrs seen signers
      else GetSigners_loop addrs (HexString addr :: seen) (signers ++ [addr])
  end.

Fixpoint GetSigners_msgs (msgs : list T) (seen : list string) (signers : list Address) : list Address :=
  match msgs with
  | [] => signers
  | msg :: msgs =>
      let '(seen, signers) := GetSigners_loop (msg_GetSigners msg) seen signers in
      GetSigners_msgs msgs seen signers
  end.

Definition tx_GetSigners (tx : StdTx) : list Address := GetSigners_msgs (tx_Msgs tx) [] [].

Definition FeePayer (tx : Tx) : outcome Address :=
  match GetMsgs tx with
  | [] => Panicked (RuntimeError "index out of range")
  | msg :: _ => match msg_GetSigners msg with
                | [] => Panicked (RuntimeError "index out of range")
                | addr :: _ => Ok addr
                end
  end.

Record StdSignDoc := mk_StdSignDoc {
  doc_ChainID : string;
  doc_AccountNumber : Z;
  doc_Sequence : Z;
  doc_FeeBytes : bytes;
  doc_MsgsBytes : bytes;
  doc_Memo : string
}.

(** msgCdc.MarshalJSON, at the types it is used at here. *)
Class JSONCodec := {
  MarshalJSON_fee : StdFee -> option bytes;
  MarshalJSON_msgs : list bytes -> option bytes;
  MarshalJSON_doc : StdSignDoc -> option bytes;
}.
Context `{JSONCodec}.

(** A nil Amount is made empty first; the model has one empty Amount. *)
Definition fee_Bytes (fee : StdFee) : outcome bytes := must (MarshalJSON_fee fee) "MarshalJSON".

Fixpoint sign_bytes_of (msgs : list T) : outcome (list bytes) :=
  match msgs with
  | [] => Ok []
  | msg :: msgs => bz ← GetSignBytes msg; rest ← sign_bytes_of msgs; Ok (bz :: rest)
  end.

Definition StdSignBytes (chainID : string) (accnum sequence : Z) (fee : StdFee) (msgs : list T)
    (memo : string) : outcome bytes :=
  msgsBytes ← sign_bytes_of msgs;
  msgBytes ← must (MarshalJSON_msgs msgsBytes) "MarshalJSON";
  feeBytes ← fee_Bytes fee;
  must (MarshalJSON_doc (mk_StdSignDoc chainID accnum sequence feeBytes msgBytes memo)) "MarshalJSON".

Record StdSignMsg := mk_StdSignMsg {
  sm_ChainID : string; sm_AccountNumber : Z; sm_Sequence : Z; sm_Fee : StdFee;
  sm_Msgs : list T; sm_Memo : string }.

Definition StdSignMsg_Bytes (msg : StdSignMsg) : outcome bytes :=
  StdSignBytes (sm_ChainID msg) (sm_AccountNumber msg) (sm_Sequence msg) (sm_Fee msg)
    (sm_Msgs msg) (sm_Memo msg).
End stdtx.

Arguments StdTx {_} T.
Arguments Tx {_} T.

(** ** The abstract account store *)

(** Two states of the stores that differ at most in one. *)
Definition frame (key : StoreKey) (st st' : stores) : Prop :=
  forall k, k <> key -> st' !! k = st !! k.

Lemma frame_refl (key : StoreKey) (st : stores) : frame key st st.
Proof. done. Qed.

Lemma frame_trans (key : StoreKey) (st1 st2 st3 : stores) : frame key st1 st2 -> frame key st2 st3 -> frame key st1 st3.
Proof. intros H1 H2 k Hk. by rewrite H2, H1. Qed.

Lemma frame_insert (key : StoreKey) (s : spec_store) (st : stores) : frame key st (<[key := s]> st).
Proof. intros k Hk. by rewrite lookup_insert_ne. Qed.

#[export] Hint Resolve frame_refl frame_trans frame_insert : sdk.

Lemma AddressStoreKey_inj a b : AddressStoreKey a = AddressStoreKey b -> a = b.
Proof. apply app_inv_head. Qed.

Lemma AddressStoreKey_global a : AddressStoreKey a <> globalAccountNumberKey.
Proof. done. Qed.

Section mapper_spec.
Context `{CodecLaws}.
Variable am : AccountMapper.

(** The store holds the accounts [accs] under their addresses, and [n] is
    the next account number. *)
Definition auth_rep (s : spec_store) (accs : gmap Address BaseAccount) (n : Z) : Prop :=
  (forall addr, match s !! AddressStoreKey addr, accs !! addr with
                | None, None => True
                | Some bz, Some acc => UnmarshalAccount bz = Some acc /\ acc_wf acc /\ acc_Address acc = addr
                | _, _ => False
                end) /\
  match s !! globalAccountNumberKey with
  | None => n = 0
  | Some bz => UnmarshalInt64 bz = Some n
  end /\ is_int64 n.

Definition auth_st (st : stores) (accs : gmap Address BaseAccount) (n : Z) : Prop :=
  exists s, st !! am_key am = Some s /\ auth_rep s accs n.

Lemma auth_st_frame (key : StoreKey) (st st' : stores) (accs : gmap Address BaseAccount) (n : Z) :
  frame key st st' -> key <> am_key am -> auth_st st accs n -> auth_st st' accs n.
Proof. intros Hf Hk (s & Hs & Hr). exists s. by rewrite Hf. Qed.

Lemma auth_st_acc (st : stores) (accs : gmap Address BaseAccount) (n : Z) (addr : Address) (acc : BaseAccount) :
  auth_st st accs n -> accs !! addr = Some acc -> acc_wf acc /\ acc_Address acc = addr.
Proof.
  intros (s & _ & Hr & _) Ha. specialize (Hr addr). rewrite Ha in Hr.
  destruct (s !! AddressStoreKey addr); [|done]. apply Hr.
Qed.

Variable ctx : Ctx.
Abbreviation m := (cx_GasMeter ctx).

Lemma GetAccount_spec (st : stores) (accs : gmap Address BaseAccount) (n : Z) (addr : Address) (Q : option BaseAccount -> stores -> Prop) (E : panic_value -> Prop) :
  auth_st st accs n -> Q (accs !! addr) st -> pspec m (GetAccount am ctx addr) st Q E.
Proof.
  intros (s & Hs & Hr & _) HQ. apply pspec_bind, (pspec_Get _ _ _ s); [done|].
  specialize (Hr addr). destruct (s !! AddressStoreKey addr) as [bz|], (accs !! addr) as [acc|]; [|done|done|].
  - destruct Hr as [Hd _]. apply pspec_bind, pspec_lift; unfold decodeAccount; rewrite Hd; [|done].
    intros a [= <-]. by apply pspec_ret.
  - by apply pspec_ret.
Qed.

Lemma SetAccount_spec (st : stores) (accs : gmap Address BaseAccount) (n : Z) (acc : BaseAccount) (Q : unit -> stores -> Prop) (E : panic_value -> Prop) :
  auth_st st accs n -> acc_wf acc ->
  (forall st', auth_st st' (<[acc_Address acc := acc]> accs) n -> frame (am_key am) st st' -> Q tt st') ->
  pspec m (SetAccount am ctx acc) st Q E.
Proof.
  intros (s & Hs & Hr & Hn) Hwf HQ. destruct (Account_roundtrip acc Hwf) as (bz & He & Hd).
  apply pspec_bind, pspec_lift; unfold encodeAccount; rewrite He; [|done].
  intros bz' [= <-]. apply (pspec_Set _ _ _ s); [done|]. apply HQ; [|apply frame_insert].
  eexists. split; [by rewrite lookup_insert_eq|]. split.
  - intros addr. unfold GetAddress. destruct (decide (acc_Address acc = addr)) as [ <- |Hne].
    + by rewrite !lookup_insert_eq.
    + rewrite !lookup_insert_ne; [apply Hr|done|]. by intros ?%AddressStoreKey_inj.
  - rewrite lookup_insert_ne; [done|apply AddressStoreKey_global].
Qed.

Lemma GetNextAccountNumber_spec (st : stores) (accs : gmap Address BaseAccount) (n : Z) (Q : Z -> stores -> Prop) (E : panic_value -> Prop) :
  auth_st st accs n ->
  (forall st', auth_st st' accs (wrap64 (n + 1)) -> frame (am_key am) st st' -> Q n st') ->
  pspec m (GetNextAccountNumber am ctx) st Q E.
Proof.
  intros (s & Hs & Hr & Hn & Hi) HQ. apply pspec_bind, (pspec_Get _ _ _ s); [done|].
  apply pspec_bind. eapply (pspec_mono _ _ _ (fun z st' => z = n /\ st' = st) _ E); [|intros z st' [-> ->]|done].
  { destruct (s !! globalAccountNumberKey) as [bz|].
    - apply pspec_lift; rewrite Hn; [|done]. by intros a [= <-].
    - by apply pspec_ret. }
  destruct (Int64_roundtrip (wrap64 (n + 1))) as (bz & He & Hd); [auto with sdk|].
  apply pspec_bind, pspec_lift; rewrite He; [|done]. intros bz' [= <-].
  apply pspec_bind, (pspec_Set _ _ _ s); [done|]. apply pspec_ret. apply HQ; [|apply frame_insert].
  eexists. split; [by rewrite lookup_insert_eq|]. split; [|split].
  - intros addr. rewrite lookup_insert_ne; [apply Hr|]. apply not_eq_sym, AddressStoreKey_global.
  - by rewrite lookup_insert_eq.
  - auto with sdk.
Qed.

Lemma NewAccountWithAddress_spec (st : stores) (accs : gmap Address BaseAccount) (n : Z) (addr : Address) (Q : BaseAccount -> stores -> Prop) (E : panic_value -> Prop) :
  auth_st st accs n ->
  (forall st', auth_st st' accs (wrap64 (n + 1)) -> frame (am_key am) st st' ->
     Q (mk_BaseAccount addr [] None n 0) st') ->
  pspec m (NewAccountWithAddress am ctx addr) st Q E.
Proof.
  intros Hst HQ. apply pspec_bind, pspec_lift; [|done]. intros acc [= <-].
  apply pspec_bind. eapply GetNextAccountNumber_spec; [done|]. intros st' Hst' Hf.
  apply pspec_lift; [|done]. intros acc' [= <-]. by apply HQ.
Qed.

(** *** The accounts in the order of their addresses *)

Definition accounts_in_order (accs : gmap Address BaseAccount) : list BaseAccount :=
  (sort_keys true (map_to_list accs)).*2.

(** A pure callback over the accounts, until it says stop. *)
Fixpoint visit {S} (f : BaseAccount -> S -> bool * S) (l : list BaseAccount) (s : S) : S :=
  match l with
  | [] => s
  | acc :: l => let '(stop, s) := f acc s in if stop : bool then s else visit f l s
  end.

Lemma accounts_in_order_elem accs acc : acc ∈ accounts_in_order accs <-> exists a, accs !! a = Some acc.
Proof.
  unfold accounts_in_order. rewrite list_elem_of_fmap. split.
  - intros ([a x] & -> & Hin). rewrite sort_keys_Permutation in Hin. exists a. by apply elem_of_map_to_list.
  - intros [a Ha]. exists (a, acc). split; [done|]. rewrite sort_keys_Permutation. by apply elem_of_map_to_list.
Qed.

(** Each account once, by its address. *)
Lemma accounts_in_order_sorted accs :
  (forall a acc, accs !! a = Some acc -> acc_Address acc = a) ->
  StronglySorted bytes_lt (acc_Address <$> accounts_in_order accs).
Proof.
  intros Ha. unfold accounts_in_order. pose proof (sort_keys_sorted true _ (NoDup_fst_map_to_list accs)) as Hs.
  assert (Hl : Forall (fun p => acc_Address p.2 = p.1) (sort_keys true (map_to_list accs))).
  { apply Forall_forall. intros [a acc] Hin. rewrite sort_keys_Permutation in Hin. by apply Ha, elem_of_map_to_list. }
  revert Hs Hl. generalize (sort_keys true (map_to_list accs)). clear Ha. intros l Hs Hl.
  induction Hs as [|p l Hs IH Hf]; simpl; [constructor|]. apply Forall_cons in Hl as [Hp Hl].
  constructor; [by apply IH|]. rewrite Hp. clear IH Hs. induction Hf; simpl; constructor;
    apply Forall_cons in Hl as [Hx Hl]; [by rewrite Hx|auto].
Qed.

(** The entries under the prefix are the accounts, encoded, in that order. *)
Lemma accounts_range s accs n :
  auth_rep s accs n ->
  Forall2 (fun kv acc => UnmarshalAccount kv.2 = Some acc)
    (range true (Some account_prefix) (prefix_end account_prefix) s) (accounts_in_order accs).
Proof.
  intros [Hr _]. set (enc := fun p : Address * BaseAccount => (AddressStoreKey p.1, default [] (s !! AddressStoreKey p.1))).
  assert (Hs : forall a acc, accs !! a = Some acc ->
    exists bz, s !! AddressStoreKey a = Some bz /\ UnmarshalAccount bz = Some acc).
  { intros a acc Ha. specialize (Hr a). rewrite Ha in Hr. destruct (s !! AddressStoreKey a) as [bz|]; [|done].
    exists bz. by destruct Hr. }
  rewrite (is_range_unique _ _ _ _ _ (enc <$> sort_keys true (map_to_list accs)) (range_spec _ _ _ _)).
  - unfold accounts_in_order. apply Forall2_fmap_l, Forall2_fmap_r, Forall_Forall2_diag, Forall_forall.
    intros [a acc] Hin. rewrite sort_keys_Permutation in Hin. apply elem_of_map_to_list, Hs in Hin as (bz & E & Hd).
    simpl. by rewrite E.
  - split.
    + pose proof (sort_keys_sorted true _ (NoDup_fst_map_to_list accs)) as Ho. revert Ho.
      generalize (sort_keys true (map_to_list accs)). induction 1 as [|p l Ho IH Hf]; simpl; [constructor|].
      constructor; [done|]. apply Forall_fmap. eapply Forall_impl; [exact Hf|]. intros q Hq.
      change (bytes_lt (account_prefix ++ p.1) (account_prefix ++ q.1)). unfold bytes_lt.
      rewrite bytes_compare_app. exact Hq.
    + intros k v. rewrite list_elem_of_fmap, prefix_end_domain. split.
      * intros ([a acc] & E & Hin). rewrite sort_keys_Permutation in Hin. apply elem_of_map_to_list, Hs in Hin as (bz & Eb & _).
        unfold enc in E. simpl in E. rewrite Eb in E. injection E as -> ->. split; [done|]. by exists a.
      * intros [Hk [a ->]]. specialize (Hr a). change (account_prefix ++ a) with (AddressStoreKey a) in Hk.
        rewrite Hk in Hr. destruct (accs !! a) as [acc|] eqn:Ha; [|done]. exists (a, acc).
        rewrite sort_keys_Permutation, elem_of_map_to_list. split; [|done]. unfold enc. simpl. by rewrite Hk.
Qed.

(** A callback that only looks at the accounts sees each once, in the order of
    the addresses, until it says stop. *)
Lemma IterateAccounts_spec {S} (f : BaseAccount -> S -> bool * S) (x : S) (st : stores)
    (accs : gmap Address BaseAccount) (n : Z) (Q : S -> stores -> Prop) (E : panic_value -> Prop) :
  auth_st st accs n -> E out_of_memory -> Q (visit f (accounts_in_order accs) x) st ->
  pspec m (IterateAccounts am ctx (fun acc s => mret (f acc s)) x) st Q E.
Proof.
  intros (s & Hs & Hr) HE HQ. apply pspec_bind, (pspec_Prefix _ _ _ s); [done..|].
  apply accounts_range in Hr. revert x HQ.
  induction Hr as [|[k bz] acc l accs' Hd _ IH]; intros x HQ; [by apply pspec_ret|].
  apply pspec_bind, pspec_iter_Value, pspec_bind, pspec_lift; unfold decodeAccount; simpl; simpl in Hd; rewrite Hd; [|done].
  intros a [= <-]. simpl in HQ. destruct (f acc x) as [[] x']; [by apply pspec_ret|by apply IH].
Qed.
End mapper_spec.

(** ** The coins of all accounts *)

Section total.
Context `{Crypto}.

Definition coins_at (accs : gmap Address BaseAccount) (a : Address) : Coins :=
  from_option acc_Coins [] (accs !! a).

(** How much of a denomination the accounts hold together. *)
Definition total (accs : gmap Address BaseAccount) (d : string) : Z :=
  map_total (fun _ acc => amt (acc_Coins acc) d) accs.

Lemma total_insert (accs : gmap Address BaseAccount) (a : Address) (acc : BaseAccount) (d : string) :
  total (<[a := acc]> accs) d = total accs d - amt (coins_at accs a) d + amt (acc_Coins acc) d.
Proof. unfold total, coins_at. rewrite map_total_insert. by destruct (accs !! a). Qed.
End total.

(** ** The abstract fee store *)

Section fee_spec.
Context `{CodecLaws}.
Variable fck : FeeCollectionKeeper.

Definition fee_st (st : stores) (fees : Coins) : Prop :=
  exists s, st !! fck_key fck = Some s /\
  match s !! collectedFeesKey with
  | None => fees = []
  | Some bz => UnmarshalCoins bz = Some fees
  end.

Lemma fee_st_frame (key : StoreKey) (st st' : stores) (fees : Coins) :
  frame key st st' -> key <> fck_key fck -> fee_st st fees -> fee_st st' fees.
Proof. intros Hf Hk (s & Hs & Hr). exists s. by rewrite Hf. Qed.

Variable ctx : Ctx.
Abbreviation m := (cx_GasMeter ctx).

Lemma GetCollectedFees_spec (st : stores) (fees : Coins) (Q : Coins -> stores -> Prop) (E : panic_value -> Prop) :
  fee_st st fees -> Q fees st -> pspec m (GetCollectedFees fck ctx) st Q E.
Proof.
  intros (s & Hs & Hr) HQ. apply pspec_bind, (pspec_Get _ _ _ s); [done|].
  destruct (s !! collectedFeesKey) as [bz|].
  - apply pspec_lift; rewrite Hr; [|done]. by intros a [= <-].
  - subst. by apply pspec_ret.
Qed.

Lemma setCollectedFees_spec (st : stores) (fees coins : Coins) (Q : unit -> stores -> Prop) (E : panic_value -> Prop) :
  fee_st st fees -> amounts_wf coins ->
  (forall st', fee_st st' coins -> frame (fck_key fck) st st' -> Q tt st') ->
  pspec m (setCollectedFees fck ctx coins) st Q E.
Proof.
  intros (s & Hs & Hr) Hwf HQ. destruct (Coins_roundtrip coins Hwf) as (bz & He & Hd).
  apply pspec_bind, pspec_lift; rewrite He; [|done]. intros bz' [= <-].
  apply (pspec_Set _ _ _ s); [done|]. apply HQ; [|apply frame_insert].
  eexists. split; [by rewrite lookup_insert_eq|]. by rewrite lookup_insert_eq.
Qed.

Lemma addCollectedFees_spec (st : stores) (fees coins : Coins) (Q : Coins -> stores -> Prop) (E : panic_value -> Prop) :
  fee_st st fees -> (forall c, Plus fees coins = Ok c -> amounts_wf c) ->
  (forall q, Plus fees coins = Panicked q -> E q) ->
  (forall c st', Plus fees coins = Ok c -> fee_st st' c -> frame (fck_key fck) st st' -> Q c st') ->
  pspec m (addCollectedFees fck ctx coins) st Q E.
Proof.
  intros Hst Hwf HE HQ. apply pspec_bind. eapply GetCollectedFees_spec; [done|].
  apply pspec_bind, pspec_lift; [|done]. intros c Hc. apply pspec_bind.
  eapply setCollectedFees_spec; [done|auto|]. intros st' Hst' Hf. apply pspec_ret. by apply HQ.
Qed.
End fee_spec.

(** ** Who must sign *)

Section signers.
Context `{CryptoLaws} {T : Type} `{Msg T}.

Lemma GetSigners_msgs_concat (msgs : list T) seen signers :
  GetSigners_msgs msgs seen signers = (GetSigners_loop (msgs ≫= msg_GetSigners) seen signers).2.
Proof.
  revert seen signers. induction msgs as [|msg msgs IH]; intros seen signers; [done|].
  simpl. change (mbind msg_GetSigners) with (fun l : list T => l ≫= msg_GetSigners).
  assert (Happ : forall l1 l2 sn sg, GetSigners_loop (l1 ++ l2) sn sg =
    let '(sn', sg') := GetSigners_loop l1 sn sg in GetSigners_loop l2 sn' sg').
  { induction l1 as [|a l1 IHl]; intros l2 sn sg; simpl; [done|]. by case_bool_decide. }
  rewrite Happ. destruct (GetSigners_loop (msg_GetSigners msg) seen signers) as [sn sg]. apply IH.
Qed.

Lemma GetSigners_loop_spec addrs seen signers :
  (forall a, HexString a ∈ seen <-> a ∈ signers) -> NoDup signers ->
  let sg := (GetSigners_loop addrs seen signers).2 in
  NoDup sg /\ (forall a, a ∈ sg <-> a ∈ signers \/ a ∈ addrs) /\ signers `prefix_of` sg.
Proof.
  revert seen signers. induction addrs as [|a addrs IH]; intros seen signers Hs Hn; simpl.
  { split_and!; [done| |done]. intros b. split; [by left|]. intros [|Hb]; [done|by inversion Hb]. }
  case_bool_decide as Ha.
  - destruct (IH seen signers Hs Hn) as (Hnd & Hel & Hp). split_and!; [done| |done].
    intros b. rewrite Hel, elem_of_cons. split; [tauto|]. intros [?|[ -> |?]]; [tauto| |tauto].
    left. by apply Hs.
  - destruct (IH (HexString a :: seen) (signers ++ [a])) as (Hnd & Hel & Hp).
    + intros b. rewrite elem_of_cons, elem_of_app, Hs. rewrite list_elem_of_singleton. split.
      * intros [Hb|?]; [right; by apply HexString_inj|by left].
      * intros [?| -> ]; [by right|by left].
    + apply NoDup_app. split_and!; [done| |by apply NoDup_singleton].
      intros b Hb. rewrite list_elem_of_singleton. intros ->. by apply Ha, Hs.
    + split_and!; [done| |].
      * intros b. rewrite Hel, elem_of_app, list_elem_of_singleton, elem_of_cons. tauto.
      * etransitivity; [by apply prefix_app_r|exact Hp].
Qed.

Lemma tx_GetSigners_spec (tx : StdTx T) :
  NoDup (tx_GetSigners tx) /\
  (forall a, a ∈ tx_GetSigners tx <-> exists msg, msg ∈ tx_Msgs tx /\ a ∈ msg_GetSigners msg).
Proof.
  unfold tx_GetSigners. rewrite GetSigners_msgs_concat.
  destruct (GetSigners_loop_spec (tx_Msgs tx ≫= msg_GetSigners) [] []) as (Hn & He & _).
  { intros a. split; intros Ha; inversion Ha. }
  { constructor. }
  split; [done|]. intros a. rewrite He, list_elem_of_bind. split.
  - intros [Ha|(msg & ? & ?)]; [by inversion Ha|by exists msg].
  - intros (msg & ? & ?). right. by exists msg.
Qed.

(** The payer of the fee is the first signer. *)
Lemma FeePayer_first (tx : StdTx T) addr :
  FeePayer (TxStd tx) = Ok addr -> head (tx_GetSigners tx) = Some addr.
Proof.
  unfold FeePayer, tx_GetSigners, GetMsgs. rewrite GetSigners_msgs_concat.
  destruct (tx_Msgs tx) as [|msg msgs]; [done|].
  destruct (msg_GetSigners msg) as [|a addrs] eqn:Em; [done|]. intros [= ->].
  assert (exists rest, (msg :: msgs) ≫= msg_GetSigners = addr :: rest) as [rest Hrest].
  { exists (addrs ++ (msgs ≫= msg_GetSigners)). simpl. by rewrite Em. }
  rewrite Hrest.
  destruct (GetSigners_loop_spec rest [HexString addr] [addr]) as (_ & _ & [l Hl]).
  { intros a. rewrite !list_elem_of_singleton. split; [by intros ?%HexString_inj|by intros ->]. }
  { apply NoDup_singleton. }
  simpl. by rewrite Hl.
Qed.
End signers.

(** ** A concrete encoding, for the witnesses

    Keys are byte strings that are their own addresses; a signature is the key
    followed by the message.  Values are written by the encodings of Wire.v. *)

Definition model_Crypto : Crypto := {|
  PubKey := bytes;
  Signature := bytes;
  PubKey_eq_dec := _;
  PubKey_Address pk := pk;
  PubKey_Bytes pk := pk;
  VerifyBytes pk msg sig := bool_decide (sig = pk ++ msg);
  HexString := string_of_list_byte;
|}.

Lemma model_CryptoLaws : @CryptoLaws model_Crypto.
Proof.
  constructor. simpl. intros a b Hab.
  rewrite <- (list_byte_of_string_of_list_byte a), <- (list_byte_of_string_of_list_byte b). by rewrite Hab.
Qed.

Definition coins_data (c : Coins) : list (string * Z) := (fun c => (Denom c, Amount c)) <$> c.
Definition data_coins (l : list (string * Z)) : Coins := (fun p => mk_Coin p.1 p.2) <$> l.

Lemma data_coins_data c : data_coins (coins_data c) = c.
Proof. unfold data_coins, coins_data. rewrite <- list_fmap_compose. rewrite <- (list_fmap_id c) at 2.
  apply list_fmap_ext. by intros ? []. Qed.

Section model_codec.
#[local] Existing Instance model_Crypto.

Definition account_data (acc : BaseAccount) : bytes * list (string * Z) * option bytes * Z * Z :=
  (acc_Address acc, coins_data (acc_Coins acc), acc_PubKey acc, acc_AccountNumber acc, acc_Sequence acc).
Definition data_account (d : bytes * list (string * Z) * option bytes * Z * Z) : BaseAccount :=
  let '(addr, coins, pk, n, seq) := d in mk_BaseAccount addr (data_coins coins) pk n seq.

Definition model_Codec : Codec := {|
  MarshalAccount acc := Some (ser (account_data acc));
  UnmarshalAccount bz := data_account <$> deser bz;
  MarshalInt64 z := Some (ser z);
  UnmarshalInt64 := deser;
  MarshalCoins c := Some (ser (coins_data c));
  UnmarshalCoins bz := data_coins <$> deser bz;
|}.

Lemma model_CodecLaws : CodecLaws (H0:=model_Codec).
Proof.
  constructor.
  - intros [addr coins pk n seq] _. eexists. split; [done|]. simpl. rewrite deser_ser. simpl.
    by rewrite data_coins_data.
  - intros z _. eexists. split; [done|]. apply deser_ser.
  - intros c _. eexists. split; [done|]. simpl. rewrite deser_ser. simpl. by rewrite data_coins_data.
Qed.

(** JSON: documents and fees as their fields. *)
Definition model_JSONCodec : JSONCodec := {|
  MarshalJSON_fee fee := Some (ser (coins_data (fee_Amount fee), fee_Gas fee));
  MarshalJSON_msgs l := Some (ser l);
  MarshalJSON_doc d := Some (ser (doc_ChainID d, doc_AccountNumber d, doc_Sequence d, doc_FeeBytes d,
    doc_MsgsBytes d, doc_Memo d));
|}.
End model_codec.

(** ** Properties *)

(** Account numbers: below the counter, and no two accounts share one. *)
Definition numbers_ok `{Crypto} (accs : gmap Address BaseAccount) (n : Z) : Prop :=
  (forall a x, accs !! a = Some x -> acc_AccountNumber x < n) /\
  (forall a b x y, accs !! a = Some x -> accs !! b = Some y ->
     acc_AccountNumber x = acc_AccountNumber y -> a = b).

(** creating an account (NewAccountWithAddress, then SetAccount) gives it
    the next account number and increments the counter, so account numbers
    stay unique; it cannot panic but by running out of gas, and touches no
    other store. *)
Theorem NewAccount_fresh_number `{CodecLaws} (am : AccountMapper) (ctx : Ctx) (st : stores)
    (accs : gmap Address BaseAccount) (n : Z) (addr : Address)
    (Hst : auth_st am st accs n) (Hok : numbers_ok accs n) (Hn : n < max_int64) :
  pspec (cx_GasMeter ctx)
    (acc ← NewAccountWithAddress am ctx addr; SetAccount am ctx acc;; mret acc) st
    (fun acc st' => acc = mk_BaseAccount addr [] None n 0 /\
       auth_st am st' (<[addr := acc]> accs) (n + 1) /\ numbers_ok (<[addr := acc]> accs) (n + 1) /\
       frame (am_key am) st st') no_panic.
Proof.
  assert (Hi : is_int64 n) by (destruct Hst as (s & _ & _ & _ & Hi); exact Hi).
  apply pspec_bind. eapply NewAccountWithAddress_spec; [exact Hst|]. intros st1 Hst1 Hf1.
  rewrite wrap64_id in Hst1 by (unfold is_int64 in *; lia).
  apply pspec_bind. eapply SetAccount_spec; [exact Hst1| |].
  { split_and!; [constructor|exact Hi|]. simpl. by unfold is_int64, min_int64, max_int64. }
  intros st2 Hst2 Hf2. apply pspec_ret. split_and!; [done|done| |by eapply frame_trans].
  destruct Hok as [Hlt Hinj]. split.
  - intros a x. rewrite lookup_insert_Some. intros [[_ <-]|[_ Hx]]; simpl; [lia|].
    specialize (Hlt a x Hx). lia.
  - intros a b x y. rewrite !lookup_insert_Some.
    intros [[<- <-]|[Ha Hx]] [[<- <-]|[Hb Hy]] Heq; simpl in *; [done| | |by eapply Hinj].
    + specialize (Hlt b y Hy). lia.
    + specialize (Hlt a x Hx). lia.
Qed.

(** the signers of a transaction are those of its messages, each listed
    once; the first is the fee payer. *)
Theorem tx_GetSigners_dedup `{CryptoLaws} {T : Type} `{Msg T} (tx : StdTx T) :
  NoDup (tx_GetSigners tx) /\
  (forall a, a ∈ tx_GetSigners tx <-> exists msg, msg ∈ tx_Msgs tx /\ a ∈ msg_GetSigners msg) /\
  (forall addr, FeePayer (TxStd tx) = Ok addr -> head (tx_GetSigners tx) = Some addr).
Proof.
  split_and!; [apply tx_GetSigners_spec|apply tx_GetSigners_spec|].
  intros addr. apply FeePayer_first.
Qed.

(** ** Witnesses *)

Section auth_witnesses.
#[local] Existing Instance model_Crypto.
#[local] Existing Instance model_CryptoLaws.
#[local] Existing Instance model_Codec.
#[local] Existing Instance model_CodecLaws.

Definition ex_am : AccountMapper := NewAccountMapper example_key zero_BaseAccount.
Definition ex_ctx : Ctx := NewContext zero_Header false 0.

#[local] Instance list_Msg : Msg (list Address) := {|
  Type_ _ := "list"; ValidateBasic _ := Ok None; GetSignBytes m := Ok (concat m); msg_GetSigners m := m |}.
End auth_witnesses.

Lemma NewAccount_fresh_number_witness :
  pspec 0
    (acc ← NewAccountWithAddress (H0:=model_Codec) ex_am ex_ctx [Byte.x09];
     SetAccount (H0:=model_Codec) ex_am ex_ctx acc;; mret acc)
    {[ example_key := ∅ ]}
    (fun acc st' => acc_AccountNumber acc = 0) no_panic.
Proof.
  assert (Hst : auth_st (H0:=model_Codec) ex_am {[ example_key := ∅ ]} ∅ 0).
  { exists ∅. split; [reflexivity|]. split; [intros addr; exact I|]. split; [reflexivity|].
    split; vm_compute; discriminate. }
  assert (Hok : numbers_ok (H:=model_Crypto) ∅ 0).
  { split; [intros a x Hx|intros a b x y Hx]; rewrite lookup_empty in Hx; discriminate Hx. }
  eapply pspec_mono.
  - exact (NewAccount_fresh_number (H0:=model_Codec) (H1:=model_CodecLaws) ex_am ex_ctx _ ∅ 0 [Byte.x09]
      Hst Hok ltac:(reflexivity)).
  - intros acc st' (-> & _). reflexivity.
  - intros q Hq. exact Hq.
Defined.

Lemma tx_GetSigners_dedup_witness :
  NoDup (tx_GetSigners (H:=model_Crypto) (H0:=list_Msg)
    (mk_StdTx (H:=model_Crypto) [[[Byte.x01]; [Byte.x02]]; [[Byte.x01]]] (mk_StdFee [] 0) [] "")).
Proof.
  apply (tx_GetSigners_dedup (H0:=model_CryptoLaws)).
Defined.
