(* ===== verification/Records.v ===== *)
(** * Records in a store

    The getters and setters of the keepers decode and encode the values of
    their store in one way; here are its parts and their specifications. *)
From Stdlib Require Import Strings.Byte Strings.String.
From S2P Require Import Prelude Errors KVStore MultiStore Account Context ProgLogic Auth.
#[local] Open Scope string_scope.
#[local] Open Scope list_scope.
#[local] Open Scope Z_scope.

(** MustUnmarshalBinary of what a store returned: nil is an error too. *)
Definition must_unmarshal {A} (f : bytes -> option A) (b : slice) : outcome A :=
  must (match b with Some bz => f bz | None => None end) "MustUnmarshalBinary".
Definition must_marshal {A} (f : A -> option bytes) (a : A) : outcome bytes := must (f a) "MustMarshalBinary".

(** A loop over a slice of entries that collects what [f] reads. *)
Fixpoint mapP {A B} (f : A -> prog B) (l : list A) : prog (list B) :=
  match l with [] => mret [] | a :: l => b ← f a; bs ← mapP f l; mret (b :: bs) end.

(** iterator.Value() decoded. *)
Definition read_value `{Crypto} (ctx : Ctx) {A} (f : bytes -> option A) (e : slice * slice) : prog A :=
  bz ← iter_Value ctx e; lift (must_unmarshal f bz).

(** ** Specifications *)

(** A slice of the store and the value it stands for. *)
Definition holds {A} (f : bytes -> option A) (b : slice) (a : option A) : Prop :=
  match b, a with
  | None, None => True
  | Some bz, Some a => f bz = Some a
  | _, _ => False
  end.

Lemma holds_Some {A : Type} (f : bytes -> option A) b a :
  holds f b (Some a) -> exists bz, b = Some bz /\ f bz = Some a.
Proof. destruct b as [bz|]; [|done]. by exists bz. Qed.

Lemma must_unmarshal_holds {A : Type} (f : bytes -> option A) b a :
  holds f b (Some a) -> must_unmarshal f b = Ok a.
Proof. intros (bz & -> & E)%holds_Some. unfold must_unmarshal. by rewrite E. Qed.

Section records.
Context `{Crypto} (ctx : Ctx) (key : StoreKey).
Abbreviation m := (cx_GasMeter ctx).

(** Reading an optional record. *)
Lemma pspec_read {A : Type} (f : bytes -> option A) (k : bytes) st s (o : option A) (Q : option A -> stores -> Prop)
    (E : panic_value -> Prop) :
  st !! key = Some s -> holds f (s !! k) o -> Q o st ->
  pspec m (b ← store_Get ctx key k;
           match b with
           | None => mret None
           | Some _ => a ← lift (must_unmarshal f b); mret (Some a)
           end) st Q E.
Proof.
  intros Hs Hh HQ. apply pspec_bind, (pspec_Get _ _ _ s); [done|].
  destruct (s !! k) as [bz|] eqn:Es, o as [a|]; [|done|done|by apply pspec_ret].
  apply pspec_bind, pspec_lift; rewrite (must_unmarshal_holds f (Some bz) a) by done; [|done].
  intros a' [= <-]. by apply pspec_ret.
Qed.

(** Storing a record that can be encoded. *)
Lemma pspec_write {A : Type} (f : A -> option bytes) (k : bytes) st s (a : A) bz (Q : unit -> stores -> Prop)
    (E : panic_value -> Prop) :
  st !! key = Some s -> f a = Some bz -> Q tt (<[key := <[k := bz]> s]> st) ->
  pspec m (bz ← lift (must_marshal f a); store_Set ctx key k bz) st Q E.
Proof.
  intros Hs Hf HQ. apply pspec_bind, pspec_lift; unfold must_marshal; rewrite Hf; [|done].
  intros bz' [= <-]. by apply (pspec_Set _ _ _ s).
Qed.
End records.
