(* ===== verification/Address.v ===== *)
(** * types/account.go: addresses and their bech32 and hexadecimal text

    Bech32 itself (tepleton/libs/bech32) and the decoding of public keys are
    third-party: [Bech32] is what the code calls of them. *)
From Stdlib Require Import Strings.Byte Strings.String Strings.Ascii.
From S2P Require Import Prelude Names Wire Int Coin Account Auth.
#[local] Open Scope string_scope.
#[local] Open Scope list_scope.
#[local] Open Scope Z_scope.

(** [None] is a returned error. *)
Class Bech32 `{Crypto} := {
  ConvertAndEncode : string -> bytes -> option string;
  DecodeAndConvert : string -> option (string * bytes);
  PubKeyFromBytes : bytes -> option PubKey;
}.

(** Decoding inverts encoding, and an encoded text is not empty. *)
Class Bech32Laws `{Bech32} : Prop := {
  bech32_roundtrip : forall hrp bz s, ConvertAndEncode hrp bz = Some s -> DecodeAndConvert s = Some (hrp, bz);
  bech32_nonempty : forall hrp bz s, ConvertAndEncode hrp bz = Some s -> s <> "";
  PubKey_roundtrip : forall pk, PubKeyFromBytes (PubKey_Bytes pk) = Some pk;
}.

Section address.
Context `{Bech32}.

Definition Bech32PrefixAccAddr : string := "tepletonaccaddr".
Definition Bech32PrefixAccPub : string := "tepletonaccpub".
Definition Bech32PrefixValAddr : string := "tepletonvaladdr".
Definition Bech32PrefixValPub : string := "tepletonvalpub".

Definition Bech32ifyAcc (addr : Address) : option string := ConvertAndEncode Bech32PrefixAccAddr addr.
Definition MustBech32ifyAcc (addr : Address) : outcome string := must (Bech32ifyAcc addr) "bech32".
Definition Bech32ifyAccPub (pub : PubKey) : option string := ConvertAndEncode Bech32PrefixAccPub (PubKey_Bytes pub).
Definition MustBech32ifyAccPub (pub : PubKey) : outcome string := must (Bech32ifyAccPub pub) "bech32".
Definition Bech32ifyVal (addr : Address) : option string := ConvertAndEncode Bech32PrefixValAddr addr.
Definition MustBech32ifyVal (addr : Address) : outcome string := must (Bech32ifyVal addr) "bech32".
Definition Bech32ifyValPub (pub : PubKey) : option string := ConvertAndEncode Bech32PrefixValPub (PubKey_Bytes pub).
Definition MustBech32ifyValPub (pub : PubKey) : outcome string := must (Bech32ifyValPub pub) "bech32".

(** A result or the text of an error; the texts of library errors are not
    represented. *)
Definition or_error {A} (o : option A) (what : string) : A + string :=
  match o with Some a => inl a | None => inr what end.

Definition no_address : string := "decoding bech32 address failed: must provide an address".

Definition GetFromBech32 (bech32str prefix : string) : bytes + string :=
  if (String.length bech32str =? 0)%nat then inr no_address else
  match DecodeAndConvert bech32str with
  | None => inr "bech32"
  | Some (hrp, bz) =>
      if negb (bool_decide (hrp = prefix))
      then inr ("invalid bech32 prefix. Expected " ++ prefix ++ ", Got " ++ hrp)%string
      else inl bz
  end.

Definition GetAccAddressHex (address : string) : Address + string :=
  if (String.length address =? 0)%nat then inr no_address else or_error (hex_DecodeString address) "hex".
Definition GetAccAddressBech32 (address : string) : Address + string := GetFromBech32 address Bech32PrefixAccAddr.
Definition GetAccPubKeyBech32 (address : string) : PubKey + string :=
  match GetFromBech32 address Bech32PrefixAccPub with
  | inr err => inr err
  | inl bz => or_error (PubKeyFromBytes bz) "pubkey"
  end.
Definition GetValAddressHex (address : string) : Address + string :=
  if (String.length address =? 0)%nat then inr no_address else or_error (hex_DecodeString address) "hex".
Definition GetValAddressBech32 (address : string) : Address + string := GetFromBech32 address Bech32PrefixValAddr.
Definition GetValPubKeyBech32 (pubkey : string) : PubKey + string :=
  match GetFromBech32 pubkey Bech32PrefixValPub with
  | inr err => inr err
  | inl bz => or_error (PubKeyFromBytes bz) "pubkey"
  end.
End address.

(** A text encoded under one prefix decodes under it, and under no other. *)
Lemma GetFromBech32_encoded `{Bech32Laws} hrp prefix bz s :
  ConvertAndEncode hrp bz = Some s ->
  GetFromBech32 s prefix =
  if decide (hrp = prefix) then inl bz
  else inr ("invalid bech32 prefix. Expected " ++ prefix ++ ", Got " ++ hrp)%string.
Proof.
  intros Hs. unfold GetFromBech32. rewrite (bech32_roundtrip _ _ _ Hs).
  pose proof (bech32_nonempty _ _ _ Hs) as Hne. destruct s as [|c s]; [done|]. cbn [String.length Nat.eqb].
  destruct (decide (hrp = prefix)); [by rewrite bool_decide_eq_true_2|by rewrite bool_decide_eq_false_2].
Qed.

(** the bech32 texts of account and validator addresses and keys decode to
    what they were made from, and the text of one kind is an error for the
    decoder of the other. *)
Theorem bech32_address_roundtrip `{Bech32Laws} (addr : Address) (pk : PubKey) (s : string) :
  (Bech32ifyAcc addr = Some s ->
     GetAccAddressBech32 s = inl addr /\ exists err, GetValAddressBech32 s = inr err) /\
  (Bech32ifyVal addr = Some s ->
     GetValAddressBech32 s = inl addr /\ exists err, GetAccAddressBech32 s = inr err) /\
  (Bech32ifyAccPub pk = Some s ->
     GetAccPubKeyBech32 s = inl pk /\ exists err, GetValPubKeyBech32 s = inr err) /\
  (Bech32ifyValPub pk = Some s ->
     GetValPubKeyBech32 s = inl pk /\ exists err, GetAccPubKeyBech32 s = inr err).
Proof.
  split_and!; intros Hs;
    unfold GetAccAddressBech32, GetValAddressBech32, GetAccPubKeyBech32, GetValPubKeyBech32;
    rewrite !(GetFromBech32_encoded _ _ _ _ Hs), decide_True, decide_False by done;
    (split; [rewrite ?PubKey_roundtrip; done|by eexists]).
Qed.

(** ** Witnesses *)

(** Prefix and data as one serialized pair. *)
Definition model_Bech32 : Bech32 (H:=model_Crypto) := {|
  ConvertAndEncode hrp bz := Some (String "x" (string_of_list_byte (ser (hrp, bz))));
  DecodeAndConvert s := match s with String _ s => deser (list_byte_of_string s) | "" => None end;
  PubKeyFromBytes bz := Some (bz : PubKey (Crypto:=model_Crypto));
|}.

Lemma model_Bech32Laws : Bech32Laws (H0:=model_Bech32).
Proof.
  constructor.
  - intros hrp bz s [= <-]. simpl. rewrite list_byte_of_string_of_list_byte. apply deser_ser.
  - by intros hrp bz s [= <-].
  - done.
Qed.

Lemma bech32_address_roundtrip_witness :
  exists s, Bech32ifyVal (H0:=model_Bech32) [Byte.x07] = Some s /\
    GetValAddressBech32 (H0:=model_Bech32) s = inl [Byte.x07].
Proof.
  eexists. split; [reflexivity|].
  apply (bech32_address_roundtrip (H1:=model_Bech32Laws) [Byte.x07] []). reflexivity.
Defined.

