(* ===== verification/Ante.v ===== *)
(** * x/auth/ante.go: the ante handler

    Checks account numbers, sequences and signatures, increments the
    sequences and deducts the fee from the first signer.  The handler is a
    program over the stores of its context; its specification says exactly
    when a transaction is accepted and what acceptance does to the accounts
    and the fee pool. *)
From Stdlib Require Import Strings.Byte Strings.String.
From stdpp Require Import pretty.
From S2P Require Import Prelude Wire Int Coin Errors KVStore MultiStore Account Context ProgLogic Auth.
#[local] Open Scope string_scope.
#[local] Open Scope list_scope.
#[local] Open Scope Z_scope.

Definition deductFeesCost : Z := 10.
Definition memoCostPerByte : Z := 1.
Definition verifyCost : Z := 100.
Definition maxMemoCharacters : Z := 100.

Section ante.
Context `{Codec} {T : Type} `{Msg T} `{JSONCodec}.

Definition processSig (ctx : Ctx) (am : AccountMapper) (addr : Address) (sig : StdSignature)
    (signBytes : bytes) : prog (option BaseAccount * Result) :=
  acc ← GetAccount am ctx addr;
  match acc with
  | None => mret (None, err_Result (ErrUnknownAddress (HexString addr)))
  | Some acc =>
      let accnum := GetAccountNumber acc in
      if negb (accnum =? sig_AccountNumber sig) then
        mret (None, err_Result (ErrInvalidSequence
          ("Invalid account number. Got " ++ pretty (sig_AccountNumber sig) ++ ", expected " ++ pretty accnum)%string))
      else
      let seq := GetSequence acc in
      if negb (seq =? sig_Sequence sig) then
        mret (None, err_Result (ErrInvalidSequence
          ("Invalid sequence. Got " ++ pretty (sig_Sequence sig) ++ ", expected " ++ pretty seq)%string))
      else
      acc ← lift (set_or_panic (SetSequence acc (wrap64 (seq + 1))));
      let verify (acc : BaseAccount) (pubKey : PubKey) : prog (option BaseAccount * Result) :=
        ctx_ConsumeGas ctx verifyCost "ante verify";;
        if negb (VerifyBytes pubKey signBytes (sig_Signature sig)) then
          mret (None, err_Result (ErrUnauthorized "signature verification failed"))
        else mret (Some acc, zero_Result) in
      match GetPubKey acc with
      | Some pubKey => verify acc pubKey
      | None =>
          match sig_PubKey sig with
          | None => mret (None, err_Result (ErrInvalidPubKey "PubKey not found"))
          | Some pubKey =>
              if negb (bool_decide (PubKey_Address pubKey = addr)) then
                mret (None, err_Result (ErrInvalidPubKey
                  ("PubKey does not match Signer address " ++ HexString addr)%string))
              else
              match SetPubKey acc (Some pubKey) with
              | (_, Some _) => mret (None, err_Result (ErrInternal "setting PubKey on signer's account"))
              | (acc, None) => verify acc pubKey
              end
          end
      end
  end.

Definition deductFees (acc : BaseAccount) (fee : StdFee) : outcome (option BaseAccount * Result) :=
  let coins := GetCoins acc in
  let feeAmount := fee_Amount fee in
  newCoins ← Minus coins feeAmount;
  if negb (IsNotNegative newCoins) then
    Ok (None, err_Result (ErrInsufficientFunds (Coins_String coins ++ " < " ++ Coins_String feeAmount)%string))
  else
    acc ← set_or_panic (SetCoins acc newCoins);
    Ok (Some acc, zero_Result).

(** [if i == 0]: the first signer pays the fee.  [inr] is an aborting result;
    a nil account with an OK result would be dereferenced later. *)
Definition ante_fee (ctx : Ctx) (fck : FeeCollectionKeeper) (fee : StdFee) (i : nat)
    (signerAcc : BaseAccount) : prog (BaseAccount + Result) :=
  if (i =? 0)%nat && negb (IsZero (fee_Amount fee)) then
    ctx_ConsumeGas ctx deductFeesCost "deductFees";;
    '(signerAcc, res) ← lift (deductFees signerAcc fee);
    if negb (Result_IsOK res) then mret (inr res) else
    match signerAcc with
    | None => Fault nil_pointer
    | Some signerAcc =>
        addCollectedFees fck ctx (fee_Amount fee);;
        mret (inl signerAcc)
    end
  else mret (inl signerAcc).

(** The loop over the signatures from index [i]. *)
Fixpoint ante_loop (ctx : Ctx) (am : AccountMapper) (fck : FeeCollectionKeeper) (stdTx : StdTx T)
    (i : nat) (pairs : list (Address * StdSignature)) (signerAccs : list BaseAccount)
    : prog (list BaseAccount + Result) :=
  match pairs with
  | [] => mret (inl signerAccs)
  | (signerAddr, sig) :: pairs =>
      let fee := tx_Fee stdTx in
      signBytes ← lift (StdSignBytes (cx_ChainID ctx) (sig_AccountNumber sig) (sig_Sequence sig) fee
        (tx_Msgs stdTx) (GetMemo stdTx));
      '(signerAcc, res) ← processSig ctx am signerAddr sig signBytes;
      if negb (Result_IsOK res) then mret (inr res) else
      match signerAcc with
      | None => Fault nil_pointer
      | Some signerAcc =>
          r ← ante_fee ctx fck fee i signerAcc;
          match r with
          | inr res => mret (inr res)
          | inl signerAcc =>
              SetAccount am ctx signerAcc;;
              ante_loop ctx am fck stdTx (S i) pairs (signerAccs ++ [signerAcc])
          end
      end
  end.

(** The handler: new context, result, abort. *)
Definition NewAnteHandler (am : AccountMapper) (fck : FeeCollectionKeeper) (ctx : Ctx) (tx : Tx T)
    : prog (Ctx * Result * bool) :=
  match tx with
  | TxOther _ => mret (ctx, err_Result (ErrInternal "tx must be StdTx"), true)
  | TxStd stdTx =>
      let sigs := GetSignatures stdTx in
      if (length sigs =? 0)%nat then mret (ctx, err_Result (ErrUnauthorized "no signers"), true) else
      let memo := GetMemo stdTx in
      let len_memo := Z.of_nat (String.length memo) in
      if maxMemoCharacters <? len_memo then
        mret (ctx, err_Result (ErrMemoTooLarge ("maximum number of characters is " ++
          pretty maxMemoCharacters ++ " but received " ++ pretty len_memo ++ " characters")%string), true)
      else
      NewMeterOp (NewGasMeter (fee_Gas (tx_Fee stdTx))) (fun meter =>
        let ctx := WithGasMeter ctx meter in
        ctx_ConsumeGas ctx (wrap64 (memoCostPerByte * len_memo)) "memo";;
        let signerAddrs := tx_GetSigners stdTx in
        if negb (length sigs =? length signerAddrs)%nat then
          mret (ctx, err_Result (ErrUnauthorized "wrong number of signers"), true)
        else
        r ← ante_loop ctx am fck stdTx 0 (zip signerAddrs sigs) [];
        match r with
        | inr res => mret (ctx, res, true)
        | inl signerAccs => mret (WithSigners ctx signerAccs, zero_Result, false)
        end)
  end.
End ante.

Lemma err_Result_root c msg : 0 < c < 2 ^ 16 -> Result_IsOK (err_Result (newErrorWithRootCodespace c msg)) = false.
Proof.
  intros Hc. unfold Result_IsOK, err_Result, IsOK, WRSPCode. simpl.
  rewrite ToWRSPCode_val by (unfold is_uint16, CodespaceRoot; lia).
  apply Z.eqb_neq. unfold WRSPCodeOK, CodespaceRoot, CodeOK. case_decide; lia.
Qed.

Lemma err_Result_code err : code err <> 0 -> Result_IsOK (err_Result err) = false.
Proof.
  intros Hc. unfold Result_IsOK, err_Result, IsOK, WRSPCode, ToWRSPCode. simpl.
  assert (E : (code err =? CodeOK) = false) by by apply Z.eqb_neq. rewrite E, andb_false_r.
  apply Z.eqb_neq. unfold WRSPCodeOK. intros [_ Hz]%Z.lor_eq_0_iff. done.
Qed.

Lemma zero_Result_OK : negb (Result_IsOK zero_Result) = false.
Proof. done. Qed.

(** ** What acceptance means *)

Section ante_spec.
Context `{CodecLaws} {T : Type} `{HM : Msg T} `{HJ : JSONCodec}.

(** The key a signature is checked with. *)
Definition sig_key (acc : BaseAccount) (addr : Address) (sig : StdSignature) : option PubKey :=
  match acc_PubKey acc with
  | Some pk => Some pk
  | None => pk ← sig_PubKey sig; if decide (PubKey_Address pk = addr) then Some pk else None
  end.

(** The account as its own signature leaves it. *)
Definition bump (acc : BaseAccount) (pk : PubKey) : BaseAccount :=
  mk_BaseAccount (acc_Address acc) (acc_Coins acc) (Some pk) (acc_AccountNumber acc)
    (wrap64 (acc_Sequence acc + 1)).

Definition sig_accepted (acc : BaseAccount) (addr : Address) (sig : StdSignature) (bz : bytes)
    (pk : PubKey) : Prop :=
  acc_AccountNumber acc = sig_AccountNumber sig /\ acc_Sequence acc = sig_Sequence sig /\
  sig_key acc addr sig = Some pk /\ VerifyBytes pk bz (sig_Signature sig) = true.

Lemma bump_wf acc pk : acc_wf acc -> acc_wf (bump acc pk).
Proof. intros (? & ? & ?). split_and!; simpl; auto with sdk. Qed.

Variables (am : AccountMapper) (fck : FeeCollectionKeeper).
Variable ctx : Ctx.
Abbreviation m := (cx_GasMeter ctx).

(** What processSig returns: the bumped account, or an error. *)
Definition sig_outcome (accs : gmap Address BaseAccount) (addr : Address) (sig : StdSignature)
    (bz : bytes) (r : option BaseAccount * Result) : Prop :=
  (exists acc pk, accs !! addr = Some acc /\ sig_accepted acc addr sig bz pk /\
     r = (Some (bump acc pk), zero_Result)) \/
  ((forall acc pk, accs !! addr = Some acc -> ~ sig_accepted acc addr sig bz pk) /\
     r.1 = None /\ Result_IsOK r.2 = false).

Section one_sig.
Context (st : stores) (accs : gmap Address BaseAccount) (addr : Address) (sig : StdSignature)
  (bz : bytes) (E : panic_value -> Prop) (acc : BaseAccount).
Hypothesis Hacc : accs !! addr = Some acc.
Abbreviation post := (fun r (st' : stores) => st' = st /\ sig_outcome accs addr sig bz r).

Lemma processSig_reject c msg :
  0 < c < 2 ^ 16 -> (forall pk, ~ sig_accepted acc addr sig bz pk) ->
  pspec m (mret (None, err_Result (newErrorWithRootCodespace c msg))) st post E.
Proof.
  intros Hc Hno. apply pspec_ret. split; [done|]. right.
  split_and!; [|done|by apply err_Result_root]. intros acc' pk Ha. rewrite Hacc in Ha.
  injection Ha as <-. apply Hno.
Qed.

Lemma processSig_verify acc2 pk :
  acc_AccountNumber acc = sig_AccountNumber sig -> acc_Sequence acc = sig_Sequence sig ->
  sig_key acc addr sig = Some pk -> acc2 = bump acc pk ->
  pspec m (ctx_ConsumeGas ctx verifyCost "ante verify";;
    (if negb (VerifyBytes pk bz (sig_Signature sig)) then
        mret (None, err_Result (ErrUnauthorized "signature verification failed"))
      else mret (Some acc2, zero_Result))) st post E.
Proof.
  intros En Es Hk ->. apply pspec_bind, pspec_consume.
  destruct (VerifyBytes pk bz (sig_Signature sig)) eqn:Ev; simpl negb; cbv iota.
  - apply pspec_ret. split; [done|]. left. by exists acc, pk.
  - apply processSig_reject; [done|]. intros pk' (_ & _ & Hk' & Hv). congruence.
Qed.
End one_sig.

Lemma processSig_spec (st : stores) (accs : gmap Address BaseAccount) (n : Z) (addr : Address)
    (sig : StdSignature) (bz : bytes) (E : panic_value -> Prop) :
  auth_st am st accs n ->
  pspec m (processSig ctx am addr sig bz) st
    (fun r st' => st' = st /\ sig_outcome accs addr sig bz r) E.
Proof.
  intros Hst. apply pspec_bind. eapply GetAccount_spec; [exact Hst|].
  destruct (accs !! addr) as [acc|] eqn:Ea.
  2:{ apply pspec_ret. split; [done|]. right. split_and!; [|done|by apply err_Result_root].
      intros ? ? Ha. by rewrite Ea in Ha. }
  unfold GetAccountNumber, GetSequence.
  destruct (acc_AccountNumber acc =? sig_AccountNumber sig) eqn:En; simpl negb; cbv iota.
  2:{ apply (processSig_reject _ _ _ _ _ _ acc Ea); [done|]. intros pk (Hn & _).
      by apply Z.eqb_neq in En. }
  destruct (acc_Sequence acc =? sig_Sequence sig) eqn:Es; simpl negb; cbv iota.
  2:{ apply (processSig_reject _ _ _ _ _ _ acc Ea); [done|]. intros pk (_ & Hn & _).
      by apply Z.eqb_neq in Es. }
  apply Z.eqb_eq in En, Es. apply pspec_bind, pspec_lift; [|done]. intros acc1 [= <-].
  unfold GetPubKey. simpl acc_PubKey.
  destruct (acc_PubKey acc) as [pk|] eqn:Ep.
  { apply (processSig_verify _ _ _ _ _ _ acc Ea); [done|done|by unfold sig_key; rewrite Ep|].
    done. }
  destruct (sig_PubKey sig) as [pk|] eqn:Eq.
  2:{ apply (processSig_reject _ _ _ _ _ _ acc Ea); [done|]. intros pk (_ & _ & Hk & _).
      unfold sig_key in Hk. by rewrite Ep, Eq in Hk. }
  case_bool_decide as Hd; simpl negb; cbv iota.
  - apply (processSig_verify _ _ _ _ _ _ acc Ea); [done|done| |done].
    unfold sig_key. rewrite Ep, Eq. simpl. by rewrite decide_True.
  - apply (processSig_reject _ _ _ _ _ _ acc Ea); [done|]. intros pk' (_ & _ & Hk & _).
    unfold sig_key in Hk. rewrite Ep, Eq in Hk. simpl in Hk. by rewrite decide_False in Hk.
Qed.

(** *** The fee *)

Variable stdTx : StdTx T.
Abbreviation feeAmount := (fee_Amount (tx_Fee stdTx)).

Definition pays (i : nat) : bool := (i =? 0)%nat && negb (IsZero feeAmount).

(** What the [i]-th signer's coins and the fee pool become. *)
Definition charged (i : nat) (coins coins' : Coins) : Prop :=
  if pays i then Minus coins feeAmount = Ok coins' /\ IsNotNegative coins' = true else coins' = coins.
Definition collected (i : nat) (fees fees' : Coins) : Prop :=
  if pays i then Plus fees feeAmount = Ok fees' else fees' = fees.

Definition with_coins (acc : BaseAccount) (coins : Coins) : BaseAccount :=
  mk_BaseAccount (acc_Address acc) coins (acc_PubKey acc) (acc_AccountNumber acc) (acc_Sequence acc).

Lemma charged_conserves i coins coins' fees fees' d :
  charged i coins coins' -> collected i fees fees' ->
  amt coins' d + amt fees' d = amt coins d + amt fees d.
Proof.
  unfold charged, collected. destruct (pays i).
  - intros [Hm _] Hp. rewrite (Minus_amt _ _ _ d Hm), (Plus_amt _ _ _ d Hp). lia.
  - by intros -> ->.
Qed.

Lemma deductFees_eq acc :
  deductFees acc (tx_Fee stdTx) =
  match Minus (acc_Coins acc) feeAmount with
  | Panicked q => Panicked q
  | Ok c => if IsNotNegative c then Ok (Some (with_coins acc c), zero_Result)
            else Ok (None, err_Result (ErrInsufficientFunds
                   (Coins_String (acc_Coins acc) ++ " < " ++ Coins_String feeAmount)%string))
  end.
Proof.
  unfold deductFees, GetCoins. destruct (Minus (acc_Coins acc) feeAmount) as [c|q]; [|done].
  simpl. by destruct (IsNotNegative c).
Qed.

Variable E : panic_value -> Prop.
Hypothesis E_overflow : E (PanicString "Int overflow").
Hypothesis fee_wf : amounts_wf feeAmount.

(** What ante_fee returns. *)
Definition fee_outcome (i : nat) (acc1 : BaseAccount) (fees : Coins) (st : stores)
    (r : BaseAccount + Result) (st' : stores) : Prop :=
  match r with
  | inl acc' => exists coins' fees', acc' = with_coins acc1 coins' /\
      charged i (acc_Coins acc1) coins' /\ collected i fees fees' /\
      fee_st fck st' fees' /\ amounts_wf fees' /\ acc_wf acc' /\ frame (fck_key fck) st st'
  | inr res => st' = st /\ (forall coins', ~ charged i (acc_Coins acc1) coins') /\ Result_IsOK res = false
  end.

Lemma ante_fee_spec (i : nat) (acc1 : BaseAccount) (st : stores) (fees : Coins) :
  fee_st fck st fees -> amounts_wf fees -> acc_wf acc1 ->
  pspec m (ante_fee ctx fck (tx_Fee stdTx) i acc1) st (fee_outcome i acc1 fees st) E.
Proof.
  intros Hfee Hfwf (Hcwf & Hn & Hs). unfold ante_fee, fee_outcome, charged, collected.
  fold (pays i). destruct (pays i).
  2:{ apply pspec_ret. exists (acc_Coins acc1), fees. split_and!; auto with sdk; [by destruct acc1|].
      by split_and!. }
  apply pspec_bind, pspec_consume, pspec_bind, pspec_lift; rewrite deductFees_eq.
  2:{ intros q. destruct (Minus (acc_Coins acc1) feeAmount) as [c|q'] eqn:Em.
      - by destruct (IsNotNegative c).
      - intros [= ->]. by rewrite (Plus_panics _ _ _ Em). }
  intros r. destruct (Minus (acc_Coins acc1) feeAmount) as [c|q'] eqn:Em; [|done].
  destruct (IsNotNegative c) eqn:En; intros [= <-].
  - rewrite zero_Result_OK. cbv iota beta. apply pspec_bind.
    eapply addCollectedFees_spec; [exact Hfee| | |].
    + intros c'. by apply Plus_amounts_wf.
    + intros q Hq. by rewrite (Plus_panics _ _ _ Hq).
    + intros fees' st' Hp Hst' Hf. apply pspec_ret. exists c, fees'. split_and!; try done.
      * exact (Plus_amounts_wf _ _ _ Hfwf fee_wf Hp).
      * split_and!; [exact (Minus_amounts_wf _ _ _ Hcwf fee_wf Em)|done..].
  - unfold ErrInsufficientFunds. rewrite err_Result_root by done. apply pspec_ret.
    split_and!; [done| |by apply err_Result_root].
    intros c' [[= <-] Hc']. congruence.
Qed.

(** *** The loop over the signatures *)

Hypothesis keys_ne : am_key am <> fck_key fck.
Hypothesis sign_ok : forall accnum sequence,
  is_Ok (StdSignBytes (cx_ChainID ctx) accnum sequence (tx_Fee stdTx) (tx_Msgs stdTx) (tx_Memo stdTx)).

(** The [i]-th signature is good for the account, which becomes [acc']. *)
Definition processed (i : nat) (addr : Address) (sig : StdSignature) (acc acc' : BaseAccount) : Prop :=
  exists bz pk coins',
    StdSignBytes (cx_ChainID ctx) (sig_AccountNumber sig) (sig_Sequence sig) (tx_Fee stdTx)
      (tx_Msgs stdTx) (tx_Memo stdTx) = Ok bz /\
    sig_accepted acc addr sig bz pk /\ charged i (acc_Coins acc) coins' /\
    acc' = with_coins (bump acc pk) coins'.

(** Signatures from index [i] on take the accounts from [accs] to [accs']. *)
Definition all_processed (i : nat) (pairs : list (Address * StdSignature))
    (accs accs' : gmap Address BaseAccount) : Prop :=
  forall j addr sig, pairs !! j = Some (addr, sig) ->
  exists acc acc', accs !! addr = Some acc /\ accs' !! addr = Some acc' /\
    processed (i + j) addr sig acc acc'.

Definition all_good (i : nat) (pairs : list (Address * StdSignature))
    (accs : gmap Address BaseAccount) : Prop :=
  forall j addr sig, pairs !! j = Some (addr, sig) ->
  exists acc acc', accs !! addr = Some acc /\ processed (i + j) addr sig acc acc'.

Definition loop_post (i : nat) (pairs : list (Address * StdSignature)) (accs : gmap Address BaseAccount)
    (n : Z) (fees : Coins) (st : stores) (r : list BaseAccount + Result) (st' : stores) : Prop :=
  exists accs' fees', auth_st am st' accs' n /\ fee_st fck st' fees' /\ amounts_wf fees' /\
  (forall d, total accs' d + amt fees' d = total accs d + amt fees d) /\
  (forall k, k <> am_key am -> k <> fck_key fck -> st' !! k = st !! k) /\
  (forall a, a ∉ pairs.*1 -> accs' !! a = accs !! a) /\
  match r with
  | inl _ => all_processed i pairs accs accs' /\
      (match pairs with [] => fees' = fees | _ => collected i fees fees' end)
  | inr res => Result_IsOK res = false /\ ~ all_good i pairs accs
  end.

Lemma processed_wf i addr sig acc acc' :
  acc_Address acc = addr -> processed i addr sig acc acc' -> acc_Address acc' = addr.
Proof. by intros Ha (bz & pk & c & _ & _ & _ & ->). Qed.

Lemma pays_S i : pays (S i) = false.
Proof. done. Qed.

(** One signature and the rest. *)
Lemma loop_post_cons i addr sig pairs accs n fees st r acc acc' fees1 st1 st' :
  auth_st am st accs n -> addr ∉ pairs.*1 -> accs !! addr = Some acc ->
  processed i addr sig acc acc' -> (forall d, amt (acc_Coins acc') d + amt fees1 d = amt (acc_Coins acc) d + amt fees d) ->
  collected i fees fees1 ->
  (forall k, k <> am_key am -> k <> fck_key fck -> st1 !! k = st !! k) ->
  loop_post (S i) pairs (<[addr := acc']> accs) n fees1 st1 r st' ->
  loop_post i ((addr, sig) :: pairs) accs n fees st r st'.
Proof.
  intros Hst Hnin Hacc Hproc Hcons Hcoll Hf1 (accs' & fees' & Hst' & Hfee & Hfwf & Htot & Hf & Hfr & Hr).
  assert (Haddr : accs' !! addr = Some acc') by (by rewrite Hfr, lookup_insert_eq).
  assert (Hne : forall j a s, pairs !! j = Some (a, s) -> a <> addr).
  { intros j a s Hj ->. apply Hnin, list_elem_of_fmap. exists (addr, s). split; [done|].
    by eapply list_elem_of_lookup_2. }
  exists accs', fees'. split_and!; try done.
  - intros d. rewrite Htot, total_insert. unfold coins_at. rewrite Hacc. simpl. specialize (Hcons d). lia.
  - intros k ? ?. rewrite Hf by done. by apply Hf1.
  - intros a Ha. simpl in Ha. rewrite elem_of_cons in Ha.
    rewrite Hfr by tauto. apply lookup_insert_ne. intros <-. tauto.
  - destruct r as [ds|res].
    + destruct Hr as [Hall Hfees]. split.
      * intros [|j] a s; simpl; [intros [= -> ->]; exists acc, acc'; by rewrite Nat.add_0_r|].
        intros Hj. destruct (Hall j a s Hj) as (x & x' & Hx & Hx' & Hp).
        rewrite lookup_insert_ne in Hx by (apply not_eq_sym; by eapply Hne).
        exists x, x'. by rewrite Nat.add_succ_r.
      * destruct pairs; [by rewrite Hfees|]. unfold collected in *. rewrite pays_S in Hfees. by rewrite Hfees.
    + destruct Hr as [Hres Hbad]. split; [done|]. intros Hgood. apply Hbad. intros j a s Hj.
      destruct (Hgood (S j) a s Hj) as (x & x' & Hx & Hp). exists x, x'.
      rewrite lookup_insert_ne by (apply not_eq_sym; by eapply Hne). by rewrite Nat.add_succ_r in Hp.
Qed.

Lemma loop_post_fail i addr sig pairs accs n fees st res :
  auth_st am st accs n -> fee_st fck st fees -> amounts_wf fees -> Result_IsOK res = false ->
  (forall acc acc', accs !! addr = Some acc -> ~ processed i addr sig acc acc') ->
  loop_post i ((addr, sig) :: pairs) accs n fees st (inr res) st.
Proof.
  intros Hst Hfee Hfwf Hres Hno. exists accs, fees. split_and!; try done.
  intros Hgood. destruct (Hgood 0%nat addr sig eq_refl) as (acc & acc' & Ha & Hp).
  rewrite Nat.add_0_r in Hp. by eapply Hno.
Qed.

Lemma ante_loop_spec (pairs : list (Address * StdSignature)) (i : nat) (ds : list BaseAccount)
    (accs : gmap Address BaseAccount) (n : Z) (fees : Coins) (st : stores) :
  auth_st am st accs n -> fee_st fck st fees -> amounts_wf fees -> NoDup pairs.*1 ->
  pspec m (ante_loop ctx am fck stdTx i pairs ds) st (loop_post i pairs accs n fees st) E.
Proof.
  revert i ds accs fees st. induction pairs as [|[addr sig] pairs IH];
    intros i ds accs fees st Hst Hfee Hfwf Hnd.
  { apply pspec_ret. exists accs, fees. split_and!; try done. }
  apply NoDup_cons in Hnd as [Hnin Hnd]. cbn [ante_loop].
  destruct (sign_ok (sig_AccountNumber sig) (sig_Sequence sig)) as [bz Hbz].
  apply pspec_bind, pspec_lift; unfold GetMemo; rewrite Hbz; [|done]. intros ? [= <-].
  eapply pspec_call; [by eapply processSig_spec|]. intros r st0 [-> [(acc & pk & Hacc & Hsig & ->)|(Hno & Hr1 & Hr2)]].
  2:{ destruct r as [sa res]. simpl in Hr1, Hr2. rewrite Hr2. apply pspec_ret.
      apply loop_post_fail; [done..|]. intros acc acc' Ha (bz' & pk & c & Hbz' & Hs & _).
      apply (Hno acc pk Ha). congruence. }
  destruct (auth_st_acc am st accs n addr acc Hst Hacc) as [Hwf Haddr].
  apply (pspec_call _ _ _ _ (fee_outcome i (bump acc pk) fees st)); [by apply ante_fee_spec, bump_wf|].
  intros [acc'|res] st1.
  - intros (coins' & fees' & -> & Hch & Hcoll & Hfee1 & Hfwf1 & Hwf1 & Hf1).
    assert (Hst1 : auth_st am st1 accs n) by (eapply auth_st_frame; [exact Hf1|done|done]).
    apply pspec_bind. eapply SetAccount_spec; [exact Hst1|done|]. intros st2 Hst2 Hf2.
    simpl acc_Address in Hst2. rewrite Haddr in Hst2.
    eapply pspec_mono; [apply IH; [exact Hst2|by eapply fee_st_frame|done|done]| |done].
    intros r st' Hpost. eapply loop_post_cons; [exact Hst|done|exact Hacc| | |exact Hcoll| |exact Hpost].
    + by exists bz, pk, coins'.
    + intros d. by apply (charged_conserves i).
    + intros k Hk1 Hk2. by rewrite Hf2, Hf1.
  - intros (-> & Hno & Hres). apply pspec_ret. apply loop_post_fail; [done..|].
    intros acc0 acc' Ha (bz' & pk' & c & Hbz' & Hs & Hc & _). rewrite Hacc in Ha. injection Ha as <-.
    by apply (Hno c).
Qed.
End ante_spec.

(** ** The handler *)

(** The panics of the handler: out of gas, or an overflowing amount. *)
Definition ante_panic (q : panic_value) : Prop :=
  q = PanicString "Int overflow" \/ exists d, q = ErrorOutOfGas d.

Section handler_spec.
Context `{CodecLaws} `{HC : !CryptoLaws} {T : Type} `{HM : Msg T} `{HJ : JSONCodec}.
Variables (am : AccountMapper) (fck : FeeCollectionKeeper) (ctx : Ctx) (stdTx : StdTx T).

Definition pairs_of : list (Address * StdSignature) := zip (tx_GetSigners stdTx) (tx_Signatures stdTx).

(** The conditions under which a transaction is let through. *)
Definition tx_good (accs : gmap Address BaseAccount) : Prop :=
  tx_Signatures stdTx <> [] /\ Z.of_nat (String.length (tx_Memo stdTx)) <= maxMemoCharacters /\
  length (tx_Signatures stdTx) = length (tx_GetSigners stdTx) /\ all_good ctx stdTx 0 pairs_of accs.

Lemma pairs_of_fst : length (tx_Signatures stdTx) = length (tx_GetSigners stdTx) ->
  pairs_of.*1 = tx_GetSigners stdTx.
Proof. intros Hl. apply fst_zip. lia. Qed.

Definition ante_post (accs : gmap Address BaseAccount) (n : Z) (fees : Coins) (st : stores)
    (r : Ctx * Result * bool) (st' : stores) : Prop :=
  let '(ctx', res, abort) := r in
  exists accs' fees', auth_st am st' accs' n /\ fee_st fck st' fees' /\ amounts_wf fees' /\
  (forall d, total accs' d + amt fees' d = total accs d + amt fees d) /\
  (forall k, k <> am_key am -> k <> fck_key fck -> st' !! k = st !! k) /\
  (forall a, a ∉ tx_GetSigners stdTx -> accs' !! a = accs !! a) /\
  (abort = false <-> tx_good accs) /\
  if abort then Result_IsOK res = false
  else all_processed ctx stdTx 0 pairs_of accs accs' /\ collected stdTx 0 fees fees'.

Hypothesis keys_ne : am_key am <> fck_key fck.
Hypothesis fee_wf : amounts_wf (fee_Amount (tx_Fee stdTx)).
Hypothesis sign_ok : forall accnum sequence,
  is_Ok (StdSignBytes (cx_ChainID ctx) accnum sequence (tx_Fee stdTx) (tx_Msgs stdTx) (tx_Memo stdTx)).

Lemma ante_post_reject accs n fees (st : stores) ctx' c msg :
  auth_st am st accs n -> fee_st fck st fees -> amounts_wf fees -> 0 < c < 2 ^ 16 -> ~ tx_good accs ->
  ante_post accs n fees st (ctx', err_Result (newErrorWithRootCodespace c msg), true) st.
Proof.
  intros Hst Hfee Hfwf Hc Hbad. exists accs, fees. split_and!; try done. by apply err_Result_root.
Qed.

Lemma ante_spec (accs : gmap Address BaseAccount) (n : Z) (fees : Coins) (st : stores) (m : meter_ptr) :
  auth_st am st accs n -> fee_st fck st fees -> amounts_wf fees ->
  pspec m (NewAnteHandler am fck ctx (TxStd stdTx)) st (ante_post accs n fees st) ante_panic.
Proof.
  intros Hst Hfee Hfwf. unfold NewAnteHandler, GetSignatures, GetMemo.
  destruct (length (tx_Signatures stdTx) =? 0)%nat eqn:El.
  { apply pspec_ret, ante_post_reject; [done..|]. intros (Hne & _). apply Nat.eqb_eq in El.
    by destruct (tx_Signatures stdTx). }
  apply Nat.eqb_neq in El.
  destruct (maxMemoCharacters <? _) eqn:Em.
  { apply pspec_ret, ante_post_reject; [done..|]. intros (_ & Hm & _). apply Z.ltb_lt in Em. lia. }
  apply Z.ltb_ge in Em. apply pspec_new_meter; [|intros _ d; right; by exists d].
  intros m'. apply pspec_bind. apply (pspec_consume (WithGasMeter ctx m')).
  destruct (length (tx_Signatures stdTx) =? length (tx_GetSigners stdTx))%nat eqn:Es; simpl negb; cbv iota.
  2:{ apply pspec_ret, ante_post_reject; [done..|]. intros (_ & _ & Hl & _). by apply Nat.eqb_neq in Es. }
  apply Nat.eqb_eq in Es. fold pairs_of.
  apply (pspec_call _ _ _ _ (loop_post am fck (WithGasMeter ctx m') stdTx 0 pairs_of accs n fees st)).
  { apply (ante_loop_spec am fck (WithGasMeter ctx m')); try done; [by left|].
    rewrite pairs_of_fst by done. apply tx_GetSigners_spec. }
  intros r st' (accs' & fees' & Hst' & Hfee' & Hfwf' & Htot & Hfr & Hoth & Hr).
  rewrite pairs_of_fst in Hoth by done.
  assert (Hgood : all_processed ctx stdTx 0 pairs_of accs accs' -> tx_good accs).
  { intros Hall. split_and!; [by intros Hn; rewrite Hn in El|done|done|].
    intros j addr sig Hj. destruct (Hall j addr sig Hj) as (acc & acc' & ? & _ & ?). by exists acc, acc'. }
  destruct r as [ds|res]; apply pspec_ret; exists accs', fees'; split_and!; try done.
  - by split; [intros _; apply Hgood, Hr|].
  - apply Hr.
  - destruct Hr as [_ Hr]. destruct pairs_of as [|p ps] eqn:Ep; [|exact Hr].
    apply (f_equal length) in Ep. unfold pairs_of in Ep. rewrite length_zip, <- Es in Ep. simpl in Ep. lia.
  - split; [done|]. intros (_ & _ & _ & Hg). by destruct Hr.
  - apply Hr.
Qed.

(** An accepted transaction is not acceptable in the state it leaves. *)
Lemma tx_good_once accs accs' n (st : stores) :
  auth_st am st accs n -> tx_Signatures stdTx <> [] ->
  length (tx_Signatures stdTx) = length (tx_GetSigners stdTx) ->
  all_processed ctx stdTx 0 pairs_of accs accs' -> ~ tx_good accs'.
Proof.
  intros Hst Hne Hl Hall (_ & _ & _ & Hgood). unfold pairs_of in *.
  destruct (tx_Signatures stdTx) as [|sig sigs]; [done|].
  destruct (tx_GetSigners stdTx) as [|addr addrs]; [done|].
  destruct (Hall 0%nat addr sig eq_refl) as (acc & acc' & Ha & Ha' & Hp).
  destruct (Hgood 0%nat addr sig eq_refl) as (x & x' & Hx & Hp').
  rewrite Ha' in Hx. injection Hx as <-.
  destruct (auth_st_acc am st accs n addr acc Hst Ha) as [(_ & _ & Hi) _].
  destruct Hp as (bz & pk & c & _ & (_ & Hs & _) & _ & ->).
  destruct Hp' as (bz' & pk' & c' & _ & (_ & Hs' & _) & _ & _). simpl in Hs'.
  rewrite <- Hs in Hs'. revert Hs' Hi. unfold wrap64, is_int64, min_int64, max_int64. intros Hs' Hi.
  destruct (decide (acc_Sequence acc = 2 ^ 63 - 1)) as [Hmax|Hmax].
  - rewrite Hmax in Hs'. vm_compute in Hs'. discriminate Hs'.
  - rewrite Z.mod_small in Hs' by lia. lia.
Qed.
End handler_spec.

(** ** Properties *)

(** C4: the ante handler lets a StdTx through exactly when it has signatures,
    one for each distinct signer of its messages, a memo within the limit, and
    for every signer an existing account with the signature's account number
    and sequence, a key (the account's, or the signature's if its address is
    the signer's), a signature that verifies over the StdSignBytes of this
    chain, number and sequence, and, for the first, coins enough for the fee.
    Then every signer's sequence is incremented and key recorded, the first
    signer's coins and the fee pool changed by the fee, and nothing else;
    otherwise the result is an error.  It panics only out of gas or when an
    amount overflows. *)
Theorem ante_accepts_iff `{CodecLaws} `{HC : !CryptoLaws} {T : Type} `{HM : Msg T} `{HJ : JSONCodec}
    (am : AccountMapper) (fck : FeeCollectionKeeper) (ctx : Ctx) (stdTx : StdTx T)
    (accs : gmap Address BaseAccount) (n : Z) (fees : Coins) (st : stores) (m : meter_ptr)
    (Hkeys : am_key am <> fck_key fck) (Hwf : amounts_wf (fee_Amount (tx_Fee stdTx)))
    (Hsign : forall accnum sequence, is_Ok (StdSignBytes (cx_ChainID ctx) accnum sequence
       (tx_Fee stdTx) (tx_Msgs stdTx) (tx_Memo stdTx)))
    (Hst : auth_st am st accs n) (Hfee : fee_st fck st fees) (Hfwf : amounts_wf fees) :
  pspec m (NewAnteHandler am fck ctx (TxStd stdTx)) st (fun r st' =>
    let '(_, res, abort) := r in
    exists accs' fees', auth_st am st' accs' n /\ fee_st fck st' fees' /\
    (forall k, k <> am_key am -> k <> fck_key fck -> st' !! k = st !! k) /\
    (forall a, a ∉ tx_GetSigners stdTx -> accs' !! a = accs !! a) /\
    (abort = false <-> tx_good ctx stdTx accs) /\
    if abort then Result_IsOK res = false
    else all_processed ctx stdTx 0 (pairs_of stdTx) accs accs' /\ collected stdTx 0 fees fees') ante_panic.
Proof.
  eapply pspec_mono; [by apply (ante_spec am fck ctx stdTx) with (accs:=accs) (n:=n) (fees:=fees)| |done].
  intros [[ctx' res] abort] st' (accs' & fees' & ? & ? & ? & ? & ? & ? & ? & ?). by exists accs', fees'.
Qed.

(** C5: replay protection: when the ante handler lets a transaction through,
    running it again on the state it leaves rejects the same transaction. *)
Theorem ante_rejects_replay `{CodecLaws} `{HC : !CryptoLaws} {T : Type} `{HM : Msg T} `{HJ : JSONCodec}
    (am : AccountMapper) (fck : FeeCollectionKeeper) (ctx : Ctx) (stdTx : StdTx T)
    (accs : gmap Address BaseAccount) (n : Z) (fees : Coins) (st : stores) (m : meter_ptr)
    (Hkeys : am_key am <> fck_key fck) (Hwf : amounts_wf (fee_Amount (tx_Fee stdTx)))
    (Hsign : forall accnum sequence, is_Ok (StdSignBytes (cx_ChainID ctx) accnum sequence
       (tx_Fee stdTx) (tx_Msgs stdTx) (tx_Memo stdTx)))
    (Hst : auth_st am st accs n) (Hfee : fee_st fck st fees) (Hfwf : amounts_wf fees) :
  pspec m
    (r ← NewAnteHandler am fck ctx (TxStd stdTx);
     if (r.2 : bool) then mret true else r' ← NewAnteHandler am fck ctx (TxStd stdTx); mret (r'.2 : bool)) st
    (fun rejected _ => rejected = true) ante_panic.
Proof.
  eapply pspec_call; [by apply (ante_spec am fck ctx stdTx) with (accs:=accs) (n:=n) (fees:=fees)|].
  intros [[ctx' res] abort] st' (accs' & fees' & Hst' & Hfee' & Hfwf' & _ & _ & _ & Hab & Hr).
  destruct abort; [by apply pspec_ret|]. simpl.
  eapply pspec_call; [by apply (ante_spec am fck ctx stdTx) with (accs:=accs') (n:=n) (fees:=fees')|].
  intros [[ctx2 res2] abort2] st2 (accs2 & fees2 & _ & _ & _ & _ & _ & _ & Hab2 & _).
  apply pspec_ret. destruct abort2; [done|]. exfalso.
  destruct (proj1 Hab eq_refl) as (Hne & _ & Hl & _).
  exact (tx_good_once am ctx stdTx accs accs' n st Hst Hne Hl (proj1 Hr) (proj1 Hab2 eq_refl)).
Qed.

(** C6: coins are conserved: whenever the ante handler returns, accepting the
    transaction or not, the accounts and the fee pool together hold as much of
    every denomination as before. *)
Theorem ante_conserves_coins `{CodecLaws} `{HC : !CryptoLaws} {T : Type} `{HM : Msg T} `{HJ : JSONCodec}
    (am : AccountMapper) (fck : FeeCollectionKeeper) (ctx : Ctx) (stdTx : StdTx T)
    (accs : gmap Address BaseAccount) (n : Z) (fees : Coins) (st : stores) (m : meter_ptr)
    (Hkeys : am_key am <> fck_key fck) (Hwf : amounts_wf (fee_Amount (tx_Fee stdTx)))
    (Hsign : forall accnum sequence, is_Ok (StdSignBytes (cx_ChainID ctx) accnum sequence
       (tx_Fee stdTx) (tx_Msgs stdTx) (tx_Memo stdTx)))
    (Hst : auth_st am st accs n) (Hfee : fee_st fck st fees) (Hfwf : amounts_wf fees) :
  pspec m (NewAnteHandler am fck ctx (TxStd stdTx)) st (fun _ st' =>
    exists accs' fees', auth_st am st' accs' n /\ fee_st fck st' fees' /\
    forall d, total accs' d + amt fees' d = total accs d + amt fees d) ante_panic.
Proof.
  eapply pspec_mono; [by apply (ante_spec am fck ctx stdTx) with (accs:=accs) (n:=n) (fees:=fees)| |done].
  intros [[ctx' res] abort] st' (accs' & fees' & ? & ? & ? & ? & _). by exists accs', fees'.
Qed.

(** ** Concrete transactions *)

Section ante_examples.
#[local] Existing Instance model_Crypto.
#[local] Existing Instance model_CryptoLaws.
#[local] Existing Instance model_Codec.
#[local] Existing Instance model_CodecLaws.
#[local] Existing Instance model_JSONCodec.
#[local] Existing Instance list_Msg.

Definition ex_fck : FeeCollectionKeeper := NewFeeCollectionKeeper (mk_StoreKey 2 "fee").
Definition ex_addr : Address := [Byte.x05].
Definition ex_acc : BaseAccount := mk_BaseAccount ex_addr [NewCoin "atom" 20] None 0 3.
Definition ex_accs : gmap Address BaseAccount := {[ ex_addr := ex_acc ]}.
Definition ex_stores : stores :=
  {[ example_key := {[ AddressStoreKey ex_addr := ser (account_data ex_acc) ]};
     mk_StoreKey 2 "fee" := ∅ ]}.

(** A transaction of [ex_addr] with a fee of [amount] atoms and a gas limit. *)
Definition ex_tx (amount gas : Z) : StdTx (list Address) :=
  let fee := mk_StdFee [NewCoin "atom" amount] gas in
  let bz := match StdSignBytes (T:=list Address) "" 0 3 fee [[ex_addr]] "" with Ok bz => bz | _ => [] end in
  mk_StdTx [[ex_addr]] fee [mk_StdSignature (Some ex_addr : option PubKey) (ex_addr ++ bz : Signature) 0 3] "".

(** Runs the handler on the example state; the result, then the account's
    coins and the fee pool. *)
Definition ex_run (tx : StdTx (list Address)) : outcome bool * option Coins * option Coins :=
  let '(r, w) := interp (NewAnteHandler ex_am ex_fck ex_ctx (TxStd tx))
                   (mk_World (mk_spec_ms ex_stores ∅) [NewInfiniteGasMeter]) in
  (match r with Ok (_, _, abort) => Ok abort | Panicked q => Panicked q end,
   bz ← (s ← sm_stores (w_ms w) !! example_key; (s : spec_store) !! AddressStoreKey ex_addr);
     acc_Coins <$> UnmarshalAccount bz,
   bz ← (s ← sm_stores (w_ms w) !! mk_StoreKey 2 "fee"; (s : spec_store) !! collectedFeesKey);
     UnmarshalCoins bz).

Example ante_example : ex_run (ex_tx 5 100000) =
  (Ok false, Some [NewCoin "atom" 15], Some [NewCoin "atom" 5]).
Proof. vm_compute. reflexivity. Qed.

Lemma ex_auth_st : auth_st ex_am ex_stores ex_accs 0.
Proof.
  eexists. split; [reflexivity|]. split; [|split; [reflexivity|split; vm_compute; discriminate]].
  intros addr. unfold ex_accs. destruct (decide (ex_addr = addr)) as [ <- |Hne].
  - rewrite !lookup_singleton_eq. split; [vm_compute; reflexivity|]. split; [|reflexivity].
    split; [repeat constructor|split; split; vm_compute; discriminate].
  - rewrite !lookup_singleton_ne; [exact I|exact Hne|]. intros Heq. apply Hne. by apply AddressStoreKey_inj.
Qed.

Lemma ex_fee_st : fee_st ex_fck ex_stores [].
Proof. eexists. split; reflexivity. Qed.

Lemma ex_amounts_wf : amounts_wf (fee_Amount (tx_Fee (ex_tx 5 100000))).
Proof. repeat constructor. Qed.

Lemma ex_sign_ok accnum sequence :
  is_Ok (StdSignBytes (cx_ChainID ex_ctx) accnum sequence (tx_Fee (ex_tx 5 100000))
    (tx_Msgs (ex_tx 5 100000)) (tx_Memo (ex_tx 5 100000))).
Proof. by eexists. Qed.
End ante_examples.

(** a fee is not required to be positive: a transaction whose fee amount is
    negative is accepted and its signer paid out, here 5 atoms, leaving the fee
    pool negative. *)
Theorem ante_negative_fee_pays_signer :
  ex_run (ex_tx (-5) 100000) = (Ok false, Some [NewCoin "atom" 25], Some [NewCoin "atom" (-5)]).
Proof. vm_compute. reflexivity. Qed.

(** out of gas between the fee pool's update and the payer's: the handler
    adds the fee to the pool before it saves the account, so a gas limit that
    runs out in between leaves the fee collected and not paid; the two are
    writes to the same multi-store, which is not rolled back. *)
Theorem ante_out_of_gas_mints_fee :
  ex_run (ex_tx 5 550) = (Panicked (ErrorOutOfGas "SetPerByte"), Some [NewCoin "atom" 20], Some [NewCoin "atom" 5]).
Proof. vm_compute. reflexivity. Qed.

(** ** Witnesses *)

Section ante_witnesses.
#[local] Existing Instance model_Crypto.
#[local] Existing Instance model_CryptoLaws.
#[local] Existing Instance model_Codec.
#[local] Existing Instance model_CodecLaws.
#[local] Existing Instance model_JSONCodec.
#[local] Existing Instance list_Msg.

Lemma ex_keys_ne : am_key ex_am <> fck_key ex_fck.
Proof. discriminate. Qed.

Lemma ante_accepts_iff_witness :
  pspec 0 (NewAnteHandler ex_am ex_fck ex_ctx (TxStd (ex_tx 5 100000))) ex_stores (fun r st' =>
    exists accs' fees', auth_st ex_am st' accs' 0 /\ fee_st ex_fck st' fees' /\
      (r.2 = false <-> tx_good ex_ctx (ex_tx 5 100000) ex_accs)) ante_panic.
Proof.
  eapply pspec_mono.
  - exact (ante_accepts_iff ex_am ex_fck ex_ctx (ex_tx 5 100000) ex_accs 0 [] ex_stores 0
      ex_keys_ne ex_amounts_wf ex_sign_ok ex_auth_st ex_fee_st (List.Forall_nil _)).
  - intros [[ctx' res] abort] st' (accs' & fees' & Ha & Hf & _ & _ & Hab & _).
    exists accs', fees'. split; [exact Ha|split; [exact Hf|exact Hab]].
  - intros q Hq. exact Hq.
Defined.

Lemma ante_rejects_replay_witness :
  pspec 0 (r ← NewAnteHandler ex_am ex_fck ex_ctx (TxStd (ex_tx 5 100000));
     if (r.2 : bool) then mret true else
     r' ← NewAnteHandler ex_am ex_fck ex_ctx (TxStd (ex_tx 5 100000)); mret (r'.2 : bool))
    ex_stores (fun rejected _ => rejected = true) ante_panic.
Proof.
  exact (ante_rejects_replay ex_am ex_fck ex_ctx (ex_tx 5 100000) ex_accs 0 [] ex_stores 0
    ex_keys_ne ex_amounts_wf ex_sign_ok ex_auth_st ex_fee_st (List.Forall_nil _)).
Defined.

Lemma ante_conserves_coins_witness :
  pspec 0 (NewAnteHandler ex_am ex_fck ex_ctx (TxStd (ex_tx 5 100000))) ex_stores (fun _ st' =>
    exists accs' fees', auth_st ex_am st' accs' 0 /\ fee_st ex_fck st' fees' /\
      total accs' "atom" + amt fees' "atom" = 20) ante_panic.
Proof.
  eapply pspec_mono.
  - exact (ante_conserves_coins ex_am ex_fck ex_ctx (ex_tx 5 100000) ex_accs 0 [] ex_stores 0
      ex_keys_ne ex_amounts_wf ex_sign_ok ex_auth_st ex_fee_st (List.Forall_nil _)).
  - intros r st' (accs' & fees' & Ha & Hf & Ht). exists accs', fees'.
    split; [exact Ha|split; [exact Hf|]]. etransitivity; [apply Ht|vm_compute; reflexivity].
  - intros q Hq. exact Hq.
Defined.
End ante_witnesses.
