(* ===== verification/Bank.v ===== *)
(** * x/bank: messages, keeper and handler

    keeper.go, msgs.go, handler.go and errors.go.  Balances live in the
    accounts of the account mapper; the specifications are stated on the map of
    accounts ([auth_st]). *)
From Stdlib Require Import Strings.Byte Strings.String.
From S2P Require Import Prelude Int Coin Errors KVStore MultiStore Account Context ProgLogic Auth Address Ante.
#[local] Open Scope string_scope.
#[local] Open Scope list_scope.
#[local] Open Scope Z_scope.

(** ** errors.go *)

Module BankErrors.
Definition DefaultCodespace : Z := 2.
Definition CodeInvalidInput : Z := 101.
Definition CodeInvalidOutput : Z := 102.

Definition codeToDefaultMsg (code : Z) : string :=
  if code =? CodeInvalidInput then "invalid input coins"
  else if code =? CodeInvalidOutput then "invalid output coins"
  else CodeToDefaultMsg code.

Definition msgOrDefaultMsg (msg : string) (code : Z) : string :=
  if negb (bool_decide (msg = "")) then msg else codeToDefaultMsg code.

Definition newError (codespace code : Z) (msg : string) : sdkError :=
  let msg := msgOrDefaultMsg msg code in NewError codespace code msg.

Definition ErrInvalidInput (codespace : Z) (msg : string) := newError codespace CodeInvalidInput msg.
Definition ErrNoInputs (codespace : Z) := newError codespace CodeInvalidInput "".
Definition ErrInvalidOutput (codespace : Z) (msg : string) := newError codespace CodeInvalidOutput msg.
Definition ErrNoOutputs (codespace : Z) := newError codespace CodeInvalidOutput "".
End BankErrors.

(** TraceSDK adds a line to the trace of the embedded error, which is not
    represented. *)
Definition TraceSDK (err : sdkError) (format : string) : sdkError := err.

(** ** msgs.go *)

Record Input := mk_Input { in_Address : Address; in_Coins : Coins }.
Record Output := mk_Output { out_Address : Address; out_Coins : Coins }.

Definition NewInput (addr : Address) (coins : Coins) : Input := mk_Input addr coins.
Definition NewOutput (addr : Address) (coins : Coins) : Output := mk_Output addr coins.

Record MsgSend := mk_MsgSend { Inputs : list Input; Outputs : list Output }.
Definition NewMsgSend (inp : list Input) (out : list Output) : MsgSend := mk_MsgSend inp out.

Record MsgIssue := mk_MsgIssue { Banker : Address; issue_Outputs : list Output }.
Definition NewMsgIssue (banker : Address) (out : list Output) : MsgIssue := mk_MsgIssue banker out.

(** msgCdc.MarshalJSON at the structs signed here. *)
Class BankJSON := {
  MarshalJSON_coins : string -> Coins -> option bytes;          (* Address, Coins *)
  MarshalJSON_send : list bytes -> list bytes -> option bytes;  (* Inputs, Outputs *)
  MarshalJSON_issue : string -> list bytes -> option bytes;     (* Banker, Outputs *)
}.

Section msgs.
Context `{Crypto}.

Definition address_coins_ValidateBasic (addr : Address) (coins : Coins) : option sdkError :=
  if (length addr =? 0)%nat then Some (ErrInvalidAddress (HexString addr))
  else if negb (IsValid coins) then Some (ErrInvalidCoins (Coins_String coins))
  else if negb (IsPositive coins) then Some (ErrInvalidCoins (Coins_String coins))
  else None.

Definition Input_ValidateBasic (i : Input) : option sdkError :=
  address_coins_ValidateBasic (in_Address i) (in_Coins i).
Definition Output_ValidateBasic (o : Output) : option sdkError :=
  address_coins_ValidateBasic (out_Address o) (out_Coins o).

(** The loops of ValidateBasic: the running total, or an error. *)
Fixpoint validate_inputs (l : list Input) (totalIn : Coins) : outcome (Coins + sdkError) :=
  match l with
  | [] => Ok (inl totalIn)
  | i :: l =>
      match Input_ValidateBasic i with
      | Some err => Ok (inr (TraceSDK err ""))
      | None => totalIn ← Plus totalIn (in_Coins i); validate_inputs l totalIn
      end
  end.

Fixpoint validate_outputs (l : list Output) (totalOut : Coins) : outcome (Coins + sdkError) :=
  match l with
  | [] => Ok (inl totalOut)
  | o :: l =>
      match Output_ValidateBasic o with
      | Some err => Ok (inr (TraceSDK err ""))
      | None => totalOut ← Plus totalOut (out_Coins o); validate_outputs l totalOut
      end
  end.

Definition MsgSend_ValidateBasic (msg : MsgSend) : outcome (option sdkError) :=
  if (length (Inputs msg) =? 0)%nat then Ok (Some (TraceSDK (BankErrors.ErrNoInputs BankErrors.DefaultCodespace) ""))
  else if (length (Outputs msg) =? 0)%nat then
    Ok (Some (TraceSDK (BankErrors.ErrNoOutputs BankErrors.DefaultCodespace) ""))
  else
    r ← validate_inputs (Inputs msg) [];
    match r with
    | inr err => Ok (Some err)
    | inl totalIn =>
        r ← validate_outputs (Outputs msg) [];
        match r with
        | inr err => Ok (Some err)
        | inl totalOut =>
            if negb (IsEqual totalIn totalOut) then
              Ok (Some (TraceSDK (ErrInvalidCoins (Coins_String totalIn)) "inputs and outputs don't match"))
            else Ok None
        end
    end.

Fixpoint validate_each (l : list Output) : option sdkError :=
  match l with
  | [] => None
  | o :: l => match Output_ValidateBasic o with
              | Some err => Some (TraceSDK err "")
              | None => validate_each l
              end
  end.

Definition MsgIssue_ValidateBasic (msg : MsgIssue) : outcome (option sdkError) :=
  if (length (issue_Outputs msg) =? 0)%nat then
    Ok (Some (TraceSDK (BankErrors.ErrNoOutputs BankErrors.DefaultCodespace) ""))
  else Ok (validate_each (issue_Outputs msg)).

Definition MsgSend_GetSigners (msg : MsgSend) : list Address := in_Address <$> Inputs msg.
Definition MsgIssue_GetSigners (msg : MsgIssue) : list Address := [Banker msg].

Context `{!Bech32} `{BankJSON}.

Definition coins_GetSignBytes (addr : Address) (coins : Coins) : outcome bytes :=
  a ← MustBech32ifyAcc addr; must (MarshalJSON_coins a coins) "MarshalJSON".
Definition Input_GetSignBytes (i : Input) : outcome bytes := coins_GetSignBytes (in_Address i) (in_Coins i).
Definition Output_GetSignBytes (o : Output) : outcome bytes := coins_GetSignBytes (out_Address o) (out_Coins o).

Fixpoint mapO {A B} (f : A -> outcome B) (l : list A) : outcome (list B) :=
  match l with [] => Ok [] | a :: l => b ← f a; bs ← mapO f l; Ok (b :: bs) end.

Definition MsgSend_GetSignBytes (msg : MsgSend) : outcome bytes :=
  inputs ← mapO Input_GetSignBytes (Inputs msg);
  outputs ← mapO Output_GetSignBytes (Outputs msg);
  must (MarshalJSON_send inputs outputs) "MarshalJSON".

Definition MsgIssue_GetSignBytes (msg : MsgIssue) : outcome bytes :=
  outputs ← mapO Output_GetSignBytes (issue_Outputs msg);
  banker ← MustBech32ifyAcc (Banker msg);
  must (MarshalJSON_issue banker outputs) "MarshalJSON".

(** The bank's messages as [sdk.Msg]s. *)
Inductive bank_Msg := Send (msg : MsgSend) | Issue (msg : MsgIssue).

#[global] Instance bank_Msg_Msg : Msg bank_Msg := {
  Type_ _ := "bank";
  ValidateBasic m := match m with Send m => MsgSend_ValidateBasic m | Issue m => MsgIssue_ValidateBasic m end;
  GetSignBytes m := match m with Send m => MsgSend_GetSignBytes m | Issue m => MsgIssue_GetSignBytes m end;
  msg_GetSigners m := match m with Send m => MsgSend_GetSigners m | Issue m => MsgIssue_GetSigners m end;
}.
End msgs.

(** ** keeper.go *)

Definition costGetCoins : Z := 10.
Definition costHasCoins : Z := 10.
Definition costSetCoins : Z := 100.
Definition costSubtractCoins : Z := 10.
Definition costAddCoins : Z := 10.

Section keeper.
Context `{Codec} (ctx : Ctx) (am : AccountMapper).

Definition getCoins (addr : Address) : prog Coins :=
  ctx_ConsumeGas ctx costGetCoins "getCoins";;
  acc ← GetAccount am ctx addr;
  match acc with
  | None => mret []
  | Some acc => mret (GetCoins acc)
  end.

Definition setCoins (addr : Address) (amt : Coins) : prog (option sdkError) :=
  ctx_ConsumeGas ctx costSetCoins "setCoins";;
  acc ← GetAccount am ctx addr;
  acc ← (match acc with
         | None => NewAccountWithAddress am ctx addr
         | Some acc => mret acc
         end);
  acc ← lift (set_or_panic (SetCoins acc amt));
  SetAccount am ctx acc;;
  mret None.

Definition hasCoins (addr : Address) (amt : Coins) : prog bool :=
  ctx_ConsumeGas ctx costHasCoins "hasCoins";;
  coins ← getCoins addr;
  lift (IsGTE coins amt).

Definition subtractCoins (addr : Address) (amt : Coins) : prog (Coins * Tags * option sdkError) :=
  ctx_ConsumeGas ctx costSubtractCoins "subtractCoins";;
  oldCoins ← getCoins addr;
  newCoins ← lift (Minus oldCoins amt);
  if negb (IsNotNegative newCoins) then
    mret (amt, [], Some (ErrInsufficientCoins (Coins_String oldCoins ++ " < " ++ Coins_String amt)%string))
  else
    err ← setCoins addr newCoins;
    tags ← lift (NewTags [ArgString "sender"; ArgBytes (string_bytes (HexString addr))]);
    mret (newCoins, tags, err).

Definition addCoins (addr : Address) (amt : Coins) : prog (Coins * Tags * option sdkError) :=
  ctx_ConsumeGas ctx costAddCoins "addCoins";;
  oldCoins ← getCoins addr;
  newCoins ← lift (Plus oldCoins amt);
  if negb (IsNotNegative newCoins) then
    mret (amt, [], Some (ErrInsufficientCoins (Coins_String oldCoins ++ " < " ++ Coins_String amt)%string))
  else
    err ← setCoins addr newCoins;
    tags ← lift (NewTags [ArgString "recipient"; ArgBytes (string_bytes (HexString addr))]);
    mret (newCoins, tags, err).

Definition sendCoins (fromAddr toAddr : Address) (amt : Coins) : prog (Tags * option sdkError) :=
  '(_, subTags, err) ← subtractCoins fromAddr amt;
  match err with
  | Some err => mret ([], Some err)
  | None =>
      '(_, addTags, err) ← addCoins toAddr amt;
      match err with
      | Some err => mret ([], Some err)
      | None => mret (AppendTags subTags addTags, None)
      end
  end.

(** The two loops of inputOutputCoins, over (address, coins). *)
Fixpoint coins_loop (step : Address -> Coins -> prog (Coins * Tags * option sdkError))
    (l : list (Address * Coins)) (allTags : Tags) : prog (Tags + sdkError) :=
  match l with
  | [] => mret (inl allTags)
  | (addr, coins) :: l =>
      '(_, tags, err) ← step addr coins;
      match err with
      | Some err => mret (inr err)
      | None => coins_loop step l (AppendTags allTags tags)
      end
  end.

Definition inputOutputCoins (inputs : list Input) (outputs : list Output) : prog (Tags * option sdkError) :=
  let allTags := EmptyTags in
  r ← coins_loop subtractCoins ((fun i => (in_Address i, in_Coins i)) <$> inputs) allTags;
  match r with
  | inr err => mret ([], Some err)
  | inl allTags =>
      r ← coins_loop addCoins ((fun o => (out_Address o, out_Coins o)) <$> outputs) allTags;
      match r with
      | inr err => mret ([], Some err)
      | inl allTags => mret (allTags, None)
      end
  end.
End keeper.

(** ** handler.go *)

Section handler.
Context `{Codec} `{!Bech32} `{BankJSON}.

(** A Keeper is its account mapper; its methods are the functions above. *)
Definition handleMsgSend (ctx : Ctx) (k : AccountMapper) (msg : MsgSend) : prog Result :=
  '(tags, err) ← inputOutputCoins ctx k (Inputs msg) (Outputs msg);
  match err with
  | Some err => mret (err_Result err)
  | None => mret (tags_Result tags)
  end.

Definition handleMsgIssue (ctx : Ctx) (k : AccountMapper) (msg : MsgIssue) : prog Result :=
  Fault (PanicString "not implemented yet").

(** The type switch: [as_bank] is the message as one of the bank's types, and
    [type_name] the name of its dynamic type. *)
Definition NewHandler {T} (as_bank : T -> option bank_Msg) (type_name : T -> string)
    (k : AccountMapper) (ctx : Ctx) (msg : T) : prog Result :=
  match as_bank msg with
  | Some (Send msg) => handleMsgSend ctx k msg
  | Some (Issue msg) => handleMsgIssue ctx k msg
  | None => mret (err_Result (ErrUnknownRequest ("Unrecognized bank Msg type: " ++ type_name msg)%string))
  end.
End handler.

(** ** Specifications of the keeper *)

Definition coins_ok (c : Coins) : Prop := canonical c /\ (forall d, 0 <= amt c d) /\ amounts_wf c.

(** The same, with coins of amount zero allowed. *)
Definition coins_held (c : Coins) : Prop := sorted c /\ (forall d, 0 <= amt c d) /\ amounts_wf c.

Lemma coins_ok_held c : coins_ok c -> coins_held c.
Proof. by intros [[Hs _] Hc]. Qed.

(** A transfer list: how much of [d] it moves for [a], and in all. *)
Fixpoint spent (l : list (Address * Coins)) (a : Address) (d : string) : Z :=
  match l with
  | [] => 0
  | (b, c) :: l => (if decide (a = b) then amt c d else 0) + spent l a d
  end.
Fixpoint spent_total (l : list (Address * Coins)) (d : string) : Z :=
  match l with [] => 0 | (_, c) :: l => amt c d + spent_total l d end.

Lemma spent_nonneg l a d : Forall (fun p => coins_ok p.2) l -> 0 <= spent l a d.
Proof.
  induction 1 as [|[b c] l [_ [Hc _]] _ IH]; simpl; [done|]. specialize (Hc d). simpl in Hc. case_decide; lia.
Qed.

Lemma coins_ok_nil : coins_ok [].
Proof. split_and!; [split; constructor|done|constructor]. Qed.

Lemma IsNotNegative_false c : sorted c -> IsNotNegative c = false -> exists d, amt c d < 0.
Proof.
  intros Hs Hn. unfold IsNotNegative in Hn. destruct (length c =? 0)%nat; [done|].
  rewrite <- not_true_iff_false, forallb_forall in Hn.
  assert (exists x, x ∈ c /\ Coin_IsNotNegative x = false) as (x & Hx & Hneg).
  { clear Hs. induction c as [|x c IH].
    - exfalso. apply Hn. by intros ? [].
    - destruct (Coin_IsNotNegative x) eqn:Ex.
      + destruct IH as (y & Hy & Hny); [|exists y; split; [by right|done]].
        intros Hall. apply Hn. intros y [ <- |Hy]; [done|by apply Hall].
      + exists x. split; [by left|done]. }
  exists (Denom x). rewrite (sorted_amt_elem x c Hs Hx).
  rewrite <- not_true_iff_false, Coin_IsNotNegative_spec in Hneg. lia.
Qed.

Section keeper_spec.
Context `{CodecLaws} (ctx : Ctx) (am : AccountMapper).
Abbreviation m := (cx_GasMeter ctx).

Definition accs_all (P : Coins -> Prop) (accs : gmap Address BaseAccount) : Prop :=
  forall a acc, accs !! a = Some acc -> P (acc_Coins acc).
Definition accs_ok (accs : gmap Address BaseAccount) : Prop :=
  forall a acc, accs !! a = Some acc -> coins_ok (acc_Coins acc).
Definition accs_held : gmap Address BaseAccount -> Prop := accs_all coins_held.

(** [accs'] is [accs] with [f a d] more of [d] at each address [a], [g d] in
    all; keys, numbers and sequences of the accounts are kept. *)
Record transfer (accs accs' : gmap Address BaseAccount) (f : Address -> string -> Z)
    (g : string -> Z) : Prop := mk_transfer {
  tr_coins : forall a d, amt (coins_at accs' a) d = amt (coins_at accs a) d + f a d;
  tr_total : forall d, total accs' d = total accs d + g d;
  tr_same : forall a acc, accs !! a = Some acc -> exists c, accs' !! a = Some (with_coins acc c);
}.

Lemma transfer_trans accs1 accs2 accs3 f1 f2 g1 g2 :
  transfer accs1 accs2 f1 g1 -> transfer accs2 accs3 f2 g2 ->
  transfer accs1 accs3 (fun a d => f1 a d + f2 a d) (fun d => g1 d + g2 d).
Proof.
  intros [Hc1 Ht1 Hs1] [Hc2 Ht2 Hs2]. constructor.
  - intros a d. rewrite Hc2, Hc1. lia.
  - intros d. rewrite Ht2, Ht1. lia.
  - intros a acc Ha. destruct (Hs1 a acc Ha) as [c Hc]. by destruct (Hs2 _ _ Hc) as [c' Hc']; exists c'.
Qed.

Lemma coins_at_all (P : Coins -> Prop) accs a : accs_all P accs -> P [] -> P (coins_at accs a).
Proof. intros Hok Hnil. unfold coins_at. destruct (accs !! a) as [acc|] eqn:Ea; [by eapply Hok|done]. Qed.

Lemma coins_at_ok accs a : accs_ok accs -> coins_ok (coins_at accs a).
Proof. intros Hok. apply (coins_at_all coins_ok); [exact Hok|apply coins_ok_nil]. Qed.

Lemma coins_at_held accs a : accs_held accs -> coins_held (coins_at accs a).
Proof. intros Hok. apply (coins_at_all coins_held); [exact Hok|apply coins_ok_held, coins_ok_nil]. Qed.

Lemma getCoins_spec (st : stores) (accs : gmap Address BaseAccount) (n : Z) (addr : Address)
    (Q : Coins -> stores -> Prop) (E : panic_value -> Prop) :
  auth_st am st accs n -> Q (coins_at accs addr) st -> pspec m (getCoins ctx am addr) st Q E.
Proof.
  intros Hst HQ. apply pspec_bind, pspec_consume, pspec_bind. eapply GetAccount_spec; [exact Hst|].
  unfold coins_at in HQ. by destruct (accs !! addr); apply pspec_ret.
Qed.

Section any_coins.
Context (P : Coins -> Prop).

Lemma setCoins_spec (st : stores) (accs : gmap Address BaseAccount) (n : Z) (addr : Address) (c : Coins)
    (E : panic_value -> Prop) :
  auth_st am st accs n -> accs_all P accs -> P c -> amounts_wf c ->
  pspec m (setCoins ctx am addr c) st (fun err st' => err = None /\
    exists accs' n', auth_st am st' accs' n' /\ accs_all P accs' /\ frame (am_key am) st st' /\
    transfer accs accs'
      (fun a d => if decide (a = addr) then amt c d - amt (coins_at accs addr) d else 0)
      (fun d => amt c d - amt (coins_at accs addr) d)) E.
Proof.
  intros Hst Hok Hc Hcw. apply pspec_bind, pspec_consume, pspec_bind. eapply GetAccount_spec; [exact Hst|].
  apply pspec_bind.
  apply (pspec_mono _ _ _ (fun acc st1 => (exists n1, auth_st am st1 accs n1) /\ frame (am_key am) st st1 /\
    acc_wf acc /\ acc_Address acc = addr /\ (forall x, accs !! addr = Some x -> acc = x)) _ E);
    [|intros acc st1 ([n1 Hst1] & Hf1 & (_ & Hwf) & Ha & Hsame)|done].
  { destruct (accs !! addr) as [acc|] eqn:Ea.
    - destruct (auth_st_acc am st accs n addr acc Hst Ea) as [Hwf Ha]. apply pspec_ret.
      split_and!; eauto with sdk. by intros x [= <-].
    - eapply NewAccountWithAddress_spec; [exact Hst|]. intros st1 Hst1 Hf1.
      split_and!; try done; [by eexists|]. destruct Hst as (s & _ & _ & _ & Hi).
      split_and!; [constructor|done|split; vm_compute; discriminate]. }
  apply pspec_bind, pspec_lift; [|done]. intros acc' [= <-]. apply pspec_bind.
  eapply (SetAccount_spec am ctx st1); [exact Hst1|by split|].
  simpl acc_Address. rewrite Ha. intros st2 Hst2 Hf2. apply pspec_ret. split; [done|].
  eexists _, n1. split_and!; [exact Hst2| |by eapply frame_trans|].
  - intros a x. rewrite lookup_insert_Some. intros [[_ <-]|[_ Hx]]; [done|by eapply Hok].
  - constructor.
    + intros a d. unfold coins_at. case_decide as Hd; [subst; rewrite lookup_insert_eq; simpl; lia|].
      rewrite lookup_insert_ne by congruence. lia.
    + intros d. rewrite total_insert. simpl. lia.
    + intros a x Hx. destruct (decide (addr = a)) as [ <- |Hne].
      * exists c. rewrite lookup_insert_eq, <- (Hsame x Hx), <- Ha. done.
      * exists (acc_Coins x). rewrite lookup_insert_ne by done. rewrite Hx. by destruct x.
Qed.

(** What subtractCoins ([sg = -1]) and addCoins ([sg = 1]) do. *)
Definition moved_post (sg : Z) (accs : gmap Address BaseAccount) (st : stores) (addr : Address) (c : Coins)
    (r : Coins * Tags * option sdkError) (st' : stores) : Prop :=
  match r.2 with
  | Some err => (exists d, amt (coins_at accs addr) d + sg * amt c d < 0) /\
      Result_IsOK (err_Result err) = false /\ st' = st
  | None => exists accs' n', auth_st am st' accs' n' /\ accs_all P accs' /\ frame (am_key am) st st' /\
      transfer accs accs' (fun a d => if decide (a = addr) then sg * amt c d else 0) (fun d => sg * amt c d)
  end.

Lemma set_moved (sg : Z) (st : stores) (accs : gmap Address BaseAccount) (n : Z) (addr : Address)
    (c new : Coins) (tag : string) (E : panic_value -> Prop) :
  auth_st am st accs n -> accs_all P accs -> ((forall d, 0 <= amt new d) -> P new) -> sorted new -> amounts_wf new ->
  (forall d, amt new d = amt (coins_at accs addr) d + sg * amt c d) ->
  pspec m
    (if negb (IsNotNegative new) then
      mret (c, [], Some (ErrInsufficientCoins
        (Coins_String (coins_at accs addr) ++ " < " ++ Coins_String c)%string))
    else
      err ← setCoins ctx am addr new;
      tags ← lift (NewTags [ArgString tag; ArgBytes (string_bytes (HexString addr))]);
      mret (new, tags, err)) st (moved_post sg accs st addr c) E.
Proof.
  intros Hst Hok HP Hsort Hwf Hamt. destruct (IsNotNegative new) eqn:En; simpl negb; cbv iota.
  - pose proof (HP (proj1 (IsNotNegative_amt new Hsort) En)) as Hnew.
    eapply pspec_call; [by eapply setCoins_spec|].
    intros err st' [-> (accs' & n' & Hst' & Hok' & Hf & Htr)].
    apply pspec_bind, pspec_lift; [|done]. intros tags _. apply pspec_ret.
    exists accs', n'. split_and!; [done..|]. destruct Htr as [Hc Ht Hs]. constructor; [| |done].
    + intros a d. rewrite Hc. case_decide; [|lia]. rewrite Hamt. subst. lia.
    + intros d. rewrite Ht, Hamt. lia.
  - apply pspec_ret. split; [|split; [by apply err_Result_root|done]].
    destruct (IsNotNegative_false new) as [d Hd]; [done..|]. exists d. by rewrite <- Hamt.
Qed.

(** Coins of any sign, when what an account is left with is as it should be. *)
Lemma subtractCoins_moves (st : stores) (accs : gmap Address BaseAccount) (n : Z) (addr : Address)
    (c : Coins) (E : panic_value -> Prop) :
  auth_st am st accs n -> accs_all P accs -> coins_held (coins_at accs addr) -> sorted c -> amounts_wf c ->
  (forall new, Minus (coins_at accs addr) c = Ok new -> coins_held new -> P new) ->
  (forall q, Minus (coins_at accs addr) c = Panicked q -> E q) ->
  pspec m (subtractCoins ctx am addr c) st (moved_post (-1) accs st addr c) E.
Proof.
  intros Hst Hok (Has & Hann & Hawf) Hcs Hcwf HP HE.
  apply pspec_bind, pspec_consume, pspec_bind. eapply getCoins_spec; [exact Hst|].
  apply pspec_bind, pspec_lift; [|exact HE]. intros new Hnew.
  pose proof (Minus_sorted _ _ _ Has Hcs Hnew) as Hns. pose proof (Minus_amounts_wf _ _ _ Hawf Hcwf Hnew) as Hnw.
  apply (set_moved (-1) st accs n); [done|done|intros Hnn; by apply HP|done..|].
  intros d. rewrite (Minus_amt _ _ _ d Hnew). lia.
Qed.

Lemma addCoins_moves (st : stores) (accs : gmap Address BaseAccount) (n : Z) (addr : Address)
    (c : Coins) (E : panic_value -> Prop) :
  auth_st am st accs n -> accs_all P accs -> coins_held (coins_at accs addr) -> sorted c -> amounts_wf c ->
  (forall new, Plus (coins_at accs addr) c = Ok new -> coins_held new -> P new) -> E (PanicString "Int overflow") ->
  pspec m (addCoins ctx am addr c) st (moved_post 1 accs st addr c) E.
Proof.
  intros Hst Hok (Has & Hann & Hawf) Hcs Hcwf HP HE.
  apply pspec_bind, pspec_consume, pspec_bind. eapply getCoins_spec; [exact Hst|].
  apply pspec_bind, pspec_lift.
  2:{ intros q Hq. by rewrite (Plus_panics _ _ _ Hq). }
  intros new Hnew.
  pose proof (Plus_sorted _ _ _ Has Hcs Hnew) as Hns. pose proof (Plus_amounts_wf _ _ _ Hawf Hcwf Hnew) as Hnw.
  apply (set_moved 1 st accs n); [done|done|intros Hnn; by apply HP|done..|].
  intros d. rewrite (Plus_amt _ _ _ d Hnew). lia.
Qed.
End any_coins.

(** With valid coins in the accounts, valid but for their sign moved. *)
Definition move_post := moved_post coins_ok.

Lemma subtractCoins_any (st : stores) (accs : gmap Address BaseAccount) (n : Z) (addr : Address)
    (c : Coins) (E : panic_value -> Prop) :
  auth_st am st accs n -> accs_ok accs -> canonical c -> amounts_wf c ->
  (forall q, Minus (coins_at accs addr) c = Panicked q -> E q) ->
  pspec m (subtractCoins ctx am addr c) st (move_post (-1) accs st addr c) E.
Proof.
  intros Hst Hok Hcan Hcwf HE. pose proof (coins_at_ok accs addr Hok) as Ha.
  apply (subtractCoins_moves coins_ok st accs n); [done|done|by apply coins_ok_held|apply Hcan|done| |done].
  intros new Hnew (_ & Hnn & Hw). split; [|done]. by eapply Minus_canonical; [apply Ha|exact Hcan|].
Qed.

Lemma addCoins_any (st : stores) (accs : gmap Address BaseAccount) (n : Z) (addr : Address)
    (c : Coins) (E : panic_value -> Prop) :
  auth_st am st accs n -> accs_ok accs -> canonical c -> amounts_wf c -> E (PanicString "Int overflow") ->
  pspec m (addCoins ctx am addr c) st (move_post 1 accs st addr c) E.
Proof.
  intros Hst Hok Hcan Hcwf HE. pose proof (coins_at_ok accs addr Hok) as Ha.
  apply (addCoins_moves coins_ok st accs n); [done|done|by apply coins_ok_held|apply Hcan|done| |done].
  intros new Hnew (_ & Hnn & Hw). split; [|done]. by eapply Plus_canonical; [apply Ha|exact Hcan|].
Qed.

(** With coins of amount zero allowed, any one coin moved. *)
Lemma coin_sorted c : sorted [c].
Proof. by repeat constructor. Qed.

Lemma subtractCoins_held (st : stores) (accs : gmap Address BaseAccount) (n : Z) (addr : Address) (c : Coin) :
  auth_st am st accs n -> accs_held accs -> Int.wf (Amount c) ->
  pspec m (subtractCoins ctx am addr [c]) st (moved_post coins_held (-1) accs st addr [c]) any_panic.
Proof.
  intros Hst Hok Hc. apply (subtractCoins_moves coins_held st accs n);
    [done|done|by apply coins_at_held|apply coin_sorted|by constructor|done|done].
Qed.

Lemma addCoins_held (st : stores) (accs : gmap Address BaseAccount) (n : Z) (addr : Address) (c : Coin) (E : panic_value -> Prop) :
  auth_st am st accs n -> accs_held accs -> Int.wf (Amount c) -> E (PanicString "Int overflow") ->
  pspec m (addCoins ctx am addr [c]) st (moved_post coins_held 1 accs st addr [c]) E.
Proof.
  intros Hst Hok Hc. apply (addCoins_moves coins_held st accs n);
    [done|done|by apply coins_at_held|apply coin_sorted|by constructor|done].
Qed.

Lemma subtractCoins_spec (st : stores) (accs : gmap Address BaseAccount) (n : Z) (addr : Address)
    (c : Coins) (E : panic_value -> Prop) :
  auth_st am st accs n -> accs_ok accs -> coins_ok c ->
  pspec m (subtractCoins ctx am addr c) st (move_post (-1) accs st addr c) E.
Proof.
  intros Hst Hok (Hcan & Hnn & Hcwf). destruct (coins_at_ok accs addr Hok) as (Hacan & Hann & Hawf).
  apply (subtractCoins_any st accs n); [done..|]. intros q Hq.
  destruct (Minus_total (coins_at accs addr) c) as [new Hnew]; [done|done| |congruence].
  intros d. pose proof (amounts_wf_amt _ d (proj1 Hacan) Hawf). pose proof (amounts_wf_amt _ d (proj1 Hcan) Hcwf).
  specialize (Hnn d). specialize (Hann d). unfold Int.wf in *. lia.
Qed.

Lemma addCoins_spec (st : stores) (accs : gmap Address BaseAccount) (n : Z) (addr : Address)
    (c : Coins) (E : panic_value -> Prop) :
  auth_st am st accs n -> accs_ok accs -> coins_ok c -> E (PanicString "Int overflow") ->
  pspec m (addCoins ctx am addr c) st (move_post 1 accs st addr c) E.
Proof. intros Hst Hok (Hcan & _ & Hcwf). by apply (addCoins_any st accs n). Qed.

(** *** The loops *)

Definition loop_moved (sg : Z) (l : list (Address * Coins)) (accs : gmap Address BaseAccount) (st : stores)
    (r : Tags + sdkError) (st' : stores) : Prop :=
  match r with
  | inr err => (exists a d, amt (coins_at accs a) d + sg * spent l a d < 0) /\
               Result_IsOK (err_Result err) = false
  | inl _ => exists accs' n', auth_st am st' accs' n' /\ accs_ok accs' /\ frame (am_key am) st st' /\
      transfer accs accs' (fun a d => sg * spent l a d) (fun d => sg * spent_total l d)
  end.

Lemma transfer_ext accs accs' f f' g g' :
  (forall a d, f a d = f' a d) -> (forall d, g d = g' d) -> transfer accs accs' f g -> transfer accs accs' f' g'.
Proof.
  intros Hf Hg [Hc Ht Hs]. constructor; [|intros d; by rewrite <- Hg|done].
  intros a d. by rewrite <- Hf.
Qed.

Lemma transfer_refl accs : transfer accs accs (fun _ _ => 0) (fun _ => 0).
Proof. constructor; [intros; lia..|]. intros a acc Ha. exists (acc_Coins acc). rewrite Ha. by destruct acc. Qed.

Lemma coins_loop_spec (sg : Z) (step : Address -> Coins -> prog (Coins * Tags * option sdkError)) (l : list (Address * Coins)) (tags : Tags) (E : panic_value -> Prop)
    (st : stores) (accs : gmap Address BaseAccount) (n : Z) :
  sg = 1 \/ sg = -1 ->
  (forall st accs n addr c, auth_st am st accs n -> accs_ok accs -> coins_ok c ->
     pspec m (step addr c) st (move_post sg accs st addr c) E) ->
  auth_st am st accs n -> accs_ok accs -> Forall (fun p => coins_ok p.2) l ->
  pspec m (coins_loop step l tags) st (loop_moved sg l accs st) E.
Proof.
  intros Hsg Hstep. revert tags st accs n.
  induction l as [|[addr c] l IH]; intros tags st accs n Hst Hok Hl.
  { apply pspec_ret. exists accs, n. split_and!; auto with sdk.
    eapply transfer_ext; [| |apply transfer_refl]; simpl; lia. }
  inversion Hl as [|? ? Hc Hl']; subst. simpl in Hc. cbn [coins_loop].
  eapply pspec_call; [by apply (Hstep st accs n)|]. intros [[coins tags1] err] st1 Hpost.
  unfold move_post, moved_post in Hpost. simpl in Hpost. destruct err as [err|].
  - apply pspec_ret. destruct Hpost as [[d Hd] [Herr _]]. split; [|done]. exists addr, d. simpl.
    rewrite decide_True by done. pose proof (spent_nonneg l addr d Hl'). pose proof (proj1 (proj2 (coins_at_ok accs addr Hok)) d).
    destruct Hc as (_ & Hc & _). specialize (Hc d). destruct Hsg; subst; lia.
  - destruct Hpost as (accs1 & n1 & Hst1 & Hok1 & Hf1 & Htr1).
    eapply pspec_mono; [by apply (IH _ st1 accs1 n1)| |done]. intros r st' Hr.
    unfold loop_moved in *. destruct r as [tags'|err].
    + destruct Hr as (accs' & n' & Hst' & Hok' & Hf' & Htr'). exists accs', n'.
      split_and!; [done|done|by eapply frame_trans|].
      eapply transfer_ext; [| |exact (transfer_trans _ _ _ _ _ _ _ Htr1 Htr')]; intros; simpl;
        [case_decide|]; lia.
    + destruct Hr as [(a & d & Hd) Herr]. split; [|done]. exists a, d.
      rewrite (tr_coins _ _ _ _ Htr1) in Hd. simpl. case_decide; lia.
Qed.
End keeper_spec.

(** ** Validated messages *)

Section validated.
Context `{Crypto}.

Definition in_pairs (l : list Input) : list (Address * Coins) := (fun i => (in_Address i, in_Coins i)) <$> l.
Definition out_pairs (l : list Output) : list (Address * Coins) := (fun o => (out_Address o, out_Coins o)) <$> l.

Definition pair_valid (p : Address * Coins) : Prop :=
  p.1 <> [] /\ canonical p.2 /\ (forall d, 0 <= amt p.2 d).

Lemma ValidateBasic_pair addr coins :
  address_coins_ValidateBasic addr coins = None -> pair_valid (addr, coins).
Proof.
  unfold address_coins_ValidateBasic. destruct addr as [|b addr]; [done|]. simpl.
  destruct (IsValid coins) eqn:Ev; [|done]. destruct (IsPositive coins) eqn:Ep; [|done]. intros _.
  destruct (IsValid_IsPositive_canonical coins Ev Ep) as (Hc & Hn & _). by split.
Qed.

Lemma validate_inputs_spec l tot t :
  canonical tot -> validate_inputs l tot = Ok (inl t) ->
  Forall pair_valid (in_pairs l) /\ canonical t /\
  forall d, amt t d = amt tot d + spent_total (in_pairs l) d.
Proof.
  revert tot. induction l as [|i l IH]; intros tot Htot; simpl.
  { intros [= <-]. split_and!; [constructor|done|intros; lia]. }
  destruct (Input_ValidateBasic i) eqn:Ei; [done|]. apply ValidateBasic_pair in Ei as Hv.
  destruct (Plus tot (in_Coins i)) as [tot'|] eqn:Ep; [|done]. simpl. intros Hl.
  destruct (IH tot') as (Hf & Ht & Ha); [exact (Plus_canonical _ _ _ Htot (proj1 (proj2 Hv)) Ep)|done|].
  split_and!; [by constructor|done|]. intros d. rewrite Ha, (Plus_amt _ _ _ d Ep). lia.
Qed.

Lemma validate_outputs_spec l tot t :
  canonical tot -> validate_outputs l tot = Ok (inl t) ->
  Forall pair_valid (out_pairs l) /\ canonical t /\
  forall d, amt t d = amt tot d + spent_total (out_pairs l) d.
Proof.
  revert tot. induction l as [|i l IH]; intros tot Htot; simpl.
  { intros [= <-]. split_and!; [constructor|done|intros; lia]. }
  destruct (Output_ValidateBasic i) eqn:Ei; [done|]. apply ValidateBasic_pair in Ei as Hv.
  destruct (Plus tot (out_Coins i)) as [tot'|] eqn:Ep; [|done]. simpl. intros Hl.
  destruct (IH tot') as (Hf & Ht & Ha); [exact (Plus_canonical _ _ _ Htot (proj1 (proj2 Hv)) Ep)|done|].
  split_and!; [by constructor|done|]. intros d. rewrite Ha, (Plus_amt _ _ _ d Ep). lia.
Qed.

Lemma IsEqual_eq c1 c2 : IsEqual c1 c2 = true -> c1 = c2.
Proof.
  unfold IsEqual. destruct (length c1 =? length c2)%nat eqn:El; [|done]. simpl. apply Nat.eqb_eq in El.
  revert c2 El. induction c1 as [|[d1 a1] c1 IH]; intros [|[d2 a2] c2] El; try done. simpl.
  case_bool_decide as Hd; [|done]. simpl. unfold Int.Equal, equal, big_Cmp.
  destruct (a1 ?= a2) eqn:Ec; try done. apply Z.compare_eq in Ec. simpl. intros Hl. subst.
  f_equal. apply IH; [by injection El|done].
Qed.

(** A message that passes ValidateBasic moves as much in as out. *)
Lemma MsgSend_ValidateBasic_spec msg :
  MsgSend_ValidateBasic msg = Ok None ->
  Forall pair_valid (in_pairs (Inputs msg)) /\ Forall pair_valid (out_pairs (Outputs msg)) /\
  forall d, spent_total (in_pairs (Inputs msg)) d = spent_total (out_pairs (Outputs msg)) d.
Proof.
  unfold MsgSend_ValidateBasic. destruct (_ =? 0)%nat; [done|]. destruct (_ =? 0)%nat; [done|].
  assert (Hnil : canonical []) by (split; constructor).
  destruct (validate_inputs (Inputs msg) []) as [[tin|]|] eqn:Ein; try done. simpl.
  destruct (validate_outputs (Outputs msg) []) as [[tout|]|] eqn:Eout; try done. simpl.
  destruct (IsEqual tin tout) eqn:Ee; [|done]. intros _. apply IsEqual_eq in Ee as <-.
  destruct (validate_inputs_spec _ _ _ Hnil Ein) as (Hi & _ & Hia).
  destruct (validate_outputs_spec _ _ _ Hnil Eout) as (Ho & _ & Hoa).
  split_and!; [done..|]. intros d. specialize (Hia d). specialize (Hoa d). simpl in *. lia.
Qed.

Definition amounts_in_range (l : list (Address * Coins)) : Prop := Forall (fun p => amounts_wf p.2) l.

Lemma pairs_coins_ok l : Forall pair_valid l -> amounts_in_range l -> Forall (fun p => coins_ok p.2) l.
Proof.
  intros Hv Hr. apply Forall_forall. intros p Hp. unfold amounts_in_range in Hr. rewrite Forall_forall in Hv, Hr.
  destruct (Hv p Hp) as (_ & Hc & Hn). split_and!; [done|done|by apply Hr].
Qed.
End validated.

(** ** Properties *)

Definition int_overflow (q : panic_value) : Prop := q = PanicString "Int overflow".

(** C7: handling a MsgSend that passed ValidateBasic, over accounts with
    non-negative canonical coins: it succeeds exactly when every address holds
    what its inputs take from it; then each balance has changed by exactly the
    outputs to it less the inputs from it, the total of every denomination is
    the same, all balances stay canonical and non-negative, keys, numbers and
    sequences of the accounts are untouched, and so is every other store.  It
    panics only out of gas or if an amount overflows. *)
Theorem handleMsgSend_conserves `{CodecLaws} (ctx : Ctx) (k : AccountMapper) (msg : MsgSend)
    (st : stores) (accs : gmap Address BaseAccount) (n : Z)
    (Hv : MsgSend_ValidateBasic msg = Ok None)
    (Hin : amounts_in_range (in_pairs (Inputs msg))) (Hout : amounts_in_range (out_pairs (Outputs msg)))
    (Hst : auth_st k st accs n) (Hok : accs_ok accs) :
  pspec (cx_GasMeter ctx) (handleMsgSend ctx k msg) st (fun res st' =>
    (Result_IsOK res = true <->
       forall a d, spent (in_pairs (Inputs msg)) a d <= amt (coins_at accs a) d) /\
    (Result_IsOK res = true -> exists accs' n', auth_st k st' accs' n' /\ accs_ok accs' /\
       frame (am_key k) st st' /\
       transfer accs accs'
         (fun a d => spent (out_pairs (Outputs msg)) a d - spent (in_pairs (Inputs msg)) a d) (fun _ => 0)))
    int_overflow.
Proof.
  destruct (MsgSend_ValidateBasic_spec msg Hv) as (Hvi & Hvo & Heq).
  pose proof (pairs_coins_ok _ Hvi Hin) as Hoki. pose proof (pairs_coins_ok _ Hvo Hout) as Hoko.
  apply pspec_bind, pspec_bind. eapply pspec_mono; [|intros r st1 Hr1|done].
  { apply (coins_loop_spec ctx k (-1)) with (n:=n); [by right| |exact Hst|exact Hok|exact Hoki].
    intros. by eapply subtractCoins_spec. }
  destruct r as [tags|err].
  2:{ destruct Hr1 as [(a & d & Hd) Herr]. apply pspec_ret, pspec_ret. rewrite Herr. split; [|done].
      split; [done|]. intros Hall. specialize (Hall a d). unfold in_pairs in Hall. lia. }
  destruct Hr1 as (accs1 & n1 & Hst1 & Hok1 & Hf1 & Htr1). apply pspec_bind.
  eapply pspec_mono; [|intros r st2 Hr2|done].
  { apply (coins_loop_spec ctx k 1) with (n:=n1); [by left| |exact Hst1|exact Hok1|exact Hoko].
    intros. by eapply addCoins_spec. }
  destruct r as [tags2|err].
  - destruct Hr2 as (accs2 & n2 & Hst2 & Hok2 & Hf2 & Htr2). apply pspec_ret, pspec_ret.
    split; [split; [intros _ a d|done]|intros _].
    + pose proof (proj1 (proj2 (coins_at_ok accs1 a Hok1)) d) as Hnn.
      rewrite (tr_coins _ _ _ _ Htr1) in Hnn. unfold in_pairs. lia.
    + exists accs2, n2. split_and!; [done|done|by eapply frame_trans|].
      unfold in_pairs, out_pairs in *.
      eapply transfer_ext; [| |exact (transfer_trans _ _ _ _ _ _ _ Htr1 Htr2)]; [intros a d; simpl; lia|].
      intros d. simpl. specialize (Heq d). lia.
  - exfalso. destruct Hr2 as [(a & d & Hd) _].
    pose proof (spent_nonneg _ a d Hoko). pose proof (proj1 (proj2 (coins_at_ok accs1 a Hok1)) d).
    unfold out_pairs in *. lia.
Qed.

(** SendCoins moves coins between accounts and creates none: it fails,
    with nothing written, exactly when the sender lacks some of the amount;
    otherwise the sender has that much less and the recipient that much more
    (nothing changes if they are the same), and the totals are the same. *)
Theorem sendCoins_moves `{CodecLaws} (ctx : Ctx) (am : AccountMapper) (fromAddr toAddr : Address) (c : Coins)
    (st : stores) (accs : gmap Address BaseAccount) (n : Z)
    (Hst : auth_st am st accs n) (Hok : accs_ok accs) (Hc : coins_ok c) :
  pspec (cx_GasMeter ctx) (sendCoins ctx am fromAddr toAddr c) st (fun r st' =>
    (r.2 = None <-> forall d, amt c d <= amt (coins_at accs fromAddr) d) /\
    (r.2 <> None -> st' = st) /\
    (r.2 = None -> exists accs' n', auth_st am st' accs' n' /\ accs_ok accs' /\ frame (am_key am) st st' /\
       transfer accs accs' (fun a d => (if decide (a = toAddr) then amt c d else 0) -
                                       (if decide (a = fromAddr) then amt c d else 0)) (fun _ => 0)))
    int_overflow.
Proof.
  eapply pspec_call; [by eapply subtractCoins_spec|]. intros [[c1 tags1] [err|]] st1 Hp; unfold move_post, moved_post in Hp; simpl in Hp.
  { apply pspec_ret. destruct Hp as ([d Hd] & _ & ->). split_and!; [|done|done]. split; [done|].
    intros Hall. specialize (Hall d). lia. }
  destruct Hp as (accs1 & n1 & Hst1 & Hok1 & Hf1 & Htr1).
  assert (Hle : forall d, amt c d <= amt (coins_at accs fromAddr) d).
  { intros d. pose proof (proj1 (proj2 (coins_at_ok accs1 fromAddr Hok1)) d) as Hnn.
    rewrite (tr_coins _ _ _ _ Htr1), decide_True in Hnn by done. lia. }
  eapply pspec_call; [by eapply addCoins_spec|]. intros [[c2 tags2] [err|]] st2 Hp; unfold move_post, moved_post in Hp; simpl in Hp.
  - exfalso. destruct Hp as [[d Hd] _]. pose proof (proj1 (proj2 (coins_at_ok accs1 toAddr Hok1)) d).
    destruct Hc as (_ & Hn & _). specialize (Hn d). lia.
  - destruct Hp as (accs2 & n2 & Hst2 & Hok2 & Hf2 & Htr2). apply pspec_ret. split_and!; [done|done|]. intros _.
    exists accs2, n2. split_and!; [done|done|by eapply frame_trans|].
    eapply transfer_ext; [| |exact (transfer_trans _ _ _ _ _ _ _ Htr1 Htr2)]; intros; simpl;
      [repeat case_decide|]; lia.
Qed.

(** ** Witnesses *)

Section bank_witnesses.
#[local] Existing Instance model_Crypto.
#[local] Existing Instance model_Codec.
#[local] Existing Instance model_CodecLaws.

Definition ex_send : MsgSend :=
  mk_MsgSend [NewInput ex_addr [NewCoin "atom" 7]] [NewOutput [Byte.x06] [NewCoin "atom" 7]].

Lemma ex_coins_ok z : 0 < z < 1000 -> coins_ok [NewCoin "atom" z].
Proof.
  intros Hz. split_and!.
  - split; [repeat constructor|]. constructor; [simpl; unfold Int.NewInt; lia|constructor].
  - intros d. simpl. unfold Int.NewInt. case_decide; lia.
  - constructor; [unfold Int.wf; simpl; unfold Int.NewInt; lia|constructor].
Qed.

Lemma ex_accs_ok : accs_ok ex_accs.
Proof.
  intros a acc. unfold ex_accs. rewrite lookup_singleton_Some. intros [_ <-]. by apply ex_coins_ok.
Qed.

Lemma ex_range : amounts_in_range (in_pairs (Inputs ex_send)) /\ amounts_in_range (out_pairs (Outputs ex_send)).
Proof. by split; (constructor; [by apply (ex_coins_ok 7)|constructor]). Qed.

Lemma handleMsgSend_conserves_witness :
  MsgSend_ValidateBasic ex_send = Ok None /\
  pspec 0 (handleMsgSend ex_ctx ex_am ex_send) ex_stores (fun res st' => Result_IsOK res = true ->
    exists accs' n', auth_st ex_am st' accs' n' /\ total accs' "atom" = 20) int_overflow.
Proof.
  split; [vm_compute; reflexivity|]. eapply pspec_mono.
  - exact (handleMsgSend_conserves ex_ctx ex_am ex_send ex_stores ex_accs 0 ltac:(vm_compute; reflexivity)
      (proj1 ex_range) (proj2 ex_range) ex_auth_st ex_accs_ok).
  - intros res st' [_ Hres] HOK. destruct (Hres HOK) as (accs' & n' & Ha & _ & _ & Htr).
    exists accs', n'. split; [exact Ha|]. etransitivity; [apply (tr_total _ _ _ _ Htr)|vm_compute; reflexivity].
  - intros q Hq. exact Hq.
Defined.

(** The handler does succeed on it. *)
Example handleMsgSend_example :
  match interp (handleMsgSend ex_ctx ex_am ex_send)
          (mk_World (mk_spec_ms ex_stores ∅) [NewInfiniteGasMeter]) with
  | (Ok res, _) => Result_IsOK res
  | _ => false
  end = true.
Proof. vm_compute. reflexivity. Qed.

Lemma sendCoins_moves_witness :
  pspec 0 (sendCoins ex_ctx ex_am ex_addr [Byte.x06] [NewCoin "atom" 7]) ex_stores (fun r st' =>
    r.2 = None <-> forall d, amt [NewCoin "atom" 7] d <= amt (coins_at ex_accs ex_addr) d) int_overflow.
Proof.
  eapply pspec_mono.
  - exact (sendCoins_moves ex_ctx ex_am ex_addr [Byte.x06] [NewCoin "atom" 7] ex_stores ex_accs 0
      ex_auth_st ex_accs_ok (ex_coins_ok 7 ltac:(lia))).
  - intros r st' [Hr _]. exact Hr.
  - intros q Hq. exact Hq.
Defined.
End bank_witnesses.
