(* ===== verification/RunTx.v ===== *)
(** * baseapp/baseapp.go runTx, baseapp/router.go

    How one transaction runs: the ante handler on the state's multi-store, the
    messages in a cache of it that is written only if all of them succeed.
    [spec_exec] is the same on plain maps without any cache, the messages of a
    failed or simulated transaction simply forgotten; [exec_refines] shows that
    the caches implement it. *)
From Stdlib Require Import Strings.Byte Strings.String.
From stdpp Require Import pretty.
From S2P Require Import Prelude Errors KVStore MergeIterator CacheKV MultiStore Account Context Auth.
#[local] Open Scope string_scope.
#[local] Open Scope list_scope.
#[local] Open Scope Z_scope.

(** ** types/handler.go *)

Definition Handler `{Crypto} (T : Type) : Type := Ctx -> T -> prog Result.

(** [None] is the zero context. *)
Definition AnteHandler `{Crypto} (T : Type) : Type := Ctx -> Tx T -> prog (option Ctx * Result * bool).

(** ** router.go *)

Section router.
Context `{Crypto} {T : Type}.

Abbreviation router := (list (string * Handler T)).

Definition NewRouter : router := [].

(** [^[a-zA-Z]+$] *)
Definition is_letter (c : Ascii.ascii) : bool :=
  let n := Z.of_nat (Ascii.nat_of_ascii c) in
  ((65 <=? n) && (n <=? 90)) || ((97 <=? n) && (n <=? 122)).
Definition isAlpha (r : string) : bool :=
  negb (bool_decide (r = "")) && forallb is_letter (list_ascii_of_string r).

Definition AddRoute (rtr : router) (r : string) (h : Handler T) : outcome router :=
  if negb (isAlpha r) then
    Panicked (PanicString "route expressions can only contain alphanumeric characters")
  else Ok (rtr ++ [(r, h)]).

Fixpoint Route (rtr : router) (path : string) : option (Handler T) :=
  match rtr with
  | [] => None
  | (r, h) :: rtr => if bool_decide (r = path) then Some h else Route rtr path
  end.
End router.

(** ** runTx *)

Inductive runTxMode := runTxModeCheck | runTxModeSimulate | runTxModeDeliver.

#[export] Instance runTxMode_eq_dec : EqDecision runTxMode.
Proof. solve_decision. Defined.

(** strings.Join *)
Fixpoint Join (l : list text) (sep : string) : text :=
  match l with
  | [] => TStr ""
  | [t] => t
  | t :: l => TApp t (TApp (TStr sep) (Join l sep))
  end.

Definition with_log (res : Result) (log : text) : Result :=
  mk_Result (Code res) (Data res) log (GasWanted res) (GasUsed res) (FeeAmount res) (FeeDenom res) (ResTags res).
Definition with_gas_used (res : Result) (gas : Z) : Result :=
  mk_Result (Code res) (Data res) (Log res) (GasWanted res) gas (FeeAmount res) (FeeDenom res) (ResTags res).

Section runtx.
Context `{Crypto} {T : Type} `{Msg T}.

(** The panics a deferred recover turns into results; the text of a value and
    of the stack is not determined by the code. *)
Definition recovered (stack : panic_value -> string) (q : panic_value) : Result :=
  match q with
  | ErrorOutOfGas d => err_Result (ErrOutOfGas ("out of gas in location: " ++ d)%string)
  | _ => err_Result (ErrInternal (stack q))
  end.

(** The loop that validates the messages: an error ends the transaction. *)
Fixpoint validate_msgs (msgs : list T) : outcome (option Result) :=
  match msgs with
  | [] => Ok None
  | msg :: msgs =>
      err ← ValidateBasic msg;
      match err with
      | Some err => Ok (Some (err_Result (WithDefaultCodespace err CodespaceRoot)))
      | None => validate_msgs msgs
      end
  end.

(** The loop over the messages: [n] of them in all, from index [i]. [inr] is
    returned at once; [inl] is the last result, the final one and the logs. *)
Fixpoint msgs_loop (rtr : list (string * Handler T)) (ctx : Ctx) (n i : nat) (msgs : list T)
    (last final : Result) (logs : list text) : prog (Result * Result * list text + Result) :=
  match msgs with
  | [] => mret (inl (last, final, logs))
  | msg :: msgs =>
      match Route rtr (Type_ msg) with
      | None => mret (inr (err_Result (ErrUnknownRequest ("Unrecognized Msg type: " ++ Type_ msg)%string)))
      | Some handler =>
          result ← handler ctx msg;
          gas ← ctx_GasConsumed ctx;
          let final := mk_Result (Code final) (Data final ++ Data result) (Log final)
            (wrap64 (GasWanted final + GasWanted result)) (wrap64 (GasUsed final + gas))
            (FeeAmount final) (FeeDenom final) (ResTags final ++ ResTags result) in
          let logs := logs ++ [TApp (TStr ("Msg " ++ pretty (Z.of_nat i + 1) ++ ": ")%string) (Log final)] in
          if negb (Result_IsOK result) then
            if (n =? 1)%nat then mret (inr result) else
            let result := with_gas_used result (GasUsed final) in
            let log :=
              if (i =? 0)%nat then TApp (TStr "Msg 1 failed: ") (Log result)
              else TApp (TStr ("Msg 1-" ++ pretty (Z.of_nat i) ++ " Passed. Msg " ++
                     pretty (Z.of_nat i + 1) ++ " failed: ")%string) (Log result) in
            mret (inr (with_log result log))
          else msgs_loop rtr ctx n (S i) msgs result final logs
      end
  end.

Definition final_result (final : Result) (logs : list text) : Result :=
  with_log final (Join logs (String (Ascii.ascii_of_nat 10) "")).

(** [if app.anteHandler != nil]: the context to go on with, or the result. *)
Definition run_ante (ante : option (AnteHandler T)) (ctx : Ctx) (tx : Tx T) : prog (Ctx + Result) :=
  match ante with
  | None => mret (inl ctx)
  | Some anteHandler =>
      '(newCtx, result, abort) ← anteHandler ctx tx;
      if (abort : bool) then mret (inr result)
      else mret (inl (default ctx newCtx))
  end.

Section on_store.
Context {MS : Type} `{MultiStore MS} `{LibDB}.

(** The messages, in a cache of the state's multi-store. *)
Definition exec_msgs (rtr : list (string * Handler T)) (mode : runTxMode) (ctx : Ctx) (msgs : list T)
    : M (World MS) Result := fun w =>
  let '(r, wc) := interp (msgs_loop rtr ctx (length msgs) 0 msgs zero_Result zero_Result [])
                    (mk_World (newCacheMultiStore (w_ms w)) (w_meters w)) in
  match r with
  | Panicked q => (Panicked q, mk_World (cms_parent (w_ms wc)) (w_meters wc))
  | Ok (inr result) => (Ok result, mk_World (cms_parent (w_ms wc)) (w_meters wc))
  | Ok (inl (result, final, logs)) =>
      if negb (bool_decide (mode = runTxModeSimulate)) && Result_IsOK result then
        match cacheMS_Write (w_ms wc) with
        | (Ok _, cms) => (Ok (final_result final logs), mk_World (cms_parent cms) (w_meters wc))
        | (Panicked q, cms) => (Panicked q, mk_World (cms_parent cms) (w_meters wc))
        end
      else (Ok (final_result final logs), mk_World (cms_parent (w_ms wc)) (w_meters wc))
  end.

(** runTx from the ante handler on. *)
Definition exec_tx (ante : option (AnteHandler T)) (rtr : list (string * Handler T)) (mode : runTxMode)
    (ctx : Ctx) (tx : Tx T) : M (World MS) Result :=
  r ← interp (run_ante ante ctx tx);
  match r with
  | inr result => mret result
  | inl ctx => exec_msgs rtr mode ctx (GetMsgs tx)
  end.
End on_store.

(** ** The specification, on maps *)

(** The messages run on the maps; what they did is kept only on success. *)
Definition spec_msgs (rtr : list (string * Handler T)) (mode : runTxMode) (ctx : Ctx) (msgs : list T)
    : M (World spec_ms) Result := fun w =>
  let '(r, w') := interp (msgs_loop rtr ctx (length msgs) 0 msgs zero_Result zero_Result []) w in
  let undone := mk_World (w_ms w) (w_meters w') in
  match r with
  | Panicked q => (Panicked q, undone)
  | Ok (inr result) => (Ok result, undone)
  | Ok (inl (result, final, logs)) =>
      (Ok (final_result final logs),
       if negb (bool_decide (mode = runTxModeSimulate)) && Result_IsOK result then w' else undone)
  end.

Definition spec_exec (ante : option (AnteHandler T)) (rtr : list (string * Handler T)) (mode : runTxMode)
    (ctx : Ctx) (tx : Tx T) : M (World spec_ms) Result :=
  r ← interp (run_ante ante ctx tx);
  match r with
  | inr result => mret result
  | inl ctx => spec_msgs rtr mode ctx (GetMsgs tx)
  end.
End runtx.

(** ** The refinement *)

Section refinement.
Context {MS : Type} `{HM : MultiStore MS} `{HL : !MultiStoreLaws MS} `{HD : LibDBLaws}.
Context `{HC : Crypto} {T : Type} `{HT : Msg T}.

(** What the code asks of its handlers: scans in ranges the interface allows. *)
Definition ante_ok (ante : option (AnteHandler T)) : Prop :=
  match ante with None => True | Some h => forall ctx tx, prog_ok (h ctx tx) end.
Definition router_ok (rtr : list (string * Handler T)) : Prop :=
  Forall (fun r => forall ctx msg, prog_ok (r.2 ctx msg)) rtr.

Lemma Route_ok rtr path h : router_ok rtr -> Route rtr path = Some h -> forall ctx msg, prog_ok (h ctx msg).
Proof.
  induction 1 as [|[r h'] rtr Hh _ IH]; simpl; [done|].
  case_bool_decide; [|done]. intros [= <-]. exact Hh.
Qed.

Lemma msgs_loop_ok rtr ctx n msgs : router_ok rtr ->
  forall i last final logs, prog_ok (msgs_loop rtr ctx n i msgs last final logs).
Proof.
  intros Hr. induction msgs as [|msg msgs IH]; intros i last final logs; simpl; [done|].
  destruct (Route rtr (Type_ msg)) as [h|] eqn:Eh; [|done].
  apply prog_ok_bind; [by eapply Route_ok|]. intros result. simpl. intros gas.
  destruct (Result_IsOK result); simpl; [apply IH|]. by destruct (n =? 1)%nat.
Qed.

Lemma run_ante_ok ante ctx tx : ante_ok ante -> prog_ok (run_ante ante ctx tx).
Proof.
  intros Ha. destruct ante as [h|]; simpl; [|done]. apply prog_ok_bind; [apply Ha|].
  by intros [[newCtx result] []].
Qed.

Lemma exec_msgs_sim rtr mode ctx msgs (w : World MS) (v : World spec_ms) :
  router_ok rtr -> world_rel w v ->
  rsim eq world_rel (exec_msgs rtr mode ctx msgs) (spec_msgs rtr mode ctx msgs) w v.
Proof.
  intros Hr (Hw & Hv & Hm). unfold rsim, exec_msgs, spec_msgs.
  destruct w as [ms meters], v as [vms meters']. simpl in *. subst meters'.
  pose proof (cache_run_rel (msgs_loop rtr ctx (length msgs) 0 msgs zero_Result zero_Result [])
    ms vms meters (msgs_loop_ok _ _ _ _ Hr _ _ _ _) Hw Hv) as Hrun.
  destruct (interp _ (mk_World (newCacheMultiStore ms) meters)) as [r wc],
    (interp _ (mk_World vms meters)) as [r' v'].
  destruct Hrun as (<- & Hmeters & [Hcw Hcf] & [Hpw Hpv] & Hcv).
  assert (Hundone : world_rel (mk_World (cms_parent (w_ms wc)) (w_meters wc)) (mk_World vms (w_meters v'))).
  { split_and!; [done| |done]. intros k. simpl. by rewrite Hpv, Hv. }
  destruct r as [[[[result final] logs]|result]|q]; [|by split..].
  destruct (negb _ && _); [|by split].
  destruct (cacheMS_Write_run _ _ (w_ms wc) Hcw Hcf) as (cms' & HW & Hw' & Hv' & _).
  rewrite HW. split; [done|]. split_and!; [done| |done]. intros k. simpl. by rewrite Hv', Hcv.
Qed.

(** Running a transaction with caches does what running it on maps does. *)
Lemma exec_sim ante rtr mode ctx tx (w : World MS) (v : World spec_ms) :
  ante_ok ante -> router_ok rtr -> world_rel w v ->
  rsim eq world_rel (exec_tx ante rtr mode ctx tx) (spec_exec ante rtr mode ctx tx) w v.
Proof.
  intros Ha Hr Hw. eapply rsim_bind; [by apply interp_sim; [apply run_ante_ok|]|done|].
  intros r ? w' v' <- Hw'. destruct r as [ctx'|res]; [by apply exec_msgs_sim|by apply rsim_ret].
Qed.
End refinement.

(** ** Invariants of the multi-store a transaction runs on *)

Section exec_inv.
Context {MS : Type} `{HM : MultiStore MS} `{HD : LibDB} `{HC : Crypto} {T : Type} `{HT : Msg T}.
Variable I : MS -> Prop.
Hypothesis I_put : forall ms k s, I ms -> is_Some (ms_store ms k) -> I (ms_put k s ms).
Hypothesis I_db : forall ms d, I ms -> I (ms_put_db d ms).

Lemma cms_put_inv (cms : cacheMultiStore MS) k s :
  I (cms_parent cms) -> is_Some (cms_store cms k) -> I (cms_parent (cms_put k s cms)).
Proof. intros Hi [[c p] Hk]. apply cms_store_Some in Hk as [_ Hp]. simpl. apply I_put; [done|by eexists]. Qed.

Lemma cacheMS_Write_inv (cms : cacheMultiStore MS) :
  I (cms_parent cms) -> I (cms_parent (cacheMS_Write cms).2).
Proof.
  intros Hi. unfold cacheMS_Write, mbind, M_bind, onDB, zoom.
  destruct (Write (P:=DBS (MS:=MS)) _) as [[u|q] d] eqn:EW; [|by apply I_db]. simpl.
  assert (Hloop : forall keys (c : cacheMultiStore MS), I (cms_parent c) ->
    I (cms_parent (iterM (fun key => withStore (MS:=cacheMultiStore MS) key (Write (P:=KVS (MS:=MS)))) keys c).2)).
  { induction keys as [|k keys IH]; intros c Hc; simpl; [done|]. unfold mbind, M_bind, withStore.
    destruct (ms_store c k) as [s|] eqn:Es; [|done].
    destruct (Write (P:=KVS (MS:=MS)) s) as [r s'].
    assert (I (cms_parent (cms_put k s' c))) by (apply cms_put_inv; [done|exists s; exact Es]).
    destruct r; [by apply IH|done]. }
  apply Hloop. by apply I_db.
Qed.

Lemma exec_msgs_inv rtr mode ctx msgs (w : World MS) :
  I (w_ms w) -> I (w_ms (exec_msgs rtr mode ctx msgs w).2).
Proof.
  intros Hi. unfold exec_msgs.
  pose proof (interp_inv (MS:=cacheMultiStore MS) (fun c => I (cms_parent c))
    (fun c k s Hc Hk => cms_put_inv c k s Hc Hk)
    (msgs_loop rtr ctx (length msgs) 0 msgs zero_Result zero_Result [])
    (mk_World (newCacheMultiStore (w_ms w)) (w_meters w)) Hi) as Hrun.
  destruct (interp _ _) as [r wc]. simpl in Hrun.
  destruct r as [[[[result final] logs]|result]|q]; [|done..].
  destruct (negb _ && _); [|done].
  pose proof (cacheMS_Write_inv (w_ms wc) Hrun) as HW.
  by destruct (cacheMS_Write (w_ms wc)) as [[] cms].
Qed.

Lemma exec_inv ante rtr mode ctx tx (w : World MS) :
  I (w_ms w) -> I (w_ms (exec_tx ante rtr mode ctx tx w).2).
Proof.
  intros Hi. unfold exec_tx, mbind, M_bind.
  pose proof (interp_inv I I_put (run_ante ante ctx tx) w Hi) as Hrun.
  destruct (interp _ _) as [[[ctx'|res]|q] w']; [by apply exec_msgs_inv|done|done].
Qed.
End exec_inv.
