(* ===== verification/ReadOnly.v ===== *)
(** * Reading a store leaves it as it is

    [keeps f m]: [m] does not change the part [f] of its state.  A cache only
    reads the store behind it until it is written, so whatever runs on a cache
    multi-store - a handler, a transaction - leaves the parent as it was, when
    the parent's reads do: not just its maps, but all of its state. *)
From Stdlib Require Import Strings.Byte Strings.String.
From S2P Require Import Prelude Errors KVStore MergeIterator CacheKV GasKV MultiStore Account Context Auth RunTx.
#[local] Open Scope string_scope.
#[local] Open Scope list_scope.
#[local] Open Scope Z_scope.

Definition keeps {S A X} (f : S -> X) (m : M S A) : Prop := forall s, f (m s).2 = f s.

Create HintDb keeps.

Section keeps.
Context {S X : Type} (f : S -> X).

Lemma keeps_ret {A} (a : A) : keeps f (mret a).
Proof. done. Qed.
Lemma keeps_panic {A} (q : panic_value) : keeps f (panicM (A:=A) q).
Proof. done. Qed.
Lemma keeps_get : keeps f getM.
Proof. done. Qed.
Lemma keeps_lift {A} (o : outcome A) : keeps f (liftO o).
Proof. done. Qed.

Lemma keeps_bind {A B} (m : M S A) (g : A -> M S B) :
  keeps f m -> (forall a, keeps f (g a)) -> keeps f (m ≫= g).
Proof.
  intros Hm Hg s. specialize (Hm s). unfold mbind, M_bind. destruct (m s) as [[a|q] s']; [|done].
  by rewrite Hg.
Qed.

Lemma keeps_iterM {A} (g : A -> M S unit) l : (forall a, keeps f (g a)) -> keeps f (iterM g l).
Proof. intros Hg. induction l as [|a l IH]; [apply keeps_ret|]. by apply keeps_bind. Qed.

(** On a part of the state. *)
Lemma keeps_zoom {T Y A} (get : T -> S) (put : S -> T -> T) (g : T -> Y) (m : M S A) :
  keeps f m -> (forall s t, f s = f (get t) -> g (put s t) = g t) -> keeps g (zoom get put m).
Proof. intros Hm Hg t. unfold zoom. specialize (Hm (get t)). destruct (m (get t)) as [r s]. by apply Hg. Qed.
End keeps.

#[export] Hint Resolve keeps_ret keeps_panic keeps_get keeps_lift keeps_iterM : keeps.

Ltac keeps_step := first
  [ progress intros
  | solve [auto with keeps]
  | apply keeps_bind
  | match goal with |- keeps _ (match ?x with _ => _ end) => destruct x end ].
Ltac keeps := repeat keeps_step.

(** ** Key-value stores *)

Class ReadsKeep {S X : Type} `{KVStore S} (f : S -> X) : Prop := {
  keeps_Get : forall k, keeps f (Get k);
  keeps_Has : forall k, keeps f (Has k);
  keeps_Iterator : forall a b, keeps f (Iterator a b);
  keeps_ReverseIterator : forall a b, keeps f (ReverseIterator a b);
  keeps_Valid : keeps (fun st => f st.1) Valid;
  keeps_Next : keeps (fun st => f st.1) Next;
  keeps_Key : keeps (fun st => f st.1) Key;
  keeps_Value : keeps (fun st => f st.1) Value;
}.
Class WritesKeep {S X : Type} `{KVStore S} (f : S -> X) : Prop := {
  keeps_Set : forall k v, keeps f (Set_ k v);
  keeps_Delete : forall k, keeps f (Delete k);
}.
#[export] Hint Resolve keeps_Get keeps_Has keeps_Iterator keeps_ReverseIterator keeps_Valid keeps_Next keeps_Key
  keeps_Value keeps_Set keeps_Delete : keeps.

Section clients.
Context {S X : Type} `{KVStore S} (f : S -> X) `{!ReadsKeep f}.

Lemma keeps_with_iter {A} it (m : M (S * Iter) A) : keeps (fun st => f st.1) m -> keeps f (with_iter it m).
Proof.
  intros Hm s. specialize (Hm (s, it)). unfold with_iter. by destruct (m (s, it)) as [[a|q] [s' it']].
Qed.

Lemma keeps_scan n : keeps (fun st => f st.1) (scan n).
Proof. induction n; simpl; keeps. Qed.
Lemma keeps_scan_pow n : keeps (fun st => f st.1) (scan_pow n).
Proof. induction n; simpl; keeps. Qed.
Hint Resolve keeps_with_iter keeps_scan keeps_scan_pow : keeps.

Lemma keeps_read_range asc a b : keeps f (read_range asc a b).
Proof. unfold read_range. keeps. Qed.

Lemma keeps_run_op `{!WritesKeep f} op : keeps f (run_op op).
Proof. destruct op; simpl; keeps. Qed.
End clients.

(** A gas-metered store: of its parent. *)
Section gas.
Context {P X : Type} `{KVStore P} (f : P -> X).

Lemma keeps_onMeter {A} (m : M GasMeter A) : keeps (fun gi : gasKVStore P => f (gi_parent gi)) (onMeter m).
Proof. intros gi. unfold onMeter, zoom. by destruct (m _). Qed.
Lemma keeps_onGasParent {A} (m : M P A) : keeps f m -> keeps (fun gi => f (gi_parent gi)) (onGasParent m).
Proof. intros Hm. eapply keeps_zoom; [exact Hm|]. done. Qed.
Lemma keeps_onIterMeter {A} (m : M GasMeter A) :
  keeps (fun st : gasKVStore P * Iter (S:=P) => f (gi_parent st.1)) (onIterMeter m).
Proof. intros st. unfold onIterMeter, onMeter, zoom. by destruct (m _). Qed.
Lemma keeps_onIterParent {A} (m : M (P * Iter) A) :
  keeps (fun st => f st.1) m -> keeps (fun st => f (gi_parent st.1)) (onIterParent m).
Proof. intros Hm. eapply keeps_zoom; [exact Hm|]. by intros [p it] [gi it'] E. Qed.
Hint Resolve keeps_onMeter keeps_onGasParent keeps_onIterMeter keeps_onIterParent : keeps.

#[export] Instance gas_ReadsKeep `{!ReadsKeep f} : ReadsKeep (fun gi : gasKVStore P => f (gi_parent gi)).
Proof.
  split; intros; simpl; unfold gasKV_Get, gasKV_Has, gasKV_iterator, gasIterator_Key, gasIterator_Value; keeps.
Qed.
#[export] Instance gas_WritesKeep `{!WritesKeep f} : WritesKeep (fun gi : gasKVStore P => f (gi_parent gi)).
Proof. split; intros; simpl; unfold gasKV_Set, gasKV_Delete; keeps. Qed.
End gas.

(** A cache store: of its parent, which is only read. *)
Section cache.
Context {P X : Type} `{KVStore P} `{LibDB} (f : P -> X).

Lemma keeps_onParent {A} (m : M (P * Iter) A) :
  keeps (fun st => f st.1) m -> keeps (fun st : mstate (P:=P) => f st.1) (onParent m).
Proof. intros Hm. eapply keeps_zoom; [exact Hm|]. by intros [p it] [p' it'] E. Qed.
Lemma keeps_onCache {A} (m : M memIterator A) : keeps (fun st : mstate (P:=P) => f st.1) (onCache m).
Proof. intros st. unfold onCache, zoom. by destruct (m _). Qed.
Lemma keeps_cm_compare a b : keeps (fun st : mstate (P:=P) => f st.1) (cm_compare a b).
Proof. unfold cm_compare. keeps. Qed.
Lemma keeps_cache_fuel : keeps (fun st : mstate (P:=P) => f st.1) cache_fuel.
Proof. unfold cache_fuel. keeps. Qed.
Hint Resolve keeps_onParent keeps_onCache keeps_cm_compare keeps_cache_fuel : keeps.

Lemma keeps_skipCacheDeletes until : keeps (fun st : mstate (P:=P) => f st.1) (skipCacheDeletes until).
Proof.
  apply keeps_bind; [apply keeps_cache_fuel|]. intros fuel. induction fuel as [|fuel IH]; simpl; keeps.
Qed.
Hint Resolve keeps_skipCacheDeletes : keeps.

Context `{!ReadsKeep f}.

Lemma keeps_skipUntil : keeps (fun st : mstate (P:=P) => f st.1) skipUntilExistsOrInvalid.
Proof.
  apply keeps_bind; [apply keeps_cache_fuel|]. intros fuel. induction fuel as [|fuel IH]; simpl; keeps.
Qed.
Hint Resolve keeps_skipUntil : keeps.

Lemma keeps_cm_assertValid : keeps (fun st : mstate (P:=P) => f st.1) cm_assertValid.
Proof. unfold cm_assertValid, cm_Valid. keeps. Qed.
Hint Resolve keeps_cm_assertValid : keeps.

Lemma keeps_onIter {A} (m : M (mstate (P:=P)) A) :
  keeps (fun st => f st.1) m -> keeps (fun st => f (ck_parent st.1)) (onIter m).
Proof. intros Hm. eapply keeps_zoom; [exact Hm|]. by intros [p it] [ci it'] E. Qed.
Lemma keeps_onP {A} (m : M P A) : keeps f m -> keeps (fun ci => f (ck_parent ci)) (onP m).
Proof. intros Hm. eapply keeps_zoom; [exact Hm|]. done. Qed.
Lemma keeps_setCacheValue k v deleted dirty :
  keeps (fun ci : cacheKVStore P => f (ck_parent ci)) (setCacheValue k v deleted dirty).
Proof. done. Qed.
Lemma keeps_assertValidKey k : keeps (fun ci : cacheKVStore P => f (ck_parent ci)) (assertValidKey k).
Proof. by destruct k. Qed.
Hint Resolve keeps_onIter keeps_onP keeps_setCacheValue keeps_assertValidKey : keeps.

#[export] Instance cache_ReadsKeep : ReadsKeep (fun ci : cacheKVStore P => f (ck_parent ci)).
Proof.
  split; intros; simpl; unfold cacheKV_Has, cacheKV_Get, cacheKV_iterator, cm_Valid; try solve [keeps];
    apply keeps_onIter; unfold cm_Next, cm_Key, cm_Value; keeps.
Qed.
#[export] Instance cache_WritesKeep : WritesKeep (fun ci : cacheKVStore P => f (ck_parent ci)).
Proof. split; intros; simpl; unfold cacheKV_Set, cacheKV_Delete; keeps. Qed.
End cache.

(** Write writes to the parent, and nothing behind it. *)
Section write.
Context {P X : Type} `{KVStore P} (f : P -> X) `{!WritesKeep f}.

Lemma keeps_Write_key key : keeps (fun ci : cacheKVStore P => f (ck_parent ci)) (Write_key key).
Proof. unfold Write_key. keeps; apply keeps_onP; auto with keeps. Qed.

Lemma keeps_Write : keeps (fun ci : cacheKVStore P => f (ck_parent ci)) Write.
Proof.
  unfold Write. apply keeps_bind; [apply keeps_get|]. intros ci.
  apply keeps_bind; [apply keeps_iterM, keeps_Write_key|]. intros _ s. reflexivity.
Qed.
End write.

(** ** Multi-stores

    [MSKeeps F f g]: putting back a store whose part [f] is the same, or the
    database with the same [g], keeps the part [F] of the multi-store. *)
Class MSKeeps {MS X Y W : Type} `{MultiStore MS} (F : MS -> X) (f : KVS -> Y) (g : DBS -> W) : Prop := {
  keeps_put : forall ms k s s', ms_store ms k = Some s -> f s' = f s -> F (ms_put k s' ms) = F ms;
  keeps_put_db : forall ms d, g d = g (ms_db ms) -> F (ms_put_db d ms) = F ms;
}.

Section ms.
Context {MS X Y W : Type} `{MultiStore MS} `{LibDB} (F : MS -> X) (f : KVS -> Y) (g : DBS -> W) `{!MSKeeps F f g}.

#[export] Instance cache_MSKeeps :
  MSKeeps (MS:=cacheMultiStore MS) (H:=cacheMS_MultiStore) (fun c => F (cms_parent c)) (fun ci : cacheKVStore KVS => f (ck_parent ci))
    (fun ci : cacheKVStore DBS => g (ck_parent ci)).
Proof.
  split.
  - intros c k [ca p] s' Hk E. apply cms_store_Some in Hk as [_ Hp]. by apply (keeps_put (f:=f) (g:=g) _ _ p).
  - intros c d E. by apply (keeps_put_db (f:=f) (g:=g)).
Qed.

Context `{!ReadsKeep f} `{!WritesKeep f}.

(** A program reads and writes the stores it is run on. *)
Lemma interp_keeps {A} (p : prog A) w : F (w_ms (interp p w).2) = F (w_ms w).
Proof.
  revert w. induction p as [A a|A q|A m k op c IH|A m a d c IH|A g' c IH|A m c IH|A k asc start end_ c IH
    |A C p IHp h IHh c IH]; intros w; simpl; unfold mbind, M_bind; try done.
  - unfold gas_store_op. destruct (w_meters w !! m) as [gm|]; [|done].
    destruct (ms_store (w_ms w) k) as [s|] eqn:Es; [|done].
    pose proof (keeps_run_op (fun gi => f (gi_parent gi)) op (NewGasKVStore gm s)) as Hk.
    destruct (run_op op (NewGasKVStore gm s)) as [r gi]. simpl in Hk.
    pose proof (keeps_put (F:=F) (f:=f) (g:=g) (w_ms w) k s (gi_parent gi) Es Hk) as Hput.
    destruct r; [rewrite <- Hput; apply (IH _ (mk_World _ _))|exact Hput].
  - unfold consume_op. destruct (w_meters w !! m) as [gm|]; [|done].
    destruct (ConsumeGas a d gm) as [[] ?]; [by rewrite IH|done].
  - apply (IH _ (mk_World _ _)).
  - unfold consumed_op. destruct (w_meters w !! m) as [gm|]; [by rewrite IH|done].
  - unfold range_op. destruct (ms_store (w_ms w) k) as [s|] eqn:Es; [|done].
    pose proof (keeps_read_range f asc start end_ s) as Hk.
    destruct (read_range asc start end_ s) as [r s']. simpl in Hk.
    pose proof (keeps_put (F:=F) (f:=f) (g:=g) (w_ms w) k s s' Es Hk) as Hput.
    destruct r; [rewrite <- Hput; apply (IH _ (mk_World _ _))|exact Hput].
  - specialize (IHp w). destruct (interp p w) as [[b|q] w1]; [by rewrite IH|].
    specialize (IHh w1). destruct (interp h w1) as [[] ?]; simpl in *; congruence.
Qed.
End ms.

(** ** A transaction *)

Section tx.
Context {MS X Y W : Type} `{MultiStore MS} `{LibDB} (F : MS -> X) (f : KVS -> Y) (g : DBS -> W) `{!MSKeeps F f g}.
Context `{!ReadsKeep f} `{!WritesKeep f} `{!WritesKeep g} `{Crypto} {T : Type} `{Msg T}.

Lemma keeps_cacheMS_Write : keeps (fun c : cacheMultiStore MS => F (cms_parent c)) cacheMS_Write.
Proof.
  unfold cacheMS_Write. apply keeps_bind.
  - eapply (keeps_zoom (fun ci : cacheKVStore DBS => g (ck_parent ci))); [apply (keeps_Write g)|].
    intros s c E. by apply (keeps_put_db (F:=F) (f:=f) (g:=g)).
  - intros _. apply keeps_bind; [apply keeps_get|]. intros c. apply keeps_iterM. intros key c'.
    unfold withStore. change (ms_store c' key) with (cms_store c' key).
    destruct (cms_store c' key) as [s|] eqn:Es; [|done].
    pose proof (keeps_Write f s) as Hw. destruct (Write s) as [r s'].
    destruct s as [ca p]. apply cms_store_Some in Es as [_ Hp]. by apply (keeps_put (f:=f) (g:=g) _ _ p).
Qed.

Lemma exec_msgs_keeps rtr mode ctx msgs w : F (w_ms (exec_msgs (T:=T) rtr mode ctx msgs w).2) = F (w_ms w).
Proof.
  unfold exec_msgs.
  pose proof (interp_keeps (MS:=cacheMultiStore MS) (H:=cacheMS_MultiStore) (fun c => F (cms_parent c))
    (fun ci : cacheKVStore KVS => f (ck_parent ci)) (fun ci : cacheKVStore DBS => g (ck_parent ci))
    (msgs_loop rtr ctx (length msgs) 0 msgs zero_Result zero_Result [])
    (mk_World (newCacheMultiStore (w_ms w)) (w_meters w))) as Hrun.
  destruct (interp _ _) as [r wc]. simpl in Hrun.
  destruct r as [[[[result final] logs]|result]|q]; [|exact Hrun..].
  destruct (negb _ && _); [|exact Hrun].
  pose proof (keeps_cacheMS_Write (w_ms wc)) as HW.
  destruct (cacheMS_Write (w_ms wc)) as [[] cms]; simpl in *; congruence.
Qed.

Lemma exec_tx_keeps ante rtr mode ctx (tx : Tx T) w : F (w_ms (exec_tx ante rtr mode ctx tx w).2) = F (w_ms w).
Proof.
  unfold exec_tx, mbind, M_bind. pose proof (interp_keeps F f g (run_ante ante ctx tx) w) as Hrun.
  destruct (interp _ _) as [[[ctx'|res]|q] w']; [|exact Hrun..].
  simpl in Hrun. rewrite <- Hrun. apply exec_msgs_keeps.
Qed.
End tx.

(** ** Stores whose reads are pure *)

Class PureReads (MS : Type) `{MultiStore MS} : Prop := {
  pure_reads : ReadsKeep (S:=KVS) (fun s => s);
  ms_put_same : forall ms k s, ms_store ms k = Some s -> ms_put k s ms = ms;
  ms_put_db_same : forall ms, ms_put_db (ms_db ms) ms = ms;
}.

#[export] Instance pure_MSKeeps `{PureReads MS} : MSKeeps (fun ms : MS => ms) (fun s => s) (fun d => d).
Proof.
  split; [|by intros ms d ->; apply ms_put_db_same]. intros ms k s s' Hk ->. by apply ms_put_same.
Qed.

(** A transaction on a cache leaves the multi-store behind it as it was. *)
Lemma exec_tx_parent {MS} `{PureReads MS} `{LibDB} `{Crypto} {T} `{Msg T} ante rtr mode ctx (tx : Tx T)
    (w : World (cacheMultiStore MS)) :
  cms_parent (w_ms (exec_tx ante rtr mode ctx tx w).2) = cms_parent (w_ms w).
Proof.
  pose proof (pure_reads (MS:=MS)) as Hp. pose proof (cache_MSKeeps (MS:=MS) (fun ms => ms) (fun s => s) (fun d => d)).
  pose proof (cache_ReadsKeep (P:=KVS) (fun s => s)). pose proof (cache_WritesKeep (P:=KVS) (fun s => s)).
  pose proof (cache_WritesKeep (P:=DBS) (fun d => d)).
  apply (exec_tx_keeps (MS:=cacheMultiStore MS) (H:=cacheMS_MultiStore) (fun c => cms_parent c) (fun ci : cacheKVStore KVS => ck_parent ci)
    (fun ci : cacheKVStore DBS => ck_parent ci)).
Qed.

#[export] Instance spec_PureReads : PureReads spec_ms.
Proof.
  split.
  - split; intros; try (intros ?; simpl; unfold spec_guard; destruct k; done); try done; intros [s [|kv l]]; done.
  - intros [st db] k s Hk. simpl in *. by rewrite insert_id.
  - by intros [st db].
Qed.
