(* ===== verification/BaseApp.v ===== *)
(** * baseapp/baseapp.go: the application

    The committed multi-store, the check and deliver states over it, and the
    calls of the consensus engine.  Each state is a cache over the one
    committed store: the model keeps the committed store once and only the
    caches' contents ([layer]) per state, so that what a state reads follows
    the committed store as in the code.  [spec_app] is the abstract
    application: three maps of maps. *)
From Stdlib Require Import Strings.Ascii Strings.Byte Strings.String.
From S2P Require Import Prelude Names Errors KVStore MergeIterator CacheKV IAVL MultiStore Account Context Auth RunTx ReadOnly.
#[local] Open Scope string_scope.
#[local] Open Scope list_scope.
#[local] Open Scope Z_scope.

(** ** types/store.go CommitMultiStore *)

Class CommitMultiStore (MS : Type) `{MultiStore MS} := {
  ms_Commit : M MS CommitID;
  ms_LastCommitID : MS -> CommitID;
  ms_LoadLatestVersion : M MS (option string);
  ms_LoadVersion : Z -> M MS (option string);
  ms_Query : option (RequestQuery -> M MS ResponseQuery);    (* Queryable, if it is *)
}.

(** Committing keeps the maps and records the version it returns. *)
Class CommitLaws (MS : Type) `{CommitMultiStore MS} `{!MultiStoreLaws MS} : Prop :=
  law_Commit : forall ms, ms_wf ms -> exists id,
    steps ms_Commit ms id (fun ms' => ms_wf ms' /\
      (forall k, ms_view ms' k = ms_view ms k) /\ ms_LastCommitID ms' = id).

(** ** Requests and responses, the fields the code uses *)

Record RequestInitChain := mk_RequestInitChain { ric_ChainId : string; ric_AppState : bytes }.
Record RequestBeginBlock := mk_RequestBeginBlock { rbb_Header : Header; rbb_Validators : list SigningValidator }.
Record RequestEndBlock := mk_RequestEndBlock { reb_Height : Z }.
Record ResponseInfo := mk_ResponseInfo {
  ri_Data : string; ri_LastBlockHeight : Z; ri_LastBlockAppHash : slice }.
Record ResponseCheckTx := mk_ResponseCheckTx {
  rct_Code : Z; rct_Data : bytes; rct_Log : text; rct_GasWanted : Z; rct_GasUsed : Z;
  rct_Fee : bytes * Z; rct_Tags : Tags }.
Record ResponseDeliverTx := mk_ResponseDeliverTx {
  rdt_Code : Z; rdt_Data : bytes; rdt_Log : text; rdt_GasWanted : Z; rdt_GasUsed : Z; rdt_Tags : Tags }.

(** The tags of a block's begin and the validator updates of its end. *)
Record ResponseBeginBlock := mk_ResponseBeginBlock { rsb_Tags : Tags }.
Record ResponseEndBlock := mk_ResponseEndBlock { rse_ValidatorUpdates : list (bytes * Z); rse_Tags : Tags }.
Record ResponseCommit := mk_ResponseCommit { rc_Data : slice }.

Section baseapp.
Context `{HC : Crypto} {T : Type} `{HT : Msg T}.

(** The fields set on creation and by the setters. *)
Record AppConfig := mk_AppConfig {
  cf_name : string;
  cf_router : list (string * Handler T);
  cf_txDecoder : slice -> Tx T + sdkError;
  cf_anteHandler : option (AnteHandler T);
  cf_initChainer : option (Ctx -> RequestInitChain -> prog unit);
  cf_beginBlocker : option (Ctx -> RequestBeginBlock -> prog ResponseBeginBlock);
  cf_endBlocker : option (Ctx -> RequestEndBlock -> prog ResponseEndBlock);
  cf_addrPeerFilter : option (string -> ResponseQuery);
  cf_pubkeyPeerFilter : option (string -> ResponseQuery);
  cf_version : string;                         (* version.GetVersion() *)
  cf_marshalResult : Result -> option bytes;   (* cdc.MarshalBinary(result) *)
  cf_stack : panic_value -> string             (* the text of a recovered panic *)
}.

(** defaultTxDecoder; [unmarshal] is cdc.UnmarshalBinary at StdTx. *)
Definition defaultTxDecoder (unmarshal : bytes -> option (StdTx T)) (txBytes : slice) : Tx T + sdkError :=
  if slice_len txBytes =? 0 then inr (ErrTxDecode "txBytes are empty") else
  match unmarshal (slice_bytes txBytes) with
  | None => inr (ErrTxDecode "")
  | Some tx => inl (TxStd tx)
  end.

(** The Set functions. *)
Definition SetTxDecoder (c : AppConfig) (d : slice -> Tx T + sdkError) : AppConfig :=
  mk_AppConfig (cf_name c) (cf_router c) d (cf_anteHandler c) (cf_initChainer c) (cf_beginBlocker c)
    (cf_endBlocker c) (cf_addrPeerFilter c) (cf_pubkeyPeerFilter c) (cf_version c) (cf_marshalResult c) (cf_stack c).
Definition SetInitChainer (c : AppConfig) (i : Ctx -> RequestInitChain -> prog unit) : AppConfig :=
  mk_AppConfig (cf_name c) (cf_router c) (cf_txDecoder c) (cf_anteHandler c) (Some i) (cf_beginBlocker c)
    (cf_endBlocker c) (cf_addrPeerFilter c) (cf_pubkeyPeerFilter c) (cf_version c) (cf_marshalResult c) (cf_stack c).
Definition SetBeginBlocker (c : AppConfig) (b : Ctx -> RequestBeginBlock -> prog ResponseBeginBlock) : AppConfig :=
  mk_AppConfig (cf_name c) (cf_router c) (cf_txDecoder c) (cf_anteHandler c) (cf_initChainer c) (Some b)
    (cf_endBlocker c) (cf_addrPeerFilter c) (cf_pubkeyPeerFilter c) (cf_version c) (cf_marshalResult c) (cf_stack c).
Definition SetEndBlocker (c : AppConfig) (e : Ctx -> RequestEndBlock -> prog ResponseEndBlock) : AppConfig :=
  mk_AppConfig (cf_name c) (cf_router c) (cf_txDecoder c) (cf_anteHandler c) (cf_initChainer c) (cf_beginBlocker c)
    (Some e) (cf_addrPeerFilter c) (cf_pubkeyPeerFilter c) (cf_version c) (cf_marshalResult c) (cf_stack c).
Definition SetAnteHandler (c : AppConfig) (ah : AnteHandler T) : AppConfig :=
  mk_AppConfig (cf_name c) (cf_router c) (cf_txDecoder c) (Some ah) (cf_initChainer c) (cf_beginBlocker c)
    (cf_endBlocker c) (cf_addrPeerFilter c) (cf_pubkeyPeerFilter c) (cf_version c) (cf_marshalResult c) (cf_stack c).
Definition SetAddrPeerFilter (c : AppConfig) (pf : string -> ResponseQuery) : AppConfig :=
  mk_AppConfig (cf_name c) (cf_router c) (cf_txDecoder c) (cf_anteHandler c) (cf_initChainer c) (cf_beginBlocker c)
    (cf_endBlocker c) (Some pf) (cf_pubkeyPeerFilter c) (cf_version c) (cf_marshalResult c) (cf_stack c).
Definition SetPubKeyPeerFilter (c : AppConfig) (pf : string -> ResponseQuery) : AppConfig :=
  mk_AppConfig (cf_name c) (cf_router c) (cf_txDecoder c) (cf_anteHandler c) (cf_initChainer c) (cf_beginBlocker c)
    (cf_endBlocker c) (cf_addrPeerFilter c) (Some pf) (cf_version c) (cf_marshalResult c) (cf_stack c).

(** *** The state *)

(** A cacheMultiStore less its parent. *)
Record layer := mk_layer { ly_db : gmap bytes cValue; ly_stores : gmap StoreKey (gmap bytes cValue) }.

(** [type state struct { ms; ctx }], with the heap of its contexts' meters. *)
Record state := mk_state { st_ms : layer; st_ctx : Ctx; st_meters : list GasMeter }.

Context {MS : Type} `{HM : MultiStore MS} `{HCM : !CommitMultiStore MS} `{HD : LibDB}.

Record BaseApp := mk_BaseApp {
  app_cms : MS;
  app_checkState : option state;
  app_deliverState : option state;
  app_signedValidators : list SigningValidator
}.

Definition layer_of (cms : cacheMultiStore MS) : layer := mk_layer (cms_db cms) (cms_stores cms).
Definition over (ly : layer) (base : MS) : cacheMultiStore MS :=
  mk_cacheMultiStore (ly_db ly) (ly_stores ly) base.

(** A fresh cache of the committed store with a new context, whose meter is
    a new infinite one. *)
Definition new_state (cms : MS) (header : Header) (isCheckTx : bool) : state :=
  mk_state (layer_of (newCacheMultiStore cms)) (NewContext header isCheckTx 0) [NewInfiniteGasMeter].

Definition setCheckState (header : Header) (app : BaseApp) : BaseApp :=
  mk_BaseApp (app_cms app) (Some (new_state (app_cms app) header true)) (app_deliverState app)
    (app_signedValidators app).
Definition setDeliverState (header : Header) (app : BaseApp) : BaseApp :=
  mk_BaseApp (app_cms app) (app_checkState app) (Some (new_state (app_cms app) header false))
    (app_signedValidators app).

(** NewContext of the app: the state's store, a new context. *)
Definition app_NewContext (isCheckTx : bool) (header : Header) (app : BaseApp) : option Ctx :=
  match (if isCheckTx then app_checkState app else app_deliverState app) with
  | None => None
  | Some s => Some (NewContext header isCheckTx (length (st_meters s)))
  end.

(** Runs on a state's multi-store; the state is a nil pointer if not set. *)
Definition run_state {A} (s : state) (m : M (World (cacheMultiStore MS)) A) (base : MS)
    : outcome A * state * MS :=
  let '(r, w) := m (mk_World (over (st_ms s) base) (st_meters s)) in
  (r, mk_state (layer_of (w_ms w)) (st_ctx s) (w_meters w), cms_parent (w_ms w)).

Definition onCheck {A} (m : Ctx -> M (World (cacheMultiStore MS)) A) : M BaseApp A := fun app =>
  match app_checkState app with
  | None => (Panicked nil_pointer, app)
  | Some s => let '(r, s, cms) := run_state s (m (st_ctx s)) (app_cms app) in
              (r, mk_BaseApp cms (Some s) (app_deliverState app) (app_signedValidators app))
  end.

Definition onDeliver {A} (m : Ctx -> M (World (cacheMultiStore MS)) A) : M BaseApp A := fun app =>
  match app_deliverState app with
  | None => (Panicked nil_pointer, app)
  | Some s => let '(r, s, cms) := run_state s (m (st_ctx s)) (app_cms app) in
              (r, mk_BaseApp cms (app_checkState app) (Some s) (app_signedValidators app))
  end.

Variable cfg : AppConfig.

(** *** Transactions *)

Definition recover {S} (m : M S Result) : M S Result := fun s =>
  match m s with
  | (Panicked q, s') => (Ok (recovered (cf_stack cfg) q), s')
  | r => r
  end.

(** The context a mode runs in. *)
Definition tx_ctx (mode : runTxMode) (txBytes : slice) (vals : list SigningValidator) (ctx : Ctx) : Ctx :=
  let ctx := WithTxBytes ctx txBytes in
  match mode with
  | runTxModeCheck => ctx
  | runTxModeSimulate => WithIsCheckTx ctx false
  | runTxModeDeliver => WithSigningValidators ctx vals
  end.

Definition runTx (mode : runTxMode) (txBytes : slice) (tx : Tx T) : M BaseApp Result :=
  recover
    (let msgs := GetMsgs tx in
     if (length msgs =? 0)%nat then
       mret (err_Result (ErrInternal "Tx.GetMsgs() must return at least one message in list"))
     else
     r ← liftO (validate_msgs msgs);
     match r with
     | Some result => mret result
     | None =>
         app ← getM;
         let exec ctx := exec_tx (cf_anteHandler cfg) (cf_router cfg) mode
           (tx_ctx mode txBytes (app_signedValidators app) ctx) tx in
         match mode with
         | runTxModeCheck | runTxModeSimulate => onCheck exec
         | runTxModeDeliver => onDeliver exec
         end
     end).

Definition Check (tx : Tx T) : M BaseApp Result := runTx runTxModeCheck None tx.
Definition Simulate (tx : Tx T) : M BaseApp Result := runTx runTxModeSimulate None tx.
Definition Deliver (tx : Tx T) : M BaseApp Result := runTx runTxModeDeliver None tx.

Definition CheckTx (txBytes : slice) : M BaseApp ResponseCheckTx :=
  result ← (match cf_txDecoder cfg txBytes with
            | inr err => mret (err_Result err)
            | inl tx => runTx runTxModeCheck txBytes tx
            end);
  mret (mk_ResponseCheckTx (Code result) (Data result) (Log result) (GasWanted result) (GasUsed result)
    (string_bytes (FeeDenom result), FeeAmount result) (ResTags result)).

Definition DeliverTx (txBytes : slice) : M BaseApp ResponseDeliverTx :=
  result ← (match cf_txDecoder cfg txBytes with
            | inr err => mret (err_Result err)
            | inl tx => runTx runTxModeDeliver txBytes tx
            end);
  mret (mk_ResponseDeliverTx (Code result) (Data result) (Log result) (GasWanted result) (GasUsed result)
    (ResTags result)).

(** *** The life of a block *)

Definition Info (app : BaseApp) : ResponseInfo :=
  let lastCommitID := ms_LastCommitID (app_cms app) in
  mk_ResponseInfo (cf_name cfg) (cid_Version lastCommitID) (cid_Hash lastCommitID).

Definition LastBlockHeight (app : BaseApp) : Z := cid_Version (ms_LastCommitID (app_cms app)).

Definition InitChain (req : RequestInitChain) : M BaseApp unit :=
  app ← getM;
  let header := mk_Header (ric_ChainId req) 0 0 in
  putM (setCheckState header (setDeliverState header app));;
  match cf_initChainer cfg with
  | None => mret tt
  | Some initChainer => onDeliver (fun ctx => interp (initChainer ctx req))
  end.

Definition BeginBlock (req : RequestBeginBlock) : M BaseApp ResponseBeginBlock :=
  app ← getM;
  putM (match app_deliverState app with
        | None => setDeliverState (rbb_Header req) app
        | Some s => mk_BaseApp (app_cms app) (app_checkState app)
            (Some (mk_state (st_ms s) (WithBlockHeader (st_ctx s) (rbb_Header req)) (st_meters s)))
            (app_signedValidators app)
        end);;
  res ← (match cf_beginBlocker cfg with
         | None => mret (mk_ResponseBeginBlock [])
         | Some beginBlocker => onDeliver (fun ctx => interp (beginBlocker ctx req))
         end);
  app ← getM;
  putM (mk_BaseApp (app_cms app) (app_checkState app) (app_deliverState app) (rbb_Validators req));;
  mret res.

Definition EndBlock (req : RequestEndBlock) : M BaseApp ResponseEndBlock :=
  match cf_endBlocker cfg with
  | None => mret (mk_ResponseEndBlock [] [])
  | Some endBlocker => onDeliver (fun ctx => interp (endBlocker ctx req))
  end.

(** deliverState.ms.Write() *)
Definition write_state : M (World (cacheMultiStore MS)) unit := fun w =>
  let '(r, cms) := cacheMS_Write (w_ms w) in (r, mk_World cms (w_meters w)).

Definition Commit : M BaseApp ResponseCommit :=
  header ← onDeliver (fun ctx => mret (cx_BlockHeader ctx));
  onDeliver (fun _ => write_state);;
  app ← getM;
  let '(r, cms) := ms_Commit (app_cms app) in
  putM (mk_BaseApp cms (app_checkState app) (app_deliverState app) (app_signedValidators app));;
  commitID ← liftO r;
  app ← getM;
  let app := setCheckState header app in
  putM (mk_BaseApp (app_cms app) (app_checkState app) None (app_signedValidators app));;
  mret (mk_ResponseCommit (cid_Hash commitID)).

(** *** Creation and loading *)

Definition NewBaseApp (cms : MS) : BaseApp := mk_BaseApp cms None None [].

(** The codespaces of a new app. *)
Definition new_codespacer : Codespacer := (RegisterOrPanic CodespaceRoot NewCodespacer).2.

Definition onCms {A} (m : M MS A) : M BaseApp A := fun app =>
  let '(r, cms) := m (app_cms app) in
  (r, mk_BaseApp cms (app_checkState app) (app_deliverState app) (app_signedValidators app)).

(** GetKVStore asserts the type of a nil interface when there is no store. *)
Definition initFromStore (mainKey : StoreKey) : M BaseApp (option string) :=
  app ← getM;
  match ms_store (app_cms app) mainKey with
  | None => panicM (RuntimeError "interface conversion: interface is nil")
  | Some _ => mret None
  end.

Definition LoadLatestVersion (mainKey : StoreKey) : M BaseApp (option string) :=
  err ← onCms ms_LoadLatestVersion;
  match err with Some err => mret (Some err) | None => initFromStore mainKey end.

Definition LoadVersion (version : Z) (mainKey : StoreKey) : M BaseApp (option string) :=
  err ← onCms (ms_LoadVersion version);
  match err with Some err => mret (Some err) | None => initFromStore mainKey end.

(** *** Queries *)

Definition FilterPeerByAddrPort (info : string) : ResponseQuery :=
  match cf_addrPeerFilter cfg with Some f => f info | None => zero_ResponseQuery end.
Definition FilterPeerByPubKey (info : string) : ResponseQuery :=
  match cf_pubkeyPeerFilter cfg with Some f => f info | None => zero_ResponseQuery end.

Definition value_response (value : bytes) : ResponseQuery :=
  mk_ResponseQuery WRSPCodeOK (TStr "") None (Some value) None 0.

(** The "/app" queries. *)
Definition Query_app (path : list string) (req : RequestQuery) : M BaseApp ResponseQuery :=
  match path !! 1%nat with
  | Some "version" => mret (value_response (string_bytes (cf_version cfg)))
  | what =>
      result ← (match what with
                | Some "simulate" =>
                    match cf_txDecoder cfg (rq_Data req) with
                    | inr err => mret (err_Result err)
                    | inl tx => Simulate tx
                    end
                | _ => mret (err_Result (ErrUnknownRequest
                         ("Unknown query: [" ++ String.concat " " path ++ "]")%string))
                end);
      value ← liftO (must (cf_marshalResult cfg result) "MustMarshalBinary");
      mret (value_response value)
  end.

Definition Query (req : RequestQuery) : M BaseApp ResponseQuery :=
  let path := Split "/"%char (rq_Path req) in
  let path := match path with "" :: rest => rest | _ => path end in
  let unknown := mret (err_QueryResult (ErrUnknownRequest "unknown query path")) in
  match path with
  | "app" :: _ :: _ => Query_app path req
  | "store" :: rest =>
      match ms_Query with
      | None => mret (err_QueryResult (ErrUnknownRequest "multistore doesn't support queries"))
      | Some q => onCms (q (mk_RequestQuery (rq_Data req) ("/" ++ String.concat "/" rest)%string
                    (rq_ReqHeight req) (rq_Prove req)))
      end
  | "p2p" :: "filter" :: "addr" :: info :: _ => mret (FilterPeerByAddrPort info)
  | "p2p" :: "filter" :: "pubkey" :: info :: _ => mret (FilterPeerByPubKey info)
  | _ => unknown
  end.
End baseapp.

(** ** The abstract application *)

Section spec_app.
Context `{HC : Crypto} {T : Type} `{HT : Msg T}.

(** A state: its maps and meters, and its context. *)
Record sstate := mk_sstate { ss_world : World spec_ms; ss_ctx : Ctx }.

Record spec_app := mk_spec_app {
  sa_committed : gmap StoreKey spec_store;
  sa_check : option sstate;
  sa_deliver : option sstate;
  sa_vals : list SigningValidator
}.

Definition spec_state (maps : gmap StoreKey spec_store) (header : Header) (isCheckTx : bool) : sstate :=
  mk_sstate (mk_World (mk_spec_ms maps ∅) [NewInfiniteGasMeter]) (NewContext header isCheckTx 0).

Definition spec_onCheck {A} (m : Ctx -> M (World spec_ms) A) : M spec_app A := fun sa =>
  match sa_check sa with
  | None => (Panicked nil_pointer, sa)
  | Some s => let '(r, w) := m (ss_ctx s) (ss_world s) in
              (r, mk_spec_app (sa_committed sa) (Some (mk_sstate w (ss_ctx s))) (sa_deliver sa) (sa_vals sa))
  end.

Definition spec_onDeliver {A} (m : Ctx -> M (World spec_ms) A) : M spec_app A := fun sa =>
  match sa_deliver sa with
  | None => (Panicked nil_pointer, sa)
  | Some s => let '(r, w) := m (ss_ctx s) (ss_world s) in
              (r, mk_spec_app (sa_committed sa) (sa_check sa) (Some (mk_sstate w (ss_ctx s))) (sa_vals sa))
  end.

Variable cfg : AppConfig (T:=T).

Definition spec_runTx (mode : runTxMode) (txBytes : slice) (tx : Tx T) : M spec_app Result :=
  recover cfg
    (let msgs := GetMsgs tx in
     if (length msgs =? 0)%nat then
       mret (err_Result (ErrInternal "Tx.GetMsgs() must return at least one message in list"))
     else
     r ← liftO (validate_msgs msgs);
     match r with
     | Some result => mret result
     | None =>
         sa ← getM;
         let exec ctx := spec_exec (cf_anteHandler cfg) (cf_router cfg) mode
           (tx_ctx mode txBytes (sa_vals sa) ctx) tx in
         match mode with
         | runTxModeCheck | runTxModeSimulate => spec_onCheck exec
         | runTxModeDeliver => spec_onDeliver exec
         end
     end).

Definition spec_InitChain (req : RequestInitChain) : M spec_app unit :=
  sa ← getM;
  let header := mk_Header (ric_ChainId req) 0 0 in
  putM (mk_spec_app (sa_committed sa) (Some (spec_state (sa_committed sa) header true))
    (Some (spec_state (sa_committed sa) header false)) (sa_vals sa));;
  match cf_initChainer cfg with
  | None => mret tt
  | Some initChainer => spec_onDeliver (fun ctx => interp (initChainer ctx req))
  end.

Definition spec_BeginBlock (req : RequestBeginBlock) : M spec_app ResponseBeginBlock :=
  sa ← getM;
  putM (mk_spec_app (sa_committed sa) (sa_check sa)
    (Some (match sa_deliver sa with
           | None => spec_state (sa_committed sa) (rbb_Header req) false
           | Some s => mk_sstate (ss_world s) (WithBlockHeader (ss_ctx s) (rbb_Header req))
           end)) (sa_vals sa));;
  res ← (match cf_beginBlocker cfg with
         | None => mret (mk_ResponseBeginBlock [])
         | Some beginBlocker => spec_onDeliver (fun ctx => interp (beginBlocker ctx req))
         end);
  sa ← getM;
  putM (mk_spec_app (sa_committed sa) (sa_check sa) (sa_deliver sa) (rbb_Validators req));;
  mret res.

Definition spec_EndBlock (req : RequestEndBlock) : M spec_app ResponseEndBlock :=
  match cf_endBlocker cfg with
  | None => mret (mk_ResponseEndBlock [] [])
  | Some endBlocker => spec_onDeliver (fun ctx => interp (endBlocker ctx req))
  end.

(** The deliver maps become the committed ones, and the check state's. *)
Definition spec_Commit : M spec_app unit := fun sa =>
  match sa_deliver sa with
  | None => (Panicked nil_pointer, sa)
  | Some s =>
      let maps := sm_stores (w_ms (ss_world s)) in
      (Ok tt, mk_spec_app maps (Some (spec_state maps (cx_BlockHeader (ss_ctx s)) true)) None (sa_vals sa))
  end.
End spec_app.

(** ** The calls of the consensus engine *)

Section calls.
Context `{HC : Crypto} {T : Type} `{HT : Msg T}.

Inductive call :=
  | CInitChain (req : RequestInitChain)
  | CBeginBlock (req : RequestBeginBlock)
  | CCheckTx (mode : bool) (txBytes : slice) (tx : Tx T)     (* true: Simulate *)
  | CDeliverTx (txBytes : slice) (tx : Tx T)
  | CEndBlock (req : RequestEndBlock)
  | CCommit.

Inductive response :=
  | RInitChain
  | RBeginBlock (r : ResponseBeginBlock)
  | RCheckTx (r : Result)
  | RDeliverTx (r : Result)
  | REndBlock (r : ResponseEndBlock)
  | RCommit (r : ResponseCommit).

Definition check_mode (simulate : bool) : runTxMode := if simulate then runTxModeSimulate else runTxModeCheck.

Variable cfg : AppConfig (T:=T).

Definition run_call {MS} `{MultiStore MS} `{!CommitMultiStore MS} `{LibDB} (c : call)
    : M (BaseApp (MS:=MS)) response :=
  match c with
  | CInitChain req => InitChain cfg req;; mret RInitChain
  | CBeginBlock req => r ← BeginBlock cfg req; mret (RBeginBlock r)
  | CCheckTx simulate txBytes tx => r ← runTx cfg (check_mode simulate) txBytes tx; mret (RCheckTx r)
  | CDeliverTx txBytes tx => r ← runTx cfg runTxModeDeliver txBytes tx; mret (RDeliverTx r)
  | CEndBlock req => r ← EndBlock cfg req; mret (REndBlock r)
  | CCommit => r ← Commit; mret (RCommit r)
  end.

(** The maps do not determine the hash of a commit: it is the trees'. *)
Definition no_hash (r : response) : response :=
  match r with RCommit _ => RCommit (mk_ResponseCommit None) | r => r end.

Definition spec_call (c : call) : M spec_app response :=
  match c with
  | CInitChain req => spec_InitChain cfg req;; mret RInitChain
  | CBeginBlock req => r ← spec_BeginBlock cfg req; mret (RBeginBlock r)
  | CCheckTx simulate txBytes tx => r ← spec_runTx cfg (check_mode simulate) txBytes tx; mret (RCheckTx r)
  | CDeliverTx txBytes tx => r ← spec_runTx cfg runTxModeDeliver txBytes tx; mret (RDeliverTx r)
  | CEndBlock req => r ← spec_EndBlock cfg req; mret (REndBlock r)
  | CCommit => spec_Commit;; mret (RCommit (mk_ResponseCommit None))
  end.

Fixpoint run_calls {MS} `{MultiStore MS} `{!CommitMultiStore MS} `{LibDB} (cs : list call)
    : M (BaseApp (MS:=MS)) (list response) :=
  match cs with
  | [] => mret []
  | c :: cs => r ← run_call c; rs ← run_calls cs; mret (r :: rs)
  end.

Fixpoint spec_calls (cs : list call) : M spec_app (list response) :=
  match cs with
  | [] => mret []
  | c :: cs => r ← spec_call c; rs ← spec_calls cs; mret (r :: rs)
  end.
End calls.

(** ** The application refines the abstract one *)

Section app_refinement.
Context {MS : Type} `{HM : MultiStore MS} `{HL : !MultiStoreLaws MS} `{HCM : !CommitMultiStore MS}
  `{HCL : !CommitLaws MS} `{HD : LibDBLaws}.
Context `{HC : Crypto} {T : Type} `{HT : Msg T}.

Abbreviation laws_of base := (cacheMS_laws_at (parent_view base) (db_view base)).

(** A committed store with the same maps. *)
Definition base_sim (base base' : MS) : Prop :=
  ms_wf base' /\ (forall k, ms_view base' k = ms_view base k) /\ db_view base' = db_view base.

Definition state_rel (base : MS) (s : state) (ss : sstate) : Prop :=
  st_ctx s = ss_ctx ss /\ cms_full (over (st_ms s) base) /\
  world_rel (HL:=laws_of base) (mk_World (over (st_ms s) base) (st_meters s)) (ss_world ss).

Definition opt_rel (base : MS) (s : option state) (ss : option sstate) : Prop :=
  match s, ss with
  | Some s, Some ss => state_rel base s ss
  | None, None => True
  | _, _ => False
  end.

Definition app_rel (app : BaseApp (MS:=MS)) (sa : spec_app) : Prop :=
  ms_wf (app_cms app) /\ (forall k, ms_view (app_cms app) k = sa_committed sa !! k) /\
  opt_rel (app_cms app) (app_checkState app) (sa_check sa) /\
  opt_rel (app_cms app) (app_deliverState app) (sa_deliver sa) /\
  app_signedValidators app = sa_vals sa.

Lemma ms_view_keys (base base' : MS) k :
  ms_view base' k = ms_view base k -> is_Some (ms_store base' k) <-> is_Some (ms_store base k).
Proof. intros Hv. by rewrite <- !ms_view_is_Some, Hv. Qed.

(** A layer over a committed store with the same maps stands for the same. *)
Lemma over_rebase (ly : layer) (base base' : MS) :
  base_sim base base' -> cms_full (over ly base) -> ms_wf (HL:=laws_of base) (over ly base) ->
  cms_full (over ly base') /\ ms_wf (HL:=laws_of base') (over ly base') /\
  (forall k, ms_view (HL:=laws_of base') (over ly base') k = ms_view (HL:=laws_of base) (over ly base) k).
Proof.
  intros (Hw & Hv & Hdb) Hfull [Hs Hd].
  assert (Hpv : forall k, parent_view base' k = parent_view base k).
  { intros k. unfold parent_view. by rewrite Hv. }
  assert (Hst : forall k c p', cms_store (over ly base') k = Some (mk_cacheKVStore c p') ->
    exists p, cms_store (over ly base) k = Some (mk_cacheKVStore c p) /\
      wf (KVStoreLaws:=KVS_laws k) p' /\
      view (KVStoreLaws:=KVS_laws k) p' = view (KVStoreLaws:=KVS_laws k) p).
  { intros k c p' [Hc Hp']%cms_store_Some. pose proof (Hv k) as Hvk. unfold ms_view in Hvk. simpl in Hc, Hp'.
    rewrite Hp' in Hvk. destruct (ms_store base k) as [p|] eqn:Ep; [|done]. injection Hvk as Hvk.
    exists p. split_and!; [by apply cms_store_Some| |done]. by apply (proj1 Hw k). }
  split_and!.
  - intros k. simpl. rewrite (ms_view_keys base base') by done. apply Hfull.
  - split.
    + intros k [c p'] Hk. destruct (Hst k c p' Hk) as (p & Hp & Hwp & Hvp).
      destruct (Hs k _ Hp) as (_ & Hpar & Hcache). split_and!; [done| |]; simpl in *.
      * by rewrite Hvp, Hpar.
      * intros k' cv Hcv. rewrite Hpv. by apply Hcache.
    + destruct Hd as (_ & _ & Hcache). split_and!; [apply Hw|done|].
      intros k' cv Hcv. rewrite Hdb. by apply Hcache.
  - intros k. unfold ms_view. simpl. destruct (cms_store (over ly base') k) as [[c p']|] eqn:Ek.
    + destruct (Hst k c p' Ek) as (p & -> & _ & Hvp). simpl. unfold ck_view. simpl. by rewrite Hvp.
    + destruct (cms_store (over ly base) k) as [[c p]|] eqn:Ek'; [|done].
      apply cms_store_Some in Ek' as [Hc Hp].
      destruct (proj2 (ms_view_keys base base' k (Hv k)) (ex_intro _ p Hp)) as [p' Hp'].
      assert (cms_store (over ly base') k = Some (mk_cacheKVStore c p')) by (by apply cms_store_Some).
      congruence.
Qed.

Lemma state_rel_rebase base base' s ss : base_sim base base' -> state_rel base s ss -> state_rel base' s ss.
Proof.
  intros Hb (Hc & Hf & Hw & Hv & Hm). destruct (over_rebase (st_ms s) base base' Hb Hf Hw) as (Hf' & Hw' & Hv').
  split_and!; [done|done|]. split_and!; [done| |done]. intros k. simpl. by rewrite Hv', <- Hv.
Qed.

Lemma opt_rel_rebase base base' s ss : base_sim base base' -> opt_rel base s ss -> opt_rel base' s ss.
Proof. destruct s, ss; simpl; try done. apply state_rel_rebase. Qed.

Lemma base_sim_refl base : ms_wf base -> base_sim base base.
Proof. done. Qed.

(** *** Runs on a state *)

(** [m1] on caches does what [m2] does on maps, and only puts stores back. *)
Definition good_run {A} (m1 : M (World (cacheMultiStore MS)) A) (m2 : M (World spec_ms) A) : Prop :=
  (forall base w v, world_rel (HL:=laws_of base) w v -> rsim eq (world_rel (HL:=laws_of base)) m1 m2 w v) /\
  (forall I : cacheMultiStore MS -> Prop,
     (forall c k s, I c -> is_Some (cms_store c k) -> I (cms_put k s c)) ->
     (forall c d, I c -> I (ms_put_db (MultiStore:=cacheMS_MultiStore) d c)) ->
     forall w, I (w_ms w) -> I (w_ms (m1 w).2)).

Lemma good_run_interp {A} (p : prog A) : prog_ok p -> good_run (interp p) (interp p).
Proof.
  intros Hp. split; [intros base w v; by apply (interp_sim (HL:=laws_of base))|].
  intros I Hput _ w. by apply (interp_inv (MS:=cacheMultiStore MS) I).
Qed.

Lemma good_run_exec ante rtr mode ctx tx :
  ante_ok ante -> router_ok rtr ->
  good_run (exec_tx ante rtr mode ctx tx) (spec_exec (T:=T) ante rtr mode ctx tx).
Proof.
  intros Ha Hr. split; [intros base w v; by apply (exec_sim (HL:=laws_of base))|].
  intros I Hput Hdb w. by apply (exec_inv (MS:=cacheMultiStore MS) I).
Qed.

Lemma base_after (base : MS) (cms : cacheMultiStore MS) :
  ms_wf (HL:=laws_of base) cms -> cms_full cms ->
  (forall k, is_Some (ms_store (cms_parent cms) k) <-> is_Some (ms_store base k)) ->
  base_sim base (cms_parent cms).
Proof.
  intros Hw Hf Hk. destruct (wf_parent_view base cms Hw Hf Hk) as [Hw' Hv'].
  split_and!; [done|done|]. destruct Hw as [_ (_ & Hd & _)]. exact Hd.
Qed.

(** The same cache, seen against either of two committed stores. *)
Lemma laws_change (base base' : MS) (cms : cacheMultiStore MS) :
  base_sim base base' -> ms_wf (HL:=laws_of base) cms -> ms_wf (HL:=laws_of base') cms.
Proof.
  intros (_ & Hv & Hdb) [Hs Hd].
  assert (Hpv : forall k, parent_view base' k = parent_view base k).
  { intros k. unfold parent_view. by rewrite Hv. }
  split.
  - intros k s Hk. destruct (Hs k s Hk) as (Hw & Hp & Hc).
    split_and!; [done|by rewrite Hpv|]. intros k' cv Hcv. rewrite Hpv. by apply Hc.
  - destruct Hd as (Hw & Hp & Hc). split_and!; [done|by rewrite Hdb|].
    intros k' cv Hcv. rewrite Hdb. by apply Hc.
Qed.

(** The committed store under a state has the stores of [base]. *)
Definition over_base (base : MS) (c : cacheMultiStore MS) : Prop :=
  cms_full c /\ forall k, is_Some (ms_store (cms_parent c) k) <-> is_Some (ms_store base k).

Lemma over_base_put base c k s : over_base base c -> is_Some (cms_store c k) -> over_base base (cms_put k s c).
Proof.
  intros [Hf Hk] Hs. split; [by apply cms_full_put|]. intros k'.
  apply cms_store_is_Some in Hs as [_ Hs]. simpl. rewrite ms_store_put_is_Some by done. apply Hk.
Qed.

Lemma over_base_db base c d :
  over_base base c -> over_base base (ms_put_db (MultiStore:=cacheMS_MultiStore) d c).
Proof. intros [Hf Hk]. split; intros k; simpl; rewrite ms_store_put_db; [apply Hf|apply Hk]. Qed.

Lemma run_state_sim {A} (base : MS) (s : state) (ss : sstate) m1 m2 :
  good_run m1 m2 -> state_rel base s ss ->
  let '(r, s', base') := run_state (A:=A) s m1 base in
  let '(r', w') := m2 (ss_world ss) in
  r = r' /\ base_sim base base' /\ state_rel base' s' (mk_sstate w' (ss_ctx ss)).
Proof.
  intros [Hsim Hinv] (Hctx & Hf & Hw). unfold run_state.
  specialize (Hsim base _ _ Hw). unfold rsim in Hsim.
  specialize (Hinv (over_base base) (over_base_put base) (over_base_db base)
    (mk_World (over (st_ms s) base) (st_meters s)) (conj Hf (fun k => iff_refl _))).
  destruct (m1 _) as [r w]. destruct (m2 _) as [r' w'].
  assert (r = r' /\ world_rel (HL:=laws_of base) w w') as [-> (Hww & Hv & Hm)].
  { destruct r, r'; try done; destruct Hsim as [ -> ?]; done. }
  simpl in Hinv. destruct Hinv as [Hf' Hk'].
  assert (Hb : base_sim base (cms_parent (w_ms w))) by (by apply base_after).
  assert (Hover : over (layer_of (w_ms w)) (cms_parent (w_ms w)) = w_ms w) by (by destruct (w_ms w)).
  split_and!; [done|done|]. split_and!; [done|simpl; by rewrite Hover|].
  split_and!; simpl; [rewrite Hover; by apply (laws_change base)|rewrite Hover; exact Hv|done].
Qed.

Lemma onCheck_sim {A} (m1 : Ctx -> M (World (cacheMultiStore MS)) A) m2 app sa :
  (forall ctx, good_run (m1 ctx) (m2 ctx)) -> app_rel app sa ->
  rsim eq app_rel (onCheck m1) (spec_onCheck m2) app sa.
Proof.
  intros Hm (Hw & Hv & Hc & Hd & Hvals). unfold rsim, onCheck, spec_onCheck.
  destruct (app_checkState app) as [s|] eqn:Es, (sa_check sa) as [ss|] eqn:Ess; try done.
  2:{ split; [done|]. by split_and!; rewrite ?Es, ?Ess. }
  pose proof (proj1 Hc) as Hctx. rewrite Hctx.
  pose proof (run_state_sim (app_cms app) s ss (m1 (ss_ctx ss)) (m2 (ss_ctx ss)) (Hm _) Hc) as Hrun.
  destruct (run_state _ _ _) as [[r s'] base']. destruct (m2 _ _) as [r' w'].
  destruct Hrun as (-> & Hb & Hs').
  assert (app_rel (mk_BaseApp base' (Some s') (app_deliverState app) (app_signedValidators app))
    (mk_spec_app (sa_committed sa) (Some (mk_sstate w' (ss_ctx ss))) (sa_deliver sa) (sa_vals sa))).
  { split_and!; simpl; [apply Hb| |done|by eapply opt_rel_rebase|done]. intros k.
    by rewrite (proj1 (proj2 Hb)), Hv. }
  by destruct r'.
Qed.

Lemma onDeliver_sim {A} (m1 : Ctx -> M (World (cacheMultiStore MS)) A) m2 app sa :
  (forall ctx, good_run (m1 ctx) (m2 ctx)) -> app_rel app sa ->
  rsim eq app_rel (onDeliver m1) (spec_onDeliver m2) app sa.
Proof.
  intros Hm (Hw & Hv & Hc & Hd & Hvals). unfold rsim, onDeliver, spec_onDeliver.
  destruct (app_deliverState app) as [s|] eqn:Es, (sa_deliver sa) as [ss|] eqn:Ess; try done.
  2:{ split; [done|]. by split_and!; rewrite ?Es, ?Ess. }
  pose proof (proj1 Hd) as Hctx. rewrite Hctx.
  pose proof (run_state_sim (app_cms app) s ss (m1 (ss_ctx ss)) (m2 (ss_ctx ss)) (Hm _) Hd) as Hrun.
  destruct (run_state _ _ _) as [[r s'] base']. destruct (m2 _ _) as [r' w'].
  destruct Hrun as (-> & Hb & Hs').
  assert (app_rel (mk_BaseApp base' (app_checkState app) (Some s') (app_signedValidators app))
    (mk_spec_app (sa_committed sa) (sa_check sa) (Some (mk_sstate w' (ss_ctx ss))) (sa_vals sa))).
  { split_and!; simpl; [apply Hb| |by eapply opt_rel_rebase|done|done]. intros k.
    by rewrite (proj1 (proj2 Hb)), Hv. }
  by destruct r'.
Qed.

(** *** The calls *)

Variable cfg : AppConfig (T:=T).

(** Handlers and blockers scan in ranges the interface allows. *)
Definition cfg_ok : Prop :=
  ante_ok (cf_anteHandler cfg) /\ router_ok (cf_router cfg) /\
  (forall f, cf_initChainer cfg = Some f -> forall ctx req, prog_ok (f ctx req)) /\
  (forall f, cf_beginBlocker cfg = Some f -> forall ctx req, prog_ok (f ctx req)) /\
  (forall f, cf_endBlocker cfg = Some f -> forall ctx req, prog_ok (f ctx req)).
Hypothesis Hcfg : cfg_ok.

Lemma new_state_rel (base : MS) (maps : gmap StoreKey spec_store) header isCheck :
  ms_wf base -> (forall k, ms_view base k = maps !! k) ->
  state_rel base (new_state base header isCheck) (spec_state maps header isCheck).
Proof.
  intros Hw Hv. destruct (newCacheMultiStore_spec base Hw) as (Hnw & Hnv & Hnf).
  split_and!; [done|exact Hnf|]. split_and!; [exact Hnw| |done].
  intros k. simpl. etransitivity; [apply Hnv|apply Hv].
Qed.

Lemma recover_sim {S1 S2} (R : S1 -> S2 -> Prop) (m1 : M S1 Result) (m2 : M S2 Result) s1 s2 :
  rsim eq R m1 m2 s1 s2 -> rsim eq R (recover cfg m1) (recover cfg m2) s1 s2.
Proof.
  unfold rsim, recover. destruct (m1 s1) as [[a1|p1] s1'], (m2 s2) as [[a2|p2] s2']; try done.
  by intros [ -> ?].
Qed.

Lemma runTx_sim mode txBytes tx app sa :
  app_rel app sa -> rsim eq app_rel (runTx cfg mode txBytes tx) (spec_runTx cfg mode txBytes tx) app sa.
Proof.
  intros Hrel. apply recover_sim. cbv zeta. destruct (length (GetMsgs tx) =? 0)%nat; [by apply rsim_ret|].
  destruct Hcfg as (Ha & Hr & _).
  eapply (rsim_bind eq eq app_rel); [|done|].
  { unfold rsim, liftO. by destruct (validate_msgs (GetMsgs tx)). }
  intros r ? app1 sa1 <- Hrel1. destruct r as [res|]; [by apply rsim_ret|].
  eapply (rsim_bind (fun a b => app_signedValidators a = sa_vals b) eq app_rel); [|done|].
  { split; [apply Hrel1|done]. }
  intros a b app2 sa2 -> Hrel2.
  destruct mode; [apply onCheck_sim|apply onCheck_sim|apply onDeliver_sim]; try done;
    intros ctx; by apply good_run_exec.
Qed.

Lemma put_sim {B} (m1 : M BaseApp B) (m2 : M spec_app B) (app1 app : BaseApp (MS:=MS)) (sa1 sa : spec_app) :
  app_rel app1 sa1 -> (forall app sa, app_rel app sa -> rsim eq app_rel m1 m2 app sa) ->
  rsim eq app_rel (putM app1;; m1) (putM sa1;; m2) app sa.
Proof.
  intros Hrel Hm. eapply (rsim_bind eq eq app_rel); [by split|done|]. intros [] [] ? ? _ ?. by apply Hm.
Qed.

Lemma get_sim {B} (f1 : BaseApp (MS:=MS) -> M BaseApp B) (f2 : spec_app -> M spec_app B) app sa :
  app_rel app sa -> (forall a b, app_rel a b -> rsim eq app_rel (f1 a) (f2 b) a b) ->
  rsim eq app_rel (getM ≫= f1) (getM ≫= f2) app sa.
Proof. intros Hrel Hf. by apply Hf. Qed.

Lemma InitChain_sim req app sa :
  app_rel app sa -> rsim eq app_rel (InitChain cfg req) (spec_InitChain cfg req) app sa.
Proof.
  intros Hrel. destruct Hcfg as (_ & _ & Hi & _). apply get_sim; [done|].
  clear app sa Hrel. intros app sa (Hw & Hv & Hc & Hd & Hvals). apply put_sim.
  - split_and!; simpl; [done|done|by apply new_state_rel|by apply new_state_rel|done].
  - intros app' sa' Hrel'. destruct (cf_initChainer cfg) as [f|]; [|by apply rsim_ret].
    apply onDeliver_sim; [|done]. intros ctx. by apply good_run_interp, Hi.
Qed.

Lemma BeginBlock_sim req app sa :
  app_rel app sa -> rsim eq app_rel (BeginBlock cfg req) (spec_BeginBlock cfg req) app sa.
Proof.
  intros Hrel. destruct Hcfg as (_ & _ & _ & Hb & _). apply get_sim; [done|].
  clear app sa Hrel. intros app sa (Hw & Hv & Hc & Hd & Hvals). apply put_sim.
  - destruct (app_deliverState app) as [s|] eqn:Es, (sa_deliver sa) as [ss|] eqn:Ess; try done.
    + split_and!; simpl; [done|done|done| |done]. destruct Hd as (Hctx & Hf & Hww).
      split_and!; simpl; [by rewrite Hctx|done|done].
    + split_and!; simpl; [done|done|done|by apply new_state_rel|done].
  - intros app' sa' Hrel'. eapply (rsim_bind eq eq app_rel); [|done|].
    + destruct (cf_beginBlocker cfg) as [f|]; [|by apply rsim_ret].
      apply onDeliver_sim; [|done]. intros ctx. by apply good_run_interp, Hb.
    + intros r ? app2 sa2 <- Hrel2. apply get_sim; [done|]. intros a b (Hw2 & Hv2 & Hc2 & Hd2 & _).
      apply put_sim; [by split_and!|]. intros. by apply rsim_ret.
Qed.

Lemma EndBlock_sim req app sa :
  app_rel app sa -> rsim eq app_rel (EndBlock cfg req) (spec_EndBlock cfg req) app sa.
Proof.
  intros Hrel. destruct Hcfg as (_ & _ & _ & _ & He). unfold EndBlock, spec_EndBlock.
  destruct (cf_endBlocker cfg) as [f|]; [|by apply rsim_ret].
  apply onDeliver_sim; [|done]. intros ctx. by apply good_run_interp, He.
Qed.

(** Commit: the deliver maps are committed. *)
Lemma app_Commit_run (app : BaseApp (MS:=MS)) (sa : spec_app) s ss :
  app_rel app sa -> app_deliverState app = Some s -> sa_deliver sa = Some ss ->
  exists res app', Commit app = (Ok res, app') /\
    app_rel app' (mk_spec_app (sm_stores (w_ms (ss_world ss)))
      (Some (spec_state (sm_stores (w_ms (ss_world ss))) (cx_BlockHeader (ss_ctx ss)) true)) None (sa_vals sa)) /\
    rc_Data res = cid_Hash (ms_LastCommitID (app_cms app')).
Proof.
  intros (Hw & Hv & Hc & Hd & Hvals) Es Ess. rewrite Es, Ess in Hd. destruct Hd as (Hctx & Hf & Hww & Hwv & Hm).
  destruct app as [base chk del vals], s as [[db sts] ctx meters]. simpl in *. subst del.
  destruct (cacheMS_Write_run _ _ _ Hww Hf) as (cms' & HW & Hw' & Hv' & _).
  destruct (law_Commit (cms_parent cms') Hw') as (id & ms' & HCo & Hwc & Hvc & Hid).
  unfold Commit, mbind, M_bind, onDeliver, run_state, write_state, getM, putM, liftO, mret, M_ret. simpl.
  unfold layer_of, over in *. simpl in HW |- *. rewrite HW. simpl. rewrite HCo. eexists _, _. split_and!; [done| |simpl; by rewrite Hid].
  assert (Hview : forall k, ms_view ms' k = sm_stores (w_ms (ss_world ss)) !! k).
  { intros k. rewrite Hvc, Hv'. apply Hwv. }
  split_and!; simpl; [done|exact Hview| |done|done].
  rewrite <- Hctx. by apply new_state_rel.
Qed.

Lemma call_sim c app sa :
  app_rel app sa -> rsim (fun r r' => r' = no_hash r) app_rel (run_call cfg c) (spec_call cfg c) app sa.
Proof.
  intros Hrel.
  assert (Hret : forall A (m1 : M (BaseApp (MS:=MS)) A) (m2 : M spec_app A) (f : A -> response),
    (forall a, f a = no_hash (f a)) -> rsim eq app_rel m1 m2 app sa ->
    rsim (fun r r' => r' = no_hash r) app_rel (r ← m1; mret (f r)) (r ← m2; mret (f r)) app sa).
  { intros A m1 m2 f Hf Hm. eapply rsim_bind; [exact Hm|done|]. intros a ? ? ? <- ?. by apply rsim_ret. }
  destruct c; simpl.
  - by apply (Hret _ _ _ (fun _ => RInitChain)); [|apply InitChain_sim].
  - by apply (Hret _ _ _ RBeginBlock); [|apply BeginBlock_sim].
  - by apply (Hret _ _ _ RCheckTx); [|apply runTx_sim].
  - by apply (Hret _ _ _ RDeliverTx); [|apply runTx_sim].
  - by apply (Hret _ _ _ REndBlock); [|apply EndBlock_sim].
  - unfold rsim, mbind, M_bind, spec_Commit.
    pose proof Hrel as (_ & _ & _ & Hd & _).
    destruct (app_deliverState app) as [s|] eqn:Es, (sa_deliver sa) as [ss|] eqn:Ess; try done.
    + destruct (app_Commit_run app sa s ss Hrel Es Ess) as (res & app' & -> & Hrel' & _). by split.
    + assert (Commit app = (Panicked nil_pointer, app)) as ->.
      { unfold Commit, mbind, M_bind, onDeliver. by rewrite Es. }
      by split.
Qed.

Lemma calls_sim cs app sa :
  app_rel app sa -> rsim (fun rs rs' => rs' = no_hash <$> rs) app_rel (run_calls cfg cs) (spec_calls cfg cs) app sa.
Proof.
  revert app sa. induction cs as [|c cs IH]; intros app sa Hrel; [by apply rsim_ret|]. simpl.
  eapply rsim_bind; [by apply call_sim|done|]. intros r ? app1 sa1 -> Hrel1.
  eapply rsim_bind; [by apply IH|done|]. intros rs ? ? ? -> ?. by apply rsim_ret.
Qed.
End app_refinement.

(** ** Checking does not touch the rest of the application *)

Section isolation.
Context {MS : Type} `{HM : MultiStore MS} `{HP : !PureReads MS} `{HCM : !CommitMultiStore MS} `{HD : LibDB}.
Context `{HC : Crypto} {T : Type} `{HT : Msg T}.
Variable cfg : AppConfig (T:=T).

Definition is_check (c : call (T:=T)) : bool := match c with CCheckTx _ _ _ => true | _ => false end.
Definition is_check_response (r : response) : bool := match r with RCheckTx _ => true | _ => false end.

(** Equal but for the check state. *)
Definition same_but_check (a b : BaseApp (MS:=MS)) : Prop :=
  app_cms a = app_cms b /\ app_deliverState a = app_deliverState b /\ app_signedValidators a = app_signedValidators b.

#[local] Instance same_but_check_equiv : Equivalence same_but_check.
Proof. split; unfold same_but_check; repeat intro; destruct_and?; split_and!; congruence. Qed.

Lemma recover_Ok {S} (m : M S Result) s (P : S -> Prop) :
  P (m s).2 -> exists res s', recover cfg m s = (Ok res, s') /\ P s'.
Proof. unfold recover. destruct (m s) as [[res|q] s']; simpl; eauto. Qed.

Lemma onCheck_exec_same ante rtr mode (g : Ctx -> Ctx) tx app :
  same_but_check (onCheck (fun ctx => exec_tx ante rtr mode (g ctx) tx) app).2 app.
Proof.
  unfold onCheck. destruct (app_checkState app) as [s|]; [|reflexivity]. unfold run_state.
  pose proof (exec_tx_parent (MS:=MS) ante rtr mode (g (st_ctx s)) tx
    (mk_World (over (st_ms s) (app_cms app)) (st_meters s))) as Hp.
  destruct (exec_tx _ _ _ _ _ _) as [r w]. simpl in *. by split_and!.
Qed.

Lemma runTx_check_same simulate txBytes tx app :
  exists res app', runTx cfg (check_mode simulate) txBytes tx app = (Ok res, app') /\ same_but_check app' app.
Proof.
  apply (recover_Ok _ _ (fun app' => same_but_check app' app)). cbv zeta.
  destruct (length (GetMsgs tx) =? 0)%nat; [simpl; reflexivity|].
  unfold mbind, M_bind, liftO. destruct (validate_msgs (GetMsgs tx)) as [[res|]|q]; [simpl; reflexivity| |simpl; reflexivity].
  destruct simulate; apply onCheck_exec_same.
Qed.

Lemma onDeliver_same {A} (m : Ctx -> M (World (cacheMultiStore MS)) A) a b :
  same_but_check a b -> rsim eq same_but_check (onDeliver m) (onDeliver m) a b.
Proof.
  intros Hs. pose proof Hs as (Hc & Hd & Hv). unfold rsim, onDeliver. rewrite Hd, Hc.
  destruct (app_deliverState b) as [s|]; [|by split].
  destruct (run_state s (m (st_ctx s)) (app_cms b)) as [[[] s'] base]; (split; [done|by split_and!]).
Qed.

Lemma put_same {B} (m1 m2 : M (BaseApp (MS:=MS)) B) a1 b1 a b :
  same_but_check a1 b1 -> (forall a b, same_but_check a b -> rsim eq same_but_check m1 m2 a b) ->
  rsim eq same_but_check (putM a1;; m1) (putM b1;; m2) a b.
Proof. intros Hs Hm. by apply Hm. Qed.

Lemma get_same {B} (f1 f2 : BaseApp -> M (BaseApp (MS:=MS)) B) a b :
  same_but_check a b -> (forall a b, same_but_check a b -> rsim eq same_but_check (f1 a) (f2 b) a b) ->
  rsim eq same_but_check (getM ≫= f1) (getM ≫= f2) a b.
Proof. intros Hs Hf. by apply Hf. Qed.

Lemma recover_same (m1 m2 : M (BaseApp (MS:=MS)) Result) a b :
  rsim eq same_but_check m1 m2 a b -> rsim eq same_but_check (recover cfg m1) (recover cfg m2) a b.
Proof.
  unfold rsim, recover. destruct (m1 a) as [[a1|p1] s1'], (m2 b) as [[a2|p2] s2']; try done.
  by intros [ -> ?].
Qed.

Lemma Commit_same a b : same_but_check a b -> rsim eq same_but_check Commit Commit a b.
Proof.
  intros Hs. eapply (rsim_bind eq eq same_but_check); [by apply onDeliver_same|done|]. intros header ? a1 b1 <- H1.
  eapply (rsim_bind eq eq same_but_check); [by apply onDeliver_same|done|]. intros _ _ a2 b2 _ H2.
  apply get_same; [done|]. intros a3 b3 (Hc & Hd & Hv). rewrite Hc. destruct (ms_Commit (app_cms b3)) as [r cms].
  apply put_same; [by split_and!|]. intros a4 b4 H4.
  eapply (rsim_bind eq eq same_but_check); [|done|]. { by destruct r. }
  intros id ? a5 b5 <- H5. apply get_same; [done|]. intros a6 b6 (Hc6 & Hd6 & Hv6).
  apply put_same; [by split_and!|]. intros. by apply rsim_ret.
Qed.

Lemma run_call_same c a b :
  is_check c = false -> same_but_check a b ->
  rsim (fun r r' => r' = r /\ is_check_response r = false) same_but_check (run_call cfg c) (run_call cfg c) a b.
Proof.
  intros Hck Hs.
  assert (Hret : forall A (m1 m2 : M (BaseApp (MS:=MS)) A) (f : A -> response),
    (forall a, is_check_response (f a) = false) -> rsim eq same_but_check m1 m2 a b ->
    rsim (fun r r' => r' = r /\ is_check_response r = false) same_but_check
      (r ← m1; mret (f r)) (r ← m2; mret (f r)) a b).
  { intros A m1 m2 f Hf Hm. eapply rsim_bind; [exact Hm|done|]. intros x ? ? ? <- ?. by apply rsim_ret. }
  destruct c as [req|req|sim bz tx|bz tx|req|]; simpl; [| |done| | |].
  - apply (Hret _ _ _ (fun _ => RInitChain)); [done|]. apply get_same; [done|].
    intros a1 b1 (Hc & _ & Hv). apply put_same; [by split_and!; simpl; rewrite ?Hc|].
    intros a' b' Hab. destruct (cf_initChainer cfg); [by apply onDeliver_same|by apply rsim_ret].
  - apply (Hret _ _ _ RBeginBlock); [done|]. apply get_same; [done|].
    intros a1 b1 (Hc & Hd & Hv). apply put_same.
    { rewrite Hd. destruct (app_deliverState b1); split_and!; simpl; by rewrite ?Hc. }
    intros a2 b2 H2. eapply (rsim_bind eq eq same_but_check); [|done|].
    + destruct (cf_beginBlocker cfg); [by apply onDeliver_same|by apply rsim_ret].
    + intros r ? a3 b3 <- H3. apply get_same; [done|]. intros a4 b4 (? & ? & ?).
      apply put_same; [by split_and!|]. intros. by apply rsim_ret.
  - apply (Hret _ _ _ RDeliverTx); [done|]. apply recover_same. cbv zeta.
    destruct (length (GetMsgs tx) =? 0)%nat; [by apply rsim_ret|].
    eapply (rsim_bind eq eq same_but_check); [|done|].
    { unfold rsim, liftO. by destruct (validate_msgs (GetMsgs tx)). }
    intros r ? a1 b1 <- H1. destruct r as [res|]; [by apply rsim_ret|]. apply get_same; [done|].
    intros a2 b2 Hab. rewrite (proj2 (proj2 Hab)). by apply onDeliver_same.
  - apply (Hret _ _ _ REndBlock); [done|]. unfold EndBlock.
    destruct (cf_endBlocker cfg); [by apply onDeliver_same|by apply rsim_ret].
  - apply (Hret _ _ _ RCommit); [done|]. by apply Commit_same.
Qed.

(** Erasing the CheckTx and Simulate calls of a run. *)
Definition no_checks (cs : list (call (T:=T))) : list call := filter (fun c => is_check c = false) cs.
Definition no_check_responses (rs : list response) : list response :=
  filter (fun r => is_check_response r = false) rs.

Lemma run_calls_erase cs a b :
  same_but_check a b ->
  rsim (fun rs rs' => rs' = no_check_responses rs) same_but_check
    (run_calls cfg cs) (run_calls cfg (no_checks cs)) a b.
Proof.
  revert a b. induction cs as [|c cs IH]; intros a b Hs; [by apply rsim_ret|].
  unfold no_checks. rewrite filter_cons. destruct (is_check c) eqn:Ec.
  - rewrite decide_False by done. destruct c as [| |sim bz tx| | |]; try done.
    destruct (runTx_check_same sim bz tx a) as (res & a' & Hrun & Hs').
    assert (Hss : same_but_check a' b) by (etransitivity; eassumption).
    specialize (IH a' b Hss). unfold rsim in *. simpl. unfold mbind, M_bind. rewrite Hrun. simpl.
    fold (no_checks cs). destruct (run_calls cfg cs a') as [[rs|q] a1]; [|done].
    destruct (run_calls cfg (no_checks cs) b) as [[rs'|q'] b1]; [|done]. exact IH.
  - rewrite decide_True by done. simpl.
    eapply rsim_bind; [by apply run_call_same|done|]. intros r ? a1 b1 [-> Hr] Hs1.
    eapply rsim_bind; [by apply IH|done|]. intros rs rs' a2 b2 -> Hs2.
    apply rsim_ret; [|done]. unfold no_check_responses. by rewrite filter_cons, decide_True.
Qed.
End isolation.

(** ** Properties *)

Lemma NewBaseApp_rel {MS} `{HM : MultiStore MS} `{HL : !MultiStoreLaws MS} `{HD : LibDBLaws} `{HC : Crypto} (ms : MS) :
  ms_wf ms -> app_rel (NewBaseApp ms) (mk_spec_app (sm_stores (spec_of ms)) None None []).
Proof. intros Hw. split_and!; try done. intros k. simpl. by rewrite <- lookup_spec_of. Qed.

(** C1: the application, with its states kept as caches over the committed
    store, refines the abstract application that keeps them as plain maps: on
    any sequence of InitChain, BeginBlock, CheckTx, DeliverTx, Simulate,
    EndBlock and Commit calls both give the same responses (or the same
    panic) - but for the hash in Commit's, which the trees of the store
    determine - and the committed store and both states keep the same maps. *)
Theorem BaseApp_refines {MS} `{HM : MultiStore MS} `{HL : !MultiStoreLaws MS} `{HCM : !CommitMultiStore MS}
    `{HCL : !CommitLaws MS} `{HD : LibDBLaws} `{HC : Crypto} {T : Type} `{HT : Msg T}
    (cfg : AppConfig (T:=T)) (cs : list (call (T:=T))) (app : BaseApp (MS:=MS)) (sa : spec_app)
    (Hcfg : cfg_ok cfg) (Hrel : app_rel app sa) :
  rsim (fun rs rs' => rs' = no_hash <$> rs) app_rel (run_calls cfg cs) (spec_calls cfg cs) app sa.
Proof. by apply calls_sim. Qed.

(** C2: CheckTx and Simulate are isolated from the chain.  Erasing them from any
    sequence of calls changes no response to the other calls - the hashes that
    Commit answers with included - nor whether they panic, and leaves the same
    committed multi-store, deliver state and signing validators: all but the
    check state, for any multi-store that reads do not change. *)
Theorem check_calls_isolated {MS} `{HM : MultiStore MS} `{HP : !PureReads MS} `{HCM : !CommitMultiStore MS}
    `{HD : LibDB} `{HC : Crypto} {T : Type} `{HT : Msg T}
    (cfg : AppConfig (T:=T)) (cs : list (call (T:=T))) (app : BaseApp (MS:=MS)) :
  rsim (fun rs rs' => rs' = no_check_responses rs)
    (fun a b => app_cms a = app_cms b /\ app_deliverState a = app_deliverState b /\
       app_signedValidators a = app_signedValidators b)
    (run_calls cfg cs) (run_calls cfg (no_checks cs)) app app.
Proof. by apply run_calls_erase. Qed.

(** Commit makes the deliver state's maps the committed ones, clears the
    deliver state, resets the check state to the committed maps and answers
    with the hash of the commit it recorded. *)
Theorem Commit_persists {MS} `{HM : MultiStore MS} `{HL : !MultiStoreLaws MS} `{HCM : !CommitMultiStore MS}
    `{HCL : !CommitLaws MS} `{HD : LibDBLaws} `{HC : Crypto}
    (app : BaseApp (MS:=MS)) (sa : spec_app) (s : state) (ss : sstate)
    (Hrel : app_rel app sa) (Hs : app_deliverState app = Some s) (Hss : sa_deliver sa = Some ss) :
  exists res app', Commit app = (Ok res, app') /\
    (forall k, ms_view (app_cms app') k = sm_stores (w_ms (ss_world ss)) !! k) /\
    app_deliverState app' = None /\
    (exists cs, app_checkState app' = Some cs /\ cx_BlockHeader (st_ctx cs) = cx_BlockHeader (st_ctx s) /\
       state_rel (app_cms app') cs (spec_state (sm_stores (w_ms (ss_world ss))) (cx_BlockHeader (st_ctx s)) true)) /\
    rc_Data res = cid_Hash (ms_LastCommitID (app_cms app')).
Proof.
  destruct (app_Commit_run app sa s ss Hrel Hs Hss) as (res & app' & HC' & (Hw & Hv & Hc & Hd & _) & Hid).
  exists res, app'. split_and!; [done|done| | |done].
  - simpl in Hd. by destruct (app_deliverState app').
  - destruct (app_checkState app') as [cs|]; [|done]. exists cs. simpl in Hc.
    destruct Hrel as (_ & _ & _ & Hrd & _). rewrite Hs, Hss in Hrd. destruct Hrd as (Hctx & _). rewrite Hctx.
    split_and!; [done| |done]. destruct Hc as [-> _]. done.
Qed.

(** The messages' loop ends normally only after a successful last message. *)
Lemma msgs_loop_last_OK {MS} `{MultiStore MS} `{HC : Crypto} {T : Type} `{HT : Msg T}
    (rtr : list (string * Handler T)) ctx n msgs :
  forall i last final logs w last' final' logs' w', Result_IsOK last = true ->
  interp (msgs_loop rtr ctx n i msgs last final logs) w = (Ok (inl (last', final', logs')), w') ->
  Result_IsOK last' = true.
Proof.
  induction msgs as [|msg msgs IH]; intros i last final logs w last' final' logs' w' Hl; simpl.
  { intros Hrun. apply (f_equal fst) in Hrun. simpl in Hrun. by injection Hrun as <- _ _. }
  destruct (Route rtr (Type_ msg)) as [h|]; [|done]. rewrite interp_bind. intros Hrun.
  apply bind_Ok_inv in Hrun as (result & w1 & _ & Hrun). simpl in Hrun.
  apply bind_Ok_inv in Hrun as (gas & w2 & _ & Hrun).
  destruct (Result_IsOK result) eqn:Er; simpl in Hrun; [by eapply IH|].
  destruct (n =? 1)%nat; apply (f_equal fst) in Hrun; discriminate Hrun.
Qed.

(** C3: a transaction is atomic: what the ante handler did stays; if it aborts
    or panics nothing else happens; otherwise all the messages take effect when
    every one is routed and handled without failure or panic and the run is not
    a simulation, and else none does. *)
Theorem exec_tx_atomic {MS} `{HM : MultiStore MS} `{HL : !MultiStoreLaws MS} `{HD : LibDBLaws}
    `{HC : Crypto} {T : Type} `{HT : Msg T} (ante : option (AnteHandler T)) (rtr : list (string * Handler T))
    (mode : runTxMode) (ctx : Ctx) (tx : Tx T) (w : World MS) (v : World spec_ms)
    (Ha : ante_ok ante) (Hr : router_ok rtr) (Hrel : world_rel w v) :
  let '(ra, v1) := interp (run_ante ante ctx tx) v in
  let w' := (exec_tx ante rtr mode ctx tx w).2 in
  match ra with
  | Ok (inl ctx') =>
      let '(rm, v2) := interp (msgs_loop rtr ctx' (length (GetMsgs tx)) 0 (GetMsgs tx)
                                 zero_Result zero_Result []) v1 in
      let all_passed := match rm with Ok (inl _) => negb (bool_decide (mode = runTxModeSimulate)) | _ => false end in
      forall k, ms_view (w_ms w') k = sm_stores (w_ms (if all_passed then v2 else v1)) !! k
  | _ => forall k, ms_view (w_ms w') k = sm_stores (w_ms v1) !! k
  end.
Proof.
  pose proof (exec_sim ante rtr mode ctx tx w v Ha Hr Hrel) as Hsim. unfold rsim, spec_exec, mbind, M_bind in Hsim.
  destruct (interp (run_ante ante ctx tx) v) as [ra v1], (exec_tx ante rtr mode ctx tx w) as [r w'].
  destruct ra as [[ctx'|res]|q]; [|by destruct r; try done; apply Hsim..].
  unfold spec_msgs in Hsim.
  destruct (interp (msgs_loop _ _ _ _ _ _ _ _) v1) as [rm v2] eqn:Em. cbv zeta.
  destruct rm as [[[[last final] logs]|res]|q]; [|by destruct r; try done; apply Hsim..].
  assert (Hlast : Result_IsOK last = true) by (eapply (msgs_loop_last_OK (MS:=spec_ms)); [|exact Em]; reflexivity).
  rewrite Hlast, andb_true_r in Hsim.
  destruct r as [res|q]; [|done]. destruct Hsim as [_ (_ & Hv & _)]. intros k. rewrite Hv.
  by destruct (negb _).
Qed.
