(* ===== verification/BankApp.v ===== *)
(** * An application of the standard parts

    BaseApp with the ante handler of x/auth and the handler of x/bank, as the
    example applications wire them.  Its programs keep the store interface's
    contract ([bank_cfg_ok]), so the theorems on BaseApp apply to it; concrete
    runs of it serve as witnesses. *)
From Stdlib Require Import Strings.Byte Strings.String.
From S2P Require Import Prelude Wire Int Coin Errors KVStore MergeIterator CacheKV IAVL MultiStore Account Context.
From S2P Require Import ProgLogic Auth Address Ante Bank RunTx ReadOnly BaseApp.
#[local] Open Scope string_scope.
#[local] Open Scope list_scope.
#[local] Open Scope Z_scope.

(** ** The programs scan no store *)

(** Splits a program at its binds and branches. *)
Ltac prog_ok :=
  repeat match goal with
  | |- prog_ok (mret _) => exact I
  | |- prog_ok (Ret _) => exact I
  | |- prog_ok (Fault _) => exact I
  | |- prog_ok (lift _) => apply prog_ok_lift
  | |- prog_ok (store_Get _ _ _) => split; [exact I|intros []; exact I]
  | |- prog_ok (store_Set _ _ _ _) => split; [exact I|intros; exact I]
  | |- prog_ok (ctx_ConsumeGas _ _ _) => exact I
  | |- prog_ok (_ ≫= _) => apply prog_ok_bind; [|intros]
  | |- prog_ok (NewMeterOp _ _) => intros ?
  | |- prog_ok (let '(_, _) := ?x in _) => destruct x
  | |- prog_ok (match ?x with _ => _ end) => destruct x
  | |- prog_ok (if ?x then _ else _) => destruct x
  end; auto with sdk.

Section programs.
Context `{Codec} {T : Type} `{Msg T} `{JSONCodec}.

Lemma GetAccount_ok am ctx addr : prog_ok (GetAccount am ctx addr).
Proof. unfold GetAccount. prog_ok. Qed.
Lemma SetAccount_ok am ctx acc : prog_ok (SetAccount am ctx acc).
Proof. unfold SetAccount. prog_ok. Qed.
Lemma NewAccountWithAddress_ok am ctx addr : prog_ok (NewAccountWithAddress am ctx addr).
Proof. unfold NewAccountWithAddress, GetNextAccountNumber. prog_ok. Qed.
#[local] Hint Resolve GetAccount_ok SetAccount_ok NewAccountWithAddress_ok : sdk.

Lemma ante_fee_ok ctx fck fee i acc : prog_ok (ante_fee ctx fck fee i acc).
Proof. unfold ante_fee, addCollectedFees, GetCollectedFees, setCollectedFees. prog_ok. Qed.
Lemma processSig_ok ctx am addr sig bz : prog_ok (processSig ctx am addr sig bz).
Proof. unfold processSig. prog_ok. Qed.
#[local] Hint Resolve ante_fee_ok processSig_ok : sdk.

Lemma ante_loop_ok ctx am fck (stdTx : StdTx T) pairs :
  forall i accs, prog_ok (ante_loop ctx am fck stdTx i pairs accs).
Proof. induction pairs as [|[addr sig] pairs IH]; intros i accs; cbn [ante_loop]; prog_ok. Qed.
#[local] Hint Resolve ante_loop_ok : sdk.

Lemma NewAnteHandler_ok am fck ctx (tx : Tx T) : prog_ok (NewAnteHandler am fck ctx tx).
Proof. unfold NewAnteHandler. prog_ok. Qed.

Lemma coins_loop_ok step l : (forall addr c, prog_ok (step addr c)) ->
  forall tags, prog_ok (coins_loop step l tags).
Proof. intros Hs. induction l as [|[addr c] l IH]; intros tags; cbn [coins_loop]; prog_ok. Qed.
Lemma subtractCoins_ok ctx am addr c : prog_ok (subtractCoins ctx am addr c).
Proof. unfold subtractCoins, getCoins, setCoins. prog_ok. Qed.
Lemma addCoins_ok ctx am addr c : prog_ok (addCoins ctx am addr c).
Proof. unfold addCoins, getCoins, setCoins. prog_ok. Qed.
#[local] Hint Resolve coins_loop_ok subtractCoins_ok addCoins_ok : sdk.

Lemma handleMsgSend_ok ctx am msg : prog_ok (handleMsgSend ctx am msg).
Proof. unfold handleMsgSend, inputOutputCoins. prog_ok. Qed.
End programs.

(** ** The application *)

Section bank_app.
Context `{Codec} `{!Bech32} `{BankJSON} `{JSONCodec}.

(** The ante handler and the bank's route; no blockers. *)
Definition bank_cfg (am : AccountMapper) (fck : FeeCollectionKeeper) (stack : panic_value -> string)
    : AppConfig (T:=bank_Msg) :=
  mk_AppConfig "BankApp" [("bank", NewHandler Some (fun _ => "") am)]
    (fun _ => inr (ErrTxDecode ""))
    (Some (fun ctx tx => r ← NewAnteHandler am fck ctx tx; mret (Some r.1.1, r.1.2, r.2)))
    None None None None None "0.20.0-dev" (fun _ => None) stack.

Lemma bank_cfg_ok am fck stack : cfg_ok (bank_cfg am fck stack).
Proof.
  split_and!; [|constructor; [|constructor]|done|done|done].
  - intros ctx tx. apply prog_ok_bind; [apply NewAnteHandler_ok|done].
  - intros ctx [msg|msg]; [apply handleMsgSend_ok|exact I].
Qed.
End bank_app.

(** ** A concrete run

    [spec_ms] as the committed store; the version stays 1. *)

Definition model_CommitMultiStore : CommitMultiStore spec_ms := {|
  ms_Commit := mret (mk_CommitID 1 None);
  ms_LastCommitID _ := mk_CommitID 1 None;
  ms_LoadLatestVersion := mret None;
  ms_LoadVersion _ := mret None;
  ms_Query := None;
|}.

Section examples.
#[local] Existing Instance model_Crypto.
#[local] Existing Instance model_CryptoLaws.
#[local] Existing Instance model_Codec.
#[local] Existing Instance model_CodecLaws.
#[local] Existing Instance model_JSONCodec.
#[local] Existing Instance model_LibDB.
#[local] Existing Instance model_LibDBLaws.
#[local] Existing Instance model_CommitMultiStore.

Definition model_BankJSON : BankJSON := {|
  MarshalJSON_coins addr c := Some (ser (addr, coins_data c));
  MarshalJSON_send i o := Some (ser (i, o));
  MarshalJSON_issue b o := Some (ser (b, o));
|}.
#[local] Existing Instance model_Bech32.
#[local] Existing Instance model_BankJSON.

Lemma model_CommitLaws : CommitLaws spec_ms.
Proof. intros ms Hw. eexists. exists ms. split; [done|]. by split_and!. Qed.

Definition ex_cfg : AppConfig := bank_cfg ex_am ex_fck (fun _ => "stack").

(** [ex_addr] sends 7 atoms, paying a fee of 5, with a gas limit. *)
Definition ex_send_tx (gas : Z) : Tx bank_Msg :=
  let fee := mk_StdFee [NewCoin "atom" 5] gas in
  let bz := match StdSignBytes "" 0 3 fee [Send ex_send] "" with Ok bz => bz | _ => [] end in
  TxStd (mk_StdTx [Send ex_send] fee
    [mk_StdSignature (Some ex_addr : option PubKey) (ex_addr ++ bz : Signature) 0 3] "").

Definition ex_app : BaseApp (MS:=spec_ms) := NewBaseApp (mk_spec_ms ex_stores ∅).

Definition response_code (r : response) : option Z :=
  match r with RCheckTx r | RDeliverTx r => Some (Code r) | _ => None end.

(** The codes of a run's transactions; then, committed, the coins of the
    sender, of the recipient, and the collected fees. *)
Definition ex_results (cs : list call)
    : outcome (list (option Z)) * option Coins * option Coins * option Coins :=
  let '(r, app) := run_calls ex_cfg cs ex_app in
  let coins addr := bz ← (s ← sm_stores (app_cms app) !! example_key; (s : spec_store) !! AddressStoreKey addr);
                    acc_Coins <$> UnmarshalAccount bz in
  (match r with Ok rs => Ok (response_code <$> rs) | Panicked q => Panicked q end,
   coins ex_addr, coins [Byte.x06],
   bz ← (s ← sm_stores (app_cms app) !! mk_StoreKey 2 "fee"; (s : spec_store) !! collectedFeesKey);
     UnmarshalCoins bz).

Definition ex_block (gas : Z) : list call :=
  [CInitChain (mk_RequestInitChain "" []); CBeginBlock (mk_RequestBeginBlock zero_Header []);
   CDeliverTx None (ex_send_tx gas); CEndBlock (mk_RequestEndBlock 1); CCommit].

Example bank_block : ex_results (ex_block 100000) =
  (Ok [None; None; Some 0; None; None], Some [NewCoin "atom" 8], Some [NewCoin "atom" 7],
   Some [NewCoin "atom" 5]).
Proof. vm_compute. reflexivity. Qed.

(** A message type whose handler charges 10 gas and logs. *)
#[local] Instance unit_Msg : Msg unit := {|
  Type_ _ := "unit"; ValidateBasic _ := Ok None; GetSignBytes _ := Ok []; msg_GetSigners _ := [] |}.

Definition ex_handler : Handler unit := fun ctx _ =>
  ctx_ConsumeGas ctx 10 "work";; mret (with_log zero_Result (TStr "did some work")).

(** The result of two such messages, and what their meter has consumed. *)
Definition ex_two_msgs : outcome Result * list Z :=
  let '(r, w) := exec_tx None [("unit", ex_handler)] runTxModeDeliver ex_ctx (TxOther [tt; tt])
                   (mk_World (mk_spec_ms ∅ ∅) [NewInfiniteGasMeter]) in
  (r, GasConsumed <$> w_meters w).
End examples.

(** ** Properties of concrete runs *)

(** In this block the gas of the delivered transaction runs out while the ante
    handler saves the payer's account: the fee is in the collected fees although
    the payer was not charged, and the block commits it. *)
Example DeliverTx_out_of_gas_mints_fee :
  ex_results (ex_block 550) =
  (Ok [None; None; Some (WRSPCode (ErrOutOfGas "")); None; None], Some [NewCoin "atom" 20], None,
   Some [NewCoin "atom" 5]).
Proof. vm_compute. reflexivity. Qed.

(** a simulation is not free of effects: its ante handler runs on the check
    state itself, so that after simulating a transaction, checking the same
    transaction fails with an invalid sequence. *)
Theorem Simulate_spends_sequence :
  ex_results [CInitChain (mk_RequestInitChain "" []); CCheckTx true None (ex_send_tx 100000);
    CCheckTx false None (ex_send_tx 100000)] =
  (Ok [None; Some 0; Some (WRSPCode (ErrInvalidSequence ""))], Some [NewCoin "atom" 20], None, None) /\
  ex_results [CInitChain (mk_RequestInitChain "" []); CCheckTx false None (ex_send_tx 100000)] =
  (Ok [None; Some 0], Some [NewCoin "atom" 20], None, None).
Proof. split; vm_compute; reflexivity. Qed.

(** the gas a transaction of several messages reports is not what it used:
    the meter's running total is added after each message, so two messages of
    10 gas each report 30; and the handlers' logs are lost, since the log line
    of each message takes the still empty log of the final result. *)
Theorem runTx_GasUsed_accumulates :
  ex_two_msgs =
  (Ok (final_result (with_gas_used zero_Result 30)
         [TApp (TStr "Msg 1: ") (TStr ""); TApp (TStr "Msg 2: ") (TStr "")]), [20]).
Proof. vm_compute. reflexivity. Qed.

(** in the first block the height in the deliver context is that of
    InitChain, 0, whatever the block's header says: BeginBlock replaces only
    the header. *)
Theorem BeginBlock_first_height {MS} `{MultiStore MS} `{!CommitMultiStore MS} `{LibDB} `{Crypto}
    {T : Type} `{Msg T} (cfg : AppConfig (T:=T)) (init : RequestInitChain) (begin : RequestBeginBlock)
    (app : BaseApp (MS:=MS)) :
  let app' := (BeginBlock cfg begin (InitChain cfg init app).2).2 in
  exists s, app_deliverState app' = Some s /\ cx_BlockHeader (st_ctx s) = rbb_Header begin /\
  cx_BlockHeight (st_ctx s) = 0 /\ cx_ChainID (st_ctx s) = ric_ChainId init.
Proof.
  assert (Hinit : exists s, app_deliverState (InitChain cfg init app).2 = Some s /\
    cx_BlockHeight (st_ctx s) = 0 /\ cx_ChainID (st_ctx s) = ric_ChainId init).
  { unfold InitChain, mbind, M_bind, getM, putM, onDeliver, run_state. simpl.
    destruct (cf_initChainer cfg) as [f|]; [|by eexists]. simpl.
    destruct (interp _ _) as [r w]. by eexists. }
  destruct Hinit as (s & Hs & Hh & Hid). cbv zeta.
  unfold BeginBlock, mbind, M_bind, getM, putM, onDeliver, run_state. rewrite Hs. simpl.
  destruct (cf_beginBlocker cfg) as [f|]; simpl; [|by eexists].
  destruct (interp _ _) as [[r|q] w]; by eexists.
Qed.

(** ** Witnesses *)

Section app_witnesses.
#[local] Existing Instance model_Crypto.
#[local] Existing Instance model_Codec.
#[local] Existing Instance model_JSONCodec.
#[local] Existing Instance model_LibDB.
#[local] Existing Instance model_LibDBLaws.
#[local] Existing Instance model_CommitMultiStore.
#[local] Existing Instance model_CommitLaws.
#[local] Existing Instance model_Bech32.
#[local] Existing Instance model_BankJSON.

Definition ex_spec_app : spec_app := mk_spec_app ex_stores None None [].

Lemma spec_ms_view (ms : spec_ms) k : ms_view ms k = sm_stores ms !! k.
Proof. unfold ms_view. simpl. by destruct (sm_stores ms !! k). Qed.

Lemma ex_app_rel : app_rel ex_app ex_spec_app.
Proof. split_and!; try done. apply spec_ms_view. Qed.

Lemma ex_world_rel :
  world_rel (mk_World (mk_spec_ms ex_stores ∅) [NewInfiniteGasMeter])
    (mk_World (mk_spec_ms ex_stores ∅) [NewInfiniteGasMeter]).
Proof. split_and!; [done| |done]. apply spec_ms_view. Qed.

Lemma BaseApp_refines_witness :
  rsim (fun rs rs' => rs' = no_hash <$> rs) app_rel (run_calls ex_cfg (ex_block 100000)) (spec_calls ex_cfg (ex_block 100000)) ex_app ex_spec_app.
Proof.
  exact (BaseApp_refines ex_cfg (ex_block 100000) ex_app ex_spec_app (bank_cfg_ok _ _ _) ex_app_rel).
Defined.

Lemma check_calls_isolated_witness :
  rsim (fun rs rs' => rs' = no_check_responses rs)
    (fun a b => app_cms a = app_cms b /\ app_deliverState a = app_deliverState b /\
       app_signedValidators a = app_signedValidators b)
    (run_calls ex_cfg (CCheckTx true None (ex_send_tx 100000) :: ex_block 100000))
    (run_calls ex_cfg (no_checks (CCheckTx true None (ex_send_tx 100000) :: ex_block 100000))) ex_app ex_app.
Proof.
  exact (check_calls_isolated ex_cfg (CCheckTx true None (ex_send_tx 100000) :: ex_block 100000) ex_app).
Defined.

(** A block is under way: the deliver state over the committed store. *)
Definition ex_app2 : BaseApp (MS:=spec_ms) := setDeliverState zero_Header ex_app.
Definition ex_spec_app2 : spec_app :=
  mk_spec_app ex_stores None (Some (spec_state ex_stores zero_Header false)) [].

Lemma ex_app_rel2 : app_rel ex_app2 ex_spec_app2.
Proof.
  split; [by split|]. split; [intros k; apply (spec_ms_view (mk_spec_ms ex_stores ∅))|].
  split; [exact I|]. split; [|reflexivity].
  apply new_state_rel; [by split|intros k; apply (spec_ms_view (mk_spec_ms ex_stores ∅))].
Qed.

Lemma Commit_persists_witness :
  exists res app', Commit ex_app2 = (Ok res, app') /\
    (forall k, ms_view (app_cms app') k = ex_stores !! k) /\ app_deliverState app' = None.
Proof.
  destruct (Commit_persists ex_app2 ex_spec_app2 (new_state (mk_spec_ms ex_stores ∅) zero_Header false)
    (spec_state ex_stores zero_Header false) ex_app_rel2 eq_refl eq_refl) as (res & app' & Hc & Hv & Hd & _).
  exists res, app'. split; [exact Hc|split; [exact Hv|exact Hd]].
Defined.

Lemma exec_tx_atomic_witness :
  let '(ra, v1) := interp (run_ante (cf_anteHandler ex_cfg) ex_ctx (ex_send_tx 100000))
                     (mk_World (mk_spec_ms ex_stores ∅) [NewInfiniteGasMeter]) in
  let w' := (exec_tx (cf_anteHandler ex_cfg) (cf_router ex_cfg) runTxModeSimulate ex_ctx (ex_send_tx 100000)
               (mk_World (mk_spec_ms ex_stores ∅) [NewInfiniteGasMeter])).2 in
  forall k, ms_view (w_ms w') k = sm_stores (w_ms v1) !! k.
Proof.
  pose proof (exec_tx_atomic (cf_anteHandler ex_cfg) (cf_router ex_cfg) runTxModeSimulate ex_ctx
    (ex_send_tx 100000) (mk_World (mk_spec_ms ex_stores ∅) [NewInfiniteGasMeter])
    (mk_World (mk_spec_ms ex_stores ∅) [NewInfiniteGasMeter])
    (proj1 (bank_cfg_ok ex_am ex_fck (fun _ => "stack")))
    (proj1 (proj2 (bank_cfg_ok ex_am ex_fck (fun _ => "stack"))))
    ex_world_rel) as H.
  destruct (interp (run_ante _ _ _) _) as [ra v1]. cbv zeta in *.
  destruct ra as [[ctx'|res]|q]; [|exact H|exact H].
  destruct (interp (msgs_loop _ _ _ _ _ _ _ _) v1) as [rm v2].
  destruct rm as [[p|res]|q]; exact H.
Defined.
End app_witnesses.
