(* ===== verification/RootMulti.v ===== *)
(** * store/rootmultistore.go: the multi-store on disk

    A root multi-store holds an IAVL store per mounted key, commits them all
    at one version and records that version in its database, from which it can
    be loaded again.  The database ([DB]) and the trees are third-party.  The
    part of a database below a store's prefix belongs to that store's tree and
    is kept apart ([Disk]): what a tree has saved is there, by version.  Go
    ranges over its maps in any order; here the order is a parameter. *)
From Stdlib Require Import Strings.Byte Strings.String.
From S2P Require Import Prelude Wire Errors KVStore CacheKV GasKV PrefixStore IAVL MultiStore Account Context RunTx BaseApp.
From stdpp Require Import pretty.
#[local] Open Scope string_scope.
#[local] Open Scope list_scope.
#[local] Open Scope Z_scope.

(** ** Third-party code *)

(** What an iavl.VersionedTree has saved in its database, and
    VersionedTree.LoadVersion on a new tree over it. *)
Class TreeDisk (T : Type) `{VersionedTree T} := {
  Disk : Type;
  empty_disk : Disk;
  tree_disk : T -> Disk;
  tree_LoadVersion : Disk -> Z -> T * goError;
}.

(** [saved d] are the versions in a database, with their maps.  Version 0 is
    the latest one. *)
Class TreeDiskLaws (T : Type) `{VersionedTreeLaws T} `{!TreeDisk T} := {
  saved : Disk -> gmap Z (gmap bytes bytes);
  saved_empty : saved empty_disk = ∅;
  saved_versions : forall t, tree_versions t = dom (saved (tree_disk t));
  saved_Set : forall t k v, saved (tree_disk (tree_Set k v t).2) = saved (tree_disk t);
  saved_Remove : forall t k, saved (tree_disk (tree_Remove k t).2) = saved (tree_disk t);
  saved_SaveVersion : forall t,
    saved (tree_disk (tree_SaveVersion t).2) = <[tree_Version64 t + 1 := tree_map t]> (saved (tree_disk t));
  saved_DeleteVersion : forall t v, v ∈ tree_versions t -> v <> tree_Version64 t ->
    saved (tree_disk (tree_DeleteVersion v t).2) = delete v (saved (tree_disk t));
  tree_LoadVersion_law : forall d v m, saved d !! v = Some m -> v <> 0 ->
    (tree_LoadVersion d v).2 = None /\ tree_map (tree_LoadVersion d v).1 = m /\
    tree_Version64 (tree_LoadVersion d v).1 = v /\ saved (tree_disk (tree_LoadVersion d v).1) = saved d;
  tree_LoadVersion_latest : forall d v m, saved d !! v = Some m -> 1 <= v -> (forall v', is_Some (saved d !! v') -> v' <= v) ->
    (tree_LoadVersion d 0).2 = None /\ tree_map (tree_LoadVersion d 0).1 = m /\
    tree_Version64 (tree_LoadVersion d 0).1 = v;
  tree_LoadVersion_empty : forall d, saved d = ∅ ->
    (tree_LoadVersion d 0).2 = None /\ tree_map (tree_LoadVersion d 0).1 = ∅ /\
    tree_Version64 (tree_LoadVersion d 0).1 = 0 /\ saved (tree_disk (tree_LoadVersion d 0).1) = ∅;
}.

(** dbm.DB: a key-value store with atomic batches of writes. *)
Class DB (D : Type) := {
  DB_kv :: KVStore D;
  db_WriteBatch : list (bytes * bytes) -> M D unit;
}.
Definition batch_view (l : list (bytes * bytes)) (m : spec_store) : spec_store :=
  foldl (fun (m : spec_store) (kv : bytes * bytes) => <[kv.1 := kv.2]> m) m l.
Class DBLaws (D : Type) (HD : DB D) := {
  DB_laws : @KVStoreLaws D DB_kv;
  law_WriteBatch : forall (d : D) (l : list (bytes * bytes)), @wf D DB_kv DB_laws d ->
    steps (db_WriteBatch l) d tt (fun d' : D =>
      @wf D DB_kv DB_laws d' /\ @view D DB_kv DB_laws d' = batch_view l (@view D DB_kv DB_laws d));
}.

(** ** commitInfo and storeInfo *)

(** A storeInfo's Core is a struct of the one field CommitID. *)
Record storeInfo := mk_storeInfo { si_Name : string; si_CommitID : CommitID }.
Record commitInfo := mk_commitInfo { ci_Version : Z; ci_StoreInfos : list storeInfo }.

(** Amino at commitInfo, at int64 and at storeCore (which cannot fail), the
    hash function and the Merkle root of a map. *)
Class RootLib := {
  MarshalCommitInfo : commitInfo -> option bytes;
  UnmarshalCommitInfo : bytes -> option commitInfo;
  MarshalVersion : Z -> bytes;
  UnmarshalVersion : bytes -> option Z;
  MarshalCore : CommitID -> bytes;
  ripemd160 : bytes -> bytes;
  SimpleHashFromMap : gmap string bytes -> slice;
}.

(** An empty hash and none are encoded in the same way. *)
Definition id_equiv (a b : CommitID) : Prop :=
  cid_Version a = cid_Version b /\ slice_bytes (cid_Hash a) = slice_bytes (cid_Hash b).
Definition si_equiv (a b : storeInfo) : Prop := si_Name a = si_Name b /\ id_equiv (si_CommitID a) (si_CommitID b).
Definition ci_equiv (a b : commitInfo) : Prop :=
  ci_Version a = ci_Version b /\ Forall2 si_equiv (ci_StoreInfos a) (ci_StoreInfos b).

Class RootLibLaws `{RootLib} : Prop := {
  CommitInfo_roundtrip : forall ci, is_int64 (ci_Version ci) ->
    exists bz ci', MarshalCommitInfo ci = Some bz /\ UnmarshalCommitInfo bz = Some ci' /\ ci_equiv ci ci';
  Version_roundtrip : forall v, is_int64 v -> UnmarshalVersion (MarshalVersion v) = Some v;
  MarshalCore_equiv : forall a b, id_equiv a b -> MarshalCore a = MarshalCore b;
}.

Section info.
Context `{RootLib}.

Definition storeInfo_Hash (si : storeInfo) : bytes := ripemd160 (MarshalCore (si_CommitID si)).

(** The map of the stores' hashes: a later entry of a name replaces an earlier one. *)
Definition hash_map (infos : list storeInfo) : gmap string bytes :=
  foldl (fun m si => <[si_Name si := storeInfo_Hash si]> m) ∅ infos.
Definition commitInfo_Hash (ci : commitInfo) : slice := SimpleHashFromMap (hash_map (ci_StoreInfos ci)).
Definition commitInfo_CommitID (ci : commitInfo) : CommitID := mk_CommitID (ci_Version ci) (commitInfo_Hash ci).
End info.

(** ** The store *)

(** types/store.go StoreType; nil is [None] for the database of the mount. *)
Inductive StoreType := StoreTypeMulti | StoreTypeDB | StoreTypeIAVL | StoreTypePrefix.
Record storeParams := mk_storeParams { sp_key : StoreKey; sp_db : option positive; sp_typ : StoreType }.

(** A prefix of a database. *)
Abbreviation location := (option positive * bytes)%type.

Record rootMultiStore (T D Dk : Type) := mk_rootMultiStore {
  rs_db : D;
  rs_disks : gmap location Dk;
  rs_lastCommitID : CommitID;
  rs_storesParams : gmap StoreKey storeParams;
  rs_stores : gmap StoreKey (iavlStore T);
  rs_keysByName : gmap string StoreKey
}.
Arguments mk_rootMultiStore {T D Dk}.
Arguments rs_db {T D Dk}.
Arguments rs_disks {T D Dk}.
Arguments rs_lastCommitID {T D Dk}.
Arguments rs_storesParams {T D Dk}.
Arguments rs_stores {T D Dk}.
Arguments rs_keysByName {T D Dk}.

Definition slash : Ascii.ascii := Ascii.ascii_of_nat 47.

(** strings.SplitN(s, "/", 2), as the part before the first slash and the one
    after it, if there is one. *)
Fixpoint cut_slash (s : string) : string * option string :=
  match s with
  | EmptyString => ("", None)
  | String c s =>
      if Ascii.eqb c slash then ("", Some s)
      else let '(a, b) := cut_slash s in (String c a, b)
  end.

Definition parsePath (path : string) : (string * string) + sdkError :=
  match path with
  | String c rest =>
      if Ascii.eqb c slash then
        let '(storeName, rest) := cut_slash rest in
        inl (storeName, match rest with None => "" | Some s => ("/" ++ s)%string end)
      else inr (ErrUnknownRequest ("invalid path: " ++ path)%string)
  | EmptyString => inr (ErrUnknownRequest "invalid path: ")
  end.

Definition latestVersionKey : bytes := string_bytes "s/latest".
Definition commitInfoKey (ver : Z) : bytes := string_bytes ("s/" ++ pretty ver)%string.

Section root.
Context {T D : Type} `{VersionedTree T} `{!TreeDisk T} `{!DB D} `{RootLib}.
Abbreviation root := (rootMultiStore T D Disk).

Definition NewCommitMultiStore (db : D) (disks : gmap location Disk) : root :=
  mk_rootMultiStore db disks (mk_CommitID 0 None) ∅ ∅ ∅.

Definition with_db (rs : root) (db : D) : root :=
  mk_rootMultiStore db (rs_disks rs) (rs_lastCommitID rs) (rs_storesParams rs) (rs_stores rs) (rs_keysByName rs).
Definition with_disk (rs : root) (l : location) (d : Disk) : root :=
  mk_rootMultiStore (rs_db rs) (<[l := d]> (rs_disks rs)) (rs_lastCommitID rs) (rs_storesParams rs) (rs_stores rs)
    (rs_keysByName rs).
Definition with_lastCommitID (rs : root) (id : CommitID) : root :=
  mk_rootMultiStore (rs_db rs) (rs_disks rs) id (rs_storesParams rs) (rs_stores rs) (rs_keysByName rs).
Definition with_stores (rs : root) (stores : gmap StoreKey (iavlStore T)) : root :=
  mk_rootMultiStore (rs_db rs) (rs_disks rs) (rs_lastCommitID rs) (rs_storesParams rs) stores (rs_keysByName rs).

Definition MountStoreWithDB (key : option StoreKey) (typ : StoreType) (db : option positive) : M root unit :=
  match key with
  | None => panicM (PanicString "MountIAVLStore() key cannot be nil")
  | Some key =>
      rs ← getM;
      match rs_storesParams rs !! key with
      | Some _ => panicM (PanicString "rootMultiStore duplicate store key")
      | None =>
          putM (mk_rootMultiStore (rs_db rs) (rs_disks rs) (rs_lastCommitID rs)
                  (<[key := mk_storeParams key db typ]> (rs_storesParams rs)) (rs_stores rs)
                  (<[sk_name key := key]> (rs_keysByName rs)))
      end
  end.

(** nil for a key without a store. *)
Definition GetCommitStore (rs : root) (key : StoreKey) : option (iavlStore T) := rs_stores rs !! key.
Definition GetCommitKVStore (rs : root) (key : StoreKey) : outcome (iavlStore T) :=
  match rs_stores rs !! key with
  | Some st => Ok st
  | None => Panicked (RuntimeError "interface conversion: interface is nil")
  end.
Definition root_GetKVStore := GetCommitKVStore.

(** ** Loading *)

Definition getLatestVersion (db : D) : outcome Z * D :=
  match Get (Some latestVersionKey) db with
  | (Ok None, db) => (Ok 0, db)
  | (Ok (Some bz), db) =>
      (match UnmarshalVersion bz with Some v => Ok v | None => Panicked (PanicString "UnmarshalBinary") end, db)
  | (Panicked q, db) => (Panicked q, db)
  end.

Definition getCommitInfo (db : D) (ver : Z) : outcome (commitInfo + string) * D :=
  match Get (Some (commitInfoKey ver)) db with
  | (Ok None, db) => (Ok (inr "failed to get rootMultiStore: no data"), db)
  | (Ok (Some bz), db) =>
      (Ok match UnmarshalCommitInfo bz with
          | Some ci => inl ci
          | None => inr "failed to get rootMultiStore"
          end, db)
  | (Panicked q, db) => (Panicked q, db)
  end.

Definition onRootDB {A} (f : D -> outcome A * D) : M root A := zoom rs_db (fun db rs => with_db rs db) f.

Definition location_of (params : storeParams) : location :=
  match sp_db params with
  | Some db => (Some db, string_bytes "s/_/")
  | None => (None, string_bytes ("s/k:" ++ sk_name (sp_key params) ++ "/"))
  end.

Definition LoadIAVLStore (disk : Disk) (id : CommitID) : iavlStore T + string :=
  let '(tree, err) := tree_LoadVersion disk (cid_Version id) in
  match err with
  | Some e => inr e
  | None => inl (newIAVLStore tree defaultIAVLNumRecent defaultIAVLStoreEvery)
  end.

(** [None] is the zero value of a key that is not mounted. *)
Definition loadCommitStoreFromParams (id : CommitID) (params : option storeParams) : M root (iavlStore T + string) :=
  rs ← getM;
  match params with
  | None => panicM nil_pointer
  | Some params =>
      match sp_typ params with
      | StoreTypeMulti => panicM (PanicString "recursive MultiStores not yet supported")
      | StoreTypeIAVL => mret (LoadIAVLStore (default empty_disk (rs_disks rs !! location_of params)) id)
      | StoreTypeDB => panicM (PanicString "dbm.DB is not a CommitStore")
      | StoreTypePrefix => panicM (PanicString "unrecognized store type")
      end
  end.

(** The order in which a range over a map visits the keys. *)
Variable order : list StoreKey -> list StoreKey.

Definition mounted (rs : root) : list StoreKey := order (map_to_list (rs_storesParams rs)).*1.
Definition loaded (rs : root) : list StoreKey := order (map_to_list (rs_stores rs)).*1.

Definition nameToKey (rs : root) (name : string) : outcome StoreKey :=
  match filter (fun key => sk_name key = name) (mounted rs) with
  | key :: _ => Ok key
  | [] => Panicked (PanicString ("Unknown name " ++ name)%string)
  end.

(** The loop for version 0: each store is set as soon as it is loaded. *)
Fixpoint load_zero (keys : list StoreKey) : M root goError :=
  match keys with
  | [] => mret None
  | key :: keys =>
      rs ← getM;
      r ← loadCommitStoreFromParams (mk_CommitID 0 None) (rs_storesParams rs !! key);
      match r with
      | inr e => mret (Some ("failed to load rootMultiStore: " ++ e)%string)
      | inl store =>
          rs ← getM;
          putM (with_stores rs (<[key := store]> (rs_stores rs)));;
          load_zero keys
      end
  end.

Fixpoint load_infos (infos : list storeInfo) (newStores : gmap StoreKey (iavlStore T))
    : M root (gmap StoreKey (iavlStore T) + string) :=
  match infos with
  | [] => mret (inl newStores)
  | info :: infos =>
      rs ← getM;
      key ← liftO (nameToKey rs (si_Name info));
      r ← loadCommitStoreFromParams (si_CommitID info) (rs_storesParams rs !! key);
      match r with
      | inr e => mret (inr ("failed to load rootMultiStore: " ++ e)%string)
      | inl store => load_infos infos (<[key := store]> newStores)
      end
  end.

Definition root_LoadVersion (ver : Z) : M root goError :=
  if ver =? 0 then
    rs ← getM;
    err ← load_zero (mounted rs);
    match err with
    | Some e => mret (Some e)
    | None => rs ← getM; putM (with_lastCommitID rs (mk_CommitID 0 None));; mret None
    end
  else
    r ← onRootDB (fun db => getCommitInfo db ver);
    match r with
    | inr e => mret (Some e)
    | inl cInfo =>
        r ← load_infos (ci_StoreInfos cInfo) ∅;
        match r with
        | inr e => mret (Some e)
        | inl newStores =>
            rs ← getM;
            if forallb (fun key => bool_decide (is_Some (newStores !! key))) (mounted rs) then
              putM (with_stores (with_lastCommitID rs (commitInfo_CommitID cInfo)) newStores);;
              mret None
            else mret (Some "unused CommitStoreLoader")
        end
    end.

Definition root_LoadLatestVersion : M root goError :=
  ver ← onRootDB getLatestVersion;
  root_LoadVersion ver.

(** ** Committing *)

Definition root_LastCommitID (rs : root) : CommitID := rs_lastCommitID rs.

(** One store's Commit: its tree saves to its part of the database. *)
Definition commit_store (key : StoreKey) : M root CommitID := fun rs =>
  match rs_stores rs !! key with
  | None => (Panicked nil_pointer, rs)
  | Some st =>
      let '(r, st) := iavlStore_Commit st in
      let rs := with_stores rs (<[key := st]> (rs_stores rs)) in
      (r, match rs_storesParams rs !! key with
          | Some params => with_disk rs (location_of params) (tree_disk (st_tree st))
          | None => rs
          end)
  end.

Fixpoint commitStores_loop (keys : list StoreKey) (storeInfos : list storeInfo) : M root (list storeInfo) :=
  match keys with
  | [] => mret storeInfos
  | key :: keys =>
      commitID ← commit_store key;
      commitStores_loop keys (storeInfos ++ [mk_storeInfo (sk_name key) commitID])
  end.
Definition commitStores (version : Z) : M root commitInfo :=
  rs ← getM;
  storeInfos ← commitStores_loop (loaded rs) [];
  mret (mk_commitInfo version storeInfos).

(** The writes of a batch. *)
Definition setCommitInfo (version : Z) (cInfo : commitInfo) : outcome (list (bytes * bytes)) :=
  match MarshalCommitInfo cInfo with
  | Some bz => Ok [(commitInfoKey version, bz)]
  | None => Panicked (PanicString "MarshalBinary")
  end.
Definition setLatestVersion (version : Z) : list (bytes * bytes) := [(latestVersionKey, MarshalVersion version)].

Definition root_Commit : M root CommitID :=
  rs ← getM;
  let version := wrap64 (cid_Version (rs_lastCommitID rs) + 1) in
  commitInfo ← commitStores version;
  batch ← liftO (setCommitInfo version commitInfo);
  onRootDB (db_WriteBatch (batch ++ setLatestVersion version));;
  let commitID := mk_CommitID version (commitInfo_Hash commitInfo) in
  rs ← getM;
  putM (with_lastCommitID rs commitID);;
  mret commitID.

(** ** Queries *)

(** A missing entry of keysByName is the nil key; indexing the stores with it
    gives nil too. *)
Definition getStoreByName (rs : root) (name : string) : option (StoreKey * iavlStore T) :=
  key ← rs_keysByName rs !! name; st ← rs_stores rs !! key; Some (key, st).

Variable MarshalKVs : list KVPair -> slice.

Definition root_Query (fuel : nat) (req : RequestQuery) : M root ResponseQuery :=
  match parsePath (rq_Path req) with
  | inr err => mret (err_QueryResult err)
  | inl (storeName, subpath) =>
      rs ← getM;
      match getStoreByName rs storeName with
      | None => mret (err_QueryResult (ErrUnknownRequest ("no such store: " ++ storeName)%string))
      | Some (key, st) =>
          let req := mk_RequestQuery (rq_Data req) subpath (rq_ReqHeight req) (rq_Prove req) in
          let '(r, st) := iavlStore_Query MarshalKVs fuel req st in
          putM (with_stores rs (<[key := st]> (rs_stores rs)));; liftO r
      end
  end.

(** ** The interface *)

#[global] Instance root_MultiStore : MultiStore root := {
  KVS := iavlStore T;
  DBS := D;
  ms_store rs key := rs_stores rs !! key;
  ms_put key st rs := with_stores rs (<[key := st]> (rs_stores rs));
  ms_keys rs := (map_to_list (rs_stores rs)).*1;
  ms_db := rs_db;
  ms_put_db db rs := with_db rs db
}.

#[global] Instance root_CommitMultiStore (fuel : nat) : CommitMultiStore root := {
  ms_Commit := root_Commit;
  ms_LastCommitID := root_LastCommitID;
  ms_LoadLatestVersion := root_LoadLatestVersion;
  ms_LoadVersion := root_LoadVersion;
  ms_Query := Some (root_Query fuel)
}.
End root.
