(* ===== verification/RootRestart.v ===== *)
(** * Committing and restarting

    Proofs about [RootMulti]: what Commit writes, what a new store over the
    same database loads, the store's laws as a multi-store. *)
From Stdlib Require Import Strings.Byte Strings.String.
From S2P Require Import Prelude Wire Errors KVStore CacheKV GasKV PrefixStore IAVL MultiStore Account Context RunTx BaseApp RootMulti.
From stdpp Require Import pretty.
#[local] Open Scope string_scope.
#[local] Open Scope list_scope.
#[local] Open Scope Z_scope.

(** ** The database's keys *)

Fixpoint digits (s : string) : bool :=
  match s with EmptyString => true | String c s => (Ascii.N_of_ascii c <? 58)%N && digits s end.

Lemma digits_go x s : digits s = true -> digits (pretty_N_go x s) = true.
Proof.
  revert s. induction (N.lt_wf_0 x) as [x _ IH]. intros s Hs.
  assert (x = 0 \/ 0 < x)%N as [ -> |Hx] by lia; [by rewrite pretty_N_go_0|].
  rewrite pretty_N_go_step by done. apply IH; [apply N.div_lt; lia|].
  assert (Hm : (x mod 10 < 10)%N) by (apply N.mod_lt; lia). simpl. rewrite Hs, andb_true_r.
  unfold pretty_N_char. generalize dependent (x mod 10)%N. intros d Hd.
  by repeat case_match.
Qed.

Lemma commitInfoKey_latest (n : Z) : 0 <= n -> commitInfoKey n <> latestVersionKey.
Proof.
  intros Hn Heq. apply string_bytes_inj in Heq.
  assert (Hp : pretty n = "latest").
  { change (append "s/" (pretty n) = append "s/" "latest") in Heq.
    do 2 apply (f_equal (fun s => match s with String _ s => s | _ => s end)) in Heq. exact Heq. }
  assert (digits (pretty n) = true) as Hd.
  { unfold pretty, pretty_Z. destruct n as [|p|p]; [done| |lia].
    change (digits (if decide (N.pos p = 0)%N then "0" else pretty_N_go (N.pos p) "") = true).
    case_decide; [done|]. by apply digits_go. }
  by rewrite Hp in Hd.
Qed.

Lemma steps_eq_bind {S A B} (m : M S A) (f : A -> M S B) s a s1 b Q :
  m s = (Ok a, s1) -> steps (f a) s1 b Q -> steps (m ≫= f) s b Q.
Proof. unfold steps. intros Hm. by rewrite (bind_Ok m f s a s1 Hm). Qed.

(** ** One store's commit *)

Section restart.
Context {T D : Type} `{HT : VersionedTree T} `{HTL : !VersionedTreeLaws T} `{HTD : !TreeDisk T}.
Context `{HTDL : !TreeDiskLaws T} {HDB : DB D} {HDBL : DBLaws D HDB} `{HRL : RootLibLaws}.
Abbreviation root := (rootMultiStore T D Disk).

(** A store as LoadIAVLStore makes it, at version [n]. *)
Definition store_ok (n : Z) (st : iavlStore T) : Prop :=
  pruned st /\ tree_Version64 (st_tree st) = n /\
  st_numRecent st = defaultIAVLNumRecent /\ st_storeEvery st = defaultIAVLStoreEvery.

Definition saved_at (st : iavlStore T) : gmap Z (gmap bytes bytes) := saved (tree_disk (st_tree st)).

(** The tree Commit leaves: the saved one, or that less an old version. *)
Lemma Commit_tree n st :
  store_ok n st -> n + 1 < max_int64 ->
  let t := (tree_SaveVersion (st_tree st)).2 in let rel := n - defaultIAVLNumRecent in
  let t' := st_tree (iavlStore_Commit st).2 in
  t' = t \/ (1 <= rel /\ rel ∈ tree_versions t /\ t' = (tree_DeleteVersion rel t).2).
Proof.
  intros (Hp & Hv & Hn & He) Hmax. destruct (tree_SaveVersion_law (st_tree st)) as (h & t & Ht & Hm & Hvt & Hvs).
  rewrite Ht. cbn [snd]. unfold iavlStore_Commit, onTree, zoom, mbind, M_bind, getM, mret, M_ret.
  rewrite Ht. cbn [st_numRecent st_storeEvery st_tree]. rewrite Hv, Hn, He in *.
  pose proof (proj1 Hp) as Hr. rewrite Hv in Hr.
  rewrite (wrap64_id (n + 1 - 1)) by (unfold is_int64, min_int64; lia). replace (n + 1 - 1) with n by lia.
  destruct (Z.ltb_spec defaultIAVLNumRecent n) as [Hlt|_]; [|by left].
  unfold defaultIAVLNumRecent in *. rewrite wrap64_id by (unfold is_int64, min_int64; lia).
  destruct ((_ =? 0) || _) eqn:E; [|by left].
  assert (Hin : n - 100 ∈ tree_versions t).
  { rewrite Hvs, elem_of_union. right. apply Hp. rewrite Hv, Hn. unfold retained, defaultIAVLNumRecent. lia. }
  destruct (tree_DeleteVersion_law t (n - 100) Hin) as (t' & Ht' & _); [lia|]. right. split_and!; [lia|done|].
  cbn [st_numRecent st_storeEvery st_tree]. by rewrite !Ht'.
Qed.

(** What a store that commits at version [n + 1] leaves in its database. *)
Lemma Commit_store n st :
  store_ok n st -> n + 1 < max_int64 ->
  exists hash st', iavlStore_Commit st = (Ok (mk_CommitID (n + 1) hash), st') /\ store_ok (n + 1) st' /\
    tree_map (st_tree st') = tree_map (st_tree st) /\
    saved_at st' !! (n + 1) = Some (tree_map (st_tree st)) /\
    (1 <= n -> saved_at st' !! n = saved_at st !! n).
Proof.
  intros Hok Hmax. pose proof Hok as (Hp & Hv & Hn & He).
  destruct (Commit_run st Hp) as (h & st' & Hc & Hp' & Hm' & Hv' & Hn' & He'); [lia|]. rewrite Hv in *.
  exists h, st'. pose proof (Commit_tree n st Hok Hmax) as Ht. rewrite Hc in Ht. cbn [snd] in Ht.
  destruct (tree_SaveVersion_law (st_tree st)) as (h1 & t & Hs & _ & Hvt & _).
  assert (Hsv : saved (tree_disk t) = <[n + 1 := tree_map (st_tree st)]> (saved_at st)).
  { pose proof (saved_SaveVersion (st_tree st)) as Hx. rewrite Hs, Hv in Hx. exact Hx. }
  rewrite Hs in Ht. cbn [snd] in Ht.
  assert (Hfin : saved_at st' !! (n + 1) = Some (tree_map (st_tree st)) /\
    (1 <= n -> saved_at st' !! n = saved_at st !! n)).
  { unfold saved_at at 1 2. destruct Ht as [ -> |(Hrel & Hin & ->)].
    - rewrite Hsv. split; [by rewrite lookup_insert_eq|]. intros _. by rewrite lookup_insert_ne by lia.
    - unfold defaultIAVLNumRecent in *. rewrite saved_DeleteVersion, Hsv by (done || lia).
      rewrite !lookup_delete_ne by lia. split; [by rewrite lookup_insert_eq|]. intros _. by rewrite lookup_insert_ne by lia. }
  split_and!; [done| |done|apply Hfin..]. unfold store_ok. split_and!; [done|done|congruence..].
Qed.

Definition commit_st (st : iavlStore T) : iavlStore T := (iavlStore_Commit st).2.
Definition commit_id (st : iavlStore T) : CommitID :=
  match (iavlStore_Commit st).1 with Ok id => id | Panicked _ => mk_CommitID 0 None end.

Lemma Commit_parts n st :
  store_ok n st -> n + 1 < max_int64 ->
  iavlStore_Commit st = (Ok (commit_id st), commit_st st) /\ cid_Version (commit_id st) = n + 1 /\
  store_ok (n + 1) (commit_st st) /\ tree_map (st_tree (commit_st st)) = tree_map (st_tree st) /\
  saved_at (commit_st st) !! (n + 1) = Some (tree_map (st_tree st)) /\
  (1 <= n -> saved_at (commit_st st) !! n = saved_at st !! n).
Proof.
  intros Hok Hmax. destruct (Commit_store n st Hok Hmax) as (h & st' & Hc & Hok' & Hm & Hs & Hs').
  unfold commit_id, commit_st. by rewrite Hc.
Qed.

(** ** The mounted stores *)

(** What is mounted: IAVL stores, each with a name and a place of its own. *)
Record mounts_ok (params : gmap StoreKey storeParams) : Prop := {
  mo_typ : forall k p, params !! k = Some p -> sp_typ p = StoreTypeIAVL;
  mo_name : forall k k' p p', params !! k = Some p -> params !! k' = Some p' -> sk_name k = sk_name k' -> k = k';
  mo_place : forall k k' p p', params !! k = Some p -> params !! k' = Some p' ->
    location_of p = location_of p' -> k = k'
}.

Definition disk_of (rs : root) (k : StoreKey) : Disk :=
  match rs_storesParams rs !! k with
  | Some p => default empty_disk (rs_disks rs !! location_of p)
  | None => empty_disk
  end.

(** The map store [k] had at the commit of version [n]. *)
Definition committed (n : Z) (rs : root) (k : StoreKey) : option (gmap bytes bytes) := saved (disk_of rs k) !! n.

(** The map store [k] has now. *)
Definition root_view (rs : root) (k : StoreKey) : option (gmap bytes bytes) :=
  (fun st => tree_map (st_tree st)) <$> rs_stores rs !! k.

(** Loading and committing leave these fields alone. *)
Definition same_frame (rs rs' : root) : Prop :=
  rs_db rs' = rs_db rs /\ rs_lastCommitID rs' = rs_lastCommitID rs /\
  rs_storesParams rs' = rs_storesParams rs /\ rs_keysByName rs' = rs_keysByName rs.

(** ** The loop over the stores *)

(** The stores of [done_] have committed. *)
Definition committing (rs rs' : root) (done_ : list StoreKey) : Prop :=
  same_frame rs rs' /\
  (forall k, rs_stores rs' !! k = if decide (k ∈ done_) then commit_st <$> rs_stores rs !! k else rs_stores rs !! k) /\
  (forall k, is_Some (rs_storesParams rs !! k) -> disk_of rs' k =
     match rs_stores rs !! k with
     | Some st => if decide (k ∈ done_) then tree_disk (st_tree (commit_st st)) else disk_of rs k
     | None => disk_of rs k
     end).

Lemma commit_store_run n rs rs1 done_ k st :
  mounts_ok (rs_storesParams rs) -> is_Some (rs_storesParams rs !! k) ->
  rs_stores rs !! k = Some st -> store_ok n st -> n + 1 < max_int64 ->
  k ∉ done_ -> committing rs rs1 done_ ->
  exists rs2, commit_store k rs1 = (Ok (commit_id st), rs2) /\ committing rs rs2 (done_ ++ [k]).
Proof.
  intros Hmo [p Hp] Hst Hok Hmax Hk ((Hf1 & Hf2 & Hf3 & Hf4) & Hs & Hd).
  destruct (Commit_parts n st Hok Hmax) as [Hc _].
  eexists. split.
  { unfold commit_store. rewrite Hs, decide_False, Hst, Hc by done. cbn [rs_storesParams with_stores].
    rewrite Hf3, Hp. reflexivity. }
  split; [done|]. split.
  - intros k'. cbn [rs_stores with_disk with_stores]. destruct (decide (k' = k)) as [ -> |Hne].
    + rewrite lookup_insert_eq, decide_True by (apply elem_of_app; right; by left). by rewrite Hst.
    + rewrite lookup_insert_ne by done. rewrite Hs. apply decide_ext. rewrite elem_of_app, list_elem_of_singleton. tauto.
  - intros k' [p' Hp']. unfold disk_of at 1. cbn [rs_disks rs_storesParams with_disk with_stores]. rewrite Hf3, Hp'.
    destruct (decide (k' = k)) as [ -> |Hne].
    + simplify_eq. rewrite lookup_insert_eq, Hst, decide_True by (apply elem_of_app; right; by left). done.
    + rewrite lookup_insert_ne by (intros E; apply Hne; symmetry; by eapply (mo_place _ Hmo)).
      specialize (Hd k' (ex_intro _ p' Hp')). unfold disk_of at 1 in Hd. rewrite Hf3, Hp' in Hd. rewrite Hd.
      destruct (rs_stores rs !! k'); [|done]. apply decide_ext. rewrite elem_of_app, list_elem_of_singleton. tauto.
Qed.

Definition info_of (rs : root) (k : StoreKey) : storeInfo :=
  mk_storeInfo (sk_name k) (from_option commit_id (mk_CommitID 0 None) (rs_stores rs !! k)).

(** Every mounted store is there and at version [n]. *)
Definition stores_ok (n : Z) (rs : root) : Prop :=
  dom (rs_stores rs) = dom (rs_storesParams rs) /\
  forall k st, rs_stores rs !! k = Some st -> store_ok n st.

Lemma commitStores_loop_run n rs ks : forall rs1 done_ infos,
  mounts_ok (rs_storesParams rs) -> stores_ok n rs -> n + 1 < max_int64 ->
  committing rs rs1 done_ -> NoDup (done_ ++ ks) -> (forall k, k ∈ ks -> is_Some (rs_stores rs !! k)) ->
  exists rs2, commitStores_loop ks infos rs1 = (Ok (infos ++ (info_of rs <$> ks)), rs2) /\
    committing rs rs2 (done_ ++ ks).
Proof.
  induction ks as [|k ks IH]; intros rs1 done_ infos Hmo Hso Hmax Hc Hnd Hin.
  { exists rs1. by rewrite !app_nil_r. }
  destruct (Hin k (list_elem_of_here _ _)) as [st Hst].
  assert (Hk : k ∉ done_).
  { intros Hk. apply NoDup_app in Hnd as (_ & Hx & _). apply (Hx k Hk). by left. }
  assert (Hp : is_Some (rs_storesParams rs !! k)).
  { apply elem_of_dom. rewrite <- (proj1 Hso). apply elem_of_dom. eauto. }
  destruct (commit_store_run n rs rs1 done_ k st Hmo Hp Hst (proj2 Hso k st Hst) Hmax Hk Hc) as (rs2 & Hrun & Hc2).
  destruct (IH rs2 (done_ ++ [k]) (infos ++ [mk_storeInfo (sk_name k) (commit_id st)]) Hmo Hso Hmax Hc2)
    as (rs3 & Hrun3 & Hc3).
  { by rewrite <- app_assoc. }
  { intros k' Hk'. apply Hin. by right. }
  exists rs3. rewrite <- app_assoc in Hc3. split; [|exact Hc3]. cbn [commitStores_loop].
  rewrite (bind_Ok _ _ _ _ _ Hrun), Hrun3, <- app_assoc. cbn [fmap list_fmap app]. unfold info_of at 2. by rewrite Hst.
Qed.

Lemma committing_refl rs : committing rs rs [].
Proof.
  split; [done|]. split; [done|]. intros k Hk. by destruct (rs_stores rs !! k).
Qed.

(** ** Loading *)

#[local] Existing Instance DB_laws.

Definition loaded_store (rs : root) (n : Z) (k : StoreKey) : iavlStore T :=
  newIAVLStore (tree_LoadVersion (disk_of rs k) n).1 defaultIAVLNumRecent defaultIAVLStoreEvery.

(** A database from which version [n] can be loaded_store; version 0 of a new one. *)
Definition disk_ready (n : Z) (d : Disk) : Prop :=
  if decide (n = 0) then saved d = ∅ else is_Some (saved d !! n).

Definition loaded_map (n : Z) (d : Disk) : gmap bytes bytes := default ∅ (saved d !! n).

Lemma LoadVersion_ready n d :
  disk_ready n d ->
  (tree_LoadVersion d n).2 = None /\ tree_map (tree_LoadVersion d n).1 = loaded_map n d /\
  tree_Version64 (tree_LoadVersion d n).1 = n /\ saved (tree_disk (tree_LoadVersion d n).1) = saved d.
Proof.
  unfold disk_ready, loaded_map. case_decide as Hn.
  - intros Hd. subst n. rewrite Hd, lookup_empty. apply tree_LoadVersion_empty, Hd.
  - intros [m Hm]. rewrite Hm. by apply tree_LoadVersion_law.
Qed.

Definition can_load (n : Z) (d : Disk) : Prop := (tree_LoadVersion d n).2 = None.

Lemma ready_can_load n d : disk_ready n d -> can_load n d.
Proof. apply LoadVersion_ready. Qed.

Lemma loadCommitStore_run rs id k :
  mounts_ok (rs_storesParams rs) -> is_Some (rs_storesParams rs !! k) -> can_load (cid_Version id) (disk_of rs k) ->
  loadCommitStoreFromParams id (rs_storesParams rs !! k) rs = (Ok (inl (loaded_store rs (cid_Version id) k)), rs).
Proof.
  intros Hmo [p Hp] He. unfold can_load in He. unfold loaded_store, loadCommitStoreFromParams.
  unfold mbind, M_bind, getM, mret, M_ret. unfold disk_of in *. rewrite Hp in *. rewrite (mo_typ _ Hmo k p Hp).
  unfold LoadIAVLStore. destruct (tree_LoadVersion _ _) as [t e]. cbn [fst snd] in *. by rewrite He.
Qed.

(** The keys a map range visits. *)
Definition keys_of (params : gmap StoreKey storeParams) : list StoreKey := (map_to_list params).*1.

Lemma keys_of_elem params k : k ∈ keys_of params <-> is_Some (params !! k).
Proof.
  unfold keys_of. rewrite list_elem_of_fmap. split.
  - intros ([k' p] & -> & Hp%elem_of_map_to_list). by eexists.
  - intros [p Hp]. exists (k, p). split; [done|]. by apply elem_of_map_to_list.
Qed.

Lemma keys_of_NoDup params : NoDup (keys_of params).
Proof. apply NoDup_fst_map_to_list. Qed.

(** An order in which a range over a map may run. *)
Definition is_order (order : list StoreKey -> list StoreKey) : Prop := forall l, order l ≡ₚ l.

Section load.
Variable order : list StoreKey -> list StoreKey.
Variable Horder : is_order order.

Lemma mounted_elem (rs : root) k : k ∈ mounted order rs <-> is_Some (rs_storesParams rs !! k).
Proof. unfold mounted. rewrite (Horder _). apply keys_of_elem. Qed.

Lemma nameToKey_run (rs : root) k :
  mounts_ok (rs_storesParams rs) -> is_Some (rs_storesParams rs !! k) -> nameToKey order rs (sk_name k) = Ok k.
Proof.
  intros Hmo Hk. unfold nameToKey.
  assert (Hin : k ∈ filter (fun key => sk_name key = sk_name k) (mounted order rs)).
  { apply list_elem_of_filter. split; [done|]. by apply mounted_elem. }
  destruct (filter _ _) as [|k' l] eqn:E; [by apply not_elem_of_nil in Hin|].
  assert (Hk' : k' ∈ filter (fun key => sk_name key = sk_name k) (mounted order rs)) by (rewrite E; left).
  apply list_elem_of_filter in Hk' as [Hn [p' Hp']%mounted_elem]. destruct Hk as [p Hp].
  f_equal. by eapply (mo_name _ Hmo).
Qed.

Definition loads (rs : root) (n : Z) (ks : list StoreKey) (acc : gmap StoreKey (iavlStore T)) :=
  foldl (fun acc k => <[k := loaded_store rs n k]> acc) acc ks.

Lemma loads_lookup (rs : root) n ks acc k :
  loads rs n ks acc !! k = if decide (k ∈ ks) then Some (loaded_store rs n k) else acc !! k.
Proof.
  revert acc. induction ks as [|k' ks IH]; intros acc; [done|]. simpl. rewrite IH.
  destruct (decide (k ∈ ks)); [by rewrite decide_True by (by right)|].
  destruct (decide (k = k')) as [ -> |Hne].
  - by rewrite lookup_insert_eq, decide_True by left.
  - rewrite lookup_insert_ne by done. rewrite decide_False; [done|]. by intros [|]%elem_of_cons.
Qed.

(** What getCommitInfo reads of version [n]: an entry for every store. *)
Definition info_for (n : Z) (k : StoreKey) (i : storeInfo) : Prop :=
  si_Name i = sk_name k /\ cid_Version (si_CommitID i) = n.

Lemma load_infos_run (rs : root) n ks infos : forall acc,
  mounts_ok (rs_storesParams rs) -> (forall k, k ∈ ks -> is_Some (rs_storesParams rs !! k)) ->
  (forall k, k ∈ ks -> can_load n (disk_of rs k)) -> Forall2 (info_for n) ks infos ->
  load_infos order infos acc rs = (Ok (inl (loads rs n ks acc)), rs).
Proof.
  intros acc Hmo Hin Hd HF. revert acc. induction HF as [|k i ks infos [Hn Hv] HF IH]; intros acc; [done|].
  cbn [load_infos]. unfold mbind at 1, M_bind at 1, getM at 1. rewrite Hn.
  assert (is_Some (rs_storesParams rs !! k)) as Hk by (apply Hin; left).
  unfold mbind at 1, M_bind at 1, liftO at 1. rewrite nameToKey_run by done.
  erewrite bind_Ok by (apply loadCommitStore_run; [done|done|]; rewrite Hv; apply Hd; left).
  cbv beta iota. rewrite Hv. apply IH; intros k' Hk'; [apply Hin|apply Hd]; by right.
Qed.

Lemma load_zero_run ks : forall rs : root,
  mounts_ok (rs_storesParams rs) -> (forall k, k ∈ ks -> is_Some (rs_storesParams rs !! k)) ->
  (forall k, k ∈ ks -> can_load 0 (disk_of rs k)) ->
  load_zero ks rs = (Ok None, with_stores rs (loads rs 0 ks (rs_stores rs))).
Proof.
  induction ks as [|k ks IH]; intros rs Hmo Hin Hd; [by destruct rs|].
  cbn [load_zero]. unfold mbind at 1, M_bind at 1, getM at 1.
  erewrite bind_Ok by (apply loadCommitStore_run; [done|apply Hin; left|apply Hd; left]).
  cbv beta iota. unfold mbind at 1, M_bind at 1, getM at 1. unfold mbind at 1, M_bind at 1, putM at 1.
  rewrite IH; [done|done| |]; intros k' Hk'; [apply Hin|apply Hd]; by right.
Qed.

(** The database's record of version [n], whose identifier is [id]. *)
Definition recorded (n : Z) (id : CommitID) (db : D) (params : gmap StoreKey storeParams) : Prop :=
  wf db /\
  if decide (n = 0) then view db !! latestVersionKey = None /\ id = mk_CommitID 0 None
  else view db !! latestVersionKey = Some (MarshalVersion n) /\
    exists bz ci ks, view db !! commitInfoKey n = Some bz /\ UnmarshalCommitInfo bz = Some ci /\
      commitInfo_CommitID ci = id /\ ks ≡ₚ keys_of params /\ Forall2 (info_for n) ks (ci_StoreInfos ci).

Lemma getLatestVersion_run n id (db : D) params :
  recorded n id db params -> is_int64 n ->
  exists db', getLatestVersion db = (Ok n, db') /\ wf db' /\ view db' = view db.
Proof.
  intros [Hw Hr] Hn. destruct (law_Get db latestVersionKey Hw) as (db' & Hg & Hw' & Hv'). exists db'.
  unfold getLatestVersion. rewrite Hg. case_decide as Hn0.
  - subst n. destruct Hr as [ -> _]. done.
  - destruct Hr as [ -> _]. by rewrite Version_roundtrip.
Qed.

Lemma getCommitInfo_run n (db : D) bz ci :
  wf db -> view db !! commitInfoKey n = Some bz -> UnmarshalCommitInfo bz = Some ci ->
  exists db', getCommitInfo db n = (Ok (inl ci), db') /\ wf db' /\ view db' = view db.
Proof.
  intros Hw Hv Hu. destruct (law_Get db (commitInfoKey n) Hw) as (db' & Hg & Hw' & Hv'). exists db'.
  unfold getCommitInfo. by rewrite Hg, Hv, Hu.
Qed.

(** The state LoadVersion leaves. *)
Definition reloaded (n : Z) (id : CommitID) (rs rs' : root) : Prop :=
  rs_lastCommitID rs' = id /\ rs_disks rs' = rs_disks rs /\ rs_storesParams rs' = rs_storesParams rs /\
  rs_keysByName rs' = rs_keysByName rs /\ wf (rs_db rs') /\ view (rs_db rs') = view (rs_db rs) /\
  forall k, rs_stores rs' !! k = (fun _ => loaded_store rs n k) <$> rs_storesParams rs !! k.

Lemma mounted_lookup {A} (rs : root) (a : A) k :
  (if decide (k ∈ mounted order rs) then Some a else None) = (fun _ => a) <$> rs_storesParams rs !! k.
Proof.
  case_decide as Hk; rewrite mounted_elem in Hk; [by destruct Hk as [p ->]|].
  destruct (rs_storesParams rs !! k) eqn:E; [|done]. contradict Hk. eauto.
Qed.

(** Any version that is recorded and whose trees are there can be loaded_store. *)
Lemma LoadVersion_run n id (rs : root) :
  mounts_ok (rs_storesParams rs) -> recorded n id (rs_db rs) (rs_storesParams rs) -> 0 <= n ->
  rs_stores rs = ∅ -> (forall k, is_Some (rs_storesParams rs !! k) -> can_load n (disk_of rs k)) ->
  steps (root_LoadVersion order n) rs None (fun rs' => reloaded n id rs rs').
Proof.
  intros Hmo [Hw Hr] Hn Hst Hd. unfold root_LoadVersion. case_decide as Hn0.
  - subst n. destruct Hr as [_ ->]. simpl. apply steps_get_bind.
    assert (Hz := load_zero_run (mounted order rs) rs Hmo).
    eapply steps_eq_bind.
    { apply Hz; intros k Hk%mounted_elem; [done|by apply Hd]. }
    eexists. split; [reflexivity|]. repeat split; try done. intros k. cbn [rs_stores with_lastCommitID with_stores].
    rewrite loads_lookup, Hst, lookup_empty. apply mounted_lookup.
  - destruct Hr as [_ (bz & ci & ks & Hbz & Hci & Hid & Hks & HF)].
    destruct (Z.eqb_spec n 0) as [|_]; [done|].
    destruct (getCommitInfo_run n (rs_db rs) bz ci Hw Hbz Hci) as (db & Hg & Hwd & Hvd).
    eapply steps_eq_bind; [unfold onRootDB; by apply zoom_eq|].
    assert (Hin : forall k, k ∈ ks <-> is_Some (rs_storesParams rs !! k)) by (intros k; by rewrite Hks, keys_of_elem).
    assert (Hl : load_infos order (ci_StoreInfos ci) ∅ (with_db rs db) = (Ok (inl (loads rs n ks ∅)), with_db rs db)).
    { rewrite (load_infos_run (with_db rs db) n ks); [done|done|by intros k ?%Hin| |done]. intros k Hk%Hin. by apply Hd. }
    eapply steps_eq_bind; [exact Hl|]. cbv beta iota. apply steps_get_bind.
    assert (Hall : forallb (fun key => bool_decide (is_Some (loads rs n ks ∅ !! key))) (mounted order (with_db rs db)) = true).
    { apply forallb_forall. intros k Hk. apply list_elem_of_In, mounted_elem in Hk. apply bool_decide_eq_true.
      rewrite loads_lookup, decide_True by (by apply Hin). by eexists. }
    rewrite Hall. eexists. split; [reflexivity|]. repeat split; try done.
    intros k. cbn [rs_stores with_lastCommitID with_stores]. rewrite loads_lookup, lookup_empty, <- mounted_lookup.
    apply decide_ext. by rewrite Hin, mounted_elem.
Qed.

Lemma LoadLatestVersion_run n id (rs : root) :
  mounts_ok (rs_storesParams rs) -> recorded n id (rs_db rs) (rs_storesParams rs) -> 0 <= n <= max_int64 ->
  rs_stores rs = ∅ -> (forall k, is_Some (rs_storesParams rs !! k) -> can_load n (disk_of rs k)) ->
  steps (root_LoadLatestVersion order) rs None (fun rs' => reloaded n id rs rs').
Proof.
  intros Hmo Hr Hn Hst Hd. destruct (getLatestVersion_run n id _ _ Hr) as (db & Hg & Hw & Hv).
  { unfold is_int64, min_int64. lia. }
  unfold root_LoadLatestVersion.
  eapply steps_eq_bind; [unfold onRootDB; by apply zoom_eq|].
  eapply steps_mono; [apply (LoadVersion_run n id (with_db rs db)); [done| |lia|done|done]|].
  { destruct Hr as [_ Hr]. split; [done|]. cbn [rs_db with_db rs_storesParams]. by rewrite Hv. }
  intros rs' (H1 & H2 & H3 & H4 & H5 & H6 & H7). repeat split; try done. by rewrite H6.
Qed.
End load.

(** ** Commit *)

Record root_ok (n : Z) (rs : root) : Prop := {
  ok_range : 0 <= n <= max_int64;
  ok_mounts : mounts_ok (rs_storesParams rs);
  ok_stores : stores_ok n rs;
  ok_version : cid_Version (rs_lastCommitID rs) = n;
  ok_recorded : recorded n (rs_lastCommitID rs) (rs_db rs) (rs_storesParams rs);
  ok_disks : forall k st, rs_stores rs !! k = Some st -> saved (disk_of rs k) = saved_at st
}.

Lemma keys_of_dom (rs : root) :
  dom (rs_stores rs) = dom (rs_storesParams rs) -> (map_to_list (rs_stores rs)).*1 ≡ₚ keys_of (rs_storesParams rs).
Proof.
  intros Hd. apply NoDup_Permutation; [apply NoDup_fst_map_to_list|apply keys_of_NoDup|]. intros k.
  rewrite keys_of_elem, <- elem_of_dom, <- Hd, elem_of_dom, list_elem_of_fmap. split.
  - intros ([k' st] & -> & Hst%elem_of_map_to_list). by eexists.
  - intros [st Hst]. exists (k, st). split; [done|]. by apply elem_of_map_to_list.
Qed.

Lemma ok_mounted n rs k : root_ok n rs -> is_Some (rs_stores rs !! k) <-> is_Some (rs_storesParams rs !! k).
Proof. intros Hok. by rewrite <- !elem_of_dom, (proj1 (ok_stores _ _ Hok)). Qed.

(** The hash of a commit depends on what is encoded only, not on its order. *)
Lemma hash_map_list infos :
  hash_map infos = list_to_map (reverse ((fun si => (si_Name si, storeInfo_Hash si)) <$> infos)).
Proof.
  unfold hash_map. induction infos as [|si l IH] using rev_ind; [done|].
  rewrite foldl_app, fmap_app, reverse_app, IH. done.
Qed.

Lemma hash_map_equiv l l' : Forall2 si_equiv l l' -> hash_map l = hash_map l'.
Proof.
  intros HF. rewrite !hash_map_list. apply (f_equal (fun l => list_to_map (reverse l))).
  induction HF as [|a b l l' [Hn Hi] HF IH]; [done|].
  rewrite !fmap_cons, IH. unfold storeInfo_Hash. by rewrite Hn, (MarshalCore_equiv _ _ Hi).
Qed.

Lemma hash_map_perm l l' : NoDup (si_Name <$> l) -> l ≡ₚ l' -> hash_map l = hash_map l'.
Proof.
  intros Hnd Hp. rewrite !hash_map_list. apply list_to_map_proper.
  - rewrite fmap_reverse, <- list_fmap_compose. by rewrite reverse_Permutation.
  - by rewrite !reverse_Permutation, Hp.
Qed.

Lemma committing_stores_ok n rs rs' ks :
  root_ok n rs -> n + 1 < max_int64 -> committing rs rs' ks -> (forall k, is_Some (rs_stores rs !! k) -> k ∈ ks) ->
  stores_ok (n + 1) rs' /\ (forall k st, rs_stores rs' !! k = Some st -> saved (disk_of rs' k) = saved_at st) /\
  (forall k, root_view rs' k = root_view rs k) /\ (forall k, committed (n + 1) rs' k = root_view rs k).
Proof.
  intros Hok Hmax ((Hf1 & Hf2 & Hf3 & Hf4) & Hs & Hd) Hall.
  assert (Hst : forall k, rs_stores rs' !! k = commit_st <$> rs_stores rs !! k).
  { intros k. rewrite Hs. case_decide as Hk; [done|].
    destruct (rs_stores rs !! k) eqn:E; [|done]. contradict Hk. apply Hall. eauto. }
  assert (Hdk : forall k st, rs_stores rs !! k = Some st -> disk_of rs' k = tree_disk (st_tree (commit_st st))).
  { intros k st E. rewrite Hd by (apply (ok_mounted n rs k Hok); eauto). rewrite E, decide_True; [done|]. apply Hall. eauto. }
  split_and!.
  - split.
    + rewrite Hf3, <- (proj1 (ok_stores _ _ Hok)). apply set_eq. intros k. by rewrite !elem_of_dom, Hst, fmap_is_Some.
    + intros k st. rewrite Hst, fmap_Some. intros (st0 & E & ->). by apply (Commit_parts n); [apply (proj2 (ok_stores _ _ Hok) k)|].
  - intros k st. rewrite Hst, fmap_Some. intros (st0 & E & ->). by rewrite (Hdk k st0 E).
  - intros k. unfold root_view. rewrite Hst. destruct (rs_stores rs !! k) as [st|] eqn:E; [|done]. simpl. f_equal.
    by apply (Commit_parts n st); [apply (proj2 (ok_stores _ _ Hok) k)|].
  - intros k. unfold committed, root_view. destruct (rs_stores rs !! k) as [st|] eqn:E.
    + rewrite (Hdk k st E). by apply (Commit_parts n st); [apply (proj2 (ok_stores _ _ Hok) k)|].
    + unfold disk_of. rewrite Hf3. destruct (rs_storesParams rs !! k) eqn:Ep; [|by rewrite saved_empty].
      exfalso. assert (is_Some (rs_stores rs !! k)) as [? ?]; [|congruence]. apply (ok_mounted n rs k Hok). eauto.
Qed.

(** The batch Commit writes. *)
Lemma commit_batch_recorded n (rs : root) (db : D) keys :
  root_ok n rs -> n + 1 < max_int64 -> wf db -> keys ≡ₚ keys_of (rs_storesParams rs) ->
  let ci := mk_commitInfo (n + 1) (info_of rs <$> keys) in
  exists bz, setCommitInfo (n + 1) ci = Ok [(commitInfoKey (n + 1), bz)] /\
    forall db', wf db' -> view db' = batch_view ([(commitInfoKey (n + 1), bz)] ++ setLatestVersion (n + 1)) (view db) ->
      recorded (n + 1) (mk_CommitID (n + 1) (commitInfo_Hash ci)) db' (rs_storesParams rs).
Proof.
  intros Hok Hmax Hw Hkeys ci. pose proof (ok_range _ _ Hok) as Hr.
  destruct (CommitInfo_roundtrip ci) as (bz & ci' & Hm & Hu & [Hv HF]).
  { cbn [ci_Version ci]. unfold is_int64, min_int64. lia. }
  exists bz. split; [unfold setCommitInfo; by rewrite Hm|]. intros db' Hw' Hv'.
  split; [done|]. rewrite decide_False by lia. rewrite Hv'.
  change (batch_view _ (view db)) with
    (<[latestVersionKey := MarshalVersion (n + 1)]> (<[commitInfoKey (n + 1) := bz]> (view db))).
  split; [by rewrite lookup_insert_eq|]. exists bz, ci', keys.
  rewrite lookup_insert_ne by (intros E; by apply (commitInfoKey_latest (n + 1)); [lia|]).
  split_and!; [by rewrite lookup_insert_eq|done| |done|].
  - unfold commitInfo_CommitID, commitInfo_Hash. cbn [ci_Version ci] in Hv. rewrite <- Hv. f_equal. f_equal.
    symmetry. by apply hash_map_equiv.
  - cbn [ci_StoreInfos ci] in HF. rewrite Forall2_fmap_l, Forall2_same_length_lookup in HF.
    destruct HF as [Hlen HF]. apply Forall2_same_length_lookup. split; [done|]. intros j k i Hk Hi.
    destruct (HF j k i Hk Hi) as [Hn [Hvi _]]. split; [done|]. rewrite <- Hvi. unfold info_of.
    destruct (proj2 (ok_mounted n rs k Hok)) as [st Hst].
    { apply keys_of_elem. rewrite <- Hkeys. by eapply list_elem_of_lookup_2. }
    rewrite Hst. by apply (Commit_parts n st), Hmax; apply (proj2 (ok_stores _ _ Hok) k).
Qed.

Section commit.
Variable order : list StoreKey -> list StoreKey.
Variable Horder : is_order order.

Lemma loaded_keys n rs :
  root_ok n rs -> loaded order rs ≡ₚ keys_of (rs_storesParams rs).
Proof. intros Hok. unfold loaded. rewrite (Horder _). apply keys_of_dom, (proj1 (ok_stores _ _ Hok)). Qed.

(** The identifier of the next commit. *)
Definition next_id (n : Z) (rs : root) : CommitID :=
  mk_CommitID (n + 1) (commitInfo_Hash (mk_commitInfo (n + 1) (info_of rs <$> keys_of (rs_storesParams rs)))).

Lemma next_id_order n rs keys :
  root_ok n rs -> keys ≡ₚ keys_of (rs_storesParams rs) ->
  mk_CommitID (n + 1) (commitInfo_Hash (mk_commitInfo (n + 1) (info_of rs <$> keys))) = next_id n rs.
Proof.
  intros Hok Hp. unfold next_id, commitInfo_Hash. cbn [ci_StoreInfos]. f_equal. f_equal. apply hash_map_perm.
  - rewrite <- list_fmap_compose. change (si_Name ∘ info_of rs) with sk_name. rewrite Hp.
    apply NoDup_fmap_2_strong; [|apply keys_of_NoDup].
    intros k k' [p Hk]%keys_of_elem [p' Hk']%keys_of_elem. by eapply (mo_name _ (ok_mounts _ _ Hok)).
  - by apply fmap_Permutation.
Qed.

(** A commit: the identifier it returns, what it keeps and what it saves. *)
Definition has_committed (n : Z) (id : CommitID) (rs rs' : root) : Prop :=
  root_ok (n + 1) rs' /\ rs_lastCommitID rs' = id /\ rs_storesParams rs' = rs_storesParams rs /\
  rs_keysByName rs' = rs_keysByName rs /\ (forall k, root_view rs' k = root_view rs k) /\
  (forall k, committed (n + 1) rs' k = root_view rs k).

Lemma root_Commit_run n rs :
  root_ok n rs -> n + 1 < max_int64 ->
  steps (root_Commit order) rs (next_id n rs) (has_committed n (next_id n rs) rs).
Proof.
  intros Hok Hmax. pose proof (ok_range _ _ Hok) as Hr. unfold root_Commit. apply steps_get_bind.
  rewrite (ok_version _ _ Hok), wrap64_id by (unfold is_int64, min_int64; lia). cbv zeta.
  pose proof (loaded_keys n rs Hok) as Hperm. set (keys := loaded order rs) in *.
  destruct (commitStores_loop_run n rs keys rs [] []) as (rs1 & Hloop & Hc);
    [apply Hok|apply Hok|done|apply committing_refl|by rewrite Hperm; apply keys_of_NoDup| |].
  { intros k Hk. apply (ok_mounted n rs k Hok), keys_of_elem. by rewrite <- Hperm. }
  eapply (steps_eq_bind _ _ _ (mk_commitInfo (n + 1) (info_of rs <$> keys)) rs1).
  { unfold commitStores. unfold mbind, M_bind, getM. fold keys. by rewrite Hloop. }
  pose proof Hc as Hc'. destruct Hc as ((Hf1 & Hf2 & Hf3 & Hf4) & _ & _).
  destruct (commit_batch_recorded n rs (rs_db rs1) keys Hok Hmax) as (bz & Hb & Hrec); [|done|].
  { rewrite Hf1. apply (ok_recorded _ _ Hok). }
  eapply steps_eq_bind; [unfold liftO; by rewrite Hb|].
  destruct (law_WriteBatch (rs_db rs1) ([(commitInfoKey (n + 1), bz)] ++ setLatestVersion (n + 1)))
    as (db & HW & Hwd & Hvd); [rewrite Hf1; apply (ok_recorded _ _ Hok)|].
  eapply steps_eq_bind; [unfold onRootDB; by apply zoom_eq|]. apply steps_get_bind. cbv zeta.
  rewrite (next_id_order n rs keys Hok Hperm).
  assert (Hall : forall k, is_Some (rs_stores rs !! k) -> k ∈ keys).
  { intros k Hk. rewrite Hperm, keys_of_elem. by apply (ok_mounted n rs k Hok). }
  destruct (committing_stores_ok n rs rs1 keys Hok Hmax Hc' Hall) as (Hso & Hdk & Hvw & Hcm).
  specialize (Hrec db Hwd Hvd). rewrite (next_id_order n rs keys Hok Hperm) in Hrec.
  eexists. split; [reflexivity|]. unfold has_committed. cbn [rs_lastCommitID rs_storesParams rs_keysByName with_lastCommitID with_db].
  split_and!; [|done..]. split; cbn [rs_lastCommitID rs_storesParams rs_db with_lastCommitID with_db];
    [lia|rewrite Hf3; apply Hok|exact Hso|done|by rewrite Hf3|exact Hdk].
Qed.
End commit.

(** ** Restarting *)

(** A new store over the same database, with the same stores mounted. *)
Definition restart (rs : root) : root :=
  mk_rootMultiStore (rs_db rs) (rs_disks rs) (mk_CommitID 0 None) (rs_storesParams rs) ∅ (rs_keysByName rs).

Lemma reloaded_view n id rs rs' k :
  reloaded n id rs rs' -> (forall k, is_Some (rs_storesParams rs !! k) -> disk_ready n (disk_of rs k)) ->
  root_view rs' k = (fun _ => loaded_map n (disk_of rs k)) <$> rs_storesParams rs !! k.
Proof.
  intros (_ & _ & _ & _ & _ & _ & Hst) Hd. unfold root_view. rewrite Hst.
  destruct (rs_storesParams rs !! k) as [p|] eqn:E; [|done]. simpl. f_equal.
  apply (LoadVersion_ready n (disk_of rs k)), Hd. eauto.
Qed.

Lemma ok_saved n rs k st :
  root_ok n rs -> 1 <= n -> rs_stores rs !! k = Some st -> is_Some (saved_at st !! n).
Proof.
  intros Hok Hn Hst. destruct (proj2 (ok_stores _ _ Hok) k st Hst) as (Hp & Hv & Hr & He).
  apply elem_of_dom. unfold saved_at. rewrite <- saved_versions. destruct Hp as (_ & _ & _ & Hp).
  apply Hp. unfold retained. rewrite Hv, Hr, He. unfold defaultIAVLNumRecent. lia.
Qed.

Lemma ok_ready n rs k : root_ok n rs -> is_Some (rs_storesParams rs !! k) -> disk_ready n (disk_of rs k).
Proof.
  intros Hok Hk. apply (ok_mounted n rs k Hok) in Hk as [st Hst].
  unfold disk_ready. rewrite (ok_disks _ _ Hok k st Hst). pose proof (ok_range _ _ Hok). case_decide as Hn.
  - subst n. destruct (proj2 (ok_stores _ _ Hok) k st Hst) as ((_ & _ & _ & Hp) & Hv & Hr & He).
    unfold saved_at. apply dom_empty_inv_L. rewrite <- saved_versions. apply set_eq. intros v.
    rewrite Hp, Hv, Hr, He. unfold retained. rewrite elem_of_empty. lia.
  - apply (ok_saved n rs k st Hok); [lia|done].
Qed.

Lemma restart_run order n rs :
  is_order order -> root_ok n rs ->
  steps (root_LoadLatestVersion order) (restart rs) None (fun rs' =>
    rs_lastCommitID rs' = rs_lastCommitID rs /\ root_ok n rs' /\
    forall k, root_view rs' k = (fun _ => loaded_map n (disk_of rs k)) <$> rs_storesParams rs !! k).
Proof.
  intros Ho Hok. pose proof (ok_range _ _ Hok) as Hn. eapply steps_mono.
  { apply (LoadLatestVersion_run order Ho n (rs_lastCommitID rs) (restart rs));
      [apply Hok|apply Hok|apply Hok|done|exact (fun k Hk => ready_can_load n _ (ok_ready n rs k Hok Hk))]. }
  intros rs' Hre. pose proof Hre as (Hid & Hdk & Hpar & Hnames & Hw & Hv & Hst). cbn [restart rs_storesParams rs_disks rs_db] in *.
  split; [done|]. split; [|intros k; exact (reloaded_view n _ (restart rs) rs' k Hre (fun k => ok_ready n rs k Hok))].
  assert (Hdo : forall k, disk_of rs' k = disk_of rs k) by (intros k; unfold disk_of; by rewrite Hpar, Hdk).
  assert (Hld : forall k st, rs_stores rs' !! k = Some st ->
    exists st0, rs_stores rs !! k = Some st0 /\ st = loaded_store rs n k /\ saved_at st = saved_at st0 /\
      tree_Version64 (st_tree st) = n /\ saved (disk_of rs k) = saved_at st0).
  { intros k st. rewrite Hst, fmap_Some. intros (p & Hp & ->). destruct (proj2 (ok_mounted n rs k Hok)) as [st0 Hst0]; [eauto|].
    destruct (LoadVersion_ready n (disk_of rs k)) as (_ & _ & Hver & Hsv); [apply ok_ready; eauto|].
    exists st0. pose proof (ok_disks _ _ Hok k st0 Hst0) as Hds. split_and!; [done|done| |done|done].
    rewrite <- Hds. exact Hsv. }
  split; [done|by rewrite Hpar; apply Hok| |by rewrite Hid; apply Hok| |].
  - split.
    + rewrite Hpar. apply set_eq. intros k. by rewrite !elem_of_dom, Hst, fmap_is_Some.
    + intros k st Hk. destruct (Hld k st Hk) as (st0 & Hst0 & -> & Hsv & Hver & _).
      destruct (proj2 (ok_stores _ _ Hok) k st0 Hst0) as ((Hr1 & Hr2 & Hr3 & Hr4) & Hv0 & Hn0 & He0).
      split; [|done]. unfold pruned. rewrite Hver. cbn [loaded_store newIAVLStore st_numRecent st_storeEvery].
      rewrite Hv0, Hn0, He0 in *. refine (conj _ (conj Hr2 (conj Hr3 _))); [lia|]. intros v. rewrite <- Hr4, !saved_versions. 
      unfold saved_at in Hsv. by rewrite Hsv.
  - rewrite Hid, Hpar. destruct (ok_recorded _ _ Hok) as [_ Hrec]. split; [done|]. by rewrite Hv.
  - intros k st Hk. destruct (Hld k st Hk) as (st0 & Hst0 & _ & Hsv & _ & Hds). by rewrite Hdo, Hds, Hsv.
Qed.

(** A crash while the stores commit, before the batch is written: those of
    [ks] have saved their next version. *)
Lemma crash_run order n rs rs1 ks :
  is_order order -> root_ok n rs -> 1 <= n -> n + 1 < max_int64 -> committing rs rs1 ks ->
  steps (root_LoadLatestVersion order) (restart rs1) None (fun rs' =>
    rs_lastCommitID rs' = rs_lastCommitID rs /\ forall k, root_view rs' k = committed n rs k).
Proof.
  intros Ho Hok Hn Hmax ((Hf1 & Hf2 & Hf3 & Hf4) & Hs & Hd).
  assert (Hsv : forall k, is_Some (rs_storesParams rs !! k) ->
    is_Some (saved (disk_of rs1 k) !! n) /\ saved (disk_of rs1 k) !! n = committed n rs k).
  { intros k Hk. pose proof Hk as Hk'. apply (ok_mounted n rs k Hok) in Hk' as [st Hst].
    pose proof (ok_saved n rs k st Hok Hn Hst) as Hsm. unfold committed. rewrite (ok_disks _ _ Hok k st Hst), Hd, Hst by done.
    assert (saved_at (commit_st st) !! n = saved_at st !! n) as Hc.
    { apply (Commit_parts n st); [apply (proj2 (ok_stores _ _ Hok) k st Hst)|done|done]. }
    case_decide; [by unfold saved_at in *; rewrite Hc|by rewrite (ok_disks _ _ Hok k st Hst)]. }
  assert (Hdr : forall k, is_Some (rs_storesParams (restart rs1) !! k) -> disk_ready n (disk_of (restart rs1) k)).
  { cbn [restart rs_storesParams]. rewrite Hf3. intros k Hk. unfold disk_ready. rewrite decide_False by lia.
    apply (Hsv k Hk). }
  eapply steps_mono.
  { apply (LoadLatestVersion_run order Ho n (rs_lastCommitID rs) (restart rs1)); [| | |done|intros k Hk; by apply ready_can_load, Hdr];
      cbn [restart rs_storesParams rs_db]; rewrite ?Hf1, ?Hf3; [apply Hok|apply Hok|]. pose proof (ok_range _ _ Hok). lia. }
  intros rs' Hre. split; [apply Hre|]. intros k. rewrite (reloaded_view n _ _ _ k Hre Hdr).
  cbn [restart rs_storesParams]. rewrite Hf3. change (disk_of (restart rs1) k) with (disk_of rs1 k).
  destruct (rs_storesParams rs !! k) as [p|] eqn:E.
  - destruct (Hsv k) as [[m Hm] Hc]; [eauto|]. simpl. unfold loaded_map. by rewrite <- Hc, Hm.
  - simpl. unfold committed, disk_of. rewrite E, saved_empty. done.
Qed.

(** A new store over an empty database. *)
Lemma fresh_run order rs :
  is_order order -> mounts_ok (rs_storesParams rs) -> wf (rs_db rs) -> view (rs_db rs) !! latestVersionKey = None ->
  rs_stores rs = ∅ -> (forall k, saved (disk_of rs k) = ∅) ->
  steps (root_LoadLatestVersion order) rs None (fun rs' => root_ok 0 rs' /\ rs_storesParams rs' = rs_storesParams rs).
Proof.
  intros Ho Hmo Hw Hv Hst Hd.
  assert (Hdr : forall k, disk_ready 0 (disk_of rs k)) by (intros k; unfold disk_ready; by rewrite decide_True).
  eapply steps_mono.
  { apply (LoadLatestVersion_run order Ho 0 (mk_CommitID 0 None) rs); [done| |unfold max_int64; lia|done|].
    - split; [done|]. by rewrite decide_True.
    - intros k _. apply ready_can_load, Hdr. }
  intros rs' (Hid & Hdk & Hpar & _ & Hw' & Hv' & Hst'). split; [|done].
  assert (Hld : forall k st, rs_stores rs' !! k = Some st -> st = loaded_store rs 0 k /\ store_ok 0 st /\ saved_at st = ∅).
  { intros k st. rewrite Hst', fmap_Some. intros (p & _ & ->).
    destruct (LoadVersion_ready 0 (disk_of rs k) (Hdr k)) as (_ & _ & Hver & Hsv). rewrite Hd in Hsv.
    split_and!; [done| |exact Hsv]. split; [|done]. unfold pruned. cbn [loaded_store newIAVLStore st_tree st_numRecent st_storeEvery].
    rewrite Hver. unfold defaultIAVLNumRecent, defaultIAVLStoreEvery, max_int64.
    refine (conj _ (conj _ (conj _ _))); [lia..|]. intros v. rewrite saved_versions, Hsv, dom_empty_L, elem_of_empty.
    unfold retained. lia. }
  split; [unfold max_int64; lia|by rewrite Hpar| |by rewrite Hid| |].
  - split; [|intros k st Hk; by apply (Hld k)]. rewrite Hpar. apply set_eq. intros k. by rewrite !elem_of_dom, Hst', fmap_is_Some.
  - split; [done|]. rewrite decide_True by done. by rewrite Hv', Hid.
  - intros k st Hk. destruct (Hld k st Hk) as (-> & _ & Hsv). rewrite Hsv. unfold disk_of. rewrite Hpar, Hdk. apply Hd.
Qed.

(** ** Writing to the stores *)

(** [Some v] sets a key, [None] deletes it. *)
Definition write (w : StoreKey * bytes * option bytes) : M root unit :=
  withStore (MS:=root) w.1.1
    match w.2 with
    | Some v => KVStore.Set_ (S:=iavlStore T) (Some w.1.2) (Some v)
    | None => KVStore.Delete (S:=iavlStore T) (Some w.1.2)
    end.

(** What reading and writing the working trees leaves alone. *)
Definition unsaved (n : Z) (rs rs' : root) : Prop :=
  root_ok n rs' /\ same_frame rs rs' /\ dom (rs_stores rs') = dom (rs_stores rs) /\
  forall m k, committed m rs' k = committed m rs k.

Lemma put_tree_ok n rs k st t :
  root_ok n rs -> rs_stores rs !! k = Some st -> tree_versions t = tree_versions (st_tree st) ->
  tree_Version64 t = tree_Version64 (st_tree st) -> saved (tree_disk t) = saved_at st ->
  unsaved n rs (with_stores rs (<[k := mk_iavlStore t (st_numRecent st) (st_storeEvery st)]> (rs_stores rs))).
Proof.
  intros Hok Hst Hvs Hv Hsv.
  assert (Hdom : dom (<[k := mk_iavlStore t (st_numRecent st) (st_storeEvery st)]> (rs_stores rs)) = dom (rs_stores rs)).
  { rewrite dom_insert_L. apply elem_of_dom_2 in Hst. set_solver. }
  split; [|done]. destruct Hok as [H1 H2 [H3 H4] H5 H6 H7]. split; [done|done| |done|done|].
  - split; [exact (eq_trans Hdom H3)|]. intros k' st'. cbn [rs_stores with_stores]. rewrite lookup_insert_Some.
    intros [[ <- <- ]|[_ Hst']]; [|by apply (H4 k')].
    destruct (H4 k st Hst) as ((P1 & P2 & P3 & P4) & Hv' & Hn' & He'). unfold store_ok, pruned.
    cbn [st_tree st_numRecent st_storeEvery]. rewrite Hvs, Hv. done.
  - intros k' st'. cbn [rs_stores with_stores]. change (disk_of (with_stores rs _) k') with (disk_of rs k').
    rewrite lookup_insert_Some. intros [[ <- <- ]|[_ Hst']]; [|by apply H7]. rewrite (H7 k st Hst). symmetry. exact Hsv.
Qed.

Lemma write_run n rs (w : StoreKey * bytes * option bytes) :
  root_ok n rs -> is_Some (rs_stores rs !! w.1.1) -> steps (write w) rs tt (unsaved n rs).
Proof.
  intros Hok [st Hst]. destruct w as [[k key] [v|]]; cbn [fst snd] in *.
  - destruct (tree_Set_law (st_tree st) key v) as (t & Ht & _ & Hvs & Hv).
    pose proof (saved_Set (st_tree st) (Some key) (Some v)) as Hsv. rewrite Ht in Hsv.
    eexists. split; [|by apply (put_tree_ok n rs k st t)].
    unfold write, withStore. cbn [ms_store root_MultiStore fst snd]. rewrite Hst. cbn. unfold onTree, zoom. by rewrite Ht.
  - destruct (tree_Remove_law (st_tree st) key) as (t & Ht & _ & Hvs & Hv).
    pose proof (saved_Remove (st_tree st) (Some key)) as Hsv. rewrite Ht in Hsv.
    eexists. split; [|by apply (put_tree_ok n rs k st t)].
    unfold write, withStore. cbn [ms_store root_MultiStore fst snd]. rewrite Hst. cbn. unfold onTree, zoom. by rewrite Ht.
Qed.

Lemma writes_run n ws : forall rs,
  root_ok n rs -> Forall (fun w : StoreKey * bytes * option bytes => is_Some (rs_stores rs !! w.1.1)) ws ->
  steps (iterM write ws) rs tt (unsaved n rs).
Proof.
  induction ws as [|w ws IH]; intros rs Hok HF; [by apply steps_ret|]. inversion HF as [|? ? Hw HF']; subst.
  cbn [iterM]. destruct (write_run n rs w Hok Hw) as (rs1 & Hr & Hok1 & (F1 & F2 & F3 & F4) & Hd1 & Hc1).
  eapply steps_eq_bind; [exact Hr|]. eapply steps_mono; [apply IH; [done|]|].
  { eapply Forall_impl; [exact HF'|]. intros w' Hw'. apply elem_of_dom. rewrite Hd1. by apply elem_of_dom. }
  intros rs2 (Hok2 & (E1 & E2 & E3 & E4) & Hd2 & Hc2). split; [done|]. split; [|split].
  - split_and!; congruence.
  - congruence.
  - intros m k. by rewrite Hc2, Hc1.
Qed.
End restart.
