(* ===== verification/RootStore.v ===== *)
(** * The root multi-store's properties

    The laws of a multi-store, restarts after a commit and after a crash, the
    order of the map ranges, the routing of queries; the models that show the
    hypotheses on databases and trees can hold. *)
From Stdlib Require Import Strings.Byte Strings.String.
From S2P Require Import Prelude Wire Errors KVStore MergeIterator CacheKV GasKV PrefixStore IAVL MultiStore Account Context Auth RunTx ReadOnly BaseApp RootMulti RootRestart.
#[local] Open Scope string_scope.
#[local] Open Scope list_scope.
#[local] Open Scope Z_scope.

(** ** It is a multi-store *)

#[refine] Instance root_laws {T D} `{VersionedTreeLaws T} `{!TreeDisk T} {HDB : DB D} {HDBL : DBLaws D HDB}
    (P : gset Z -> Z -> Z -> Z -> Prop) : MultiStoreLaws (rootMultiStore T D Disk) := {
  KVS_laws _ := iavl_laws_at P;
  DBS_laws := DB_laws }.
Proof.
  - intros k. apply iavl_reverse_at.
  - intros ms k s _. apply lookup_insert_eq.
  - intros ms k k' s Hne. by apply lookup_insert_ne.
  - done.
  - done.
  - done.
  - intros ms k. simpl. rewrite list_elem_of_fmap. split.
    + intros ([k' st] & -> & Hst%elem_of_map_to_list). by eexists.
    + intros [st Hst]. exists (k, st). split; [done|]. by apply elem_of_map_to_list.
  - intros ms. apply NoDup_fst_map_to_list.
Defined.

(** Reading an IAVL store leaves its tree as it is. *)
#[export] Instance iavl_ReadsKeep {T} `{VersionedTree T} : ReadsKeep (fun st : iavlStore T => st).
Proof.
  split; intros; try (intros st; done);
    intros [st it]; simpl; unfold onIavlIter, zoom; simpl; by destruct (_ it).
Qed.

#[export] Instance root_PureReads {T D} `{VersionedTree T} `{!TreeDisk T} {HDB : DB D} : PureReads (rootMultiStore T D Disk).
Proof.
  split.
  - apply iavl_ReadsKeep.
  - intros [] k st Hk. unfold ms_put. simpl in *. unfold with_stores. simpl. by rewrite insert_id.
  - by intros [].
Qed.

(** So checking transactions changes no hash that an application on the root
    multi-store commits. *)
Lemma root_checks_isolated {T D} `{VersionedTree T} `{!TreeDisk T} {HDB : DB D} `{!CommitMultiStore (rootMultiStore T D Disk)}
    `{LibDB} `{Crypto} {A : Type} `{Msg A} (cfg : AppConfig (T:=A)) cs (app : BaseApp (MS:=rootMultiStore T D Disk)) :
  rsim (fun rs rs' => rs' = no_check_responses rs) same_but_check (run_calls cfg cs) (run_calls cfg (no_checks cs)) app app.
Proof. by apply run_calls_erase. Qed.

(** ** Paths *)

Fixpoint no_slash (s : string) : bool :=
  match s with EmptyString => true | String c s => negb (Ascii.eqb c slash) && no_slash s end.

Lemma cut_slash_name name rest :
  no_slash name = true -> cut_slash (name ++ "/" ++ rest)%string = (name, Some rest).
Proof.
  induction name as [|c name IH]; [done|].
  change (negb (Ascii.eqb c slash) && no_slash name = true ->
    (if Ascii.eqb c slash then ("", Some (name ++ "/" ++ rest)%string)
     else let '(a, b) := cut_slash (name ++ "/" ++ rest)%string in (String c a, b)) = (String c name, Some rest)).
  intros [Hc Hn]%andb_prop. apply negb_true_iff in Hc. by rewrite Hc, (IH Hn).
Qed.

Lemma parsePath_name name rest :
  no_slash name = true -> parsePath ("/" ++ name ++ "/" ++ rest)%string = inl (name, ("/" ++ rest)%string).
Proof. intros Hn. change (parsePath (String slash (name ++ "/" ++ rest)%string) = inl (name, ("/" ++ rest)%string)).
  unfold parsePath. rewrite Ascii.eqb_refl, cut_slash_name by done. done. Qed.

(** ** Properties *)

Section props.
Context {T D : Type} `{HT : VersionedTree T} `{HTL : !VersionedTreeLaws T} `{HTD : !TreeDisk T}.
Context `{HTDL : !TreeDiskLaws T} {HDB : DB D} {HDBL : DBLaws D HDB} `{HRL : RootLibLaws}.
Abbreviation root := (rootMultiStore T D Disk).

(** C35: from a root multi-store in a good state (its stores at version n,
    its database recording version n), Commit returns the identifier of version
    n + 1, and a new store over the same database with the same mounts loads
    that version: the same identifier, the same map in every store, a good
    state again.  The orders in which the two processes range over their maps
    are arbitrary. *)
Theorem Commit_restart (order order' : list StoreKey -> list StoreKey) (n : Z) (rs : root)
    (Ho : is_order order) (Ho' : is_order order') (Hok : root_ok n rs) (Hn : n + 1 < max_int64) :
  exists id rs' rs'',
    root_Commit order rs = (Ok id, rs') /\ cid_Version id = n + 1 /\
    root_LoadLatestVersion order' (restart rs') = (Ok None, rs'') /\
    root_LastCommitID rs'' = id /\ root_ok (n + 1) rs'' /\
    (forall k, root_view rs'' k = root_view rs k).
Proof.
  destruct (root_Commit_run order Ho n rs Hok Hn) as (rs' & Hc & Hok' & Hid & Hpar & _ & Hv & Hcm).
  destruct (restart_run order' (n + 1) rs' Ho' Hok') as (rs'' & Hl & Hid'' & Hok'' & Hv'').
  exists (next_id n rs), rs', rs''. split_and!; [done|done|done|exact (eq_trans Hid'' Hid)|done|].
  intros k. rewrite Hv''. unfold loaded_map. change (saved (disk_of rs' k) !! (n + 1)) with (committed (n + 1) rs' k).
  rewrite Hcm, Hpar. unfold root_view.
  destruct (rs_storesParams rs !! k) as [p|] eqn:Ep, (rs_stores rs !! k) as [st|] eqn:Es; try done.
  - destruct (proj2 (ok_mounted n rs k Hok)); [eauto|congruence].
  - destruct (proj1 (ok_mounted n rs k Hok)); [eauto|congruence].
Qed.

(** C36: after a commit, any writes to the stores and a crash during the next
    commit, with an arbitrary part of the stores saved and the database's batch
    not written, a restart gives the state of the commit: its identifier and
    the map every store had then. *)
Theorem crash_restores_commit (order order' : list StoreKey -> list StoreKey) (n : Z) (rs : root)
    (ws : list (StoreKey * bytes * option bytes)) (ks : list StoreKey)
    (Ho : is_order order) (Ho' : is_order order') (Hok : root_ok n rs) (Hn : n + 2 < max_int64)
    (Hws : Forall (fun w : StoreKey * bytes * option bytes => is_Some (rs_stores rs !! w.1.1)) ws)
    (Hks : NoDup ks) (Hin : Forall (fun k : StoreKey => is_Some (rs_stores rs !! k)) ks) :
  exists id rs1 rs2 infos rs3 rs4,
    root_Commit order rs = (Ok id, rs1) /\ iterM write ws rs1 = (Ok tt, rs2) /\
    commitStores_loop ks [] rs2 = (Ok infos, rs3) /\
    root_LoadLatestVersion order' (restart rs3) = (Ok None, rs4) /\
    root_LastCommitID rs4 = id /\ forall k, root_view rs4 k = root_view rs k.
Proof.
  pose proof (ok_range _ _ Hok) as Hr.
  destruct (root_Commit_run order Ho n rs Hok) as (rs1 & Hc & Hok1 & Hid & Hpar & _ & Hv & Hcm); [lia|].
  assert (Hst1 : forall k, is_Some (rs_stores rs !! k) <-> is_Some (rs_stores rs1 !! k)).
  { intros k. by rewrite (ok_mounted n rs k Hok), (ok_mounted _ rs1 k Hok1), Hpar. }
  destruct (writes_run (n + 1) ws rs1 Hok1) as (rs2 & Hw & Hok2 & (F1 & F2 & F3 & F4) & Hd2 & Hc2).
  { eapply Forall_impl; [exact Hws|]. intros w Hw. by apply Hst1. }
  destruct (commitStores_loop_run (n + 1) rs2 ks rs2 [] []) as (rs3 & Hl & Hcg);
    [apply Hok2|apply Hok2|lia|apply committing_refl|done| |].
  { intros k Hk. apply elem_of_dom. rewrite Hd2. apply elem_of_dom, Hst1. by eapply (proj1 (Forall_forall _ _) Hin). }
  destruct (crash_run order' (n + 1) rs2 rs3 ks Ho' Hok2) as (rs4 & Hl4 & Hid4 & Hv4); [lia|lia|done|].
  exists (next_id n rs), rs1, rs2, ([] ++ (info_of rs2 <$> ks)), rs3, rs4.
  split_and!; [done..|unfold root_LastCommitID; by rewrite Hid4, F2|].
  intros k. rewrite Hv4, Hc2. apply Hcm.
Qed.

(** C37: two nodes that range over the map of stores in different orders
    compute the same commit identifier, hash included, and the same maps. *)
Theorem Commit_order_independent (order order' : list StoreKey -> list StoreKey) (n : Z) (rs : root)
    (Ho : is_order order) (Ho' : is_order order') (Hok : root_ok n rs) (Hn : n + 1 < max_int64) :
  (root_Commit order rs).1 = (root_Commit order' rs).1 /\ is_Ok (root_Commit order rs).1 /\
  forall k, root_view (root_Commit order rs).2 k = root_view (root_Commit order' rs).2 k.
Proof.
  destruct (root_Commit_run order Ho n rs Hok Hn) as (rs1 & -> & _ & _ & _ & _ & Hv & _).
  destruct (root_Commit_run order' Ho' n rs Hok Hn) as (rs2 & -> & _ & _ & _ & _ & Hv' & _).
  split_and!; [done|by eexists|]. intros k. cbn [snd]. by rewrite Hv, Hv'.
Qed.

(** C38: a crash during the very first commit is different: the restart
    reports version 0, but every store that had saved comes back with the data
    that was being committed. *)
Theorem first_commit_crash (order : list StoreKey -> list StoreKey) (rs : root) (ks : list StoreKey) (k : StoreKey)
    (Ho : is_order order) (Hok : root_ok 0 rs) (Hks : NoDup ks)
    (Hin : Forall (fun k : StoreKey => is_Some (rs_stores rs !! k)) ks) (Hk : k ∈ ks) :
  exists infos rs1 rs2,
    commitStores_loop ks [] rs = (Ok infos, rs1) /\
    root_LoadLatestVersion order (restart rs1) = (Ok None, rs2) /\
    root_LastCommitID rs2 = mk_CommitID 0 None /\ root_view rs2 k = root_view rs k.
Proof.
  destruct (commitStores_loop_run 0 rs ks rs [] []) as (rs1 & Hl & Hcg);
    [apply Hok|apply Hok|unfold max_int64; lia|apply committing_refl|done| |].
  { intros k' Hk'. by eapply (proj1 (Forall_forall _ _) Hin). }
  pose proof Hcg as ((Hf1 & Hf2 & Hf3 & Hf4) & Hs & Hd).
  assert (Hlat : forall k' st, k' ∈ ks -> rs_stores rs !! k' = Some st ->
    can_load 0 (disk_of rs1 k') /\ tree_map (tree_LoadVersion (disk_of rs1 k') 0).1 = tree_map (st_tree st)).
  { intros k' st Hk' Hst. rewrite Hd by (apply (ok_mounted 0 rs k' Hok); eauto). rewrite Hst, decide_True by done.
    destruct (Commit_parts 0 st) as (_ & _ & Hok' & _ & Hsv & _);
      [exact (proj2 (ok_stores _ _ Hok) k' st Hst)|unfold max_int64; lia|].
    destruct (tree_LoadVersion_latest (tree_disk (st_tree (commit_st st))) 1 (tree_map (st_tree st)) Hsv ltac:(lia)) as (He & Hm & _);
      [|done]. intros v Hv. apply elem_of_dom in Hv. rewrite <- saved_versions in Hv.
    destruct Hok' as ((_ & _ & _ & Hp) & Hver & _). apply Hp in Hv. rewrite Hver in Hv. unfold retained in Hv. lia. }
  destruct (LoadLatestVersion_run order Ho 0 (mk_CommitID 0 None) (restart rs1)) as (rs2 & Hl2 & Hre); [| |unfold max_int64; lia|done| |].
  - cbn [restart rs_storesParams]. rewrite Hf3. apply Hok.
  - cbn [restart rs_storesParams rs_db]. rewrite Hf1, Hf3. pose proof (ok_recorded _ _ Hok) as [Hw Hrec]. split; [done|].
    rewrite decide_True in * by done. split; [apply Hrec|done].
  - cbn [restart rs_storesParams]. rewrite Hf3. intros k' Hk'. apply (ok_mounted 0 rs k' Hok) in Hk' as [st Hst].
    change (disk_of (restart rs1) k') with (disk_of rs1 k'). destruct (decide (k' ∈ ks)) as [Hin'|Hin'].
    + by apply (Hlat k' st).
    + rewrite Hd, Hst, decide_False by (done || (apply (ok_mounted 0 rs k' Hok); eauto)).
      apply ready_can_load, ok_ready; [done|]. apply (ok_mounted 0 rs k' Hok). eauto.
  - exists ([] ++ (info_of rs <$> ks)), rs1, rs2. split_and!; [done|done|apply Hre|].
    destruct Hre as (_ & _ & _ & _ & _ & _ & Hst2).
    assert (is_Some (rs_stores rs !! k)) as [st Hst] by (by eapply (proj1 (Forall_forall _ _) Hin)).
    assert (is_Some (rs_storesParams rs !! k)) as [p Hp] by (apply (ok_mounted 0 rs k Hok); eauto).
    unfold root_view. rewrite Hst2. cbn [restart rs_storesParams]. rewrite Hf3, Hp, Hst. simpl. f_equal.
    change (disk_of (restart rs1) k) with (disk_of rs1 k). by apply (Hlat k st).
Qed.

(** A query for "/<name>/<subpath>" is answered by the store mounted under that
    name, asked for "/<subpath>", and changes no other store. *)
Theorem root_Query_routes (MarshalKVs : list KVPair -> slice) (fuel : nat) (rs : root) (key : StoreKey) (st : iavlStore T)
    (data : slice) (subpath : string) (height : Z) (prove : bool)
    (Hname : no_slash (sk_name key) = true) (Hkey : rs_keysByName rs !! sk_name key = Some key)
    (Hst : rs_stores rs !! key = Some st) :
  let q := iavlStore_Query MarshalKVs fuel (mk_RequestQuery data ("/" ++ subpath)%string height prove) st in
  root_Query MarshalKVs fuel (mk_RequestQuery data ("/" ++ sk_name key ++ "/" ++ subpath)%string height prove) rs =
    (q.1, with_stores rs (<[key := q.2]> (rs_stores rs))).
Proof.
  intros q. unfold root_Query. cbn [rq_Path rq_Data rq_ReqHeight rq_Prove]. rewrite parsePath_name by done.
  unfold mbind at 1, M_bind at 1, getM.
  assert (getStoreByName rs (sk_name key) = Some (key, st)) as ->.
  { unfold getStoreByName. rewrite Hkey. simpl. by rewrite Hst. }
  cbv beta iota zeta. fold q. by destruct q as [r st0].
Qed.
End props.

(** ** Models

    A tree's database is its versions; the database is a map; the encodings
    are those of [Wire]. *)
#[local] Existing Instance model_VersionedTree.
#[local] Existing Instance model_VersionedTreeLaws.

Abbreviation versions := (gmap Z (gmap bytes bytes)).
Definition latest_of (d : versions) : Z := foldr Z.max 0 (map_to_list d).*1.

Instance model_TreeDisk : TreeDisk model_tree := {
  Disk := versions;
  empty_disk := ∅;
  tree_disk := mt_saved;
  tree_LoadVersion d v :=
    let v := if decide (v = 0) then latest_of d else v in
    match d !! v with
    | Some m => (mk_model_tree m d v, None)
    | None => (mk_model_tree ∅ d 0, if decide (v = 0) then None else Some "version does not exist")
    end
}.

Lemma latest_of_max (d : versions) v m :
  d !! v = Some m -> 0 <= v -> (forall v', is_Some (d !! v') -> v' <= v) -> latest_of d = v.
Proof.
  intros Hv H0 Hmax.
  assert (Hl : forall l : list Z, (forall v', v' ∈ l -> v' <= v) -> foldr Z.max 0 l <= v /\ (v ∈ l -> foldr Z.max 0 l = v)).
  { induction l as [|x l IH]; intros Hx; [split; [done|by intros ?%not_elem_of_nil]|].
    destruct IH as [H1 H2]; [intros v' ?; apply Hx; by right|]. assert (x <= v) by (apply Hx; left). simpl. split; [lia|].
    intros [ -> |Hin]%elem_of_cons; [lia|]. rewrite H2 by done. lia. }
  apply Hl.
  - intros v' ([v0 m'] & -> & Hm%elem_of_map_to_list)%list_elem_of_fmap. apply Hmax. eauto.
  - apply list_elem_of_fmap. exists (v, m). split; [done|]. by apply elem_of_map_to_list.
Qed.

#[refine] Instance model_TreeDiskLaws : TreeDiskLaws model_tree := { saved := fun d : versions => d }.
Proof.
  - done.
  - done.
  - done.
  - done.
  - done.
  - intros t v Hv Hne. simpl. rewrite decide_False by done.
    change (v ∈ dom (mt_saved t)) in Hv. apply elem_of_dom in Hv as [m Hm]. by rewrite Hm.
  - intros d v m Hv Hne. simpl. by rewrite decide_False, Hv.
  - intros d v m Hv Hpos Hmax. simpl. rewrite (latest_of_max d v m Hv), Hv by (lia || done). done.
  - intros d Hd. simpl in Hd. subst d. done.
Defined.

Instance model_DB : DB spec_store := { db_WriteBatch l := fun d => (Ok tt, batch_view l d) }.
Instance model_DBLaws : DBLaws spec_store model_DB.
Proof. refine {| DB_laws := spec_laws |}. intros d l _. by eexists. Defined.

Instance wire_CommitID : Wire CommitID :=
  wire_iso (B:=Z * option bytes) (fun c => (cid_Version c, cid_Hash c)) (fun p => mk_CommitID p.1 p.2) ltac:(by intros []).
Instance wire_storeInfo : Wire storeInfo :=
  wire_iso (B:=string * CommitID) (fun i => (si_Name i, si_CommitID i)) (fun p => mk_storeInfo p.1 p.2) ltac:(by intros []).
Instance wire_commitInfo : Wire commitInfo :=
  wire_iso (B:=Z * list storeInfo) (fun c => (ci_Version c, ci_StoreInfos c)) (fun p => mk_commitInfo p.1 p.2)
    ltac:(by intros []).

Definition model_RootLib : RootLib := {|
  MarshalCommitInfo (ci : commitInfo) := Some (ser ci);
  UnmarshalCommitInfo (bz : bytes) := deser (A:=commitInfo) bz;
  MarshalVersion (v : Z) := ser v;
  UnmarshalVersion (bz : bytes) := deser (A:=Z) bz;
  MarshalCore (id : CommitID) := ser (cid_Version id, slice_bytes (cid_Hash id) : list Byte.byte);
  ripemd160 (bz : bytes) := bz;
  SimpleHashFromMap (m : gmap string bytes) := Some (ser (map_to_list m : list (string * list Byte.byte)))
|}.
#[local] Existing Instance model_RootLib.

Instance model_RootLibLaws : RootLibLaws.
Proof.
  split.
  - intros ci _. refine (ex_intro _ (ser ci) (ex_intro _ ci (conj eq_refl (conj (deser_ser ci) (conj eq_refl _))))).
    generalize (ci_StoreInfos ci). intros l. induction l as [|i l IH]; constructor; [repeat split|exact IH].
  - intros v _. exact (deser_ser v).
  - intros [v h] [v' h'] [Hv Hh]. cbn [cid_Version cid_Hash] in Hv, Hh. subst v'.
    exact (f_equal (fun b : bytes => ser (v, b)) Hh).
Qed.

(** Two stores, mounted and loaded from an empty database. *)
Abbreviation ex_root := (rootMultiStore model_tree spec_store (Disk (T:=model_tree))).
Definition ex_k1 : StoreKey := mk_StoreKey 1 "acc".
Definition ex_k2 : StoreKey := mk_StoreKey 2 "stake".
Definition ex_mount : M ex_root unit :=
  MountStoreWithDB (Some ex_k1) StoreTypeIAVL None;; MountStoreWithDB (Some ex_k2) StoreTypeIAVL None.
Definition ex_new : ex_root := (ex_mount (NewCommitMultiStore ∅ ∅)).2.
Definition ex_start : ex_root := (root_LoadLatestVersion (fun l => l) ex_new).2.
Definition ex_written : ex_root := (write (ex_k1, [Byte.x01], Some [Byte.x07]) ex_start).2.

Example ex_runs :
  (ex_mount (NewCommitMultiStore ∅ ∅)).1 = Ok tt /\ (root_LoadLatestVersion (fun l => l) ex_new).1 = Ok None /\
  (root_Commit reverse ex_written).1 = (root_Commit (fun l => l) ex_written).1.
Proof. by vm_compute. Qed.

Lemma is_order_id : is_order (fun l => l).
Proof. intros l. reflexivity. Qed.
Lemma is_order_reverse : is_order reverse.
Proof. intros l. apply reverse_Permutation. Qed.

Lemma ex_mounts : mounts_ok (rs_storesParams ex_new).
Proof.
  assert (Hp : rs_storesParams ex_new =
    <[ex_k2 := mk_storeParams ex_k2 None StoreTypeIAVL]> {[ex_k1 := mk_storeParams ex_k1 None StoreTypeIAVL]}) by reflexivity.
  assert (Hc : forall k p, rs_storesParams ex_new !! k = Some p ->
    (k = ex_k1 \/ k = ex_k2) /\ p = mk_storeParams k None StoreTypeIAVL).
  { intros k p. rewrite Hp, lookup_insert_Some, lookup_singleton_Some. naive_solver. }
  clear Hp. split.
  - intros k p [_ ->]%Hc. reflexivity.
  - intros k k' p p' [[ -> | -> ] _]%Hc [[ -> | -> ] _]%Hc Heq; (reflexivity || discriminate Heq).
  - intros k k' p p' [[ -> | -> ] ->]%Hc [[ -> | -> ] ->]%Hc Heq; (reflexivity || discriminate Heq).
Qed.

Lemma ex_start_ok : root_ok 0 ex_start.
Proof.
  destruct (fresh_run (fun l => l) ex_new is_order_id ex_mounts) as (rs & Hl & Hok & _); [done|done|done| |].
  - intros k. unfold disk_of. destruct (rs_storesParams ex_new !! k); [|done]. done.
  - unfold ex_start. by rewrite Hl.
Qed.

Lemma ex_stores k : is_Some (rs_stores ex_start !! k) <-> k = ex_k1 \/ k = ex_k2.
Proof.
  rewrite (ok_mounted 0 ex_start k ex_start_ok). change (rs_storesParams ex_start) with (rs_storesParams ex_new).
  assert (Hp : rs_storesParams ex_new =
    <[ex_k2 := mk_storeParams ex_k2 None StoreTypeIAVL]> {[ex_k1 := mk_storeParams ex_k1 None StoreTypeIAVL]}) by reflexivity.
  rewrite Hp, <- elem_of_dom, dom_insert_L, dom_singleton_L, elem_of_union, !elem_of_singleton. tauto.
Qed.

Lemma ex_written_ok : root_ok 0 ex_written /\ dom (rs_stores ex_written) = dom (rs_stores ex_start).
Proof.
  destruct (write_run 0 ex_start (ex_k1, [Byte.x01], Some [Byte.x07]) ex_start_ok) as (rs & Hw & Hok & _ & Hd & _).
  { apply ex_stores. by left. }
  assert (ex_written = rs) as -> by exact (f_equal snd Hw). split; [exact Hok|exact Hd].
Qed.

Lemma ex_written_stores k : k = ex_k1 \/ k = ex_k2 -> is_Some (rs_stores ex_written !! k).
Proof. intros Hk%ex_stores%elem_of_dom. apply elem_of_dom. by rewrite (proj2 ex_written_ok). Qed.

Lemma Commit_restart_witness :
  exists id rs' rs'',
    root_Commit reverse ex_written = (Ok id, rs') /\ cid_Version id = 1 /\
    root_LoadLatestVersion (fun l => l) (restart rs') = (Ok None, rs'') /\
    root_view rs'' ex_k1 = root_view ex_written ex_k1.
Proof.
  destruct (Commit_restart reverse (fun l => l) 0 ex_written is_order_reverse is_order_id (proj1 ex_written_ok))
    as (id & rs' & rs'' & H1 & H2 & H3 & _ & _ & H6); [unfold max_int64; lia|].
  exists id, rs', rs''. split; [exact H1|]. split; [exact H2|]. split; [exact H3|]. apply H6.
Defined.

Lemma crash_restores_commit_witness :
  exists id rs1 rs2 infos rs3 rs4,
    root_Commit reverse ex_written = (Ok id, rs1) /\
    iterM write [(ex_k2, [Byte.x05], Some [Byte.x06])] rs1 = (Ok tt, rs2) /\
    commitStores_loop [ex_k2] [] rs2 = (Ok infos, rs3) /\
    root_LoadLatestVersion (fun l => l) (restart rs3) = (Ok None, rs4) /\
    root_LastCommitID rs4 = id /\ forall k, root_view rs4 k = root_view ex_written k.
Proof.
  apply (crash_restores_commit reverse (fun l => l) 0 ex_written [(ex_k2, [Byte.x05], Some [Byte.x06])] [ex_k2]
    is_order_reverse is_order_id (proj1 ex_written_ok)).
  - unfold max_int64. lia.
  - constructor; [apply ex_written_stores; by right|constructor].
  - apply NoDup_singleton.
  - constructor; [apply ex_written_stores; by right|constructor].
Defined.

Lemma Commit_order_independent_witness :
  (root_Commit reverse ex_written).1 = (root_Commit (fun l => l) ex_written).1.
Proof.
  apply (Commit_order_independent reverse (fun l => l) 0 ex_written is_order_reverse is_order_id (proj1 ex_written_ok)).
  unfold max_int64. lia.
Defined.

Lemma first_commit_crash_witness :
  exists infos rs1 rs2,
    commitStores_loop [ex_k1] [] ex_written = (Ok infos, rs1) /\
    root_LoadLatestVersion (fun l => l) (restart rs1) = (Ok None, rs2) /\
    root_LastCommitID rs2 = mk_CommitID 0 None /\ root_view rs2 ex_k1 = root_view ex_written ex_k1.
Proof.
  apply (first_commit_crash (fun l => l) ex_written [ex_k1] ex_k1 is_order_id (proj1 ex_written_ok)).
  - apply NoDup_singleton.
  - constructor; [apply ex_written_stores; by left|constructor].
  - by left.
Defined.

(** The write that was never committed is there after the restart. *)
Example first_commit_crash_run :
  let rs1 := (commitStores_loop [ex_k1] [] ex_written).2 in
  let rs2 := (root_LoadLatestVersion (fun l => l) (restart rs1)).2 in
  (m ← root_view rs2 ex_k1; m !! [Byte.x01]) = Some [Byte.x07] /\ cid_Version (root_LastCommitID rs2) = 0.
Proof. by vm_compute. Qed.

Lemma root_Query_routes_witness :
  exists st, rs_stores ex_written !! ex_k1 = Some st /\
  let q := iavlStore_Query (fun _ => None) 5 (mk_RequestQuery (Some [Byte.x01]) "/key" 0 false) st in
  root_Query (fun _ => None) 5 (mk_RequestQuery (Some [Byte.x01]) "/acc/key" 0 false) ex_written =
    (q.1, with_stores ex_written (<[ex_k1 := q.2]> (rs_stores ex_written))).
Proof.
  destruct (ex_written_stores ex_k1) as [st Hst]; [by left|]. exists st. split; [exact Hst|].
  apply (root_Query_routes (fun _ => None) 5 ex_written ex_k1 st (Some [Byte.x01]) "key" 0 false); [reflexivity|reflexivity|exact Hst].
Defined.
