(* ===== verification/Pool.v ===== *)
(** * x/stake/types: params.go, pool.go, shares.go

    The pool of staking tokens and the shares validators hold of it.  A
    [Rat] is a normalized rational; tokens are int64 and wrap around.  The
    bond statuses of types/stake.go are here too. *)
From Stdlib Require Import Strings.String QArith Qreduction.
From stdpp Require Import pretty.
From S2P Require Import Prelude Int Rational Errors.
#[local] Open Scope string_scope.
#[local] Open Scope list_scope.
#[local] Open Scope Z_scope.

Abbreviation Rat := Rat.Rat.

(** ** types/stake.go *)

Inductive BondStatus := Unbonded | Unbonding | Bonded.

#[export] Instance BondStatus_eq_dec : EqDecision BondStatus.
Proof. solve_decision. Defined.

Definition BondStatusToString (b : BondStatus) : string :=
  match b with Unbonded => "Unbonded" | Unbonding => "Unbonding" | Bonded => "Bonded" end.

(** ** params.go *)

Record Params := mk_Params {
  InflationRateChange : Rat;
  InflationMax : Rat;
  InflationMin : Rat;
  GoalBonded : Rat;
  UnbondingTime : Z;
  MaxValidators : Z;      (* uint16 *)
  BondDenom : string
}.

Definition DefaultParams : outcome Params :=
  c ← Rat.NewRat 13 [100];
  mx ← Rat.NewRat 20 [100];
  mn ← Rat.NewRat 7 [100];
  g ← Rat.NewRat 67 [100];
  Ok (mk_Params c mx mn g (60 * 60 * 24 * 3) 100 "steak").

(** ** The data of pool.go and shares.go *)

Record Pool := mk_Pool {
  LooseTokens : Z;
  UnbondedTokens : Z;
  UnbondingTokens : Z;
  BondedTokens : Z;
  UnbondedShares : Rat;
  UnbondingShares : Rat;
  BondedShares : Rat;
  InflationLastTime : Z;
  Inflation : Rat;
  DateLastCommissionReset : Z;
  PrevBondedShares : Rat
}.

Record PoolShares := mk_PoolShares { Status : BondStatus; ps_Amount : Rat }.

Definition InitialPool : outcome Pool :=
  i ← Rat.NewRat 7 [100];
  Ok (mk_Pool 0 0 0 0 Rat.ZeroRat Rat.ZeroRat Rat.ZeroRat 0 i 0 Rat.ZeroRat).

(** Assignments to fields of a copy of the pool. *)
Definition with_Loose (p : Pool) (loose : Z) : Pool :=
  mk_Pool loose (UnbondedTokens p) (UnbondingTokens p) (BondedTokens p) (UnbondedShares p)
    (UnbondingShares p) (BondedShares p) (InflationLastTime p) (Inflation p)
    (DateLastCommissionReset p) (PrevBondedShares p).
Definition with_Unbonded (p : Pool) (shares : Rat) (tokens : Z) : Pool :=
  mk_Pool (LooseTokens p) tokens (UnbondingTokens p) (BondedTokens p) shares
    (UnbondingShares p) (BondedShares p) (InflationLastTime p) (Inflation p)
    (DateLastCommissionReset p) (PrevBondedShares p).
Definition with_Unbonding (p : Pool) (shares : Rat) (tokens : Z) : Pool :=
  mk_Pool (LooseTokens p) (UnbondedTokens p) tokens (BondedTokens p) (UnbondedShares p)
    shares (BondedShares p) (InflationLastTime p) (Inflation p)
    (DateLastCommissionReset p) (PrevBondedShares p).
Definition with_Bonded (p : Pool) (shares : Rat) (tokens : Z) : Pool :=
  mk_Pool (LooseTokens p) (UnbondedTokens p) (UnbondingTokens p) tokens (UnbondedShares p)
    (UnbondingShares p) shares (InflationLastTime p) (Inflation p)
    (DateLastCommissionReset p) (PrevBondedShares p).
Definition with_Inflation (p : Pool) (time : Z) (inflation : Rat) : Pool :=
  mk_Pool (LooseTokens p) (UnbondedTokens p) (UnbondingTokens p) (BondedTokens p) (UnbondedShares p)
    (UnbondingShares p) (BondedShares p) time inflation
    (DateLastCommissionReset p) (PrevBondedShares p).

(** ** pool.go *)

Definition TokenSupply (p : Pool) : Z :=
  wrap64 (LooseTokens p + UnbondedTokens p + UnbondingTokens p + BondedTokens p).

Definition BondedRatio (p : Pool) : outcome Rat :=
  if 0 <? TokenSupply p then Rat.NewRat (BondedTokens p) [TokenSupply p] else Ok Rat.ZeroRat.

(** The three exchange rates: tokens per share. *)
Definition share_ex_rate (tokens : Z) (shares : Rat) : outcome Rat :=
  if Rat.IsZero shares then Ok Rat.OneRat
  else t ← Rat.NewRat tokens []; Rat.Quo t shares.

Definition BondedShareExRate (p : Pool) : outcome Rat := share_ex_rate (BondedTokens p) (BondedShares p).
Definition UnbondingShareExRate (p : Pool) : outcome Rat := share_ex_rate (UnbondingTokens p) (UnbondingShares p).
Definition UnbondedShareExRate (p : Pool) : outcome Rat := share_ex_rate (UnbondedTokens p) (UnbondedShares p).

Definition NewUnbondedShares (amount : Rat) : PoolShares := mk_PoolShares Unbonded amount.
Definition NewUnbondingShares (amount : Rat) : PoolShares := mk_PoolShares Unbonding amount.
Definition NewBondedShares (amount : Rat) : PoolShares := mk_PoolShares Bonded amount.

(** The text of the pool at the end of the messages is not represented. *)
Definition sanity (ok : bool) (what : string) : outcome unit :=
  if ok then Ok tt else Panicked (PanicString ("sanity check: " ++ what ++ ", pool: ")%string).

Definition addTokensUnbonded (p : Pool) (amount : Z) : outcome (Pool * PoolShares) :=
  a ← Rat.NewRat amount [];
  r ← UnbondedShareExRate p;
  issuedSharesAmount ← Rat.Quo a r;
  let p := with_Unbonded p (Rat.Add (UnbondedShares p) issuedSharesAmount) (wrap64 (UnbondedTokens p + amount)) in
  let p := with_Loose p (wrap64 (LooseTokens p - amount)) in
  sanity (negb (LooseTokens p <? 0)) "loose tokens negative";;
  Ok (p, NewUnbondedShares issuedSharesAmount).

Definition removeSharesUnbonded (p : Pool) (shares : Rat) : outcome (Pool * Z) :=
  r ← UnbondedShareExRate p;
  let removedTokens := Rat.RoundInt64 (Rat.Mul r shares) in
  let p := with_Unbonded p (Rat.Sub (UnbondedShares p) shares) (wrap64 (UnbondedTokens p - removedTokens)) in
  let p := with_Loose p (wrap64 (LooseTokens p + removedTokens)) in
  sanity (negb (UnbondedTokens p <? 0)) "unbonded tokens negative";;
  Ok (p, removedTokens).

Definition addTokensUnbonding (p : Pool) (amount : Z) : outcome (Pool * PoolShares) :=
  a ← Rat.NewRat amount [];
  r ← UnbondingShareExRate p;
  issuedSharesAmount ← Rat.Quo a r;
  let p := with_Unbonding p (Rat.Add (UnbondingShares p) issuedSharesAmount) (wrap64 (UnbondingTokens p + amount)) in
  let p := with_Loose p (wrap64 (LooseTokens p - amount)) in
  sanity (negb (LooseTokens p <? 0)) "loose tokens negative";;
  Ok (p, NewUnbondingShares issuedSharesAmount).

(** The sanity check reads UnbondedTokens here too. *)
Definition removeSharesUnbonding (p : Pool) (shares : Rat) : outcome (Pool * Z) :=
  r ← UnbondingShareExRate p;
  let removedTokens := Rat.RoundInt64 (Rat.Mul r shares) in
  let p := with_Unbonding p (Rat.Sub (UnbondingShares p) shares) (wrap64 (UnbondingTokens p - removedTokens)) in
  let p := with_Loose p (wrap64 (LooseTokens p + removedTokens)) in
  sanity (negb (UnbondedTokens p <? 0)) "unbonding tokens negative";;
  Ok (p, removedTokens).

Definition addTokensBonded (p : Pool) (amount : Z) : outcome (Pool * PoolShares) :=
  a ← Rat.NewRat amount [];
  r ← BondedShareExRate p;
  issuedSharesAmount ← Rat.Quo a r;
  let p := with_Bonded p (Rat.Add (BondedShares p) issuedSharesAmount) (wrap64 (BondedTokens p + amount)) in
  let p := with_Loose p (wrap64 (LooseTokens p - amount)) in
  sanity (negb (LooseTokens p <? 0)) "loose tokens negative";;
  Ok (p, NewBondedShares issuedSharesAmount).

(** And here. *)
Definition removeSharesBonded (p : Pool) (shares : Rat) : outcome (Pool * Z) :=
  r ← BondedShareExRate p;
  let removedTokens := Rat.RoundInt64 (Rat.Mul r shares) in
  let p := with_Bonded p (Rat.Sub (BondedShares p) shares) (wrap64 (BondedTokens p - removedTokens)) in
  let p := with_Loose p (wrap64 (LooseTokens p + removedTokens)) in
  sanity (negb (UnbondedTokens p <? 0)) "bonded tokens negative";;
  Ok (p, removedTokens).

(** ** shares.go *)

Definition PoolShares_Equal (s s2 : PoolShares) : bool :=
  bool_decide (Status s = Status s2) && Rat.Equal (ps_Amount s) (ps_Amount s2).

Definition shares_Unbonded (s : PoolShares) : Rat :=
  if decide (Status s = Unbonded) then ps_Amount s else Rat.ZeroRat.
Definition shares_Unbonding (s : PoolShares) : Rat :=
  if decide (Status s = Unbonding) then ps_Amount s else Rat.ZeroRat.
Definition shares_Bonded (s : PoolShares) : Rat :=
  if decide (Status s = Bonded) then ps_Amount s else Rat.ZeroRat.

Definition ToUnbonded (s : PoolShares) (p : Pool) : outcome PoolShares :=
  amount ← match Status s with
           | Bonded =>
               r ← BondedShareExRate p; r' ← UnbondedShareExRate p;
               exRate ← Rat.Quo r r'; Ok (Rat.Mul (ps_Amount s) exRate)
           | Unbonding =>
               r ← UnbondingShareExRate p; r' ← UnbondedShareExRate p;
               exRate ← Rat.Quo r r'; Ok (Rat.Mul (ps_Amount s) exRate)
           | Unbonded => Ok (ps_Amount s)
           end;
  Ok (NewUnbondedShares amount).

Definition ToUnbonding (s : PoolShares) (p : Pool) : outcome PoolShares :=
  amount ← match Status s with
           | Bonded =>
               r ← BondedShareExRate p; r' ← UnbondingShareExRate p;
               exRate ← Rat.Quo r r'; Ok (Rat.Mul (ps_Amount s) exRate)
           | Unbonding => Ok (ps_Amount s)
           | Unbonded =>
               r ← UnbondedShareExRate p; r' ← UnbondingShareExRate p;
               exRate ← Rat.Quo r r'; Ok (Rat.Mul (ps_Amount s) exRate)
           end;
  Ok (NewUnbondingShares amount).

(** The result carries the status Unbonded, as in the code. *)
Definition ToBonded (s : PoolShares) (p : Pool) : outcome PoolShares :=
  amount ← match Status s with
           | Bonded => Ok (ps_Amount s)
           | Unbonding =>
               r ← UnbondingShareExRate p; r' ← BondedShareExRate p;
               exRate ← Rat.Quo r r'; Ok (Rat.Mul (ps_Amount s) exRate)
           | Unbonded =>
               r ← UnbondedShareExRate p; r' ← BondedShareExRate p;
               exRate ← Rat.Quo r r'; Ok (Rat.Mul (ps_Amount s) exRate)
           end;
  Ok (NewUnbondedShares amount).

Definition Tokens (s : PoolShares) (p : Pool) : outcome Rat :=
  match Status s with
  | Bonded => r ← BondedShareExRate p; Ok (Rat.Mul r (ps_Amount s))
  | Unbonding => r ← UnbondingShareExRate p; Ok (Rat.Mul r (ps_Amount s))
  | Unbonded => r ← UnbondedShareExRate p; Ok (Rat.Mul r (ps_Amount s))
  end.

(** ** The three parts of the pool, by status

    The code has a copy of each operation per status; the lemmas below treat
    them as one operation at a status. *)

Definition tokens_of (st : BondStatus) (p : Pool) : Z :=
  match st with Unbonded => UnbondedTokens p | Unbonding => UnbondingTokens p | Bonded => BondedTokens p end.
Definition shares_of (st : BondStatus) (p : Pool) : Rat :=
  match st with Unbonded => UnbondedShares p | Unbonding => UnbondingShares p | Bonded => BondedShares p end.
Definition set_of (st : BondStatus) (p : Pool) (shares : Rat) (tokens : Z) : Pool :=
  match st with
  | Unbonded => with_Unbonded p shares tokens
  | Unbonding => with_Unbonding p shares tokens
  | Bonded => with_Bonded p shares tokens
  end.
Definition ex_rate (st : BondStatus) (p : Pool) : outcome Rat :=
  match st with
  | Unbonded => UnbondedShareExRate p
  | Unbonding => UnbondingShareExRate p
  | Bonded => BondedShareExRate p
  end.
Definition add_tokens (st : BondStatus) (p : Pool) (amount : Z) : outcome (Pool * PoolShares) :=
  match st with
  | Unbonded => addTokensUnbonded p amount
  | Unbonding => addTokensUnbonding p amount
  | Bonded => addTokensBonded p amount
  end.
Definition remove_shares (st : BondStatus) (p : Pool) (shares : Rat) : outcome (Pool * Z) :=
  match st with
  | Unbonded => removeSharesUnbonded p shares
  | Unbonding => removeSharesUnbonding p shares
  | Bonded => removeSharesBonded p shares
  end.

#[global] Create Rewrite HintDb pool.

(** The exchange rate as a rational number. *)
Definition rate (st : BondStatus) (p : Pool) : Q :=
  if Qeq_bool (shares_of st p) 0 then 1%Q else (inject_Z (tokens_of st p) / shares_of st p)%Q.

Lemma tokens_of_set st st' p s t :
  tokens_of st (set_of st' p s t) = if decide (st = st') then t else tokens_of st p.
Proof. by destruct st, st'. Qed.
Lemma shares_of_set st st' p s t :
  shares_of st (set_of st' p s t) = if decide (st = st') then s else shares_of st p.
Proof. by destruct st, st'. Qed.
Lemma tokens_of_loose st p l : tokens_of st (with_Loose p l) = tokens_of st p.
Proof. by destruct st. Qed.
Lemma shares_of_loose st p l : shares_of st (with_Loose p l) = shares_of st p.
Proof. by destruct st. Qed.
Lemma Loose_set st p s t : LooseTokens (set_of st p s t) = LooseTokens p.
Proof. by destruct st. Qed.
Lemma Loose_with p l : LooseTokens (with_Loose p l) = l.
Proof. done. Qed.
Lemma rate_loose st p l : rate st (with_Loose p l) = rate st p.
Proof. by destruct st. Qed.

#[export] Hint Rewrite tokens_of_set shares_of_set tokens_of_loose shares_of_loose Loose_set Loose_with
  rate_loose : pool.

Lemma ex_rate_spec st p : ex_rate st p = Ok (Qred (rate st p)).
Proof.
  assert (E : ex_rate st p = share_ex_rate (tokens_of st p) (shares_of st p)) by by destruct st.
  rewrite E. unfold share_ex_rate, rate. rewrite Rat.Rat_IsZero_spec.
  destruct (Qeq_bool (shares_of st p) 0) eqn:Es; [done|].
  cbn [Rat.NewRat Rat.big_SetFrac mbind outcome_bind]. rewrite Rat.Quo_spec, Es. f_equal.
  apply Qred_complete. rewrite Qred_correct. reflexivity.
Qed.

Lemma add_tokens_eq st p amount :
  add_tokens st p amount =
  if Qeq_bool (rate st p) 0 then Panicked (PanicString "division by zero")
  else
    let issued := Qred (inject_Z amount / rate st p) in
    let p' := with_Loose (set_of st p (Rat.Add (shares_of st p) issued) (wrap64 (tokens_of st p + amount)))
                (wrap64 (LooseTokens p - amount)) in
    if LooseTokens p' <? 0 then Panicked (PanicString "sanity check: loose tokens negative, pool: ")
    else Ok (p', mk_PoolShares st issued).
Proof.
  assert (E : add_tokens st p amount =
    (a ← Rat.NewRat amount []; r ← ex_rate st p; issued ← Rat.Quo a r;
     let p' := with_Loose (set_of st p (Rat.Add (shares_of st p) issued) (wrap64 (tokens_of st p + amount)))
                 (wrap64 (LooseTokens p - amount)) in
     sanity (negb (LooseTokens p' <? 0)) "loose tokens negative";; Ok (p', mk_PoolShares st issued)))
    by by destruct st.
  rewrite E, ex_rate_spec. cbn [Rat.NewRat Rat.big_SetFrac mbind outcome_bind].
  rewrite Rat.Quo_spec.
  replace (Qeq_bool (Qred (rate st p)) 0) with (Qeq_bool (rate st p) 0)
    by (apply eq_true_iff_eq; by rewrite !Qeq_bool_iff, Qred_correct).
  destruct (Qeq_bool (rate st p) 0); [done|].
  replace (Qred (Qred (amount # 1) / Qred (rate st p))) with (Qred (inject_Z amount / rate st p))
    by (apply Qred_complete; by rewrite !Qred_correct).
  cbn [mbind outcome_bind]. cbv zeta. unfold sanity. destruct (_ <? 0); reflexivity.
Qed.

Lemma remove_shares_eq st p shares :
  exists q, remove_shares st p shares =
  let removed := wrap64 (Rat.EvaluateBig (Rat.Mul (Qred (rate st p)) shares)) in
  let p' := with_Loose (set_of st p (Rat.Sub (shares_of st p) shares) (wrap64 (tokens_of st p - removed)))
              (wrap64 (LooseTokens p + removed)) in
  if UnbondedTokens p' <? 0 then Panicked (PanicString q) else Ok (p', removed).
Proof.
  assert (E : exists what, remove_shares st p shares =
    (r ← ex_rate st p;
     let removed := wrap64 (Rat.EvaluateBig (Rat.Mul r shares)) in
     let p' := with_Loose (set_of st p (Rat.Sub (shares_of st p) shares) (wrap64 (tokens_of st p - removed)))
              (wrap64 (LooseTokens p + removed)) in
     sanity (negb (UnbondedTokens p' <? 0)) what;; Ok (p', removed))).
  { destruct st; eexists; reflexivity. }
  destruct E as [what ->]. rewrite ex_rate_spec. eexists. cbn [mbind outcome_bind]. cbv zeta. unfold sanity.
  destruct (_ <? 0); reflexivity.
Qed.

(** ** Tokens only move between the parts *)

(** Wrapping at the end is enough. *)
Lemma wrap64_mod a b k : a = b + k * 2 ^ 64 -> wrap64 a = wrap64 b.
Proof.
  intros ->. unfold wrap64. f_equal.
  replace (b + k * 2 ^ 64 + 2 ^ 63) with (b + 2 ^ 63 + k * 2 ^ 64) by lia. by rewrite Z_mod_plus_full.
Qed.

Lemma wrap64_diff a : exists k, wrap64 a = a + k * 2 ^ 64.
Proof.
  unfold wrap64. exists (- ((a + 2 ^ 63) / 2 ^ 64)).
  pose proof (Z_div_mod_eq_full (a + 2 ^ 63) (2 ^ 64)). lia.
Qed.

(** Tokens moved between the loose ones and a status. *)
Lemma TokenSupply_move st p s n :
  TokenSupply (with_Loose (set_of st p s (wrap64 (tokens_of st p + n))) (wrap64 (LooseTokens p - n)))
  = TokenSupply p.
Proof.
  destruct (wrap64_diff (tokens_of st p + n)) as [k Hk], (wrap64_diff (LooseTokens p - n)) as [l Hl].
  unfold TokenSupply. rewrite Hk, Hl. apply (wrap64_mod _ _ (k + l)). destruct st; simpl; lia.
Qed.

Lemma add_tokens_supply st p amount p' s :
  add_tokens st p amount = Ok (p', s) -> TokenSupply p' = TokenSupply p.
Proof.
  rewrite add_tokens_eq. destruct (Qeq_bool _ 0); [done|]. cbv zeta.
  destruct (_ <? 0); [done|]. intros [= <- _]. apply TokenSupply_move.
Qed.

Lemma remove_shares_supply st p shares p' n :
  remove_shares st p shares = Ok (p', n) -> TokenSupply p' = TokenSupply p.
Proof.
  destruct (remove_shares_eq st p shares) as [q ->]. cbv zeta.
  generalize (wrap64 (Rat.EvaluateBig (Rat.Mul (Qred (rate st p)) shares))). intros r.
  destruct (_ <? 0); [done|]. intros [= <- _].
  pose proof (TokenSupply_move st p (Rat.Sub (shares_of st p) shares) (- r)) as H.
  by replace (tokens_of st p + - r) with (tokens_of st p - r) in H by lia;
    replace (LooseTokens p - - r) with (LooseTokens p + r) in H by lia.
Qed.

(** ** Pools that hold together *)

(** Nothing is negative, a part without shares has no tokens, the rationals
    are normalized and the supply fits an int64. *)
Record pool_ok (p : Pool) : Prop := mk_pool_ok {
  ok_loose : 0 <= LooseTokens p;
  ok_tokens : forall st, 0 <= tokens_of st p;
  ok_shares : forall st, (0 <= shares_of st p)%Q;
  ok_norm : forall st, Rat.is_norm (shares_of st p);
  ok_empty : forall st, (shares_of st p == 0)%Q -> tokens_of st p = 0;
  ok_supply : LooseTokens p + UnbondedTokens p + UnbondingTokens p + BondedTokens p <= max_int64
}.

Lemma pool_ok_supply_move p st s n :
  let p' := with_Loose (set_of st p s (tokens_of st p + n)) (LooseTokens p - n) in
  LooseTokens p' + UnbondedTokens p' + UnbondingTokens p' + BondedTokens p' =
  LooseTokens p + UnbondedTokens p + UnbondingTokens p + BondedTokens p.
Proof. destruct st; simpl; lia. Qed.

Lemma tokens_of_bound p st :
  pool_ok p -> LooseTokens p + tokens_of st p <= max_int64.
Proof.
  intros Hp. pose proof (ok_loose p Hp). pose proof (ok_supply p Hp).
  pose proof (ok_tokens p Hp Unbonded). pose proof (ok_tokens p Hp Unbonding).
  pose proof (ok_tokens p Hp Bonded). destruct st; simpl in *; lia.
Qed.

Lemma rate_nonneg p st : pool_ok p -> (0 <= rate st p)%Q.
Proof.
  intros Hp. unfold rate. destruct (Qeq_bool _ 0) eqn:E; [done|].
  apply Qeq_bool_neq in E. pose proof (ok_shares p Hp st) as Hs.
  apply Qle_shift_div_l.
  - destruct (Qle_lt_or_eq _ _ Hs) as [?|Hz]; [done|]. by symmetry in Hz.
  - rewrite Qmult_0_l. change 0%Q with (inject_Z 0). rewrite <- Zle_Qle. apply (ok_tokens p Hp).
Qed.

(** The rate times the shares is the tokens. *)
Lemma rate_shares p st : pool_ok p -> (rate st p * shares_of st p == inject_Z (tokens_of st p))%Q.
Proof.
  intros Hp. unfold rate. destruct (Qeq_bool _ 0) eqn:E.
  - apply Qeq_bool_iff in E. rewrite (ok_empty p Hp st E), E. reflexivity.
  - apply Qeq_bool_neq in E. field. exact E.
Qed.

(** A part that keeps its tokens and shares keeps its rate. *)
Lemma rate_unchanged st p p' :
  tokens_of st p' = tokens_of st p -> shares_of st p' = shares_of st p -> rate st p' = rate st p.
Proof. unfold rate. by intros -> ->. Qed.

(** The rate is determined by this equation when there are shares. *)
Lemma rate_unique p st r :
  ~ (shares_of st p == 0)%Q -> (r * shares_of st p == inject_Z (tokens_of st p))%Q -> (rate st p == r)%Q.
Proof.
  intros Hs Hr. unfold rate. destruct (Qeq_bool _ 0) eqn:E; [by apply Qeq_bool_iff in E|].
  rewrite <- Hr. field. exact Hs.
Qed.

Lemma is_norm_Add r s : Rat.is_norm (Rat.Add r s).
Proof. apply Rat.is_norm_Qred. Qed.
Lemma is_norm_Sub r s : Rat.is_norm (Rat.Sub r s).
Proof. apply Rat.is_norm_Qred. Qed.

(** Adding tokens succeeds, keeps the pool well formed and every rate. *)
Lemma add_tokens_ok p st amount :
  pool_ok p -> 0 <= amount <= LooseTokens p -> ~ (rate st p == 0)%Q ->
  let issued := Qred (inject_Z amount / rate st p) in
  let p' := with_Loose (set_of st p (Rat.Add (shares_of st p) issued) (tokens_of st p + amount))
              (LooseTokens p - amount) in
  add_tokens st p amount = Ok (p', mk_PoolShares st issued) /\ pool_ok p' /\
  (forall st', (rate st' p' == rate st' p)%Q).
Proof.
  intros Hp Ha Hr issued p'.
  pose proof (tokens_of_bound p st Hp) as Hb. pose proof (ok_tokens p Hp st) as Ht.
  assert (Hi : (0 <= issued)%Q).
  { unfold issued. rewrite Qred_correct. apply Qle_shift_div_l.
    - pose proof (rate_nonneg p st Hp) as H0.
      destruct (Qle_lt_or_eq _ _ H0) as [?|Hz]; [done|]. by symmetry in Hz.
    - rewrite Qmult_0_l. change 0%Q with (inject_Z 0). rewrite <- Zle_Qle. lia. }
  assert (Hri : (rate st p * issued == inject_Z amount)%Q).
  { unfold issued. rewrite Qred_correct. field. exact Hr. }
  assert (Hsum : (rate st p * shares_of st p' == inject_Z (tokens_of st p'))%Q).
  { unfold p'. autorewrite with pool. rewrite !decide_True by done. autorewrite with sdk.
    rewrite Rat.Add_eq, Qmult_plus_distr_r, (rate_shares p st Hp), Hri, inject_Z_plus. reflexivity. }
  split; [|split].
  - rewrite add_tokens_eq. destruct (Qeq_bool (rate st p) 0) eqn:E; [by apply Qeq_bool_iff in E|].
    cbv zeta. fold issued. autorewrite with pool. rewrite !wrap64_id by (unfold is_int64, min_int64, max_int64 in *; lia).
    destruct (Z.ltb_spec (LooseTokens p - amount) 0); [lia|done].
  - split.
    + simpl. lia.
    + intros st'. unfold p'. autorewrite with pool. pose proof (ok_tokens p Hp st').
      destruct (decide (st' = st)); lia.
    + intros st'. unfold p'. autorewrite with pool. destruct (decide (st' = st)); [|by apply ok_shares].
      rewrite Rat.Add_eq. pose proof (ok_shares p Hp st). rewrite <- (Qplus_0_r 0). by apply Qplus_le_compat.
    + intros st'. unfold p'. autorewrite with pool. destruct (decide (st' = st)); [apply is_norm_Add|by apply ok_norm].
    + intros st' Hz. destruct (decide (st' = st)) as [ -> |Hne].
      * apply inject_Z_injective. rewrite <- Hsum, Hz. apply Qmult_0_r.
      * unfold p' in *. autorewrite with pool in *. rewrite !decide_False in * by done. by apply ok_empty.
    + unfold p'. rewrite pool_ok_supply_move. by apply ok_supply.
  - intros st'. destruct (decide (st' = st)) as [ -> |Hne].
    + destruct (Qeq_dec (shares_of st p') 0) as [Hz|Hz]; [|by apply rate_unique].
      assert (H0 : (shares_of st p == 0)%Q).
      { unfold p' in Hz. autorewrite with pool in Hz. rewrite decide_True, Rat.Add_eq in Hz by done.
        pose proof (ok_shares p Hp st). apply Qle_antisym; [|done]. rewrite <- Hz.
        rewrite <- (Qplus_0_r (shares_of st p)) at 1. apply Qplus_le_compat; [apply Qle_refl|done]. }
      unfold rate. by rewrite !(proj2 (Qeq_bool_iff _ _)).
    + rewrite (rate_unchanged st' p p'); [reflexivity|..]; unfold p'; autorewrite with pool; by rewrite decide_False.
Qed.

(** Removing shares succeeds, keeps the pool well formed, and the tokens paid
    are the shares' worth to the nearest integer. *)
Lemma remove_shares_ok p st s :
  pool_ok p -> (0 <= s)%Q -> (s <= shares_of st p)%Q ->
  let n := Rat.EvaluateBig (Rat.Mul (Qred (rate st p)) s) in
  let p' := with_Loose (set_of st p (Rat.Sub (shares_of st p) s) (tokens_of st p - n)) (LooseTokens p + n) in
  remove_shares st p s = Ok (p', n) /\ pool_ok p' /\ 0 <= n <= tokens_of st p.
Proof.
  intros Hp Hs Hle n p'.
  pose proof (tokens_of_bound p st Hp) as Hb. pose proof (ok_tokens p Hp st) as Ht.
  pose proof (ok_loose p Hp) as Hl.
  assert (Hw : (Rat.Mul (Qred (rate st p)) s == rate st p * s)%Q) by (rewrite Rat.Mul_eq; by rewrite Qred_correct).
  pose proof (rate_nonneg p st Hp) as Hr.
  assert (Hn : 0 <= n <= tokens_of st p).
  { apply Rat.EvaluateBig_range; rewrite Hw.
    - change (inject_Z 0) with 0%Q. by apply Qmult_le_0_compat.
    - rewrite <- (rate_shares p st Hp). rewrite !(Qmult_comm (rate st p)). by apply Qmult_le_compat_r. }
  split; [|split; [|done]].
  - destruct (remove_shares_eq st p s) as [q ->]. cbv zeta. fold n.
    assert (Hi : forall z, -max_int64 <= z <= max_int64 -> wrap64 z = z).
    { intros z Hz. apply wrap64_id. unfold is_int64, min_int64, max_int64 in *. lia. }
    rewrite (Hi n), !Hi by lia. fold p'.
    destruct (Z.ltb_spec (UnbondedTokens p') 0) as [Hneg|]; [|done].
    pose proof (ok_tokens p Hp Unbonded). unfold p' in Hneg. destruct st; simpl in *; lia.
  - split.
    + simpl. lia.
    + intros st'. unfold p'. autorewrite with pool. pose proof (ok_tokens p Hp st').
      destruct (decide (st' = st)); lia.
    + intros st'. unfold p'. autorewrite with pool. destruct (decide (st' = st)); [|by apply ok_shares].
      rewrite Rat.Sub_eq. by apply Qle_minus_iff in Hle.
    + intros st'. unfold p'. autorewrite with pool. destruct (decide (st' = st)); [apply is_norm_Sub|by apply ok_norm].
    + intros st' Hz. destruct (decide (st' = st)) as [ -> |Hne].
      * unfold p' in *. autorewrite with pool in *. rewrite !decide_True in * by done.
        rewrite Rat.Sub_eq in Hz.
        assert (Es : (s == shares_of st p)%Q).
        { rewrite <- (Qplus_0_l s), <- Hz. ring. }
        assert (n = tokens_of st p); [|lia].
        apply Rat.EvaluateBig_Qeq. by rewrite Hw, Es, rate_shares.
      * unfold p' in *. autorewrite with pool in *. rewrite !decide_False in * by done. by apply ok_empty.
    + pose proof (pool_ok_supply_move p st (Rat.Sub (shares_of st p) s) (- n)) as H. cbv zeta in H.
      replace (tokens_of st p + - n) with (tokens_of st p - n) in H by lia.
      replace (LooseTokens p - - n) with (LooseTokens p + n) in H by lia.
      fold p' in H. rewrite H. by apply ok_supply.
Qed.

(** * x/stake/types/errors.go *)

Module StakeErrors.

Definition DefaultCodespace : CodespaceType := 4.
Definition CodeInvalidValidator : CodeType := 101.
Definition CodeInvalidDelegation : CodeType := 102.
Definition CodeInvalidInput : CodeType := 103.
Definition CodeValidatorJailed : CodeType := 104.

Section errors.
Context (codespace : CodespaceType).

Definition ErrNilValidatorAddr := NewError codespace CodeInvalidInput "validator address is nil".
Definition ErrNoValidatorFound := NewError codespace CodeInvalidValidator "validator does not exist for that address".
Definition ErrValidatorAlreadyExists :=
  NewError codespace CodeInvalidValidator "validator already exist, cannot re-create validator".
Definition ErrValidatorRevoked :=
  NewError codespace CodeInvalidValidator "validator for this address is currently revoked".
Definition ErrBadRemoveValidator := NewError codespace CodeInvalidValidator "error removing validator".
Definition ErrDescriptionLength (descriptor : string) (got max : Z) :=
  NewError codespace CodeInvalidValidator
    ("bad description length for " ++ descriptor ++ ", got length " ++ pretty got ++ ", max is " ++ pretty max).
Definition ErrCommissionNegative := NewError codespace CodeInvalidValidator "commission must be positive".
Definition ErrCommissionHuge := NewError codespace CodeInvalidValidator "commission cannot be more than 100%".

Definition ErrNilDelegatorAddr := NewError codespace CodeInvalidInput "delegator address is nil".
Definition ErrBadDenom := NewError codespace CodeInvalidDelegation "invalid coin denomination".
Definition ErrBadDelegationAmount := NewError codespace CodeInvalidDelegation "amount must be > 0".
Definition ErrNoDelegation :=
  NewError codespace CodeInvalidDelegation "no delegation for this (address, validator) pair".
Definition ErrBadDelegatorAddr :=
  NewError codespace CodeInvalidDelegation "delegator does not exist for that address".
Definition ErrNoDelegatorForAddress :=
  NewError codespace CodeInvalidDelegation "delegator does not contain this delegation".
Definition ErrInsufficientShares := NewError codespace CodeInvalidDelegation "insufficient delegation shares".
Definition ErrDelegationValidatorEmpty :=
  NewError codespace CodeInvalidDelegation "cannot delegate to an empty validator".
Definition ErrNotEnoughDelegationShares (shares : string) :=
  NewError codespace CodeInvalidDelegation ("not enough shares only have " ++ shares).
Definition ErrBadSharesAmount := NewError codespace CodeInvalidDelegation "shares must be > 0".
(** maximumBondingRationalDenominator is 10^8. *)
Definition ErrBadSharesPrecision :=
  NewError codespace CodeInvalidDelegation
    ("shares denominator must be < " ++ pretty (10 ^ 8)%Z ++ ", try reducing the number of decimal points").
Definition ErrBadSharesPercent := NewError codespace CodeInvalidDelegation "shares percent must be >0 and <=1".

Definition ErrNotMature (operation descriptor : string) (got min : Z) :=
  NewError codespace CodeUnauthorized
    (operation ++ " is not mature requires a min " ++ descriptor ++ " of " ++ pretty got ++
     ", currently it is " ++ pretty min).
Definition ErrNoUnbondingDelegation := NewError codespace CodeInvalidDelegation "no unbonding delegation found".
Definition ErrNoRedelegation := NewError codespace CodeInvalidDelegation "no redelegation found".
Definition ErrBadRedelegationDst := NewError codespace CodeInvalidDelegation "redelegation validator not found".
Definition ErrTransitiveRedelegation :=
  NewError codespace CodeInvalidDelegation
    "redelegation to this validator already in progress, first redelegation to this validator must complete before next redelegation".

Definition ErrBothShareMsgsGiven :=
  NewError codespace CodeInvalidInput "both shares amount and shares percent provided".
Definition ErrNeitherShareMsgsGiven :=
  NewError codespace CodeInvalidInput "neither shares amount nor shares percent provided".
Definition ErrMissingSignature := NewError codespace CodeInvalidValidator "missing signature".
End errors.
End StakeErrors.
