(* ===== verification/Validator.v ===== *)
(** * x/stake/types: validator.go, delegation.go

    Validators, their descriptions and their arithmetic on the pool; the
    records of delegations.  TM2PB, the conversion of a key to its protobuf
    form, is third-party; it panics on a key of an unknown type, nil among
    them.  A nil owner address is the empty one. *)
From Stdlib Require Import Strings.String.
From S2P Require Import Prelude Int Rational Errors Coin Account Context Auth Pool.
From Stdlib Require Import QArith Qreduction Qabs Lqa.
#[local] Open Scope string_scope.
#[local] Open Scope list_scope.
#[local] Open Scope Z_scope.

(** tmtypes.TM2PB. *)
Class TM2PB `{Crypto} := {
  PBPubKey : Type;
  TM2PB_PubKey : option PubKey -> outcome PBPubKey;
}.

(** The keys in use are of a known type. *)
Class TM2PBLaws `{TM2PB} : Prop := {
  TM2PB_ok : forall pk, exists b, TM2PB_PubKey (Some pk) = Ok b;
}.

(** ** Descriptions *)

Record Description := mk_Description {
  Moniker : string;
  Identity : string;
  Website : string;
  Details : string
}.

#[export] Instance Description_eq_dec : EqDecision Description.
Proof. solve_decision. Defined.

Definition NewDescription (moniker identity website details : string) : Description :=
  mk_Description moniker identity website details.

Definition str_len (s : string) : Z := Z.of_nat (String.length s).

Definition EnsureLength (d : Description) : Description * option sdkError :=
  let err := StakeErrors.ErrDescriptionLength StakeErrors.DefaultCodespace in
  if 70 <? str_len (Moniker d) then (d, Some (err "moniker" (str_len (Moniker d)) 70))
  else if 3000 <? str_len (Identity d) then (d, Some (err "identity" (str_len (Identity d)) 3000))
  else if 140 <? str_len (Website d) then (d, Some (err "website" (str_len (Website d)) 140))
  else if 280 <? str_len (Details d) then (d, Some (err "details" (str_len (Details d)) 280))
  else (d, None).

Definition do_not_modify : string := "[do-not-modify]".

(** It is the old text that is compared with the marker. *)
Definition UpdateDescription (d d2 : Description) : Description * option sdkError :=
  let keep (old new : string) := if decide (old = do_not_modify) then old else new in
  EnsureLength (mk_Description (keep (Moniker d) (Moniker d2)) (keep (Identity d) (Identity d2))
    (keep (Website d) (Website d2)) (keep (Details d) (Details d2))).

(** ** Validators *)

Section validator.
Context `{Crypto}.

Record Validator := mk_Validator {
  Owner : Address;
  val_PubKey : option PubKey;
  Revoked : bool;
  val_PoolShares : PoolShares;
  DelegatorShares : Rat;
  val_Description : Description;
  BondHeight : Z;
  BondIntraTxCounter : Z;      (* int16 *)
  ProposerRewardPool : Coins;
  Commission : Rat;
  CommissionMax : Rat;
  CommissionChangeRate : Rat;
  CommissionChangeToday : Rat;
  val_PrevBondedShares : Rat
}.

(** [Validator{}]. *)
Definition zero_Validator : Validator :=
  mk_Validator [] None false (mk_PoolShares Unbonded Rat.ZeroRat) Rat.ZeroRat (mk_Description "" "" "" "") 0 0 []
    Rat.ZeroRat Rat.ZeroRat Rat.ZeroRat Rat.ZeroRat Rat.ZeroRat.

Definition NewValidator (owner : Address) (pubKey : option PubKey) (description : Description) : Validator :=
  mk_Validator owner pubKey false (NewUnbondedShares Rat.ZeroRat) Rat.ZeroRat description 0 0 []
    Rat.ZeroRat Rat.ZeroRat Rat.ZeroRat Rat.ZeroRat Rat.ZeroRat.

(** Assignments to fields of a copy. *)
Definition with_shares (v : Validator) (s : PoolShares) (d : Rat) : Validator :=
  mk_Validator (Owner v) (val_PubKey v) (Revoked v) s d (val_Description v) (BondHeight v)
    (BondIntraTxCounter v) (ProposerRewardPool v) (Commission v) (CommissionMax v)
    (CommissionChangeRate v) (CommissionChangeToday v) (val_PrevBondedShares v).
Definition with_Revoked (v : Validator) (r : bool) : Validator :=
  mk_Validator (Owner v) (val_PubKey v) r (val_PoolShares v) (DelegatorShares v) (val_Description v) (BondHeight v)
    (BondIntraTxCounter v) (ProposerRewardPool v) (Commission v) (CommissionMax v)
    (CommissionChangeRate v) (CommissionChangeToday v) (val_PrevBondedShares v).
Definition with_Description (v : Validator) (d : Description) : Validator :=
  mk_Validator (Owner v) (val_PubKey v) (Revoked v) (val_PoolShares v) (DelegatorShares v) d (BondHeight v)
    (BondIntraTxCounter v) (ProposerRewardPool v) (Commission v) (CommissionMax v)
    (CommissionChangeRate v) (CommissionChangeToday v) (val_PrevBondedShares v).
Definition with_Bond (v : Validator) (height counter : Z) : Validator :=
  mk_Validator (Owner v) (val_PubKey v) (Revoked v) (val_PoolShares v) (DelegatorShares v) (val_Description v) height
    counter (ProposerRewardPool v) (Commission v) (CommissionMax v)
    (CommissionChangeRate v) (CommissionChangeToday v) (val_PrevBondedShares v).

Definition Validator_Equal (v c2 : Validator) : outcome bool :=
  match val_PubKey v with None => Panicked nil_pointer | Some pk => Ok
  (bool_decide (Some pk = val_PubKey c2) && bool_decide (Owner v = Owner c2) &&
  PoolShares_Equal (val_PoolShares v) (val_PoolShares c2) &&
  Rat.Equal (DelegatorShares v) (DelegatorShares c2) &&
  bool_decide (val_Description v = val_Description c2) &&
  IsEqual (ProposerRewardPool v) (ProposerRewardPool c2) &&
  Rat.Equal (Commission v) (Commission c2) && Rat.Equal (CommissionMax v) (CommissionMax c2) &&
  Rat.Equal (CommissionChangeRate v) (CommissionChangeRate c2) &&
  Rat.Equal (CommissionChangeToday v) (CommissionChangeToday c2) &&
  Rat.Equal (val_PrevBondedShares v) (val_PrevBondedShares c2))
  end.

(** wrsp.Validator. *)
Record WRSPVal `{!TM2PB} := mk_WRSPVal { wv_PubKey : PBPubKey; wv_Power : Z }.

Definition WRSPValidator `{!TM2PB} (v : Validator) : outcome WRSPVal :=
  pk ← TM2PB_PubKey (val_PubKey v);
  Ok (mk_WRSPVal _ pk (Rat.RoundInt64 (shares_Bonded (val_PoolShares v)))).
Definition WRSPValidatorZero `{!TM2PB} (v : Validator) : outcome WRSPVal :=
  pk ← TM2PB_PubKey (val_PubKey v); Ok (mk_WRSPVal _ pk 0).

Definition val_Status (v : Validator) : BondStatus := Status (val_PoolShares v).

Definition UpdateStatus (v : Validator) (pool : Pool) (NewStatus : BondStatus) : outcome (Validator * Pool) :=
  if decide (val_Status v = NewStatus) then Ok (v, pool) else
  '(pool, tokens) ← match val_Status v with
                    | Unbonded => removeSharesUnbonded pool (ps_Amount (val_PoolShares v))
                    | Unbonding => removeSharesUnbonding pool (ps_Amount (val_PoolShares v))
                    | Bonded => removeSharesBonded pool (ps_Amount (val_PoolShares v))
                    end;
  '(pool, shares) ← match NewStatus with
                    | Unbonded => addTokensUnbonded pool tokens
                    | Unbonding => addTokensUnbonding pool tokens
                    | Bonded => addTokensBonded pool tokens
                    end;
  Ok (with_shares v shares (DelegatorShares v), pool).

(** [v.PoolShares.Amount = a]. *)
Definition with_Amount (v : Validator) (a : Rat) : Validator :=
  with_shares v (mk_PoolShares (val_Status v) a) (DelegatorShares v).

Definition RemovePoolShares (v : Validator) (pool : Pool) (poolShares : Rat) : outcome (Validator * Pool * Z) :=
  '(pool, tokens) ← match val_Status v with
                    | Unbonded => removeSharesUnbonded pool poolShares
                    | Unbonding => removeSharesUnbonding pool poolShares
                    | Bonded => removeSharesBonded pool poolShares
                    end;
  Ok (with_Amount v (Rat.Sub (ps_Amount (val_PoolShares v)) poolShares), pool, tokens).

Definition EquivalentBondedShares (v : Validator) (pool : Pool) : outcome Rat :=
  s ← ToBonded (val_PoolShares v) pool; Ok (ps_Amount s).

Definition DelegatorShareExRate (v : Validator) (pool : Pool) : outcome Rat :=
  if Rat.IsZero (DelegatorShares v) then Ok Rat.OneRat else
  eqBondedShares ← ToBonded (val_PoolShares v) pool;
  Rat.Quo (ps_Amount eqBondedShares) (DelegatorShares v).

Definition AddTokensFromDel (v : Validator) (pool : Pool) (amount : Z) : outcome (Validator * Pool * Rat) :=
  exRate ← DelegatorShareExRate v pool;
  '(pool, poolShares) ← match val_Status v with
                        | Unbonded => addTokensUnbonded pool amount
                        | Unbonding => addTokensUnbonding pool amount
                        | Bonded => addTokensBonded pool amount
                        end;
  let v := with_Amount v (Rat.Add (ps_Amount (val_PoolShares v)) (ps_Amount poolShares)) in
  equivalentBondedShares ← ToBonded poolShares pool;
  issuedDelegatorShares ← Rat.Quo (ps_Amount equivalentBondedShares) exRate;
  Ok (with_shares v (val_PoolShares v) (Rat.Add (DelegatorShares v) issuedDelegatorShares), pool,
      issuedDelegatorShares).

Definition RemoveDelShares (v : Validator) (pool : Pool) (delShares : Rat) : outcome (Validator * Pool * Z) :=
  exRate ← DelegatorShareExRate v pool;
  let amount := Rat.Mul exRate delShares in
  let eqBondedSharesToRemove := NewBondedShares amount in
  let v := with_shares v (val_PoolShares v) (Rat.Sub (DelegatorShares v) delShares) in
  match val_Status v with
  | Unbonded =>
      unbondedShares ← ToUnbonded eqBondedSharesToRemove pool;
      '(pool, createdCoins) ← removeSharesUnbonded pool (ps_Amount unbondedShares);
      Ok (with_Amount v (Rat.Sub (ps_Amount (val_PoolShares v)) (ps_Amount unbondedShares)), pool, createdCoins)
  | Unbonding =>
      unbondingShares ← ToUnbonding eqBondedSharesToRemove pool;
      '(pool, createdCoins) ← removeSharesUnbonding pool (ps_Amount unbondingShares);
      Ok (with_Amount v (Rat.Sub (ps_Amount (val_PoolShares v)) (ps_Amount unbondingShares)), pool, createdCoins)
  | Bonded =>
      '(pool, createdCoins) ← removeSharesBonded pool (ps_Amount eqBondedSharesToRemove);
      Ok (with_Amount v (Rat.Sub (ps_Amount (val_PoolShares v)) (ps_Amount eqBondedSharesToRemove)), pool,
          createdCoins)
  end.

(** The getters of sdk.Validator. *)
Definition GetRevoked (v : Validator) : bool := Revoked v.
Definition GetMoniker (v : Validator) : string := Moniker (val_Description v).
Definition GetStatus (v : Validator) : BondStatus := val_Status v.
Definition GetOwner (v : Validator) : Address := Owner v.
Definition val_GetPubKey (v : Validator) : option PubKey := val_PubKey v.
Definition GetPower (v : Validator) : Rat := shares_Bonded (val_PoolShares v).
Definition GetDelegatorShares (v : Validator) : Rat := DelegatorShares v.
Definition GetBondHeight (v : Validator) : Z := BondHeight v.
End validator.

(** ** delegation.go *)

Record Delegation := mk_Delegation {
  del_DelegatorAddr : Address;
  del_ValidatorAddr : Address;
  del_Shares : Rat;
  del_Height : Z
}.

Definition Delegation_Equal (d d2 : Delegation) : bool :=
  bool_decide (del_DelegatorAddr d = del_DelegatorAddr d2) &&
  bool_decide (del_ValidatorAddr d = del_ValidatorAddr d2) &&
  (del_Height d =? del_Height d2) && Rat.Equal (del_Shares d) (del_Shares d2).

Record UnbondingDelegation := mk_UnbondingDelegation {
  ubd_DelegatorAddr : Address;
  ubd_ValidatorAddr : Address;
  ubd_CreationHeight : Z;
  ubd_MinTime : Z;
  ubd_InitialBalance : Coin;
  ubd_Balance : Coin
}.

Record Redelegation := mk_Redelegation {
  red_DelegatorAddr : Address;
  red_ValidatorSrcAddr : Address;
  red_ValidatorDstAddr : Address;
  red_CreationHeight : Z;
  red_MinTime : Z;
  red_InitialBalance : Coin;
  red_Balance : Coin;
  red_SharesSrc : Rat;
  red_SharesDst : Rat
}.

(** ** Worth of shares *)

(** What of the shares a validator has, and what has been issued on them. *)
Record val_ok `{Crypto} (v : Validator) (p : Pool) : Prop := mk_val_ok {
  vok_amount : (0 <= ps_Amount (val_PoolShares v))%Q;
  vok_pool : (ps_Amount (val_PoolShares v) <= shares_of (val_Status v) p)%Q;
  vok_norm : Rat.is_norm (ps_Amount (val_PoolShares v));
  vok_del : (0 <= DelegatorShares v)%Q;
  vok_del_norm : Rat.is_norm (DelegatorShares v);
  vok_empty : (DelegatorShares v == 0)%Q -> (ps_Amount (val_PoolShares v) == 0)%Q
}.

(** Bonded shares per share of a status. *)
Definition bonded_worth (st : BondStatus) (p : Pool) : Q := (rate st p / rate Bonded p)%Q.

Lemma Quo_ok a b : ~ (b == 0)%Q -> Rat.Quo a b = Ok (Qred (a / b)).
Proof.
  intros Hb. rewrite Rat.Quo_spec. destruct (Qeq_bool b 0) eqn:E; [|done].
  by apply Qeq_bool_iff in E.
Qed.

Lemma Qred_nz a : ~ (a == 0)%Q -> ~ (Qred a == 0)%Q.
Proof. by rewrite Qred_correct. Qed.

(** The conversions between shares of two statuses. *)
Lemma convert_ok st st' p (a : Rat) :
  ~ (rate st' p == 0)%Q ->
  exists b, (r ← ex_rate st p; r' ← ex_rate st' p; exRate ← Rat.Quo r r'; Ok (Rat.Mul a exRate)) = Ok b /\
    (b == a * (rate st p / rate st' p))%Q /\ Rat.is_norm b.
Proof.
  intros Hr. rewrite !ex_rate_spec. cbn [mbind outcome_bind].
  rewrite Quo_ok by by apply Qred_nz. cbn [mbind outcome_bind]. eexists. split; [done|].
  split; [|apply Rat.is_norm_Qred]. rewrite Rat.Mul_eq, !Qred_correct. reflexivity.
Qed.

Lemma ToBonded_ok s p :
  Rat.is_norm (ps_Amount s) -> ~ (rate Bonded p == 0)%Q ->
  exists a, ToBonded s p = Ok (NewUnbondedShares a) /\
    (a == ps_Amount s * bonded_worth (Status s) p)%Q /\ Rat.is_norm a.
Proof.
  intros Hn Hr. unfold ToBonded, bonded_worth. destruct s as [[] a]; cbn [Status ps_Amount] in *.
  - destruct (convert_ok Unbonded Bonded p a Hr) as (b & Hb & Eb & Hnb). cbn [ex_rate] in Hb. rewrite Hb. eauto.
  - destruct (convert_ok Unbonding Bonded p a Hr) as (b & Hb & Eb & Hnb). cbn [ex_rate] in Hb. rewrite Hb. eauto.
  - exists a. split; [done|]. split; [|done]. field. exact Hr.
Qed.

(** Bonded shares as shares of a validator's status, the switch of
    RemoveDelShares. *)
Definition from_bonded (st : BondStatus) (s : PoolShares) (p : Pool) : outcome PoolShares :=
  match st with Unbonded => ToUnbonded s p | Unbonding => ToUnbonding s p | Bonded => Ok s end.

Lemma from_bonded_ok st a p :
  Rat.is_norm a -> ~ (rate st p == 0)%Q -> ~ (rate Bonded p == 0)%Q ->
  exists s, from_bonded st (NewBondedShares a) p = Ok s /\
    (ps_Amount s * bonded_worth st p == a)%Q /\ Rat.is_norm (ps_Amount s).
Proof.
  intros Hn Hr HB. unfold bonded_worth. destruct st; simpl.
  - unfold ToUnbonded. destruct (convert_ok Bonded Unbonded p a Hr) as (b & Hb & Eb & Hnb).
    cbn [ex_rate NewBondedShares Status ps_Amount] in *. rewrite Hb. eexists. split; [done|]. split; [|done].
    cbn [ps_Amount NewUnbondedShares]. rewrite Eb. field. by split.
  - unfold ToUnbonding. destruct (convert_ok Bonded Unbonding p a Hr) as (b & Hb & Eb & Hnb).
    cbn [ex_rate NewBondedShares Status ps_Amount] in *. rewrite Hb. eexists. split; [done|]. split; [|done].
    cbn [ps_Amount NewUnbondingShares]. rewrite Eb. field. by split.
  - eexists. split; [done|]. split; [|done]. cbn [ps_Amount NewBondedShares]. field. exact HB.
Qed.

Section worth.
Context `{Crypto}.

(** The operations of a validator, over the operations of its status. *)
Lemma AddTokensFromDel_eq v p amount :
  AddTokensFromDel v p amount =
  (exRate ← DelegatorShareExRate v p;
   '(p, s) ← add_tokens (val_Status v) p amount;
   let v := with_Amount v (Rat.Add (ps_Amount (val_PoolShares v)) (ps_Amount s)) in
   e ← ToBonded s p;
   issued ← Rat.Quo (ps_Amount e) exRate;
   Ok (with_shares v (val_PoolShares v) (Rat.Add (DelegatorShares v) issued), p, issued)).
Proof. unfold AddTokensFromDel. by destruct (val_Status v). Qed.

Lemma RemoveDelShares_eq v p d :
  RemoveDelShares v p d =
  (exRate ← DelegatorShareExRate v p;
   s ← from_bonded (val_Status v) (NewBondedShares (Rat.Mul exRate d)) p;
   '(p, n) ← remove_shares (val_Status v) p (ps_Amount s);
   let v := with_shares v (val_PoolShares v) (Rat.Sub (DelegatorShares v) d) in
   Ok (with_Amount v (Rat.Sub (ps_Amount (val_PoolShares v)) (ps_Amount s)), p, n)).
Proof.
  unfold RemoveDelShares, val_Status. destruct v as [? ? ? [[] ?]]; reflexivity.
Qed.

(** The rate of a validator's delegator shares, in bonded shares. *)
Definition del_rate (v : Validator) (p : Pool) : Q :=
  if Qeq_bool (DelegatorShares v) 0 then 1%Q
  else (ps_Amount (val_PoolShares v) * bonded_worth (val_Status v) p / DelegatorShares v)%Q.

Lemma DelegatorShareExRate_ok v p :
  Rat.is_norm (ps_Amount (val_PoolShares v)) -> ~ (rate Bonded p == 0)%Q ->
  exists r, DelegatorShareExRate v p = Ok r /\ (r == del_rate v p)%Q.
Proof.
  intros Hn Hr. unfold DelegatorShareExRate, del_rate. rewrite Rat.Rat_IsZero_spec.
  destruct (Qeq_bool (DelegatorShares v) 0) eqn:E; [by eexists|].
  destruct (ToBonded_ok _ p Hn Hr) as (a & -> & Ha & _). cbn [mbind outcome_bind NewUnbondedShares ps_Amount].
  rewrite Quo_ok by by apply Qeq_bool_neq. eexists. split; [done|]. rewrite Qred_correct, Ha. reflexivity.
Qed.

Lemma del_rate_shares v p :
  ((DelegatorShares v == 0) -> (ps_Amount (val_PoolShares v) == 0))%Q ->
  (del_rate v p * DelegatorShares v == ps_Amount (val_PoolShares v) * bonded_worth (val_Status v) p)%Q.
Proof.
  intros Hz. unfold del_rate. destruct (Qeq_bool (DelegatorShares v) 0) eqn:E.
  - apply Qeq_bool_iff in E. rewrite (Hz E), E. ring.
  - apply Qeq_bool_neq in E. field. exact E.
Qed.

Lemma bonded_worth_nz st p :
  ~ (rate st p == 0)%Q -> ~ (rate Bonded p == 0)%Q -> ~ (bonded_worth st p == 0)%Q.
Proof.
  intros Hr HB Hz. apply Hr. unfold bonded_worth in Hz.
  transitivity ((rate st p / rate Bonded p) * rate Bonded p)%Q; [field; exact HB|]. rewrite Hz. ring.
Qed.

Lemma del_rate_nz v p :
  ~ (rate (val_Status v) p == 0)%Q -> ~ (rate Bonded p == 0)%Q ->
  ((ps_Amount (val_PoolShares v) == 0) -> (DelegatorShares v == 0))%Q ->
  ~ (del_rate v p == 0)%Q.
Proof.
  intros Hr HB Hps. unfold del_rate. destruct (Qeq_bool (DelegatorShares v) 0) eqn:E; [done|].
  apply Qeq_bool_neq in E. intros Hz. apply E, Hps.
  pose proof (bonded_worth_nz _ _ Hr HB) as Hw.
  apply (Qmult_inj_r _ 0 (bonded_worth (val_Status v) p)); [exact Hw|].
  transitivity (ps_Amount (val_PoolShares v) * bonded_worth (val_Status v) p / DelegatorShares v * DelegatorShares v)%Q;
    [field; exact E|]. rewrite Hz. ring.
Qed.

(** What delegating [amount] tokens to a validator gives: the pool shares they
    are worth, and as many delegator shares. *)
Definition del_pool (v : Validator) (p : Pool) (amount : Z) : Pool :=
  let st := val_Status v in
  with_Loose (set_of st p (Rat.Add (shares_of st p) (Qred (inject_Z amount / rate st p))) (tokens_of st p + amount))
    (LooseTokens p - amount).
Definition del_val (v : Validator) (p : Pool) (amount : Z) (issued : Rat) : Validator :=
  with_shares v
    (mk_PoolShares (val_Status v) (Rat.Add (ps_Amount (val_PoolShares v)) (Qred (inject_Z amount / rate (val_Status v) p))))
    (Rat.Add (DelegatorShares v) issued).

Lemma val_ok_loose v p l : val_ok v (with_Loose p l) <-> val_ok v p.
Proof. split; intros []; split; rewrite ?shares_of_loose in *; done. Qed.

Lemma Qdiv_nonneg a b : (0 <= a)%Q -> (0 <= b)%Q -> (0 <= a / b)%Q.
Proof. intros Ha Hb. unfold Qdiv. apply Qmult_le_0_compat; [done|by apply Qinv_le_0_compat]. Qed.

Lemma Qplus_nonneg a b : (0 <= a)%Q -> (0 <= b)%Q -> (0 <= a + b)%Q.
Proof. intros Ha Hb. rewrite <- (Qplus_0_r 0). by apply Qplus_le_compat. Qed.

Lemma bonded_worth_nonneg p st : pool_ok p -> (0 <= bonded_worth st p)%Q.
Proof. intros Hp. apply Qdiv_nonneg; by apply rate_nonneg. Qed.

Lemma del_rate_nonneg v p : pool_ok p -> val_ok v p -> (0 <= del_rate v p)%Q.
Proof.
  intros Hp Hv. unfold del_rate. destruct (Qeq_bool _ 0); [done|].
  apply Qdiv_nonneg; [|by apply vok_del with p].
  apply Qmult_le_0_compat; [by apply vok_amount with p|by apply bonded_worth_nonneg].
Qed.

Lemma AddTokensFromDel_ok v p amount :
  pool_ok p -> val_ok v p -> 0 <= amount <= LooseTokens p ->
  ~ (rate (val_Status v) p == 0)%Q -> ~ (rate Bonded p == 0)%Q ->
  ((ps_Amount (val_PoolShares v) == 0) -> (DelegatorShares v == 0))%Q ->
  exists issued,
    AddTokensFromDel v p amount = Ok (del_val v p amount issued, del_pool v p amount, issued) /\
    pool_ok (del_pool v p amount) /\ val_ok (del_val v p amount issued) (del_pool v p amount) /\
    (forall st, (rate st (del_pool v p amount) == rate st p)%Q) /\
    (issued * del_rate v p * rate Bonded p == inject_Z amount)%Q /\ Rat.is_norm issued.
Proof.
  intros Hp Hv Ha Hr HB Hps.
  destruct (DelegatorShareExRate_ok v p (vok_norm _ _ Hv) HB) as (ex & Hex & Eex).
  pose proof (del_rate_nz v p Hr HB Hps) as Hd. rewrite <- Eex in Hd.
  destruct (add_tokens_ok p (val_Status v) amount Hp Ha Hr) as (Hadd & Hp' & Hrates). cbv zeta in *.
  fold (del_pool v p amount) in *.
  set (i := Qred (inject_Z amount / rate (val_Status v) p)) in *.
  destruct (ToBonded_ok (mk_PoolShares (val_Status v) i) (del_pool v p amount)) as (e & He & Ee & _);
    [apply Rat.is_norm_Qred|by rewrite Hrates|].
  rewrite AddTokensFromDel_eq, Hex. cbn [mbind outcome_bind]. rewrite Hadd. cbn [mbind outcome_bind].
  cbv zeta. rewrite He. cbn [mbind outcome_bind NewUnbondedShares ps_Amount]. rewrite Quo_ok by done.
  cbn [mbind outcome_bind]. exists (Qred (e / ex)). split; [reflexivity|]. split; [done|].
  cbn [ps_Amount Status] in Ee.
  assert (Hbw : (bonded_worth (val_Status v) (del_pool v p amount) == bonded_worth (val_Status v) p)%Q).
  { unfold bonded_worth. by rewrite !Hrates. }
  rewrite Hbw in Ee. unfold i in Ee. rewrite Qred_correct in Ee.
  assert (Hiss : (Qred (e / ex) * del_rate v p * rate Bonded p == inject_Z amount)%Q).
  { rewrite Qred_correct, <- Eex, Ee. unfold bonded_worth. field. by split_and!. }
  assert (Hi0 : (0 <= i)%Q).
  { unfold i. rewrite Qred_correct. apply Qdiv_nonneg; [|by apply rate_nonneg].
    change 0%Q with (inject_Z 0). rewrite <- Zle_Qle. lia. }
  split; [|by split_and!; [..|apply Rat.is_norm_Qred]].
  assert (Hiss0 : (0 <= Qred (e / ex))%Q).
  { rewrite Qred_correct. apply Qdiv_nonneg; [|rewrite Eex; by apply del_rate_nonneg].
    rewrite Ee. apply Qmult_le_0_compat; [|by apply bonded_worth_nonneg].
    unfold i in Hi0. rewrite Qred_correct in Hi0. exact Hi0. }
  unfold del_val. fold i. destruct Hv as [Hv1 Hv2 Hv3 Hv4 Hv5 Hv6].
  split; cbn [val_PoolShares with_shares ps_Amount DelegatorShares val_Status Status].
  - rewrite Rat.Add_eq. by apply Qplus_nonneg.
  - unfold del_pool. fold i. autorewrite with pool. rewrite decide_True by done.
    rewrite !Rat.Add_eq. by apply Qplus_le_l.
  - apply is_norm_Add.
  - rewrite Rat.Add_eq. by apply Qplus_nonneg.
  - apply is_norm_Add.
  - rewrite !Rat.Add_eq. intros Hz.
    assert (Hz2 : (Qred (e / ex) == 0)%Q).
    { apply Qle_antisym; [|done]. rewrite <- Hz. rewrite <- (Qplus_0_l (Qred (e / ex))) at 1.
      apply Qplus_le_compat; [done|apply Qle_refl]. }
    assert (Hz1 : (DelegatorShares v == 0)%Q) by (rewrite Hz2, Qplus_0_r in Hz; exact Hz).
    rewrite (Hv6 Hz1). rewrite Hz2 in Hiss. unfold i. rewrite Qred_correct, <- Hiss. field. exact Hr.
Qed.

(** What removing delegator shares takes from a validator and from the pool:
    [s] pool shares, paid out as [n] tokens. *)
Definition undel_pool (v : Validator) (p : Pool) (s : Rat) (n : Z) : Pool :=
  let st := val_Status v in
  with_Loose (set_of st p (Rat.Sub (shares_of st p) s) (tokens_of st p - n)) (LooseTokens p + n).
Definition undel_val (v : Validator) (s d : Rat) : Validator :=
  with_shares v (mk_PoolShares (val_Status v) (Rat.Sub (ps_Amount (val_PoolShares v)) s)) (Rat.Sub (DelegatorShares v) d).

Lemma RemoveDelShares_ok v p d :
  pool_ok p -> val_ok v p -> (0 <= d)%Q -> (d <= DelegatorShares v)%Q ->
  ~ (rate (val_Status v) p == 0)%Q -> ~ (rate Bonded p == 0)%Q ->
  exists s n,
    RemoveDelShares v p d = Ok (undel_val v s d, undel_pool v p s n, n) /\
    (s * DelegatorShares v == ps_Amount (val_PoolShares v) * d)%Q /\ Rat.is_norm s /\
    n = Rat.EvaluateBig (Rat.Mul (Qred (rate (val_Status v) p)) s) /\
    0 <= n <= tokens_of (val_Status v) p /\
    pool_ok (undel_pool v p s n) /\ val_ok (undel_val v s d) (undel_pool v p s n).
Proof.
  intros Hp Hv Hd0 Hd Hr HB.
  destruct (DelegatorShareExRate_ok v p (vok_norm _ _ Hv) HB) as (ex & Hex & Eex).
  destruct (from_bonded_ok (val_Status v) (Rat.Mul ex d) p (Rat.is_norm_Qred _) Hr HB) as (s & Hs & Es & Hns).
  pose proof (bonded_worth_nz _ _ Hr HB) as Hw.
  rewrite Rat.Mul_eq, Eex in Es.
  pose proof (del_rate_shares v p (vok_empty _ _ Hv)) as Hds.
  assert (Hsd : (ps_Amount s * DelegatorShares v == ps_Amount (val_PoolShares v) * d)%Q).
  { apply (Qmult_inj_r _ _ (bonded_worth (val_Status v) p)); [exact Hw|].
    transitivity (ps_Amount s * bonded_worth (val_Status v) p * DelegatorShares v)%Q; [ring|]. rewrite Es.
    transitivity (del_rate v p * DelegatorShares v * d)%Q; [ring|]. rewrite Hds. ring. }
  assert (Hs0 : (0 <= ps_Amount s)%Q /\ (ps_Amount s <= ps_Amount (val_PoolShares v))%Q).
  { assert (Hq : (ps_Amount s == del_rate v p * d / bonded_worth (val_Status v) p)%Q).
    { rewrite <- Es. field. exact Hw. }
    pose proof (del_rate_nonneg v p Hp Hv) as Hdr. pose proof (bonded_worth_nonneg p (val_Status v) Hp) as Hbw.
    split; [rewrite Hq; apply Qdiv_nonneg; [by apply Qmult_le_0_compat|done]|].
    apply Qle_trans with (del_rate v p * DelegatorShares v / bonded_worth (val_Status v) p)%Q.
    - rewrite Hq. unfold Qdiv. apply Qmult_le_compat_r; [|by apply Qinv_le_0_compat].
      rewrite !(Qmult_comm (del_rate v p)). by apply Qmult_le_compat_r.
    - rewrite Hds. apply Qle_lteq. right. field. exact Hw. }
  destruct Hs0 as [Hs0 Hs1].
  destruct (remove_shares_ok p (val_Status v) (ps_Amount s) Hp Hs0) as (Hrem & Hp' & Hn).
  { eapply Qle_trans; [exact Hs1|]. by apply vok_pool. }
  cbv zeta in *. set (n := Rat.EvaluateBig (Rat.Mul (Qred (rate (val_Status v) p)) (ps_Amount s))) in *.
  fold (undel_pool v p (ps_Amount s) n) in *.
  exists (ps_Amount s), n. rewrite RemoveDelShares_eq, Hex. cbn [mbind outcome_bind].
  rewrite Hs. cbn [mbind outcome_bind]. rewrite Hrem. cbn [mbind outcome_bind].
  split; [reflexivity|]. split_and!; [done|done|done|lia|lia|done|].
  destruct Hv as [Hv1 Hv2 Hv3 Hv4 Hv5 Hv6]. unfold undel_val.
  split; cbn [val_PoolShares with_shares ps_Amount DelegatorShares val_Status Status].
  - rewrite Rat.Sub_eq. by apply Qle_minus_iff in Hs1.
  - unfold undel_pool. autorewrite with pool. rewrite decide_True by done. rewrite !Rat.Sub_eq.
    apply Qplus_le_compat; [done|apply Qle_refl].
  - apply is_norm_Sub.
  - rewrite Rat.Sub_eq. by apply Qle_minus_iff in Hd.
  - apply is_norm_Sub.
  - rewrite !Rat.Sub_eq. intros Hz.
    assert (Ed : (d == DelegatorShares v)%Q) by (rewrite <- (Qplus_0_l d), <- Hz; ring).
    destruct (Qeq_dec (DelegatorShares v) 0) as [H0|H0].
    + rewrite (Hv6 H0) in Hs1 |- *.
      assert (E0 : (ps_Amount s == 0)%Q) by by apply Qle_antisym. rewrite E0. reflexivity.
    + assert (E0 : (ps_Amount s == ps_Amount (val_PoolShares v))%Q).
      { rewrite Ed in Hsd. apply (Qmult_inj_r _ _ (DelegatorShares v)); done. }
      rewrite E0. ring.
Qed.

(** What changing the status of a validator gives: its pool shares are paid out
    as [n] tokens, which buy shares of the new status. *)
Definition moved_pool (v : Validator) (p : Pool) (st : BondStatus) (n : Z) : Pool :=
  let p1 := undel_pool v p (ps_Amount (val_PoolShares v)) n in
  with_Loose (set_of st p1 (Rat.Add (shares_of st p1) (Qred (inject_Z n / rate st p1))) (tokens_of st p1 + n))
    (LooseTokens p1 - n).
Definition moved_val (v : Validator) (p : Pool) (st : BondStatus) (n : Z) : Validator :=
  let p1 := undel_pool v p (ps_Amount (val_PoolShares v)) n in
  with_shares v (mk_PoolShares st (Qred (inject_Z n / rate st p1))) (DelegatorShares v).

(** The tokens the pool shares of a validator are worth. *)
Definition val_tokens (v : Validator) (p : Pool) : Z :=
  Rat.EvaluateBig (Rat.Mul (Qred (rate (val_Status v) p)) (ps_Amount (val_PoolShares v))).

Lemma UpdateStatus_same v p : UpdateStatus v p (val_Status v) = Ok (v, p).
Proof. unfold UpdateStatus. by rewrite decide_True. Qed.

Lemma rate_undel_other v p s n st : st <> val_Status v -> rate st (undel_pool v p s n) = rate st p.
Proof.
  intros Hne. unfold undel_pool. apply rate_unchanged; autorewrite with pool; by rewrite decide_False.
Qed.

Lemma UpdateStatus_ok v p st :
  pool_ok p -> val_ok v p -> st <> val_Status v -> ~ (rate st p == 0)%Q ->
  let n := val_tokens v p in
  UpdateStatus v p st = Ok (moved_val v p st n, moved_pool v p st n) /\
  pool_ok (moved_pool v p st n) /\ val_ok (moved_val v p st n) (moved_pool v p st n) /\
  0 <= n <= tokens_of (val_Status v) p.
Proof.
  intros Hp Hv Hne Hr n.
  destruct (remove_shares_ok p (val_Status v) _ Hp (vok_amount _ _ Hv) (vok_pool _ _ Hv)) as (Hrem & Hp1 & Hn).
  cbv zeta in *. change (Rat.EvaluateBig _) with n in *.
  fold (undel_pool v p (ps_Amount (val_PoolShares v)) n) in *.
  pose proof (rate_undel_other v p (ps_Amount (val_PoolShares v)) n st Hne) as Hr1.
  set (p1 := undel_pool v p (ps_Amount (val_PoolShares v)) n) in *.
  assert (Hl : 0 <= n <= LooseTokens p1).
  { unfold p1, undel_pool. rewrite Loose_with. pose proof (ok_loose p Hp). lia. }
  destruct (add_tokens_ok p1 st n Hp1 Hl) as (Hadd & Hp2 & _); [by rewrite Hr1|]. cbv zeta in *.
  assert (E : UpdateStatus v p st =
    ('(p, n) ← remove_shares (val_Status v) p (ps_Amount (val_PoolShares v));
     '(p, s) ← add_tokens st p n; Ok (with_shares v s (DelegatorShares v), p))).
  { unfold UpdateStatus. rewrite decide_False by done. by destruct (val_Status v), st. }
  rewrite E, Hrem. cbn [mbind outcome_bind]. rewrite Hadd. cbn [mbind outcome_bind].
  split; [reflexivity|]. split; [exact Hp2|]. split; [|done].
  assert (Hq : (0 <= Qred (inject_Z n / rate st p1))%Q).
  { rewrite Qred_correct. apply Qdiv_nonneg; [|by apply rate_nonneg].
    change 0%Q with (inject_Z 0). rewrite <- Zle_Qle. lia. }
  unfold moved_val, moved_pool. fold p1. destruct Hv as [Hv1 Hv2 Hv3 Hv4 Hv5 Hv6].
  split; cbn [val_PoolShares with_shares ps_Amount DelegatorShares val_Status Status].
  - done.
  - autorewrite with pool. rewrite decide_True by done. rewrite Rat.Add_eq.
    rewrite <- (Qplus_0_l (Qred _)) at 1. apply Qplus_le_compat; [by apply ok_shares|apply Qle_refl].
  - apply Rat.is_norm_Qred.
  - done.
  - done.
  - intros Hz. specialize (Hv6 Hz).
    assert (n = 0) as ->; [|by rewrite Qred_correct].
    apply Rat.EvaluateBig_Qeq. rewrite Rat.Mul_eq, Hv6. ring.
Qed.

(** Undoing a delegation. *)
Lemma issued_pos v p amount issued :
  pool_ok p -> val_ok v p -> 0 < amount <= LooseTokens p ->
  ~ (rate (val_Status v) p == 0)%Q -> ~ (rate Bonded p == 0)%Q ->
  ((ps_Amount (val_PoolShares v) == 0) -> (DelegatorShares v == 0))%Q ->
  (issued * del_rate v p * rate Bonded p == inject_Z amount)%Q -> (0 < issued)%Q.
Proof.
  intros Hp Hv Ha Hr HB Hps Hiss.
  assert (H0 : (0 <= del_rate v p * rate Bonded p)%Q)
    by (apply Qmult_le_0_compat; [by apply del_rate_nonneg|by apply rate_nonneg]).
  assert (Hpos : (0 < del_rate v p * rate Bonded p)%Q).
  { destruct (Qle_lt_or_eq _ _ H0) as [?|Hz]; [done|]. symmetry in Hz.
    apply Qmult_integral in Hz as [Hz|Hz]; [by apply del_rate_nz in Hz|done]. }
  apply (Qmult_lt_r _ _ (del_rate v p * rate Bonded p)); [exact Hpos|].
  rewrite Qmult_0_l, Qmult_assoc, Hiss. change 0%Q with (inject_Z 0). rewrite <- Zlt_Qlt. lia.
Qed.

Lemma undel_shares v p amount issued s :
  val_ok v p -> ~ (rate (val_Status v) p == 0)%Q -> ~ (rate Bonded p == 0)%Q -> (0 < issued)%Q ->
  (issued * del_rate v p * rate Bonded p == inject_Z amount)%Q ->
  (s * DelegatorShares (del_val v p amount issued) ==
   ps_Amount (val_PoolShares (del_val v p amount issued)) * issued)%Q ->
  (s == Qred (inject_Z amount / rate (val_Status v) p))%Q.
Proof.
  intros Hv Hr HB Hi0 Hiss Hs. rewrite Qred_correct.
  unfold del_val in Hs. cbn [DelegatorShares val_PoolShares with_shares ps_Amount] in Hs.
  rewrite !Rat.Add_eq, Qred_correct in Hs.
  pose proof (del_rate_shares v p (vok_empty _ _ Hv)) as Hds. pose proof (vok_del _ _ Hv) as Hd0.
  assert (Hw : (bonded_worth (val_Status v) p * rate Bonded p == rate (val_Status v) p)%Q).
  { unfold bonded_worth. field. exact HB. }
  assert (Hz : ~ (DelegatorShares v + issued == 0)%Q).
  { intros Hz. lra. }
  apply (Qmult_inj_r _ _ (DelegatorShares v + issued)); [exact Hz|]. rewrite Hs.
  assert (Hdk : (DelegatorShares v * (del_rate v p * rate Bonded p) ==
    ps_Amount (val_PoolShares v) * rate (val_Status v) p)%Q).
  { transitivity (del_rate v p * DelegatorShares v * rate Bonded p)%Q; [ring|]. rewrite Hds, <- Hw. ring. }
  rewrite <- Hiss.
  assert (Hps : (ps_Amount (val_PoolShares v) ==
    DelegatorShares v * (del_rate v p * rate Bonded p) / rate (val_Status v) p)%Q).
  { rewrite Hdk. field. exact Hr. }
  rewrite Hps. field. exact Hr.
Qed.

Lemma Sub_Add_norm a b : Rat.is_norm a -> Rat.Sub (Rat.Add a b) b = a.
Proof. intros Ha. apply Rat.norm_eq; [apply is_norm_Sub|done|]. rewrite Rat.Sub_eq, Rat.Add_eq. ring. Qed.

Lemma undel_del_val v p amount issued :
  val_ok v p ->
  undel_val (del_val v p amount issued) (Qred (inject_Z amount / rate (val_Status v) p)) issued = v.
Proof.
  intros Hv. unfold undel_val, del_val. cbn [val_PoolShares with_shares ps_Amount DelegatorShares val_Status Status].
  rewrite !Sub_Add_norm by apply Hv. by destruct v as [? ? ? []].
Qed.

Lemma undel_del_pool v p amount issued :
  pool_ok p ->
  undel_pool (del_val v p amount issued) (del_pool v p amount)
    (Qred (inject_Z amount / rate (val_Status v) p)) amount = p.
Proof.
  intros Hp. unfold undel_pool, del_pool. change (val_Status (del_val v p amount issued)) with (val_Status v).
  autorewrite with pool. rewrite !decide_True by done.
  rewrite Sub_Add_norm by by apply ok_norm.
  destruct p, (val_Status v); unfold with_Loose; simpl; unfold with_Unbonded, with_Unbonding, with_Bonded; simpl;
    f_equal; lia.
Qed.

Lemma TokenSupply_undel v p s n : TokenSupply (undel_pool v p s n) = TokenSupply p.
Proof. unfold undel_pool, TokenSupply. f_equal. destruct (val_Status v); simpl; lia. Qed.

Lemma TokenSupply_moved v p st n :
  TokenSupply (moved_pool v p st n) = TokenSupply (undel_pool v p (ps_Amount (val_PoolShares v)) n).
Proof. unfold moved_pool, TokenSupply. f_equal. destruct st; simpl; lia. Qed.

(** After a move the validator's shares are worth the tokens moved. *)
Lemma moved_worth v p st n :
  pool_ok p -> val_ok v p -> st <> val_Status v -> ~ (rate st p == 0)%Q -> n = val_tokens v p ->
  (rate st (moved_pool v p st n) * ps_Amount (val_PoolShares (moved_val v p st n)) == inject_Z n)%Q.
Proof.
  intros Hp Hv Hne Hr ->. set (n := val_tokens v p).
  destruct (remove_shares_ok p (val_Status v) _ Hp (vok_amount _ _ Hv) (vok_pool _ _ Hv)) as (_ & Hp1 & Hn).
  cbv zeta in *. change (Rat.EvaluateBig _) with n in *.
  fold (undel_pool v p (ps_Amount (val_PoolShares v)) n) in *.
  pose proof (rate_undel_other v p (ps_Amount (val_PoolShares v)) n st Hne) as Hr1.
  destruct (add_tokens_ok (undel_pool v p (ps_Amount (val_PoolShares v)) n) st n Hp1) as (_ & _ & Hrates).
  { unfold undel_pool. rewrite Loose_with. pose proof (ok_loose p Hp). lia. }
  { by rewrite Hr1. }
  cbv zeta in Hrates. unfold moved_pool. rewrite (Hrates st), Hr1. unfold moved_val.
  cbn [val_PoolShares with_shares ps_Amount]. rewrite Qred_correct, Hr1. field. exact Hr.
Qed.
End worth.

(** ** Properties *)

(** C11: undelegating the shares a delegation was issued pays back exactly the
    delegated tokens and restores the validator and the pool, whatever the
    validator's status and the exchange rates. *)
Theorem delegate_undelegate_roundtrip `{Crypto} (v : Validator) (p : Pool) (amount : Z)
    (Hp : pool_ok p) (Hv : val_ok v p) (Ha : 0 < amount <= LooseTokens p)
    (Hr : ~ (rate (val_Status v) p == 0)%Q) (HB : ~ (rate Bonded p == 0)%Q)
    (Hps : (ps_Amount (val_PoolShares v) == 0)%Q -> (DelegatorShares v == 0)%Q) :
  exists v' p' issued,
    AddTokensFromDel v p amount = Ok (v', p', issued) /\
    RemoveDelShares v' p' issued = Ok (v, p, amount).
Proof.
  destruct (AddTokensFromDel_ok v p amount Hp Hv ltac:(lia) Hr HB Hps)
    as (issued & Hadd & Hp' & Hv' & Hrates & Hiss & Hni).
  exists (del_val v p amount issued), (del_pool v p amount), issued. split; [exact Hadd|].
  pose proof (issued_pos v p amount issued Hp Hv Ha Hr HB Hps Hiss) as Hi0.
  pose proof (vok_del _ _ Hv) as Hd0.
  destruct (RemoveDelShares_ok (del_val v p amount issued) (del_pool v p amount) issued Hp' Hv')
    as (s & n & Hrem & Hs & Hns & En & Hn & _ & _).
  { by apply Qlt_le_weak. }
  { unfold del_val. cbn [DelegatorShares with_shares]. rewrite Rat.Add_eq.
    rewrite <- (Qplus_0_l issued) at 1. apply Qplus_le_compat; [done|apply Qle_refl]. }
  { change (val_Status (del_val v p amount issued)) with (val_Status v). by rewrite Hrates. }
  { by rewrite Hrates. }
  change (val_Status (del_val v p amount issued)) with (val_Status v) in *.
  assert (Esi : s = Qred (inject_Z amount / rate (val_Status v) p)).
  { apply Rat.norm_eq; [done|apply Rat.is_norm_Qred|]. by apply (undel_shares v p amount issued s). }
  assert (Ean : n = amount).
  { rewrite En. apply Rat.EvaluateBig_Qeq. rewrite Rat.Mul_eq, Qred_correct, Hrates, Esi, Qred_correct.
    field. exact Hr. }
  rewrite Hrem, Ean, Esi. by rewrite undel_del_val, undel_del_pool.
Qed.

(** removing delegator shares always succeeds on a well-formed state and
    pays the delegator's fraction of the validator's tokens, to the nearest
    integer; the tokens come out of the validator's part of the pool and the
    total supply stays what it was. *)
Theorem RemoveDelShares_pro_rata `{Crypto} (v : Validator) (p : Pool) (d : Rat)
    (Hp : pool_ok p) (Hv : val_ok v p) (Hd0 : (0 <= d)%Q) (Hd : (d <= DelegatorShares v)%Q)
    (Hr : ~ (rate (val_Status v) p == 0)%Q) (HB : ~ (rate Bonded p == 0)%Q)
    (Hpos : ~ (DelegatorShares v == 0)%Q) :
  exists v' p' n,
    RemoveDelShares v p d = Ok (v', p', n) /\
    (Qabs (rate (val_Status v) p * ps_Amount (val_PoolShares v) * (d / DelegatorShares v) - inject_Z n) <= 1 # 2)%Q /\
    LooseTokens p' = LooseTokens p + n /\
    tokens_of (val_Status v) p' = tokens_of (val_Status v) p - n /\
    TokenSupply p' = TokenSupply p /\
    (DelegatorShares v' == DelegatorShares v - d)%Q /\
    pool_ok p' /\ val_ok v' p'.
Proof.
  destruct (RemoveDelShares_ok v p d Hp Hv Hd0 Hd Hr HB) as (s & n & Hrem & Hs & Hns & En & Hn & Hp' & Hv').
  exists (undel_val v s d), (undel_pool v p s n), n. split; [exact Hrem|]. split; [|split_and!].
  - assert (Ew : (Rat.Mul (Qred (rate (val_Status v) p)) s ==
      rate (val_Status v) p * ps_Amount (val_PoolShares v) * (d / DelegatorShares v))%Q).
    { rewrite Rat.Mul_eq, Qred_correct.
      transitivity (rate (val_Status v) p * (s * DelegatorShares v) / DelegatorShares v)%Q; [field; exact Hpos|].
      rewrite Hs. field. exact Hpos. }
    rewrite <- Ew, En. apply Rat.EvaluateBig_dist.
  - reflexivity.
  - unfold undel_pool. autorewrite with pool. by rewrite decide_True.
  - apply TokenSupply_undel.
  - unfold undel_val. cbn [DelegatorShares with_shares]. apply Rat.Sub_eq.
  - done.
  - done.
Qed.

(** changing a validator's status neither creates nor loses tokens: the
    supply, the loose tokens and the third part of the pool stay, the
    validator's tokens move from one part to the other, and its new shares are
    worth exactly the integer nearest to what its old ones were worth. *)
Theorem UpdateStatus_conserves `{Crypto} (v : Validator) (p : Pool) (st : BondStatus)
    (Hp : pool_ok p) (Hv : val_ok v p) (Hne : st <> val_Status v) (Hr : ~ (rate st p == 0)%Q) :
  exists v' p' n,
    UpdateStatus v p st = Ok (v', p') /\ val_Status v' = st /\ pool_ok p' /\ val_ok v' p' /\
    TokenSupply p' = TokenSupply p /\ LooseTokens p' = LooseTokens p /\
    tokens_of (val_Status v) p' = tokens_of (val_Status v) p - n /\ tokens_of st p' = tokens_of st p + n /\
    (forall st', st' <> st -> st' <> val_Status v ->
       tokens_of st' p' = tokens_of st' p /\ shares_of st' p' = shares_of st' p) /\
    (rate st p' * ps_Amount (val_PoolShares v') == inject_Z n)%Q /\
    (Qabs (rate (val_Status v) p * ps_Amount (val_PoolShares v) - inject_Z n) <= 1 # 2)%Q.
Proof.
  destruct (UpdateStatus_ok v p st Hp Hv Hne Hr) as (Hup & Hp' & Hv' & Hn).
  set (n := val_tokens v p) in *. exists (moved_val v p st n), (moved_pool v p st n), n.
  split; [exact Hup|]. split; [reflexivity|]. split; [done|]. split; [done|].
  pose proof (TokenSupply_undel v p (ps_Amount (val_PoolShares v)) n) as Hs1.
  split_and!.
  - rewrite <- Hs1. apply TokenSupply_moved.
  - unfold moved_pool, undel_pool. autorewrite with pool. lia.
  - unfold moved_pool, undel_pool. autorewrite with pool. rewrite decide_False, decide_True by done. done.
  - unfold moved_pool, undel_pool. autorewrite with pool. rewrite decide_True, decide_False by done. done.
  - intros st' H1 H2. unfold moved_pool, undel_pool. autorewrite with pool. by rewrite !decide_False.
  - by apply moved_worth.
  - assert (Ew : (Rat.Mul (Qred (rate (val_Status v) p)) (ps_Amount (val_PoolShares v)) ==
      rate (val_Status v) p * ps_Amount (val_PoolShares v))%Q) by (rewrite Rat.Mul_eq, Qred_correct; reflexivity).
    rewrite <- Ew. apply Rat.EvaluateBig_dist.
Qed.

(** a validator whose pool shares have all been slashed while its
    delegations remain can never be delegated to again: the division by its
    exchange rate of zero panics. *)
Theorem slashed_validator_delegate_panics `{Crypto} (v : Validator) (p : Pool) (amount : Z)
    (Hp : pool_ok p) (Ha : 0 <= amount <= LooseTokens p)
    (Hr : ~ (rate (val_Status v) p == 0)%Q) (HB : ~ (rate Bonded p == 0)%Q)
    (Hz : ps_Amount (val_PoolShares v) = Rat.ZeroRat) (Hd : ~ (DelegatorShares v == 0)%Q) :
  AddTokensFromDel v p amount = Panicked (PanicString "division by zero").
Proof.
  destruct (DelegatorShareExRate_ok v p) as (ex & Hex & Eex); [by rewrite Hz|done|].
  rewrite AddTokensFromDel_eq, Hex. cbn [mbind outcome_bind].
  destruct (add_tokens_ok p (val_Status v) amount Hp Ha Hr) as (Hadd & _ & Hrates). cbv zeta in Hadd.
  rewrite Hadd. cbn [mbind outcome_bind]. cbv zeta. fold (del_pool v p amount) in *.
  destruct (ToBonded_ok (mk_PoolShares (val_Status v) (Qred (inject_Z amount / rate (val_Status v) p)))
    (del_pool v p amount)) as (e & He & _); [apply Rat.is_norm_Qred| |].
  { unfold del_pool. by rewrite Hrates. }
  rewrite He. cbn [mbind outcome_bind]. rewrite Rat.Quo_spec.
  assert (E0 : (ex == 0)%Q).
  { rewrite Eex. unfold del_rate. destruct (Qeq_bool _ 0) eqn:E; [by apply Qeq_bool_iff in E|].
    rewrite Hz. unfold Rat.ZeroRat. rewrite Qred_correct. field. exact Hd. }
  apply Qeq_bool_iff in E0. by rewrite E0.
Qed.

(** ** Witnesses *)

(** A pool with a rate of 5/4 for unbonded shares and 3/2 for bonded ones. *)
Definition ex_pool : Pool :=
  mk_Pool 100 10 0 30 (8 # 1) (0 # 1) (20 # 1) 0 (7 # 100) 0 (0 # 1).

Lemma ex_pool_ok : pool_ok ex_pool.
Proof.
  split; [done|intros []; done|intros []; done|intros []; reflexivity| |done].
  intros []; [intros Hz; discriminate Hz|done|intros Hz; discriminate Hz].
Qed.

Definition ex_val `{Crypto} (pk : PubKey) (st : BondStatus) (amount shares : Rat) : Validator :=
  with_shares (NewValidator [Byte.x07] (Some pk) (NewDescription "m" "" "" "")) (mk_PoolShares st amount) shares.

Lemma ex_val_ok `{Crypto} (pk : PubKey) (st : BondStatus) :
  st <> Unbonding -> val_ok (ex_val pk st (4 # 1) (3 # 1)) ex_pool.
Proof. intros Hst. split; [done|destruct st; done|done|done|done|]. intros Hz. discriminate Hz. Qed.

Lemma ex_rate_nz st : ~ (rate st ex_pool == 0)%Q.
Proof. destruct st; intros Hz; discriminate Hz. Qed.

Lemma delegate_undelegate_roundtrip_witness :
  exists v' p' issued,
    AddTokensFromDel (H:=model_Crypto) (ex_val (H:=model_Crypto) [Byte.x01] Unbonded (4 # 1) (3 # 1)) ex_pool 7
      = Ok (v', p', issued) /\
    RemoveDelShares (H:=model_Crypto) v' p' issued
      = Ok (ex_val (H:=model_Crypto) [Byte.x01] Unbonded (4 # 1) (3 # 1), ex_pool, 7).
Proof.
  apply (delegate_undelegate_roundtrip (H:=model_Crypto)).
  - exact ex_pool_ok.
  - apply (ex_val_ok (H:=model_Crypto)). discriminate.
  - vm_compute. split; [reflexivity|discriminate].
  - apply ex_rate_nz.
  - apply ex_rate_nz.
  - intros Hz. discriminate Hz.
Defined.

Lemma RemoveDelShares_pro_rata_witness :
  exists v' p' n,
    RemoveDelShares (H:=model_Crypto) (ex_val (H:=model_Crypto) [Byte.x01] Bonded (4 # 1) (3 # 1)) ex_pool (1 # 1)
      = Ok (v', p', n) /\ TokenSupply p' = TokenSupply ex_pool.
Proof.
  destruct (RemoveDelShares_pro_rata (H:=model_Crypto)
    (ex_val (H:=model_Crypto) [Byte.x01] Bonded (4 # 1) (3 # 1)) ex_pool (1 # 1)) as (v' & p' & n & E & _ & _ & _ & Hs & _).
  - exact ex_pool_ok.
  - apply (ex_val_ok (H:=model_Crypto)). discriminate.
  - discriminate.
  - discriminate.
  - apply ex_rate_nz.
  - apply ex_rate_nz.
  - intros Hz. discriminate Hz.
  - exists v', p', n. split; [exact E|exact Hs].
Defined.

Lemma UpdateStatus_conserves_witness :
  exists v' p',
    UpdateStatus (H:=model_Crypto) (ex_val (H:=model_Crypto) [Byte.x01] Unbonded (4 # 1) (3 # 1)) ex_pool Bonded
      = Ok (v', p') /\ TokenSupply p' = TokenSupply ex_pool.
Proof.
  destruct (UpdateStatus_conserves (H:=model_Crypto)
    (ex_val (H:=model_Crypto) [Byte.x01] Unbonded (4 # 1) (3 # 1)) ex_pool Bonded) as (v' & p' & n & E & _ & _ & _ & Hs & _).
  - exact ex_pool_ok.
  - apply (ex_val_ok (H:=model_Crypto)). discriminate.
  - discriminate.
  - apply ex_rate_nz.
  - exists v', p'. split; [exact E|exact Hs].
Defined.

Lemma slashed_validator_delegate_panics_witness :
  AddTokensFromDel (H:=model_Crypto) (ex_val (H:=model_Crypto) [Byte.x01] Bonded Rat.ZeroRat (3 # 1)) ex_pool 7
    = Panicked (PanicString "division by zero").
Proof.
  apply (slashed_validator_delegate_panics (H:=model_Crypto)).
  - exact ex_pool_ok.
  - vm_compute. split; discriminate.
  - apply ex_rate_nz.
  - apply ex_rate_nz.
  - reflexivity.
  - intros Hz. discriminate Hz.
Defined.
