(* ===== verification/StakeKey.v ===== *)
(** * x/stake/keeper/key.go: the keys of the staking store

    Every record of the staking module is under a one-byte prefix.  The amino
    encoding of an address inside a key is third-party ([AddrCodec]); it is
    length-prefixed, which is what makes the composite keys injective. *)
From Stdlib Require Import Strings.Byte Strings.String.
From stdpp Require Import pretty.
From S2P Require Import Prelude Names Int Rational Errors Coin Account Context Auth Pool Validator.
From Stdlib Require Import QArith.
#[local] Open Scope string_scope.
#[local] Open Scope list_scope.
#[local] Open Scope Z_scope.

Class AddrCodec := { MarshalAddress : Address -> option bytes }.   (* MarshalBinary(&addr) *)

(** A length-prefixed encoding: total, and none is a prefix of another. *)
Class AddrCodecLaws `{AddrCodec} : Prop := {
  MarshalAddress_total : forall a, is_Some (MarshalAddress a);
  MarshalAddress_prefix_free : forall a b x y ax bx,
    MarshalAddress a = Some ax -> MarshalAddress b = Some bx -> ax ++ x = bx ++ y -> a = b /\ x = y;
}.

(** ** Prefixes *)

Definition ParamKey : bytes := [Byte.x00].
Definition PoolKey : bytes := [Byte.x01].
Definition ValidatorsKey : bytes := [Byte.x02].
Definition ValidatorsByPubKeyIndexKey : bytes := [Byte.x03].
Definition ValidatorsBondedIndexKey : bytes := [Byte.x04].
Definition ValidatorsByPowerIndexKey : bytes := [Byte.x05].
Definition ValidatorCliffIndexKey : bytes := [Byte.x06].
Definition ValidatorPowerCliffKey : bytes := [Byte.x07].
Definition TendermintUpdatesKey : bytes := [Byte.x08].
Definition IntraTxCounterKey : bytes := [Byte.x09].
Definition DelegationKey : bytes := [Byte.x0a].
Definition UnbondingDelegationKey : bytes := [Byte.x0b].
Definition UnbondingDelegationByValIndexKey : bytes := [Byte.x0c].
Definition RedelegationKey : bytes := [Byte.x0d].
Definition RedelegationByValSrcIndexKey : bytes := [Byte.x0e].
Definition RedelegationByValDstIndexKey : bytes := [Byte.x0f].

Definition maxDigitsForAccount : Z := 12.

(** [^uint64(z)] and [^uint16(z)]. *)
Definition not_uint64 (z : Z) : Z := 2 ^ 64 - 1 - wrapu64 z.
Definition not_uint16 (z : Z) : Z := 2 ^ 16 - 1 - wrapu16 z.

Section keys.
Context `{Crypto}.

Definition GetValidatorKey (ownerAddr : Address) : bytes := ValidatorsKey ++ ownerAddr.
Definition GetValidatorByPubKeyIndexKey (pubkey : option PubKey) : outcome bytes :=
  match pubkey with
  | None => Panicked nil_pointer
  | Some pubkey => Ok (ValidatorsByPubKeyIndexKey ++ PubKey_Bytes pubkey)
  end.
Definition GetValidatorsBondedIndexKey (ownerAddr : Address) : bytes := ValidatorsBondedIndexKey ++ ownerAddr.

Definition GetValidatorPowerRank (validator : Validator) (pool : Pool) : outcome bytes :=
  power ← EquivalentBondedShares validator pool;
  let powerBytes := string_bytes (Rat.ToLeftPadded power maxDigitsForAccount) in
  let revokedBytes := if Revoked validator then [Byte.x01] else [Byte.x00] in
  (* ten bytes, of which PutUint64 writes eight *)
  let heightBytes := be_bytes 8 (not_uint64 (BondHeight validator)) ++ [Byte.x00; Byte.x00] in
  let counterBytes := be_bytes 2 (not_uint16 (BondIntraTxCounter validator)) in
  Ok (ValidatorsByPowerIndexKey ++ (revokedBytes ++ (powerBytes ++ (heightBytes ++ counterBytes)))).

Definition GetValidatorsByPowerIndexKey (validator : Validator) (pool : Pool) : outcome bytes :=
  GetValidatorPowerRank validator pool.

Definition GetTendermintUpdatesKey (ownerAddr : Address) : bytes := TendermintUpdatesKey ++ ownerAddr.
End keys.

Section composite.
Context `{AddrCodec}.

Definition MustMarshalAddress (a : Address) : outcome bytes := must (MarshalAddress a) "MarshalBinary".

Definition GetDelegationsKey (delegatorAddr : Address) : outcome bytes :=
  res ← MustMarshalAddress delegatorAddr; Ok (DelegationKey ++ res).
Definition GetDelegationKey (delegatorAddr validatorAddr : Address) : outcome bytes :=
  p ← GetDelegationsKey delegatorAddr; Ok (p ++ validatorAddr).

Definition GetUBDsKey (delegatorAddr : Address) : outcome bytes :=
  res ← MustMarshalAddress delegatorAddr; Ok (UnbondingDelegationKey ++ res).
Definition GetUBDsByValIndexKey (validatorAddr : Address) : outcome bytes :=
  res ← MustMarshalAddress validatorAddr; Ok (UnbondingDelegationByValIndexKey ++ res).
Definition GetUBDKey (delegatorAddr validatorAddr : Address) : outcome bytes :=
  p ← GetUBDsKey delegatorAddr; Ok (p ++ validatorAddr).
Definition GetUBDByValIndexKey (delegatorAddr validatorAddr : Address) : outcome bytes :=
  p ← GetUBDsByValIndexKey validatorAddr; Ok (p ++ delegatorAddr).

Definition GetREDsKey (delegatorAddr : Address) : outcome bytes :=
  res ← MustMarshalAddress delegatorAddr; Ok (RedelegationKey ++ res).
Definition GetREDsFromValSrcIndexKey (validatorSrcAddr : Address) : outcome bytes :=
  res ← MustMarshalAddress validatorSrcAddr; Ok (RedelegationByValSrcIndexKey ++ res).
Definition GetREDsToValDstIndexKey (validatorDstAddr : Address) : outcome bytes :=
  res ← MustMarshalAddress validatorDstAddr; Ok (RedelegationByValDstIndexKey ++ res).
Definition GetREDKey (delegatorAddr validatorSrcAddr validatorDstAddr : Address) : outcome bytes :=
  p ← GetREDsKey delegatorAddr; Ok (p ++ (validatorSrcAddr ++ validatorDstAddr)).
Definition GetREDByValSrcIndexKey (delegatorAddr validatorSrcAddr validatorDstAddr : Address) : outcome bytes :=
  p ← GetREDsFromValSrcIndexKey validatorSrcAddr; Ok (p ++ (delegatorAddr ++ validatorDstAddr)).
Definition GetREDByValDstIndexKey (delegatorAddr validatorSrcAddr validatorDstAddr : Address) : outcome bytes :=
  p ← GetREDsToValDstIndexKey validatorDstAddr; Ok (p ++ (delegatorAddr ++ validatorSrcAddr)).
Definition GetREDsByDelToValDstIndexKey (delegatorAddr validatorDstAddr : Address) : outcome bytes :=
  p ← GetREDsToValDstIndexKey validatorDstAddr; Ok (p ++ delegatorAddr).
End composite.

(** ** Padded decimals *)

(** What ToLeftPadded gives for an integer part of at most [n] digits. *)
Lemma ToLeftPadded_digits (r : Rat) n :
  (0 < n)%nat -> 0 <= Rat.EvaluateBig r < 10 ^ Z.of_nat n ->
  string_bytes (Rat.ToLeftPadded r (Z.of_nat n)) = digits 10 dec_digit n (Rat.EvaluateBig r).
Proof.
  intros Hn Hr. unfold Rat.ToLeftPadded. rewrite string_bytes_app, Nat2Z.id.
  assert (Hp : forall k, string_bytes (string_of_list_ascii (repeat (Ascii.ascii_of_nat 48) k)) = repeat Byte.x30 k).
  { induction k as [|k IHk]; [done|]. cbn [repeat string_of_list_ascii]. rewrite string_bytes_String, IHk. done. }
  rewrite Hp. destruct (Rat.EvaluateBig r) as [|z|z] eqn:Er; [|..|lia].
  - destruct n as [|n]; [lia|]. rewrite dec_zero. change (String.length (pretty 0)) with 1%nat.
    replace (S n - 1)%nat with n by lia. change (string_bytes (pretty 0)) with [Byte.x30].
    change (repeat Byte.x30 (S n)) with (Byte.x30 :: repeat Byte.x30 n). by rewrite <- repeat_cons.
  - change (pretty (Z.pos z)) with (pretty_N_go (N.pos z) "").
    destruct (pretty_N_go_digits n (N.pos z) "") as [_ Hd]; [simpl; lia|].
    simpl String.length in Hd. rewrite Nat.sub_0_r in Hd. rewrite Hd. by rewrite app_nil_r.
Qed.

Lemma ToLeftPadded_compare (r s : Rat) n :
  (0 < n)%nat -> 0 <= Rat.EvaluateBig r < 10 ^ Z.of_nat n -> 0 <= Rat.EvaluateBig s < 10 ^ Z.of_nat n ->
  bytes_compare (string_bytes (Rat.ToLeftPadded r (Z.of_nat n))) (string_bytes (Rat.ToLeftPadded s (Z.of_nat n)))
  = Z.compare (Rat.EvaluateBig r) (Rat.EvaluateBig s).
Proof.
  intros Hn Hr Hs. rewrite !ToLeftPadded_digits by done.
  apply digits_compare; [lia|exact dec_digit_compare|done|done].
Qed.

(** ** The order of the power index *)

Definition lex (c d : comparison) : comparison := match c with Eq => d | _ => c end.

(** The order the index means to have on validators of powers [w1] and [w2]:
    by power, older bond heights and smaller counters above; before all of
    that, revoked ones above the others. *)
Definition rank_compare `{Crypto} (v1 v2 : Validator) (w1 w2 : Z) : comparison :=
  lex (Z.compare (Z.b2z (Revoked v1)) (Z.b2z (Revoked v2)))
    (lex (Z.compare w1 w2)
      (lex (Z.compare (BondHeight v2) (BondHeight v1))
        (Z.compare (BondIntraTxCounter v2) (BondIntraTxCounter v1)))).

Lemma bytes_compare_lex a b x y :
  length a = length b ->
  bytes_compare (a ++ x) (b ++ y) = lex (bytes_compare a b) (bytes_compare x y).
Proof. intros Hl. rewrite bytes_compare_same_length by done. by destruct (bytes_compare a b). Qed.

Lemma not_uint64_compare a b :
  0 <= a <= max_int64 -> 0 <= b <= max_int64 ->
  bytes_compare (be_bytes 8 (not_uint64 a)) (be_bytes 8 (not_uint64 b)) = Z.compare b a.
Proof.
  unfold max_int64, not_uint64, wrapu64. intros Ha Hb. rewrite !Z.mod_small by lia.
  rewrite be_bytes_compare by (change (256 ^ Z.of_nat 8) with (2 ^ 64); lia).
  destruct (Z.compare_spec b a); [apply Z.compare_eq_iff|apply Z.compare_lt_iff|apply Z.compare_gt_iff]; lia.
Qed.

Lemma not_uint16_compare a b :
  0 <= a < 2 ^ 15 -> 0 <= b < 2 ^ 15 ->
  bytes_compare (be_bytes 2 (not_uint16 a)) (be_bytes 2 (not_uint16 b)) = Z.compare b a.
Proof.
  unfold not_uint16, wrapu16. intros Ha Hb. rewrite !Z.mod_small by lia.
  rewrite be_bytes_compare by (change (256 ^ Z.of_nat 2) with (2 ^ 16); lia).
  destruct (Z.compare_spec b a); [apply Z.compare_eq_iff|apply Z.compare_lt_iff|apply Z.compare_gt_iff]; lia.
Qed.

Lemma GetValidatorPowerRank_eq `{Crypto} v pool p k :
  EquivalentBondedShares v pool = Ok p -> GetValidatorPowerRank v pool = Ok k ->
  k = ValidatorsByPowerIndexKey ++ ((if Revoked v then [Byte.x01] else [Byte.x00]) ++
    (string_bytes (Rat.ToLeftPadded p maxDigitsForAccount) ++
      ((be_bytes 8 (not_uint64 (BondHeight v)) ++ [Byte.x00; Byte.x00]) ++
        be_bytes 2 (not_uint16 (BondIntraTxCounter v))))).
Proof. unfold GetValidatorPowerRank. intros ->. by intros [= <-]. Qed.

(** C13: the keys of the power index compare, as bytes, in the order of
    [rank_compare] as long as powers have at most twelve digits: every revoked
    validator is above every other one, then the higher power, then the lower
    bond height, then the lower counter. *)
Theorem power_rank_order `{Crypto} (v1 v2 : Validator) (pool : Pool) (p1 p2 : Rat) (k1 k2 : bytes)
    (Hp1 : EquivalentBondedShares v1 pool = Ok p1) (Hp2 : EquivalentBondedShares v2 pool = Ok p2)
    (Hk1 : GetValidatorPowerRank v1 pool = Ok k1) (Hk2 : GetValidatorPowerRank v2 pool = Ok k2)
    (Hw1 : 0 <= Rat.EvaluateBig p1 < 10 ^ 12) (Hw2 : 0 <= Rat.EvaluateBig p2 < 10 ^ 12)
    (Hh1 : 0 <= BondHeight v1 <= max_int64) (Hh2 : 0 <= BondHeight v2 <= max_int64)
    (Hc1 : 0 <= BondIntraTxCounter v1 < 2 ^ 15) (Hc2 : 0 <= BondIntraTxCounter v2 < 2 ^ 15) :
  bytes_compare k1 k2 = rank_compare v1 v2 (Rat.EvaluateBig p1) (Rat.EvaluateBig p2).
Proof.
  rewrite (GetValidatorPowerRank_eq v1 pool p1 k1 Hp1 Hk1), (GetValidatorPowerRank_eq v2 pool p2 k2 Hp2 Hk2).
  unfold rank_compare. rewrite bytes_compare_app, bytes_compare_lex by by destruct (Revoked v1), (Revoked v2).
  f_equal; [by destruct (Revoked v1), (Revoked v2)|].
  change maxDigitsForAccount with (Z.of_nat 12).
  rewrite bytes_compare_lex by (rewrite !ToLeftPadded_digits, !digits_length by (lia || done); done).
  f_equal; [by apply ToLeftPadded_compare; [lia|..]|].
  rewrite bytes_compare_lex by (rewrite !length_app, !be_bytes_length; done).
  f_equal; [|by apply not_uint16_compare].
  rewrite bytes_compare_lex by by rewrite !be_bytes_length.
  rewrite not_uint64_compare by done. simpl. by destruct (_ ?= _).
Qed.

(** the composite keys of the staking store determine the addresses they
    are built from; a redelegation's key does as soon as the source addresses
    have the same length. *)
Theorem composite_keys_injective `{AddrCodecLaws} :
  (forall d v d' v' k, GetDelegationKey d v = Ok k -> GetDelegationKey d' v' = Ok k -> d = d' /\ v = v') /\
  (forall d v d' v' k, GetUBDKey d v = Ok k -> GetUBDKey d' v' = Ok k -> d = d' /\ v = v') /\
  (forall d v d' v' k, GetUBDByValIndexKey d v = Ok k -> GetUBDByValIndexKey d' v' = Ok k -> d = d' /\ v = v') /\
  (forall d s t d' s' t' k, GetREDKey d s t = Ok k -> GetREDKey d' s' t' = Ok k ->
     length s = length s' -> d = d' /\ s = s' /\ t = t').
Proof.
  assert (Hgen : forall p a b x y k, (q ← (res ← MustMarshalAddress a; Ok (p :: res)); Ok (q ++ x)) = Ok k ->
    (q ← (res ← MustMarshalAddress b; Ok (p :: res)); Ok (q ++ y)) = Ok k -> a = b /\ x = y).
  { intros p a b x y k. unfold MustMarshalAddress, must.
    destruct (MarshalAddress a) as [ax|] eqn:Ea; [|done]. destruct (MarshalAddress b) as [bx|] eqn:Eb; [|done].
    cbn. intros [= <-] [= E]. by eapply MarshalAddress_prefix_free. }
  split_and!; intros *.
  - apply Hgen.
  - apply Hgen.
  - intros H1 H2. destruct (Hgen _ _ _ _ _ _ H1 H2). done.
  - intros H1 H2 Hl. destruct (Hgen _ _ _ _ _ _ H1 H2) as [-> E].
    by apply app_inj_1 in E as [-> ->].
Qed.

(** ** Witnesses *)

(** A length prefix in unary. *)
Definition model_AddrCodec : AddrCodec := {|
  MarshalAddress a := Some (repeat Byte.x01 (length a) ++ Byte.x00 :: a) |}.

Lemma model_AddrCodecLaws : AddrCodecLaws (H:=model_AddrCodec).
Proof.
  constructor; [by eexists|]. intros a b x y ax bx [= <-] [= <-].
  assert (Hgen : forall n m (u v : bytes),
    repeat Byte.x01 n ++ Byte.x00 :: u = repeat Byte.x01 m ++ Byte.x00 :: v -> n = m /\ u = v).
  { induction n as [|n IH]; intros [|m] u v; simpl; [by intros [= ->]|done|done|].
    intros [= E]. by destruct (IH _ _ _ E) as [-> ->]. }
  rewrite <- !app_assoc. simpl. intros E. destruct (Hgen _ _ _ _ E) as [Hl E'].
  by apply app_inj_1 in E' as [-> ->].
Qed.

Lemma power_rank_order_witness :
  exists k1 k2,
    GetValidatorPowerRank (H:=model_Crypto)
      (with_Revoked (H:=model_Crypto) (ex_val (H:=model_Crypto) [Byte.x01] Unbonded (4 # 1) (3 # 1)) true) ex_pool = Ok k1 /\
    GetValidatorPowerRank (H:=model_Crypto) (ex_val (H:=model_Crypto) [Byte.x02] Bonded (9 # 1) (3 # 1)) ex_pool = Ok k2 /\
    bytes_compare k1 k2 = Gt.
Proof.
  eexists _, _. split; [reflexivity|]. split; [reflexivity|].
  rewrite (power_rank_order (H:=model_Crypto)
    (with_Revoked (H:=model_Crypto) (ex_val (H:=model_Crypto) [Byte.x01] Unbonded (4 # 1) (3 # 1)) true)
    (ex_val (H:=model_Crypto) [Byte.x02] Bonded (9 # 1) (3 # 1)) ex_pool (10 # 3) (9 # 1)).
  all: vm_compute; try split; try reflexivity; discriminate.
Defined.

Lemma composite_keys_injective_witness :
  exists k, GetREDKey (H:=model_AddrCodec) [Byte.x01] [Byte.x02] [Byte.x03] = Ok k /\
    forall d s t, GetREDKey (H:=model_AddrCodec) d [s] t = Ok k -> d = [Byte.x01] /\ [s] = [Byte.x02] /\ t = [Byte.x03].
Proof.
  eexists. split; [reflexivity|]. intros d s t E.
  exact (proj2 (proj2 (proj2 (composite_keys_injective (H0:=model_AddrCodecLaws)))) _ _ _ _ _ _ _ E eq_refl eq_refl).
Defined.
