(* ===== verification/StakeMsg.v ===== *)
(** * x/stake/types/msg.go: the staking messages

    Address fields are Go slices, nil or not.  JSON encoding of the signed
    structs is third-party ([StakeJSON]). *)
From Stdlib Require Import Strings.Byte Strings.String.
From S2P Require Import Prelude Int Rational Errors Coin Account Context Auth Address Pool Validator.
From Stdlib Require Import QArith.
#[local] Open Scope string_scope.
#[local] Open Scope list_scope.
#[local] Open Scope Z_scope.

Definition MsgType : string := "stake".
Definition MaxBondDenominatorPrecision : Z := 8.
Definition maximumBondingRationalDenominator : Int.Int := Int.NewInt (10 ^ MaxBondDenominatorPrecision).

(** MsgCdc.MarshalJSON at the anonymous structs that are signed. *)
Class StakeJSON := {
  MarshalJSON_create : Description -> string -> string -> Coin -> option bytes;
  MarshalJSON_edit : Description -> string -> option bytes;
  MarshalJSON_delegate : string -> string -> Coin -> option bytes;
  MarshalJSON_begin_red : string -> string -> string -> string -> option bytes;
  MarshalJSON_complete_red : string -> string -> string -> option bytes;
  MarshalJSON_begin_ubd : string -> string -> string -> option bytes;
  MarshalJSON_complete_ubd : string -> string -> option bytes;
}.

Section msgs.
Context `{Crypto}.

Record MsgCreateValidator := mk_MsgCreateValidator {
  cv_Description : Description; cv_ValidatorAddr : slice; cv_PubKey : option PubKey; cv_SelfDelegation : Coin }.
Record MsgEditValidator := mk_MsgEditValidator { ev_Description : Description; ev_ValidatorAddr : slice }.
Record MsgDelegate := mk_MsgDelegate { dl_DelegatorAddr : slice; dl_ValidatorAddr : slice; dl_Bond : Coin }.
Record MsgBeginRedelegate := mk_MsgBeginRedelegate {
  br_DelegatorAddr : slice; br_ValidatorSrcAddr : slice; br_ValidatorDstAddr : slice; br_SharesAmount : Rat }.
Record MsgCompleteRedelegate := mk_MsgCompleteRedelegate {
  cr_DelegatorAddr : slice; cr_ValidatorSrcAddr : slice; cr_ValidatorDstAddr : slice }.
Record MsgBeginUnbonding := mk_MsgBeginUnbonding {
  bu_DelegatorAddr : slice; bu_ValidatorAddr : slice; bu_SharesAmount : Rat }.
Record MsgCompleteUnbonding := mk_MsgCompleteUnbonding { cu_DelegatorAddr : slice; cu_ValidatorAddr : slice }.

Definition NewMsgCreateValidator (validatorAddr : slice) (pubkey : option PubKey) (selfDelegation : Coin)
    (description : Description) : MsgCreateValidator :=
  mk_MsgCreateValidator description validatorAddr pubkey selfDelegation.
Definition NewMsgEditValidator (validatorAddr : slice) (description : Description) : MsgEditValidator :=
  mk_MsgEditValidator description validatorAddr.
Definition NewMsgDelegate (delegatorAddr validatorAddr : slice) (bond : Coin) : MsgDelegate :=
  mk_MsgDelegate delegatorAddr validatorAddr bond.
Definition NewMsgBeginRedelegate (delegatorAddr validatorSrcAddr validatorDstAddr : slice) (sharesAmount : Rat) :=
  mk_MsgBeginRedelegate delegatorAddr validatorSrcAddr validatorDstAddr sharesAmount.
Definition NewMsgCompleteRedelegate (delegatorAddr validatorSrcAddr validatorDstAddr : slice) :=
  mk_MsgCompleteRedelegate delegatorAddr validatorSrcAddr validatorDstAddr.
Definition NewMsgBeginUnbonding (delegatorAddr validatorAddr : slice) (sharesAmount : Rat) :=
  mk_MsgBeginUnbonding delegatorAddr validatorAddr sharesAmount.
Definition NewMsgCompleteUnbonding (delegatorAddr validatorAddr : slice) :=
  mk_MsgCompleteUnbonding delegatorAddr validatorAddr.

(** ** ValidateBasic: [None] is nil *)

Definition is_nil (s : slice) : bool := match s with None => true | Some _ => false end.
Definition stk := StakeErrors.DefaultCodespace.

Definition MsgCreateValidator_ValidateBasic (msg : MsgCreateValidator) : option sdkError :=
  if is_nil (cv_ValidatorAddr msg) then Some (StakeErrors.ErrNilValidatorAddr stk)
  else if negb (Int.GT (Amount (cv_SelfDelegation msg)) Int.ZeroInt) then Some (StakeErrors.ErrBadDelegationAmount stk)
  else if decide (cv_Description msg = mk_Description "" "" "" "")
  then Some (NewError stk StakeErrors.CodeInvalidInput "description must be included")
  else None.

Definition MsgEditValidator_ValidateBasic (msg : MsgEditValidator) : option sdkError :=
  if is_nil (ev_ValidatorAddr msg) then Some (NewError stk StakeErrors.CodeInvalidInput "nil validator address")
  else if decide (ev_Description msg = mk_Description "" "" "" "")
  then Some (NewError stk StakeErrors.CodeInvalidInput "transaction must include some information to modify")
  else None.

Definition MsgDelegate_ValidateBasic (msg : MsgDelegate) : option sdkError :=
  if is_nil (dl_DelegatorAddr msg) then Some (StakeErrors.ErrNilDelegatorAddr stk)
  else if is_nil (dl_ValidatorAddr msg) then Some (StakeErrors.ErrNilValidatorAddr stk)
  else if negb (Int.GT (Amount (dl_Bond msg)) Int.ZeroInt) then Some (StakeErrors.ErrBadDelegationAmount stk)
  else None.

Definition MsgBeginRedelegate_ValidateBasic (msg : MsgBeginRedelegate) : option sdkError :=
  if is_nil (br_DelegatorAddr msg) then Some (StakeErrors.ErrNilDelegatorAddr stk)
  else if is_nil (br_ValidatorSrcAddr msg) then Some (StakeErrors.ErrNilValidatorAddr stk)
  else if is_nil (br_ValidatorDstAddr msg) then Some (StakeErrors.ErrNilValidatorAddr stk)
  else if Rat.LTE (br_SharesAmount msg) Rat.ZeroRat then Some (StakeErrors.ErrBadSharesAmount stk)
  else if Int.GT (Rat.Denom (br_SharesAmount msg)) maximumBondingRationalDenominator
  then Some (StakeErrors.ErrBadSharesPrecision stk)
  else None.

Definition MsgCompleteRedelegate_ValidateBasic (msg : MsgCompleteRedelegate) : option sdkError :=
  if is_nil (cr_DelegatorAddr msg) then Some (StakeErrors.ErrNilDelegatorAddr stk)
  else if is_nil (cr_ValidatorSrcAddr msg) then Some (StakeErrors.ErrNilValidatorAddr stk)
  else if is_nil (cr_ValidatorDstAddr msg) then Some (StakeErrors.ErrNilValidatorAddr stk)
  else None.

Definition MsgBeginUnbonding_ValidateBasic (msg : MsgBeginUnbonding) : option sdkError :=
  if is_nil (bu_DelegatorAddr msg) then Some (StakeErrors.ErrNilDelegatorAddr stk)
  else if is_nil (bu_ValidatorAddr msg) then Some (StakeErrors.ErrNilValidatorAddr stk)
  else if Rat.LTE (bu_SharesAmount msg) Rat.ZeroRat then Some (StakeErrors.ErrBadSharesAmount stk)
  else if Int.GT (Rat.Denom (bu_SharesAmount msg)) maximumBondingRationalDenominator
  then Some (StakeErrors.ErrBadSharesPrecision stk)
  else None.

Definition MsgCompleteUnbonding_ValidateBasic (msg : MsgCompleteUnbonding) : option sdkError :=
  if is_nil (cu_DelegatorAddr msg) then Some (StakeErrors.ErrNilDelegatorAddr stk)
  else if is_nil (cu_ValidatorAddr msg) then Some (StakeErrors.ErrNilValidatorAddr stk)
  else None.

(** ** GetSignBytes *)

Context `{!Bech32} `{StakeJSON}.

Definition val_text (a : slice) : outcome string := MustBech32ifyVal (slice_bytes a).
Definition acc_text (a : slice) : outcome string := MustBech32ifyAcc (slice_bytes a).

(** The Bond field of the signed struct is not set: it is a zero coin. *)
Definition MsgCreateValidator_GetSignBytes (msg : MsgCreateValidator) : outcome bytes :=
  a ← val_text (cv_ValidatorAddr msg);
  pk ← match cv_PubKey msg with None => Panicked nil_pointer | Some pk => MustBech32ifyValPub pk end;
  must (MarshalJSON_create (cv_Description msg) a pk (mk_Coin "" 0)) "MarshalJSON".
Definition MsgEditValidator_GetSignBytes (msg : MsgEditValidator) : outcome bytes :=
  a ← val_text (ev_ValidatorAddr msg);
  must (MarshalJSON_edit (ev_Description msg) a) "MarshalJSON".
Definition MsgDelegate_GetSignBytes (msg : MsgDelegate) : outcome bytes :=
  d ← acc_text (dl_DelegatorAddr msg); v ← val_text (dl_ValidatorAddr msg);
  must (MarshalJSON_delegate d v (dl_Bond msg)) "MarshalJSON".
Definition MsgBeginRedelegate_GetSignBytes (msg : MsgBeginRedelegate) : outcome bytes :=
  d ← acc_text (br_DelegatorAddr msg); s ← val_text (br_ValidatorSrcAddr msg); t ← val_text (br_ValidatorDstAddr msg);
  must (MarshalJSON_begin_red d s t (Rat.String (br_SharesAmount msg))) "MarshalJSON".
Definition MsgCompleteRedelegate_GetSignBytes (msg : MsgCompleteRedelegate) : outcome bytes :=
  d ← acc_text (cr_DelegatorAddr msg); s ← val_text (cr_ValidatorSrcAddr msg); t ← val_text (cr_ValidatorDstAddr msg);
  must (MarshalJSON_complete_red d s t) "MarshalJSON".
Definition MsgBeginUnbonding_GetSignBytes (msg : MsgBeginUnbonding) : outcome bytes :=
  d ← acc_text (bu_DelegatorAddr msg); v ← val_text (bu_ValidatorAddr msg);
  must (MarshalJSON_begin_ubd d v (Rat.String (bu_SharesAmount msg))) "MarshalJSON".
Definition MsgCompleteUnbonding_GetSignBytes (msg : MsgCompleteUnbonding) : outcome bytes :=
  d ← acc_text (cu_DelegatorAddr msg); v ← val_text (cu_ValidatorAddr msg);
  must (MarshalJSON_complete_ubd d v) "MarshalJSON".

(** The messages as [sdk.Msg]s. *)
Inductive stake_Msg :=
  | CreateValidator (msg : MsgCreateValidator)
  | EditValidator (msg : MsgEditValidator)
  | DelegateMsg (msg : MsgDelegate)
  | BeginRedelegate (msg : MsgBeginRedelegate)
  | CompleteRedelegate (msg : MsgCompleteRedelegate)
  | BeginUnbondingMsg (msg : MsgBeginUnbonding)
  | CompleteUnbondingMsg (msg : MsgCompleteUnbonding).

#[global] Instance stake_Msg_Msg : Msg stake_Msg := {
  Type_ _ := MsgType;
  ValidateBasic m := Ok match m with
    | CreateValidator m => MsgCreateValidator_ValidateBasic m
    | EditValidator m => MsgEditValidator_ValidateBasic m
    | DelegateMsg m => MsgDelegate_ValidateBasic m
    | BeginRedelegate m => MsgBeginRedelegate_ValidateBasic m
    | CompleteRedelegate m => MsgCompleteRedelegate_ValidateBasic m
    | BeginUnbondingMsg m => MsgBeginUnbonding_ValidateBasic m
    | CompleteUnbondingMsg m => MsgCompleteUnbonding_ValidateBasic m
    end;
  GetSignBytes m := match m with
    | CreateValidator m => MsgCreateValidator_GetSignBytes m
    | EditValidator m => MsgEditValidator_GetSignBytes m
    | DelegateMsg m => MsgDelegate_GetSignBytes m
    | BeginRedelegate m => MsgBeginRedelegate_GetSignBytes m
    | CompleteRedelegate m => MsgCompleteRedelegate_GetSignBytes m
    | BeginUnbondingMsg m => MsgBeginUnbonding_GetSignBytes m
    | CompleteUnbondingMsg m => MsgCompleteUnbonding_GetSignBytes m
    end;
  msg_GetSigners m := [slice_bytes match m with
    | CreateValidator m => cv_ValidatorAddr m
    | EditValidator m => ev_ValidatorAddr m
    | DelegateMsg m => dl_DelegatorAddr m
    | BeginRedelegate m => br_DelegatorAddr m
    | CompleteRedelegate m => cr_DelegatorAddr m
    | BeginUnbondingMsg m => bu_DelegatorAddr m
    | CompleteUnbondingMsg m => cu_DelegatorAddr m
    end];
}.
End msgs.

(** The amounts that pass validation are positive. *)
Definition msg_amounts_positive `{Crypto} (m : stake_Msg) : Prop :=
  match m with
  | CreateValidator m => 0 < Amount (cv_SelfDelegation m)
  | DelegateMsg m => 0 < Amount (dl_Bond m)
  | BeginRedelegate m => (0 < br_SharesAmount m)%Q /\ Zpos (Qden (br_SharesAmount m)) <= 10 ^ 8
  | BeginUnbondingMsg m => (0 < bu_SharesAmount m)%Q /\ Zpos (Qden (bu_SharesAmount m)) <= 10 ^ 8
  | _ => True
  end.

Lemma Int_GT_spec i j : Int.GT i j = true <-> j < i.
Proof. unfold Int.GT, Int.gt, big_Cmp. destruct (Z.compare_spec i j); simpl; split; intros; try done; lia. Qed.

Lemma Rat_LTE_spec r s : Rat.LTE r s = true <-> (r <= s)%Q.
Proof.
  unfold Rat.LTE. rewrite negb_true_iff, <- not_true_iff_false, Rat.Rat_GT_spec. split; [apply Qnot_lt_le|].
  intros Hle Hlt. by apply (Qlt_not_le _ _ Hlt).
Qed.

(** A message accepted by ValidateBasic. *)
Lemma stake_ValidateBasic_ok `{Crypto} `{!Bech32} `{StakeJSON} (m : stake_Msg) :
  ValidateBasic m = Ok None -> msg_amounts_positive m.
Proof.
  assert (Hgt : forall i, negb (Int.GT i Int.ZeroInt) = false -> 0 < i).
  { intros i Hi. apply negb_false_iff, Int_GT_spec in Hi. exact Hi. }
  assert (Hsh : forall r, Rat.LTE r Rat.ZeroRat = false ->
    Int.GT (Rat.Denom r) maximumBondingRationalDenominator = false -> (0 < r)%Q /\ Z.pos (Qden r) <= 10 ^ 8).
  { intros r Hr Hd. split.
    - apply Qnot_le_lt. intros Hle. rewrite <- not_true_iff_false, Rat_LTE_spec in Hr. apply Hr.
      unfold Rat.ZeroRat. by rewrite Qred_correct.
    - rewrite <- not_true_iff_false, Int_GT_spec in Hd.
      unfold Rat.Denom, maximumBondingRationalDenominator, MaxBondDenominatorPrecision, Int.NewInt in Hd. lia. }
  destruct m; simpl; intros [= E]; try done; revert E;
    unfold MsgCreateValidator_ValidateBasic, MsgDelegate_ValidateBasic, MsgBeginRedelegate_ValidateBasic,
      MsgBeginUnbonding_ValidateBasic; repeat case_match; try done; auto.
Qed.

(** the bytes a creator of a validator signs do not depend on the coins it
    delegates to itself: the transaction can be given any other amount and
    denomination and still has a valid signature. *)
Theorem CreateValidator_bond_unsigned `{Crypto} `{!Bech32} `{StakeJSON} `{JSONCodec}
    (chainID : string) (accnum sequence : Z) (fee : StdFee) (memo : string) (msg : MsgCreateValidator) (c : Coin) :
  StdSignBytes chainID accnum sequence fee
    [CreateValidator (mk_MsgCreateValidator (cv_Description msg) (cv_ValidatorAddr msg) (cv_PubKey msg) c)] memo
  = StdSignBytes chainID accnum sequence fee [CreateValidator msg] memo.
Proof. reflexivity. Qed.
