(* ===== verification/StakeKeeper.v ===== *)
(** * x/stake/keeper: the records of the staking store

    keeper.go, the getters and setters of validator.go and delegation.go,
    sdk_types.go and inflation.go.  A keeper method is a program over the
    store of its context ([prog]).  Encoding is third-party ([StakeCodec]).
    An iteration reads the entries of its range and charges each Value() where
    the code calls it; a callback is a program over its own state. *)
From Stdlib Require Import Strings.Byte Strings.String.
From S2P Require Import Prelude Int Rational Errors Coin KVStore MultiStore Account Context ProgLogic Auth Records.
From S2P Require Import Pool Validator StakeKey.
From Stdlib Require Import QArith.
#[local] Open Scope string_scope.
#[local] Open Scope list_scope.
#[local] Open Scope Z_scope.

Abbreviation Params := Pool.Params.

(** ** Encoding *)

(** MarshalBinary and UnmarshalBinary of the records; [None] is an error. *)
Class StakeCodec `{TM2PB} := {
  MarshalParams : Params -> option bytes;
  UnmarshalParams : bytes -> option Params;
  MarshalPool : Pool -> option bytes;
  UnmarshalPool : bytes -> option Pool;
  MarshalInt16 : Z -> option bytes;
  UnmarshalInt16 : bytes -> option Z;
  MarshalValidator : Validator -> option bytes;
  UnmarshalValidator : bytes -> option Validator;
  MarshalWRSPVal : WRSPVal -> option bytes;
  UnmarshalWRSPVal : bytes -> option WRSPVal;
  MarshalDelegation : Delegation -> option bytes;
  UnmarshalDelegation : bytes -> option Delegation;
  MarshalUBD : UnbondingDelegation -> option bytes;
  UnmarshalUBD : bytes -> option UnbondingDelegation;
  MarshalRED : Redelegation -> option bytes;
  UnmarshalRED : bytes -> option Redelegation;
}.

(** The values the Go types hold: normalized rationals, integers in range. *)
Definition is_int16 (z : Z) : Prop := - 2 ^ 15 <= z < 2 ^ 15.
Definition wrap16 (z : Z) : Z := (z + 2 ^ 15) mod 2 ^ 16 - 2 ^ 15.

Lemma wrap16_is_int16 z : is_int16 (wrap16 z).
Proof. unfold is_int16, wrap16. pose proof (Z.mod_pos_bound (z + 2 ^ 15) (2 ^ 16) ltac:(lia)). lia. Qed.

Definition coin_wf (c : Coin) : Prop := Int.wf (Amount c).
Record params_wf (p : Params) : Prop := {
  pw_rats : Forall Rat.is_norm [InflationRateChange p; InflationMax p; InflationMin p; GoalBonded p];
  pw_time : is_int64 (UnbondingTime p);
  pw_max : 0 <= MaxValidators p < 2 ^ 16
}.
Record pool_wf (p : Pool) : Prop := {
  plw_ints : Forall is_int64 [LooseTokens p; UnbondedTokens p; UnbondingTokens p; BondedTokens p;
    InflationLastTime p; DateLastCommissionReset p];
  plw_rats : Forall Rat.is_norm [UnbondedShares p; UnbondingShares p; BondedShares p; Inflation p; PrevBondedShares p]
}.
Record validator_wf `{Crypto} (v : Validator) : Prop := {
  vw_rats : Forall Rat.is_norm [ps_Amount (val_PoolShares v); DelegatorShares v; Commission v; CommissionMax v;
    CommissionChangeRate v; CommissionChangeToday v; val_PrevBondedShares v];
  vw_height : is_int64 (BondHeight v);
  vw_counter : is_int16 (BondIntraTxCounter v);
  vw_rewards : amounts_wf (ProposerRewardPool v)
}.
Record delegation_wf (d : Delegation) : Prop := {
  dw_shares : Rat.is_norm (del_Shares d); dw_height : is_int64 (del_Height d) }.
Record ubd_wf (u : UnbondingDelegation) : Prop := {
  uw_height : is_int64 (ubd_CreationHeight u); uw_time : is_int64 (ubd_MinTime u);
  uw_initial : coin_wf (ubd_InitialBalance u); uw_balance : coin_wf (ubd_Balance u) }.
Record red_wf (r : Redelegation) : Prop := {
  rw_height : is_int64 (red_CreationHeight r); rw_time : is_int64 (red_MinTime r);
  rw_initial : coin_wf (red_InitialBalance r); rw_balance : coin_wf (red_Balance r);
  rw_src : Rat.is_norm (red_SharesSrc r); rw_dst : Rat.is_norm (red_SharesDst r) }.

Class StakeCodecLaws `{StakeCodec} : Prop := {
  Params_roundtrip : forall p, params_wf p -> exists bz, MarshalParams p = Some bz /\ UnmarshalParams bz = Some p;
  Pool_roundtrip : forall p, pool_wf p -> exists bz, MarshalPool p = Some bz /\ UnmarshalPool bz = Some p;
  Int16_roundtrip : forall z, is_int16 z -> exists bz, MarshalInt16 z = Some bz /\ UnmarshalInt16 bz = Some z;
  Validator_roundtrip : forall v, validator_wf v ->
    exists bz, MarshalValidator v = Some bz /\ UnmarshalValidator bz = Some v;
  WRSPVal_roundtrip : forall v, is_int64 (wv_Power v) ->
    exists bz, MarshalWRSPVal v = Some bz /\ UnmarshalWRSPVal bz = Some v;
  Delegation_roundtrip : forall d, delegation_wf d ->
    exists bz, MarshalDelegation d = Some bz /\ UnmarshalDelegation bz = Some d;
  UBD_roundtrip : forall u, ubd_wf u -> exists bz, MarshalUBD u = Some bz /\ UnmarshalUBD bz = Some u;
  RED_roundtrip : forall r, red_wf r -> exists bz, MarshalRED r = Some bz /\ UnmarshalRED bz = Some r;
  (* what decoding gives is a value of the Go type *)
  Params_decoded : forall bz p, UnmarshalParams bz = Some p -> params_wf p;
  Pool_decoded : forall bz p, UnmarshalPool bz = Some p -> pool_wf p;
  Int16_decoded : forall bz z, UnmarshalInt16 bz = Some z -> is_int16 z;
  Validator_decoded : forall bz v, UnmarshalValidator bz = Some v -> validator_wf v;
  Delegation_decoded : forall bz d, UnmarshalDelegation bz = Some d -> delegation_wf d;
  UBD_decoded : forall bz u, UnmarshalUBD bz = Some u -> ubd_wf u;
  RED_decoded : forall bz r, UnmarshalRED bz = Some r -> red_wf r;
}.

Section Keeper.
Context `{Crypto}.
Record Keeper := mk_Keeper { storeKey : StoreKey; coinKeeper : AccountMapper; codespace : CodespaceType }.
Definition NewKeeper (key : StoreKey) (ck : AccountMapper) (codespace : CodespaceType) : Keeper :=
  mk_Keeper key ck codespace.
Definition Codespace (k : Keeper) : CodespaceType := codespace k.
End Keeper.

Definition make_slice_panic : panic_value := RuntimeError "makeslice: len out of range".
Definition index_panic : panic_value := RuntimeError "index out of range".

Section keeper.
Context `{StakeCodec} `{!AddrCodec} (k : Keeper) (ctx : Ctx).
Abbreviation sk := (storeKey k).

(** ** keeper.go *)

Definition GetParams : prog Params :=
  b ← store_Get ctx sk ParamKey;
  match b with
  | None => Fault (PanicString "Stored params should not have been nil")
  | Some _ => lift (must_unmarshal UnmarshalParams b)
  end.

Definition SetNewParams (params : Params) : prog unit :=
  b ← lift (must_marshal MarshalParams params); store_Set ctx sk ParamKey b.

Definition GetPool : prog Pool :=
  b ← store_Get ctx sk PoolKey;
  match b with
  | None => Fault (PanicString "Stored pool should not have been nil")
  | Some _ => lift (must_unmarshal UnmarshalPool b)
  end.

Definition SetPool (pool : Pool) : prog unit :=
  b ← lift (must_marshal MarshalPool pool); store_Set ctx sk PoolKey b.

Definition GetIntraTxCounter : prog Z :=
  b ← store_Get ctx sk IntraTxCounterKey; lift (must_unmarshal UnmarshalInt16 b).

Definition SetIntraTxCounter (counter : Z) : prog unit :=
  bz ← lift (must_marshal MarshalInt16 counter); store_Set ctx sk IntraTxCounterKey bz.

Definition InitIntraTxCounter : prog unit :=
  b ← store_Get ctx sk IntraTxCounterKey;
  match b with None => SetIntraTxCounter 0 | Some _ => mret tt end.

(** ** validator.go: records and indexes *)

(** A validator and [found]. *)
Definition GetValidator (addr : Address) : prog (option Validator) :=
  b ← store_Get ctx sk (GetValidatorKey addr);
  match b with
  | None => mret None
  | Some _ => validator ← lift (must_unmarshal UnmarshalValidator b); mret (Some validator)
  end.

Definition GetValidatorByPubKey (pubkey : option PubKey) : prog (option Validator) :=
  key ← lift (GetValidatorByPubKeyIndexKey pubkey);
  addr ← store_Get ctx sk key;
  match addr with None => mret None | Some addr => GetValidator addr end.

Definition SetValidator (validator : Validator) : prog unit :=
  bz ← lift (must_marshal MarshalValidator validator);
  store_Set ctx sk (GetValidatorKey (Owner validator)) bz.

Definition SetValidatorByPubKeyIndex (validator : Validator) : prog unit :=
  key ← lift (GetValidatorByPubKeyIndexKey (val_PubKey validator));
  store_Set ctx sk key (Owner validator).

Definition SetValidatorByPowerIndex (validator : Validator) (pool : Pool) : prog unit :=
  key ← lift (GetValidatorsByPowerIndexKey validator pool);
  store_Set ctx sk key (Owner validator).

Definition SetValidatorBondedIndex (validator : Validator) : prog unit :=
  store_Set ctx sk (GetValidatorsBondedIndexKey (Owner validator)) (Owner validator).

Definition validatorByPowerIndexExists (power : bytes) : prog bool :=
  b ← store_Get ctx sk power; mret (bool_decide (is_Some b)).

Definition GetAllValidators : prog (list Validator) :=
  entries ← store_Prefix sk true ValidatorsKey;
  mapP (read_value ctx UnmarshalValidator) entries.

(** [maxRetrieve] is an int16. *)
Definition GetValidators (maxRetrieve : Z) : prog (list Validator) :=
  entries ← store_Prefix sk true ValidatorsKey;
  if maxRetrieve <? 0 then Fault make_slice_panic
  else mapP (read_value ctx UnmarshalValidator) (take (Z.to_nat maxRetrieve) entries).

Definition validator_not_found : panic_value := PanicString "validator record not found for address".

(** The validator whose address an index entry holds. *)
Definition indexed_validator (address : slice) : prog Validator :=
  validator ← GetValidator (slice_bytes address);
  match validator with None => Fault validator_not_found | Some validator => mret validator end.

(** int(maxValidators-1), on a uint16. *)
Definition last_index (maxValidators : Z) : Z := wrapu16 (maxValidators - 1).

Fixpoint GetValidatorsBonded_loop (maxValidators : Z) (entries : list (slice * slice)) (i : Z) : prog (list Validator) :=
  match entries with
  | [] => mret []
  | e :: entries =>
      if last_index maxValidators <? i
      then Fault (PanicString "maxValidators is less than the number of records in ValidatorsBonded Store, store should have been updated")
      else
        address ← iter_Value ctx e;
        validator ← indexed_validator address;
        if maxValidators <=? i then Fault index_panic
        else
          rest ← GetValidatorsBonded_loop maxValidators entries (i + 1);
          mret (validator :: rest)
  end.

Definition GetValidatorsBonded : prog (list Validator) :=
  params ← GetParams;
  entries ← store_Prefix sk true ValidatorsBondedIndexKey;
  GetValidatorsBonded_loop (MaxValidators params) entries 0.

Fixpoint GetValidatorsByPower_loop (maxValidators : Z) (entries : list (slice * slice)) (i : Z) : prog (list Validator) :=
  match entries with
  | [] => mret []
  | e :: entries =>
      if last_index maxValidators <? i then mret []
      else
        address ← iter_Value ctx e;
        validator ← indexed_validator address;
        if decide (val_Status validator = Bonded) then
          if maxValidators <=? i then Fault index_panic
          else
            rest ← GetValidatorsByPower_loop maxValidators entries (i + 1);
            mret (validator :: rest)
        else GetValidatorsByPower_loop maxValidators entries i
  end.

Definition GetValidatorsByPower : prog (list Validator) :=
  params ← GetParams;
  entries ← store_Prefix sk false ValidatorsByPowerIndexKey;
  GetValidatorsByPower_loop (MaxValidators params) entries 0.

Definition GetTendermintUpdates : prog (list WRSPVal) :=
  entries ← store_Prefix sk true TendermintUpdatesKey;
  mapP (read_value ctx UnmarshalWRSPVal) entries.

(** The entries are deleted while they are iterated; the iterators of the
    stores handlers run on go through a snapshot of the keys. *)
Definition ClearTendermintUpdates : prog unit :=
  entries ← store_Prefix sk true TendermintUpdatesKey;
  forP entries (fun e => key ← iter_Key ctx e; store_Delete ctx sk (slice_bytes key)).

(** The cliff. *)
Definition getCliffValidator : prog slice := store_Get ctx sk ValidatorCliffIndexKey.
Definition getCliffValidatorPower : prog slice := store_Get ctx sk ValidatorPowerCliffKey.
Definition setCliffValidator (validator : Validator) (pool : Pool) : prog unit :=
  bz ← lift (GetValidatorsByPowerIndexKey validator pool);
  store_Set ctx sk ValidatorPowerCliffKey bz;;
  store_Set ctx sk ValidatorCliffIndexKey (Owner validator).
Definition clearCliffValidator : prog unit :=
  store_Delete ctx sk ValidatorPowerCliffKey;;
  store_Delete ctx sk ValidatorCliffIndexKey.

(** ** delegation.go: records *)

Definition GetDelegation (delegatorAddr validatorAddr : Address) : prog (option Delegation) :=
  key ← lift (GetDelegationKey delegatorAddr validatorAddr);
  b ← store_Get ctx sk key;
  match b with
  | None => mret None
  | Some _ => d ← lift (must_unmarshal UnmarshalDelegation b); mret (Some d)
  end.

Definition GetAllDelegations : prog (list Delegation) :=
  entries ← store_Prefix sk true DelegationKey;
  mapP (read_value ctx UnmarshalDelegation) entries.

Definition GetDelegations (delegator : Address) (maxRetrieve : Z) : prog (list Delegation) :=
  key ← lift (GetDelegationsKey delegator);
  entries ← store_Prefix sk true key;
  if maxRetrieve <? 0 then Fault make_slice_panic
  else mapP (read_value ctx UnmarshalDelegation) (take (Z.to_nat maxRetrieve) entries).

Definition SetDelegation (delegation : Delegation) : prog unit :=
  b ← lift (must_marshal MarshalDelegation delegation);
  key ← lift (GetDelegationKey (del_DelegatorAddr delegation) (del_ValidatorAddr delegation));
  store_Set ctx sk key b.

Definition RemoveDelegation (delegation : Delegation) : prog unit :=
  key ← lift (GetDelegationKey (del_DelegatorAddr delegation) (del_ValidatorAddr delegation));
  store_Delete ctx sk key.

Definition GetUnbondingDelegation (DelegatorAddr ValidatorAddr : Address) : prog (option UnbondingDelegation) :=
  ubdKey ← lift (GetUBDKey DelegatorAddr ValidatorAddr);
  bz ← store_Get ctx sk ubdKey;
  match bz with
  | None => mret None
  | Some _ => u ← lift (must_unmarshal UnmarshalUBD bz); mret (Some u)
  end.

(** An index entry holds the key of a record. *)
Definition read_indexed {A} (f : bytes -> option A) (e : slice * slice) : prog A :=
  key ← iter_Value ctx e;
  bz ← store_Get ctx sk (slice_bytes key);
  lift (must_unmarshal f bz).

Definition GetUnbondingDelegationsFromValidator (valAddr : Address) : prog (list UnbondingDelegation) :=
  key ← lift (GetUBDsByValIndexKey valAddr);
  entries ← store_Prefix sk true key;
  mapP (read_indexed UnmarshalUBD) entries.

Definition SetUnbondingDelegation (ubd : UnbondingDelegation) : prog unit :=
  bz ← lift (must_marshal MarshalUBD ubd);
  ubdKey ← lift (GetUBDKey (ubd_DelegatorAddr ubd) (ubd_ValidatorAddr ubd));
  store_Set ctx sk ubdKey bz;;
  idx ← lift (GetUBDByValIndexKey (ubd_DelegatorAddr ubd) (ubd_ValidatorAddr ubd));
  store_Set ctx sk idx ubdKey.

Definition RemoveUnbondingDelegation (ubd : UnbondingDelegation) : prog unit :=
  ubdKey ← lift (GetUBDKey (ubd_DelegatorAddr ubd) (ubd_ValidatorAddr ubd));
  store_Delete ctx sk ubdKey;;
  idx ← lift (GetUBDByValIndexKey (ubd_DelegatorAddr ubd) (ubd_ValidatorAddr ubd));
  store_Delete ctx sk idx.

Definition GetRedelegation (DelegatorAddr ValidatorSrcAddr ValidatorDstAddr : Address) : prog (option Redelegation) :=
  redKey ← lift (GetREDKey DelegatorAddr ValidatorSrcAddr ValidatorDstAddr);
  bz ← store_Get ctx sk redKey;
  match bz with
  | None => mret None
  | Some _ => r ← lift (must_unmarshal UnmarshalRED bz); mret (Some r)
  end.

Definition GetRedelegationsFromValidator (valAddr : Address) : prog (list Redelegation) :=
  key ← lift (GetREDsFromValSrcIndexKey valAddr);
  entries ← store_Prefix sk true key;
  mapP (read_indexed UnmarshalRED) entries.

Definition HasReceivingRedelegation (DelegatorAddr ValidatorDstAddr : Address) : prog bool :=
  prefix ← lift (GetREDsByDelToValDstIndexKey DelegatorAddr ValidatorDstAddr);
  entries ← store_Prefix sk true prefix;
  mret (match entries with [] => false | _ => true end).

Definition SetRedelegation (red : Redelegation) : prog unit :=
  bz ← lift (must_marshal MarshalRED red);
  redKey ← lift (GetREDKey (red_DelegatorAddr red) (red_ValidatorSrcAddr red) (red_ValidatorDstAddr red));
  store_Set ctx sk redKey bz;;
  src ← lift (GetREDByValSrcIndexKey (red_DelegatorAddr red) (red_ValidatorSrcAddr red) (red_ValidatorDstAddr red));
  store_Set ctx sk src redKey;;
  dst ← lift (GetREDByValDstIndexKey (red_DelegatorAddr red) (red_ValidatorSrcAddr red) (red_ValidatorDstAddr red));
  store_Set ctx sk dst redKey.

Definition RemoveRedelegation (red : Redelegation) : prog unit :=
  redKey ← lift (GetREDKey (red_DelegatorAddr red) (red_ValidatorSrcAddr red) (red_ValidatorDstAddr red));
  store_Delete ctx sk redKey;;
  src ← lift (GetREDByValSrcIndexKey (red_DelegatorAddr red) (red_ValidatorSrcAddr red) (red_ValidatorDstAddr red));
  store_Delete ctx sk src;;
  dst ← lift (GetREDByValDstIndexKey (red_DelegatorAddr red) (red_ValidatorSrcAddr red) (red_ValidatorDstAddr red));
  store_Delete ctx sk dst.

(** ** sdk_types.go *)

(** The loops with a callback: [fn i x s] returns [stop] and its new state. *)
Fixpoint iterate_loop {A S} (read : slice * slice -> prog A) (fn : Z -> A -> S -> prog (bool * S))
    (entries : list (slice * slice)) (i : Z) (s : S) : prog S :=
  match entries with
  | [] => mret s
  | e :: entries =>
      a ← read e;
      '(stop, s) ← fn i a s;
      if (stop : bool) then mret s else iterate_loop read fn entries (wrap64 (i + 1)) s
  end.

Definition IterateValidators {S} (fn : Z -> Validator -> S -> prog (bool * S)) (s : S) : prog S :=
  entries ← store_Prefix sk true ValidatorsKey;
  iterate_loop (read_value ctx UnmarshalValidator) fn entries 0 s.

Definition IterateValidatorsBonded {S} (fn : Z -> Validator -> S -> prog (bool * S)) (s : S) : prog S :=
  entries ← store_Prefix sk true ValidatorsBondedIndexKey;
  iterate_loop (fun e => address ← iter_Value ctx e; indexed_validator address) fn entries 0 s.

(** The nil interface for a missing record is [None]. *)
Definition keeper_Validator (address : Address) : prog (option Validator) := GetValidator address.

Definition TotalPower : prog Rat := pool ← GetPool; mret (BondedShares pool).

Definition keeper_Delegation (addrDel addrVal : Address) : prog (option Delegation) := GetDelegation addrDel addrVal.

Definition IterateDelegations {S} (delAddr : Address) (fn : Z -> Delegation -> S -> prog (bool * S)) (s : S) : prog S :=
  key ← lift (GetDelegationsKey delAddr);
  entries ← store_Prefix sk true key;
  iterate_loop (read_value ctx UnmarshalDelegation) fn entries 0 s.

(** ** inflation.go *)

Definition hrsPerYr : Z := 8766.
Definition precision : Z := 100000000000.
Definition hrsPerYrRat : Rat := Qred (hrsPerYr # 1).

(** The next rate, from the parameters and the pool. *)
Definition next_inflation (params : Params) (pool : Pool) : outcome Rat :=
  bondedRatio ← BondedRatio pool;
  q ← Rat.Quo bondedRatio (GoalBonded params);
  let inflationRateChangePerYear := Rat.Mul (Rat.Sub Rat.OneRat q) (InflationRateChange params) in
  inflationRateChange ← Rat.Quo inflationRateChangePerYear hrsPerYrRat;
  let inflation := Rat.Add (Inflation pool) inflationRateChange in
  let inflation := if Rat.GT inflation (InflationMax params) then InflationMax params else inflation in
  let inflation := if Rat.LT inflation (InflationMin params) then InflationMin params else inflation in
  Rat.Round inflation precision.

Definition NextInflation : prog Rat :=
  params ← GetParams;
  pool ← GetPool;
  lift (next_inflation params pool).

Definition ProcessProvisions : prog Pool :=
  pool ← GetPool;
  inflation ← NextInflation;
  let pool := with_Inflation pool (InflationLastTime pool) inflation in
  supply ← lift (Rat.NewRat (TokenSupply pool) []);
  q ← lift (Rat.Quo (Rat.Mul (Inflation pool) supply) hrsPerYrRat);
  let provisions := Rat.RoundInt64 q in
  mret (with_Loose pool (wrap64 (LooseTokens pool + provisions))).
End keeper.
