(* ===== verification/StakeVal.v ===== *)
(** * x/stake/keeper/validator.go: changes of the validator set

    UpdateValidator and what it calls, and SetParams of keeper.go, which
    recomputes the set.  The deferred write of UpdateValidator happens on a
    panic too ([OnPanic]), with the value its variable has at that point.  The
    order in which UpdateBondedValidatorsFull goes through its map of
    validators to kick out is Go's map order, a parameter. *)
From Stdlib Require Import Strings.Byte Strings.String.
From S2P Require Import Prelude Int Rational Errors Coin KVStore MultiStore Account Context ProgLogic Auth Records.
From S2P Require Import Pool Validator StakeKey StakeKeeper.
From Stdlib Require Import QArith.
#[local] Open Scope string_scope.
#[local] Open Scope list_scope.
#[local] Open Scope Z_scope.

Section validator_set.
Context `{StakeCodec} `{!AddrCodec} (kick_order : list Address -> list Address) (k : Keeper) (ctx : Ctx).
Abbreviation sk := (storeKey k).

Definition SetTendermintUpdate (addr : Address) (val : outcome WRSPVal) : prog unit :=
  val ← lift val;
  bz ← lift (must_marshal MarshalWRSPVal val);
  store_Set ctx sk (GetTendermintUpdatesKey addr) bz.

Definition unbondValidator (validator : Validator) : prog Validator :=
  pool ← GetPool k ctx;
  if decide (val_Status validator = Unbonded) then Fault (PanicString "should not already be unbonded") else
  '(validator, pool) ← lift (UpdateStatus validator pool Unbonded);
  SetPool k ctx pool;;
  SetValidator k ctx validator;;
  SetTendermintUpdate (Owner validator) (WRSPValidatorZero validator);;
  store_Delete ctx sk (GetValidatorsBondedIndexKey (Owner validator));;
  mret validator.

Definition bondValidator (validator : Validator) : prog Validator :=
  pool ← GetPool k ctx;
  if decide (val_Status validator = Bonded) then Fault (PanicString "should not already be bonded") else
  '(validator, pool) ← lift (UpdateStatus validator pool Bonded);
  SetPool k ctx pool;;
  SetValidator k ctx validator;;
  SetValidatorBondedIndex k ctx validator;;
  SetTendermintUpdate (Owner validator) (WRSPValidator validator);;
  mret validator.

Definition RemoveValidator (address : Address) : prog unit :=
  validator ← GetValidator k ctx address;
  match validator with
  | None => mret tt
  | Some validator =>
      pool ← GetPool k ctx;
      store_Delete ctx sk (GetValidatorKey address);;
      pubkeyKey ← lift (GetValidatorByPubKeyIndexKey (val_PubKey validator));
      store_Delete ctx sk pubkeyKey;;
      powerKey ← lift (GetValidatorsByPowerIndexKey validator pool);
      store_Delete ctx sk powerKey;;
      bonded ← store_Get ctx sk (GetValidatorsBondedIndexKey (Owner validator));
      match bonded with
      | None => mret tt
      | Some _ =>
          store_Delete ctx sk (GetValidatorsBondedIndexKey (Owner validator));;
          SetTendermintUpdate address (WRSPValidatorZero validator)
      end
  end.

Definition revoked_bonded : panic_value := PanicString "revoked validator cannot be bonded".

(** The end of the loops: the last validator counted is on the cliff when the
    set is full.  With none counted it is the zero validator, whose rationals
    are nil: converting its shares panics, at the latest when they are
    multiplied. *)
Definition set_cliff (maxValidators count : Z) (validator : option Validator) : prog unit :=
  if count =? maxValidators then
    pool ← GetPool k ctx;
    match validator with
    | Some validator => setCliffValidator k ctx validator pool
    | None => lift (EquivalentBondedShares zero_Validator pool);; Fault nil_pointer
    end
  else mret tt.

(** The loop of UpdateBondedValidators: [kickCliffValidator] and the updated
    new validator. *)
Fixpoint update_loop (maxValidators : Z) (newValidator : Validator) (entries : list (slice * slice))
    (count : Z) (validator : option Validator) (kick : bool) (updatedVal : Validator) : prog (bool * Validator) :=
  match entries with
  | [] => set_cliff maxValidators count validator;; mret (kick, updatedVal)
  | e :: entries =>
      if last_index maxValidators <? count
      then set_cliff maxValidators count validator;; mret (kick, updatedVal)
      else
        ownerAddr ← iter_Value ctx e;
        let is_new := bool_decide (slice_bytes ownerAddr = Owner newValidator) in
        validator ← (if is_new then mret newValidator else indexed_validator k ctx ownerAddr);
        '(validator, kick, updatedVal) ←
          (if negb (bool_decide (val_Status validator = Bonded)) && negb (Revoked validator) then
             validator ← bondValidator validator;
             mret (validator, true, if is_new then validator else updatedVal)
           else mret (validator, kick, updatedVal));
        if Revoked validator && bool_decide (val_Status validator = Bonded) then Fault revoked_bonded
        else update_loop maxValidators newValidator entries (count + 1) (Some validator) kick updatedVal
  end.

Definition UpdateBondedValidators (newValidator : Validator) : prog Validator :=
  oldCliffValidatorAddr ← getCliffValidator k ctx;
  params ← GetParams k ctx;
  entries ← store_Prefix sk false ValidatorsByPowerIndexKey;
  '(kickCliffValidator, updatedVal) ←
    update_loop (MaxValidators params) newValidator entries 0 None false zero_Validator;
  match oldCliffValidatorAddr, kickCliffValidator with
  | Some addr, true =>
      validator ← indexed_validator k ctx oldCliffValidatorAddr;
      unbondValidator validator;;
      mret updatedVal
  | _, _ => mret updatedVal
  end.

(** The set toKickOut of UpdateBondedValidatorsFull. *)
Fixpoint collect_addrs (entries : list (slice * slice)) (acc : gset Address) : prog (gset Address) :=
  match entries with
  | [] => mret acc
  | e :: entries => ownerAddr ← iter_Value ctx e; collect_addrs entries ({[ slice_bytes ownerAddr ]} ∪ acc)
  end.

Fixpoint full_loop (maxValidators : Z) (entries : list (slice * slice)) (count : Z) (validator : option Validator)
    (toKickOut : gset Address) : prog (gset Address) :=
  match entries with
  | [] => set_cliff maxValidators count validator;; mret toKickOut
  | e :: entries =>
      if last_index maxValidators <? count then set_cliff maxValidators count validator;; mret toKickOut
      else
        ownerAddr ← iter_Value ctx e;
        validator ← indexed_validator k ctx ownerAddr;
        '(validator, toKickOut) ←
          (if bool_decide (slice_bytes ownerAddr ∈ toKickOut)
           then mret (validator, toKickOut ∖ {[ slice_bytes ownerAddr ]})
           else validator ← bondValidator validator; mret (validator, toKickOut));
        if Revoked validator && bool_decide (val_Status validator = Bonded) then Fault revoked_bonded
        else full_loop maxValidators entries (count + 1) (Some validator) toKickOut
  end.

Definition UpdateBondedValidatorsFull : prog unit :=
  entries ← store_Prefix sk true ValidatorsBondedIndexKey;
  toKickOut ← collect_addrs entries ∅;
  params ← GetParams k ctx;
  entries ← store_Prefix sk false ValidatorsByPowerIndexKey;
  toKickOut ← full_loop (MaxValidators params) entries 0 None toKickOut;
  forP (kick_order (elements toKickOut)) (fun ownerAddr =>
    validator ← indexed_validator k ctx (Some ownerAddr);
    unbondValidator validator;;
    mret tt).

(** ** UpdateValidator *)

(** The fields of the zero validator stand for those of a missing one. *)
Definition old_or_zero (oldValidator : option Validator) : Validator := default zero_Validator oldValidator.

(** [validator] runs under the deferred write of itself. *)
Definition deferred {A} (ownerAddr : Address) (validator : Validator) (p : prog A) : prog A :=
  OnPanic p
    (bz ← lift (must_marshal MarshalValidator validator); store_Set ctx sk (GetValidatorKey ownerAddr) bz) Ret.

(** The height and counter a validator is ranked by. *)
Definition set_bond_height (ownerAddr : Address) (oldValidator : option Validator) (validator : Validator)
    : prog Validator :=
  if decide (val_Status (old_or_zero oldValidator) = Bonded) then
    mret (with_Bond validator (BondHeight (old_or_zero oldValidator)) (BondIntraTxCounter (old_or_zero oldValidator)))
  else
    let validator := with_Bond validator (cx_BlockHeight ctx) (BondIntraTxCounter validator) in
    counter ← deferred ownerAddr validator (GetIntraTxCounter k ctx);
    let validator := with_Bond validator (BondHeight validator) counter in
    deferred ownerAddr validator (SetIntraTxCounter k ctx (wrap16 (counter + 1)));;
    mret validator.

(** The entry of the power index moves; the new key is returned. *)
Definition move_power_index (oldValidator : option Validator) (validator : Validator) (pool : Pool) : prog bytes :=
  match oldValidator with
  | None => mret tt
  | Some old => key ← lift (GetValidatorsByPowerIndexKey old pool); store_Delete ctx sk key
  end;;
  valPower ← lift (GetValidatorsByPowerIndexKey validator pool);
  store_Set ctx sk valPower (Owner validator);;
  mret valPower.

(** What follows the index: the two efficiency cases, or the validator set. *)
Definition update_set (oldValidator : option Validator) (validator : Validator) (valPower : bytes)
    (powerIncreasing : bool) : prog Validator :=
  let old_Status := val_Status (old_or_zero oldValidator) in
  if powerIncreasing && negb (Revoked validator) && bool_decide (old_Status = Bonded) then
    SetTendermintUpdate (Owner validator) (WRSPValidator validator);;
    mret validator
  else
    cliffPower ← getCliffValidatorPower k ctx;
    if negb (bool_decide (cliffPower = None)) &&
       (bool_decide (oldValidator = None) || bool_decide (old_Status = Unbonded)) &&
       bool_decide (bytes_lt valPower (slice_bytes cliffPower))
    then mret validator
    else
      updatedVal ← UpdateBondedValidators validator;
      mret (if (length (Owner updatedVal) =? 0)%nat then validator else updatedVal).

Definition UpdateValidator (validator : Validator) : prog Validator :=
  pool ← GetPool k ctx;
  let ownerAddr := Owner validator in
  oldValidator ← deferred ownerAddr validator (GetValidator k ctx ownerAddr);
  validator ← deferred ownerAddr validator
    (if Revoked validator && bool_decide (val_Status (old_or_zero oldValidator) = Bonded)
     then unbondValidator validator else mret validator);
  deferred ownerAddr validator
    (if Revoked validator && bool_decide (val_Status (old_or_zero oldValidator) = Bonded)
     then clearCliffValidator k ctx else mret tt);;
  let powerIncreasing := bool_decide (is_Some oldValidator) &&
    Rat.LT (shares_Bonded (val_PoolShares (old_or_zero oldValidator))) (shares_Bonded (val_PoolShares validator)) in
  validator ← set_bond_height ownerAddr oldValidator validator;
  valPower ← deferred ownerAddr validator (move_power_index oldValidator validator pool);
  validator ← deferred ownerAddr validator (update_set oldValidator validator valPower powerIncreasing);
  bz ← lift (must_marshal MarshalValidator validator);
  store_Set ctx sk (GetValidatorKey ownerAddr) bz;;
  mret validator.

(** ** keeper.go: SetParams *)

(** The set is recomputed before the new parameters are stored. *)
Definition SetParams (params : Pool.Params) : prog unit :=
  exParams ← GetParams k ctx;
  if negb (MaxValidators exParams =? MaxValidators params) then
    UpdateBondedValidatorsFull;;
    SetNewParams k ctx params
  else SetNewParams k ctx params.
End validator_set.
