(* ===== verification/StakeDel.v ===== *)
(** * x/stake/keeper: delegation.go and slash.go

    Delegating, unbonding, redelegating and slashing. *)
From Stdlib Require Import Strings.Byte Strings.String.
From S2P Require Import Prelude Int Rational Errors Coin KVStore MultiStore Account Context ProgLogic Auth Records Ante Bank.
From S2P Require Import Pool Validator StakeKey StakeKeeper StakeVal.
From Stdlib Require Import QArith.
#[local] Open Scope string_scope.
#[local] Open Scope list_scope.
#[local] Open Scope Z_scope.

(** Assignments to fields of copies. *)
Definition with_del_Shares (d : Delegation) (shares : Rat) : Delegation :=
  mk_Delegation (del_DelegatorAddr d) (del_ValidatorAddr d) shares (del_Height d).
Definition with_del_Height (d : Delegation) (height : Z) : Delegation :=
  mk_Delegation (del_DelegatorAddr d) (del_ValidatorAddr d) (del_Shares d) height.
Definition with_Amount_of (c : Coin) (amount : Int.Int) : Coin := mk_Coin (Coin.Denom c) amount.
Definition with_ubd_Balance (u : UnbondingDelegation) (amount : Int.Int) : UnbondingDelegation :=
  mk_UnbondingDelegation (ubd_DelegatorAddr u) (ubd_ValidatorAddr u) (ubd_CreationHeight u) (ubd_MinTime u)
    (ubd_InitialBalance u) (with_Amount_of (ubd_Balance u) amount).
Definition with_red_Balance (r : Redelegation) (amount : Int.Int) : Redelegation :=
  mk_Redelegation (red_DelegatorAddr r) (red_ValidatorSrcAddr r) (red_ValidatorDstAddr r) (red_CreationHeight r)
    (red_MinTime r) (red_InitialBalance r) (with_Amount_of (red_Balance r) amount) (red_SharesSrc r) (red_SharesDst r).

Section delegation.
Context `{StakeCodec} `{!AddrCodec} `{!Codec} (k : Keeper) (ctx : Ctx).
Abbreviation sk := (storeKey k).

(** ** delegation.go *)

(** The issued shares or the error. *)
Definition Delegate (delegatorAddr : Address) (bondAmt : Coin) (validator : Validator) : prog (Rat + sdkError) :=
  delegation ← GetDelegation k ctx delegatorAddr (Owner validator);
  let delegation := default (mk_Delegation delegatorAddr (Owner validator) Rat.ZeroRat 0) delegation in
  pool ← GetPool k ctx;
  '(_, _, err) ← subtractCoins ctx (coinKeeper k) (del_DelegatorAddr delegation) [bondAmt];
  match err with
  | Some err => mret (inr err)
  | None =>
      amount ← lift (Int.Int64 (Amount bondAmt));
      '(validator, pool, newShares) ← lift (AddTokensFromDel validator pool amount);
      let delegation := with_del_Shares delegation (Rat.Add (del_Shares delegation) newShares) in
      let delegation := with_del_Height delegation (cx_BlockHeight ctx) in
      SetPool k ctx pool;;
      SetDelegation k ctx delegation;;
      UpdateValidator k ctx validator;;
      mret (inl newShares)
  end.

(** The tokens paid out or the error. *)
Definition unbond (delegatorAddr validatorAddr : Address) (shares : Rat) : prog (Z + sdkError) :=
  delegation ← GetDelegation k ctx delegatorAddr validatorAddr;
  match delegation with
  | None => mret (inr (StakeErrors.ErrNoDelegatorForAddress (Codespace k)))
  | Some delegation =>
      if Rat.LT (del_Shares delegation) shares
      then mret (inr (StakeErrors.ErrNotEnoughDelegationShares (Codespace k) (Rat.String (del_Shares delegation))))
      else
        validator ← GetValidator k ctx validatorAddr;
        match validator with
        | None => mret (inr (StakeErrors.ErrNoValidatorFound (Codespace k)))
        | Some validator =>
            let delegation := with_del_Shares delegation (Rat.Sub (del_Shares delegation) shares) in
            validator ←
              (if Rat.IsZero (del_Shares delegation) then
                 let validator :=
                   if bool_decide (del_DelegatorAddr delegation = Owner validator) && negb (Revoked validator)
                   then with_Revoked validator true else validator in
                 RemoveDelegation k ctx delegation;;
                 mret validator
               else
                 let delegation := with_del_Height delegation (cx_BlockHeight ctx) in
                 SetDelegation k ctx delegation;;
                 mret validator);
            pool ← GetPool k ctx;
            '(validator, pool, amount) ← lift (RemoveDelShares validator pool shares);
            SetPool k ctx pool;;
            validator ← UpdateValidator k ctx validator;
            (if Rat.IsZero (DelegatorShares validator) then RemoveValidator k ctx (Owner validator) else mret tt);;
            mret (inl amount)
        end
  end.

(** A nil error is [None]. *)
Definition BeginUnbonding (delegatorAddr validatorAddr : Address) (sharesAmount : Rat) : prog (option sdkError) :=
  r ← unbond delegatorAddr validatorAddr sharesAmount;
  match r with
  | inr err => mret (Some err)
  | inl returnAmount =>
      params ← GetParams k ctx;
      let minTime := wrap64 (hd_Time (cx_BlockHeader ctx) + UnbondingTime params) in
      let balance := mk_Coin (BondDenom params) (Int.NewInt returnAmount) in
      (* CreationHeight is not set *)
      let ubd := mk_UnbondingDelegation delegatorAddr validatorAddr 0 minTime balance balance in
      SetUnbondingDelegation k ctx ubd;;
      mret None
  end.

Definition CompleteUnbonding (delegatorAddr validatorAddr : Address) : prog (option sdkError) :=
  ubd ← GetUnbondingDelegation k ctx delegatorAddr validatorAddr;
  match ubd with
  | None => mret (Some (StakeErrors.ErrNoUnbondingDelegation (Codespace k)))
  | Some ubd =>
      let ctxTime := hd_Time (cx_BlockHeader ctx) in
      if ctxTime <? ubd_MinTime ubd then
        mret (Some (StakeErrors.ErrNotMature (Codespace k) "unbonding" "unit-time" (ubd_MinTime ubd) ctxTime))
      else
        '(_, _, err) ← addCoins ctx (coinKeeper k) (ubd_DelegatorAddr ubd) [ubd_Balance ubd];
        match err with
        | Some err => mret (Some err)
        | None => RemoveUnbondingDelegation k ctx ubd;; mret None
        end
  end.

Definition BeginRedelegation (delegatorAddr validatorSrcAddr validatorDstAddr : Address) (sharesAmount : Rat)
    : prog (option sdkError) :=
  transitive ← HasReceivingRedelegation k delegatorAddr validatorSrcAddr;
  if (transitive : bool) then mret (Some (StakeErrors.ErrTransitiveRedelegation (Codespace k))) else
  r ← unbond delegatorAddr validatorSrcAddr sharesAmount;
  match r with
  | inr err => mret (Some err)
  | inl returnAmount =>
      params ← GetParams k ctx;
      let returnCoin := mk_Coin (BondDenom params) (Int.NewInt returnAmount) in
      dstValidator ← GetValidator k ctx validatorDstAddr;
      match dstValidator with
      | None => mret (Some (StakeErrors.ErrBadRedelegationDst (Codespace k)))
      | Some dstValidator =>
          r ← Delegate delegatorAddr returnCoin dstValidator;
          match r with
          | inr err => mret (Some err)
          | inl sharesCreated =>
              let minTime := wrap64 (hd_Time (cx_BlockHeader ctx) + UnbondingTime params) in
              (* CreationHeight is not set *)
              let red := mk_Redelegation delegatorAddr validatorSrcAddr validatorDstAddr 0 minTime
                           returnCoin returnCoin sharesAmount sharesCreated in
              SetRedelegation k ctx red;;
              mret None
          end
      end
  end.

Definition CompleteRedelegation (delegatorAddr validatorSrcAddr validatorDstAddr : Address) : prog (option sdkError) :=
  red ← GetRedelegation k ctx delegatorAddr validatorSrcAddr validatorDstAddr;
  match red with
  | None => mret (Some (StakeErrors.ErrNoRedelegation (Codespace k)))
  | Some red =>
      let ctxTime := hd_Time (cx_BlockHeader ctx) in
      if ctxTime <? red_MinTime red then
        mret (Some (StakeErrors.ErrNotMature (Codespace k) "redelegation" "unit-time" (red_MinTime red) ctxTime))
      else RemoveRedelegation k ctx red;; mret None
  end.

(** ** slash.go *)

Definition setRevoked (pubkey : option PubKey) (revoked : bool) : prog unit :=
  validator ← GetValidatorByPubKey k ctx pubkey;
  match validator with
  | None => Fault (PanicString "Validator with pubkey not found, cannot set revoked")
  | Some validator => UpdateValidator k ctx (with_Revoked validator revoked);; mret tt
  end.

(** The pubkey's address is taken for the log. *)
Definition log_address (pubkey : option PubKey) : prog unit :=
  match pubkey with None => Fault nil_pointer | Some _ => mret tt end.

Definition Revoke (pubkey : option PubKey) : prog unit := setRevoked pubkey true;; log_address pubkey.
Definition Unrevoke (pubkey : option PubKey) : prog unit := setRevoked pubkey false;; log_address pubkey.

(** The amount an entry of [initial] tokens is to be slashed by. *)
Definition slash_of (initial : Int.Int) (slashFactor : Rat) : outcome Int.Int :=
  r ← Rat.NewRatFromInt initial [Int.OneInt]; Rat.RoundInt (Rat.Mul r slashFactor).

Definition slashUnbondingDelegation (ubd : UnbondingDelegation) (infractionHeight : Z) (slashFactor : Rat)
    : prog Int.Int :=
  let now := hd_Time (cx_BlockHeader ctx) in
  if ubd_CreationHeight ubd <? infractionHeight then mret Int.ZeroInt
  else if ubd_MinTime ubd <? now then mret Int.ZeroInt
  else
    slashAmount ← lift (slash_of (Amount (ubd_InitialBalance ubd)) slashFactor);
    let balance := Amount (ubd_Balance ubd) in
    let unbondingSlashAmount := if Int.GT slashAmount balance then balance else slashAmount in
    (if negb (Int.IsZero unbondingSlashAmount) then
       newBalance ← lift (Int.Sub balance unbondingSlashAmount);
       SetUnbondingDelegation k ctx (with_ubd_Balance ubd newBalance);;
       pool ← GetPool k ctx;
       (* the whole slashAmount is burned *)
       n ← lift (Int.Int64 slashAmount);
       SetPool k ctx (with_Loose pool (wrap64 (LooseTokens pool - n)))
     else mret tt);;
    mret slashAmount.

Definition slashRedelegation (validator : Validator) (red : Redelegation) (infractionHeight : Z) (slashFactor : Rat)
    : prog Int.Int :=
  let now := hd_Time (cx_BlockHeader ctx) in
  if red_CreationHeight red <? infractionHeight then mret Int.ZeroInt
  else if red_MinTime red <? now then mret Int.ZeroInt
  else
    slashAmount ← lift (slash_of (Amount (red_InitialBalance red)) slashFactor);
    let balance := Amount (red_Balance red) in
    let redelegationSlashAmount := if Int.GT slashAmount balance then balance else slashAmount in
    (if negb (Int.IsZero redelegationSlashAmount) then
       newBalance ← lift (Int.Sub balance redelegationSlashAmount);
       SetRedelegation k ctx (with_red_Balance red newBalance)
     else mret tt);;
    let sharesToUnbond := Rat.Mul slashFactor (red_SharesDst red) in
    if Rat.IsZero sharesToUnbond then mret slashAmount else
    delegation ← GetDelegation k ctx (red_DelegatorAddr red) (red_ValidatorDstAddr red);
    match delegation with
    | None => mret slashAmount
    | Some delegation =>
        let sharesToUnbond := if Rat.GT sharesToUnbond (del_Shares delegation) then del_Shares delegation else sharesToUnbond in
        r ← unbond (red_DelegatorAddr red) (red_ValidatorDstAddr red) sharesToUnbond;
        match r with
        | inr err => Fault (PanicString "error unbonding delegator")
        | inl tokensToBurn =>
            pool ← GetPool k ctx;
            SetPool k ctx (with_Loose pool (wrap64 (LooseTokens pool - tokensToBurn)));;
            mret slashAmount
        end
    end.

(** A loop of Slash over the entries to slash. *)
Fixpoint slash_loop {A} (slash : A -> prog Int.Int) (l : list A) (remaining : Int.Int) : prog Int.Int :=
  match l with
  | [] => mret remaining
  | a :: l =>
      amountSlashed ← slash a;
      if Int.IsZero amountSlashed then slash_loop slash l remaining
      else remaining ← lift (Int.Sub remaining amountSlashed); slash_loop slash l remaining
  end.

Definition Slash (pubkey : option PubKey) (infractionHeight power : Z) (slashFactor : Rat) : prog unit :=
  if Rat.LT slashFactor Rat.ZeroRat
  then Fault (PanicString "attempted to slash with a negative slashFactor") else
  powerRat ← lift (Rat.NewRat power []);
  slashAmount ← lift (Rat.RoundInt (Rat.Mul powerRat slashFactor));
  validator ← GetValidatorByPubKey k ctx pubkey;
  match validator with
  | None => Fault (PanicString "attempted to slash a nonexistent validator")
  | Some validator =>
      let ownerAddress := GetOwner validator in
      remainingSlashAmount ←
        (if cx_BlockHeight ctx <? infractionHeight
         then Fault (PanicString "impossible attempt to slash future infraction")
         else if infractionHeight =? cx_BlockHeight ctx then mret slashAmount
         else
           unbondingDelegations ← GetUnbondingDelegationsFromValidator k ctx ownerAddress;
           remaining ← slash_loop (fun u => slashUnbondingDelegation u infractionHeight slashFactor)
                         unbondingDelegations slashAmount;
           redelegations ← GetRedelegationsFromValidator k ctx ownerAddress;
           slash_loop (fun r => slashRedelegation validator r infractionHeight slashFactor) redelegations remaining);
      rounded ← lift (Rat.RoundInt (ps_Amount (val_PoolShares validator)));
      let sharesToRemove := if Int.GT remainingSlashAmount rounded then rounded else remainingSlashAmount in
      pool ← GetPool k ctx;
      shares ← lift (Rat.NewRatFromInt sharesToRemove []);
      '(validator, pool, burned) ← lift (RemovePoolShares validator pool shares);
      let pool := with_Loose pool (wrap64 (LooseTokens pool - burned)) in
      SetPool k ctx pool;;
      UpdateValidator k ctx validator;;
      log_address pubkey
  end.
End delegation.
