(* ===== verification/StakeHandler.v ===== *)
(** * x/stake: handler.go and genesis.go

    The handlers of the staking messages, the end blocker, and the module's
    genesis state. *)
From Stdlib Require Import Strings.Byte Strings.String.
From S2P Require Import Prelude Int Rational Errors Coin KVStore MultiStore Account Context ProgLogic Auth Records Ante Bank.
From S2P Require Import Pool Validator StakeKey StakeMsg StakeKeeper StakeVal StakeDel.
From Stdlib Require Import QArith.
#[local] Open Scope string_scope.
#[local] Open Scope list_scope.
#[local] Open Scope Z_scope.

(** ** tags/tags.go, and the keys of types/tags.go *)

Definition TagAction : string := "action".
Definition TagSrcValidator : string := "source-validator".
Definition TagDstValidator : string := "destination-validator".
Definition TagDelegator : string := "delegator".
Definition TagMoniker : string := "moniker".
Definition TagIdentity : string := "Identity".
Definition ActionCreateValidator : bytes := string_bytes "create-validator".
Definition ActionEditValidator : bytes := string_bytes "edit-validator".
Definition ActionDelegate : bytes := string_bytes "delegate".
Definition ActionBeginUnbonding : bytes := string_bytes "begin-unbonding".
Definition ActionCompleteUnbonding : bytes := string_bytes "complete-unbonding".
Definition ActionBeginRedelegation : bytes := string_bytes "begin-redelegation".
Definition ActionCompleteRedelegation : bytes := string_bytes "complete-redelegation".

(** types/genesis.go *)
Record GenesisState `{Crypto} := mk_GenesisState {
  gs_Pool : Pool; gs_Params : Pool.Params; gs_Validators : list Validator; gs_Bonds : list Delegation }.
Definition NewGenesisState `{Crypto} (pool : Pool) (params : Pool.Params) (validators : list Validator)
    (bonds : list Delegation) : GenesisState := mk_GenesisState _ pool params validators bonds.
Definition DefaultGenesisState `{Crypto} : outcome GenesisState :=
  pool ← InitialPool; params ← DefaultParams; Ok (mk_GenesisState _ pool params [] []).

(** tmtypes.GenesisValidator. *)
Record GenesisValidator `{Crypto} := mk_GenesisValidator {
  gv_PubKey : option PubKey; gv_Power : Z; gv_Name : string }.

Section handler.
Context `{StakeCodec} `{!AddrCodec} `{!Codec} (kick_order : list Address -> list Address) (k : Keeper) (ctx : Ctx).

Definition addr_tag (a : slice) : tag_arg := ArgBytes (string_bytes (HexString (slice_bytes a))).

Definition handleMsgCreateValidator (msg : MsgCreateValidator) : prog Result :=
  found ← GetValidator k ctx (slice_bytes (cv_ValidatorAddr msg));
  match found with
  | Some _ => mret (err_Result (StakeErrors.ErrValidatorAlreadyExists (Codespace k)))
  | None =>
      params ← GetParams k ctx;
      if negb (bool_decide (Coin.Denom (cv_SelfDelegation msg) = BondDenom params))
      then mret (err_Result (StakeErrors.ErrBadDenom (Codespace k)))
      else
        let validator := NewValidator (slice_bytes (cv_ValidatorAddr msg)) (cv_PubKey msg) (cv_Description msg) in
        SetValidator k ctx validator;;
        SetValidatorByPubKeyIndex k ctx validator;;
        r ← Delegate k ctx (slice_bytes (cv_ValidatorAddr msg)) (cv_SelfDelegation msg) validator;
        match r with
        | inr err => mret (err_Result err)
        | inl _ =>
            tags ← lift (NewTags [ArgString TagAction; ArgBytes ActionCreateValidator;
                                  ArgString TagDstValidator; addr_tag (cv_ValidatorAddr msg);
                                  ArgString TagMoniker; ArgBytes (string_bytes (Moniker (cv_Description msg)));
                                  ArgString TagIdentity; ArgBytes (string_bytes (Identity (cv_Description msg)))]);
            mret (tags_Result tags)
        end
  end.

Definition handleMsgEditValidator (msg : MsgEditValidator) : prog Result :=
  validator ← GetValidator k ctx (slice_bytes (ev_ValidatorAddr msg));
  match validator with
  | None => mret (err_Result (StakeErrors.ErrNoValidatorFound (Codespace k)))
  | Some validator =>
      let '(description, err) := UpdateDescription (val_Description validator) (ev_Description msg) in
      match err with
      | Some err => mret (err_Result err)
      | None =>
          let validator := with_Description validator description in
          UpdateValidator k ctx validator;;
          tags ← lift (NewTags [ArgString TagAction; ArgBytes ActionEditValidator;
                                ArgString TagDstValidator; addr_tag (ev_ValidatorAddr msg);
                                ArgString TagMoniker; ArgBytes (string_bytes (Moniker description));
                                ArgString TagIdentity; ArgBytes (string_bytes (Identity description))]);
          mret (tags_Result tags)
      end
  end.

Definition handleMsgDelegate (msg : MsgDelegate) : prog Result :=
  validator ← GetValidator k ctx (slice_bytes (dl_ValidatorAddr msg));
  match validator with
  | None => mret (err_Result (StakeErrors.ErrNoValidatorFound (Codespace k)))
  | Some validator =>
      params ← GetParams k ctx;
      if negb (bool_decide (Coin.Denom (dl_Bond msg) = BondDenom params))
      then mret (err_Result (StakeErrors.ErrBadDenom (Codespace k)))
      else if Revoked validator then mret (err_Result (StakeErrors.ErrValidatorRevoked (Codespace k)))
      else
        r ← Delegate k ctx (slice_bytes (dl_DelegatorAddr msg)) (dl_Bond msg) validator;
        match r with
        | inr err => mret (err_Result err)
        | inl _ =>
            tags ← lift (NewTags [ArgString TagAction; ArgBytes ActionDelegate;
                                  ArgString TagDelegator; addr_tag (dl_DelegatorAddr msg);
                                  ArgString TagDstValidator; addr_tag (dl_ValidatorAddr msg)]);
            mret (tags_Result tags)
        end
  end.

(** The handlers that call one keeper method. *)
Definition keeper_result (err : option sdkError) (args : list tag_arg) : prog Result :=
  match err with
  | Some err => mret (err_Result err)
  | None => tags ← lift (NewTags args); mret (tags_Result tags)
  end.

Definition handleMsgBeginUnbonding (msg : MsgBeginUnbonding) : prog Result :=
  err ← BeginUnbonding k ctx (slice_bytes (bu_DelegatorAddr msg)) (slice_bytes (bu_ValidatorAddr msg))
          (bu_SharesAmount msg);
  keeper_result err [ArgString TagAction; ArgBytes ActionBeginUnbonding;
                     ArgString TagDelegator; addr_tag (bu_DelegatorAddr msg);
                     ArgString TagSrcValidator; addr_tag (bu_ValidatorAddr msg)].

Definition handleMsgCompleteUnbonding (msg : MsgCompleteUnbonding) : prog Result :=
  err ← CompleteUnbonding k ctx (slice_bytes (cu_DelegatorAddr msg)) (slice_bytes (cu_ValidatorAddr msg));
  keeper_result err [ArgString TagAction; ArgBytes ActionCompleteUnbonding;
                     ArgString TagDelegator; addr_tag (cu_DelegatorAddr msg);
                     ArgString TagSrcValidator; addr_tag (cu_ValidatorAddr msg)].

Definition handleMsgBeginRedelegate (msg : MsgBeginRedelegate) : prog Result :=
  err ← BeginRedelegation k ctx (slice_bytes (br_DelegatorAddr msg)) (slice_bytes (br_ValidatorSrcAddr msg))
          (slice_bytes (br_ValidatorDstAddr msg)) (br_SharesAmount msg);
  keeper_result err [ArgString TagAction; ArgBytes ActionBeginRedelegation;
                     ArgString TagDelegator; addr_tag (br_DelegatorAddr msg);
                     ArgString TagSrcValidator; addr_tag (br_ValidatorSrcAddr msg);
                     ArgString TagDstValidator; addr_tag (br_ValidatorDstAddr msg)].

Definition handleMsgCompleteRedelegate (msg : MsgCompleteRedelegate) : prog Result :=
  err ← CompleteRedelegation k ctx (slice_bytes (cr_DelegatorAddr msg)) (slice_bytes (cr_ValidatorSrcAddr msg))
          (slice_bytes (cr_ValidatorDstAddr msg));
  keeper_result err [ArgString TagAction; ArgBytes ActionCompleteRedelegation;
                     ArgString TagDelegator; addr_tag (cr_DelegatorAddr msg);
                     ArgString TagSrcValidator; addr_tag (cr_ValidatorSrcAddr msg);
                     ArgString TagDstValidator; addr_tag (cr_ValidatorDstAddr msg)].

(** The type switch; [as_stake] is the message as one of the module's types. *)
Definition stake_NewHandler {T} (as_stake : T -> option stake_Msg) (msg : T) : prog Result :=
  match as_stake msg with
  | Some (CreateValidator msg) => handleMsgCreateValidator msg
  | Some (EditValidator msg) => handleMsgEditValidator msg
  | Some (DelegateMsg msg) => handleMsgDelegate msg
  | Some (BeginRedelegate msg) => handleMsgBeginRedelegate msg
  | Some (CompleteRedelegate msg) => handleMsgCompleteRedelegate msg
  | Some (BeginUnbondingMsg msg) => handleMsgBeginUnbonding msg
  | Some (CompleteUnbondingMsg msg) => handleMsgCompleteUnbonding msg
  | None => mret (err_Result (ErrTxDecode "invalid message parse in staking module"))
  end.

(** The last inflation time is set on a copy of the pool that
    ProcessProvisions replaces. *)
Definition EndBlocker : prog (list WRSPVal) :=
  pool ← GetPool k ctx;
  let blockTime := hd_Time (cx_BlockHeader ctx) in
  pool ← (if 3600 <=? wrap64 (InflationLastTime pool + blockTime) then ProcessProvisions k ctx else mret pool);
  SetPool k ctx pool;;
  SetIntraTxCounter k ctx 0;;
  ValidatorUpdates ← GetTendermintUpdates k ctx;
  ClearTendermintUpdates k ctx;;
  mret ValidatorUpdates.

(** ** genesis.go *)

Definition InitGenesis (data : GenesisState) : prog unit :=
  SetPool k ctx (gs_Pool data);;
  SetNewParams k ctx (gs_Params data);;
  InitIntraTxCounter k ctx;;
  forP (gs_Validators data) (fun validator =>
    SetValidator k ctx validator;;
    SetValidatorByPubKeyIndex k ctx validator;;
    SetValidatorByPowerIndex k ctx validator (gs_Pool data);;
    if decide (val_Status validator = Bonded) then SetValidatorBondedIndex k ctx validator else mret tt);;
  forP (gs_Bonds data) (fun bond => SetDelegation k ctx bond);;
  UpdateBondedValidatorsFull kick_order k ctx.

Definition WriteGenesis : prog GenesisState :=
  pool ← GetPool k ctx;
  params ← GetParams k ctx;
  validators ← GetAllValidators k ctx;
  bonds ← GetAllDelegations k ctx;
  mret (mk_GenesisState _ pool params validators bonds).

Definition WriteValidators : prog (list GenesisValidator) :=
  IterateValidatorsBonded k ctx (fun _ validator vals =>
    mret (false, vals ++ [mk_GenesisValidator _ (val_GetPubKey validator) (Rat.RoundInt64 (GetPower validator))
                            (GetMoniker validator)])) [].
End handler.
