(* ===== verification/StakeModel.v ===== *)
(** * A concrete encoding of the staking records

    The encoding is a parameter of the development; this one (by Wire.v) shows
    that its laws can hold and lets the keeper run on examples. *)
From Stdlib Require Import Strings.Byte Strings.String.
From S2P Require Import Prelude Wire Int Rational Errors Coin KVStore MultiStore Account Context ProgLogic Auth Records.
From S2P Require Import Pool Validator StakeKey StakeMsg StakeKeeper.
From Stdlib Require Import QArith.
#[local] Open Scope string_scope.
#[local] Open Scope list_scope.
#[local] Open Scope Z_scope.

(** ** The records *)

#[export] Instance wire_Coin : Wire Coin.
Proof. refine (wire_iso (fun c => (Coin.Denom c, Amount c)) (fun p => mk_Coin p.1 p.2) _). by intros []. Defined.

#[export] Instance wire_Params : Wire Pool.Params.
Proof.
  refine (wire_iso (fun p => (InflationRateChange p, InflationMax p, InflationMin p, GoalBonded p, UnbondingTime p,
    MaxValidators p, BondDenom p)) (fun '(a, b, c, d, e, f, g) => Pool.mk_Params a b c d e f g) _). by intros [].
Defined.
#[export] Instance wire_Pool : Wire Pool.
Proof.
  refine (wire_iso (fun p => (LooseTokens p, UnbondedTokens p, UnbondingTokens p, BondedTokens p, UnbondedShares p,
    UnbondingShares p, BondedShares p, InflationLastTime p, Inflation p, DateLastCommissionReset p, PrevBondedShares p))
    (fun '(a, b, c, d, e, f, g, h, i, j, k) => mk_Pool a b c d e f g h i j k) _). by intros [].
Defined.
#[export] Instance wire_BondStatus : Wire BondStatus.
Proof.
  refine (wire_iso (fun s => match s with Unbonded => 0 | Unbonding => 1 | Bonded => 2 end)
    (fun z => if z =? 0 then Unbonded else if z =? 1 then Unbonding else Bonded) _). by intros [].
Defined.
#[export] Instance wire_PoolShares : Wire PoolShares.
Proof. refine (wire_iso (fun s => (Status s, ps_Amount s)) (fun p => mk_PoolShares p.1 p.2) _). by intros []. Defined.
#[export] Instance wire_Description : Wire Description.
Proof.
  refine (wire_iso (fun d => (Moniker d, Identity d, Website d, Details d)) (fun '(a, b, c, d) => mk_Description a b c d) _).
  by intros [].
Defined.
#[export] Instance wire_Delegation : Wire Delegation.
Proof.
  refine (wire_iso (fun d => (del_DelegatorAddr d, del_ValidatorAddr d, del_Shares d, del_Height d))
    (fun '(a, b, c, d) => mk_Delegation a b c d) _). by intros [].
Defined.
#[export] Instance wire_UBD : Wire UnbondingDelegation.
Proof.
  refine (wire_iso (fun u => (ubd_DelegatorAddr u, ubd_ValidatorAddr u, ubd_CreationHeight u, ubd_MinTime u,
    ubd_InitialBalance u, ubd_Balance u)) (fun '(a, b, c, d, e, f) => mk_UnbondingDelegation a b c d e f) _).
  by intros [].
Defined.
#[export] Instance wire_RED : Wire Redelegation.
Proof.
  refine (wire_iso (fun r => (red_DelegatorAddr r, red_ValidatorSrcAddr r, red_ValidatorDstAddr r, red_CreationHeight r,
    red_MinTime r, red_InitialBalance r, red_Balance r, red_SharesSrc r, red_SharesDst r))
    (fun '(a, b, c, d, e, f, g, h, i) => mk_Redelegation a b c d e f g h i) _). by intros [].
Defined.

(** ** Values of the Go types *)

#[export] Instance Q_eq_decision : EqDecision Q.
Proof. solve_decision. Defined.
#[export] Instance is_norm_dec r : Decision (Rat.is_norm r).
Proof. unfold Rat.is_norm. apply _. Defined.
#[export] Instance is_int64_decision z : Decision (is_int64 z).
Proof. unfold is_int64. apply _. Defined.
#[export] Instance is_int16_decision z : Decision (is_int16 z).
Proof. unfold is_int16. apply _. Defined.
#[export] Instance coin_wf_dec c : Decision (coin_wf c).
Proof. unfold coin_wf, Int.wf. apply _. Defined.
#[export] Instance amounts_wf_dec c : Decision (amounts_wf c).
Proof. unfold amounts_wf, Int.wf. apply _. Defined.

(** A record of conditions is decided as their conjunction. *)
Definition decide_record (P Q : Prop) (HPQ : P -> Q) (HQP : Q -> P) `{Decision P} : Decision Q :=
  match decide P with left p => left (HPQ p) | right np => right (fun q => np (HQP q)) end.

#[export] Instance params_wf_dec p : Decision (params_wf p).
Proof.
  refine (decide_record (Forall Rat.is_norm [InflationRateChange p; InflationMax p; InflationMin p; GoalBonded p] /\
    is_int64 (UnbondingTime p) /\ 0 <= MaxValidators p < 2 ^ 16) _ _ _); [by intros (? & ? & ?)|by intros []].
Defined.
#[export] Instance pool_wf_dec p : Decision (pool_wf p).
Proof.
  refine (decide_record (Forall is_int64 [LooseTokens p; UnbondedTokens p; UnbondingTokens p; BondedTokens p;
      InflationLastTime p; DateLastCommissionReset p] /\
    Forall Rat.is_norm [UnbondedShares p; UnbondingShares p; BondedShares p; Inflation p; PrevBondedShares p]) _ _ _);
    [by intros []|by intros []].
Defined.
#[export] Instance delegation_wf_dec d : Decision (delegation_wf d).
Proof.
  refine (decide_record (Rat.is_norm (del_Shares d) /\ is_int64 (del_Height d)) _ _ _); [by intros []|by intros []].
Defined.
#[export] Instance ubd_wf_dec u : Decision (ubd_wf u).
Proof.
  refine (decide_record (is_int64 (ubd_CreationHeight u) /\ is_int64 (ubd_MinTime u) /\ coin_wf (ubd_InitialBalance u) /\
    coin_wf (ubd_Balance u)) _ _ _); [by intros (? & ? & ? & ?)|by intros []].
Defined.
#[export] Instance red_wf_dec r : Decision (red_wf r).
Proof.
  refine (decide_record (is_int64 (red_CreationHeight r) /\ is_int64 (red_MinTime r) /\ coin_wf (red_InitialBalance r) /\
    coin_wf (red_Balance r) /\ Rat.is_norm (red_SharesSrc r) /\ Rat.is_norm (red_SharesDst r)) _ _ _);
    [by intros (? & ? & ? & ? & ? & ?)|by intros []].
Defined.

(** ** The encoding *)

Section model.
#[local] Existing Instance model_Crypto.

#[export] Instance wire_Validator : Wire Validator.
Proof.
  refine (wire_iso (B := bytes * option bytes * bool * PoolShares * Q * Description * Z * Z * list Coin * (Q * Q * Q * Q * Q))
    (fun v : Validator => (Owner v, (val_PubKey v : option bytes), Revoked v, val_PoolShares v, DelegatorShares v,
    val_Description v, BondHeight v, BondIntraTxCounter v, ProposerRewardPool v,
    (Commission v, CommissionMax v, CommissionChangeRate v, CommissionChangeToday v, val_PrevBondedShares v)))
    (fun '(a, b, c, d, e, f, g, h, i, (j, k, l, m, n)) => mk_Validator a b c d e f g h i j k l m n) _).
  by intros [].
Defined.

#[export] Instance validator_wf_dec (v : Validator) : Decision (validator_wf v).
Proof.
  refine (decide_record (Forall Rat.is_norm [ps_Amount (val_PoolShares v); DelegatorShares v; Commission v; CommissionMax v;
      CommissionChangeRate v; CommissionChangeToday v; val_PrevBondedShares v] /\
    is_int64 (BondHeight v) /\ is_int16 (BondIntraTxCounter v) /\ amounts_wf (ProposerRewardPool v)) _ _ _);
    [by intros (? & ? & ? & ?)|by intros []].
Defined.

(** Tendermint's key is the key. *)
Definition model_TM2PB : TM2PB := {|
  PBPubKey := bytes;
  TM2PB_PubKey pk := match pk with Some pk => Ok pk | None => Panicked nil_pointer end |}.
#[local] Existing Instance model_TM2PB.

Lemma model_TM2PBLaws : TM2PBLaws.
Proof. constructor. intros pk. by exists pk. Qed.

#[export] Instance wire_WRSPVal : Wire WRSPVal.
Proof.
  refine (wire_iso (B := bytes * Z) (fun v => ((wv_PubKey v : bytes), wv_Power v)) (fun p => mk_WRSPVal _ (p.1 : bytes) p.2) _). by intros [].
Defined.

Definition model_StakeCodec : StakeCodec := {|
  MarshalParams := enc_some; UnmarshalParams := dec_checked params_wf;
  MarshalPool := enc_some; UnmarshalPool := dec_checked pool_wf;
  MarshalInt16 := enc_some; UnmarshalInt16 := dec_checked is_int16;
  MarshalValidator := enc_some; UnmarshalValidator := dec_checked validator_wf;
  MarshalWRSPVal := enc_some; UnmarshalWRSPVal := dec_checked (fun v => is_int64 (wv_Power v));
  MarshalDelegation := enc_some; UnmarshalDelegation := dec_checked delegation_wf;
  MarshalUBD := enc_some; UnmarshalUBD := dec_checked ubd_wf;
  MarshalRED := enc_some; UnmarshalRED := dec_checked red_wf |}.

Lemma model_StakeCodecLaws : StakeCodecLaws (H1:=model_StakeCodec).
Proof.
  split; (apply checked_decoded || apply checked_roundtrip || idtac).
  all: by intros v; apply (checked_roundtrip (fun v => is_int64 (wv_Power v))).
Qed.
End model.

(** The signed documents as their fields. *)
Definition model_StakeJSON : StakeJSON := {|
  MarshalJSON_create d a pk c := Some (enc (d, a, pk, c));
  MarshalJSON_edit d a := Some (enc (d, a));
  MarshalJSON_delegate d v c := Some (enc (d, v, c));
  MarshalJSON_begin_red d s t sh := Some (enc (d, s, t, sh));
  MarshalJSON_complete_red d s t := Some (enc (d, s, t));
  MarshalJSON_begin_ubd d v sh := Some (enc (d, v, sh));
  MarshalJSON_complete_ubd d v := Some (enc (d, v)) |}.
