(* ===== verification/StakeRep.v ===== *)
(** * The abstract state of the staking store

    [astate] is what the bytes of the store stand for: parameters, pool,
    validators by owner, delegations and unbonding delegations by delegator
    and validator.  [rep] relates the two, and the specifications of the
    getters and setters are stated on it.  Specifications here are partial:
    the code may panic on a store it cannot decode or on an overflow, and a
    panic discards the state. *)
From Stdlib Require Import Strings.Byte Strings.String.
From S2P Require Import Prelude Int Rational Errors Coin KVStore MultiStore Account Context ProgLogic Auth Records.
From S2P Require Import Pool Validator StakeKey StakeKeeper StakeVal.
From Stdlib Require Import QArith.
#[local] Open Scope string_scope.
#[local] Open Scope list_scope.
#[local] Open Scope Z_scope.

Record astate `{Crypto} := mk_astate {
  as_params : Pool.Params;
  as_pool : Pool;
  as_vals : gmap Address Validator;
  as_dels : gmap (Address * Address) Delegation;
  as_ubds : gmap (Address * Address) UnbondingDelegation
}.

(** The keys whose values an abstract state gives. *)
Definition relevant (key : bytes) : bool :=
  match key with (Byte.x00 | Byte.x01 | Byte.x02 | Byte.x0a | Byte.x0b) :: _ => true | _ => false end.

Section rep.
Context `{HSC : StakeCodecLaws} `{HAL : AddrCodecLaws}.

Record rep (s : spec_store) (A : astate) : Prop := mk_rep {
  r_params : holds UnmarshalParams (s !! ParamKey) (Some (as_params A));
  r_pool : holds UnmarshalPool (s !! PoolKey) (Some (as_pool A));
  r_vals : forall a, holds UnmarshalValidator (s !! GetValidatorKey a) (as_vals A !! a);
  r_dels : forall d v key, GetDelegationKey d v = Ok key -> holds UnmarshalDelegation (s !! key) (as_dels A !! (d, v));
  r_ubds : forall d v key, GetUBDKey d v = Ok key -> holds UnmarshalUBD (s !! key) (as_ubds A !! (d, v));
  r_owner : forall a v, as_vals A !! a = Some v -> Owner v = a;
  r_del_addrs : forall d v r, as_dels A !! (d, v) = Some r -> del_DelegatorAddr r = d /\ del_ValidatorAddr r = v;
  r_ubd_addrs : forall d v u, as_ubds A !! (d, v) = Some u -> ubd_DelegatorAddr u = d /\ ubd_ValidatorAddr u = v
}.

Definition with_as_pool (A : astate) (p : Pool) : astate :=
  mk_astate _ (as_params A) p (as_vals A) (as_dels A) (as_ubds A).
Definition with_as_vals (A : astate) (m : gmap Address Validator) : astate :=
  mk_astate _ (as_params A) (as_pool A) m (as_dels A) (as_ubds A).
Definition with_as_dels (A : astate) (m : gmap (Address * Address) Delegation) : astate :=
  mk_astate _ (as_params A) (as_pool A) (as_vals A) m (as_ubds A).
Definition with_as_ubds (A : astate) (m : gmap (Address * Address) UnbondingDelegation) : astate :=
  mk_astate _ (as_params A) (as_pool A) (as_vals A) (as_dels A) m.

(** ** Keys *)

Lemma DelegationKey_relevant d v key : GetDelegationKey d v = Ok key -> exists r, key = Byte.x0a :: r.
Proof.
  unfold GetDelegationKey, GetDelegationsKey. destruct (MustMarshalAddress d); [|done]. cbn. intros [= <-]. by eexists.
Qed.
Lemma UBDKey_relevant d v key : GetUBDKey d v = Ok key -> exists r, key = Byte.x0b :: r.
Proof. unfold GetUBDKey, GetUBDsKey. destruct (MustMarshalAddress d); [|done]. cbn. intros [= <-]. by eexists. Qed.

Lemma prefixed_key_inj (p : Byte.byte) a b x y k :
  (q ← (res ← MustMarshalAddress a; Ok (p :: res)); Ok (q ++ x)) = Ok k ->
  (q ← (res ← MustMarshalAddress b; Ok (p :: res)); Ok (q ++ y)) = Ok k -> a = b /\ x = y.
Proof.
  unfold MustMarshalAddress, must.
  destruct (MarshalAddress a) as [ax|] eqn:Ea; [|done]. destruct (MarshalAddress b) as [bx|] eqn:Eb; [|done].
  cbn. intros [= <-] [= E]. by eapply MarshalAddress_prefix_free.
Qed.
Lemma DelegationKey_inj d v d' v' k : GetDelegationKey d v = Ok k -> GetDelegationKey d' v' = Ok k -> (d, v) = (d', v').
Proof. intros R1 R2. by destruct (prefixed_key_inj _ _ _ _ _ _ R1 R2) as [-> ->]. Qed.
Lemma UBDKey_inj d v d' v' k : GetUBDKey d v = Ok k -> GetUBDKey d' v' = Ok k -> (d, v) = (d', v').
Proof. intros R1 R2. by destruct (prefixed_key_inj _ _ _ _ _ _ R1 R2) as [-> ->]. Qed.

Lemma ValidatorKey_inj a b : GetValidatorKey a = GetValidatorKey b -> a = b.
Proof. by intros [= ->]. Qed.

(** Keys that are not given by the abstract state can change. *)
Lemma rep_irrelevant s s' A :
  (forall key, relevant key = true -> s' !! key = s !! key) -> rep s A -> rep s' A.
Proof.
  intros Hs [R1 R2 R3 R4 R5 R6 R7 R8]. split; try done.
  - by rewrite Hs.
  - by rewrite Hs.
  - intros a. by rewrite Hs.
  - intros d v key Hk. rewrite Hs; [by apply R4|]. by destruct (DelegationKey_relevant _ _ _ Hk) as [r ->].
  - intros d v key Hk. rewrite Hs; [by apply R5|]. by destruct (UBDKey_relevant _ _ _ Hk) as [r ->].
Qed.

Lemma rep_insert_irrelevant s A key v : relevant key = false -> rep s A -> rep (<[key := v]> s) A.
Proof. intros Hk. apply rep_irrelevant. intros key' Hk'. rewrite lookup_insert_ne; [done|]. by intros ->; rewrite Hk in Hk'. Qed.
Lemma rep_delete_irrelevant s A key : relevant key = false -> rep s A -> rep (delete key s) A.
Proof. intros Hk. apply rep_irrelevant. intros key' Hk'. rewrite lookup_delete_ne; [done|]. by intros ->; rewrite Hk in Hk'. Qed.

(** ** Storing records *)

Lemma rep_SetPool s A p bz : rep s A -> UnmarshalPool bz = Some p -> rep (<[PoolKey := bz]> s) (with_as_pool A p).
Proof.
  intros [R1 R2 R3 R4 R5 R6 R7 R8] Hbz. split; simpl; [by rewrite lookup_insert_ne|by rewrite lookup_insert_eq|intros a; by rewrite lookup_insert_ne|..|done|done|done].
  - intros d v key Hk. destruct (DelegationKey_relevant _ _ _ Hk) as [r ->]. rewrite lookup_insert_ne by done. by apply R4.
  - intros d v key Hk. destruct (UBDKey_relevant _ _ _ Hk) as [r ->]. rewrite lookup_insert_ne by done. by apply R5.
Qed.

Lemma rep_SetValidator s A v bz :
  rep s A -> UnmarshalValidator bz = Some v ->
  rep (<[GetValidatorKey (Owner v) := bz]> s) (with_as_vals A (<[Owner v := v]> (as_vals A))).
Proof.
  intros [R1 R2 R3 R4 R5 R6 R7 R8] Hbz. split; simpl; [by rewrite lookup_insert_ne|by rewrite lookup_insert_ne|..|done|done].
  - intros a. destruct (decide (Owner v = a)) as [ <- |Hne]; [by rewrite !lookup_insert_eq|].
    rewrite !lookup_insert_ne; [done|done|]. by intros ?%ValidatorKey_inj.
  - intros d w key Hk. destruct (DelegationKey_relevant _ _ _ Hk) as [r ->]. rewrite lookup_insert_ne by done. by apply R4.
  - intros d w key Hk. destruct (UBDKey_relevant _ _ _ Hk) as [r ->]. rewrite lookup_insert_ne by done. by apply R5.
  - intros a w. rewrite lookup_insert_Some. intros [[<- <-]|[_ Hw]]; [done|by apply R6].
Qed.

Lemma rep_DeleteValidator s A a :
  rep s A -> rep (delete (GetValidatorKey a) s) (with_as_vals A (delete a (as_vals A))).
Proof.
  intros [R1 R2 R3 R4 R5 R6 R7 R8]. split; simpl; [by rewrite lookup_delete_ne|by rewrite lookup_delete_ne|..|done|done].
  - intros b. destruct (decide (a = b)) as [ <- |Hne]; [by rewrite !lookup_delete_eq|].
    rewrite !lookup_delete_ne; [done|done|]. by intros ?%ValidatorKey_inj.
  - intros d w key Hk. destruct (DelegationKey_relevant _ _ _ Hk) as [r ->]. rewrite lookup_delete_ne by done. by apply R4.
  - intros d w key Hk. destruct (UBDKey_relevant _ _ _ Hk) as [r ->]. rewrite lookup_delete_ne by done. by apply R5.
  - intros b w. rewrite lookup_delete_Some. intros [_ Hw]. by apply R6.
Qed.

Lemma rep_SetDelegation s A r bz key :
  rep s A -> GetDelegationKey (del_DelegatorAddr r) (del_ValidatorAddr r) = Ok key -> UnmarshalDelegation bz = Some r ->
  rep (<[key := bz]> s) (with_as_dels A (<[(del_DelegatorAddr r, del_ValidatorAddr r) := r]> (as_dels A))).
Proof.
  intros [R1 R2 R3 R4 R5 R6 R7 R8] Hkey Hbz. destruct (DelegationKey_relevant _ _ _ Hkey) as [x Ex].
  split; simpl.
  - subst key. by rewrite lookup_insert_ne.
  - subst key. by rewrite lookup_insert_ne.
  - intros a. subst key. by rewrite lookup_insert_ne.
  - intros d v k' Hk'. destruct (decide ((del_DelegatorAddr r, del_ValidatorAddr r) = (d, v))) as [[= <- <-]|Hne].
    + rewrite Hkey in Hk'. injection Hk' as <-. by rewrite !lookup_insert_eq.
    + rewrite !lookup_insert_ne; [by apply R4|done|]. intros ->. apply Hne. by eapply DelegationKey_inj.
  - intros d v k' Hk'. destruct (UBDKey_relevant _ _ _ Hk') as [y ->]. subst key. rewrite lookup_insert_ne by done. by apply R5.
  - exact R6.
  - intros d v x'. rewrite lookup_insert_Some. intros [[[= <- <-] <-]|[_ Hx]]; [done|by apply R7].
  - exact R8.
Qed.

Lemma rep_DeleteDelegation s A d v key :
  rep s A -> GetDelegationKey d v = Ok key ->
  rep (delete key s) (with_as_dels A (delete (d, v) (as_dels A))).
Proof.
  intros [R1 R2 R3 R4 R5 R6 R7 R8] Hkey. destruct (DelegationKey_relevant _ _ _ Hkey) as [x Ex].
  split; simpl.
  - subst key. by rewrite lookup_delete_ne.
  - subst key. by rewrite lookup_delete_ne.
  - intros a. subst key. by rewrite lookup_delete_ne.
  - intros d' v' k' Hk'. destruct (decide ((d, v) = (d', v'))) as [[= <- <-]|Hne].
    + rewrite Hkey in Hk'. injection Hk' as <-. by rewrite !lookup_delete_eq.
    + rewrite !lookup_delete_ne; [by apply R4|done|]. intros ->. apply Hne. by eapply DelegationKey_inj.
  - intros d' v' k' Hk'. destruct (UBDKey_relevant _ _ _ Hk') as [y ->]. subst key. rewrite lookup_delete_ne by done. by apply R5.
  - exact R6.
  - intros d' v' x'. rewrite lookup_delete_Some. intros [_ Hx]. by apply R7.
  - exact R8.
Qed.

Lemma rep_SetUBD s A u bz key :
  rep s A -> GetUBDKey (ubd_DelegatorAddr u) (ubd_ValidatorAddr u) = Ok key -> UnmarshalUBD bz = Some u ->
  rep (<[key := bz]> s) (with_as_ubds A (<[(ubd_DelegatorAddr u, ubd_ValidatorAddr u) := u]> (as_ubds A))).
Proof.
  intros [R1 R2 R3 R4 R5 R6 R7 R8] Hkey Hbz. destruct (UBDKey_relevant _ _ _ Hkey) as [x Ex].
  split; simpl.
  - subst key. by rewrite lookup_insert_ne.
  - subst key. by rewrite lookup_insert_ne.
  - intros a. subst key. by rewrite lookup_insert_ne.
  - intros d v k' Hk'. destruct (DelegationKey_relevant _ _ _ Hk') as [y ->]. subst key. rewrite lookup_insert_ne by done. by apply R4.
  - intros d v k' Hk'. destruct (decide ((ubd_DelegatorAddr u, ubd_ValidatorAddr u) = (d, v))) as [[= <- <-]|Hne].
    + rewrite Hkey in Hk'. injection Hk' as <-. by rewrite !lookup_insert_eq.
    + rewrite !lookup_insert_ne; [by apply R5|done|]. intros ->. apply Hne. by eapply UBDKey_inj.
  - exact R6.
  - exact R7.
  - intros d v x'. rewrite lookup_insert_Some. intros [[[= <- <-] <-]|[_ Hx]]; [done|by apply R8].
Qed.

Lemma rep_DeleteUBD s A d v key :
  rep s A -> GetUBDKey d v = Ok key -> rep (delete key s) (with_as_ubds A (delete (d, v) (as_ubds A))).
Proof.
  intros [R1 R2 R3 R4 R5 R6 R7 R8] Hkey. destruct (UBDKey_relevant _ _ _ Hkey) as [x Ex].
  split; simpl.
  - subst key. by rewrite lookup_delete_ne.
  - subst key. by rewrite lookup_delete_ne.
  - intros a. subst key. by rewrite lookup_delete_ne.
  - intros d' v' k' Hk'. destruct (DelegationKey_relevant _ _ _ Hk') as [y ->]. subst key. rewrite lookup_delete_ne by done. by apply R4.
  - intros d' v' k' Hk'. destruct (decide ((d, v) = (d', v'))) as [[= <- <-]|Hne].
    + rewrite Hkey in Hk'. injection Hk' as <-. by rewrite !lookup_delete_eq.
    + rewrite !lookup_delete_ne; [by apply R5|done|]. intros ->. apply Hne. by eapply UBDKey_inj.
  - exact R6.
  - exact R7.
  - intros d' v' x'. rewrite lookup_delete_Some. intros [_ Hx]. by apply R8.
Qed.
End rep.

(** ** What the operations on pools and validators do, whatever the state *)

Lemma with_Loose_wf p l : pool_wf p -> is_int64 l -> pool_wf (with_Loose p l).
Proof. intros [Hi Hr] Hl. split; [|exact Hr]. inversion Hi; subst. by constructor. Qed.

Lemma set_of_wf st p s t : pool_wf p -> Rat.is_norm s -> is_int64 t -> pool_wf (set_of st p s t).
Proof.
  intros [Hi Hr] Hs Ht. rewrite !Forall_cons in Hi. rewrite !Forall_cons in Hr. destruct Hi as (? & ? & ? & ? & ? & ? & _), Hr as (? & ? & ? & ? & ? & _).
  destruct st; split; simpl; rewrite !Forall_cons, Forall_nil; split_and!; done.
Qed.

Lemma wrap64_add_l a b : wrap64 (wrap64 a + b) = wrap64 (a + b).
Proof. destruct (wrap64_diff a) as [j ->]. apply (wrap64_mod _ _ j). lia. Qed.
Lemma wrap64_sub_l a b : wrap64 (wrap64 a - b) = wrap64 (a - b).
Proof. destruct (wrap64_diff a) as [j ->]. apply (wrap64_mod _ _ j). lia. Qed.

Lemma add_tokens_effect st p amount p' s :
  add_tokens st p amount = Ok (p', s) ->
  LooseTokens p' = wrap64 (LooseTokens p - amount) /\ TokenSupply p' = TokenSupply p /\
  (pool_wf p -> pool_wf p') /\ Rat.is_norm (ps_Amount s) /\ Status s = st.
Proof.
  intros Hadd. pose proof (add_tokens_supply _ _ _ _ _ Hadd) as Hsup. revert Hadd.
  rewrite add_tokens_eq. destruct (Qeq_bool _ 0); [done|]. cbv zeta. destruct (_ <? 0); [done|].
  intros [= <- <-]. split_and!; [done|done| |apply Rat.is_norm_Qred|done].
  intros Hwf. apply with_Loose_wf; [|apply wrap64_is_int64].
  apply set_of_wf; [done|apply is_norm_Add|apply wrap64_is_int64].
Qed.

Lemma remove_shares_effect st p shares p' n :
  remove_shares st p shares = Ok (p', n) ->
  LooseTokens p' = wrap64 (LooseTokens p + n) /\ TokenSupply p' = TokenSupply p /\
  (pool_wf p -> pool_wf p') /\ is_int64 n.
Proof.
  intros Hrem. pose proof (remove_shares_supply _ _ _ _ _ Hrem) as Hsup. revert Hrem.
  destruct (remove_shares_eq st p shares) as [q ->]. cbv zeta. destruct (_ <? 0); [done|].
  intros [= <- <-]. split_and!; [done|done| |apply wrap64_is_int64].
  intros Hwf. apply with_Loose_wf; [|apply wrap64_is_int64].
  apply set_of_wf; [done|apply is_norm_Sub|apply wrap64_is_int64].
Qed.

Section effects.
Context `{Crypto}.

(** Changing what a validator's tokens are worth keeps its type. *)
Lemma with_shares_wf v s d : validator_wf v -> Rat.is_norm (ps_Amount s) -> Rat.is_norm d -> validator_wf (with_shares v s d).
Proof.
  intros [Hr Hh Hc Hw] Hs Hd. split; [|done..]. inversion Hr as [|? ? _ Hr1]; subst.
  inversion Hr1 as [|? ? _ Hr2]; subst. constructor; [done|]. by constructor.
Qed.
Lemma validator_wf_norm v :
  validator_wf v -> Rat.is_norm (ps_Amount (val_PoolShares v)) /\ Rat.is_norm (DelegatorShares v).
Proof. intros [Hr _ _ _]. rewrite !Forall_cons in Hr. tauto. Qed.

Lemma UpdateStatus_effect v p st v' p' :
  UpdateStatus v p st = Ok (v', p') -> pool_wf p -> validator_wf v ->
  TokenSupply p' = TokenSupply p /\ LooseTokens p' = LooseTokens p /\ pool_wf p' /\ validator_wf v' /\
  Owner v' = Owner v /\ DelegatorShares v' = DelegatorShares v /\ val_Status v' = st.
Proof.
  intros Hup Hp Hv. destruct (decide (val_Status v = st)) as [ <- |Hne].
  { rewrite UpdateStatus_same in Hup. by injection Hup as <- <-. }
  assert (E : UpdateStatus v p st =
    ('(p, n) ← remove_shares (val_Status v) p (ps_Amount (val_PoolShares v));
     '(p, s) ← add_tokens st p n; Ok (with_shares v s (DelegatorShares v), p))).
  { unfold UpdateStatus. rewrite decide_False by done. by destruct (val_Status v), st. }
  rewrite E in Hup. destruct (remove_shares _ _ _) as [[p1 n]|] eqn:Hrem; [|done]. cbn [mbind outcome_bind] in Hup.
  destruct (add_tokens st p1 n) as [[p2 s]|] eqn:Hadd; [|done]. injection Hup as <- <-.
  destruct (remove_shares_effect _ _ _ _ _ Hrem) as (Hl1 & Hs1 & Hw1 & _).
  destruct (add_tokens_effect _ _ _ _ _ Hadd) as (Hl2 & Hs2 & Hw2 & Hn & Hst).
  split_and!; [congruence| |by auto|apply with_shares_wf; [done|done|by apply validator_wf_norm]|done|done|done].
  rewrite Hl2, Hl1, wrap64_sub_l. destruct Hp as [Hi _]. rewrite Forall_cons in Hi.
  replace (LooseTokens p + n - n) with (LooseTokens p) by lia. apply wrap64_id, Hi.
Qed.

Lemma AddTokensFromDel_effect v p amount v' p' issued :
  AddTokensFromDel v p amount = Ok (v', p', issued) -> pool_wf p -> validator_wf v ->
  TokenSupply p' = TokenSupply p /\ LooseTokens p' = wrap64 (LooseTokens p - amount) /\ pool_wf p' /\ validator_wf v' /\
  Owner v' = Owner v /\ (DelegatorShares v' == DelegatorShares v + issued)%Q /\ Rat.is_norm issued.
Proof.
  rewrite AddTokensFromDel_eq. intros Hup Hp Hv.
  destruct (DelegatorShareExRate v p) as [ex|]; [|done]. cbn [mbind outcome_bind] in Hup.
  destruct (add_tokens (val_Status v) p amount) as [[p1 s]|] eqn:Hadd; [|done]. cbn [mbind outcome_bind] in Hup.
  cbv zeta in Hup. destruct (ToBonded s p1) as [e|]; [|done]. cbn [mbind outcome_bind] in Hup.
  rewrite Rat.Quo_spec in Hup. destruct (Qeq_bool ex 0); [done|]. cbn [mbind outcome_bind] in Hup.
  injection Hup as <- <- <-. destruct (add_tokens_effect _ _ _ _ _ Hadd) as (Hl & Hs & Hw & Hn & Hst).
  split_and!; [done|done|by auto| |done|apply Rat.Add_eq|apply Rat.is_norm_Qred].
  apply with_shares_wf; [|apply is_norm_Add|apply is_norm_Add].
  apply with_shares_wf; [done|apply is_norm_Add|by apply validator_wf_norm].
Qed.

Lemma RemoveDelShares_effect v p d v' p' n :
  RemoveDelShares v p d = Ok (v', p', n) -> pool_wf p -> validator_wf v ->
  TokenSupply p' = TokenSupply p /\ LooseTokens p' = wrap64 (LooseTokens p + n) /\ pool_wf p' /\ validator_wf v' /\
  Owner v' = Owner v /\ (DelegatorShares v' == DelegatorShares v - d)%Q /\ is_int64 n.
Proof.
  rewrite RemoveDelShares_eq. intros Hup Hp Hv.
  destruct (DelegatorShareExRate v p) as [ex|]; [|done]. cbn [mbind outcome_bind] in Hup.
  destruct (from_bonded _ _ p) as [s|]; [|done]. cbn [mbind outcome_bind] in Hup.
  destruct (remove_shares _ p (ps_Amount s)) as [[p1 m]|] eqn:Hrem; [|done]. cbn [mbind outcome_bind] in Hup.
  injection Hup as <- <- <-. destruct (remove_shares_effect _ _ _ _ _ Hrem) as (Hl & Hs & Hw & Hn).
  split_and!; [done|done|by auto| |done|apply Rat.Sub_eq|apply Hn].
  apply with_shares_wf; [|apply is_norm_Sub|apply is_norm_Sub].
  apply with_shares_wf; [done|by apply validator_wf_norm|apply is_norm_Sub].
Qed.
End effects.

Lemma RemovePoolShares_effect `{Crypto} v p shares v' p' n :
  RemovePoolShares v p shares = Ok (v', p', n) -> pool_wf p -> validator_wf v ->
  TokenSupply p' = TokenSupply p /\ LooseTokens p' = wrap64 (LooseTokens p + n) /\ pool_wf p' /\ validator_wf v' /\
  Owner v' = Owner v /\ DelegatorShares v' = DelegatorShares v /\ is_int64 n.
Proof.
  assert (E : RemovePoolShares v p shares =
    ('(p, n) ← remove_shares (val_Status v) p shares;
     Ok (with_Amount v (Rat.Sub (ps_Amount (val_PoolShares v)) shares), p, n))).
  { unfold RemovePoolShares. by destruct (val_Status v). }
  rewrite E. intros Hup Hp Hv. destruct (remove_shares _ p shares) as [[p1 n1]|] eqn:Hrem; [|done].
  injection Hup as <- <- <-. destruct (remove_shares_effect _ _ _ _ _ Hrem) as (Hl & Hs & Hw & Hn).
  split_and!; [done|done|by auto| |done|done|apply Hn].
  apply with_shares_wf; [done|apply is_norm_Sub|by apply validator_wf_norm].
Qed.

(** ** Specifications of the store operations *)

Section specs.
Context `{HSC : StakeCodecLaws} `{HAL : !AddrCodec} `{HALL : !AddrCodecLaws} (k : Keeper) (ctx : Ctx) (st0 : stores).
Abbreviation m := (cx_GasMeter ctx).
Abbreviation sk := (storeKey k).

(** The staking store stands for [A], and no other store differs from [st0]. *)
Definition srep (st : stores) (A : astate) : Prop :=
  frame sk st0 st /\ exists s, st !! sk = Some s /\ rep s A.

Lemma srep_insert st A s A' : srep st A -> rep s A' -> srep (<[sk := s]> st) A'.
Proof.
  intros [Hf _] Hr. split; [by eapply frame_trans; [|apply frame_insert]|]. exists s. by rewrite lookup_insert_eq.
Qed.

Lemma GetPool_spec st A (Q : Pool -> stores -> Prop) :
  srep st A -> (pool_wf (as_pool A) -> Q (as_pool A) st) -> pspec m (GetPool k ctx) st Q any_panic.
Proof.
  intros [_ (s & Hs & Hr)] HQ. destruct (holds_Some _ _ _ (r_pool _ _ Hr)) as (bz & Eb & Ed).
  apply pspec_bind, (pspec_Get _ _ _ s); [done|]. rewrite Eb.
  apply pspec_lift_any. intros p Hp. unfold must_unmarshal in Hp. rewrite Ed in Hp. injection Hp as <-.
  apply HQ. by eapply Pool_decoded.
Qed.

Lemma GetParams_spec st A (Q : Pool.Params -> stores -> Prop) :
  srep st A -> (params_wf (as_params A) -> Q (as_params A) st) -> pspec m (GetParams k ctx) st Q any_panic.
Proof.
  intros [_ (s & Hs & Hr)] HQ. destruct (holds_Some _ _ _ (r_params _ _ Hr)) as (bz & Eb & Ed).
  apply pspec_bind, (pspec_Get _ _ _ s); [done|]. rewrite Eb.
  apply pspec_lift_any. intros p Hp. unfold must_unmarshal in Hp. rewrite Ed in Hp. injection Hp as <-.
  apply HQ. by eapply Params_decoded.
Qed.

Lemma SetPool_spec st A p (Q : unit -> stores -> Prop) :
  srep st A -> pool_wf p -> (forall st', srep st' (with_as_pool A p) -> Q tt st') ->
  pspec m (SetPool k ctx p) st Q any_panic.
Proof.
  intros Hst Hp HQ. destruct (proj2 Hst) as (s & Hs & Hr). destruct (Pool_roundtrip p Hp) as (bz & Em & Ed).
  apply pspec_bind, pspec_lift_any. unfold must_marshal. rewrite Em. intros bz' [= <-].
  apply (pspec_Set _ _ _ s); [done|]. apply HQ. eapply srep_insert; [done|]. by apply rep_SetPool.
Qed.

(** A write or a delete under a key the abstract state does not give. *)
Lemma store_Set_irrelevant st A key v (Q : unit -> stores -> Prop) :
  srep st A -> relevant key = false -> (forall st', srep st' A -> Q tt st') ->
  pspec m (store_Set ctx sk key v) st Q any_panic.
Proof.
  intros Hst Hk HQ. destruct (proj2 Hst) as (s & Hs & Hr). apply (pspec_Set _ _ _ s); [done|]. apply HQ.
  eapply srep_insert; [done|]. by apply rep_insert_irrelevant.
Qed.
Lemma store_Delete_irrelevant st A key (Q : unit -> stores -> Prop) :
  srep st A -> relevant key = false -> (forall st', srep st' A -> Q tt st') ->
  pspec m (store_Delete ctx sk key) st Q any_panic.
Proof.
  intros Hst Hk HQ. destruct (proj2 Hst) as (s & Hs & Hr). apply (pspec_Delete _ _ _ s); [done|]. apply HQ.
  eapply srep_insert; [done|]. by apply rep_delete_irrelevant.
Qed.

Lemma store_Get_any st A key (Q : slice -> stores -> Prop) :
  srep st A -> (forall b, Q b st) -> pspec m (store_Get ctx sk key) st Q any_panic.
Proof. intros [_ (s & Hs & _)] HQ. by apply (pspec_Get _ _ _ s). Qed.

Lemma store_Prefix_any st A asc p (Q : list (slice * slice) -> stores -> Prop) :
  srep st A -> p <> [] -> (forall l, Q l st) -> pspec m (store_Prefix sk asc p) st Q any_panic.
Proof. intros [_ (s & Hs & _)] Hp HQ. by apply (pspec_Prefix _ _ _ s). Qed.

(** *** Validators *)

Lemma GetValidator_spec st A a (Q : option Validator -> stores -> Prop) :
  srep st A ->
  ((forall v, as_vals A !! a = Some v -> validator_wf v /\ Owner v = a) -> Q (as_vals A !! a) st) ->
  pspec m (GetValidator k ctx a) st Q any_panic.
Proof.
  intros [_ (s & Hs & Hr)] HQ. eapply pspec_read; [done|apply (r_vals _ _ Hr)|]. apply HQ.
  intros v Hv. split; [|by apply (r_owner _ _ Hr)].
  pose proof (r_vals _ _ Hr a) as Hh. rewrite Hv in Hh. destruct (holds_Some _ _ _ Hh) as (bz & _ & Ed).
  by eapply Validator_decoded.
Qed.

Lemma indexed_validator_spec st A b (Q : Validator -> stores -> Prop) :
  srep st A ->
  (forall v, as_vals A !! slice_bytes b = Some v -> validator_wf v -> Owner v = slice_bytes b -> Q v st) ->
  pspec m (indexed_validator k ctx b) st Q any_panic.
Proof.
  intros Hst HQ. apply pspec_bind. eapply GetValidator_spec; [done|]. intros Hv.
  destruct (as_vals A !! slice_bytes b) as [v|]; [|apply pspec_fault_any].
  apply pspec_ret. destruct (Hv v eq_refl). by apply HQ.
Qed.

Lemma SetValidator_at_spec st A v a (Q : unit -> stores -> Prop) :
  srep st A -> validator_wf v -> a = Owner v ->
  (forall st', srep st' (with_as_vals A (<[a := v]> (as_vals A))) -> Q tt st') ->
  pspec m (bz ← lift (must_marshal MarshalValidator v); store_Set ctx sk (GetValidatorKey a) bz) st Q any_panic.
Proof.
  intros Hst Hv -> HQ. destruct (proj2 Hst) as (s & Hs & Hr). destruct (Validator_roundtrip v Hv) as (bz & Em & Ed).
  apply pspec_bind, pspec_lift_any. unfold must_marshal. rewrite Em. intros bz' [= <-].
  apply (pspec_Set _ _ _ s); [done|]. apply HQ. eapply srep_insert; [done|]. by apply rep_SetValidator.
Qed.
Lemma SetValidator_spec st A v (Q : unit -> stores -> Prop) :
  srep st A -> validator_wf v ->
  (forall st', srep st' (with_as_vals A (<[Owner v := v]> (as_vals A))) -> Q tt st') ->
  pspec m (SetValidator k ctx v) st Q any_panic.
Proof. intros. by eapply (SetValidator_at_spec st A v (Owner v)). Qed.

Lemma DeleteValidator_spec st A a (Q : unit -> stores -> Prop) :
  srep st A -> (forall st', srep st' (with_as_vals A (delete a (as_vals A))) -> Q tt st') ->
  pspec m (store_Delete ctx sk (GetValidatorKey a)) st Q any_panic.
Proof.
  intros Hst HQ. destruct (proj2 Hst) as (s & Hs & Hr). apply (pspec_Delete _ _ _ s); [done|]. apply HQ.
  eapply srep_insert; [done|]. by apply rep_DeleteValidator.
Qed.

(** *** Delegations *)

Lemma GetDelegation_spec st A d v (Q : option Delegation -> stores -> Prop) :
  srep st A ->
  ((forall r, as_dels A !! (d, v) = Some r -> delegation_wf r /\ del_DelegatorAddr r = d /\ del_ValidatorAddr r = v) ->
   Q (as_dels A !! (d, v)) st) ->
  pspec m (GetDelegation k ctx d v) st Q any_panic.
Proof.
  intros [_ (s & Hs & Hr)] HQ. apply pspec_bind, pspec_lift_any. intros key Hkey.
  eapply pspec_read; [done|by apply (r_dels _ _ Hr)|]. apply HQ.
  intros r Hd. split; [|by apply (r_del_addrs _ _ Hr)].
  pose proof (r_dels _ _ Hr _ _ _ Hkey) as Hh. rewrite Hd in Hh. destruct (holds_Some _ _ _ Hh) as (bz & _ & Ed).
  by eapply Delegation_decoded.
Qed.

Lemma SetDelegation_spec st A r (Q : unit -> stores -> Prop) :
  srep st A -> delegation_wf r ->
  (forall st', srep st' (with_as_dels A (<[(del_DelegatorAddr r, del_ValidatorAddr r) := r]> (as_dels A))) -> Q tt st') ->
  pspec m (SetDelegation k ctx r) st Q any_panic.
Proof.
  intros Hst Hw HQ. destruct (proj2 Hst) as (s & Hs & Hr). destruct (Delegation_roundtrip r Hw) as (bz & Em & Ed).
  apply pspec_bind, pspec_lift_any. unfold must_marshal. rewrite Em. intros bz' [= <-].
  apply pspec_bind, pspec_lift_any. intros key Hkey.
  apply (pspec_Set _ _ _ s); [done|]. apply HQ. eapply srep_insert; [done|]. by apply rep_SetDelegation.
Qed.

Lemma RemoveDelegation_spec st A r (Q : unit -> stores -> Prop) :
  srep st A ->
  (forall st', srep st' (with_as_dels A (delete (del_DelegatorAddr r, del_ValidatorAddr r) (as_dels A))) -> Q tt st') ->
  pspec m (RemoveDelegation k ctx r) st Q any_panic.
Proof.
  intros Hst HQ. destruct (proj2 Hst) as (s & Hs & Hr). apply pspec_bind, pspec_lift_any. intros key Hkey.
  apply (pspec_Delete _ _ _ s); [done|]. apply HQ. eapply srep_insert; [done|]. by apply rep_DeleteDelegation.
Qed.

(** *** Unbonding delegations *)

Lemma GetUBD_spec st A d v (Q : option UnbondingDelegation -> stores -> Prop) :
  srep st A ->
  ((forall u, as_ubds A !! (d, v) = Some u -> ubd_wf u /\ ubd_DelegatorAddr u = d /\ ubd_ValidatorAddr u = v) ->
   Q (as_ubds A !! (d, v)) st) ->
  pspec m (GetUnbondingDelegation k ctx d v) st Q any_panic.
Proof.
  intros [_ (s & Hs & Hr)] HQ. apply pspec_bind, pspec_lift_any. intros key Hkey.
  eapply pspec_read; [done|by apply (r_ubds _ _ Hr)|]. apply HQ.
  intros u Hu. split; [|by apply (r_ubd_addrs _ _ Hr)].
  pose proof (r_ubds _ _ Hr _ _ _ Hkey) as Hh. rewrite Hu in Hh. destruct (holds_Some _ _ _ Hh) as (bz & _ & Ed).
  by eapply UBD_decoded.
Qed.

Lemma UBDByVal_irrelevant d v key : GetUBDByValIndexKey d v = Ok key -> relevant key = false.
Proof.
  unfold GetUBDByValIndexKey, GetUBDsByValIndexKey. destruct (MustMarshalAddress v); [|done]. cbn. by intros [= <-].
Qed.

Lemma SetUBD_spec st A u (Q : unit -> stores -> Prop) :
  srep st A -> ubd_wf u ->
  (forall st', srep st' (with_as_ubds A (<[(ubd_DelegatorAddr u, ubd_ValidatorAddr u) := u]> (as_ubds A))) -> Q tt st') ->
  pspec m (SetUnbondingDelegation k ctx u) st Q any_panic.
Proof.
  intros Hst Hw HQ. destruct (proj2 Hst) as (s & Hs & Hr). destruct (UBD_roundtrip u Hw) as (bz & Em & Ed).
  apply pspec_bind, pspec_lift_any. unfold must_marshal. rewrite Em. intros bz' [= <-].
  apply pspec_bind, pspec_lift_any. intros key Hkey.
  apply pspec_bind, (pspec_Set _ _ _ s); [done|].
  apply pspec_bind, pspec_lift_any. intros idx Hidx.
  eapply store_Set_irrelevant; [|by eapply UBDByVal_irrelevant|exact HQ].
  eapply srep_insert; [done|]. by apply rep_SetUBD.
Qed.

Lemma RemoveUBD_spec st A u (Q : unit -> stores -> Prop) :
  srep st A ->
  (forall st', srep st' (with_as_ubds A (delete (ubd_DelegatorAddr u, ubd_ValidatorAddr u) (as_ubds A))) -> Q tt st') ->
  pspec m (RemoveUnbondingDelegation k ctx u) st Q any_panic.
Proof.
  intros Hst HQ. destruct (proj2 Hst) as (s & Hs & Hr). apply pspec_bind, pspec_lift_any. intros key Hkey.
  apply pspec_bind, (pspec_Delete _ _ _ s); [done|].
  apply pspec_bind, pspec_lift_any. intros idx Hidx.
  eapply store_Delete_irrelevant; [|by eapply UBDByVal_irrelevant|exact HQ].
  eapply srep_insert; [done|]. by apply rep_DeleteUBD.
Qed.
End specs.
