(* ===== verification/StakeInv.v ===== *)
(** * What changes of the validator set leave alone

    Bonding, unbonding and kicking validators move tokens between the parts of
    the pool: the supply, the loose tokens, the delegations, the unbonding
    delegations, the parameters and every validator's delegator shares stay as
    they are.  The specification of UpdateValidator says so, through every
    path of the code. *)
From Stdlib Require Import Strings.Byte Strings.String.
From S2P Require Import Prelude Int Rational Errors Coin KVStore MultiStore Account Context ProgLogic Auth Records.
From S2P Require Import Pool Validator StakeKey StakeKeeper StakeVal StakeRep.
From Stdlib Require Import QArith.
#[local] Open Scope string_scope.
#[local] Open Scope list_scope.
#[local] Open Scope Z_scope.

Section upd.
Context `{Crypto}.

(** [A'] differs from [A] in the validators' status only, but for the
    validator [o]. *)
Record upd (o : option Address) (A A' : astate) : Prop := mk_upd {
  u_params : as_params A' = as_params A;
  u_dels : as_dels A' = as_dels A;
  u_ubds : as_ubds A' = as_ubds A;
  u_supply : TokenSupply (as_pool A') = TokenSupply (as_pool A);
  u_loose : LooseTokens (as_pool A') = LooseTokens (as_pool A);
  u_vals : forall a, Some a <> o -> DelegatorShares <$> as_vals A' !! a = DelegatorShares <$> as_vals A !! a
}.

Lemma upd_refl o A : upd o A A.
Proof. done. Qed.

Lemma upd_trans o A1 A2 A3 : upd o A1 A2 -> upd o A2 A3 -> upd o A1 A3.
Proof.
  intros [? ? ? ? ? Ha] [? ? ? ? ? Hb]. split; [congruence..|]. intros a Hne. by rewrite Hb, Ha.
Qed.

(** A validator whose record is replaced. *)
Lemma upd_insert o A p a v :
  TokenSupply p = TokenSupply (as_pool A) -> LooseTokens p = LooseTokens (as_pool A) ->
  (o = Some a \/ DelegatorShares <$> as_vals A !! a = Some (DelegatorShares v)) ->
  upd o A (with_as_vals (with_as_pool A p) (<[a := v]> (as_vals A))).
Proof.
  intros Hs Hl Hv. split; simpl; [done..|]. intros b Hne. destruct (decide (a = b)) as [ <- |Hab].
  - rewrite lookup_insert_eq. destruct Hv as [Ho|Hv]; [by rewrite Ho in Hne|by rewrite Hv].
  - by rewrite lookup_insert_ne.
Qed.
End upd.

#[export] Hint Resolve upd_refl upd_trans : sdk.

Section validator_set.
Context `{HSC : StakeCodecLaws} `{HAL : !AddrCodec} `{HALL : !AddrCodecLaws} (k : Keeper) (ctx : Ctx) (st0 : stores).
Abbreviation m := (cx_GasMeter ctx).
Abbreviation sk := (storeKey k).
Abbreviation srep := (StakeRep.srep k st0).

Lemma PowerKey_irrelevant v p key : GetValidatorsByPowerIndexKey v p = Ok key -> relevant key = false.
Proof.
  unfold GetValidatorsByPowerIndexKey, GetValidatorPowerRank. destruct (EquivalentBondedShares v p); [|done].
  cbn [mbind outcome_bind]. by intros [= <-].
Qed.
Lemma PubKeyKey_irrelevant pk key : GetValidatorByPubKeyIndexKey pk = Ok key -> relevant key = false.
Proof. destruct pk; [|done]. by intros [= <-]. Qed.

Lemma SetTendermintUpdate_spec st A addr val (Q : unit -> stores -> Prop) :
  srep st A -> (forall st', srep st' A -> Q tt st') -> pspec m (SetTendermintUpdate k ctx addr val) st Q any_panic.
Proof.
  intros Hst HQ. apply pspec_bind, pspec_lift_any. intros v _. apply pspec_bind, pspec_lift_any. intros bz _.
  by eapply store_Set_irrelevant.
Qed.

(** A validator from the store, or the one being updated. *)
Definition known (o : option Address) (A : astate) (w : Validator) : Prop :=
  o = Some (Owner w) \/ DelegatorShares <$> as_vals A !! Owner w = Some (DelegatorShares w).

Lemma known_stored o A w a : as_vals A !! a = Some w -> Owner w = a -> known o A w.
Proof. intros Hw <-. right. by rewrite Hw. Qed.

(** The common part of bonding and unbonding. *)
Lemma move_spec {B : Type} st A o w status (f : Validator -> prog B) (Q : B -> stores -> Prop) :
  srep st A -> validator_wf w -> known o A w ->
  (forall w' st' A', srep st' A' -> upd o A A' -> validator_wf w' -> Owner w' = Owner w ->
     DelegatorShares w' = DelegatorShares w -> val_Status w' = status -> pspec m (f w') st' Q any_panic) ->
  pool_wf (as_pool A) ->
  pspec m ('(w, p) ← lift (UpdateStatus w (as_pool A) status);
           SetPool k ctx p;; SetValidator k ctx w;; f w) st Q any_panic.
Proof.
  intros Hst Hw Hk HQ Hp. apply pspec_bind, pspec_lift_any. intros [w' p'] Hup.
  destruct (UpdateStatus_effect _ _ _ _ _ Hup Hp Hw) as (Hs & Hl & Hp' & Hw' & Ho & Hd & Hstat).
  apply pspec_bind. eapply SetPool_spec; [exact Hst|exact Hp'|]. intros st1 Hst1.
  apply pspec_bind. eapply SetValidator_spec; [exact Hst1|exact Hw'|]. intros st2 Hst2.
  eapply HQ; [exact Hst2| |done..]. apply (upd_insert o A p' (Owner w') w'); [done|done|]. rewrite Ho, Hd. exact Hk.
Qed.

Lemma unbondValidator_spec st A o w (Q : Validator -> stores -> Prop) :
  srep st A -> validator_wf w -> known o A w ->
  (forall w' st' A', srep st' A' -> upd o A A' -> validator_wf w' -> Owner w' = Owner w ->
     DelegatorShares w' = DelegatorShares w -> Q w' st') ->
  pspec m (unbondValidator k ctx w) st Q any_panic.
Proof.
  intros Hst Hw Hk HQ. apply pspec_bind. eapply GetPool_spec; [exact Hst|]. intros Hp.
  destruct (decide _); [apply pspec_fault_any|].
  apply (move_spec st A o); [done..| |done]. intros w' st1 A1 Hst1 Hu Hw' Ho Hd _.
  apply pspec_bind. eapply SetTendermintUpdate_spec; [exact Hst1|]. intros st2 Hst2.
  apply pspec_bind. eapply store_Delete_irrelevant; [exact Hst2|done|]. intros st3 Hst3.
  apply pspec_ret. by eapply HQ.
Qed.

Lemma bondValidator_spec st A o w (Q : Validator -> stores -> Prop) :
  srep st A -> validator_wf w -> known o A w ->
  (forall w' st' A', srep st' A' -> upd o A A' -> validator_wf w' -> Owner w' = Owner w ->
     DelegatorShares w' = DelegatorShares w -> Q w' st') ->
  pspec m (bondValidator k ctx w) st Q any_panic.
Proof.
  intros Hst Hw Hk HQ. apply pspec_bind. eapply GetPool_spec; [exact Hst|]. intros Hp.
  destruct (decide _); [apply pspec_fault_any|].
  apply (move_spec st A o); [done..| |done]. intros w' st1 A1 Hst1 Hu Hw' Ho Hd _.
  apply pspec_bind. eapply store_Set_irrelevant; [exact Hst1|done|]. intros st2 Hst2.
  apply pspec_bind. eapply SetTendermintUpdate_spec; [exact Hst2|]. intros st3 Hst3.
  apply pspec_ret. by eapply HQ.
Qed.

Lemma set_cliff_spec st A mx count w (Q : unit -> stores -> Prop) :
  srep st A -> (forall st', srep st' A -> Q tt st') -> pspec m (set_cliff k ctx mx count w) st Q any_panic.
Proof.
  intros Hst HQ. unfold set_cliff. destruct (_ =? _); [|apply pspec_ret; by apply HQ].
  apply pspec_bind. eapply GetPool_spec; [exact Hst|]. intros _.
  destruct w as [w|]; [|apply pspec_bind, pspec_lift_any; intros ? _; apply pspec_fault_any].
  apply pspec_bind, pspec_lift_any. intros key _.
  apply pspec_bind. eapply store_Set_irrelevant; [exact Hst|done|]. intros st1 Hst1.
  by eapply store_Set_irrelevant.
Qed.

Lemma clearCliff_spec st A (Q : unit -> stores -> Prop) :
  srep st A -> (forall st', srep st' A -> Q tt st') -> pspec m (clearCliffValidator k ctx) st Q any_panic.
Proof.
  intros Hst HQ. apply pspec_bind. eapply store_Delete_irrelevant; [exact Hst|done|]. intros st1 Hst1.
  by eapply store_Delete_irrelevant.
Qed.

(** What UpdateBondedValidators returns: nothing, or the new validator with
    its status changed. *)
Definition version_of (v u : Validator) : Prop :=
  validator_wf u /\ Owner u = Owner v /\ DelegatorShares u = DelegatorShares v.
Definition none_or_version (v u : Validator) : Prop := Owner u = [] \/ version_of v u.

Lemma loop_end_spec mx v st A kick u w count (Q : bool * Validator -> stores -> Prop) :
  srep st A -> none_or_version v u ->
  (forall kick' u' st' A', srep st' A' -> upd (Some (Owner v)) A A' -> none_or_version v u' -> Q (kick', u') st') ->
  pspec m (set_cliff k ctx mx count w;; mret (kick, u)) st Q any_panic.
Proof.
  intros Hst Hu HQ. apply pspec_bind. eapply set_cliff_spec; [exact Hst|].
  intros st1 Hst1. apply pspec_ret. eapply HQ; [exact Hst1|apply upd_refl|done].
Qed.

Lemma update_loop_spec mx v entries st A count w kick u (Q : bool * Validator -> stores -> Prop) :
  srep st A -> validator_wf v -> none_or_version v u ->
  (forall kick' u' st' A', srep st' A' -> upd (Some (Owner v)) A A' -> none_or_version v u' -> Q (kick', u') st') ->
  pspec m (update_loop k ctx mx v entries count w kick u) st Q any_panic.
Proof.
  intros Hst Hv Hu HQ.
  revert st A count w kick u Hst Hu HQ.
  induction entries as [|e entries IH]; intros st A count w kick u Hst Hu HQ; cbn [update_loop]; [by eapply loop_end_spec|].
  destruct (_ <? _); [by eapply loop_end_spec|].
  apply pspec_bind, pspec_iter_Value. cbv zeta.
  eapply (pspec_call _ _ _ _ (fun w1 st1 => st1 = st /\ validator_wf w1 /\ known (Some (Owner v)) A w1 /\
    (slice_bytes e.2 = Owner v -> w1 = v))).
  { case_bool_decide as Hown.
    - apply pspec_ret. split_and!; [done|done|by left|done].
    - eapply indexed_validator_spec; [exact Hst|]. intros w1 Hw1 Hwf Ho. split_and!; [done|done| |done].
      by eapply known_stored. }
  intros w1 st1 (-> & Hwf1 & Hk1 & Hnew).
  eapply (pspec_call _ _ _ _ (fun r st1 => exists A1, srep st1 A1 /\ upd (Some (Owner v)) A A1 /\
    none_or_version v r.2)).
  { destruct (_ && _).
    - apply pspec_bind. eapply bondValidator_spec; [exact Hst|done|exact Hk1|].
      intros w2 st2 A2 Hst2 Hu2 Hwf2 Ho2 Hd2. apply pspec_ret. exists A2. split_and!; [done|done|]. simpl.
      case_bool_decide as Hown; [|done]. rewrite (Hnew Hown) in *. by right.
    - apply pspec_ret. exists A. split_and!; [done|apply upd_refl|done]. }
  intros [[w2 kick2] u2] st2 (A2 & Hst2 & Hu2 & Hnv). cbv beta iota.
  destruct (_ && _); [apply pspec_fault_any|].
  apply (IH st2 A2); [done|done|]. intros kick' u' st' A' Hst' Hu' Hn'. by eapply HQ; [|eapply upd_trans|].
Qed.

Lemma UpdateBondedValidators_spec st A v (Q : Validator -> stores -> Prop) :
  srep st A -> validator_wf v ->
  (forall u st' A', srep st' A' -> upd (Some (Owner v)) A A' -> none_or_version v u -> Q u st') ->
  pspec m (UpdateBondedValidators k ctx v) st Q any_panic.
Proof.
  intros Hst Hv HQ. apply pspec_bind. eapply store_Get_any; [exact Hst|]. intros cliff.
  apply pspec_bind. eapply GetParams_spec; [exact Hst|]. intros _.
  apply pspec_bind. eapply store_Prefix_any; [exact Hst|done|]. intros entries.
  apply pspec_bind. eapply update_loop_spec; [exact Hst|done|by left|].
  intros kick u st1 A1 Hst1 Hu1 Hn1. cbv beta iota.
  destruct cliff as [c|]; [|apply pspec_ret; by eapply HQ]. destruct kick; [|apply pspec_ret; by eapply HQ].
  apply pspec_bind. eapply indexed_validator_spec; [exact Hst1|]. intros w Hw Hwf Ho.
  apply pspec_bind. eapply unbondValidator_spec; [exact Hst1|done|by eapply known_stored|].
  intros w' st2 A2 Hst2 Hu2 _ _ _. apply pspec_ret. by eapply HQ; [|eapply upd_trans|].
Qed.

(** ** UpdateValidator *)

Lemma deferred_spec {B : Type} st owner v (p : prog B) (Q : B -> stores -> Prop) :
  pspec m p st Q any_panic -> pspec m (deferred k ctx owner v p) st Q any_panic.
Proof. apply pspec_OnPanic_any. Qed.

Lemma with_Bond_wf v h c : validator_wf v -> is_int64 h -> is_int16 c -> validator_wf (with_Bond v h c).
Proof. intros [Hr _ _ Hw] Hh Hc. by split. Qed.
Lemma with_Revoked_wf v r : validator_wf v -> validator_wf (with_Revoked v r).
Proof. intros [Hr Hh Hc Hw]. by split. Qed.
Lemma with_Description_wf v d : validator_wf v -> validator_wf (with_Description v d).
Proof. intros [Hr Hh Hc Hw]. by split. Qed.

Lemma version_intro v u :
  validator_wf u -> Owner u = Owner v -> DelegatorShares u = DelegatorShares v -> version_of v u.
Proof. done. Qed.
Lemma version_of_refl v : validator_wf v -> version_of v v.
Proof. done. Qed.
Lemma version_of_trans v u w : version_of v u -> version_of u w -> version_of v w.
Proof. intros (? & ? & ?) (? & ? & ?). apply version_intro; congruence. Qed.

Lemma GetIntraTxCounter_spec st A (Q : Z -> stores -> Prop) :
  srep st A -> (forall c, is_int16 c -> Q c st) -> pspec m (GetIntraTxCounter k ctx) st Q any_panic.
Proof.
  intros Hst HQ. apply pspec_bind. eapply store_Get_any; [exact Hst|]. intros b.
  apply pspec_lift_any. intros c. unfold must_unmarshal. destruct b as [bz|]; [|done].
  destruct (UnmarshalInt16 bz) as [z|] eqn:E; [|done]. intros [= <-]. apply HQ. by eapply Int16_decoded.
Qed.
Lemma SetIntraTxCounter_spec st A c (Q : unit -> stores -> Prop) :
  srep st A -> (forall st', srep st' A -> Q tt st') -> pspec m (SetIntraTxCounter k ctx c) st Q any_panic.
Proof. intros Hst HQ. apply pspec_bind, pspec_lift_any. intros bz _. by eapply store_Set_irrelevant. Qed.

Lemma set_bond_height_spec st A owner old v (Q : Validator -> stores -> Prop) :
  srep st A -> validator_wf v -> validator_wf (old_or_zero old) -> is_int64 (cx_BlockHeight ctx) ->
  (forall u st', srep st' A -> version_of v u -> Q u st') ->
  pspec m (set_bond_height k ctx owner old v) st Q any_panic.
Proof.
  intros Hst Hv Hold Hh HQ. unfold set_bond_height. destruct (decide _).
  - apply pspec_ret. eapply HQ; [exact Hst|]. apply version_intro; [|done|done].
    by apply with_Bond_wf; [|apply (vw_height _ Hold)|apply (vw_counter _ Hold)].
  - apply pspec_bind, deferred_spec. eapply GetIntraTxCounter_spec; [exact Hst|]. intros c Hc.
    apply pspec_bind, deferred_spec. eapply SetIntraTxCounter_spec; [exact Hst|]. intros st1 Hst1.
    apply pspec_ret. eapply HQ; [exact Hst1|]. apply version_intro; [|done|done].
    apply with_Bond_wf; [|done|done]. apply with_Bond_wf; [done|done|apply (vw_counter _ Hv)].
Qed.

Lemma move_power_index_spec st A old v p (Q : bytes -> stores -> Prop) :
  srep st A -> (forall key st', srep st' A -> Q key st') -> pspec m (move_power_index k ctx old v p) st Q any_panic.
Proof.
  intros Hst HQ. eapply (pspec_call _ _ _ _ (fun _ st1 => srep st1 A)).
  - destruct old as [old|]; [|by apply pspec_ret].
    apply pspec_bind, pspec_lift_any. intros key Hkey.
    eapply store_Delete_irrelevant; [exact Hst|by eapply PowerKey_irrelevant|done].
  - intros [] st1 Hst1. apply pspec_bind, pspec_lift_any. intros key Hkey.
    apply pspec_bind. eapply store_Set_irrelevant; [exact Hst1|by eapply PowerKey_irrelevant|].
    intros st2 Hst2. apply pspec_ret. by apply HQ.
Qed.

Lemma update_set_spec st A old v valPower inc (Q : Validator -> stores -> Prop) :
  srep st A -> validator_wf v ->
  (forall u st' A', srep st' A' -> upd (Some (Owner v)) A A' -> version_of v u -> Q u st') ->
  pspec m (update_set k ctx old v valPower inc) st Q any_panic.
Proof.
  intros Hst Hv HQ. unfold update_set. destruct (_ && _).
  { apply pspec_bind. eapply SetTendermintUpdate_spec; [exact Hst|]. intros st1 Hst1.
    apply pspec_ret. eapply HQ; [exact Hst1|apply upd_refl|by apply version_of_refl]. }
  apply pspec_bind. eapply store_Get_any; [exact Hst|]. intros cliff.
  destruct (_ && _).
  { apply pspec_ret. eapply HQ; [exact Hst|apply upd_refl|by apply version_of_refl]. }
  apply pspec_bind. eapply UpdateBondedValidators_spec; [exact Hst|done|].
  intros u st1 A1 Hst1 Hu1 Hn. apply pspec_ret. eapply HQ; [exact Hst1|exact Hu1|].
  destruct (Nat.eqb_spec (length (Owner u)) 0) as [E|E]; [by apply version_of_refl|].
  destruct Hn as [Hn|Hn]; [by rewrite Hn in E|done].
Qed.

Lemma zero_Validator_wf : validator_wf zero_Validator.
Proof. split; [repeat (constructor; [reflexivity|]); constructor|done|done|constructor]. Qed.

(** The record of the validator ends up with the delegator shares it was given;
    everything else is only moved around. *)
Lemma UpdateValidator_spec st A v (Q : Validator -> stores -> Prop) :
  srep st A -> validator_wf v -> is_int64 (cx_BlockHeight ctx) ->
  (forall u st' A', srep st' A' -> upd (Some (Owner v)) A A' -> as_vals A' !! Owner v = Some u -> version_of v u -> Q u st') ->
  pspec m (UpdateValidator k ctx v) st Q any_panic.
Proof.
  intros Hst Hv Hh HQ. apply pspec_bind. eapply GetPool_spec; [exact Hst|]. intros _. cbv zeta.
  apply pspec_bind, deferred_spec. eapply GetValidator_spec; [exact Hst|]. intros Hold.
  set (old := as_vals A !! Owner v) in *.
  assert (Hwold : validator_wf (old_or_zero old)).
  { destruct old as [w|]; [by apply Hold|apply zero_Validator_wf]. }
  apply pspec_bind, deferred_spec.
  eapply (pspec_mono _ _ _ (fun u st1 => version_of v u /\ exists A1, srep st1 A1 /\ upd (Some (Owner v)) A A1));
    [|intros v1 st1 (Hv1 & A1 & Hst1 & Hu1)|done].
  { destruct (_ && _).
    - eapply unbondValidator_spec; [exact Hst|done|by left|]. intros w st1 A1 Hst1 Hu1 Hw Ho Hd.
      split; [by apply version_intro|]. by exists A1.
    - apply pspec_ret. split; [by apply version_of_refl|]. exists A. by split; [|apply upd_refl]. }
  apply pspec_bind, deferred_spec.
  eapply (pspec_mono _ _ _ (fun _ st2 => srep st2 A1)); [|intros [] st2 Hst2|done].
  { destruct (_ && _); [by eapply clearCliff_spec|by apply pspec_ret]. }
  apply pspec_bind. eapply set_bond_height_spec; [exact Hst2|apply Hv1|done|done|].
  intros v2 st3 Hst3 Hv2. pose proof (version_of_trans _ _ _ Hv1 Hv2) as Hv2'.
  apply pspec_bind, deferred_spec. eapply move_power_index_spec; [exact Hst3|]. intros key st4 Hst4.
  apply pspec_bind, deferred_spec. eapply update_set_spec; [exact Hst4|apply Hv2'|].
  intros v3 st5 A5 Hst5 Hu5 Hv3. pose proof (version_of_trans _ _ _ Hv2' Hv3) as Hv3'.
  destruct Hv2' as (_ & Ho2 & _). rewrite Ho2 in Hu5.
  destruct Hv3' as (Hw3 & Ho3 & Hd3). destruct (Validator_roundtrip v3 Hw3) as (bz & Em & Ed).
  apply pspec_bind, pspec_lift_any. unfold must_marshal. rewrite Em. intros bz' [= <-].
  destruct (proj2 Hst5) as (s & Hs & Hr). apply pspec_bind, (pspec_Set _ _ _ s); [done|]. apply pspec_ret.
  eapply HQ; [eapply srep_insert; [exact Hst5|]| | |by apply version_intro].
  - rewrite <- Ho3. by apply rep_SetValidator.
  - eapply upd_trans; [exact Hu1|]. eapply upd_trans; [exact Hu5|].
    apply (upd_insert _ A5 (as_pool A5) (Owner v3) v3); [done|done|]. left. by rewrite Ho3.
  - simpl. by rewrite Ho3, lookup_insert_eq.
Qed.

(** ** RemoveValidator and the full update *)

Lemma RemoveValidator_spec st A a (Q : unit -> stores -> Prop) :
  srep st A -> (forall st', srep st' (with_as_vals A (delete a (as_vals A))) -> Q tt st') ->
  pspec m (RemoveValidator k ctx a) st Q any_panic.
Proof.
  intros Hst HQ. apply pspec_bind. eapply GetValidator_spec; [exact Hst|]. intros Hv.
  destruct (as_vals A !! a) as [v|] eqn:Ea.
  2:{ apply pspec_ret, HQ. rewrite delete_id by done. by destruct A. }
  apply pspec_bind. eapply GetPool_spec; [exact Hst|]. intros _.
  apply pspec_bind. eapply DeleteValidator_spec; [exact Hst|]. intros st1 Hst1.
  apply pspec_bind, pspec_lift_any. intros pk Hpk.
  apply pspec_bind. eapply store_Delete_irrelevant; [exact Hst1|by eapply PubKeyKey_irrelevant|]. intros st2 Hst2.
  apply pspec_bind, pspec_lift_any. intros pw Hpw.
  apply pspec_bind. eapply store_Delete_irrelevant; [exact Hst2|by eapply PowerKey_irrelevant|]. intros st3 Hst3.
  apply pspec_bind. eapply store_Get_any; [exact Hst3|]. intros [b|]; [|apply pspec_ret; by apply HQ].
  apply pspec_bind. eapply store_Delete_irrelevant; [exact Hst3|done|]. intros st4 Hst4.
  by eapply SetTendermintUpdate_spec.
Qed.

Lemma collect_addrs_spec (st : stores) (entries : list (slice * slice)) (acc : gset Address) (Q : gset Address -> stores -> Prop) :
  (forall s, Q s st) -> pspec m (collect_addrs ctx entries acc) st Q any_panic.
Proof.
  intros HQ. revert acc. induction entries as [|e entries IH]; intros acc; [by apply pspec_ret|].
  apply pspec_bind, pspec_iter_Value, IH.
Qed.

Lemma full_loop_spec (mx : Z) (entries : list (slice * slice)) (st : stores) (A : astate) (count : Z) (w : option Validator)
    (kicks : gset Address) (Q : gset Address -> stores -> Prop) :
  srep st A -> (forall kicks' st' A', srep st' A' -> upd None A A' -> Q kicks' st') ->
  pspec m (full_loop k ctx mx entries count w kicks) st Q any_panic.
Proof.
  assert (Hend : forall st A kicks w count, srep st A ->
    (forall kicks' st' A', srep st' A' -> upd None A A' -> Q kicks' st') ->
    pspec m (set_cliff k ctx mx count w;; mret kicks) st Q any_panic).
  { intros st' A' kicks' w' count' Hst HQ. apply pspec_bind. eapply set_cliff_spec; [exact Hst|].
    intros st1 Hst1. apply pspec_ret. eapply HQ; [exact Hst1|apply upd_refl]. }
  revert st A count w kicks. induction entries as [|e entries IH]; intros st A count w kicks Hst HQ;
    cbn [full_loop]; [by eapply Hend|].
  destruct (_ <? _); [by eapply Hend|].
  apply pspec_bind, pspec_iter_Value.
  apply pspec_bind. eapply indexed_validator_spec; [exact Hst|]. intros w1 Hw1 Hwf Ho.
  eapply (pspec_call _ _ _ _ (fun _ st1 => exists A1, srep st1 A1 /\ upd None A A1)).
  { case_bool_decide.
    - apply pspec_ret. exists A. by split; [|apply upd_refl].
    - apply pspec_bind. eapply (bondValidator_spec _ _ None); [exact Hst|done|by eapply known_stored|].
      intros w2 st2 A2 Hst2 Hu2 _ _ _. apply pspec_ret. by exists A2. }
  intros [w2 kicks2] st2 (A2 & Hst2 & Hu2). destruct (_ && _); [apply pspec_fault_any|].
  apply (IH st2 A2); [done|]. intros kicks' st' A' Hst' Hu'. eapply HQ; [done|by eapply upd_trans].
Qed.

(** Whatever the order of the map. *)
Lemma UpdateBondedValidatorsFull_spec kick_order st A (Q : unit -> stores -> Prop) :
  srep st A -> (forall st' A', srep st' A' -> upd None A A' -> Q tt st') ->
  pspec m (UpdateBondedValidatorsFull kick_order k ctx) st Q any_panic.
Proof.
  intros Hst HQ. apply pspec_bind. eapply store_Prefix_any; [exact Hst|done|]. intros entries.
  apply pspec_bind, collect_addrs_spec. intros kicks.
  apply pspec_bind. eapply GetParams_spec; [exact Hst|]. intros _.
  apply pspec_bind. eapply store_Prefix_any; [exact Hst|done|]. intros entries2.
  apply pspec_bind. eapply full_loop_spec; [exact Hst|]. intros kicks2 st1 A1 Hst1 Hu1.
  generalize (kick_order (elements kicks2)). intros l. revert st1 A1 Hst1 Hu1.
  induction l as [|a l IH]; intros st1 A1 Hst1 Hu1; [apply pspec_ret; by eapply HQ|]. cbn [forP].
  eapply (pspec_call _ _ _ _ (fun _ st2 => exists A2, srep st2 A2 /\ upd None A1 A2)).
  - apply pspec_bind. eapply indexed_validator_spec; [exact Hst1|]. intros w Hw Hwf Ho.
    apply pspec_bind. eapply (unbondValidator_spec _ _ None); [exact Hst1|done|by eapply known_stored|].
    intros w2 st2 A2 Hst2 Hu2 _ _ _. apply pspec_ret. by exists A2.
  - intros [] st2 (A2 & Hst2 & Hu2). by apply (IH st2 A2); [|eapply upd_trans].
Qed.
End validator_set.
