(* ===== verification/StakeConserve.v ===== *)
(** * Delegations conserve tokens and shares

    Specifications of the keeper's delegation operations on the abstract state
    and the accounts, and what they leave invariant: the supply of the pool,
    the coins that back its loose tokens, and that a validator's shares are
    those of its delegations.  Quantities are int64 and compared modulo 2^64,
    so no bound on the supply is assumed. *)
From Stdlib Require Import Strings.Byte Strings.String.
From S2P Require Import Prelude Int Rational Errors Coin KVStore MultiStore Account Context ProgLogic Auth Records Address Ante Bank.
From S2P Require Import Pool Validator StakeKey StakeMsg StakeKeeper StakeVal StakeDel StakeHandler StakeRep StakeInv.
From Stdlib Require Import QArith Qreduction.
#[local] Open Scope string_scope.
#[local] Open Scope list_scope.
#[local] Open Scope Z_scope.

(** ** Sums over the records *)

Section sums.

(** What all unbonding delegations owe. *)
Definition ubd_total (ubds : gmap (Address * Address) UnbondingDelegation) : Z :=
  map_total (fun _ u => Amount (ubd_Balance u)) ubds.

Definition ubd_balance (o : option UnbondingDelegation) : Z := from_option (fun u => Amount (ubd_Balance u)) 0 o.

Lemma ubd_total_delete (ubds : gmap (Address * Address) UnbondingDelegation) key :
  ubd_total (delete key ubds) = ubd_total ubds - ubd_balance (ubds !! key).
Proof. apply map_total_delete. Qed.

Lemma ubd_total_insert (ubds : gmap (Address * Address) UnbondingDelegation) key u :
  ubd_total (<[key := u]> ubds) = ubd_total ubds - ubd_balance (ubds !! key) + Amount (ubd_Balance u).
Proof. apply map_total_insert. Qed.

(** The shares of all delegations to a validator. *)
Definition del_part (a : Address) (key : Address * Address) (o : option Delegation) : Q :=
  if decide (key.2 = a) then from_option del_Shares 0%Q o else 0%Q.
Definition del_total (dels : gmap (Address * Address) Delegation) (a : Address) : Q :=
  map_fold (fun key r z => Rat.Add (del_part a key (Some r)) z) Rat.ZeroRat dels.

Lemma del_total_new (dels : gmap (Address * Address) Delegation) key r a :
  dels !! key = None -> (del_total (<[key := r]> dels) a == del_part a key (Some r) + del_total dels a)%Q.
Proof.
  intros Hk. unfold del_total. rewrite map_fold_insert_L; [apply Rat.Add_eq| |done].
  intros j1 j2 z1 z2 y _ _ _. unfold Rat.Add. apply Qred_complete. rewrite !Qred_correct. ring.
Qed.

Lemma del_total_delete (dels : gmap (Address * Address) Delegation) key a :
  (del_total (delete key dels) a == del_total dels a - del_part a key (dels !! key))%Q.
Proof.
  destruct (dels !! key) as [r|] eqn:E.
  - rewrite <- (insert_delete_id dels key r E) at 2. rewrite del_total_new by apply lookup_delete_eq. ring.
  - rewrite delete_id by done. unfold del_part. simpl. destruct (decide _); ring.
Qed.

Lemma del_total_insert (dels : gmap (Address * Address) Delegation) key r a :
  (del_total (<[key := r]> dels) a ==
   del_total dels a - del_part a key (dels !! key) + del_part a key (Some r))%Q.
Proof.
  rewrite <- insert_delete_eq, del_total_new by apply lookup_delete_eq. rewrite del_total_delete. ring.
Qed.
End sums.

(** The shares a record gives, none without one. *)
Definition shares_of (o : option Delegation) : Q := from_option del_Shares 0%Q o.
Definition dshares `{Crypto} (A : astate) (a : Address) : Q := from_option DelegatorShares 0%Q (as_vals A !! a).

Section delegation.
Context `{HSC : StakeCodecLaws} `{HAL : !AddrCodec} `{HALL : !AddrCodecLaws} `{HC : !Codec} `{HCL : !CodecLaws}.
Context (k : Keeper) (ctx : Ctx) (Hkeys : storeKey k <> am_key (coinKeeper k)) (Hheight : is_int64 (cx_BlockHeight ctx)).
Abbreviation m := (cx_GasMeter ctx).
Abbreviation am := (coinKeeper k).

(** The staking store stands for [A] and the account store for [accs], whose
    coins may include some of amount zero: completing the unbonding of a
    fraction of a token pays such a coin. *)
Definition wrep (st : stores) (A : astate) (accs : gmap Address BaseAccount) : Prop :=
  (exists s, st !! storeKey k = Some s /\ rep s A) /\ (exists n, auth_st am st accs n) /\ accs_held accs.

Lemma wrep_srep st A accs : wrep st A accs -> StakeRep.srep k st st A.
Proof. intros [Hs _]. split; [apply frame_refl|exact Hs]. Qed.

Lemma wrep_stake st A accs st' A' : wrep st A accs -> StakeRep.srep k st st' A' -> wrep st' A' accs.
Proof.
  intros (_ & [n Hn] & Ho) [Hf Hs]. split; [done|]. split; [|done]. exists n.
  by eapply auth_st_frame.
Qed.

Lemma wrep_bank st A accs st' accs' n' :
  wrep st A accs -> auth_st am st' accs' n' -> accs_held accs' -> frame (am_key am) st st' -> wrep st' A accs'.
Proof. intros ((s & Hs & Hr) & _) Hn Ho Hf. split; [exists s; by rewrite Hf|]. by split; [exists n'|]. Qed.

Lemma Int64_eq i n : Int.Int64 i = Ok n -> n = i.
Proof.
  unfold Int.Int64, Int.big_IsInt64. case_bool_decide; [|done]. intros [= <-]. by apply wrap64_id.
Qed.

(** Shares move between a validator and its delegations, tokens between the
    loose pool and the rest: [n] tokens become loose and the delegation of [d]
    to [a] gets [q] shares, as [a] does. *)
Record moved (d a : Address) (n : Z) (q : Q) (A A' : astate) : Prop := mk_moved {
  mv_params : as_params A' = as_params A;
  mv_ubds : as_ubds A' = as_ubds A;
  mv_supply : TokenSupply (as_pool A') = TokenSupply (as_pool A);
  mv_loose : LooseTokens (as_pool A') = wrap64 (LooseTokens (as_pool A) + n);
  mv_dels : forall key, key <> (d, a) -> as_dels A' !! key = as_dels A !! key;
  mv_del : (shares_of (as_dels A' !! (d, a)) == shares_of (as_dels A !! (d, a)) + q)%Q;
  mv_vals : forall b, b <> a -> DelegatorShares <$> as_vals A' !! b = DelegatorShares <$> as_vals A !! b;
  mv_val : (dshares A' a == dshares A a + q)%Q
}.

(** Delegating [c] takes it from the account of [d]. *)
Definition charged (d : Address) (c : Coin) (accs accs' : gmap Address BaseAccount) : Prop :=
  transfer accs accs' (fun a x => if decide (a = d) then - amt [c] x else 0) (fun x => - amt [c] x).

Lemma Delegate_spec st A accs d c v (Q : Rat + sdkError -> stores -> Prop) :
  wrep st A accs -> validator_wf v -> as_vals A !! Owner v = Some v -> coin_wf c ->
  (forall err, Result_IsOK (err_Result err) = false -> Q (inr err) st) ->
  (forall issued st' A' accs', wrep st' A' accs' -> moved d (Owner v) (- Amount c) issued A A' -> charged d c accs accs' -> Q (inl issued) st') ->
  pspec m (Delegate k ctx d c v) st Q any_panic.
Proof.
  intros Hst Hv Hsv Hcw HQe HQ. apply pspec_bind. eapply GetDelegation_spec; [by eapply wrep_srep|]. intros Hdel.
  apply pspec_bind. eapply GetPool_spec; [by eapply wrep_srep|]. intros Hp.
  set (r0 := default (mk_Delegation d (Owner v) Rat.ZeroRat 0) (as_dels A !! (d, Owner v))).
  assert (Hr0 : delegation_wf r0 /\ del_DelegatorAddr r0 = d /\ del_ValidatorAddr r0 = Owner v).
  { unfold r0. destruct (as_dels A !! (d, Owner v)) as [r|]; [by apply Hdel|]. by split_and!. }
  cbv zeta. fold r0. destruct Hr0 as (Hwr0 & Hd0 & Hv0). rewrite Hd0.
  destruct (proj1 (proj2 Hst)) as [n Hn].
  apply pspec_bind. eapply pspec_mono; [apply (subtractCoins_held ctx am st accs n d c);
    [exact Hn|apply Hst|exact Hcw]| |done].
  intros [[newCoins tags] err] st1 Hpost. cbv beta iota. unfold moved_post in Hpost. simpl in Hpost.
  destruct err as [err|]; [apply pspec_ret; destruct Hpost as (_ & Herr & ->); by apply HQe|].
  destruct Hpost as (accs1 & n1 & Hst1 & Hok1 & Hf1 & Htr).
  pose proof (wrep_bank _ _ _ _ _ _ Hst Hst1 Hok1 Hf1) as Hw1.
  apply pspec_bind, pspec_lift_any. intros amount Hamount.
  rewrite (Int64_eq _ _ Hamount) in *. clear Hamount.
  apply pspec_bind, pspec_lift_any. intros [[v1 p1] issued] Hadd.
  destruct (AddTokensFromDel_effect _ _ _ _ _ _ Hadd Hp Hv) as (Hs & Hlo & Hp1 & Hv1 & Ho1 & Hd1 & Hni).
  cbv zeta beta iota.
  apply pspec_bind. eapply SetPool_spec; [by eapply wrep_srep|done|]. intros st2 Hst2.
  pose proof (wrep_stake _ _ _ _ _ Hw1 Hst2) as Hw2.
  apply pspec_bind. eapply SetDelegation_spec; [by eapply wrep_srep| |].
  { split; [apply is_norm_Add|exact Hheight]. }
  cbn [del_DelegatorAddr del_ValidatorAddr with_del_Height with_del_Shares]. rewrite Hd0, Hv0. intros st3 Hst3. pose proof (wrep_stake _ _ _ _ _ Hw2 Hst3) as Hw3.
  apply pspec_bind. eapply UpdateValidator_spec; [by eapply wrep_srep|done|done|].
  intros u st4 A4 Hst4 [U1 U2 U3 U4 U5 U6] Hu (Hwu & Hou & Hdu). pose proof (wrep_stake _ _ _ _ _ Hw3 Hst4) as Hw4.
  apply pspec_ret. eapply HQ; [exact Hw4| |]; rewrite Ho1 in *; simpl in *.
  - constructor; try congruence.
    + rewrite U5, Hlo. done.
    + intros key Hk. by rewrite U2, lookup_insert_ne.
    + rewrite U2, lookup_insert_eq. simpl. rewrite Rat.Add_eq. unfold r0, shares_of.
      destruct (as_dels A !! (d, Owner v)); simpl; [reflexivity|]. unfold Rat.ZeroRat. by rewrite Qred_correct.
    + intros a Ha. apply U6. congruence.
    + unfold dshares. rewrite Hu, Hsv. simpl. by rewrite Hdu.
  - eapply transfer_ext; [| |exact Htr]; intros; simpl; [case_decide|]; lia.
Qed.

(** The tokens that [shares] of [a] are worth. *)
Definition tokens_for (A : astate) (a : Address) (shares : Rat) : option Z :=
  v ← as_vals A !! a;
  match RemoveDelShares v (as_pool A) shares with Ok (_, _, n) => Some n | Panicked _ => None end.

Lemma RemoveDelShares_Revoked v r p shares v' p' n :
  RemoveDelShares (with_Revoked v r) p shares = Ok (v', p', n) -> exists v2, RemoveDelShares v p shares = Ok (v2, p', n).
Proof.
  rewrite !RemoveDelShares_eq. change (DelegatorShareExRate (with_Revoked v r) p) with (DelegatorShareExRate v p).
  destruct (DelegatorShareExRate v p); [|done]. cbn [mbind outcome_bind].
  change (val_Status (with_Revoked v r)) with (val_Status v). destruct (from_bonded _ _ p); [|done]. cbn [mbind outcome_bind].
  destruct (remove_shares _ _ _) as [[? ?]|]; [|done]. cbn [mbind outcome_bind]. intros [= _ <- <-]. by eexists.
Qed.

Lemma unbond_spec st A accs d a shares (Q : Z + sdkError -> stores -> Prop) :
  wrep st A accs ->
  (forall err, Result_IsOK (err_Result err) = false -> Q (inr err) st) ->
  (forall n st' A', wrep st' A' accs -> is_int64 n -> tokens_for A a shares = Some n ->
     moved d a n (- shares) A A' -> Q (inl n) st') ->
  pspec m (unbond k ctx d a shares) st Q any_panic.
Proof.
  intros Hst HQe HQ. apply pspec_bind. eapply GetDelegation_spec; [by eapply wrep_srep|]. intros Hdel.
  destruct (as_dels A !! (d, a)) as [r|] eqn:Er; [|apply pspec_ret, HQe; by apply err_Result_code].
  destruct (Hdel r eq_refl) as (Hwr & Hd & Ha).
  destruct (Rat.LT _ _); [apply pspec_ret, HQe; by apply err_Result_code|].
  apply pspec_bind. eapply GetValidator_spec; [by eapply wrep_srep|]. intros Hval.
  destruct (as_vals A !! a) as [v|] eqn:Ev; [|apply pspec_ret, HQe; by apply err_Result_code].
  destruct (Hval v eq_refl) as [Hwv Hov]. cbv zeta.
  eapply (pspec_call _ _ _ _ (fun v1 st1 => (version_of v v1 /\
      forall p v' p' n, RemoveDelShares v1 p shares = Ok (v', p', n) -> exists v2, RemoveDelShares v p shares = Ok (v2, p', n)) /\
    exists dels, wrep st1 (with_as_dels A dels) accs /\
    (forall key, key <> (d, a) -> dels !! key = as_dels A !! key) /\
    (shares_of (dels !! (d, a)) == del_Shares r - shares)%Q)).
  { destruct (Rat.IsZero _) eqn:Ez.
    - apply pspec_bind. eapply RemoveDelegation_spec; [by eapply wrep_srep|].
      cbn [del_DelegatorAddr del_ValidatorAddr with_del_Shares]. rewrite Hd, Ha. intros st1 Hst1. apply pspec_ret.
      split; [destruct (_ && _); (split; [|by eauto using RemoveDelShares_Revoked]);
        [by apply version_intro; [apply with_Revoked_wf|..]|by apply version_of_refl]|].
      eexists. split; [by eapply wrep_stake|]. split; [intros key Hk; by rewrite lookup_delete_ne|].
      rewrite lookup_delete_eq. simpl. rewrite Rat.Rat_IsZero_spec in Ez. apply Qeq_bool_iff in Ez. simpl in Ez. by rewrite <- Ez, Rat.Sub_eq.
    - apply pspec_bind. eapply SetDelegation_spec; [by eapply wrep_srep| |].
      { split; [apply is_norm_Sub|exact Hheight]. }
      cbn [del_DelegatorAddr del_ValidatorAddr with_del_Shares with_del_Height]. rewrite Hd, Ha. intros st1 Hst1.
      apply pspec_ret. split; [split; [by apply version_of_refl|by eauto]|].
      eexists. split; [by eapply wrep_stake|]. split; [intros key Hk; by rewrite lookup_insert_ne|].
      rewrite lookup_insert_eq. simpl. apply Rat.Sub_eq. }
  intros v1 st1 (((Hwv1 & Ho1 & Hd1) & Hsame) & dels & Hw1 & Hother & Hkey).
  apply pspec_bind. eapply GetPool_spec; [by eapply wrep_srep|]. intros Hp.
  apply pspec_bind, pspec_lift_any. intros [[v2 p2] n] Hrem.
  assert (Hn : tokens_for A a shares = Some n).
  { unfold tokens_for. rewrite Ev. simpl. destruct (Hsame _ _ _ _ Hrem) as [v' Hv']. simpl in Hv'. by rewrite Hv'. }
  destruct (RemoveDelShares_effect _ _ _ _ _ _ Hrem Hp Hwv1) as (Hs & Hlo & Hp2 & Hv2 & Ho2 & Hd2 & Hni).
  cbv zeta beta iota.
  apply pspec_bind. eapply SetPool_spec; [by eapply wrep_srep|done|]. intros st2 Hst2.
  pose proof (wrep_stake _ _ _ _ _ Hw1 Hst2) as Hw2.
  apply pspec_bind. eapply UpdateValidator_spec; [by eapply wrep_srep|done|done|].
  intros u st3 A3 Hst3 [U1 U2 U3 U4 U5 U6] Hu (Hwu & Hou & Hdu). pose proof (wrep_stake _ _ _ _ _ Hw2 Hst3) as Hw3.
  rewrite Ho2, Ho1, Hov in *. simpl in *.
  assert (Hds : (dshares A a == DelegatorShares v)%Q) by (unfold dshares; by rewrite Ev).
  eapply (pspec_call _ _ _ _ (fun _ st4 => exists A4, wrep st4 A4 accs /\ moved d a n (- shares) A A4)).
  2:{ intros [] st4 (A4 & Hw4 & Hm4). apply pspec_ret. by eapply HQ. }
  assert (Hmv : forall A4, as_params A4 = as_params A3 -> as_pool A4 = as_pool A3 -> as_ubds A4 = as_ubds A3 ->
    as_dels A4 = as_dels A3 -> (forall b, b <> a -> as_vals A4 !! b = as_vals A3 !! b) ->
    (dshares A4 a == DelegatorShares u)%Q -> moved d a n (- shares) A A4).
  { intros A4 E1 E2 E3 E4 E5 E6. constructor; try congruence.
    - intros key Hk. rewrite E4, U2. by apply Hother.
    - rewrite E4, U2, Er. simpl. by rewrite Hkey.
    - intros b Hb. rewrite E5 by done. apply U6. congruence.
    - rewrite E6, Hdu, Hd2, Hds, Hd1. reflexivity. }
  destruct (Rat.IsZero (DelegatorShares u)) eqn:Ez.
  - eapply RemoveValidator_spec; [by eapply wrep_srep|]. intros st4 Hst4. eexists.
    split; [by eapply wrep_stake|]. apply Hmv; try done.
    + intros b Hb. simpl. by rewrite Hou, lookup_delete_ne.
    + unfold dshares. simpl. rewrite Hou, lookup_delete_eq. simpl. rewrite Rat.Rat_IsZero_spec in Ez. apply Qeq_bool_iff in Ez. by rewrite Ez.
  - apply pspec_ret. exists A3. split; [done|]. apply Hmv; try done. unfold dshares. by rewrite Hu.
Qed.
End delegation.
