(* ===== verification/StakeSupply.v ===== *)
(** * What the staking messages leave invariant

    The loose tokens of the pool are those no validator holds: the coins of
    the accounts and what unbonding delegations owe.  [backing] is the part of
    them that neither accounts for.  The handlers of x/stake/handler.go keep
    it, the token supply and the agreement of validators' and delegations'
    shares - except for beginning an unbonding over a pending one, which
    forgets what was owed, and beginning a redelegation, which charges the
    delegator's account for tokens the unbonding already made loose. *)
From Stdlib Require Import Strings.Byte Strings.String.
From S2P Require Import Prelude Int Rational Errors Coin KVStore MultiStore Account Context ProgLogic Auth Records Address Ante Bank.
From S2P Require Import Pool Validator StakeKey StakeMsg StakeKeeper StakeVal StakeDel StakeHandler StakeRep StakeInv StakeConserve.
From Stdlib Require Import QArith Qreduction Lqa.
#[local] Open Scope string_scope.
#[local] Open Scope list_scope.
#[local] Open Scope Z_scope.

Section supply.
Context `{HSC : StakeCodecLaws} `{HAL : !AddrCodec} `{HALL : !AddrCodecLaws} `{HC : !Codec} `{HCL : !CodecLaws}.
Context (k : Keeper) (ctx : Ctx) (Hkeys : storeKey k <> am_key (coinKeeper k)) (Hheight : is_int64 (cx_BlockHeight ctx)).
Abbreviation m := (cx_GasMeter ctx).

(** Loose tokens that are neither in an account nor owed to an unbonding
    delegation, modulo 2^64. *)
Definition backing (A : astate) (accs : gmap Address BaseAccount) : Z :=
  wrap64 (LooseTokens (as_pool A) - total accs (BondDenom (as_params A)) - ubd_total (as_ubds A)).

(** A validator's shares less those of its delegations. *)
Definition share_gap (A : astate) (a : Address) : Q := (dshares A a - del_total (as_dels A) a)%Q.

(** What unbonding delegations owe is in the bonded denomination. *)
Definition owes_bonds (A : astate) : Prop :=
  forall key u, as_ubds A !! key = Some u -> Coin.Denom (ubd_Balance u) = BondDenom (as_params A).

(** What is the same, and [leak] more loose tokens with no owner. *)
Record leaks (leak : Z) (A : astate) (accs : gmap Address BaseAccount) (A' : astate) (accs' : gmap Address BaseAccount)
    : Prop := mk_leaks {
  lk_params : as_params A' = as_params A;
  lk_supply : TokenSupply (as_pool A') = TokenSupply (as_pool A);
  lk_backing : backing A' accs' = wrap64 (backing A accs + leak);
  lk_shares : forall a, (share_gap A' a == share_gap A a)%Q;
  lk_owes : owes_bonds A -> owes_bonds A'
}.

Lemma owes_same A A' : as_params A' = as_params A -> as_ubds A' = as_ubds A -> owes_bonds A -> owes_bonds A'.
Proof. intros Hp Hu Ho key u. rewrite Hp, Hu. apply Ho. Qed.

Lemma backing_eq A accs A' accs' leak :
  as_params A' = as_params A ->
  (exists j, LooseTokens (as_pool A') - total accs' (BondDenom (as_params A)) - ubd_total (as_ubds A') =
   LooseTokens (as_pool A) - total accs (BondDenom (as_params A)) - ubd_total (as_ubds A) + leak + j * 2 ^ 64) ->
  backing A' accs' = wrap64 (backing A accs + leak).
Proof.
  intros Hp [j Hj]. unfold backing. rewrite Hp, wrap64_add_l. by apply (wrap64_mod _ _ j).
Qed.

Lemma leaks_refl A accs : is_int64 (LooseTokens (as_pool A)) -> leaks 0 A accs A accs.
Proof. intros _. split; [done|done| |done|done]. apply backing_eq; [done|]. exists 0. lia. Qed.

(** ** Shares *)

Lemma moved_gap d a n q A A' b : moved d a n q A A' -> (share_gap A' b == share_gap A b)%Q.
Proof.
  intros [_ _ _ _ Hdels Hdel Hvals Hval]. unfold share_gap.
  assert (Hd : (del_total (as_dels A') b == del_total (as_dels A) b + (if decide (a = b) then q else 0))%Q).
  { assert (E : as_dels A' = partial_alter (fun _ => as_dels A' !! (d, a)) (d, a) (as_dels A)).
    { apply map_eq. intros key. destruct (decide (key = (d, a))) as [->|Hne].
      - by rewrite lookup_partial_alter_eq.
      - rewrite lookup_partial_alter_ne by done. by apply Hdels. }
    rewrite E. unfold shares_of in Hdel. destruct (as_dels A' !! (d, a)) as [r|]; simpl in Hdel.
    - change (partial_alter (fun _ => Some r) (d, a) (as_dels A)) with (<[(d, a) := r]> (as_dels A)).
      rewrite del_total_insert. unfold del_part. simpl. destruct (decide (a = b)); [rewrite Hdel|]; ring.
    - change (partial_alter (fun _ => None) (d, a) (as_dels A)) with (delete (d, a) (as_dels A)).
      rewrite del_total_delete. unfold del_part. simpl. destruct (decide (a = b)); [|ring].
      lra. }
  rewrite Hd. destruct (decide (a = b)) as [ <- |Hne]; [rewrite Hval; ring|].
  unfold dshares. specialize (Hvals b ltac:(congruence)).
  assert (E : from_option DelegatorShares 0%Q (as_vals A' !! b) = from_option DelegatorShares 0%Q (as_vals A !! b)).
  { destruct (as_vals A' !! b), (as_vals A !! b); simpl in *; congruence. }
  rewrite E. ring.
Qed.

Lemma upd_gap v A A' b :
  upd (Some (Owner v)) A A' -> (dshares A' (Owner v) == dshares A (Owner v))%Q -> (share_gap A' b == share_gap A b)%Q.
Proof.
  intros [_ Hd _ _ _ Hv] Hval. unfold share_gap. rewrite Hd.
  destruct (decide (b = Owner v)) as [->|Hne]; [by rewrite Hval|].
  specialize (Hv b ltac:(congruence)). unfold dshares.
  assert (E : from_option DelegatorShares 0%Q (as_vals A' !! b) = from_option DelegatorShares 0%Q (as_vals A !! b)).
  { destruct (as_vals A' !! b), (as_vals A !! b); simpl in *; congruence. }
  by rewrite E.
Qed.

(** ** Tokens *)

Lemma moved_charged d a n q A A' d' c accs accs' :
  moved d a n q A A' -> charged d' c accs accs' -> Coin.Denom c = BondDenom (as_params A) ->
  leaks (n + Amount c) A accs A' accs'.
Proof.
  intros Hm [_ Ht _] Hc. split; [by apply Hm|by apply Hm| |intros; by eapply moved_gap|apply owes_same; by apply Hm].
  apply backing_eq; [by apply Hm|]. destruct Hm as [_ Hu _ Hl _ _ _ _].
  rewrite Hl, Hu, Ht. simpl. rewrite Hc, decide_True by done.
  destruct (wrap64_diff (LooseTokens (as_pool A) + n)) as [j ->]. exists j. lia.
Qed.

Lemma upd_leaks v A A' accs :
  upd (Some (Owner v)) A A' -> (dshares A' (Owner v) == dshares A (Owner v))%Q -> leaks 0 A accs A' accs.
Proof.
  intros Hu Hv. split; [by apply Hu|by apply Hu| |intros; by eapply upd_gap|apply owes_same; by apply Hu].
  apply backing_eq; [by apply Hu|]. exists 0. destruct Hu as [_ _ -> _ -> _]. lia.
Qed.

Lemma leaks_trans l1 l2 A1 c1 A2 c2 A3 c3 :
  leaks l1 A1 c1 A2 c2 -> leaks l2 A2 c2 A3 c3 -> leaks (l1 + l2) A1 c1 A3 c3.
Proof.
  intros [P1 S1 B1 G1 O1] [P2 S2 B2 G2 O2]. split; [congruence|congruence| |intros a; by rewrite G2, G1|auto].
  rewrite B2, B1, wrap64_add_l. f_equal. lia.
Qed.

(** ** The keeper *)

Lemma REDKeys_irrelevant p a x key :
  relevant (p :: []) = false -> (q ← (res ← MustMarshalAddress a; Ok (p :: res)); Ok (q ++ x)) = Ok key -> relevant key = false.
Proof.
  intros Hp. destruct (MustMarshalAddress a) as [bz|]; [|done]. cbn. intros [= <-]. by destruct p.
Qed.

Lemma SetRedelegation_spec st0 st A r (Q : unit -> stores -> Prop) :
  StakeRep.srep k st0 st A -> (forall st', StakeRep.srep k st0 st' A -> Q tt st') ->
  pspec m (SetRedelegation k ctx r) st Q any_panic.
Proof.
  intros Hst HQ. apply pspec_bind, pspec_lift_any. intros bz _.
  apply pspec_bind, pspec_lift_any. intros k1 Hk1.
  apply pspec_bind. eapply store_Set_irrelevant; [exact Hst|by eapply REDKeys_irrelevant; [|exact Hk1]|]. intros st1 Hst1.
  apply pspec_bind, pspec_lift_any. intros k2 Hk2.
  apply pspec_bind. eapply store_Set_irrelevant; [exact Hst1|by eapply REDKeys_irrelevant; [|exact Hk2]|]. intros st2 Hst2.
  apply pspec_bind, pspec_lift_any. intros k3 Hk3.
  eapply store_Set_irrelevant; [exact Hst2|by eapply REDKeys_irrelevant; [|exact Hk3]|exact HQ].
Qed.

Lemma RemoveRedelegation_spec st0 st A r (Q : unit -> stores -> Prop) :
  StakeRep.srep k st0 st A -> (forall st', StakeRep.srep k st0 st' A -> Q tt st') ->
  pspec m (RemoveRedelegation k ctx r) st Q any_panic.
Proof.
  intros Hst HQ. apply pspec_bind, pspec_lift_any. intros k1 Hk1.
  apply pspec_bind. eapply store_Delete_irrelevant; [exact Hst|by eapply REDKeys_irrelevant; [|exact Hk1]|]. intros st1 Hst1.
  apply pspec_bind, pspec_lift_any. intros k2 Hk2.
  apply pspec_bind. eapply store_Delete_irrelevant; [exact Hst1|by eapply REDKeys_irrelevant; [|exact Hk2]|]. intros st2 Hst2.
  apply pspec_bind, pspec_lift_any. intros k3 Hk3.
  eapply store_Delete_irrelevant; [exact Hst2|by eapply REDKeys_irrelevant; [|exact Hk3]|exact HQ].
Qed.

Lemma GetRedelegation_spec st0 st A d s t (Q : option Redelegation -> stores -> Prop) :
  StakeRep.srep k st0 st A -> (forall o, Q o st) -> pspec m (GetRedelegation k ctx d s t) st Q any_panic.
Proof.
  intros Hst HQ. apply pspec_bind, pspec_lift_any. intros key _.
  apply pspec_bind. eapply store_Get_any; [exact Hst|]. intros [bz|]; [|by apply pspec_ret].
  apply pspec_bind, pspec_lift_any. intros r _. by apply pspec_ret.
Qed.

Lemma CompleteRedelegation_spec st A accs d s t (Q : option sdkError -> stores -> Prop) :
  wrep k st A accs -> (forall err st', wrep k st' A accs -> Q err st') ->
  pspec m (CompleteRedelegation k ctx d s t) st Q any_panic.
Proof.
  intros Hst HQ. apply pspec_bind. eapply GetRedelegation_spec; [by eapply wrep_srep|].
  intros [r|]; [|apply pspec_ret; by apply HQ]. cbv zeta. destruct (_ <? _); [apply pspec_ret; by apply HQ|].
  apply pspec_bind. eapply RemoveRedelegation_spec; [by eapply wrep_srep|]. intros st1 Hst1. apply pspec_ret.
  apply HQ. by eapply wrep_stake.
Qed.

Lemma NewInt_coin_wf denom n : is_int64 n -> coin_wf (mk_Coin denom (Int.NewInt n)).
Proof.
  unfold is_int64, coin_wf, Int.wf, Int.NewInt, min_int64, max_int64. simpl Amount. intros Hn.
  assert (2 ^ 64 <= 2 ^ 255) by (apply Z.pow_le_mono_r; lia). lia.
Qed.

(** The pending unbonding between the two, if any, is replaced. *)
Lemma BeginUnbonding_spec st A accs d a shares (Q : option sdkError -> stores -> Prop) :
  wrep k st A accs ->
  (forall err, Result_IsOK (err_Result err) = false -> Q (Some err) st) ->
  (forall st' A', wrep k st' A' accs -> leaks (ubd_balance (as_ubds A !! (d, a))) A accs A' accs -> Q None st') ->
  pspec m (BeginUnbonding k ctx d a shares) st Q any_panic.
Proof.
  intros Hst HQe HQ. apply pspec_bind. eapply unbond_spec; [done|done|exact Hst| |].
  { intros err Herr. apply pspec_ret. by apply HQe. }
  intros n st1 A1 Hw1 Hn _ Hm.
  apply pspec_bind. eapply GetParams_spec; [by eapply wrep_srep|]. intros _. cbv zeta.
  apply pspec_bind. eapply SetUBD_spec; [by eapply wrep_srep| |].
  { split; [done|apply wrap64_is_int64|by apply NewInt_coin_wf|by apply NewInt_coin_wf]. }
  cbn [ubd_DelegatorAddr ubd_ValidatorAddr]. intros st2 Hst2. apply pspec_ret.
  eapply HQ; [by eapply wrep_stake|]. split; [by apply Hm|by apply Hm| |intros b; exact (moved_gap d a n (- shares) _ _ b Hm)|].
  2:{ intros Ho key u. simpl. rewrite lookup_insert_Some. intros [[_ <-]|[_ Hu]]; [done|].
    revert Hu. rewrite (mv_ubds _ _ _ _ _ _ Hm), (mv_params _ _ _ _ _ _ Hm). apply Ho. }
  apply backing_eq; [by apply Hm|]. simpl. rewrite ubd_total_insert, (mv_ubds _ _ _ _ _ _ Hm), (mv_loose _ _ _ _ _ _ Hm).
  destruct (wrap64_diff (LooseTokens (as_pool A) + n)) as [j ->]. exists j. simpl. unfold Int.NewInt. lia.
Qed.

Lemma CompleteUnbonding_spec st A accs d a (Q : option sdkError -> stores -> Prop) :
  wrep k st A accs ->
  owes_bonds A ->
  (forall err, Result_IsOK (err_Result err) = false -> Q (Some err) st) ->
  (forall st' A' accs', wrep k st' A' accs' -> leaks 0 A accs A' accs' -> Q None st') ->
  pspec m (CompleteUnbonding k ctx d a) st Q any_panic.
Proof.
  intros Hst Hbal HQe HQ. apply pspec_bind. eapply GetUBD_spec; [by eapply wrep_srep|]. intros Hu.
  destruct (as_ubds A !! (d, a)) as [u|] eqn:Eu; [|apply pspec_ret, HQe, err_Result_code; done].
  destruct (Hu u eq_refl) as ([_ _ _ Hwb] & Hd & Ha). pose proof (Hbal _ u Eu) as Hden.
  cbv zeta. destruct (_ <? _); [apply pspec_ret, HQe, err_Result_code; done|].
  destruct (proj1 (proj2 Hst)) as [n Hn].
  apply pspec_bind. eapply pspec_mono; [apply (addCoins_held ctx (coinKeeper k) st accs n (ubd_DelegatorAddr u) (ubd_Balance u) any_panic);
    [exact Hn|apply Hst|exact Hwb|done]| |done].
  intros [[newCoins tags] err] st1 Hpost. cbv beta iota. unfold moved_post in Hpost. simpl in Hpost.
  destruct err as [err|]; [destruct Hpost as (_ & Herr & ->); by apply pspec_ret, HQe|].
  destruct Hpost as (accs1 & n1 & Hst1 & Hok1 & Hf1 & [_ Ht _]).
  assert (Hw1 : wrep k st1 A accs1) by by eapply wrep_bank.
  apply pspec_bind. eapply RemoveUBD_spec; [by eapply wrep_srep|]. rewrite Hd, Ha. intros st2 Hst2. apply pspec_ret.
  eapply HQ; [by eapply wrep_stake|]. split; [done|done| |done|].
  2:{ intros _ key u'. simpl. rewrite lookup_delete_Some. intros [_ Hu']. by eapply Hbal. }
  apply backing_eq; [done|]. exists 0. rewrite Ht. simpl. rewrite ubd_total_delete, Eu, Hden, decide_True by done. simpl. lia.
Qed.

(** Both moves of tokens: what the delegator is charged was already loose. *)
Lemma BeginRedelegation_spec st A accs d s t shares (Q : option sdkError -> stores -> Prop) :
  wrep k st A accs ->
  (forall err st', Result_IsOK (err_Result err) = false -> Q (Some err) st') ->
  (forall n st' A' accs', tokens_for A s shares = Some n -> wrep k st' A' accs' -> leaks n A accs A' accs' ->
     charged d (mk_Coin (BondDenom (as_params A)) n) accs accs' -> Q None st') ->
  pspec m (BeginRedelegation k ctx d s t shares) st Q any_panic.
Proof.
  intros Hst HQe HQ.
  eapply (pspec_call _ _ _ _ (fun _ st1 => st1 = st)).
  { apply pspec_bind, pspec_lift_any. intros key Hkey. apply pspec_bind.
    eapply store_Prefix_any; [by eapply wrep_srep| |intros l; by apply pspec_ret].
    revert Hkey. unfold GetREDsByDelToValDstIndexKey, GetREDsToValDstIndexKey.
    destruct (MustMarshalAddress s); [|done]. cbn. by intros [= <-]. }
  intros [] st1 ->; [apply pspec_ret, HQe, err_Result_code; done|].
  apply pspec_bind. eapply unbond_spec; [done|done|exact Hst| |].
  { intros err Herr. by apply pspec_ret, HQe. }
  intros n st1 A1 Hw1 Hi Hn Hm.
  apply pspec_bind. eapply GetParams_spec; [by eapply wrep_srep|]. intros _. cbv zeta.
  apply pspec_bind. eapply GetValidator_spec; [by eapply wrep_srep|]. intros Hv.
  destruct (as_vals A1 !! t) as [v|] eqn:Ev; [|apply pspec_ret, HQe, err_Result_code; done]. destruct (Hv v eq_refl) as [Hwv <-].
  apply pspec_bind. eapply Delegate_spec; [done|done|exact Hw1|exact Hwv|exact Ev|by apply NewInt_coin_wf| |].
  { intros err Herr. by apply pspec_ret, HQe. }
  intros issued st2 A2 accs2 Hw2 Hm2 Hc2.
  apply pspec_bind. eapply SetRedelegation_spec; [by eapply wrep_srep|]. intros st3 Hst3. apply pspec_ret.
  rewrite (mv_params _ _ _ _ _ _ Hm) in *.
  eapply HQ; [exact Hn|by eapply wrep_stake| |exact Hc2].
  replace n with (n + 0) by lia. eapply (leaks_trans _ _ _ _ A1 accs).
  - split; [by apply Hm|by apply Hm| |intros b; by eapply moved_gap|apply owes_same; by apply Hm].
    apply backing_eq; [by apply Hm|]. rewrite (mv_ubds _ _ _ _ _ _ Hm), (mv_loose _ _ _ _ _ _ Hm).
    destruct (wrap64_diff (LooseTokens (as_pool A) + n)) as [j ->]. exists j. lia.
  - replace 0 with (- Amount (mk_Coin (BondDenom (as_params A)) (Int.NewInt n)) + Amount (mk_Coin (BondDenom (as_params A)) (Int.NewInt n))) by lia.
    eapply moved_charged; [exact Hm2|exact Hc2|simpl]. by rewrite (mv_params _ _ _ _ _ _ Hm).
Qed.

(** ** The handlers *)

(** The coins of a message decoded from bytes. *)
Definition msg_coins_wf (msg : stake_Msg) : Prop :=
  match msg with
  | CreateValidator msg => coin_wf (cv_SelfDelegation msg)
  | DelegateMsg msg => coin_wf (dl_Bond msg)
  | _ => True
  end.

(** The loose tokens a message leaves without an owner. *)
Definition leak_of (A : astate) (msg : stake_Msg) : Z :=
  match msg with
  | BeginUnbondingMsg msg =>
      ubd_balance (as_ubds A !! (slice_bytes (bu_DelegatorAddr msg), slice_bytes (bu_ValidatorAddr msg)))
  | BeginRedelegate msg => default 0 (tokens_for A (slice_bytes (br_ValidatorSrcAddr msg)) (br_SharesAmount msg))
  | _ => 0
  end.

Definition keeps (msg : stake_Msg) (A : astate) (accs : gmap Address BaseAccount) (r : Result) (st' : stores) : Prop :=
  Result_IsOK r = true -> exists A' accs', wrep k st' A' accs' /\ leaks (leak_of A msg) A accs A' accs'.

Lemma keeps_err msg A accs err st' : Result_IsOK (err_Result err) = false -> keeps msg A accs (err_Result err) st'.
Proof. intros Hc Hok. by rewrite Hc in Hok. Qed.

Lemma keeps_keeper_result msg A accs err args st' :
  (forall e, err = Some e -> Result_IsOK (err_Result e) = true -> False) ->
  (err = None -> exists A' accs', wrep k st' A' accs' /\ leaks (leak_of A msg) A accs A' accs') ->
  pspec m (keeper_result err args) st' (keeps msg A accs) any_panic.
Proof.
  intros He Hn. destruct err as [err|]; [apply pspec_ret; by intros ?%(He err eq_refl)|].
  apply pspec_bind, pspec_lift_any. intros tags _. apply pspec_ret. intros _. by apply Hn.
Qed.

Lemma NewValidator_wf owner pk desc : validator_wf (NewValidator owner pk desc).
Proof. split; [repeat (constructor; [reflexivity|]); constructor|done|done|constructor]. Qed.

Lemma moved_leaks0 d v c q A A' accs accs' :
  moved d v (- Amount c) q A A' -> charged d c accs accs' -> Coin.Denom c = BondDenom (as_params A) ->
  leaks 0 A accs A' accs'.
Proof. intros Hm Hc Hd. replace 0 with (- Amount c + Amount c) by lia. by eapply moved_charged. Qed.

Lemma handleMsgDelegate_keeps st A accs msg :
  wrep k st A accs -> coin_wf (dl_Bond msg) ->
  pspec m (handleMsgDelegate k ctx msg) st (keeps (DelegateMsg msg) A accs) any_panic.
Proof.
  intros Hst Hwf. apply pspec_bind. eapply GetValidator_spec; [by eapply wrep_srep|]. intros Hv.
  destruct (as_vals A !! _) as [v|] eqn:Ev; [|apply pspec_ret, keeps_err; by apply err_Result_code].
  destruct (Hv v eq_refl) as [Hwv Ho]. rewrite <- Ho in Ev.
  apply pspec_bind. eapply GetParams_spec; [by eapply wrep_srep|]. intros _.
  case_bool_decide as Hden; [|apply pspec_ret, keeps_err; by apply err_Result_code]. simpl negb. cbv iota.
  destruct (Revoked v); [apply pspec_ret, keeps_err; by apply err_Result_code|].
  apply pspec_bind. eapply Delegate_spec; [done|done|exact Hst|exact Hwv|exact Ev|exact Hwf| |].
  { intros err Herr. by apply pspec_ret, keeps_err. }
  intros issued st1 A1 accs1 Hw1 Hm1 Hc1. apply pspec_bind, pspec_lift_any. intros tags _. apply pspec_ret.
  intros _. exists A1, accs1. split; [exact Hw1|]. by eapply moved_leaks0.
Qed.

Lemma SetByPubKey_spec st0 st A v (Q : unit -> stores -> Prop) :
  StakeRep.srep k st0 st A -> (forall st', StakeRep.srep k st0 st' A -> Q tt st') ->
  pspec m (SetValidatorByPubKeyIndex k ctx v) st Q any_panic.
Proof.
  intros Hst HQ. apply pspec_bind, pspec_lift_any. intros key Hkey.
  eapply store_Set_irrelevant; [exact Hst|by eapply PubKeyKey_irrelevant|exact HQ].
Qed.

Lemma handleMsgCreateValidator_keeps st A accs msg :
  wrep k st A accs -> coin_wf (cv_SelfDelegation msg) ->
  pspec m (handleMsgCreateValidator k ctx msg) st (keeps (CreateValidator msg) A accs) any_panic.
Proof.
  intros Hst Hwf. apply pspec_bind. eapply GetValidator_spec; [by eapply wrep_srep|]. intros _.
  destruct (as_vals A !! _) as [v|] eqn:Ev; [apply pspec_ret, keeps_err; by apply err_Result_code|].
  apply pspec_bind. eapply GetParams_spec; [by eapply wrep_srep|]. intros _.
  case_bool_decide as Hden; [|apply pspec_ret, keeps_err; by apply err_Result_code]. simpl negb. cbv iota zeta.
  set (v := NewValidator _ _ _).
  apply pspec_bind. eapply SetValidator_spec; [by eapply wrep_srep|apply NewValidator_wf|]. intros st1 Hst1.
  apply pspec_bind. eapply SetByPubKey_spec; [exact Hst1|]. intros st2 Hst2.
  assert (Hw2 : wrep k st2 (with_as_vals A (<[Owner v := v]> (as_vals A))) accs) by by eapply wrep_stake.
  apply pspec_bind. eapply Delegate_spec; [done|done|exact Hw2|apply NewValidator_wf|simpl; by rewrite lookup_insert_eq|exact Hwf| |].
  { intros err Herr. by apply pspec_ret, keeps_err. }
  intros issued st3 A3 accs3 Hw3 Hm3 Hc3. apply pspec_bind, pspec_lift_any. intros tags _. apply pspec_ret.
  intros _. exists A3, accs3. split; [exact Hw3|]. simpl leak_of. change (leaks (0 + 0) A accs A3 accs3).
  eapply leaks_trans; [|by eapply moved_leaks0; [exact Hm3|exact Hc3|]].
  apply (upd_leaks v); [apply (upd_insert (Some (Owner v)) A (as_pool A)); [done|done|by left]|].
  unfold dshares. simpl. rewrite lookup_insert_eq, Ev. simpl. unfold Rat.ZeroRat. apply Qred_correct.
Qed.

Lemma handleMsgEditValidator_keeps st A accs msg :
  wrep k st A accs -> pspec m (handleMsgEditValidator k ctx msg) st (keeps (EditValidator msg) A accs) any_panic.
Proof.
  intros Hst. apply pspec_bind. eapply GetValidator_spec; [by eapply wrep_srep|]. intros Hv.
  destruct (as_vals A !! _) as [v|] eqn:Ev; [|apply pspec_ret, keeps_err; by apply err_Result_code].
  destruct (Hv v eq_refl) as [Hwv Ho]. rewrite <- Ho in Ev.
  assert (Hr : leaks 0 A accs A accs).
  { apply (upd_leaks v); [apply upd_refl|reflexivity]. }
  destruct (UpdateDescription _ _) as [desc [err|]]; [apply pspec_ret; intros _; by exists A, accs|]. cbv zeta.
  apply pspec_bind. eapply UpdateValidator_spec; [by eapply wrep_srep|by apply with_Description_wf|done|].
  intros u st1 A1 Hst1 Hu1 Hu (Hwu & Hou & Hdu). apply pspec_bind, pspec_lift_any. intros tags _. apply pspec_ret.
  intros _. exists A1, accs. split; [by eapply wrep_stake|]. apply (upd_leaks v); [exact Hu1|].
  unfold dshares. change (Owner (with_Description v desc)) with (Owner v) in Hu. rewrite Hu, Ev. simpl. by rewrite Hdu.
Qed.

(** C8: every staking message accounts for the tokens it moves.  Whatever the
    message - valid or not, whatever it pays, also nothing, but for amounts an
    Int cannot hold - and whatever validators the update of the set bonds,
    unbonds or kicks, when the handler succeeds the token supply and the
    parameters are the same, every validator's delegator shares have changed by
    exactly what its delegations have, and the loose tokens of the pool are
    still the coins of the accounts plus what unbonding delegations owe - but
    for what beginning an unbonding over a pending one forgets (the pending
    balance), and for what beginning a redelegation charges the delegator's
    account although no account was credited (the tokens redelegated).  What is
    owed is in the bonded denomination, and stays so.  Quantities are compared
    modulo 2^64, as the code computes them. *)
Theorem stake_handlers_account_for_tokens
    (st : stores) (A : astate) (accs : gmap Address BaseAccount) (msg : stake_Msg)
    (Hst : wrep k st A accs) (Hwf : msg_coins_wf msg) (Howes : owes_bonds A) :
  pspec m (stake_NewHandler k ctx Some msg) st (fun r st' =>
    Result_IsOK r = true -> exists A' accs', wrep k st' A' accs' /\ leaks (leak_of A msg) A accs A' accs') any_panic.
Proof.
  change (pspec m (stake_NewHandler k ctx Some msg) st (keeps msg A accs) any_panic).
  assert (Hr : leaks 0 A accs A accs) by (apply (upd_leaks zero_Validator); [apply upd_refl|reflexivity]).
  destruct msg as [msg|msg|msg|msg|msg|msg|msg]; simpl in Hwf;
    [by apply handleMsgCreateValidator_keeps|by apply handleMsgEditValidator_keeps|by apply handleMsgDelegate_keeps|..].
  - apply pspec_bind. eapply BeginRedelegation_spec; [exact Hst| |].
    + intros err st1 Herr. apply keeps_keeper_result; [intros e [= <-]; by rewrite Herr|done].
    + intros n st1 A1 accs1 Hn Hw1 Hl1 _. apply keeps_keeper_result; [done|]. intros _. exists A1, accs1. simpl. by rewrite Hn.
  - apply pspec_bind. eapply CompleteRedelegation_spec; [exact Hst|]. intros err st1 Hw1.
    apply pspec_mono with (Q := keeps (CompleteRedelegate msg) A accs) (E := any_panic); [|done|done].
    destruct err as [err|]; [apply pspec_ret; intros _; by exists A, accs|].
    apply keeps_keeper_result; [done|]. intros _. by exists A, accs.
  - apply pspec_bind. eapply BeginUnbonding_spec; [exact Hst| |].
    + intros err Herr. apply keeps_keeper_result; [intros e [= <-]; by rewrite Herr|done].
    + intros st1 A1 Hw1 Hl1. apply keeps_keeper_result; [done|]. intros _. by exists A1, accs.
  - apply pspec_bind. eapply CompleteUnbonding_spec; [exact Hst|exact Howes| |].
    + intros err Herr. apply keeps_keeper_result; [intros e [= <-]; by rewrite Herr|done].
    + intros st1 A1 accs1 Hw1 Hl1. apply keeps_keeper_result; [done|]. intros _. by exists A1, accs1.
Qed.
End supply.
