(* ===== verification/StakeBlock.v ===== *)
(** * The end of a block, and completing an unbonding

    What the end blocker of x/stake does to the pool and the validator
    updates, the range of the inflation rate, and that a mature unbonding can
    always be completed. *)
From Stdlib Require Import Strings.Byte Strings.String.
From S2P Require Import Prelude Int Rational Errors Coin KVStore MultiStore Account Context ProgLogic Auth Records Address Ante Bank.
From S2P Require Import Pool Validator StakeKey StakeMsg StakeKeeper StakeVal StakeDel StakeHandler StakeRep StakeInv StakeConserve.
From Stdlib Require Import QArith Qreduction Lqa.
#[local] Open Scope string_scope.
#[local] Open Scope list_scope.
#[local] Open Scope Z_scope.

(** ** The types of validators and pools *)

(** C12: the operations on a validator and the pool keep both values of their
    Go types: rationals in lowest terms, integers of 64 bits, and the owner of
    the validator; those that move tokens in and out of the bonded, unbonding
    and unbonded parts keep the supply. *)
Theorem validator_ops_typed `{Crypto} (v : Validator) (p : Pool) (Hv : validator_wf v) (Hp : pool_wf p) :
  (forall st v' p', UpdateStatus v p st = Ok (v', p') ->
     validator_wf v' /\ pool_wf p' /\ Owner v' = Owner v /\ TokenSupply p' = TokenSupply p) /\
  (forall amount v' p' issued, AddTokensFromDel v p amount = Ok (v', p', issued) ->
     validator_wf v' /\ pool_wf p' /\ Owner v' = Owner v /\ TokenSupply p' = TokenSupply p /\ Rat.is_norm issued) /\
  (forall shares v' p' n, RemoveDelShares v p shares = Ok (v', p', n) ->
     validator_wf v' /\ pool_wf p' /\ Owner v' = Owner v /\ TokenSupply p' = TokenSupply p /\ is_int64 n) /\
  (forall shares v' p' n, RemovePoolShares v p shares = Ok (v', p', n) ->
     validator_wf v' /\ pool_wf p' /\ Owner v' = Owner v /\ TokenSupply p' = TokenSupply p /\ is_int64 n).
Proof.
  split_and!; intros * E;
    [eapply UpdateStatus_effect in E|eapply AddTokensFromDel_effect in E|eapply RemoveDelShares_effect in E
    |eapply RemovePoolShares_effect in E]; tauto.
Qed.

(** ** Inflation *)

(** The pool after the provisions of a period. *)
Definition minted (params : Pool.Params) (pool : Pool) : outcome Pool :=
  inflation ← next_inflation params pool;
  supply ← Rat.NewRat (TokenSupply pool) [];
  q ← Rat.Quo (Rat.Mul inflation supply) hrsPerYrRat;
  Ok (with_Loose (with_Inflation pool (InflationLastTime pool) inflation)
        (wrap64 (LooseTokens pool + Rat.RoundInt64 q))).

(** A multiple of 1/precision, within 64 bits. *)
Definition at_precision (r : Rat) : Prop := exists z, (r * inject_Z precision == inject_Z z)%Q /\ is_int64 z.

Lemma Round_range r a b x :
  at_precision a -> at_precision b -> (a <= r)%Q -> (r <= b)%Q -> Rat.Round r precision = Ok x ->
  (a <= x)%Q /\ (x <= b)%Q.
Proof.
  intros (za & Ha & Hia) (zb & Hb & Hib) Har Hrb Hx.
  unfold Rat.Round in Hx. change (Rat.big_SetFrac precision 1) with (@Ok Rat (Qred (inject_Z precision))) in Hx.
  cbn [mbind outcome_bind] in Hx. cbv zeta in Hx. set (rTen := Rat.Mul r _) in Hx.
  assert (HrT : (rTen == r * inject_Z precision)%Q) by (unfold rTen; rewrite Rat.Mul_eq, Qred_correct; reflexivity).
  assert (Hp : (0 < inject_Z precision)%Q) by reflexivity.
  destruct (Rat.EvaluateBig_range rTen za zb) as [Hl Hu].
  { rewrite HrT, <- Ha. apply Qmult_le_compat_r; [done|]. by apply Qlt_le_weak. }
  { rewrite HrT, <- Hb. apply Qmult_le_compat_r; [done|]. by apply Qlt_le_weak. }
  assert (Hz : Rat.RoundInt64 rTen = Rat.EvaluateBig rTen).
  { apply wrap64_id. unfold is_int64 in *. lia. }
  rewrite Hz in Hx. revert Hl Hu Hx. generalize (Rat.EvaluateBig rTen). intros z Hl Hu Hx.
  assert (Hxz : (x * inject_Z precision == inject_Z z)%Q).
  { injection Hx as <-. rewrite Qred_correct. unfold Qeq, Qmult, inject_Z. cbn [Qnum Qden].
    by rewrite Pos.mul_1_r, Z.mul_1_r. }
  split.
  - apply (Qmult_le_r _ _ _ Hp). rewrite Ha, Hxz. by rewrite <- Zle_Qle.
  - apply (Qmult_le_r _ _ _ Hp). rewrite Hb, Hxz. by rewrite <- Zle_Qle.
Qed.

(** the inflation rate stays between the minimum and the maximum of the
    parameters, when these are multiples of the precision it is rounded to,
    whatever the bonded ratio and the previous rate. *)
Theorem next_inflation_range (params : Pool.Params) (pool : Pool) (r : Rat)
    (Hmin : at_precision (InflationMin params)) (Hmax : at_precision (InflationMax params))
    (Hle : (InflationMin params <= InflationMax params)%Q)
    (Hr : next_inflation params pool = Ok r) :
  (InflationMin params <= r)%Q /\ (r <= InflationMax params)%Q.
Proof.
  unfold next_inflation in Hr. destruct (BondedRatio pool) as [ratio|]; [|done]. cbn [mbind outcome_bind] in Hr.
  destruct (Rat.Quo ratio _) as [q|]; [|done]. cbn [mbind outcome_bind] in Hr. cbv zeta in Hr.
  destruct (Rat.Quo _ hrsPerYrRat) as [c|]; [|done]. cbn [mbind outcome_bind] in Hr.
  set (i1 := if Rat.GT _ _ then _ else _) in Hr. set (i2 := if Rat.LT _ _ then _ else _) in Hr.
  assert (H1 : (i1 <= InflationMax params)%Q).
  { unfold i1. destruct (Rat.GT _ _) eqn:E; [apply Qle_refl|].
    apply not_true_iff_false in E. rewrite Rat.Rat_GT_spec in E. by apply Qnot_lt_le. }
  assert (H2 : (i2 <= InflationMax params)%Q) by (unfold i2; by destruct (Rat.LT _ _)).
  assert (H3 : (InflationMin params <= i2)%Q).
  { unfold i2. destruct (Rat.LT _ _) eqn:E; [apply Qle_refl|].
    apply not_true_iff_false in E. rewrite Rat.Rat_LT_spec in E. by apply Qnot_lt_le. }
  by eapply Round_range.
Qed.

(** ** EndBlocker *)

Section block.
Context `{HSC : StakeCodecLaws} `{HAL : !AddrCodec} `{HALL : !AddrCodecLaws} `{HC : !Codec} `{HCL : !CodecLaws}.
Context (k : Keeper) (ctx : Ctx).
Abbreviation m := (cx_GasMeter ctx).
Abbreviation sk := (storeKey k).
Abbreviation updates_of := (range true (Some TendermintUpdatesKey) (prefix_end TendermintUpdatesKey)).

Lemma minted_wf params pool p :
  minted params pool = Ok p -> pool_wf pool -> pool_wf p /\ InflationLastTime p = InflationLastTime pool.
Proof.
  unfold minted, next_inflation. intros Hm [Hi Hr].
  destruct (BondedRatio pool) as [ratio|]; [|done]. cbn [mbind outcome_bind] in Hm.
  destruct (Rat.Quo ratio _) as [q|]; [|done]. cbn [mbind outcome_bind] in Hm. cbv zeta in Hm.
  destruct (Rat.Quo _ hrsPerYrRat) as [c|]; [|done]. cbn [mbind outcome_bind] in Hm.
  set (i2 := if Rat.LT _ _ then _ else _) in Hm.
  destruct (Rat.Round i2 precision) as [i|] eqn:Ei; [|done]. cbn [mbind outcome_bind] in Hm.
  destruct (Rat.NewRat _ _) as [su|]; [|done]. cbn [mbind outcome_bind] in Hm.
  destruct (Rat.Quo _ hrsPerYrRat) as [q2|]; [|done]. injection Hm as <-. split; [|done].
  apply with_Loose_wf; [|apply wrap64_is_int64]. split; [exact Hi|].
  assert (Hn : Rat.is_norm i) by (injection Ei as <-; apply Rat.is_norm_Qred).
  rewrite !Forall_cons in Hr. destruct Hr as (? & ? & ? & _ & ? & _). simpl. by repeat constructor.
Qed.

Lemma ProcessProvisions_spec st0 st A (Q : Pool -> stores -> Prop) :
  StakeRep.srep k st0 st A ->
  (forall p, minted (as_params A) (as_pool A) = Ok p -> pool_wf p -> InflationLastTime p = InflationLastTime (as_pool A) ->
     Q p st) ->
  pspec m (ProcessProvisions k ctx) st Q any_panic.
Proof.
  intros Hst HQ. apply pspec_bind. eapply GetPool_spec; [exact Hst|]. intros Hp.
  eapply (pspec_call _ _ _ _ (fun i st1 => next_inflation (as_params A) (as_pool A) = Ok i /\ st1 = st)); [|intros i st1 [Hi ->]].
  { apply pspec_bind. eapply GetParams_spec; [exact Hst|]. intros _.
    apply pspec_bind. eapply GetPool_spec; [exact Hst|]. intros _.
    by apply pspec_lift_any. }
  cbv zeta. apply pspec_bind, pspec_lift_any. intros su Hsu. apply pspec_bind, pspec_lift_any. intros q Hq.
  apply pspec_ret.
  assert (Hm : minted (as_params A) (as_pool A) = Ok (with_Loose (with_Inflation (as_pool A) (InflationLastTime (as_pool A)) i)
    (wrap64 (LooseTokens (as_pool A) + Rat.RoundInt64 q)))).
  { unfold minted. rewrite Hi. cbn [mbind outcome_bind].
    change (TokenSupply (with_Inflation (as_pool A) (InflationLastTime (as_pool A)) i)) with (TokenSupply (as_pool A)) in Hsu.
    rewrite Hsu. cbn [mbind outcome_bind].
    change (Inflation (with_Inflation (as_pool A) (InflationLastTime (as_pool A)) i)) with i in Hq. by rewrite Hq. }
  destruct (minted_wf _ _ _ Hm Hp) as [Hw _]. by apply HQ.
Qed.

(** The entries of a prefix depend on the keys below it only. *)
Lemma range_same p s s' :
  (forall key, p `prefix_of` key -> s' !! key = s !! key) ->
  range true (Some p) (prefix_end p) s' = range true (Some p) (prefix_end p) s.
Proof.
  intros Hs. eapply is_range_unique; [|apply range_spec]. destruct (range_spec true (Some p) (prefix_end p) s') as [Ho Hl].
  split; [exact Ho|]. intros key v. rewrite Hl. split; intros [R1 R2]; (split; [|exact R2]);
    apply prefix_end_domain in R2; [rewrite <- Hs|rewrite Hs]; done.
Qed.

Lemma mapP_read_spec {A : Type} (f : bytes -> option A) (l : list (bytes * bytes)) st (Q : list A -> stores -> Prop) :
  (forall us, Forall2 (fun kv u => f kv.2 = Some u) l us -> Q us st) ->
  pspec m (mapP (read_value ctx f) (slices l)) st Q any_panic.
Proof.
  revert Q. induction l as [|kv l IH]; intros Q HQ; [apply pspec_ret; apply HQ; constructor|].
  change (mapP _ (slices (kv :: l))) with (b ← read_value ctx f (Some kv.1, Some kv.2); bs ← mapP (read_value ctx f) (slices l); mret (b :: bs)).
  apply pspec_bind. apply pspec_bind, pspec_iter_Value. apply pspec_lift_any. intros a Ha.
  apply pspec_bind, IH. intros us Hus. apply pspec_ret, HQ. constructor; [|done].
  unfold must_unmarshal in Ha. simpl in Ha. destruct (f kv.2); [|done]. by injection Ha as <-.
Qed.

(** Deleting the entries one by one. *)
Lemma clear_loop_spec (l : list (bytes * bytes)) st s (Q : unit -> stores -> Prop) :
  st !! sk = Some s ->
  (forall s', (forall key, key ∈ l.*1 -> s' !! key = None) -> (forall key, key ∉ l.*1 -> s' !! key = s !! key) ->
     Q tt (<[sk := s']> st)) ->
  pspec m (forP (slices l) (fun e => key ← iter_Key ctx e; store_Delete ctx sk (slice_bytes key))) st Q any_panic.
Proof.
  revert st s Q. induction l as [|kv l IH]; intros st s Q Hs HQ.
  - apply pspec_ret. rewrite <- (insert_id st sk s Hs). apply HQ; [|done]. intros key Hk. simpl in Hk. by apply elem_of_nil in Hk.
  - change (forP (slices (kv :: l)) ?f) with (f (Some kv.1, Some kv.2);; forP (slices l) f).
    apply pspec_bind. apply pspec_bind, pspec_iter_Key. simpl.
    apply (pspec_Delete _ _ _ s); [done|]. eapply IH; [apply lookup_insert_eq|].
    intros s' Hin Hout. rewrite insert_insert_eq. apply HQ.
    + intros key. simpl. rewrite elem_of_cons. intros [->|Hk]; [|by apply Hin].
      destruct (decide (kv.1 ∈ l.*1)) as [Hk|Hk]; [by apply Hin|]. rewrite Hout by done. apply lookup_delete_eq.
    + intros key. simpl. rewrite not_elem_of_cons. intros [Hne Hk]. rewrite Hout by done. by rewrite lookup_delete_ne.
Qed.
(** C10: what the end of a block does, unless it panics.  It returns the validator updates stored
    since the last one, in the order of their keys, removes them all and
    resets the counter of the block's transactions.  If the time of the last
    inflation plus that of the block - the code adds where it means to
    subtract - is an hour or more, the pool gets the provisions of an hour at
    the new rate; and the time of the last inflation is never recorded,
    because the pool it is set on is replaced.  Every other key of the staking
    store is as it was, and so is every other store. *)
Theorem EndBlocker_effect (st : stores) (s : spec_store) (A : astate) (Hs : st !! sk = Some s) (Hr : rep s A) :
  pspec m (EndBlocker k ctx) st (fun updates st' => exists s' p',
    frame sk st st' /\ st' !! sk = Some s' /\ rep s' (with_as_pool A p') /\
    (if 3600 <=? wrap64 (InflationLastTime (as_pool A) + hd_Time (cx_BlockHeader ctx))
     then minted (as_params A) (as_pool A) = Ok p' else p' = as_pool A) /\
    InflationLastTime p' = InflationLastTime (as_pool A) /\
    s' !! IntraTxCounterKey = MarshalInt16 0 /\
    Forall2 (fun kv u => UnmarshalWRSPVal kv.2 = Some u) (updates_of s) updates /\
    (forall key, TendermintUpdatesKey `prefix_of` key -> s' !! key = None) /\
    (forall key, key <> PoolKey -> key <> IntraTxCounterKey -> ~ TendermintUpdatesKey `prefix_of` key ->
       s' !! key = s !! key)) any_panic.
Proof.
  assert (Hst : StakeRep.srep k st st A) by (split; [apply frame_refl|by exists s]).
  apply pspec_bind. eapply GetPool_spec; [exact Hst|]. intros Hp. cbv zeta.
  set (due := 3600 <=? _).
  eapply (pspec_call _ _ _ _ (fun p st1 => st1 = st /\ pool_wf p /\ InflationLastTime p = InflationLastTime (as_pool A) /\
    if due then minted (as_params A) (as_pool A) = Ok p else p = as_pool A)).
  { destruct due; [|by apply pspec_ret]. eapply ProcessProvisions_spec; [exact Hst|]. by intros p Hm Hw Hi. }
  intros p st1 (-> & Hpw & Hpi & Hpm).
  destruct (Pool_roundtrip p Hpw) as (bp & Emp & Edp).
  apply pspec_bind, pspec_bind, pspec_lift_any. unfold must_marshal at 1. rewrite Emp. intros bz [= <-].
  apply (pspec_Set _ _ _ s); [exact Hs|]. set (s1 := <[PoolKey := bp]> s).
  destruct (Int16_roundtrip 0) as (bc & Emc & Edc); [by split|].
  apply pspec_bind, pspec_bind, pspec_lift_any. unfold must_marshal at 1. rewrite Emc. intros bz [= <-].
  apply (pspec_Set _ _ _ s1); [apply lookup_insert_eq|]. rewrite insert_insert_eq. set (s2 := <[IntraTxCounterKey := bc]> s1).
  assert (Hr2 : rep s2 (with_as_pool A p)) by (apply rep_insert_irrelevant; [done|]; by apply rep_SetPool).
  assert (Hrange : updates_of s2 = updates_of s).
  { apply range_same. intros key [x ->]. unfold s2, s1. by rewrite !lookup_insert_ne. }
  apply pspec_bind, pspec_bind, (pspec_Prefix _ _ _ s2); [apply lookup_insert_eq|done|done|].
  rewrite Hrange. apply mapP_read_spec. intros us Hus.
  apply pspec_bind, pspec_bind, (pspec_Prefix _ _ _ s2); [apply lookup_insert_eq|done|done|].
  rewrite Hrange. eapply clear_loop_spec; [apply lookup_insert_eq|]. intros s3 Hin Hout. apply pspec_ret.
  assert (Hkeys : forall key, key ∈ (updates_of s).*1 -> TendermintUpdatesKey `prefix_of` key).
  { intros key [[k' v] [-> Hk]]%list_elem_of_fmap. apply prefix_end_domain.
    by apply (proj2 (range_spec true _ _ s)) in Hk as [_ ?]. }
  assert (Hother : forall key, ~ TendermintUpdatesKey `prefix_of` key -> s3 !! key = s2 !! key).
  { intros key Hk. apply Hout. by intros ?%Hkeys. }
  exists s3, p. rewrite insert_insert_eq. split; [apply frame_insert|]. split; [apply lookup_insert_eq|].
  split_and!; [|exact Hpm|exact Hpi| |exact Hus| |].
  - apply (rep_irrelevant s2); [|exact Hr2]. intros key Hrel. apply Hother. by intros [x ->].
  - rewrite Hother by by intros [x Hx]. unfold s2. by rewrite lookup_insert_eq.
  - intros key Hpre. destruct (decide (key ∈ (updates_of s).*1)) as [Hk|Hk]; [by apply Hin|].
    rewrite Hout by done. destruct (s2 !! key) as [v|] eqn:Ev; [|done]. exfalso. apply Hk.
    apply list_elem_of_fmap. exists (key, v). split; [done|]. rewrite <- Hrange.
    apply (proj2 (range_spec true _ _ s2)). split; [exact Ev|by apply prefix_end_domain].
  - intros key Hk1 Hk2 Hk3. rewrite Hother by done. unfold s2, s1. by rewrite !lookup_insert_ne.
Qed.

(** ** Completing an unbonding *)

(** C9: a mature unbonding is always paid: once the minimum time of the record
    has passed, completing it succeeds, credits the delegator with exactly its
    balance - one that is not negative, zero included - and changes nothing
    else: in the staking store the record and its index entry are deleted and
    every other key is as it was, no account but the delegator's holds more or
    less, and no store but these two is touched.  It can only run out of gas,
    or overflow the account's coins. *)
Theorem CompleteUnbonding_pays (st : stores) (A : astate) (accs : gmap Address BaseAccount)
    (d a : Address) (u : UnbondingDelegation)
    (Hkeys : storeKey k <> am_key (coinKeeper k)) (Hst : wrep k st A accs)
    (Hu : as_ubds A !! (d, a) = Some u) (Hmature : ubd_MinTime u <= hd_Time (cx_BlockHeader ctx))
    (Hbal : 0 <= Amount (ubd_Balance u)) :
  pspec m (CompleteUnbonding k ctx d a) st (fun err st' => err = None /\ exists accs' key idx s,
    wrep k st' (with_as_ubds A (delete (d, a) (as_ubds A))) accs' /\
    transfer accs accs' (fun b x => if decide (b = d) then amt [ubd_Balance u] x else 0) (fun x => amt [ubd_Balance u] x) /\
    GetUBDKey d a = Ok key /\ GetUBDByValIndexKey d a = Ok idx /\
    st !! sk = Some s /\ st' !! sk = Some (delete idx (delete key s)) /\
    (forall name, name <> sk -> name <> am_key (coinKeeper k) -> st' !! name = st !! name))
    int_overflow.
Proof.
  destruct Hst as ((s & Hs & Hr) & [n Hn] & Hok).
  assert (Hkey : forall x y, exists key, GetUBDKey x y = Ok key).
  { intros x y. unfold GetUBDKey, GetUBDsKey, MustMarshalAddress, must.
    destruct (MarshalAddress_total x) as [bx ->]. by eexists. }
  assert (Hidx : forall x y, exists key, GetUBDByValIndexKey x y = Ok key).
  { intros x y. unfold GetUBDByValIndexKey, GetUBDsByValIndexKey, MustMarshalAddress, must.
    destruct (MarshalAddress_total y) as [by' ->]. by eexists. }
  destruct (Hkey d a) as [key Ek], (Hidx d a) as [idx Ei].
  pose proof (r_ubds _ _ Hr _ _ _ Ek) as Hh. rewrite Hu in Hh.
  destruct (r_ubd_addrs _ _ Hr _ _ _ Hu) as [Hd Ha].
  destruct (holds_Some _ _ _ Hh) as (bz & Eb & Ed). destruct (UBD_decoded _ _ Ed) as [_ _ _ Hwb].
  apply pspec_bind, pspec_bind, pspec_lift; rewrite Ek; [intros ? [= <-]|done].
  eapply pspec_read; [exact Hs|exact Hh|]. cbv beta iota zeta.
  destruct (_ <? _) eqn:Et; [apply Z.ltb_lt in Et; lia|].
  rewrite Hd. apply pspec_bind. eapply pspec_mono;
    [apply (addCoins_held ctx (coinKeeper k) st accs n d (ubd_Balance u) int_overflow); [exact Hn|exact Hok|exact Hwb|done]| |done].
  intros [[newCoins tags] err] st1 Hpost. cbv beta iota. unfold moved_post in Hpost. cbn [snd] in Hpost.
  destruct err as [err|].
  { exfalso. destruct Hpost as ([x Hx] & _). pose proof (proj1 (proj2 (coins_at_held accs d Hok)) x).
    simpl in Hx. destruct (decide _) in Hx; lia. }
  destruct Hpost as (accs1 & n1 & Hst1 & Hok1 & Hf1 & Htr).
  assert (Hs1 : st1 !! sk = Some s) by by rewrite Hf1.
  apply pspec_bind, pspec_bind, pspec_lift; rewrite ?Hd, ?Ha, ?Ek; [intros ? [= <-]|done].
  apply pspec_bind, (pspec_Delete _ _ _ s); [exact Hs1|].
  apply pspec_bind, pspec_lift; rewrite ?Hd, ?Ha, ?Ei; [intros ? [= <-]|done].
  apply (pspec_Delete _ _ _ (delete key s)); [apply lookup_insert_eq|]. rewrite insert_insert_eq. apply pspec_ret.
  split; [done|]. exists accs1, key, idx, s.
  split; [|split_and!; [eapply transfer_ext; [| |exact Htr]; intros; cbv beta; [case_decide|]; lia|done|done|done| |]].
  2:{ apply lookup_insert_eq. }
  2:{ intros name Hn1 Hn2. rewrite lookup_insert_ne by done. by apply Hf1. }
  split; [|split; [|done]].
  - eexists. split; [apply lookup_insert_eq|]. apply rep_delete_irrelevant; [by eapply UBDByVal_irrelevant|].
    by apply rep_DeleteUBD.
  - exists n1. eapply auth_st_frame; [apply frame_insert|exact Hkeys|exact Hst1].
Qed.
End block.
