(* ===== verification/StakeExamples.v ===== *)
(** * Staking examples

    A small world: one account with 20 atoms, two validators with 10 unbonded
    tokens of it each, and 5 tokens of it unbonding.  The handlers are run on
    it, and the theorems are applied to it. *)
From Stdlib Require Import Strings.Byte Strings.String.
From S2P Require Import Prelude Wire Int Rational Errors Coin KVStore MultiStore Account Context ProgLogic Auth Records Address Ante Bank.
From S2P Require Import Pool Validator StakeKey StakeMsg StakeKeeper StakeVal StakeDel StakeHandler StakeModel StakeRep StakeInv StakeConserve StakeSupply StakeBlock.
From Stdlib Require Import QArith.
#[local] Open Scope string_scope.
#[local] Open Scope list_scope.
#[local] Open Scope Z_scope.

#[local] Existing Instance model_Crypto.
#[local] Existing Instance model_CryptoLaws.
#[local] Existing Instance model_Codec.
#[local] Existing Instance model_CodecLaws.
#[local] Existing Instance model_TM2PB.
#[local] Existing Instance model_StakeCodec.
#[local] Existing Instance model_StakeCodecLaws.
#[local] Existing Instance model_AddrCodec.
#[local] Existing Instance model_AddrCodecLaws.
#[local] Existing Instance model_Bech32.

Definition stake_key : StoreKey := mk_StoreKey 3 "stake".
Definition ex_keeper : Keeper := NewKeeper stake_key ex_am StakeErrors.DefaultCodespace.

Definition ex_params : Pool.Params :=
  Pool.mk_Params (13 # 100) (1 # 5) (7 # 100) (67 # 100) 259200 100 "atom".
Definition ex_stake_pool : Pool :=
  mk_Pool 25 20 0 0 (20 # 1) (0 # 1) (0 # 1) 0 (7 # 100) 0 (0 # 1).
Definition ex_v7 : Validator := ex_val ([Byte.x07] : bytes) Unbonded (10 # 1) (10 # 1).
Definition ex_v8 : Validator :=
  with_shares (NewValidator [Byte.x08] (Some ([Byte.x08] : bytes)) (NewDescription "n" "" "" ""))
    (mk_PoolShares Unbonded (10 # 1)) (10 # 1).
Definition ex_del (v : Address) : Delegation := mk_Delegation ex_addr v (10 # 1) 0.
Definition ex_ubd : UnbondingDelegation :=
  mk_UnbondingDelegation ex_addr [Byte.x07] 0 0 (mk_Coin "atom" 5) (mk_Coin "atom" 5).

(** The abstract state, and the store that stands for it. *)
Definition ex_A0 : astate := mk_astate _ ex_params ex_stake_pool ∅ ∅ ∅.
Definition ex_A : astate :=
  mk_astate _ ex_params ex_stake_pool (<[Owner ex_v8 := ex_v8]> (<[Owner ex_v7 := ex_v7]> ∅))
    (<[(ex_addr, [Byte.x08]) := ex_del [Byte.x08]]> (<[(ex_addr, [Byte.x07]) := ex_del [Byte.x07]]> ∅))
    (<[(ex_addr, [Byte.x07]) := ex_ubd]> ∅).

Definition key_of (k : outcome bytes) : bytes := match k with Ok k => k | Panicked _ => [] end.
Definition ex_s0 : spec_store := <[PoolKey := enc ex_stake_pool]> {[ ParamKey := enc ex_params ]}.
Definition ex_s : spec_store :=
  <[IntraTxCounterKey := enc 0]>
  (<[key_of (GetUBDKey ex_addr [Byte.x07]) := enc ex_ubd]>
  (<[key_of (GetDelegationKey ex_addr [Byte.x08]) := enc (ex_del [Byte.x08])]>
  (<[key_of (GetDelegationKey ex_addr [Byte.x07]) := enc (ex_del [Byte.x07])]>
  (<[GetValidatorKey (Owner ex_v8) := enc ex_v8]>
  (<[GetValidatorKey (Owner ex_v7) := enc ex_v7]> ex_s0))))).
Definition ex_world : stores := <[stake_key := ex_s]> ex_stores.

Lemma ex_rep0 : rep ex_s0 ex_A0.
Proof.
  assert (Hn : forall b r, b <> Byte.x00 -> b <> Byte.x01 -> ex_s0 !! (b :: r) = None).
  { intros b r Hb0 Hb1. unfold ex_s0. rewrite lookup_insert_ne, lookup_singleton_ne; [done|by intros [= <-]|by intros [= <-]]. }
  split; [vm_compute; reflexivity|vm_compute; reflexivity|..|done|done|done].
  - intros a. change (holds UnmarshalValidator (ex_s0 !! (Byte.x02 :: a)) None). by rewrite Hn.
  - intros d v key Hk. destruct (DelegationKey_relevant _ _ _ Hk) as [r ->]. by rewrite Hn.
  - intros d v key Hk. destruct (UBDKey_relevant _ _ _ Hk) as [r ->]. by rewrite Hn.
Qed.

Definition ex_A1 : astate := with_as_vals ex_A0 (<[Owner ex_v7 := ex_v7]> ∅).
Definition ex_A2 : astate := with_as_vals ex_A1 (<[Owner ex_v8 := ex_v8]> (as_vals ex_A1)).
Definition ex_A3 : astate := with_as_dels ex_A2 (<[(ex_addr, [Byte.x07]) := ex_del [Byte.x07]]> ∅).
Definition ex_A4 : astate := with_as_dels ex_A3 (<[(ex_addr, [Byte.x08]) := ex_del [Byte.x08]]> (as_dels ex_A3)).

Lemma ex_rep : rep ex_s ex_A.
Proof.
  apply rep_insert_irrelevant; [done|].
  refine (rep_SetUBD _ ex_A4 ex_ubd (enc ex_ubd) _ _ eq_refl _); [|vm_compute; reflexivity].
  refine (rep_SetDelegation _ ex_A3 (ex_del [Byte.x08]) (enc (ex_del [Byte.x08])) _ _ eq_refl _); [|vm_compute; reflexivity].
  refine (rep_SetDelegation _ ex_A2 (ex_del [Byte.x07]) (enc (ex_del [Byte.x07])) _ _ eq_refl _); [|vm_compute; reflexivity].
  refine (rep_SetValidator _ ex_A1 ex_v8 (enc ex_v8) _ _); [|vm_compute; reflexivity].
  refine (rep_SetValidator _ ex_A0 ex_v7 (enc ex_v7) _ _); [|vm_compute; reflexivity]. exact ex_rep0.
Qed.

Lemma ex_wrep : wrep ex_keeper ex_world ex_A ex_accs.
Proof.
  split; [|split; [exists 0|intros a acc Ha; by apply coins_ok_held, (ex_accs_ok a)]].
  - exists ex_s. split; [reflexivity|exact ex_rep].
  - destruct ex_auth_st as (s & Hs & Hr). exists s. split; [exact Hs|exact Hr].
Qed.

(** Runs a handler; what it says, then the abstract values of interest. *)
Definition run_stake {A} (p : prog A) : outcome A * spec_store * option Coins :=
  let '(r, w) := interp p (mk_World (mk_spec_ms ex_world ∅) [NewInfiniteGasMeter]) in
  (r, default ∅ (sm_stores (w_ms w) !! stake_key),
   bz ← (s ← sm_stores (w_ms w) !! example_key; (s : spec_store) !! AddressStoreKey ex_addr);
     acc_Coins <$> UnmarshalAccount bz).
Definition ok_of (r : outcome Result) : bool := match r with Ok r => Result_IsOK r | Panicked _ => false end.
Definition loose_of (s : spec_store) : option Z := LooseTokens <$> (s !! PoolKey ≫= UnmarshalPool).
Definition ubd_of (s : spec_store) : option Z :=
  (fun u => Amount (ubd_Balance u)) <$> (s !! key_of (GetUBDKey ex_addr [Byte.x07]) ≫= UnmarshalUBD).
Definition run_msg (msg : stake_Msg) : bool * option Z * option Z * option Coins :=
  let '(r, s, c) := run_stake (stake_NewHandler ex_keeper ex_ctx Some msg) in (ok_of r, loose_of s, ubd_of s, c).

Definition ex_delegate : stake_Msg :=
  DelegateMsg (mk_MsgDelegate (Some ex_addr) (Some [Byte.x07]) (mk_Coin "atom" 7)).
Definition ex_begin : stake_Msg :=
  BeginUnbondingMsg (mk_MsgBeginUnbonding (Some ex_addr) (Some [Byte.x07]) (4 # 1)).
Definition ex_complete : stake_Msg :=
  CompleteUnbondingMsg (mk_MsgCompleteUnbonding (Some ex_addr) (Some [Byte.x07])).
Definition ex_redelegate : stake_Msg :=
  BeginRedelegate (mk_MsgBeginRedelegate (Some ex_addr) (Some [Byte.x07]) (Some [Byte.x08]) (4 # 1)).

Definition ex_dust : stake_Msg :=
  BeginRedelegate (mk_MsgBeginRedelegate (Some ex_addr) (Some [Byte.x07]) (Some [Byte.x08]) (1 # 4)).

(** The handlers succeed; the loose tokens, the pending balance and the
    account afterwards.  The last line charges 4 atoms for a redelegation. *)
Example stake_handlers_run :
  run_msg ex_delegate = (true, Some 18, Some 5, Some [mk_Coin "atom" 13]) /\
  run_msg ex_begin = (true, Some 29, Some 4, Some [mk_Coin "atom" 20]) /\
  run_msg ex_complete = (true, Some 25, None, Some [mk_Coin "atom" 25]) /\
  run_msg ex_redelegate = (true, Some 25, Some 5, Some [mk_Coin "atom" 16]) /\
  run_msg ex_dust = (true, Some 25, Some 5, Some [mk_Coin "atom" 20]).
Proof. vm_compute. repeat split; reflexivity. Qed.

Lemma ex_height : is_int64 (cx_BlockHeight ex_ctx).
Proof. split; vm_compute; discriminate. Qed.

Lemma ex_owes : owes_bonds ex_A.
Proof.
  intros key u. change (as_ubds ex_A) with (<[(ex_addr, [Byte.x07]) := ex_ubd]> (∅ : gmap (Address * Address) UnbondingDelegation)).
  rewrite lookup_insert_Some, lookup_empty. by intros [[_ <-]|[_ [=]]].
Qed.

(** On the example: unbonding again forgets 5 tokens, redelegating leaves 4
    without an owner, and completing an unbonding or redelegating less than a
    token none. *)
Lemma stake_handlers_account_for_tokens_witness :
  let post leak := fun r st' => Result_IsOK r = true ->
    exists A' accs', wrep ex_keeper st' A' accs' /\ backing A' accs' = leak in
  backing ex_A ex_accs = 0 /\
  pspec 0 (stake_NewHandler ex_keeper ex_ctx Some ex_begin) ex_world (post 5) any_panic /\
  pspec 0 (stake_NewHandler ex_keeper ex_ctx Some ex_redelegate) ex_world (post 4) any_panic /\
  pspec 0 (stake_NewHandler ex_keeper ex_ctx Some ex_complete) ex_world (post 0) any_panic /\
  pspec 0 (stake_NewHandler ex_keeper ex_ctx Some ex_dust) ex_world (post 0) any_panic.
Proof.
  assert (Hb : backing ex_A ex_accs = 0) by (vm_compute; reflexivity).
  assert (Hgen : forall msg leak, msg_coins_wf msg -> leak_of ex_A msg = leak -> is_int64 leak ->
    pspec 0 (stake_NewHandler ex_keeper ex_ctx Some msg) ex_world (fun r st' => Result_IsOK r = true ->
      exists A' accs', wrep ex_keeper st' A' accs' /\ backing A' accs' = leak) any_panic).
  { intros msg leak Hwf Hl Hi. eapply pspec_mono.
    - refine (stake_handlers_account_for_tokens ex_keeper ex_ctx _ ex_height ex_world ex_A ex_accs msg ex_wrep Hwf ex_owes).
      discriminate.
    - intros r st' Hr Hok. destruct (Hr Hok) as (A' & accs' & Hw & [_ _ Hk _ _]). exists A', accs'.
      split; [exact Hw|]. rewrite Hk, Hb, Hl. by apply wrap64_id.
    - done. }
  split; [exact Hb|].
  split; [|split; [|split]]; apply Hgen; try exact I; try (vm_compute; reflexivity); split; vm_compute; discriminate.
Defined.

(** ** The end of a block *)

Definition ex_block_ctx : Ctx := WithBlockHeader ex_ctx (mk_Header "" 5 5000).
(** The rate of the next hour; the time of the last inflation stays 0. *)
Example EndBlocker_run :
  let '(r, s, _) := run_stake (EndBlocker ex_keeper ex_block_ctx) in
  (match r with Ok l => Some l | _ => None end,
   (fun p => (InflationLastTime p, Inflation p)) <$> (s !! PoolKey ≫= UnmarshalPool)) =
  (Some [], Some (0, 7001483003 # 100000000000)).
Proof. vm_compute. reflexivity. Qed.

Lemma EndBlocker_effect_witness :
  pspec 0 (EndBlocker ex_keeper ex_block_ctx) ex_world (fun updates st' => updates = [] /\ exists s' p',
    st' !! stake_key = Some s' /\ rep s' (with_as_pool ex_A p') /\ minted ex_params ex_stake_pool = Ok p' /\
    InflationLastTime p' = 0) any_panic.
Proof.
  eapply pspec_mono.
  - exact (EndBlocker_effect ex_keeper ex_block_ctx ex_world ex_s ex_A eq_refl ex_rep).
  - intros us st' (s' & p' & _ & Hs' & Hr' & Hm & Hi & _ & Hus & _ & _). split.
    + assert (E : range true (Some TendermintUpdatesKey) (prefix_end TendermintUpdatesKey) ex_s = []) by (vm_compute; reflexivity).
      rewrite E in Hus. by inversion Hus.
    + exists s', p'. split_and!; [exact Hs'|exact Hr'|exact Hm|exact Hi].
  - done.
Defined.

Lemma CompleteUnbonding_pays_witness :
  pspec 0 (CompleteUnbonding ex_keeper ex_ctx ex_addr [Byte.x07]) ex_world (fun err st' => err = None /\
    exists accs', wrep ex_keeper st' (with_as_ubds ex_A (delete (ex_addr, [Byte.x07]) (as_ubds ex_A))) accs' /\
      total accs' "atom" = 25) int_overflow.
Proof.
  eapply pspec_mono.
  - refine (CompleteUnbonding_pays ex_keeper ex_ctx ex_world ex_A ex_accs ex_addr [Byte.x07] ex_ubd _ ex_wrep _ _ _);
      [discriminate|reflexivity|vm_compute; discriminate|vm_compute; discriminate].
  - intros err st' (He & accs' & _ & _ & _ & Hw & Htr & _). split; [exact He|]. exists accs'. split; [exact Hw|].
    etransitivity; [apply (tr_total _ _ _ _ Htr)|vm_compute; reflexivity].
  - done.
Defined.

Lemma next_inflation_range_witness :
  exists r, next_inflation ex_params ex_stake_pool = Ok r /\ (7 # 100 <= r)%Q /\ (r <= 1 # 5)%Q.
Proof.
  assert (H : exists r, next_inflation ex_params ex_stake_pool = Ok r) by (eexists; vm_compute; reflexivity).
  destruct H as [r Hr]. exists r. split; [exact Hr|].
  refine (next_inflation_range ex_params ex_stake_pool r _ _ _ Hr).
  - exists 7000000000. split; [reflexivity|split; vm_compute; discriminate].
  - exists 20000000000. split; [reflexivity|split; vm_compute; discriminate].
  - vm_compute. discriminate.
Defined.

Lemma validator_ops_typed_witness :
  exists v' p', UpdateStatus ex_v7 ex_stake_pool Bonded = Ok (v', p') /\ validator_wf v' /\ pool_wf p'.
Proof.
  assert (H : exists r, UpdateStatus ex_v7 ex_stake_pool Bonded = Ok r) by (eexists; vm_compute; reflexivity).
  destruct H as [[v' p'] Hr]. exists v', p'. split; [exact Hr|].
  refine (let H := proj1 (validator_ops_typed ex_v7 ex_stake_pool _ _) Bonded v' p' Hr in conj (proj1 H) (proj1 (proj2 H)));
    apply (bool_decide_unpack _); vm_compute; reflexivity.
Defined.
