(* ===== verification/Footprint.v ===== *)
(** * The stores a program reaches

    A keeper holds the keys of its stores: what its programs can read or
    write is decided by them.  [touches P p] says that every store operation of
    [p] is on a key in [P]; a run then leaves every other store as it was.
    [runs] is the relation of a program's runs that return. *)
From Stdlib Require Import Strings.Byte Strings.String.
From S2P Require Import Prelude Int Rational Errors Coin KVStore GasKV MultiStore Account Context ProgLogic Auth Records Address Ante Bank Pool Validator StakeKey StakeMsg StakeKeeper StakeVal StakeDel StakeHandler.
#[local] Open Scope string_scope.
#[local] Open Scope list_scope.
#[local] Open Scope Z_scope.

Fixpoint touches (P : StoreKey -> Prop) {A : Type} (p : prog A) : Prop :=
  match p with
  | Ret _ | Fault _ => True
  | StoreOp _ key _ k => P key /\ forall r, touches P (k r)
  | ConsumeOp _ _ _ k => touches P k
  | NewMeterOp _ k => forall m, touches P (k m)
  | ConsumedOp _ k => forall z, touches P (k z)
  | RangeOp key _ _ _ k => P key /\ forall l, touches P (k l)
  | OnPanic p h k => touches P p /\ touches P h /\ forall b, touches P (k b)
  end.

Section touches.
Context (P : StoreKey -> Prop).

Lemma touches_bind {A B : Type} (p : prog A) (f : A -> prog B) :
  touches P p -> (forall a, touches P (f a)) -> touches P (p ≫= f).
Proof.
  intros Hp Hf. unfold mbind, prog_mbind.
  induction p as [| | | | | | |A C p _ h _ k IH]; simpl in *; [naive_solver..|].
  destruct Hp as (? & ? & Hk). split_and!; [done..|]. intros b. apply IH; auto.
Qed.

Lemma touches_lift {A : Type} (o : outcome A) : touches P (lift o).
Proof. by destruct o. Qed.

Lemma touches_forP {A : Type} (l : list A) (f : A -> prog unit) :
  (forall a, touches P (f a)) -> touches P (forP l f).
Proof. intros Hf. induction l as [|a l IH]; [done|]. by apply touches_bind. Qed.

Lemma touches_mapP {A B : Type} (l : list A) (f : A -> prog B) :
  (forall a, touches P (f a)) -> touches P (mapP f l).
Proof.
  intros Hf. induction l as [|a l IH]; [done|].
  by apply touches_bind; [|intros b; apply touches_bind].
Qed.

(** A run leaves the other stores alone, also when it panics. *)
Lemma interp_touches {A : Type} (p : prog A) (w : World spec_ms) (key : StoreKey) :
  touches P p -> ~ P key ->
  sm_stores (w_ms (interp p w).2) !! key = sm_stores (w_ms w) !! key.
Proof.
  intros Hp Hk. revert w Hp. induction p as [A a|A q|A m k op c IH|A m a d c IH|A g c IH|A m c IH|A k asc start end_ c IH
    |A C p IHp h IHh c IH]; intros w Hp; simpl in *; unfold mbind, M_bind; try done.
  - destruct Hp as [Hpk Hc]. assert (k <> key) by (intros ->; done).
    unfold gas_store_op. destruct (w_meters w !! m) as [g|]; [|done].
    destruct (ms_store (w_ms w) k) as [s|]; [|done]. destruct (run_op op (NewGasKVStore g s)) as [[r|q] gi].
    + etransitivity; [apply IH, Hc|]. simpl. by rewrite lookup_insert_ne.
    + simpl. by rewrite lookup_insert_ne.
  - unfold consume_op. destruct (w_meters w !! m) as [g|]; [|done].
    destruct (ConsumeGas a d g) as [[r|q] g']; [|done]. by etransitivity; [apply IH|].
  - by etransitivity; [apply IH|].
  - unfold consumed_op. destruct (w_meters w !! m) as [g|]; [|done]. by etransitivity; [apply IH|].
  - destruct Hp as [Hpk Hc]. assert (k <> key) by (intros ->; done).
    unfold range_op. destruct (ms_store (w_ms w) k) as [s|]; [|done].
    destruct (read_range asc start end_ s) as [[r|q] s'].
    + etransitivity; [apply IH, Hc|]. simpl. by rewrite lookup_insert_ne.
    + simpl. by rewrite lookup_insert_ne.
  - destruct Hp as (Hpp & Hph & Hpc). specialize (IHp w Hpp). destruct (interp p w) as [[b|q] w1]; simpl in IHp.
    + by etransitivity; [apply IH|].
    + specialize (IHh w1 Hph). destruct (interp h w1) as [[b|q'] w2]; simpl in *; congruence.
Qed.
End touches.

Lemma touches_mono (P P' : StoreKey -> Prop) {A : Type} (p : prog A) :
  (forall k, P k -> P' k) -> touches P p -> touches P' p.
Proof. intros HP. induction p; simpl; naive_solver. Qed.

(** ** Runs *)

Definition runs {A : Type} (m : meter_ptr) (p : prog A) (st : stores) (a : A) (st' : stores) : Prop :=
  exists db meters w, is_Some (meters !! m) /\
    interp p (mk_World (mk_spec_ms st db) meters) = (Ok a, w) /\ sm_stores (w_ms w) = st'.

Lemma runs_pspec {A : Type} (m : meter_ptr) (p : prog A) (st st' : stores) (a : A) (Q : A -> stores -> Prop)
    (E : panic_value -> Prop) :
  runs m p st a st' -> pspec m p st Q E -> Q a st'.
Proof.
  intros (db & meters & w & [g Hg] & Er & <-) Hp. specialize (Hp db meters g Hg). rewrite Er in Hp. apply Hp.
Qed.

(** What a program does, when nothing else is known of it. *)
Lemma pspec_runs {A : Type} (m : meter_ptr) (p : prog A) (P : StoreKey -> Prop) (st : stores) (Q : A -> stores -> Prop) :
  touches P p ->
  (forall a st', runs m p st a st' -> (forall key, ~ P key -> st' !! key = st !! key) -> Q a st') ->
  pspec m p st Q any_panic.
Proof.
  intros Hp HQ db meters g Hg. pose proof (pspec_top m p st db meters g Hg) as Ht.
  pose proof (interp_touches P p (mk_World (mk_spec_ms st db) meters)) as Hi.
  destruct (interp p _) as [[a|q] w] eqn:E; [|by left]. split; [|apply Ht].
  apply HQ; [by exists db, meters, w; split; [by exists g|]|]. intros key Hk. by apply Hi.
Qed.

(** ** Proving it *)

Create HintDb touches discriminated.
#[export] Hint Resolve touches_lift touches_forP touches_mapP : touches.

(** The function a program is an application of. *)
Ltac prog_head p := lazymatch p with ?f _ => prog_head f | _ => p end.

(** One step for each constructor of a program; hints for the procedures, and
    the definitions of those without. *)
Ltac touches :=
  lazymatch goal with
  | |- touches _ (mret _) => exact I
  | |- touches _ (Ret _) => exact I
  | |- touches _ (Fault _) => exact I
  | |- touches _ (lift _) => apply touches_lift
  | |- touches _ (forP _ _) => apply touches_forP; intros ?; touches
  | |- touches _ (mapP _ _) => apply touches_mapP; intros ?; touches
  | |- touches _ (store_Get _ _ _) => split; [solve [auto with touches]|intros []; exact I]
  | |- touches _ (store_Has _ _ _) => split; [solve [auto with touches]|intros []; exact I]
  | |- touches _ (store_Set _ _ _ _) => split; [solve [auto with touches]|intros; exact I]
  | |- touches _ (store_Delete _ _ _) => split; [solve [auto with touches]|intros; exact I]
  | |- touches _ (store_Scan _ _ _ _ _ _) => split; [solve [auto with touches]|intros []; exact I]
  | |- touches _ (store_Range _ _ _ _) => split; [solve [auto with touches]|intros ?; exact I]
  | |- touches _ (store_Prefix _ _ _) =>
      apply (touches_bind _ (lift _)); [apply touches_lift|intros ?; touches]
  | |- touches _ (iter_Key _ _) => exact I
  | |- touches _ (iter_Value _ _) => exact I
  | |- touches _ (read_value _ _ _) => apply touches_bind; [exact I|intros ?; apply touches_lift]
  | |- touches _ (ctx_ConsumeGas _ _ _) => exact I
  | |- touches _ (_ ≫= _) => apply touches_bind; [touches|intros ?; touches]
  | |- touches _ (OnPanic _ _ _) => split; [touches|split; [touches|intros ?; touches]]
  | |- touches _ (let '(_, _) := ?x in _) => destruct x; touches
  | |- touches _ (match ?x with _ => _ end) => destruct x; touches
  | |- touches _ (if ?x then _ else _) => destruct x; touches
  | |- touches _ (let _ := _ in _) => cbv zeta; touches
  | |- touches _ ?p => first [solve [auto 3 with touches]|let f := prog_head p in unfold f; touches]
  | |- _ => idtac
  end.

(** * The stores the staking module reaches

    Its programs read and write its own store and the accounts, and no other:
    the state of the other modules cannot depend on it. *)

(** ** Accounts and coins *)

Section accounts.
Context `{Codec} (P : StoreKey -> Prop) (ctx : Ctx) (am : AccountMapper).
Hypothesis Ham : P (am_key am).
Hint Resolve Ham : touches.

Lemma touches_subtractCoins addr amt : touches P (subtractCoins ctx am addr amt).
Proof. touches. Qed.
Lemma touches_addCoins addr amt : touches P (addCoins ctx am addr amt).
Proof. touches. Qed.
End accounts.

#[export] Hint Resolve touches_subtractCoins touches_addCoins : touches.

(** ** The staking keeper *)

Section stake.
Context `{StakeCodec} `{!AddrCodec} `{!Codec} (kick_order : list Address -> list Address) (P : StoreKey -> Prop) (k : Keeper) (ctx : Ctx).
Hypothesis Hsk : P (storeKey k).
Hypothesis Ham : P (am_key (coinKeeper k)).
Hint Resolve Hsk Ham : touches.

Lemma touches_GetPool : touches P (GetPool k ctx).
Proof. touches. Qed.
Lemma touches_GetValidator addr : touches P (GetValidator k ctx addr).
Proof. touches. Qed.
Lemma touches_indexed_validator addr : touches P (indexed_validator k ctx addr).
Proof. touches. Qed.
Hint Resolve touches_GetPool touches_GetValidator touches_indexed_validator : touches.

Lemma touches_bondValidator v : touches P (bondValidator k ctx v).
Proof. touches. Qed.
Lemma touches_unbondValidator v : touches P (unbondValidator k ctx v).
Proof. touches. Qed.
Lemma touches_set_cliff mx count v : touches P (set_cliff k ctx mx count v).
Proof. touches. Qed.
Hint Resolve touches_bondValidator touches_unbondValidator touches_set_cliff : touches.

Lemma touches_update_loop mx new entries : forall count v kick u, touches P (update_loop k ctx mx new entries count v kick u).
Proof. induction entries as [|e entries IH]; intros count v kick u; cbn [update_loop]; touches; apply IH. Qed.
Hint Resolve touches_update_loop : touches.
Lemma touches_UpdateBondedValidators v : touches P (UpdateBondedValidators k ctx v).
Proof. touches. Qed.
Hint Resolve touches_UpdateBondedValidators : touches.

Lemma touches_UpdateValidator v : touches P (UpdateValidator k ctx v).
Proof. touches. Qed.
Lemma touches_RemoveValidator addr : touches P (RemoveValidator k ctx addr).
Proof. touches. Qed.
Hint Resolve touches_UpdateValidator touches_RemoveValidator : touches.

(** *** Delegations *)

Lemma touches_SetUnbondingDelegation u : touches P (SetUnbondingDelegation k ctx u).
Proof. touches. Qed.
Lemma touches_SetRedelegation r : touches P (SetRedelegation k ctx r).
Proof. touches. Qed.
Hint Resolve touches_SetUnbondingDelegation touches_SetRedelegation : touches.

Lemma touches_Delegate d bond v : touches P (Delegate k ctx d bond v).
Proof. touches. Qed.
Lemma touches_unbond d v shares : touches P (unbond k ctx d v shares).
Proof. touches. Qed.
Hint Resolve touches_Delegate touches_unbond : touches.

(** *** Slashing and revoking *)

Lemma touches_slash_loop {A : Type} (slash : A -> prog Int.Int) (l : list A) :
  (forall a, touches P (slash a)) -> forall remaining, touches P (slash_loop slash l remaining).
Proof. intros Hs. induction l as [|a l IH]; intros remaining; cbn [slash_loop]; touches. all: apply IH. Qed.
Lemma touches_slashUnbondingDelegation u h f : touches P (slashUnbondingDelegation k ctx u h f).
Proof. touches. Qed.
Lemma touches_slashRedelegation v r h f : touches P (slashRedelegation k ctx v r h f).
Proof. touches. Qed.
Hint Resolve touches_slash_loop touches_slashUnbondingDelegation touches_slashRedelegation : touches.

Lemma touches_Slash pk h p f : touches P (Slash k ctx pk h p f).
Proof. touches. Qed.
Lemma touches_Revoke pk : touches P (Revoke k ctx pk).
Proof. touches. Qed.
Lemma touches_Unrevoke pk : touches P (Unrevoke k ctx pk).
Proof. touches. Qed.

(** *** Handlers, blocks and genesis *)

Lemma touches_full_loop mx entries : forall count v kick, touches P (full_loop k ctx mx entries count v kick).
Proof. induction entries as [|e entries IH]; intros count v kick; cbn [full_loop]; touches; apply IH. Qed.
Lemma touches_collect_addrs entries : forall acc, touches P (collect_addrs ctx entries acc).
Proof. induction entries as [|e entries IH]; intros acc; cbn [collect_addrs]; touches; apply IH. Qed.
Hint Resolve touches_full_loop touches_collect_addrs : touches.

Lemma touches_stake_handler {T : Type} (as_stake : T -> option stake_Msg) (msg : T) :
  touches P (stake_NewHandler k ctx as_stake msg).
Proof. touches. Qed.
Lemma touches_EndBlocker : touches P (EndBlocker k ctx).
Proof. touches. Qed.
Lemma touches_InitGenesis data : touches P (InitGenesis kick_order k ctx data).
Proof. touches. Qed.
End stake.

#[export] Hint Resolve touches_Slash touches_Revoke touches_Unrevoke touches_stake_handler touches_EndBlocker
  touches_InitGenesis : touches.
