(* ===== verification/GovTypes.v ===== *)
(** * x/gov: the types, the errors, the messages and the keys of the store *)
From Stdlib Require Import Strings.Byte Strings.String.
From S2P Require Import Prelude Int Rational Errors Coin KVStore MultiStore Account Context Auth Address Pool.
From stdpp Require Import pretty.
#[local] Open Scope string_scope.
#[local] Open Scope list_scope.
#[local] Open Scope Z_scope.

(** ** errors.go *)

Module GovErrors.
Definition DefaultCodespace : CodespaceType := 5.
Definition CodeUnknownProposal : CodeType := 1.
Definition CodeInactiveProposal : CodeType := 2.
Definition CodeAlreadyActiveProposal : CodeType := 3.
Definition CodeAlreadyFinishedProposal : CodeType := 4.
Definition CodeAddressNotStaked : CodeType := 5.
Definition CodeInvalidTitle : CodeType := 6.
Definition CodeInvalidDescription : CodeType := 7.
Definition CodeInvalidProposalType : CodeType := 8.
Definition CodeInvalidVote : CodeType := 9.
Definition CodeInvalidGenesis : CodeType := 10.

Section errors.
Context (codespace : CodespaceType).
Definition ErrUnknownProposal (proposalID : Z) : sdkError :=
  NewError codespace CodeUnknownProposal ("Unknown proposal - " ++ pretty proposalID)%string.
Definition ErrInactiveProposal (proposalID : Z) : sdkError :=
  NewError codespace CodeInactiveProposal ("Inactive proposal - " ++ pretty proposalID)%string.
Definition ErrAlreadyActiveProposal (proposalID : Z) : sdkError :=
  NewError codespace CodeAlreadyActiveProposal ("Proposal " ++ pretty proposalID ++ " has been already active")%string.
Definition ErrAlreadyFinishedProposal (proposalID : Z) : sdkError :=
  NewError codespace CodeAlreadyFinishedProposal
    ("Proposal " ++ pretty proposalID ++ " has already passed its voting period")%string.
(** The error of Bech32ifyAcc is dropped; the text is then empty. *)
Definition ErrAddressNotStaked `{Crypto} `{!Bech32} (address : Address) : sdkError :=
  NewError codespace CodeAddressNotStaked
    ("Address " ++ default "" (Bech32ifyAcc address) ++ " is not staked and is thus ineligible to vote")%string.
Definition ErrInvalidTitle (title : string) : sdkError :=
  NewError codespace CodeInvalidTitle ("Proposal Title '" ++ title ++ "' is not valid")%string.
Definition ErrInvalidDescription (description : string) : sdkError :=
  NewError codespace CodeInvalidDescription ("Proposal Desciption '" ++ description ++ "' is not valid")%string.
Definition ErrInvalidProposalType (strProposalType : string) : sdkError :=
  NewError codespace CodeInvalidProposalType ("Proposal Type '" ++ strProposalType ++ "' is not valid")%string.
Definition ErrInvalidVote (strOption : string) : sdkError :=
  NewError codespace CodeInvalidVote ("'" ++ strOption ++ "' is not a valid voting option")%string.
Definition ErrInvalidGenesis (msg : string) : sdkError := NewError codespace CodeInvalidVote msg.
End errors.
End GovErrors.

(** ** proposals.go, depositsvotes.go, procedures.go *)

(** Bytes: statuses, kinds of proposals, options of votes. *)
Abbreviation VoteStatus := Z.
Abbreviation ProposalKind := Z.
Abbreviation VoteOption := Z.

Definition StatusDepositPeriod : VoteStatus := 1.
Definition StatusVotingPeriod : VoteStatus := 2.
Definition StatusPassed : VoteStatus := 3.
Definition StatusRejected : VoteStatus := 4.
Definition ProposalTypeText : ProposalKind := 1.
Definition ProposalTypeParameterChange : ProposalKind := 2.
Definition ProposalTypeSoftwareUpgrade : ProposalKind := 3.
Definition OptionEmpty : VoteOption := 0.
Definition OptionYes : VoteOption := 1.
Definition OptionAbstain : VoteOption := 2.
Definition OptionNo : VoteOption := 3.
Definition OptionNoWithVeto : VoteOption := 4.

(** A Proposal is a TextProposal, the interface's one implementation. *)
Record TextProposal := mk_TextProposal {
  tp_ProposalID : Z; tp_Title : string; tp_Description : string; tp_ProposalType : ProposalKind;
  tp_Status : VoteStatus; tp_SubmitBlock : Z; tp_TotalDeposit : Coins; tp_VotingStartBlock : Z }.

Definition SetStatus (tp : TextProposal) (status : VoteStatus) : TextProposal :=
  mk_TextProposal (tp_ProposalID tp) (tp_Title tp) (tp_Description tp) (tp_ProposalType tp) status
    (tp_SubmitBlock tp) (tp_TotalDeposit tp) (tp_VotingStartBlock tp).
Definition SetTotalDeposit (tp : TextProposal) (totalDeposit : Coins) : TextProposal :=
  mk_TextProposal (tp_ProposalID tp) (tp_Title tp) (tp_Description tp) (tp_ProposalType tp) (tp_Status tp)
    (tp_SubmitBlock tp) totalDeposit (tp_VotingStartBlock tp).
Definition SetVotingStartBlock (tp : TextProposal) (votingStartBlock : Z) : TextProposal :=
  mk_TextProposal (tp_ProposalID tp) (tp_Title tp) (tp_Description tp) (tp_ProposalType tp) (tp_Status tp)
    (tp_SubmitBlock tp) (tp_TotalDeposit tp) votingStartBlock.

Definition ProposalEqual (a b : TextProposal) : bool :=
  (tp_ProposalID a =? tp_ProposalID b) && bool_decide (tp_Title a = tp_Title b) &&
  bool_decide (tp_Description a = tp_Description b) && (tp_ProposalType a =? tp_ProposalType b) &&
  (tp_Status a =? tp_Status b) && (tp_SubmitBlock a =? tp_SubmitBlock b) &&
  IsEqual (tp_TotalDeposit a) (tp_TotalDeposit b) && (tp_VotingStartBlock a =? tp_VotingStartBlock b).

Abbreviation ProposalQueue := (list Z).

Definition ProposalTypeToString (proposalType : ProposalKind) : string :=
  if proposalType =? 0 then "Text"
  else if proposalType =? 1 then "ParameterChange"
  else if proposalType =? 2 then "SoftwareUpgrade"
  else "".

Definition validProposalType (proposalType : ProposalKind) : bool :=
  (proposalType =? ProposalTypeText) || (proposalType =? ProposalTypeParameterChange) ||
  (proposalType =? ProposalTypeSoftwareUpgrade).

Definition StringToProposalType (str : string) : ProposalKind * option sdkError :=
  if decide (str = "Text") then (ProposalTypeText, None)
  else if decide (str = "ParameterChange") then (ProposalTypeParameterChange, None)
  else if decide (str = "SoftwareUpgrade") then (ProposalTypeSoftwareUpgrade, None)
  else (255, Some (GovErrors.ErrInvalidProposalType GovErrors.DefaultCodespace str)).

Definition StatusToString (status : VoteStatus) : string :=
  if status =? StatusDepositPeriod then "DepositPeriod"
  else if status =? StatusVotingPeriod then "VotingPeriod"
  else if status =? StatusPassed then "Passed"
  else if status =? StatusRejected then "Rejected"
  else "".

Definition StringToStatus (status : string) : VoteStatus :=
  if decide (status = "DepositPeriod") then StatusDepositPeriod
  else if decide (status = "VotingPeriod") then StatusVotingPeriod
  else if decide (status = "Passed") then StatusPassed
  else if decide (status = "Rejected") then StatusRejected
  else 255.

Record ProposalRest := mk_ProposalRest {
  pr_ProposalID : Z; pr_Title : string; pr_Description : string; pr_ProposalType : string;
  pr_Status : string; pr_SubmitBlock : Z; pr_TotalDeposit : Coins; pr_VotingStartBlock : Z }.
Definition ProposalToRest (proposal : TextProposal) : ProposalRest :=
  mk_ProposalRest (tp_ProposalID proposal) (tp_Title proposal) (tp_Description proposal)
    (ProposalTypeToString (tp_ProposalType proposal)) (StatusToString (tp_Status proposal))
    (tp_SubmitBlock proposal) (tp_TotalDeposit proposal) (tp_VotingStartBlock proposal).

Record Vote := mk_Vote { vt_Voter : Address; vt_ProposalID : Z; vt_Option : VoteOption }.
Record Deposit := mk_Deposit { dp_Depositer : Address; dp_ProposalID : Z; dp_Amount : Coins }.

Definition VoteOptionToString (option : VoteOption) : string :=
  if option =? OptionYes then "Yes"
  else if option =? OptionAbstain then "Abstain"
  else if option =? OptionNo then "No"
  else if option =? OptionNoWithVeto then "NoWithVeto"
  else "".

Definition validVoteOption (option : VoteOption) : bool :=
  (option =? OptionYes) || (option =? OptionAbstain) || (option =? OptionNo) || (option =? OptionNoWithVeto).

Definition StringToVoteOption (str : string) : VoteOption * option sdkError :=
  if decide (str = "Yes") then (OptionYes, None)
  else if decide (str = "Abstain") then (OptionAbstain, None)
  else if decide (str = "No") then (OptionNo, None)
  else if decide (str = "NoWithVeto") then (OptionNoWithVeto, None)
  else (255, Some (GovErrors.ErrInvalidVote GovErrors.DefaultCodespace str)).

Record DepositRest := mk_DepositRest { dr_Depositer : string; dr_ProposalID : Z; dr_Amount : Coins }.
Definition DepositToRest `{Crypto} `{!Bech32} (deposit : Deposit) : outcome DepositRest :=
  bechAddr ← MustBech32ifyAcc (dp_Depositer deposit);
  Ok (mk_DepositRest bechAddr (dp_ProposalID deposit) (dp_Amount deposit)).

Record VoteRest := mk_VoteRest { vr_Voter : string; vr_ProposalID : Z; vr_Option : string }.
Definition VoteToRest `{Crypto} `{!Bech32} (vote : Vote) : VoteRest :=
  mk_VoteRest (default "" (Bech32ifyAcc (vt_Voter vote))) (vt_ProposalID vote) (VoteOptionToString (vt_Option vote)).

Record DepositProcedure := mk_DepositProcedure { MinDeposit : Coins; MaxDepositPeriod : Z }.
Record TallyingProcedure := mk_TallyingProcedure { Threshold : Rat; Veto : Rat; GovernancePenalty : Rat }.
Record VotingProcedure := mk_VotingProcedure { VotingPeriod : Z }.

(** genesis.go *)
Record GenesisState := mk_GenesisState { StartingProposalID : Z }.
Definition NewGenesisState (startingProposalID : Z) : GenesisState := mk_GenesisState startingProposalID.
Definition DefaultGenesisState : GenesisState := mk_GenesisState 1.

(** ** msgs.go *)

Definition MsgType : string := "gov".

Record MsgSubmitProposal := mk_MsgSubmitProposal {
  sp_Title : string; sp_Description : string; sp_ProposalType : ProposalKind;
  sp_Proposer : Address; sp_InitialDeposit : Coins }.
Record MsgDeposit := mk_MsgDeposit { md_ProposalID : Z; md_Depositer : Address; md_Amount : Coins }.
Record MsgVote := mk_MsgVote { mv_ProposalID : Z; mv_Voter : Address; mv_Option : VoteOption }.

Definition NewMsgSubmitProposal (title description : string) (proposalType : ProposalKind) (proposer : Address)
    (initialDeposit : Coins) : MsgSubmitProposal :=
  mk_MsgSubmitProposal title description proposalType proposer initialDeposit.
Definition NewMsgDeposit (depositer : Address) (proposalID : Z) (amount : Coins) : MsgDeposit :=
  mk_MsgDeposit proposalID depositer amount.
Definition NewMsgVote (voter : Address) (proposalID : Z) (option : VoteOption) : MsgVote :=
  mk_MsgVote proposalID voter option.

(** msgCdc.MarshalJSON at the anonymous structs that are signed. *)
Class GovJSON := {
  MarshalJSON_submit : string -> string -> string -> string -> Coins -> option bytes;
  MarshalJSON_deposit : Z -> string -> Coins -> option bytes;
  MarshalJSON_vote : Z -> string -> string -> option bytes;
}.

Section msgs.
Context `{Crypto} `{!Bech32} `{GovJSON}.
Abbreviation gov := GovErrors.DefaultCodespace.

Definition MsgSubmitProposal_ValidateBasic (msg : MsgSubmitProposal) : option sdkError :=
  if (String.length (sp_Title msg) =? 0)%nat then Some (GovErrors.ErrInvalidTitle gov (sp_Title msg))
  else if (String.length (sp_Description msg) =? 0)%nat
  then Some (GovErrors.ErrInvalidDescription gov (sp_Description msg))
  else if negb (validProposalType (sp_ProposalType msg))
  then Some (GovErrors.ErrInvalidProposalType gov (ProposalTypeToString (sp_ProposalType msg)))
  else if (length (sp_Proposer msg) =? 0)%nat then Some (ErrInvalidAddress (HexString (sp_Proposer msg)))
  else if negb (IsValid (sp_InitialDeposit msg)) then Some (ErrInvalidCoins (Coins_String (sp_InitialDeposit msg)))
  else if negb (IsNotNegative (sp_InitialDeposit msg))
  then Some (ErrInvalidCoins (Coins_String (sp_InitialDeposit msg)))
  else None.

Definition MsgDeposit_ValidateBasic (msg : MsgDeposit) : option sdkError :=
  if (length (md_Depositer msg) =? 0)%nat then Some (ErrInvalidAddress (HexString (md_Depositer msg)))
  else if negb (IsValid (md_Amount msg)) then Some (ErrInvalidCoins (Coins_String (md_Amount msg)))
  else if negb (IsNotNegative (md_Amount msg)) then Some (ErrInvalidCoins (Coins_String (md_Amount msg)))
  else if md_ProposalID msg <? 0 then Some (GovErrors.ErrUnknownProposal gov (md_ProposalID msg))
  else None.

Definition MsgVote_ValidateBasic (msg : MsgVote) : option sdkError :=
  if (length (mv_Voter msg) =? 0)%nat then Some (ErrInvalidAddress (HexString (mv_Voter msg)))
  else if mv_ProposalID msg <? 0 then Some (GovErrors.ErrUnknownProposal gov (mv_ProposalID msg))
  else if negb (validVoteOption (mv_Option msg))
  then Some (GovErrors.ErrInvalidVote gov (VoteOptionToString (mv_Option msg)))
  else None.

Definition MsgSubmitProposal_GetSignBytes (msg : MsgSubmitProposal) : outcome bytes :=
  proposer ← MustBech32ifyVal (sp_Proposer msg);
  must (MarshalJSON_submit (sp_Title msg) (sp_Description msg) (ProposalTypeToString (sp_ProposalType msg))
          proposer (sp_InitialDeposit msg)) "MarshalJSON".
Definition MsgDeposit_GetSignBytes (msg : MsgDeposit) : outcome bytes :=
  depositer ← MustBech32ifyVal (md_Depositer msg);
  must (MarshalJSON_deposit (md_ProposalID msg) depositer (md_Amount msg)) "MarshalJSON".
Definition MsgVote_GetSignBytes (msg : MsgVote) : outcome bytes :=
  voter ← MustBech32ifyVal (mv_Voter msg);
  must (MarshalJSON_vote (mv_ProposalID msg) voter (VoteOptionToString (mv_Option msg))) "MarshalJSON".

(** The messages as [sdk.Msg]s. *)
Inductive gov_Msg :=
  | SubmitProposal (msg : MsgSubmitProposal)
  | DepositMsg (msg : MsgDeposit)
  | VoteMsg (msg : MsgVote).

#[global] Instance gov_Msg_Msg : Msg gov_Msg := {
  Type_ _ := MsgType;
  ValidateBasic m := Ok match m with
    | SubmitProposal m => MsgSubmitProposal_ValidateBasic m
    | DepositMsg m => MsgDeposit_ValidateBasic m
    | VoteMsg m => MsgVote_ValidateBasic m
    end;
  GetSignBytes m := match m with
    | SubmitProposal m => MsgSubmitProposal_GetSignBytes m
    | DepositMsg m => MsgDeposit_GetSignBytes m
    | VoteMsg m => MsgVote_GetSignBytes m
    end;
  msg_GetSigners m := [match m with
    | SubmitProposal m => sp_Proposer m
    | DepositMsg m => md_Depositer m
    | VoteMsg m => mv_Voter m
    end];
}.
End msgs.

(** ** keeper_keys.go *)

(** fmt's %d of an address, whose type is third-party. *)
Class AddrFmt := { FmtAddress : Address -> string }.
Class AddrFmtLaws `{AddrFmt} : Prop := { FmtAddress_inj : forall a b, FmtAddress a = FmtAddress b -> a = b }.

Definition KeyNextProposalID : bytes := string_bytes "newProposalID".
Definition KeyActiveProposalQueue : bytes := string_bytes "activeProposalQueue".
Definition KeyInactiveProposalQueue : bytes := string_bytes "inactiveProposalQueue".
Definition KeyProposal (proposalID : Z) : bytes := string_bytes ("proposals:" ++ pretty proposalID)%string.
Definition KeyDeposit `{AddrFmt} (proposalID : Z) (depositerAddr : Address) : bytes :=
  string_bytes ("deposits:" ++ pretty proposalID ++ ":" ++ FmtAddress depositerAddr)%string.
Definition KeyVote `{AddrFmt} (proposalID : Z) (voterAddr : Address) : bytes :=
  string_bytes ("votes:" ++ pretty proposalID ++ ":" ++ FmtAddress voterAddr)%string.
Definition KeyDepositsSubspace (proposalID : Z) : bytes := string_bytes ("deposits:" ++ pretty proposalID ++ ":")%string.
Definition KeyVotesSubspace (proposalID : Z) : bytes := string_bytes ("votes:" ++ pretty proposalID ++ ":")%string.
