(* ===== verification/GovKeeper.v ===== *)
(** * x/gov: the keeper, the tally, the handlers, the end blocker and genesis

    keeper.go, tally.go, handler.go, genesis.go.  The module asks the staking
    module for validators and delegations through two interfaces of the SDK,
    here the record [DelegationSet].  The entries of an iteration are read
    before its body runs: the body of the tally and of the refunds deletes
    entries, which an iterator of a cache store does not see. *)
From Stdlib Require Import Strings.Byte Strings.String.
From S2P Require Import Prelude Int Rational Errors Coin KVStore MultiStore Account Context ProgLogic Auth Records Ante Bank.
From S2P Require Import Pool Validator StakeKey StakeKeeper GovTypes.
#[local] Open Scope string_scope.
#[local] Open Scope list_scope.
#[local] Open Scope Z_scope.

(** ** What the module uses of types/stake.go *)

(** sdk.Validator and sdk.Delegation by their methods. *)
Record sdk_Validator := mk_sdk_Validator { sv_GetOwner : Address; sv_GetPower : Rat; sv_GetDelegatorShares : Rat }.
Record sdk_Delegation := mk_sdk_Delegation {
  sd_GetDelegator : Address; sd_GetValidator : Address; sd_GetBondShares : Rat }.

(** sdk.DelegationSet and the sdk.ValidatorSet it gives. *)
Record DelegationSet `{Crypto} := mk_DelegationSet {
  IterateValidatorsBonded : forall S : Type, Ctx -> (Z -> sdk_Validator -> S -> prog (bool * S)) -> S -> prog S;
  IterateDelegations : forall S : Type, Ctx -> Address -> (Z -> sdk_Delegation -> S -> prog (bool * S)) -> S -> prog S
}.

(** The staking keeper as one. *)
Definition validator_view `{Crypto} (v : Validator) : sdk_Validator :=
  mk_sdk_Validator (GetOwner v) (GetPower v) (GetDelegatorShares v).
Definition delegation_view (d : Delegation) : sdk_Delegation :=
  mk_sdk_Delegation (del_DelegatorAddr d) (del_ValidatorAddr d) (del_Shares d).
Definition stake_DelegationSet `{StakeCodec} `{!AddrCodec} (k : StakeKeeper.Keeper) : DelegationSet :=
  mk_DelegationSet _
    (fun S ctx fn s => StakeKeeper.IterateValidatorsBonded k ctx (fun i v s => fn i (validator_view v) s) s)
    (fun S ctx addr fn s => StakeKeeper.IterateDelegations k ctx addr (fun i d s => fn i (delegation_view d) s) s).

(** ** Encoding *)

Class GovCodec := {
  MarshalProposal : TextProposal -> option bytes;
  UnmarshalProposal : bytes -> option TextProposal;
  MarshalVote : Vote -> option bytes;
  UnmarshalVote : bytes -> option Vote;
  MarshalDeposit : Deposit -> option bytes;
  UnmarshalDeposit : bytes -> option Deposit;
  MarshalQueue : ProposalQueue -> option bytes;
  UnmarshalQueue : bytes -> option ProposalQueue;
  MarshalID : Z -> option bytes;
  UnmarshalID : bytes -> option Z;
  MarshalIDBare : Z -> option bytes;    (* MustMarshalBinaryBare *)
}.

(** ** keeper.go *)

Record Keeper `{Crypto} := mk_Keeper {
  gk_ck : AccountMapper; gk_ds : DelegationSet; gk_storeKey : StoreKey; gk_codespace : CodespaceType }.
Definition NewKeeper `{Crypto} (key : StoreKey) (ck : AccountMapper) (ds : DelegationSet) (codespace : CodespaceType) : Keeper :=
  mk_Keeper _ ck ds key codespace.

Definition GetDepositProcedure : DepositProcedure := mk_DepositProcedure [NewCoin "steak" 10] 200.
Definition GetVotingProcedure : VotingProcedure := mk_VotingProcedure 200.
Definition GetTallyingProcedure : outcome TallyingProcedure :=
  threshold ← Rat.NewRat 1 [2]; veto ← Rat.NewRat 1 [3]; penalty ← Rat.NewRat 1 [100];
  Ok (mk_TallyingProcedure threshold veto penalty).

Section keeper.
Context `{Codec} `{GovCodec} `{AddrFmt} (keeper : Keeper) (ctx : Ctx).
Abbreviation gkey := (gk_storeKey keeper).

(** *** Proposals *)

(** nil is [None]. *)
Definition GetProposal (proposalID : Z) : prog (option TextProposal) :=
  bz ← store_Get ctx gkey (KeyProposal proposalID);
  match bz with
  | None => mret None
  | Some _ => proposal ← lift (must_unmarshal UnmarshalProposal bz); mret (Some proposal)
  end.

Definition SetProposal (proposal : TextProposal) : prog unit :=
  bz ← lift (must_marshal MarshalProposal proposal);
  store_Set ctx gkey (KeyProposal (tp_ProposalID proposal)) bz.

Definition DeleteProposal (proposal : TextProposal) : prog unit :=
  store_Delete ctx gkey (KeyProposal (tp_ProposalID proposal)).

Definition setInitialProposalID (proposalID : Z) : prog (option sdkError) :=
  bz ← store_Get ctx gkey KeyNextProposalID;
  match bz with
  | Some _ => mret (Some (GovErrors.ErrInvalidGenesis (gk_codespace keeper) "Initial ProposalID already set"))
  | None =>
      bz ← lift (must_marshal MarshalID proposalID);
      store_Set ctx gkey KeyNextProposalID bz;;
      mret None
  end.

Definition getNewProposalID : prog (Z * option sdkError) :=
  bz ← store_Get ctx gkey KeyNextProposalID;
  match bz with
  | None => mret (-1, Some (GovErrors.ErrInvalidGenesis (gk_codespace keeper) "InitialProposalID never set"))
  | Some _ =>
      proposalID ← lift (must_unmarshal UnmarshalID bz);
      bz ← lift (must_marshal MarshalID (wrap64 (proposalID + 1)));
      store_Set ctx gkey KeyNextProposalID bz;;
      mret (proposalID, None)
  end.

(** *** The two queues *)

Definition getQueue (key : bytes) : prog ProposalQueue :=
  bz ← store_Get ctx gkey key;
  match bz with
  | None => mret []
  | Some _ => lift (must_unmarshal UnmarshalQueue bz)
  end.
Definition setQueue (key : bytes) (proposalQueue : ProposalQueue) : prog unit :=
  bz ← lift (must_marshal MarshalQueue proposalQueue); store_Set ctx gkey key bz.
Definition QueuePeek (key : bytes) : prog (option TextProposal) :=
  proposalQueue ← getQueue key;
  match proposalQueue with [] => mret None | front :: _ => GetProposal front end.
Definition QueuePop (key : bytes) : prog (option TextProposal) :=
  proposalQueue ← getQueue key;
  match proposalQueue with
  | [] => mret None
  | front :: proposalQueue => setQueue key proposalQueue;; GetProposal front
  end.
Definition QueuePush (key : bytes) (proposal : TextProposal) : prog unit :=
  proposalQueue ← getQueue key; setQueue key (proposalQueue ++ [tp_ProposalID proposal]).

Definition getActiveProposalQueue := getQueue KeyActiveProposalQueue.
Definition setActiveProposalQueue := setQueue KeyActiveProposalQueue.
Definition ActiveProposalQueuePeek := QueuePeek KeyActiveProposalQueue.
Definition ActiveProposalQueuePop := QueuePop KeyActiveProposalQueue.
Definition ActiveProposalQueuePush := QueuePush KeyActiveProposalQueue.
Definition getInactiveProposalQueue := getQueue KeyInactiveProposalQueue.
Definition setInactiveProposalQueue := setQueue KeyInactiveProposalQueue.
Definition InactiveProposalQueuePeek := QueuePeek KeyInactiveProposalQueue.
Definition InactiveProposalQueuePop := QueuePop KeyInactiveProposalQueue.
Definition InactiveProposalQueuePush := QueuePush KeyInactiveProposalQueue.

Definition NewTextProposal (title description : string) (proposalType : ProposalKind) : prog (option TextProposal) :=
  '(proposalID, err) ← getNewProposalID;
  match err with
  | Some _ => mret None
  | None =>
      let proposal := mk_TextProposal proposalID title description proposalType StatusDepositPeriod
                        (cx_BlockHeight ctx) [] (-1) in
      SetProposal proposal;;
      InactiveProposalQueuePush proposal;;
      mret (Some proposal)
  end.

(** The proposal as it is changed. *)
Definition activateVotingPeriod (proposal : TextProposal) : prog TextProposal :=
  let proposal := SetVotingStartBlock proposal (cx_BlockHeight ctx) in
  let proposal := SetStatus proposal StatusVotingPeriod in
  SetProposal proposal;;
  ActiveProposalQueuePush proposal;;
  mret proposal.

(** *** Votes *)

Definition setVote (proposalID : Z) (voterAddr : Address) (vote : Vote) : prog unit :=
  bz ← lift (must_marshal MarshalVote vote); store_Set ctx gkey (KeyVote proposalID voterAddr) bz.

Definition AddVote (proposalID : Z) (voterAddr : Address) (opt : VoteOption) : prog (option sdkError) :=
  proposal ← GetProposal proposalID;
  match proposal with
  | None => mret (Some (GovErrors.ErrUnknownProposal (gk_codespace keeper) proposalID))
  | Some proposal =>
      if negb (tp_Status proposal =? StatusVotingPeriod)
      then mret (Some (GovErrors.ErrInactiveProposal (gk_codespace keeper) proposalID))
      else if negb (opt =? OptionYes) && negb (opt =? OptionAbstain) && negb (opt =? OptionNo) &&
              negb (opt =? OptionNoWithVeto)
      then mret (Some (GovErrors.ErrInvalidVote (gk_codespace keeper) (VoteOptionToString opt)))
      else
        let vote := mk_Vote voterAddr proposalID opt in
        setVote proposalID voterAddr vote;;
        mret None
  end.

(** A vote and [found]. *)
Definition GetVote (proposalID : Z) (voterAddr : Address) : prog (option Vote) :=
  bz ← store_Get ctx gkey (KeyVote proposalID voterAddr);
  match bz with
  | None => mret None
  | Some _ => vote ← lift (must_unmarshal UnmarshalVote bz); mret (Some vote)
  end.

Definition GetVotes (proposalID : Z) : prog (list (slice * slice)) :=
  store_Prefix gkey true (KeyVotesSubspace proposalID).

Definition deleteVote (proposalID : Z) (voterAddr : Address) : prog unit :=
  store_Delete ctx gkey (KeyVote proposalID voterAddr).

(** *** Deposits *)

Definition GetDeposit (proposalID : Z) (depositerAddr : Address) : prog (option Deposit) :=
  bz ← store_Get ctx gkey (KeyDeposit proposalID depositerAddr);
  match bz with
  | None => mret None
  | Some _ => deposit ← lift (must_unmarshal UnmarshalDeposit bz); mret (Some deposit)
  end.

Definition setDeposit (proposalID : Z) (depositerAddr : Address) (deposit : Deposit) : prog unit :=
  bz ← lift (must_marshal MarshalDeposit deposit); store_Set ctx gkey (KeyDeposit proposalID depositerAddr) bz.

Definition AddDeposit (proposalID : Z) (depositerAddr : Address) (depositAmount : Coins)
    : prog (option sdkError * bool) :=
  proposal ← GetProposal proposalID;
  match proposal with
  | None => mret (Some (GovErrors.ErrUnknownProposal (gk_codespace keeper) proposalID), false)
  | Some proposal =>
      if negb (tp_Status proposal =? StatusDepositPeriod) && negb (tp_Status proposal =? StatusVotingPeriod)
      then mret (Some (GovErrors.ErrAlreadyFinishedProposal (gk_codespace keeper) proposalID), false)
      else
        '(_, _, err) ← subtractCoins ctx (gk_ck keeper) depositerAddr depositAmount;
        match err with
        | Some err => mret (Some err, false)
        | None =>
            totalDeposit ← lift (Plus (tp_TotalDeposit proposal) depositAmount);
            let proposal := SetTotalDeposit proposal totalDeposit in
            SetProposal proposal;;
            tipped ← (if tp_Status proposal =? StatusDepositPeriod
                      then lift (IsGTE (tp_TotalDeposit proposal) (MinDeposit GetDepositProcedure))
                      else mret false);
            activatedVotingPeriod ← (if (tipped : bool) then activateVotingPeriod proposal;; mret true else mret false);
            currDeposit ← GetDeposit proposalID depositerAddr;
            (match currDeposit with
             | None => setDeposit proposalID depositerAddr (mk_Deposit depositerAddr proposalID depositAmount)
             | Some currDeposit =>
                 amount ← lift (Plus (dp_Amount currDeposit) depositAmount);
                 setDeposit proposalID depositerAddr
                   (mk_Deposit (dp_Depositer currDeposit) (dp_ProposalID currDeposit) amount)
             end);;
            mret (None, activatedVotingPeriod)
        end
  end.

Definition GetDeposits (proposalID : Z) : prog (list (slice * slice)) :=
  store_Prefix gkey true (KeyDepositsSubspace proposalID).

(** A loop over the entries of an iterator. *)
Definition RefundDeposits (proposalID : Z) : prog unit :=
  entries ← GetDeposits proposalID;
  forP entries (fun e =>
    deposit ← read_value ctx UnmarshalDeposit e;
    '(_, _, err) ← addCoins ctx (gk_ck keeper) (dp_Depositer deposit) (dp_Amount deposit);
    match err with
    | Some _ => Fault (PanicString "should not happen")
    | None => key ← iter_Key ctx e; store_Delete ctx gkey (slice_bytes key)
    end).

Definition DeleteDeposits (proposalID : Z) : prog unit :=
  entries ← GetDeposits proposalID;
  forP entries (fun e => key ← iter_Key ctx e; store_Delete ctx gkey (slice_bytes key)).

(** ** tally.go *)

Record validatorGovInfo := mk_validatorGovInfo {
  vi_Address : Address; vi_Power : Rat; vi_DelegatorShares : Rat; vi_Minus : Rat; vi_Vote : VoteOption }.

(** The tally's variables.  A key that is not in a map gives the zero value,
    whose rationals are nil pointers. *)
Record tallied := mk_tallied {
  ta_results : gmap Z Rat; ta_totalVotingPower : Rat; ta_currValidators : gmap string validatorGovInfo }.

Definition tally_results : gmap Z Rat :=
  <[OptionNoWithVeto := Rat.ZeroRat]> (<[OptionNo := Rat.ZeroRat]>
    (<[OptionAbstain := Rat.ZeroRat]> (<[OptionYes := Rat.ZeroRat]> ∅))).

Definition result_of (results : gmap Z Rat) (option : VoteOption) : outcome Rat :=
  match results !! option with Some r => Ok r | None => Panicked nil_pointer end.

Definition add_power (ta : tallied) (option : VoteOption) (votingPower : Rat) : outcome tallied :=
  r ← result_of (ta_results ta) option;
  Ok (mk_tallied (<[option := Rat.Add r votingPower]> (ta_results ta))
        (Rat.Add (ta_totalVotingPower ta) votingPower) (ta_currValidators ta)).

Definition record_validator (i : Z) (validator : sdk_Validator) (currValidators : gmap string validatorGovInfo)
    : prog (bool * gmap string validatorGovInfo) :=
  mret (false, <[HexString (sv_GetOwner validator) :=
    mk_validatorGovInfo (sv_GetOwner validator) (sv_GetPower validator) (sv_GetDelegatorShares validator)
      Rat.ZeroRat OptionEmpty]> currValidators).

(** One delegation of a voter. *)
Definition tally_delegation (option : VoteOption) (delegation : sdk_Delegation) (ta : tallied) : outcome tallied :=
  match ta_currValidators ta !! HexString (sd_GetValidator delegation) with
  | None => Panicked nil_pointer
  | Some val =>
      let shares := sd_GetBondShares delegation in
      let val := mk_validatorGovInfo (vi_Address val) (vi_Power val) (vi_DelegatorShares val)
                   (Rat.Add (vi_Minus val) shares) (vi_Vote val) in
      delegatorShare ← Rat.Quo shares (vi_DelegatorShares val);
      let votingPower := Rat.Mul (vi_Power val) delegatorShare in
      add_power (mk_tallied (ta_results ta) (ta_totalVotingPower ta)
                   (<[HexString (sd_GetValidator delegation) := val]> (ta_currValidators ta))) option votingPower
  end.

Definition tally_vote (e : slice * slice) (ta : tallied) : prog tallied :=
  vote ← read_value ctx UnmarshalVote e;
  ta ← (match ta_currValidators ta !! HexString (vt_Voter vote) with
        | Some val =>
            mret (mk_tallied (ta_results ta) (ta_totalVotingPower ta)
              (<[HexString (vt_Voter vote) := mk_validatorGovInfo (vi_Address val) (vi_Power val)
                   (vi_DelegatorShares val) (vi_Minus val) (vt_Option vote)]> (ta_currValidators ta)))
        | None =>
            IterateDelegations (gk_ds keeper) _ ctx (vt_Voter vote)
              (fun _ delegation ta => ta ← lift (tally_delegation (vt_Option vote) delegation ta); mret (false, ta)) ta
        end);
  deleteVote (vt_ProposalID vote) (vt_Voter vote);;
  mret ta.

Fixpoint tally_votes (entries : list (slice * slice)) (ta : tallied) : prog tallied :=
  match entries with
  | [] => mret ta
  | e :: entries => ta ← tally_vote e ta; tally_votes entries ta
  end.

(** The loop over the validators; [nonVoting] are those without a vote. *)
Fixpoint tally_validators (vals : list validatorGovInfo) (ta : tallied) (nonVoting : list Address)
    : outcome (tallied * list Address) :=
  match vals with
  | [] => Ok (ta, nonVoting)
  | val :: vals =>
      if vi_Vote val =? OptionEmpty then tally_validators vals ta (nonVoting ++ [vi_Address val])
      else
        let sharesAfterMinus := Rat.Sub (vi_DelegatorShares val) (vi_Minus val) in
        percentAfterMinus ← Rat.Quo sharesAfterMinus (vi_DelegatorShares val);
        let votingPower := Rat.Mul (vi_Power val) percentAfterMinus in
        ta ← add_power ta (vi_Vote val) votingPower;
        tally_validators vals ta nonVoting
  end.

Definition tally_passes (ta : tallied) : outcome bool :=
  procedure ← GetTallyingProcedure;
  abstain ← result_of (ta_results ta) OptionAbstain;
  if Rat.Equal (Rat.Sub (ta_totalVotingPower ta) abstain) Rat.ZeroRat then Ok false
  else
    noWithVeto ← result_of (ta_results ta) OptionNoWithVeto;
    q ← Rat.Quo noWithVeto (ta_totalVotingPower ta);
    if Rat.GT q (Veto procedure) then Ok false
    else
      yes ← result_of (ta_results ta) OptionYes;
      q ← Rat.Quo yes (Rat.Sub (ta_totalVotingPower ta) abstain);
      Ok (Rat.GT q (Threshold procedure)).

(** The order of the range over currValidators. *)
Variable order : list validatorGovInfo -> list validatorGovInfo.

Definition tally_result (ta : tallied) : outcome (bool * list Address) :=
  '(ta, nonVoting) ← tally_validators (order (map_to_list (ta_currValidators ta)).*2) ta [];
  passes ← tally_passes ta;
  Ok (passes, nonVoting).

Definition tally (proposal : TextProposal) : prog (bool * list Address) :=
  currValidators ← IterateValidatorsBonded (gk_ds keeper) _ ctx record_validator ∅;
  entries ← GetVotes (tp_ProposalID proposal);
  ta ← tally_votes entries (mk_tallied tally_results Rat.ZeroRat currValidators);
  lift (tally_result ta).

(** ** handler.go *)

(** tags.AppendTag returns the longer tags; its callers drop the result. *)
Definition handleMsgSubmitProposal (msg : MsgSubmitProposal) : prog Result :=
  proposal ← NewTextProposal (sp_Title msg) (sp_Description msg) (sp_ProposalType msg);
  match proposal with
  | None => Fault nil_pointer
  | Some proposal =>
      '(err, votingStarted) ← AddDeposit (tp_ProposalID proposal) (sp_Proposer msg) (sp_InitialDeposit msg);
      match err with
      | Some err => mret (err_Result err)
      | None =>
          proposalIDBytes ← lift (must_marshal MarshalIDBare (tp_ProposalID proposal));
          tags ← lift (NewTags [ArgString "action"; ArgBytes (string_bytes "submitProposal");
                                ArgString "proposer"; ArgBytes (string_bytes (HexString (sp_Proposer msg)));
                                ArgString "proposalId"; ArgBytes proposalIDBytes]);
          let _ := if (votingStarted : bool) then AppendTag tags "votingPeriodStart" proposalIDBytes else tags in
          mret (mk_Result 0 proposalIDBytes (TStr "") 0 0 0 "" tags)
      end
  end.

Definition handleMsgDeposit (msg : MsgDeposit) : prog Result :=
  '(err, votingStarted) ← AddDeposit (md_ProposalID msg) (md_Depositer msg) (md_Amount msg);
  match err with
  | Some err => mret (err_Result err)
  | None =>
      proposalIDBytes ← lift (must_marshal MarshalIDBare (md_ProposalID msg));
      tags ← lift (NewTags [ArgString "action"; ArgBytes (string_bytes "deposit");
                            ArgString "depositer"; ArgBytes (string_bytes (HexString (md_Depositer msg)));
                            ArgString "proposalId"; ArgBytes proposalIDBytes]);
      let _ := if (votingStarted : bool) then AppendTag tags "votingPeriodStart" proposalIDBytes else tags in
      mret (tags_Result tags)
  end.

Definition handleMsgVote (msg : MsgVote) : prog Result :=
  err ← AddVote (mv_ProposalID msg) (mv_Voter msg) (mv_Option msg);
  match err with
  | Some err => mret (err_Result err)
  | None =>
      proposalIDBytes ← lift (must_marshal MarshalIDBare (mv_ProposalID msg));
      tags ← lift (NewTags [ArgString "action"; ArgBytes (string_bytes "vote");
                            ArgString "voter"; ArgBytes (string_bytes (HexString (mv_Voter msg)));
                            ArgString "proposalId"; ArgBytes proposalIDBytes]);
      mret (tags_Result tags)
  end.

(** The type switch: [as_gov] is the message as one of the module's types. *)
Definition NewHandler {T} (as_gov : T -> option gov_Msg) (msg : T) : prog Result :=
  match as_gov msg with
  | Some (DepositMsg msg) => handleMsgDeposit msg
  | Some (SubmitProposal msg) => handleMsgSubmitProposal msg
  | Some (VoteMsg msg) => handleMsgVote msg
  | None => mret (err_Result (ErrUnknownRequest "Unrecognized gov msg type"))
  end.

Definition shouldPopInactiveProposalQueue : prog bool :=
  peekProposal ← InactiveProposalQueuePeek;
  match peekProposal with
  | None => mret false
  | Some peekProposal =>
      if negb (tp_Status peekProposal =? StatusDepositPeriod) then mret true
      else mret (wrap64 (tp_SubmitBlock peekProposal + MaxDepositPeriod GetDepositProcedure) <=? cx_BlockHeight ctx)
  end.

Definition voting_over (proposal : TextProposal) : bool :=
  wrap64 (tp_VotingStartBlock proposal + VotingPeriod GetVotingProcedure) <=? cx_BlockHeight ctx.

Definition shouldPopActiveProposalQueue : prog bool :=
  peekProposal ← ActiveProposalQueuePeek;
  match peekProposal with
  | None => mret false
  | Some peekProposal => mret (voting_over peekProposal)
  end.

(** The loops of EndBlocker.  Each turn pops a queue, so that a fuel above its
    length is enough. *)
Definition out_of_fuel : panic_value := RuntimeError "out of fuel".

Fixpoint inactive_loop (fuel : nat) (tags : Tags) : prog Tags :=
  match fuel with
  | O => Fault out_of_fuel
  | S fuel =>
      pop ← shouldPopInactiveProposalQueue;
      if (pop : bool) then
        inactiveProposal ← InactiveProposalQueuePop;
        match inactiveProposal with
        | None => Fault nil_pointer
        | Some inactiveProposal =>
            (if tp_Status inactiveProposal =? StatusDepositPeriod then
               proposalIDBytes ← lift (must_marshal MarshalIDBare (tp_ProposalID inactiveProposal));
               DeleteProposal inactiveProposal;;
               let _ := AppendTag tags "action" (string_bytes "proposalDropped") in
               let _ := AppendTag tags "proposalId" proposalIDBytes in
               mret tt
             else mret tt);;
            inactive_loop fuel tags
        end
      else mret tags
  end.

(** A proposal whose voting period is over. *)
Definition finish_proposal (activeProposal : TextProposal) (tags : Tags) : prog (list Address) :=
  '(passes, nonVotingVals) ← tally activeProposal;
  proposalIDBytes ← lift (must_marshal MarshalIDBare (tp_ProposalID activeProposal));
  activeProposal ←
    (if (passes : bool) then
       RefundDeposits (tp_ProposalID activeProposal);;
       let _ := AppendTag tags "action" (string_bytes "proposalPassed") in
       let _ := AppendTag tags "proposalId" proposalIDBytes in
       mret (SetStatus activeProposal StatusPassed)
     else
       DeleteDeposits (tp_ProposalID activeProposal);;
       let _ := AppendTag tags "action" (string_bytes "proposalRejected") in
       let _ := AppendTag tags "proposalId" proposalIDBytes in
       mret (SetStatus activeProposal StatusRejected));
  SetProposal activeProposal;;
  mret nonVotingVals.

Fixpoint active_loop (fuel : nat) (tags : Tags) (nonVotingVals : list Address) : prog (Tags * list Address) :=
  match fuel with
  | O => Fault out_of_fuel
  | S fuel =>
      pop ← shouldPopActiveProposalQueue;
      if (pop : bool) then
        activeProposal ← ActiveProposalQueuePop;
        match activeProposal with
        | None => Fault nil_pointer
        | Some activeProposal =>
            nonVotingVals ← (if voting_over activeProposal then finish_proposal activeProposal tags
                             else mret nonVotingVals);
            active_loop fuel tags nonVotingVals
        end
      else mret (tags, nonVotingVals)
  end.

Definition EndBlocker (fuel : nat) : prog (Tags * list Address) :=
  tags ← lift (NewTags []);
  tags ← inactive_loop fuel tags;
  active_loop fuel tags [].

(** ** genesis.go *)

Definition InitGenesis (data : GenesisState) : prog unit :=
  err ← setInitialProposalID (StartingProposalID data);
  match err with
  | Some err => Fault (PanicString (cmnError err))
  | None => mret tt
  end.

(** The error is dropped. *)
Definition WriteGenesis : prog GenesisState :=
  '(initalProposalID, _) ← getNewProposalID;
  mret (mk_GenesisState initalProposalID).
End keeper.
