(* ===== verification/GovRep.v ===== *)
(** * The abstract state of the governance store

    [gstate] is what the bytes of the store stand for: the next identifier,
    proposals, deposits and votes by proposal and address, and the two queues;
    each method of the keeper that reads or writes a record has a
    specification on it. *)
From Stdlib Require Import Strings.Byte Strings.Ascii Strings.String.
From S2P Require Import Prelude Names Int Rational Errors Coin KVStore MultiStore Account Context ProgLogic Auth Records Ante Bank.
From S2P Require Import Pool Validator StakeKey StakeKeeper GovTypes GovKeeper.
From stdpp Require Import pretty.
#[local] Open Scope string_scope.
#[local] Open Scope list_scope.
#[local] Open Scope Z_scope.

(** ** Keys *)

Lemma colon_split (p q : Z) (x y : string) :
  (pretty p ++ ":" ++ x)%string = (pretty q ++ ":" ++ y)%string -> p = q /\ x = y.
Proof.
  intros E. apply (split_at ":"%char) in E as [E ->]; [|by apply pretty_Z_without, colon_not_decimal..].
  by apply (inj pretty) in E.
Qed.

Lemma KeyProposal_inj (p q : Z) : KeyProposal p = KeyProposal q -> p = q.
Proof. unfold KeyProposal. rewrite !string_bytes_app. intros E%app_inv_head%string_bytes_inj. by apply (inj pretty) in E. Qed.

(** The keys of the entries of a proposal, under one of the two prefixes. *)
Definition entry_key `{AddrFmt} (kind : string) (p : Z) (a : Address) : bytes :=
  string_bytes (kind ++ pretty p ++ ":" ++ FmtAddress a)%string.
Definition entries_prefix (kind : string) (p : Z) : bytes := string_bytes (kind ++ pretty p ++ ":")%string.

Lemma entry_key_prefix `{AddrFmt} kind p a :
  entry_key kind p a = entries_prefix kind p ++ string_bytes (FmtAddress a).
Proof.
  unfold entry_key, entries_prefix. by rewrite !string_bytes_app, <- !app_assoc.
Qed.

Lemma entry_key_split `{AddrFmt} kind p q a (r : string) :
  entry_key kind p a = entries_prefix kind q ++ string_bytes r -> p = q /\ FmtAddress a = r.
Proof.
  unfold entry_key, entries_prefix. rewrite !string_bytes_app, <- !app_assoc. intros E%app_inv_head.
  rewrite <- !string_bytes_app in E. apply string_bytes_inj in E.
  by apply colon_split in E.
Qed.

Lemma entry_key_inj `{AddrFmtLaws} kind p q a b : entry_key kind p a = entry_key kind q b -> (p, a) = (q, b).
Proof.
  intros E. rewrite (entry_key_prefix kind q b) in E. apply entry_key_split in E as [-> E]. f_equal. by apply FmtAddress_inj.
Qed.

Lemma entry_key_in_prefix `{AddrFmt} kind p q a :
  entries_prefix kind q `prefix_of` entry_key kind p a <-> p = q.
Proof.
  split.
  - intros [k Hk]. rewrite <- (list_byte_of_string_of_list_byte k) in Hk. change (entry_key kind p a = entries_prefix kind q ++ string_bytes (string_of_list_byte k)) in Hk. by apply entry_key_split in Hk as [? _].
  - intros ->. rewrite entry_key_prefix. by eexists.
Qed.

(** ** The abstract state *)

Record gstate := mk_gstate {
  gs_next : option Z;
  gs_props : gmap Z TextProposal;
  gs_deps : gmap (Z * Address) Deposit;
  gs_votes : gmap (Z * Address) Vote;
  gs_active : ProposalQueue;
  gs_inactive : ProposalQueue
}.
Definition with_next (G : gstate) (n : option Z) : gstate :=
  mk_gstate n (gs_props G) (gs_deps G) (gs_votes G) (gs_active G) (gs_inactive G).
Definition with_props (G : gstate) (m : gmap Z TextProposal) : gstate :=
  mk_gstate (gs_next G) m (gs_deps G) (gs_votes G) (gs_active G) (gs_inactive G).
Definition with_deps (G : gstate) (m : gmap (Z * Address) Deposit) : gstate :=
  mk_gstate (gs_next G) (gs_props G) m (gs_votes G) (gs_active G) (gs_inactive G).
Definition with_votes (G : gstate) (m : gmap (Z * Address) Vote) : gstate :=
  mk_gstate (gs_next G) (gs_props G) (gs_deps G) m (gs_active G) (gs_inactive G).
Definition with_active (G : gstate) (q : ProposalQueue) : gstate :=
  mk_gstate (gs_next G) (gs_props G) (gs_deps G) (gs_votes G) q (gs_inactive G).
Definition with_inactive (G : gstate) (q : ProposalQueue) : gstate :=
  mk_gstate (gs_next G) (gs_props G) (gs_deps G) (gs_votes G) (gs_active G) q.

(** The values the Go types hold. *)
Definition is_byte (z : Z) : Prop := 0 <= z < 256.
Record proposal_wf (t : TextProposal) : Prop := {
  pw_id : is_int64 (tp_ProposalID t); pw_type : is_byte (tp_ProposalType t); pw_status : is_byte (tp_Status t);
  pw_submit : is_int64 (tp_SubmitBlock t); pw_deposit : amounts_wf (tp_TotalDeposit t);
  pw_start : is_int64 (tp_VotingStartBlock t) }.
Definition deposit_wf (d : Deposit) : Prop := is_int64 (dp_ProposalID d) /\ amounts_wf (dp_Amount d).
Definition vote_wf (v : Vote) : Prop := is_int64 (vt_ProposalID v) /\ is_byte (vt_Option v).
Definition queue_wf (q : ProposalQueue) : Prop := Forall is_int64 q.

Class GovCodecLaws `{GovCodec} : Prop := {
  Proposal_roundtrip : forall t, proposal_wf t -> exists bz, MarshalProposal t = Some bz /\ UnmarshalProposal bz = Some t;
  Vote_roundtrip : forall v, vote_wf v -> exists bz, MarshalVote v = Some bz /\ UnmarshalVote bz = Some v;
  Deposit_roundtrip : forall d, deposit_wf d -> exists bz, MarshalDeposit d = Some bz /\ UnmarshalDeposit bz = Some d;
  Queue_roundtrip : forall q, queue_wf q -> exists bz, MarshalQueue q = Some bz /\ UnmarshalQueue bz = Some q;
  ID_roundtrip : forall z, is_int64 z -> exists bz, MarshalID z = Some bz /\ UnmarshalID bz = Some z;
  IDBare_total : forall z, is_int64 z -> exists bz, MarshalIDBare z = Some bz;
  Proposal_decoded : forall bz t, UnmarshalProposal bz = Some t -> proposal_wf t;
  Vote_decoded : forall bz v, UnmarshalVote bz = Some v -> vote_wf v;
  Deposit_decoded : forall bz d, UnmarshalDeposit bz = Some d -> deposit_wf d;
  Queue_decoded : forall bz q, UnmarshalQueue bz = Some q -> queue_wf q;
  ID_decoded : forall bz z, UnmarshalID bz = Some z -> is_int64 z;
}.

Section rep.
Context `{HGC : GovCodecLaws} `{HAF : AddrFmtLaws}.

Definition queue_holds (b : slice) (q : ProposalQueue) : Prop :=
  match b with None => q = [] | Some bz => UnmarshalQueue bz = Some q end.

(** Every key below [kind] is that of an entry. *)
Definition only_entries (kind : string) (s : spec_store) : Prop :=
  forall k, is_Some (s !! k) -> string_bytes kind `prefix_of` k -> exists p a, k = entry_key kind p a.

Record rep (s : spec_store) (G : gstate) : Prop := mk_rep {
  r_next : holds UnmarshalID (s !! KeyNextProposalID) (gs_next G);
  r_props : forall p, holds UnmarshalProposal (s !! KeyProposal p) (gs_props G !! p);
  r_deps : forall p a, holds UnmarshalDeposit (s !! KeyDeposit p a) (gs_deps G !! (p, a));
  r_votes : forall p a, holds UnmarshalVote (s !! KeyVote p a) (gs_votes G !! (p, a));
  r_active : queue_holds (s !! KeyActiveProposalQueue) (gs_active G);
  r_inactive : queue_holds (s !! KeyInactiveProposalQueue) (gs_inactive G);
  r_only_deps : only_entries "deposits:" s;
  r_only_votes : only_entries "votes:" s;
  r_prop_id : forall p t, gs_props G !! p = Some t -> tp_ProposalID t = p;
  r_dep_id : forall p a d, gs_deps G !! (p, a) = Some d -> dp_ProposalID d = p /\ dp_Depositer d = a;
  r_vote_id : forall p a v, gs_votes G !! (p, a) = Some v -> vt_ProposalID v = p /\ vt_Voter v = a
}.

(** Keys of different kinds differ in their first byte. *)
Ltac key_ne := let E := fresh in intros E; apply (f_equal head) in E; vm_compute in E; discriminate E.

Lemma only_insert kind s k v :
  only_entries kind s -> (string_bytes kind `prefix_of` k -> exists p a, k = entry_key kind p a) ->
  only_entries kind (<[k := v]> s).
Proof.
  intros Ho Hk k' Hk' Hp. destruct (decide (k = k')) as [ <- |Hne]; [by apply Hk|].
  rewrite lookup_insert_ne in Hk' by done. by apply Ho.
Qed.
Lemma only_delete kind s k : only_entries kind s -> only_entries kind (delete k s).
Proof. intros Ho k' [v Hv] Hp. apply lookup_delete_Some in Hv as [_ Hv]. apply Ho; [by eexists|done]. Qed.

Lemma not_below (kind other r : string) :
  head (string_bytes kind) <> head (string_bytes other) -> head (string_bytes kind) <> None -> head (string_bytes other) <> None ->
  ~ string_bytes kind `prefix_of` string_bytes (other ++ r)%string.
Proof.
  intros Hne Hk Ho [l Hl]. rewrite string_bytes_app in Hl. apply Hne.
  destruct (string_bytes kind); [done|]. destruct (string_bytes other); [done|]. by injection Hl as -> _.
Qed.

(** The parts of [rep] a write or a delete of another kind leaves alone. *)
Ltac rep_other :=
  intros; first [rewrite lookup_insert_ne by key_ne; done | rewrite lookup_delete_ne by key_ne; done].
Ltac rep_only other :=
  first [by apply only_delete | apply only_insert; [done|]; let Hp := fresh in
    intros Hp; exfalso; revert Hp; by apply (not_below _ other)].

Lemma rep_SetProposal s G t bz :
  rep s G -> UnmarshalProposal bz = Some t ->
  rep (<[KeyProposal (tp_ProposalID t) := bz]> s) (with_props G (<[tp_ProposalID t := t]> (gs_props G))).
Proof.
  intros [R1 R2 R3 R4 R5 R6 R7 R8 R9 R10 R11] Hbz. split; simpl; try done; try rep_other; try rep_only "proposals:".
  - intros p. destruct (decide (tp_ProposalID t = p)) as [ <- |Hne]; [by rewrite !lookup_insert_eq|].
    rewrite !lookup_insert_ne; [done|done|]. by intros ?%KeyProposal_inj.
  - intros p t'. rewrite lookup_insert_Some. intros [[ <- <- ]|[_ Ht]]; [done|by apply R9].
Qed.

Lemma rep_DeleteProposal s G p :
  rep s G -> rep (delete (KeyProposal p) s) (with_props G (delete p (gs_props G))).
Proof.
  intros [R1 R2 R3 R4 R5 R6 R7 R8 R9 R10 R11]. split; simpl; try done; try rep_other; try rep_only "proposals:".
  - intros q. destruct (decide (p = q)) as [ <- |Hne]; [by rewrite !lookup_delete_eq|].
    rewrite !lookup_delete_ne; [done|done|]. by intros ?%KeyProposal_inj.
  - intros q t'. rewrite lookup_delete_Some. intros [_ Ht]. by apply R9.
Qed.

Lemma rep_SetNext s G n bz :
  rep s G -> UnmarshalID bz = Some n -> rep (<[KeyNextProposalID := bz]> s) (with_next G (Some n)).
Proof.
  intros [R1 R2 R3 R4 R5 R6 R7 R8 R9 R10 R11] Hbz. split; simpl; try done; try rep_other; try rep_only "newProposalID".
  by rewrite lookup_insert_eq.
Qed.

Lemma rep_SetActive s G q bz :
  rep s G -> UnmarshalQueue bz = Some q -> rep (<[KeyActiveProposalQueue := bz]> s) (with_active G q).
Proof.
  intros [R1 R2 R3 R4 R5 R6 R7 R8 R9 R10 R11] Hbz. split; simpl; try done; try rep_other; try rep_only "activeProposalQueue".
  by rewrite lookup_insert_eq.
Qed.

Lemma rep_SetInactive s G q bz :
  rep s G -> UnmarshalQueue bz = Some q -> rep (<[KeyInactiveProposalQueue := bz]> s) (with_inactive G q).
Proof.
  intros [R1 R2 R3 R4 R5 R6 R7 R8 R9 R10 R11] Hbz. split; simpl; try done; try rep_other; try rep_only "inactiveProposalQueue".
  by rewrite lookup_insert_eq.
Qed.

Lemma rep_SetDeposit s G d bz :
  rep s G -> UnmarshalDeposit bz = Some d ->
  rep (<[KeyDeposit (dp_ProposalID d) (dp_Depositer d) := bz]> s)
    (with_deps G (<[(dp_ProposalID d, dp_Depositer d) := d]> (gs_deps G))).
Proof.
  intros [R1 R2 R3 R4 R5 R6 R7 R8 R9 R10 R11] Hbz. split; simpl; try done; try rep_other; try rep_only "deposits:".
  - intros p a. destruct (decide ((dp_ProposalID d, dp_Depositer d) = (p, a))) as [[= <- <-]|Hne]; [by rewrite !lookup_insert_eq|].
    rewrite !lookup_insert_ne; [done|done|]. intros E. apply Hne. by apply (entry_key_inj "deposits:").
  - apply only_insert; [done|]. intros _. by eexists _, _.
  - intros p a d'. rewrite lookup_insert_Some. intros [[[= <- <-] <- ]|[_ Ht]]; [done|by apply R10].
Qed.

Lemma rep_DeleteDeposit s G p a :
  rep s G -> rep (delete (KeyDeposit p a) s) (with_deps G (delete (p, a) (gs_deps G))).
Proof.
  intros [R1 R2 R3 R4 R5 R6 R7 R8 R9 R10 R11]. split; simpl; try done; try rep_other; try rep_only "deposits:".
  - intros q b. destruct (decide ((p, a) = (q, b))) as [[= <- <-]|Hne]; [by rewrite !lookup_delete_eq|].
    rewrite !lookup_delete_ne; [done|done|]. intros E. apply Hne. by apply (entry_key_inj "deposits:").
  - intros q b d'. rewrite lookup_delete_Some. intros [_ Ht]. by apply R10.
Qed.

Lemma rep_SetVote s G v bz :
  rep s G -> UnmarshalVote bz = Some v ->
  rep (<[KeyVote (vt_ProposalID v) (vt_Voter v) := bz]> s)
    (with_votes G (<[(vt_ProposalID v, vt_Voter v) := v]> (gs_votes G))).
Proof.
  intros [R1 R2 R3 R4 R5 R6 R7 R8 R9 R10 R11] Hbz. split; simpl; try done; try rep_other; try rep_only "votes:".
  - intros p a. destruct (decide ((vt_ProposalID v, vt_Voter v) = (p, a))) as [[= <- <-]|Hne]; [by rewrite !lookup_insert_eq|].
    rewrite !lookup_insert_ne; [done|done|]. intros E. apply Hne. by apply (entry_key_inj "votes:").
  - apply only_insert; [done|]. intros _. by eexists _, _.
  - intros p a v'. rewrite lookup_insert_Some. intros [[[= <- <-] <- ]|[_ Ht]]; [done|by apply R11].
Qed.

Lemma rep_DeleteVote s G p a :
  rep s G -> rep (delete (KeyVote p a) s) (with_votes G (delete (p, a) (gs_votes G))).
Proof.
  intros [R1 R2 R3 R4 R5 R6 R7 R8 R9 R10 R11]. split; simpl; try done; try rep_other; try rep_only "votes:".
  - intros q b. destruct (decide ((p, a) = (q, b))) as [[= <- <-]|Hne]; [by rewrite !lookup_delete_eq|].
    rewrite !lookup_delete_ne; [done|done|]. intros E. apply Hne. by apply (entry_key_inj "votes:").
  - intros q b v'. rewrite lookup_delete_Some. intros [_ Ht]. by apply R11.
Qed.

(** ** The entries of a proposal *)

(** [entries] are the records [l] of proposal [p], in some order. *)
Definition entry_for {R : Type} (kind : string) (f : bytes -> option R) (p : Z) (e : slice * slice) (ar : Address * R) : Prop :=
  e.1 = Some (entry_key kind p ar.1) /\ exists bz, e.2 = Some bz /\ f bz = Some ar.2.
Definition listed {R : Type} (kind : string) (f : bytes -> option R) (p : Z) (M : gmap (Z * Address) R)
    (entries : list (slice * slice)) (l : list (Address * R)) : Prop :=
  NoDup l.*1 /\ (forall a r, (a, r) ∈ l <-> M !! (p, a) = Some r) /\ Forall2 (entry_for kind f p) entries l.

Lemma Forall_choose {A B : Type} (R : A -> B -> Prop) (l : list A) :
  Forall (fun a => exists b, R a b) l -> exists l', Forall2 R l l'.
Proof.
  induction 1 as [|a l [b Hb] _ [l' Hl']]; [by exists []|]. exists (b :: l'). by constructor.
Qed.

Lemma listed_range {R : Type} (kind : string) (f : bytes -> option R) (p : Z) (M : gmap (Z * Address) R) (s : spec_store) :
  (forall q a, holds f (s !! entry_key kind q a) (M !! (q, a))) -> only_entries kind s ->
  exists l, listed kind f p M (slices (range true (Some (entries_prefix kind p)) (prefix_end (entries_prefix kind p)) s)) l.
Proof.
  intros Hh Ho. set (pre := entries_prefix kind p). set (L := range true (Some pre) (prefix_end pre) s).
  destruct (range_spec true (Some pre) (prefix_end pre) s) as [Hsort Hel]. fold L in Hsort, Hel.
  assert (Hel' : forall k v, (k, v) ∈ L <-> s !! k = Some v /\ pre `prefix_of` k).
  { intros k v. by rewrite Hel, prefix_end_domain. }
  destruct (Forall_choose (fun (kv : bytes * bytes) (ar : Address * R) =>
    kv.1 = entry_key kind p ar.1 /\ f kv.2 = Some ar.2) L) as [l Hl].
  { apply Forall_forall. intros [k v] [Hkv Hpre]%Hel'. destruct (Ho k) as (q & a & ->); [by eexists| |].
    - etransitivity; [|exact Hpre]. unfold pre, entries_prefix. rewrite string_bytes_app. by eexists.
    - apply entry_key_in_prefix in Hpre as ->. specialize (Hh p a). rewrite Hkv in Hh.
      destruct (M !! (p, a)) as [r|]; [|done]. by exists (a, r). }
  exists l. split_and!.
  - apply (NoDup_fmap_1 (entry_key kind p)). replace (entry_key kind p <$> l.*1) with (L.*1); [by eapply keys_sorted_NoDup|].
    clear -Hl. induction Hl as [|kv ar L l [E _] _ IH]; [done|]. by rewrite !fmap_cons, E, IH.
  - intros a r. split.
    + intros [i Hi]%list_elem_of_lookup. destruct (Forall2_lookup_r _ _ _ _ _ Hl Hi) as ([k v] & Hkv & E & Ef).
      apply list_elem_of_lookup_2, Hel' in Hkv as [Hkv _]. simpl in *. subst k. specialize (Hh p a). rewrite Hkv in Hh.
      destruct (M !! (p, a)); [|done]. simpl in Hh. congruence.
    + intros HM. specialize (Hh p a). rewrite HM in Hh. destruct (holds_Some _ _ _ Hh) as (bz & Hbz & Ef).
      assert (Hin : (entry_key kind p a, bz) ∈ L) by (apply Hel'; split; [done|]; by apply entry_key_in_prefix).
      apply list_elem_of_lookup in Hin as [i Hi]. destruct (Forall2_lookup_l _ _ _ _ _ Hl Hi) as ([a' r'] & Har & E & Ef').
      simpl in *. apply entry_key_inj in E as [= ->]. rewrite Ef in Ef'. injection Ef' as ->. by eapply list_elem_of_lookup_2.
  - unfold slices. apply Forall2_fmap_l. eapply Forall2_impl; [exact Hl|]. intros [k v] ar [E Ef]. simpl in *. subst k.
    split; [done|]. by exists v.
Qed.
End rep.

(** ** The keeper's methods *)

Section specs.
Context `{HCL : CodecLaws} `{HGC : GovCodecLaws} `{HAF : AddrFmtLaws} (keeper : Keeper) (ctx : Ctx) (st0 : stores).
Abbreviation m := (cx_GasMeter ctx).
Abbreviation gkey := (gk_storeKey keeper).
Abbreviation am := (gk_ck keeper).
Hypothesis Hkeys : am_key am <> gkey.

(** The accounts and the governance store; the other stores are as in [st0]. *)
Record world (st : stores) (accs : gmap Address BaseAccount) (G : gstate) : Prop := mk_world {
  w_auth : exists n, auth_st am st accs n;
  w_accs : accs_ok accs;
  w_gov : exists s, st !! gkey = Some s /\ rep s G;
  w_frame : forall k, k <> gkey -> k <> am_key am -> st !! k = st0 !! k
}.

Lemma world_insert st accs G s G' : world st accs G -> rep s G' -> world (<[gkey := s]> st) accs G'.
Proof.
  intros [[n R1] R2 _ R4] Hr. split; [|done| |].
  - exists n. eapply (auth_st_frame am gkey); [apply frame_insert| |done]. by intros E; apply Hkeys.
  - exists s. by rewrite lookup_insert_eq.
  - intros k Hk Hk'. rewrite lookup_insert_ne by done. by apply R4.
Qed.

(** After an operation on the accounts. *)
Lemma world_bank st st' accs accs' n G :
  world st accs G -> auth_st am st' accs' n -> accs_ok accs' -> frame (am_key am) st st' -> world st' accs' G.
Proof.
  intros [_ _ (s & Hs & Hr) R4] Hst Hok Hf. split; [by exists n|done| |].
  - exists s. split; [|done]. by rewrite Hf by (intros E; apply Hkeys; symmetry; exact E).
  - intros k Hk Hk'. rewrite Hf by done. by apply R4.
Qed.

Lemma GetProposal_spec st accs G p (Q : option TextProposal -> stores -> Prop) (E : panic_value -> Prop) :
  world st accs G -> ((forall t, gs_props G !! p = Some t -> proposal_wf t /\ tp_ProposalID t = p) -> Q (gs_props G !! p) st) ->
  pspec m (GetProposal keeper ctx p) st Q E.
Proof.
  intros [_ _ (s & Hs & Hr) _] HQ. eapply pspec_read; [done|apply (r_props _ _ Hr)|]. apply HQ.
  intros t Ht. split; [|by eapply r_prop_id]. pose proof (r_props _ _ Hr p) as Hh. rewrite Ht in Hh.
  destruct (holds_Some _ _ _ Hh) as (bz & _ & Ed). by eapply Proposal_decoded.
Qed.

Lemma SetProposal_spec st accs G t (Q : unit -> stores -> Prop) (E : panic_value -> Prop) :
  world st accs G -> proposal_wf t ->
  (forall st', world st' accs (with_props G (<[tp_ProposalID t := t]> (gs_props G))) -> Q tt st') ->
  pspec m (SetProposal keeper ctx t) st Q E.
Proof.
  intros Hw Ht HQ. destruct (w_gov _ _ _ Hw) as (s & Hs & Hr). destruct (Proposal_roundtrip t Ht) as (bz & Em & Ed).
  eapply pspec_write; [done|done|]. apply HQ. eapply world_insert; [done|]. by apply rep_SetProposal.
Qed.

Lemma DeleteProposal_spec st accs G t (Q : unit -> stores -> Prop) (E : panic_value -> Prop) :
  world st accs G ->
  (forall st', world st' accs (with_props G (delete (tp_ProposalID t) (gs_props G))) -> Q tt st') ->
  pspec m (DeleteProposal keeper ctx t) st Q E.
Proof.
  intros Hw HQ. destruct (w_gov _ _ _ Hw) as (s & Hs & Hr). apply (pspec_Delete _ _ _ s); [done|].
  apply HQ. eapply world_insert; [done|]. by apply rep_DeleteProposal.
Qed.

Lemma getNewProposalID_spec st accs G (Q : Z * option sdkError -> stores -> Prop) (E : panic_value -> Prop) :
  world st accs G ->
  match gs_next G with
  | None => forall err, Q (-1, Some err) st
  | Some n => is_int64 n -> forall st', world st' accs (with_next G (Some (wrap64 (n + 1)))) -> Q (n, None) st'
  end -> pspec m (getNewProposalID keeper ctx) st Q E.
Proof.
  intros Hw HQ. destruct (w_gov _ _ _ Hw) as (s & Hs & Hr). apply pspec_bind, (pspec_Get _ _ _ s); [done|].
  pose proof (r_next _ _ Hr) as Hh. destruct (s !! KeyNextProposalID) as [bz|] eqn:Eb, (gs_next G) as [n|] eqn:En; try done.
  apply pspec_bind, pspec_lift; rewrite (must_unmarshal_holds UnmarshalID (Some bz) n) by done; [|done].
  intros n' [= <-]. destruct (ID_roundtrip (wrap64 (n + 1)) (wrap64_is_int64 _)) as (bz' & Em & Ed).
  apply pspec_bind, pspec_lift; unfold must_marshal; rewrite Em; [|done]. intros ? [= <-].
  apply pspec_bind, (pspec_Set _ _ _ s); [done|]. apply pspec_ret. apply HQ; [by eapply ID_decoded|].
  eapply world_insert; [done|]. by apply rep_SetNext.
Qed.

(** *** The queues: the active one and the other *)

Definition qkey (active : bool) : bytes := if active then KeyActiveProposalQueue else KeyInactiveProposalQueue.
Definition gq (active : bool) (G : gstate) : ProposalQueue := if active then gs_active G else gs_inactive G.
Definition with_q (active : bool) (G : gstate) (q : ProposalQueue) : gstate :=
  if active then with_active G q else with_inactive G q.

Lemma getQueue_spec st accs G b (Q : ProposalQueue -> stores -> Prop) (E : panic_value -> Prop) :
  world st accs G -> (queue_wf (gq b G) -> Q (gq b G) st) -> pspec m (getQueue keeper ctx (qkey b)) st Q E.
Proof.
  intros Hw HQ. destruct (w_gov _ _ _ Hw) as (s & Hs & Hr). apply pspec_bind, (pspec_Get _ _ _ s); [done|].
  assert (Hq : queue_holds (s !! qkey b) (gq b G)) by (destruct b; apply Hr).
  unfold queue_holds in Hq. destruct (s !! qkey b) as [bz|] eqn:Eb.
  - apply pspec_lift; unfold must_unmarshal; rewrite Hq; [|done]. intros ? [= <-]. apply HQ. by eapply Queue_decoded.
  - rewrite Hq in HQ. apply pspec_ret, HQ. constructor.
Qed.

Lemma setQueue_spec st accs G b q (Q : unit -> stores -> Prop) (E : panic_value -> Prop) :
  world st accs G -> queue_wf q -> (forall st', world st' accs (with_q b G q) -> Q tt st') ->
  pspec m (setQueue keeper ctx (qkey b) q) st Q E.
Proof.
  intros Hw Hq HQ. destruct (w_gov _ _ _ Hw) as (s & Hs & Hr). destruct (Queue_roundtrip q Hq) as (bz & Em & Ed).
  eapply pspec_write; [done|done|]. apply HQ. eapply world_insert; [done|].
  destruct b; [by apply rep_SetActive|by apply rep_SetInactive].
Qed.

Lemma with_q_props b G q : gs_props (with_q b G q) = gs_props G.
Proof. by destruct b. Qed.

Lemma QueuePeek_spec st accs G b (Q : option TextProposal -> stores -> Prop) (E : panic_value -> Prop) :
  world st accs G ->
  match gq b G with
  | [] => Q None st
  | front :: _ => (forall t, gs_props G !! front = Some t -> proposal_wf t /\ tp_ProposalID t = front) -> Q (gs_props G !! front) st
  end -> pspec m (QueuePeek keeper ctx (qkey b)) st Q E.
Proof.
  intros Hw HQ. apply pspec_bind. eapply getQueue_spec; [done|]. intros _.
  destruct (gq b G) as [|front q]; [by apply pspec_ret|]. by eapply GetProposal_spec.
Qed.

Lemma QueuePop_spec st accs G b front q (Q : option TextProposal -> stores -> Prop) (E : panic_value -> Prop) :
  world st accs G -> gq b G = front :: q ->
  (forall st', world st' accs (with_q b G q) ->
     (forall t, gs_props G !! front = Some t -> proposal_wf t /\ tp_ProposalID t = front) -> Q (gs_props G !! front) st') ->
  pspec m (QueuePop keeper ctx (qkey b)) st Q E.
Proof.
  intros Hw Hq HQ. apply pspec_bind. eapply getQueue_spec; [done|]. rewrite Hq. intros Hwf. inversion Hwf; subst.
  apply pspec_bind. eapply setQueue_spec; [done|done|]. intros st' Hw'. eapply GetProposal_spec; [done|].
  rewrite with_q_props. intros Ht. by apply HQ.
Qed.

Lemma QueuePush_spec st accs G b t (Q : unit -> stores -> Prop) (E : panic_value -> Prop) :
  world st accs G -> is_int64 (tp_ProposalID t) ->
  (forall st', world st' accs (with_q b G (gq b G ++ [tp_ProposalID t])) -> Q tt st') ->
  pspec m (QueuePush keeper ctx (qkey b) t) st Q E.
Proof.
  intros Hw Ht HQ. apply pspec_bind. eapply getQueue_spec; [done|]. intros Hwf.
  eapply setQueue_spec; [done| |exact HQ]. apply Forall_app. split; [done|]. by constructor.
Qed.

(** *** Votes and deposits *)

Lemma setVote_spec st accs G v (Q : unit -> stores -> Prop) (E : panic_value -> Prop) :
  world st accs G -> vote_wf v ->
  (forall st', world st' accs (with_votes G (<[(vt_ProposalID v, vt_Voter v) := v]> (gs_votes G))) -> Q tt st') ->
  pspec m (setVote keeper ctx (vt_ProposalID v) (vt_Voter v) v) st Q E.
Proof.
  intros Hw Hv HQ. destruct (w_gov _ _ _ Hw) as (s & Hs & Hr). destruct (Vote_roundtrip v Hv) as (bz & Em & Ed).
  eapply pspec_write; [done|done|]. apply HQ. eapply world_insert; [done|]. by apply rep_SetVote.
Qed.

Lemma deleteVote_spec st accs G p a (Q : unit -> stores -> Prop) (E : panic_value -> Prop) :
  world st accs G -> (forall st', world st' accs (with_votes G (delete (p, a) (gs_votes G))) -> Q tt st') ->
  pspec m (deleteVote keeper ctx p a) st Q E.
Proof.
  intros Hw HQ. destruct (w_gov _ _ _ Hw) as (s & Hs & Hr). apply (pspec_Delete _ _ _ s); [done|].
  apply HQ. eapply world_insert; [done|]. by apply rep_DeleteVote.
Qed.

Lemma GetDeposit_spec st accs G p a (Q : option Deposit -> stores -> Prop) (E : panic_value -> Prop) :
  world st accs G ->
  ((forall d, gs_deps G !! (p, a) = Some d -> deposit_wf d /\ dp_ProposalID d = p /\ dp_Depositer d = a) ->
   Q (gs_deps G !! (p, a)) st) ->
  pspec m (GetDeposit keeper ctx p a) st Q E.
Proof.
  intros [_ _ (s & Hs & Hr) _] HQ. eapply pspec_read; [done|apply (r_deps _ _ Hr)|]. apply HQ.
  intros d Hd. split; [|by eapply r_dep_id]. pose proof (r_deps _ _ Hr p a) as Hh. rewrite Hd in Hh.
  destruct (holds_Some _ _ _ Hh) as (bz & _ & Ed). by eapply Deposit_decoded.
Qed.

Lemma setDeposit_spec st accs G d (Q : unit -> stores -> Prop) (E : panic_value -> Prop) :
  world st accs G -> deposit_wf d ->
  (forall st', world st' accs (with_deps G (<[(dp_ProposalID d, dp_Depositer d) := d]> (gs_deps G))) -> Q tt st') ->
  pspec m (setDeposit keeper ctx (dp_ProposalID d) (dp_Depositer d) d) st Q E.
Proof.
  intros Hw Hd HQ. destruct (w_gov _ _ _ Hw) as (s & Hs & Hr). destruct (Deposit_roundtrip d Hd) as (bz & Em & Ed).
  eapply pspec_write; [done|done|]. apply HQ. eapply world_insert; [done|]. by apply rep_SetDeposit.
Qed.

Lemma deleteDeposit_spec st accs G p a (Q : unit -> stores -> Prop) (E : panic_value -> Prop) :
  world st accs G -> (forall st', world st' accs (with_deps G (delete (p, a) (gs_deps G))) -> Q tt st') ->
  pspec m (store_Delete ctx gkey (KeyDeposit p a)) st Q E.
Proof.
  intros Hw HQ. destruct (w_gov _ _ _ Hw) as (s & Hs & Hr). apply (pspec_Delete _ _ _ s); [done|].
  apply HQ. eapply world_insert; [done|]. by apply rep_DeleteDeposit.
Qed.

Lemma GetDeposits_spec st accs G p (Q : list (slice * slice) -> stores -> Prop) (E : panic_value -> Prop) :
  world st accs G -> E out_of_memory ->
  (forall entries l, listed "deposits:" UnmarshalDeposit p (gs_deps G) entries l -> Q entries st) ->
  pspec m (GetDeposits keeper p) st Q E.
Proof.
  intros Hw HE HQ. destruct (w_gov _ _ _ Hw) as (s & Hs & Hr).
  destruct (listed_range "deposits:" UnmarshalDeposit p (gs_deps G) s (r_deps _ _ Hr) (r_only_deps _ _ Hr)) as [l Hl].
  apply (pspec_Prefix _ _ _ s); [done|done|done|]. by eapply HQ.
Qed.

Lemma GetVotes_spec st accs G p (Q : list (slice * slice) -> stores -> Prop) (E : panic_value -> Prop) :
  world st accs G -> E out_of_memory ->
  (forall entries l, listed "votes:" UnmarshalVote p (gs_votes G) entries l -> Q entries st) ->
  pspec m (GetVotes keeper p) st Q E.
Proof.
  intros Hw HE HQ. destruct (w_gov _ _ _ Hw) as (s & Hs & Hr).
  destruct (listed_range "votes:" UnmarshalVote p (gs_votes G) s (r_votes _ _ Hr) (r_only_votes _ _ Hr)) as [l Hl].
  apply (pspec_Prefix _ _ _ s); [done|done|done|]. by eapply HQ.
Qed.
End specs.
