(* ===== verification/GovDeposit.v ===== *)
(** * Deposits: the invariant of the module and what its messages do

    [gov_inv]: identifiers are fresh, the total of an open proposal is the sum
    of its deposits, the queues hold the proposals whose period runs.  The
    specifications of the keeper's methods that move coins into deposits, make
    proposals and cast votes. *)
From Stdlib Require Import Strings.Byte Strings.String.
From S2P Require Import Prelude Int Rational Errors Coin KVStore MultiStore Account Context ProgLogic Auth Records Ante Bank.
From S2P Require Import Pool Validator StakeKey StakeKeeper GovTypes GovKeeper GovRep.
#[local] Open Scope string_scope.
#[local] Open Scope list_scope.
#[local] Open Scope Z_scope.

(** ** Sums of deposits *)

(** The deposits of proposal [p], and all of them, in coins of [d]. *)
Definition dep_part (p : Z) (d : string) (key : Z * Address) (r : Deposit) : Z :=
  if decide (key.1 = p) then amt (dp_Amount r) d else 0.
Definition dep_sum (G : gstate) (p : Z) (d : string) : Z := map_total (dep_part p d) (gs_deps G).
Definition dep_total (G : gstate) (d : string) : Z := map_total (fun _ r => amt (dp_Amount r) d) (gs_deps G).

(** A proposal that takes deposits. *)
Definition is_open (t : TextProposal) : Prop := tp_Status t = StatusDepositPeriod \/ tp_Status t = StatusVotingPeriod.

(** ** The invariant *)

(** A field of the proposal with identifier [p]. *)
Definition field_of (f : TextProposal -> Z) (G : gstate) (p : Z) : Z := from_option f 0 (gs_props G !! p).

(** The identifiers in a queue, by the block in field [f]; none is later than
    [h]. *)
Definition queued (f : TextProposal -> Z) (h : Z) (G : gstate) (q : ProposalQueue) : Prop :=
  NoDup q /\ (forall p, p ∈ q -> is_Some (gs_props G !! p) /\ field_of f G p <= h) /\
  StronglySorted (fun p p' => field_of f G p <= field_of f G p') q.

Record gov_inv (h : Z) (G : gstate) : Prop := mk_gov_inv {
  gi_fresh : exists n, gs_next G = Some n /\
    (forall p, is_Some (gs_props G !! p) -> p < n) /\ (forall p a, is_Some (gs_deps G !! (p, a)) -> p < n);
  gi_deps : forall key r, gs_deps G !! key = Some r -> coins_ok (dp_Amount r);
  gi_props : forall p t, gs_props G !! p = Some t -> coins_ok (tp_TotalDeposit t);
  gi_sum : forall p t d, gs_props G !! p = Some t -> is_open t -> amt (tp_TotalDeposit t) d = dep_sum G p d;
  gi_inactive : queued tp_SubmitBlock h G (gs_inactive G);
  gi_active : queued tp_VotingStartBlock h G (gs_active G);
  gi_pending : forall p t, gs_props G !! p = Some t -> tp_Status t = StatusDepositPeriod -> p ∈ gs_inactive G;
  gi_voting : forall p t, gs_props G !! p = Some t -> (p ∈ gs_active G <-> tp_Status t = StatusVotingPeriod)
}.

Lemma queued_later f h h' G q : h <= h' -> queued f h G q -> queued f h' G q.
Proof. intros Hh (R1 & R2 & R3). split_and!; [done| |done]. intros p [? ?]%R2. split; [done|lia]. Qed.

Lemma gov_inv_later h h' G : h <= h' -> gov_inv h G -> gov_inv h' G.
Proof. intros Hh [R1 R2 R3 R4 R5 R6 R7 R8]. constructor; try done; by eapply queued_later. Qed.

(** Only the fields of the queued proposals count. *)
Lemma queued_ext f h G G' q :
  (forall p, p ∈ q -> f <$> gs_props G' !! p = f <$> gs_props G !! p) -> queued f h G q -> queued f h G' q.
Proof.
  intros HE (R1 & R2 & R3).
  assert (E : forall p, p ∈ q -> (is_Some (gs_props G !! p) -> is_Some (gs_props G' !! p)) /\ field_of f G' p = field_of f G p).
  { intros p Hp. specialize (HE p Hp). unfold field_of. destruct (gs_props G !! p), (gs_props G' !! p); simpl in *; try done.
    injection HE as ->. done. }
  split_and!; [done| |].
  - intros p Hp. destruct (E p Hp) as [E1 ->]. destruct (R2 p Hp). auto.
  - clear R1 R2 HE. induction R3 as [|p q _ IH Hp]; constructor.
    + apply IH. intros. apply E. by right.
    + rewrite Forall_forall in *. intros p' Hp'. destruct (E p' ltac:(by right)) as [_ ->].
      destruct (E p ltac:(by left)) as [_ ->]. by apply Hp.
Qed.

Lemma queued_snoc f h G q p :
  queued f h G q -> p ∉ q -> is_Some (gs_props G !! p) -> field_of f G p = h -> queued f h G (q ++ [p]).
Proof.
  intros (R1 & R2 & R3) Hp Hs Hf. split_and!.
  - apply NoDup_app. split_and!; [done| |by apply NoDup_singleton]. by intros x Hx ->%list_elem_of_singleton.
  - intros x [Hx| ->%list_elem_of_singleton]%elem_of_app; [by apply R2|]. split; [done|lia].
  - apply StronglySorted_app_2; [|done|repeat constructor]. intros x y Hx ->%list_elem_of_singleton.
    destruct (R2 x Hx). lia.
Qed.

Lemma queued_tail f h G p q : queued f h G (p :: q) -> queued f h G q.
Proof.
  intros (R1 & R2 & R3). apply NoDup_cons in R1 as [_ R1]. inversion R3; subst. split_and!; [done| |done].
  intros x Hx. apply R2. by right.
Qed.

(** ** AddDeposit *)

(** The proposal [t] with the total [c], activated at [h] if [act]. *)
Definition funded (h : Z) (t : TextProposal) (c : Coins) (act : bool) : TextProposal :=
  if act then SetStatus (SetVotingStartBlock (SetTotalDeposit t c) h) StatusVotingPeriod else SetTotalDeposit t c.

Definition deposited (h : Z) (G : gstate) (p : Z) (a : Address) (t : TextProposal) (c own : Coins) (act : bool) : gstate :=
  mk_gstate (gs_next G) (<[p := funded h t c act]> (gs_props G)) (<[(p, a) := mk_Deposit a p own]> (gs_deps G))
    (gs_votes G) (if act then gs_active G ++ [p] else gs_active G) (gs_inactive G).

(** What [a] has deposited for [p]. *)
Definition own_deposit (G : gstate) (p : Z) (a : Address) : Coins := from_option dp_Amount [] (gs_deps G !! (p, a)).

Definition minimum (c : Coins) : bool := bool_decide (10 <= amt c "steak").

Lemma IsGTE_minimum c b : coins_ok c -> IsGTE c (MinDeposit GetDepositProcedure) = Ok b -> b = minimum c.
Proof.
  intros (Hc & Hn & _) Hb. apply IsGTE_Ok in Hb; [|done|split; [repeat constructor|by repeat constructor]].
  apply eq_bool_prop_intro. rewrite !Is_true_true, Hb. unfold minimum. rewrite bool_decide_eq_true. split.
  - intros H. specialize (H "steak"). done.
  - intros H d. cbn [MinDeposit GetDepositProcedure NewCoin amt Denom Amount]. specialize (Hn d).
    destruct (decide _) as [ <- |]; unfold Int.NewInt; lia.
Qed.

Lemma Plus_ok a b c : coins_ok a -> coins_ok b -> Plus a b = Ok c -> coins_ok c.
Proof.
  intros (A1 & A2 & A3) (B1 & B2 & B3) E. split; [exact (Plus_canonical _ _ _ A1 B1 E)|].
  split; [|exact (Plus_amounts_wf _ _ _ A3 B3 E)]. intros d. rewrite (Plus_amt _ _ _ d E). specialize (A2 d). specialize (B2 d). lia.
Qed.

Definition overflows (q : panic_value) : Prop := q = PanicString "Int overflow".

Lemma lift_Plus {A : Type} (m : meter_ptr) a b (f : Coins -> prog A) st (Q : A -> stores -> Prop) :
  (forall c, Plus a b = Ok c -> pspec m (f c) st Q overflows) -> pspec m (c ← lift (Plus a b); f c) st Q overflows.
Proof. intros Hf. apply pspec_bind, pspec_lift; [exact Hf|]. intros q Hq. by apply Plus_panics in Hq. Qed.

(** ** The invariant is kept *)

Lemma dep_total_deposited hh G p a t c own act d :
  dep_total (deposited hh G p a t c own act) d = dep_total G d - amt (own_deposit G p a) d + amt own d.
Proof.
  unfold dep_total, deposited. cbn [gs_deps]. rewrite map_total_insert. cbn [dp_Amount]. f_equal. f_equal.
  unfold own_deposit. by destruct (gs_deps G !! (p, a)).
Qed.

Lemma dep_sum_deposited hh G p a t c own act q d :
  dep_sum (deposited hh G p a t c own act) q d =
  dep_sum G q d + (if decide (p = q) then amt own d - amt (own_deposit G p a) d else 0).
Proof.
  unfold dep_sum, deposited. cbn [gs_deps]. rewrite map_total_insert. unfold dep_part, own_deposit. cbn [fst dp_Amount].
  destruct (gs_deps G !! (p, a)) as [r|]; simpl; destruct (decide (p = q)); lia.
Qed.

(** A proposal is changed in fields no queue is sorted by. *)
Lemma queued_update f hh G p t t' q G' :
  gs_props G !! p = Some t -> gs_props G' = <[p := t']> (gs_props G) -> f t' = f t -> queued f hh G q -> queued f hh G' q.
Proof.
  intros Ht HG Hf. apply queued_ext. intros x _. rewrite HG. destruct (decide (p = x)) as [ <- |Hne].
  - by rewrite lookup_insert_eq, Ht; simpl; rewrite Hf.
  - by rewrite lookup_insert_ne.
Qed.

Lemma deposited_inv hh G p a t c total own :
  gov_inv hh G -> coins_ok c -> gs_props G !! p = Some t -> is_open t ->
  Plus (tp_TotalDeposit t) c = Ok total -> Plus (own_deposit G p a) c = Ok own ->
  gov_inv hh (deposited hh G p a t total own ((tp_Status t =? StatusDepositPeriod) && minimum total)).
Proof.
  intros [(n & Hn & Hp & Hd) I2 I3 I4 I5 I6 I7 I8] Hc Ht Ho Htot Hown. set (act := _ && _).
  assert (Hact : act = true -> tp_Status t = StatusDepositPeriod /\ p ∉ gs_active G).
  { unfold act. intros [Es%Z.eqb_eq _]%andb_prop. split; [done|]. rewrite (I8 p t Ht), Es. done. }
  assert (Hown' : coins_ok (own_deposit G p a)).
  { unfold own_deposit. destruct (gs_deps G !! (p, a)) as [r|] eqn:Er; [by eapply I2|apply coins_ok_nil]. }
  assert (Hlk : forall q t', gs_props (deposited hh G p a t total own act) !! q = Some t' ->
    (q = p /\ t' = funded hh t total act) \/ (q <> p /\ gs_props G !! q = Some t')).
  { intros q t'. cbn [deposited gs_props]. rewrite lookup_insert_Some. intros [[ <- <- ]|[? ?]]; [by left|by right]. }
  constructor.
  - exists n. split_and!; [done| |]; intros q.
    + cbn [deposited gs_props]. intros Hq. apply Hp. destruct (decide (p = q)) as [ <- |]; [by eexists|by rewrite lookup_insert_ne in Hq].
    + intros b. cbn [deposited gs_deps]. intros Hq. destruct (decide ((p, a) = (q, b))) as [[= <- _]|]; [apply Hp; by eexists|].
      rewrite lookup_insert_ne in Hq by done. by eapply Hd.
  - intros key r. cbn [deposited gs_deps]. rewrite lookup_insert_Some. intros [[_ <-]|[_ Hr]]; [exact (Plus_ok _ _ _ Hown' Hc Hown)|by eapply I2].
  - intros q t' [[_ ->]|[_ Hq]]%Hlk; [|by eapply I3].
    assert (coins_ok total) by exact (Plus_ok _ _ _ (I3 _ _ Ht) Hc Htot). by destruct act.
  - intros q t' d Hq Hot. rewrite dep_sum_deposited. apply Hlk in Hq as [[-> ->]|[Hne Hq]].
    + rewrite decide_True by done. pose proof (I4 p t d Ht Ho) as Hs.
      pose proof (Plus_amt _ _ _ d Htot). pose proof (Plus_amt _ _ _ d Hown).
      destruct act; cbn [funded SetStatus SetVotingStartBlock SetTotalDeposit tp_TotalDeposit]; lia.
    + rewrite decide_False by done. rewrite (I4 q t' d Hq Hot). lia.
  - eapply queued_update; [exact Ht|reflexivity| |exact I5]. by destruct act.
  - cbn [deposited gs_active]. destruct act.
    + destruct (Hact eq_refl) as [_ Hnin]. apply queued_snoc; [|done| |].
      * revert I6. apply queued_ext. intros x Hx. cbn [deposited gs_props]. rewrite lookup_insert_ne; [done|by intros <-].
      * cbn [deposited gs_props]. rewrite lookup_insert_eq. by eexists.
      * unfold field_of. cbn [deposited gs_props]. by rewrite lookup_insert_eq.
    + eapply queued_update; [exact Ht|reflexivity| |exact I6]. done.
  - intros q t' [[-> ->]|[_ Hq]]%Hlk Hs; [|by eapply I7]. eapply I7; [exact Ht|]. by destruct act.
  - intros q t' [[-> ->]|[Hne Hq]]%Hlk; cbn [deposited gs_active].
    + destruct act; [|apply (I8 p t Ht)]. split; [done|]. intros _. apply elem_of_app. right. by left.
    + rewrite <- (I8 q t' Hq). destruct act; [|done]. rewrite elem_of_app, list_elem_of_singleton. tauto.
Qed.

(** A new proposal. *)
Definition submitted (hh : Z) (G : gstate) (n : Z) (t : TextProposal) : gstate :=
  mk_gstate (Some (n + 1)) (<[n := t]> (gs_props G)) (gs_deps G) (gs_votes G) (gs_active G) (gs_inactive G ++ [n]).

Lemma submitted_inv hh G n t :
  gov_inv hh G -> gs_next G = Some n -> tp_Status t = StatusDepositPeriod -> tp_SubmitBlock t = hh -> tp_TotalDeposit t = [] ->
  gov_inv hh (submitted hh G n t).
Proof.
  intros [(n' & Hn & Hp & Hd) I2 I3 I4 I5 I6 I7 I8] Hn' Hs Hb Hc. rewrite Hn in Hn'. injection Hn' as ->.
  assert (Hnone : gs_props G !! n = None).
  { apply eq_None_not_Some. intros Hq. apply Hp in Hq. lia. }
  assert (Hold : forall f q, queued f hh G q -> queued f hh (submitted hh G n t) q).
  { intros f q Hq. pose proof Hq as (_ & Hsome & _). revert Hq. apply queued_ext. intros x Hx. cbn [submitted gs_props].
    rewrite lookup_insert_ne; [done|]. intros <-. destruct (Hsome n Hx) as [[? ?] _]. congruence. }
  assert (Hnin : forall f q, queued f hh G q -> n ∉ q).
  { intros f q (_ & Hsome & _) Hx. destruct (Hsome n Hx) as [[? ?] _]. congruence. }
  constructor; cbn [submitted gs_next gs_props gs_deps gs_active gs_inactive].
  - exists (n + 1). split_and!; [done| |].
    + intros q Hq. destruct (decide (n = q)) as [ <- |]; [lia|]. rewrite lookup_insert_ne in Hq by done. specialize (Hp q Hq). lia.
    + intros q b Hq. specialize (Hd q b Hq). lia.
  - done.
  - intros q t'. rewrite lookup_insert_Some. intros [[_ <-]|[_ Hq]]; [rewrite Hc; apply coins_ok_nil|by eapply I3].
  - intros q t' d. rewrite lookup_insert_Some. intros [[ <- <- ]|[_ Hq]] Ho; [|by apply I4].
    rewrite Hc. unfold dep_sum. symmetry. cbn [submitted gs_deps]. rewrite (map_total_ext _ (fun _ _ => 0)).
    + clear. induction (gs_deps G) as [|k r M Hk IH] using map_ind; [by rewrite map_total_empty|].
      rewrite map_total_new by done. by rewrite IH.
    + intros [q b] r Hr. unfold dep_part. simpl. rewrite decide_False; [done|]. intros ->.
      assert (n < n) by (eapply Hd; by eexists). lia.
  - apply queued_snoc; [by apply Hold|by eapply Hnin| |]; unfold field_of; cbn [submitted gs_props]; rewrite lookup_insert_eq; [by eexists|done].
  - by apply Hold.
  - intros q t'. rewrite lookup_insert_Some, elem_of_app, list_elem_of_singleton. intros [[ <- <- ]|[_ Hq]] Hst; [by right|left; by eapply I7].
  - intros q t'. rewrite lookup_insert_Some. intros [[ <- <- ]|[_ Hq]]; [|by apply I8]. rewrite Hs.
    split; [intros Hx; by apply (Hnin _ _ I6) in Hx|done].
Qed.

Section deposits.
Context `{HCL : CodecLaws} `{HGC : GovCodecLaws} `{HAF : AddrFmtLaws} (keeper : Keeper) (ctx : Ctx) (st0 : stores).
Abbreviation m := (cx_GasMeter ctx).
Abbreviation gkey := (gk_storeKey keeper).
Abbreviation am := (gk_ck keeper).
Abbreviation h := (cx_BlockHeight ctx).
Abbreviation world := (world keeper st0).
Abbreviation cs := (gk_codespace keeper).
Hypothesis Hkeys : am_key am <> gkey.
Hypothesis Hheight : is_int64 h.

(** Why a deposit is refused. *)
Definition deposit_refused (G : gstate) (accs : gmap Address BaseAccount) (p : Z) (a : Address) (c : Coins) (err : sdkError) : Prop :=
  match gs_props G !! p with
  | None => err = GovErrors.ErrUnknownProposal cs p
  | Some t =>
      (~ is_open t /\ err = GovErrors.ErrAlreadyFinishedProposal cs p) \/
      (is_open t /\ (exists d, amt (coins_at accs a) d < amt c d) /\ Result_IsOK (err_Result err) = false)
  end.

Lemma is_open_dec t :
  negb (tp_Status t =? StatusDepositPeriod) && negb (tp_Status t =? StatusVotingPeriod) = bool_decide (~ is_open t).
Proof.
  unfold is_open. destruct (Z.eqb_spec (tp_Status t) StatusDepositPeriod), (Z.eqb_spec (tp_Status t) StatusVotingPeriod);
    symmetry; simpl; rewrite ?bool_decide_eq_true, ?bool_decide_eq_false; naive_solver.
Qed.

Lemma deposit_record_spec {A : Type} st accs G p a c (x : A) (Q : A -> stores -> Prop) :
  world st accs G -> is_int64 p -> coins_ok c -> (forall key r, gs_deps G !! key = Some r -> coins_ok (dp_Amount r)) ->
  (forall own st', Plus (own_deposit G p a) c = Ok own ->
     world st' accs (with_deps G (<[(p, a) := mk_Deposit a p own]> (gs_deps G))) -> Q x st') ->
  pspec m (currDeposit ← GetDeposit keeper ctx p a;
           (match currDeposit with
           | None => setDeposit keeper ctx p a (mk_Deposit a p c)
           | Some currDeposit =>
               amount ← lift (Plus (dp_Amount currDeposit) c);
               setDeposit keeper ctx p a (mk_Deposit (dp_Depositer currDeposit) (dp_ProposalID currDeposit) amount)
            end);; mret x) st Q overflows.
Proof.
  intros Hw Hp (Hc1 & Hc2 & Hc3) Hdeps HQ. apply pspec_bind. eapply GetDeposit_spec; [done|]. intros Hd.
  unfold own_deposit in HQ. apply pspec_bind. destruct (gs_deps G !! (p, a)) as [r|] eqn:Er.
  - destruct (Hd r eq_refl) as ((_ & Hrw) & -> & ->). apply lift_Plus. intros own Hown.
    apply (setDeposit_spec keeper ctx st0 Hkeys st accs G (mk_Deposit a p own)); [done| |].
    + split; [done|]. exact (Plus_amounts_wf _ _ _ Hrw Hc3 Hown).
    + intros st' Hw'. apply pspec_ret. by eapply HQ.
  - apply (setDeposit_spec keeper ctx st0 Hkeys st accs G (mk_Deposit a p c)); [done|done|].
    intros st' Hw'. apply pspec_ret. eapply HQ; [|done]. simpl. by rewrite Plus_nil_l.
Qed.

Lemma AddDeposit_spec st accs G p a c (Q : option sdkError * bool -> stores -> Prop) :
  world st accs G -> coins_ok c ->
  (forall key r, gs_deps G !! key = Some r -> coins_ok (dp_Amount r)) ->
  (forall p t, gs_props G !! p = Some t -> coins_ok (tp_TotalDeposit t)) ->
  (forall err, deposit_refused G accs p a c err -> Q (Some err, false) st) ->
  (forall t accs' total own st',
     let act := (tp_Status t =? StatusDepositPeriod) && minimum total in
     gs_props G !! p = Some t -> is_open t ->
     transfer accs accs' (fun b d => if decide (b = a) then - amt c d else 0) (fun d => - amt c d) ->
     Plus (tp_TotalDeposit t) c = Ok total -> Plus (own_deposit G p a) c = Ok own ->
     world st' accs' (deposited h G p a t total own act) -> Q (None, act) st') ->
  pspec m (AddDeposit keeper ctx p a c) st Q overflows.
Proof.
  intros Hw Hc Hdeps Hprops HQe HQ. apply pspec_bind. eapply GetProposal_spec; [done|]. intros Ht.
  unfold deposit_refused in HQe. destruct (gs_props G !! p) as [t|] eqn:Et; [|apply pspec_ret; by apply HQe].
  destruct (Ht t eq_refl) as [Hwf Hid]. rewrite is_open_dec. case_bool_decide as Ho; [apply pspec_ret, HQe; by left|].
  assert (Hop : is_open t) by (unfold is_open in *; destruct (Z.eq_dec (tp_Status t) StatusDepositPeriod), (Z.eq_dec (tp_Status t) StatusVotingPeriod); tauto).
  destruct (w_auth _ _ _ _ _ Hw) as [n Hn].
  apply pspec_bind. eapply pspec_mono; [apply (subtractCoins_spec ctx am st accs n a c overflows); [exact Hn|apply Hw|done]| |done].
  intros [[nc tags] err] st1 Hpost. cbv beta iota. unfold move_post, moved_post in Hpost. simpl in Hpost.
  destruct err as [err|]; [apply pspec_ret; destruct Hpost as ([d Hd] & Herr & ->); apply HQe; right; split_and!; [done|exists d; lia|done]|].
  destruct Hpost as (accs1 & n1 & Hst1 & Hok1 & Hf1 & Htr).
  pose proof (world_bank keeper st0 Hkeys _ _ _ _ _ _ Hw Hst1 Hok1 Hf1) as Hw1.
  apply lift_Plus. intros total Htot. cbv zeta.
  pose proof (Plus_ok _ _ _ (Hprops _ _ Et) Hc Htot) as Htok.
  apply pspec_bind. eapply SetProposal_spec; [done|exact Hw1|by destruct Hwf; constructor; [..|apply Htok|]|].
  change (tp_ProposalID (SetTotalDeposit t total)) with (tp_ProposalID t). rewrite Hid. intros st2 Hw2.
  eapply (pspec_call _ _ _ _ (fun tipped st' => st' = st2 /\ tipped = (tp_Status t =? StatusDepositPeriod) && minimum total)).
  { change (tp_Status (SetTotalDeposit t total)) with (tp_Status t).
    destruct (tp_Status t =? StatusDepositPeriod); [|by apply pspec_ret]. apply pspec_lift.
    - intros b Hb. split; [done|]. by apply IsGTE_minimum.
    - intros q. unfold IsGTE. destruct (Minus _ _) eqn:Em; cbn; [by case_match|]. intros [= <-]. by apply Plus_panics in Em. }
  intros tipped st' [-> Htip]. specialize (HQ t). cbv zeta in HQ.
  eapply (pspec_call _ _ _ _ (fun act st' => act = tipped /\
    world st' accs1 (mk_gstate (gs_next G) (<[p := funded h t total tipped]> (gs_props G)) (gs_deps G) (gs_votes G)
      (if tipped then gs_active G ++ [p] else gs_active G) (gs_inactive G)))).
  { destruct tipped; [|by apply pspec_ret]. apply pspec_bind. apply pspec_bind.
    eapply SetProposal_spec; [done|exact Hw2|by destruct Hwf; constructor; [..|apply Htok|]|].
    cbn [tp_ProposalID SetStatus SetVotingStartBlock SetTotalDeposit]. rewrite Hid. intros st3 Hw3.
    apply pspec_bind. eapply (QueuePush_spec keeper ctx st0 Hkeys _ _ _ true); [exact Hw3|apply Hwf|]. intros st4 Hw4.
    apply pspec_ret, pspec_ret. split; [done|].
    cbn -[insert] in Hw4. rewrite Hid, insert_insert_eq in Hw4. exact Hw4. }
  intros act st3 [-> Hw3].
  eapply deposit_record_spec; [exact Hw3|rewrite <- Hid; apply Hwf|done|exact Hdeps|].
  intros own st4 Hown Hw4. subst tipped.
  eapply HQ; [reflexivity|exact Hop| |exact Htot|exact Hown|exact Hw4].
  eapply transfer_ext; [| |exact Htr]; intros; cbv beta; [case_decide|]; lia.
Qed.

(** ** Submitting and voting *)

Lemma world_prop st accs G p t : world st accs G -> gs_props G !! p = Some t -> proposal_wf t /\ tp_ProposalID t = p.
Proof.
  intros [_ _ (s & Hs & Hr) _] Ht. split; [|by eapply r_prop_id]. pose proof (r_props _ _ Hr p) as Hh. rewrite Ht in Hh.
  destruct (holds_Some _ _ _ Hh) as (bz & _ & Ed). by eapply Proposal_decoded.
Qed.

(** The identifiers are not exhausted. *)
Definition ids_left (G : gstate) : Prop := exists n, gs_next G = Some n /\ n + 1 < 2 ^ 63.

Lemma NewTextProposal_spec st accs G title desc kind (Q : option TextProposal -> stores -> Prop) (E : panic_value -> Prop) :
  world st accs G -> ids_left G -> is_byte kind ->
  (forall n st', let t := mk_TextProposal n title desc kind StatusDepositPeriod h [] (-1) in
     gs_next G = Some n -> world st' accs (submitted h G n t) -> Q (Some t) st') ->
  pspec m (NewTextProposal keeper ctx title desc kind) st Q E.
Proof.
  intros Hw (n & Hn & Hlt) Hk HQ. apply pspec_bind. eapply getNewProposalID_spec; [done|exact Hw|]. rewrite Hn.
  intros Hi st1 Hw1. set (t := mk_TextProposal n title desc kind StatusDepositPeriod h [] (-1)).
  apply pspec_bind. eapply SetProposal_spec; [done|exact Hw1| |].
  { constructor; simpl; [done|done|by unfold is_byte, StatusDepositPeriod|done|constructor|by unfold is_int64]. }
  intros st2 Hw2. apply pspec_bind. eapply (QueuePush_spec keeper ctx st0 Hkeys _ _ _ false); [exact Hw2|done|].
  intros st3 Hw3. apply pspec_ret. apply HQ; [done|].
  rewrite wrap64_id in Hw3 by (unfold is_int64, min_int64, max_int64 in *; lia). exact Hw3.
Qed.

(** Why a vote is refused. *)
Definition vote_refused (G : gstate) (p : Z) (opt : VoteOption) (err : sdkError) : Prop :=
  match gs_props G !! p with
  | None => err = GovErrors.ErrUnknownProposal cs p
  | Some t =>
      if decide (tp_Status t = StatusVotingPeriod)
      then validVoteOption opt = false /\ err = GovErrors.ErrInvalidVote cs (VoteOptionToString opt)
      else err = GovErrors.ErrInactiveProposal cs p
  end.

Definition voted (G : gstate) (p : Z) (a : Address) (opt : VoteOption) : gstate :=
  with_votes G (<[(p, a) := mk_Vote a p opt]> (gs_votes G)).

Lemma AddVote_spec st accs G p a opt (Q : option sdkError -> stores -> Prop) (E : panic_value -> Prop) :
  world st accs G ->
  (forall err, vote_refused G p opt err -> Q (Some err) st) ->
  (forall t st', gs_props G !! p = Some t -> tp_Status t = StatusVotingPeriod -> validVoteOption opt = true ->
     world st' accs (voted G p a opt) -> Q None st') ->
  pspec m (AddVote keeper ctx p a opt) st Q E.
Proof.
  intros Hw HQe HQ. apply pspec_bind. eapply GetProposal_spec; [exact Hw|]. intros Ht. unfold vote_refused in HQe.
  destruct (gs_props G !! p) as [t|] eqn:Et; [|apply pspec_ret; by apply HQe]. destruct (Ht t eq_refl) as [Hwf Hid].
  destruct (Z.eqb_spec (tp_Status t) StatusVotingPeriod) as [Hs|Hs]; simpl negb; cbv iota.
  2:{ apply pspec_ret, HQe. by rewrite decide_False. }
  assert (Hv : negb (opt =? OptionYes) && negb (opt =? OptionAbstain) && negb (opt =? OptionNo) && negb (opt =? OptionNoWithVeto) =
    negb (validVoteOption opt)) by (unfold validVoteOption; by rewrite !negb_orb).
  rewrite Hv. destruct (validVoteOption opt) eqn:Eo; simpl negb; cbv iota; [|apply pspec_ret, HQe; by rewrite decide_True].
  apply pspec_bind. apply (setVote_spec keeper ctx st0 Hkeys st accs G (mk_Vote a p opt)); [done| |].
  - split; [by rewrite <- Hid; apply Hwf|]. simpl. unfold is_byte. revert Eo. unfold validVoteOption.
    repeat rewrite orb_true_iff. rewrite !Z.eqb_eq. unfold OptionYes, OptionAbstain, OptionNo, OptionNoWithVeto. lia.
  - intros st' Hw'. apply pspec_ret. by eapply HQ.
Qed.

Lemma voted_inv G p a opt : gov_inv h G -> gov_inv h (voted G p a opt).
Proof. by intros [R1 R2 R3 R4 R5 R6 R7 R8]. Qed.

(** ** Identifiers and tags of the results *)

Lemma world_fits st accs G : world st accs G -> forall p t, gs_props G !! p = Some t -> exists bz, MarshalIDBare p = Some bz.
Proof. intros Hw p t Ht. destruct (world_prop _ _ _ _ _ Hw Ht) as [Hwf <-]. apply IDBare_total, Hwf. Qed.

Lemma IDBare_spec {A : Type} p bz (f : bytes -> prog A) st (Q : A -> stores -> Prop) (E : panic_value -> Prop) :
  MarshalIDBare p = Some bz -> pspec m (f bz) st Q E ->
  pspec m (bz ← lift (must_marshal MarshalIDBare p); f bz) st Q E.
Proof. intros Hb Hf. apply pspec_bind, pspec_lift; unfold must_marshal; rewrite Hb; [|done]. by intros ? [= <-]. Qed.

Lemma tags_spec {A : Type} args ts (f : Tags -> prog A) st (Q : A -> stores -> Prop) (E : panic_value -> Prop) :
  NewTags args = Ok ts -> pspec m (f ts) st Q E -> pspec m (ts ← lift (NewTags args); f ts) st Q E.
Proof. intros -> Hf. apply pspec_bind, pspec_lift; [|done]. by intros ? [= <-]. Qed.
End deposits.
