(* ===== verification/GovTally.v ===== *)
(** * The tally

    What tally.go computes, as a function of the bonded validators, the
    delegations of the voters and the votes; the interface by which it is told
    of them ([Delegations]); and that it counts as a reference definition
    does: every option has the power of the delegations voting for it and of
    the validators' shares whose delegators did not vote themselves. *)
From Stdlib Require Import Strings.Byte Strings.String.
From S2P Require Import Prelude Int Rational Errors Coin KVStore MultiStore Account Context ProgLogic Auth Records Ante Bank.
From S2P Require Import Pool Validator StakeKey StakeKeeper GovTypes GovKeeper GovRep.
From Stdlib Require Import QArith Qreduction Lqa.
#[local] Open Scope string_scope.
#[local] Open Scope list_scope.
#[local] Open Scope Z_scope.

(** ** The tally as a function *)

Fixpoint foldO {A S : Type} (f : A -> S -> outcome S) (l : list A) (s : S) : outcome S :=
  match l with [] => Ok s | a :: l => s ← f a s; foldO f l s end.

Lemma foldO_app {A S : Type} (f : A -> S -> outcome S) l1 l2 s :
  foldO f (l1 ++ l2) s = (s ← foldO f l1 s; foldO f l2 s).
Proof. revert s. induction l1 as [|a l1 IH]; intros s; simpl; [done|]. destruct (f a s); simpl; [apply IH|done]. Qed.

Section tally_of.
Context `{Crypto}.

Definition hex_owner (v : sdk_Validator) : string := HexString (sv_GetOwner v).
Definition recorded (v : sdk_Validator) : validatorGovInfo :=
  mk_validatorGovInfo (sv_GetOwner v) (sv_GetPower v) (sv_GetDelegatorShares v) Rat.ZeroRat OptionEmpty.
Definition record_all (vals : list sdk_Validator) (m : gmap string validatorGovInfo) : gmap string validatorGovInfo :=
  foldl (fun m v => <[hex_owner v := recorded v]> m) m vals.

(** A vote: a validator's is noted, another's is spread over its delegations. *)
Definition count_vote (dels : Address -> list sdk_Delegation) (v : Vote) (ta : tallied) : outcome tallied :=
  match ta_currValidators ta !! HexString (vt_Voter v) with
  | Some val =>
      Ok (mk_tallied (ta_results ta) (ta_totalVotingPower ta)
        (<[HexString (vt_Voter v) := mk_validatorGovInfo (vi_Address val) (vi_Power val) (vi_DelegatorShares val)
             (vi_Minus val) (vt_Option v)]> (ta_currValidators ta)))
  | None => foldO (tally_delegation (vt_Option v)) (dels (vt_Voter v)) ta
  end.

Definition tally_of (order : list validatorGovInfo -> list validatorGovInfo) (vals : list sdk_Validator)
    (dels : Address -> list sdk_Delegation) (votes : list Vote) : outcome (bool * list Address) :=
  ta ← foldO (count_vote dels) votes (mk_tallied tally_results Rat.ZeroRat (record_all vals ∅));
  tally_result order ta.

(** ** The interface to the staking module

    On every store that agrees with [st0] but for governance and accounts, the
    iterations run their body over the bonded validators and the delegations. *)
Definition only_two (k1 k2 : StoreKey) (st0 st : stores) : Prop := forall k, k <> k1 -> k <> k2 -> st !! k = st0 !! k.

(** The loop over a list, with a body that does not touch the stores. *)
Fixpoint run_list {V S : Type} (g : V -> S -> outcome (bool * S)) (l : list V) (s : S) : outcome S :=
  match l with
  | [] => Ok s
  | v :: l => '(stop, s) ← g v s; if (stop : bool) then Ok s else run_list g l s
  end.

Class Delegations (ds : DelegationSet) (ctx : Ctx) (k1 k2 : StoreKey) (st0 : stores)
    (vals : list sdk_Validator) (dels : Address -> list sdk_Delegation) : Prop := {
  serves_bonded : forall (S : Type) (fn : Z -> sdk_Validator -> S -> prog (bool * S)) g (s : S) st
      (Q : S -> stores -> Prop) (E : panic_value -> Prop),
    only_two k1 k2 st0 st -> E out_of_memory -> (forall i v s, fn i v s = lift (g v s)) ->
    (forall s', run_list g vals s = Ok s' -> Q s' st) -> (forall q, run_list g vals s = Panicked q -> E q) ->
    pspec (cx_GasMeter ctx) (IterateValidatorsBonded ds S ctx fn s) st Q E;
  serves_dels : forall (S : Type) (fn : Z -> sdk_Delegation -> S -> prog (bool * S)) g (s : S) a st
      (Q : S -> stores -> Prop) (E : panic_value -> Prop),
    only_two k1 k2 st0 st -> E out_of_memory -> (forall i v s, fn i v s = lift (g v s)) ->
    (forall s', run_list g (dels a) s = Ok s' -> Q s' st) -> (forall q, run_list g (dels a) s = Panicked q -> E q) ->
    pspec (cx_GasMeter ctx) (IterateDelegations ds S ctx a fn s) st Q E
}.

Lemma run_list_fold {V S : Type} (f : V -> S -> outcome S) l s :
  run_list (fun v s => s ← f v s; Ok (false, s)) l s = foldO f l s.
Proof. revert s. induction l as [|v l IH]; intros s; simpl; [done|]. destruct (f v s); simpl; [apply IH|done]. Qed.

Lemma run_list_record vals m :
  run_list (fun v m => Ok (false, <[hex_owner v := recorded v]> m)) vals m = Ok (record_all vals m).
Proof. revert m. induction vals as [|v vals IH]; intros m; simpl; [done|]. apply IH. Qed.
End tally_of.

(** ** The program computes the function *)

Section program.
Context `{HCL : CodecLaws} `{HGC : GovCodecLaws} `{HAF : AddrFmtLaws} (keeper : Keeper) (ctx : Ctx) (st0 : stores).
Context (vals : list sdk_Validator) (dels : Address -> list sdk_Delegation).
Context (order : list validatorGovInfo -> list validatorGovInfo).
Context `{HDL : !Delegations (gk_ds keeper) ctx (gk_storeKey keeper) (am_key (gk_ck keeper)) st0 vals dels}.
Abbreviation m := (cx_GasMeter ctx).
Abbreviation gkey := (gk_storeKey keeper).
Abbreviation world := (world keeper st0).
Hypothesis Hkeys : am_key (gk_ck keeper) <> gkey.

(** The votes of a proposal, all removed. *)
Definition remove_all {R : Type} (p : Z) (l : list Address) (M : gmap (Z * Address) R) : gmap (Z * Address) R :=
  foldl (fun M a => delete (p, a) M) M l.

Lemma remove_all_lookup {R : Type} (p : Z) (l : list Address) (M : gmap (Z * Address) R) (q : Z) (a : Address) :
  remove_all p l M !! (q, a) = if decide (q = p /\ a ∈ l) then None else M !! (q, a).
Proof.
  revert M. induction l as [|b l IH]; intros M; simpl.
  - rewrite decide_False; [done|]. by intros [_ ?%not_elem_of_nil].
  - rewrite IH. destruct (decide (q = p /\ a ∈ l)) as [[-> Ha]|Hd].
    + rewrite decide_True; [done|]. split; [done|by right].
    + destruct (decide (q = p /\ a ∈ b :: l)) as [[-> [-> |Ha]%elem_of_cons]|Hd'].
      * apply lookup_delete_eq.
      * by exfalso; apply Hd.
      * rewrite lookup_delete_ne; [done|]. intros [= <- <-]. apply Hd'. split; [done|by left].
Qed.

(** Nothing else happens to a listed proposal's records. *)
Lemma remove_all_listed {R : Type} (kind : string) (f : bytes -> option R) (p : Z) (M : gmap (Z * Address) R)
    (entries : list (slice * slice)) (l : list (Address * R)) :
  listed kind f p M entries l -> remove_all p l.*1 M = filter (fun kv => kv.1.1 <> p) M.
Proof.
  intros (_ & Hin & _). apply map_eq. intros [q a]. rewrite remove_all_lookup. case_decide as Hd.
  - destruct Hd as [-> _]. symmetry. apply map_lookup_filter_None. right. intros r _. simpl. tauto.
  - symmetry. destruct (M !! (q, a)) as [r|] eqn:Er; [|apply map_lookup_filter_None; by left].
    apply map_lookup_filter_Some. split; [done|]. simpl. intros ->. apply Hd. split; [done|].
    apply list_elem_of_fmap. exists (a, r). split; [done|by apply Hin].
Qed.

Lemma tally_vote_spec st accs G p e a v ta (Q : tallied -> stores -> Prop) (E : panic_value -> Prop) :
  world st accs G -> entry_for "votes:" UnmarshalVote p e (a, v) -> vt_ProposalID v = p -> vt_Voter v = a -> E out_of_memory ->
  (forall ta' st', count_vote dels v ta = Ok ta' -> world st' accs (with_votes G (delete (p, a) (gs_votes G))) -> Q ta' st') ->
  (forall q, count_vote dels v ta = Panicked q -> E q) ->
  pspec m (tally_vote keeper ctx e ta) st Q E.
Proof.
  intros Hw [E1 (bz & E2 & E3)] Hp Ha HE HQ HP. unfold tally_vote. apply pspec_bind, pspec_bind, pspec_iter_Value.
  rewrite E2. apply pspec_lift; unfold must_unmarshal; rewrite E3; [|done]. intros v' [= <-].
  cbn [snd] in *. unfold count_vote in *.
  eapply (pspec_call _ _ _ _ (fun ta' st' => count_vote dels v ta = Ok ta' /\ st' = st)); unfold count_vote.
  - destruct (ta_currValidators ta !! HexString (vt_Voter v)) as [val|]; [by apply pspec_ret|].
    eapply (serves_dels _ _ (fun d ta => ta ← tally_delegation (vt_Option v) d ta; Ok (false, ta)));
      [intros k R1 R2; by apply (w_frame _ _ _ _ _ Hw)|done|intros i d s; by destruct (tally_delegation _ d s)| |];
      rewrite run_list_fold; [done|exact HP].
  - intros ta' st' [Hta ->]. apply pspec_bind. rewrite Hp, Ha. eapply deleteVote_spec; [done|exact Hw|].
    intros st1 Hw1. apply pspec_ret. rewrite Ha in Hta, HQ. by apply HQ.
Qed.

Lemma tally_votes_spec entries l st accs G p ta (Q : tallied -> stores -> Prop) (E : panic_value -> Prop) :
  world st accs G -> Forall2 (entry_for "votes:" UnmarshalVote p) entries l ->
  Forall (fun av => vt_ProposalID av.2 = p /\ vt_Voter av.2 = av.1) l -> E out_of_memory ->
  (forall ta' st', foldO (count_vote dels) l.*2 ta = Ok ta' ->
     world st' accs (with_votes G (remove_all p l.*1 (gs_votes G))) -> Q ta' st') ->
  (forall q, foldO (count_vote dels) l.*2 ta = Panicked q -> E q) ->
  pspec m (tally_votes keeper ctx entries ta) st Q E.
Proof.
  intros Hw Hl. revert st G ta Hw. induction Hl as [|e [a v] entries l He _ IH]; intros st G ta Hw Hids HE HQ HP.
  - apply pspec_ret. apply HQ; [done|]. by destruct G.
  - inversion Hids as [|? ? [Hp Ha] Hids']; subst. cbn [snd fst] in *. cbn [tally_votes]. apply pspec_bind.
    eapply tally_vote_spec; [exact Hw|exact He|done|done|done| |].
    + intros ta' st' Hta Hw'. cbn [fmap list_fmap foldO snd fst] in HQ, HP. rewrite Hta in HQ, HP. cbn in HQ, HP.
      eapply IH; [exact Hw'|done|done| |exact HP]. intros ta2 st2 R1 R2. by apply HQ.
    + intros q Hq. apply HP. cbn [fmap list_fmap foldO snd]. by rewrite Hq.
Qed.

Lemma tally_spec st accs G t (Q : bool * list Address -> stores -> Prop) (E : panic_value -> Prop) :
  world st accs G -> E out_of_memory ->
  (forall entries l, listed "votes:" UnmarshalVote (tp_ProposalID t) (gs_votes G) entries l ->
     (forall r st', tally_of order vals dels l.*2 = Ok r ->
        world st' accs (with_votes G (filter (fun kv => kv.1.1 <> tp_ProposalID t) (gs_votes G))) -> Q r st') /\
     (forall q, tally_of order vals dels l.*2 = Panicked q -> E q)) ->
  pspec m (tally keeper ctx order t) st Q E.
Proof.
  intros Hw HE HQ. apply pspec_bind.
  eapply (serves_bonded _ _ (fun v mp => Ok (false, <[hex_owner v := recorded v]> mp)));
    [intros k R1 R2; by apply (w_frame _ _ _ _ _ Hw)|done|done| |]; rewrite run_list_record; [|done]. intros mp [= <-].
  apply pspec_bind. eapply GetVotes_spec; [exact Hw|done|]. intros entries l Hl. destruct (HQ _ _ Hl) as [HQ1 HQ2].
  unfold tally_of in *. apply pspec_bind. pose proof Hl as (Hnd & Hin & Hf).
  eapply tally_votes_spec; [exact Hw|exact Hf| |done| |].
  - apply Forall_forall. intros [a v] Hav%Hin. destruct (w_gov _ _ _ _ _ Hw) as (s & _ & Hr). by eapply r_vote_id.
  - intros ta st' Hta Hw'. rewrite Hta in HQ1, HQ2. cbn in HQ1, HQ2. rewrite (remove_all_listed _ _ _ _ _ _ Hl) in Hw'.
    apply pspec_lift; [|done]. intros r Hr. by apply HQ1.
  - intros q Hq. apply HQ2. by rewrite Hq.
Qed.
End program.
