(* ===== verification/GovCount.v ===== *)
(** * What the tally counts

    A reference definition of a vote's outcome, on rationals: the power of an
    option is that of the delegations of the voters who are not validators and
    of the shares of the validators voting for it that no such voter holds.
    The tally's loops over maps and delegations compute it, each validator's
    power is counted at most once, and a voter with a delegation to a validator
    that is not bonded makes it panic. *)
From Stdlib Require Import Strings.Byte Strings.String.
From S2P Require Import Prelude Int Rational Errors Coin KVStore MultiStore Account Context ProgLogic Auth Records Ante Bank.
From S2P Require Import Pool Validator StakeKey StakeKeeper GovTypes GovKeeper GovRep GovTally.
From Stdlib Require Import QArith Qreduction Lqa.
#[local] Open Scope string_scope.
#[local] Open Scope list_scope.
#[local] Open Scope Z_scope.

(** ** Sums of rationals *)

Definition sumQ {A : Type} (f : A -> Q) (l : list A) : Q := foldr (fun a q => (f a + q)%Q) 0%Q l.

Lemma sumQ_zero {A : Type} (l : list A) : (sumQ (fun _ => 0) l == 0)%Q.
Proof. induction l as [|a l IH]; simpl; [reflexivity|]. rewrite IH. ring. Qed.
Lemma sumQ_add {A : Type} (f g : A -> Q) l : (sumQ (fun a => f a + g a) l == sumQ f l + sumQ g l)%Q.
Proof. induction l as [|a l IH]; simpl; [ring|]. rewrite IH. ring. Qed.
Lemma sumQ_ext {A : Type} (f g : A -> Q) l : (forall a, a ∈ l -> (f a == g a)%Q) -> (sumQ f l == sumQ g l)%Q.
Proof.
  induction l as [|a l IH]; intros Hf; simpl; [reflexivity|]. rewrite Hf by left. rewrite IH; [reflexivity|].
  intros b Hb. apply Hf. by right.
Qed.
Lemma sumQ_perm {A : Type} (f : A -> Q) l l' : l ≡ₚ l' -> (sumQ f l == sumQ f l')%Q.
Proof. induction 1; simpl; [reflexivity|by rewrite IHPermutation|ring|by etransitivity]. Qed.
Lemma sumQ_fmap {A B : Type} (f : B -> Q) (g : A -> B) (l : list A) : sumQ f (g <$> l) = sumQ (fun a => f (g a)) l.
Proof. induction l as [|a l IH]; [done|]. rewrite fmap_cons. simpl. by rewrite IH. Qed.
Lemma sumQ_scale {A : Type} (f : A -> Q) c l : (sumQ (fun a => c * f a) l == c * sumQ f l)%Q.
Proof. induction l as [|a l IH]; simpl; [ring|]. rewrite IH. ring. Qed.
Lemma sumQ_swap {A B : Type} (f : A -> B -> Q) l l' :
  (sumQ (fun a => sumQ (f a) l') l == sumQ (fun b => sumQ (fun a => f a b) l) l')%Q.
Proof. induction l as [|a l IH]; simpl; [by rewrite sumQ_zero|]. by rewrite sumQ_add, IH. Qed.
Lemma sumQ_le {A : Type} (f g : A -> Q) l : (forall a, a ∈ l -> (f a <= g a)%Q) -> (sumQ f l <= sumQ g l)%Q.
Proof.
  induction l as [|a l IH]; intros Hf; simpl; [lra|]. assert (f a <= g a)%Q by (apply Hf; by left).
  assert (sumQ f l <= sumQ g l)%Q by (apply IH; intros b Hb; apply Hf; by right). lra.
Qed.
(** One summand of a list whose keys are distinct. *)
Lemma sumQ_single {A : Type} (k : A -> string) (f : A -> Q) l a :
  NoDup (k <$> l) -> a ∈ l -> (sumQ (fun b => if decide (k a = k b) then f b else 0) l == f a)%Q.
Proof.
  induction l as [|b l IH]; intros Hnd Ha; [by apply not_elem_of_nil in Ha|]. rewrite fmap_cons in Hnd.
  apply NoDup_cons in Hnd as [Hb Hnd]. simpl. apply elem_of_cons in Ha as [->|Ha].
  - rewrite decide_True by done. rewrite (sumQ_ext _ (fun _ => 0%Q)); [rewrite sumQ_zero; ring|].
    intros c Hc. rewrite decide_False; [reflexivity|]. intros E. apply Hb. rewrite E. by apply list_elem_of_fmap_2.
  - rewrite decide_False; [rewrite IH by done; ring|]. intros E. apply Hb. rewrite <- E. by apply list_elem_of_fmap_2.
Qed.
Lemma sumQ_nonneg {A : Type} (f : A -> Q) l : (forall a, a ∈ l -> (0 <= f a)%Q) -> (0 <= sumQ f l)%Q.
Proof.
  induction l as [|a l IH]; intros Hf; simpl; [lra|]. assert (0 <= f a)%Q by (apply Hf; by left).
  assert (0 <= sumQ f l)%Q by (apply IH; intros b Hb; apply Hf; by right). lra.
Qed.

(** ** The reference *)

Section reference.
Context `{Crypto} (vals : list sdk_Validator) (dels : Address -> list sdk_Delegation).

Definition hex_validator (d : sdk_Delegation) : string := HexString (sd_GetValidator d).
Definition keys : list string := hex_owner <$> vals.
Definition is_validator (a : Address) : bool := bool_decide (HexString a ∈ keys).

(** The votes of those who are not bonded validators. *)
Definition direct (votes : list Vote) : list Vote := filter (fun v => is_validator (vt_Voter v) = false) votes.

(** What [q] shares of the validator [w] are worth, and a delegation. *)
Definition share_power (w : sdk_Validator) (q : Q) : Q := (sv_GetPower w * (q / sv_GetDelegatorShares w))%Q.
Definition shares_in (d : sdk_Delegation) (w : sdk_Validator) : Q :=
  if decide (hex_validator d = hex_owner w) then sd_GetBondShares d else 0%Q.
Definition del_power (d : sdk_Delegation) : Q := sumQ (fun w => share_power w (shares_in d w)) vals.

(** The shares of [w] that voters hold themselves; the option [w] votes for. *)
Definition direct_shares (votes : list Vote) (w : sdk_Validator) : Q :=
  sumQ (fun v => sumQ (fun d => shares_in d w) (dels (vt_Voter v))) (direct votes).
Definition next_vote (w : sdk_Validator) (o : VoteOption) (v : Vote) : VoteOption :=
  if decide (HexString (vt_Voter v) = hex_owner w) then vt_Option v else o.
Definition voted_for (votes : list Vote) (w : sdk_Validator) : VoteOption := foldl (next_vote w) OptionEmpty votes.

(** The power of option [o]: of delegations, and of validators. *)
Definition option_power (votes : list Vote) (o : VoteOption) : Q :=
  (sumQ (fun v => if decide (vt_Option v = o) then sumQ del_power (dels (vt_Voter v)) else 0%Q) (direct votes) +
   sumQ (fun w => if decide (voted_for votes w = o) then share_power w (sv_GetDelegatorShares w - direct_shares votes w) else 0%Q) vals)%Q.

Definition four (f : VoteOption -> Q) : Q := (f OptionYes + f OptionAbstain + f OptionNo + f OptionNoWithVeto)%Q.

(** The decision: some power does not abstain, at most a third of all power
    vetoes, and more than half of the power that does not abstain is for it. *)
Definition decision (f : VoteOption -> Q) : Prop :=
  ~ (four f == f OptionAbstain)%Q /\ (f OptionNoWithVeto / four f <= 1 # 3)%Q /\
  (1 # 2 < f OptionYes / (four f - f OptionAbstain))%Q.

(** What the staking module and the votes have to satisfy. *)
Record tally_input (votes : list Vote) : Prop := mk_tally_input {
  ti_vals : NoDup keys;
  ti_power : forall w, w ∈ vals -> (0 <= sv_GetPower w)%Q /\ (0 < sv_GetDelegatorShares w)%Q;
  ti_votes : forall v, v ∈ votes -> validVoteOption (vt_Option v) = true;
  ti_bonded : forall v d, v ∈ direct votes -> d ∈ dels (vt_Voter v) -> hex_validator d ∈ keys /\ (0 <= sd_GetBondShares d)%Q;
  ti_shares : forall w, w ∈ vals -> (direct_shares votes w <= sv_GetDelegatorShares w)%Q
}.

(** ** The tally's variables *)

(** The results are [R], the shares counted directly [D], the validators'
    votes [V]. *)
Record tally_rep (ta : tallied) (R : VoteOption -> Q) (D : sdk_Validator -> Q) (V : sdk_Validator -> VoteOption) : Prop := {
  tr_results : forall o, validVoteOption o = true -> exists r, ta_results ta !! o = Some r /\ (r == R o)%Q;
  tr_power : (ta_totalVotingPower ta == four R)%Q;
  tr_keys : forall k, is_Some (ta_currValidators ta !! k) <-> k ∈ keys;
  tr_vals : forall w, w ∈ vals -> exists vi, ta_currValidators ta !! hex_owner w = Some vi /\ vi_Address vi = sv_GetOwner w /\
    vi_Power vi = sv_GetPower w /\ vi_DelegatorShares vi = sv_GetDelegatorShares w /\ (vi_Minus vi == D w)%Q /\ vi_Vote vi = V w
}.

Lemma tally_rep_ext ta R R' D D' V V' :
  tally_rep ta R D V -> (forall o, validVoteOption o = true -> (R o == R' o)%Q) -> (forall w, (D w == D' w)%Q) ->
  (forall w, w ∈ vals -> V w = V' w) -> tally_rep ta R' D' V'.
Proof.
  intros [R1 R2 R3 R4] HR HD HV. constructor; [|rewrite R2; unfold four; by rewrite !HR by done|done|].
  - intros o Ho. destruct (R1 o Ho) as (r & ? & E). exists r. split; [done|]. by rewrite E, HR.
  - intros w Hw. destruct (R4 w Hw) as (vi & ? & ? & ? & ? & E & ?). exists vi. rewrite <- HV by done. split_and!; try done. by rewrite E, HD.
Qed.

Definition add_at {A : Type} `{EqDecision A} (f : A -> Q) (a : A) (q : Q) : A -> Q := fun b => (f b + if decide (a = b) then q else 0)%Q.

Lemma four_add R o q : validVoteOption o = true -> (four (add_at R o q) == four R + q)%Q.
Proof.
  unfold validVoteOption. repeat rewrite orb_true_iff. rewrite !Z.eqb_eq. intros [[[-> | ->] | ->] | ->];
    unfold four, add_at; repeat (case_decide; try done); ring.
Qed.

(** A step of the tally from [ta], whose effect on the variables is known. *)
Definition steps_to (o : outcome tallied) (R : VoteOption -> Q) (D : sdk_Validator -> Q) (V : sdk_Validator -> VoteOption) : Prop :=
  exists ta, o = Ok ta /\ tally_rep ta R D V.

Lemma add_power_rep ta R D V o q :
  tally_rep ta R D V -> validVoteOption o = true -> steps_to (add_power ta o q) (add_at R o q) D V.
Proof.
  intros [R1 R2 R3 R4] Ho. unfold add_power, result_of. destruct (R1 o Ho) as (r & -> & E). cbn.
  eexists. split; [reflexivity|]. constructor; cbn [ta_results ta_totalVotingPower ta_currValidators]; [| |done|done].
  - intros o' Ho'. unfold add_at. destruct (decide (o = o')) as [ <- |Hne].
    + rewrite lookup_insert_eq. eexists. split; [done|]. by rewrite Rat.Add_eq, E.
    + rewrite lookup_insert_ne by done. destruct (R1 o' Ho') as (r' & -> & E'). exists r'. split; [done|]. rewrite E'. ring.
  - by rewrite Rat.Add_eq, R2, four_add.
Qed.

Lemma Quo_nonzero q r : ~ (r == 0)%Q -> exists x, Rat.Quo q r = Ok x /\ (x == q / r)%Q.
Proof.
  intros Hr. rewrite Rat.Quo_spec. destruct (Qeq_bool r 0) eqn:E; [by apply Qeq_bool_iff in E|].
  eexists. split; [done|]. apply Qred_correct.
Qed.

Lemma elem_of_keys k : k ∈ keys <-> exists w, w ∈ vals /\ hex_owner w = k.
Proof. unfold keys. rewrite list_elem_of_fmap. naive_solver. Qed.

Hypothesis Hkeys : NoDup keys.
Hypothesis Hpos : forall w, w ∈ vals -> (0 <= sv_GetPower w)%Q /\ (0 < sv_GetDelegatorShares w)%Q.

Lemma same_key w w' : w ∈ vals -> w' ∈ vals -> hex_owner w = hex_owner w' -> w = w'.
Proof.
  intros [i Hi]%list_elem_of_lookup [j Hj]%list_elem_of_lookup E. assert (i = j) as <-; [|congruence].
  eapply (NoDup_lookup keys); [done| |]; unfold keys; rewrite list_lookup_fmap; [by rewrite Hi|by rewrite Hj, E].
Qed.

Lemma del_power_at d w : w ∈ vals -> hex_owner w = hex_validator d -> (del_power d == share_power w (sd_GetBondShares d))%Q.
Proof.
  intros Hw E. unfold del_power. rewrite <- (sumQ_single hex_owner (fun w => share_power w (sd_GetBondShares d)) vals w) by done.
  apply sumQ_ext. intros w' Hw'. unfold shares_in. rewrite E. destruct (decide _); [reflexivity|].
  unfold share_power, Qdiv. ring.
Qed.

Lemma tally_delegation_rep ta R D V o d :
  tally_rep ta R D V -> validVoteOption o = true -> hex_validator d ∈ keys ->
  steps_to (tally_delegation o d ta) (add_at R o (del_power d)) (fun w => D w + shares_in d w)%Q V.
Proof.
  intros HR Ho (w & Hw & E)%elem_of_keys. pose proof HR as [R1 R2 R3 R4]. unfold tally_delegation.
  destruct (R4 w Hw) as (vi & Hvi & A1 & A2 & A3 & A4 & A5). fold (hex_validator d). rewrite <- E, Hvi, A3.
  destruct (Quo_nonzero (sd_GetBondShares d) (sv_GetDelegatorShares w)) as (x & Hx & Ex).
  { destruct (Hpos w Hw). intros Hz. lra. }
  cbn [vi_DelegatorShares]. rewrite Hx. cbn [mbind outcome_bind vi_Power]. rewrite A2.
  eapply (add_power_rep _ R (fun w => D w + shares_in d w)%Q V o (Rat.Mul (sv_GetPower w) x)) in Ho as (ta' & Eta & HR').
  { exists ta'. split; [exact Eta|]. eapply tally_rep_ext; [exact HR'| |done|done].
    intros o' _. unfold add_at. destruct (decide _); [|done]. rewrite (del_power_at d w) by done.
    rewrite Rat.Mul_eq, Ex. reflexivity. }
  constructor; cbn [ta_results ta_totalVotingPower ta_currValidators]; [done|done| |].
  - intros k. rewrite <- R3. destruct (decide (hex_owner w = k)) as [ <- |Hne].
    + rewrite lookup_insert_eq, Hvi. split; by eexists.
    + by rewrite lookup_insert_ne.
  - intros w' Hw'. unfold shares_in. rewrite <- E. destruct (decide (hex_owner w = hex_owner w')) as [Ew|Hne].
    + apply same_key in Ew as <-; [|done|done]. rewrite lookup_insert_eq. eexists. split; [done|].
      cbn [vi_Address vi_Power vi_DelegatorShares vi_Minus vi_Vote]. split_and!; try done. by rewrite Rat.Add_eq, A4.
    + rewrite lookup_insert_ne by done. destruct (R4 w' Hw') as (vi' & ? & ? & ? & ? & E' & ?). exists vi'.
      split_and!; try done. rewrite E'. ring.
Qed.

Lemma tally_delegations_rep l ta R D V o :
  tally_rep ta R D V -> validVoteOption o = true -> (forall d, d ∈ l -> hex_validator d ∈ keys) ->
  steps_to (foldO (tally_delegation o) l ta) (add_at R o (sumQ del_power l)) (fun w => D w + sumQ (fun d => shares_in d w) l)%Q V.
Proof.
  revert ta R D. induction l as [|d l IH]; intros ta R D HR Ho Hl.
  - exists ta. split; [done|]. eapply tally_rep_ext; [exact HR| | |done]; intros; unfold add_at; simpl; [destruct (decide _)|]; ring.
  - destruct (tally_delegation_rep ta R D V o d HR Ho) as (ta1 & E1 & HR1); [apply Hl; by left|]. simpl foldO. rewrite E1. cbn [mbind outcome_bind].
    destruct (IH ta1 _ _ HR1 Ho) as (ta2 & E2 & HR2); [intros; apply Hl; by right|]. exists ta2. split; [exact E2|].
    eapply tally_rep_ext; [exact HR2| | |done]; intros; unfold add_at; simpl; [destruct (decide _)|]; ring.
Qed.

(** A vote of one who is not a validator adds its delegations. *)
Definition vote_gain (v : Vote) (o : VoteOption) : Q :=
  if is_validator (vt_Voter v) then 0%Q
  else if decide (vt_Option v = o) then sumQ del_power (dels (vt_Voter v)) else 0%Q.
Definition vote_shares (v : Vote) (w : sdk_Validator) : Q :=
  if is_validator (vt_Voter v) then 0%Q else sumQ (fun d => shares_in d w) (dels (vt_Voter v)).

Lemma tally_rep_validator ta R D V a :
  tally_rep ta R D V -> is_validator a = bool_decide (is_Some (ta_currValidators ta !! HexString a)).
Proof. intros [_ _ R3 _]. unfold is_validator. apply bool_decide_ext. by rewrite R3. Qed.

Lemma count_vote_rep ta R D V v :
  tally_rep ta R D V -> validVoteOption (vt_Option v) = true ->
  (forall d, is_validator (vt_Voter v) = false -> d ∈ dels (vt_Voter v) -> hex_validator d ∈ keys) ->
  steps_to (count_vote dels v ta) (fun o => R o + vote_gain v o)%Q (fun w => D w + vote_shares v w)%Q (fun w => next_vote w (V w) v).
Proof.
  intros HR Ho Hd. pose proof HR as [R1 R2 R3 R4]. unfold count_vote, vote_gain, vote_shares.
  pose proof (tally_rep_validator _ _ _ _ (vt_Voter v) HR) as Hv.
  destruct (ta_currValidators ta !! HexString (vt_Voter v)) as [vi|] eqn:Evi.
  - rewrite bool_decide_true in Hv by by eexists. rewrite Hv. eexists. split; [reflexivity|].
    assert (HR' : tally_rep ta (fun o => R o + 0)%Q (fun w => D w + 0)%Q V) by (eapply tally_rep_ext; [exact HR|intros; ring..|done]).
    destruct HR' as [R1' R2' _ R4'].
    constructor; cbn [ta_results ta_totalVotingPower ta_currValidators]; [done|done| |].
    + intros k. rewrite <- R3. destruct (decide (HexString (vt_Voter v) = k)) as [ <- |Hne].
      * rewrite lookup_insert_eq, Evi. split; by eexists.
      * by rewrite lookup_insert_ne.
    + intros w Hw. unfold next_vote. destruct (R4' w Hw) as (vi' & E & ?). destruct (decide _) as [Ek|Hne].
      * rewrite Ek, lookup_insert_eq. eexists. split; [done|]. rewrite <- Ek, Evi in E. injection E as ->. naive_solver.
      * rewrite lookup_insert_ne by done. by exists vi'.
  - rewrite bool_decide_false in Hv by by intros [? ?]. rewrite Hv.
    destruct (tally_delegations_rep (dels (vt_Voter v)) ta R D V (vt_Option v) HR Ho) as (ta' & E & HR'); [by intros; apply Hd|].
    exists ta'. split; [exact E|]. eapply tally_rep_ext; [exact HR'|done|done|].
    intros w Hw. unfold next_vote. destruct (decide _) as [Ek|]; [|done]. exfalso.
    revert Hv. unfold is_validator. rewrite bool_decide_eq_false, elem_of_keys. intros Hv. apply Hv. by exists w.
Qed.

Lemma count_votes_rep votes ta R D V :
  tally_rep ta R D V -> (forall v, v ∈ votes -> validVoteOption (vt_Option v) = true) ->
  (forall v d, v ∈ direct votes -> d ∈ dels (vt_Voter v) -> hex_validator d ∈ keys) ->
  steps_to (foldO (count_vote dels) votes ta) (fun o => R o + sumQ (fun v => vote_gain v o) votes)%Q
    (fun w => D w + sumQ (fun v => vote_shares v w) votes)%Q (fun w => foldl (next_vote w) (V w) votes).
Proof.
  revert ta R D V. induction votes as [|v votes IH]; intros ta R D V HR Ho Hd.
  - exists ta. split; [done|]. eapply tally_rep_ext; [exact HR|intros; simpl; ring..|done].
  - destruct (count_vote_rep ta R D V v HR) as (ta1 & E1 & HR1); [apply Ho; by left| |].
    { intros d Hv. apply Hd. unfold direct. rewrite list_elem_of_filter. split; [done|by left]. }
    simpl foldO. rewrite E1. cbn [mbind outcome_bind].
    destruct (IH ta1 _ _ _ HR1) as (ta2 & E2 & HR2); [intros; apply Ho; by right| |].
    { intros v' d Hv'. apply Hd. revert Hv'. unfold direct. rewrite !list_elem_of_filter. intros [? ?]. split; [done|by right]. }
    exists ta2. split; [exact E2|]. eapply tally_rep_ext; [exact HR2|intros; simpl; ring..|done].
Qed.

Lemma sumQ_direct f votes :
  (sumQ (fun v => if is_validator (vt_Voter v) then 0 else f v) votes == sumQ f (direct votes))%Q.
Proof.
  induction votes as [|v votes IH]; simpl; [reflexivity|]. unfold direct in *. rewrite filter_cons.
  destruct (is_validator (vt_Voter v)); simpl; rewrite IH; ring.
Qed.

Lemma record_all_lookup l mp k :
  NoDup (hex_owner <$> l) ->
  (forall w, w ∈ l -> record_all l mp !! hex_owner w = Some (recorded w)) /\
  (k ∉ hex_owner <$> l -> record_all l mp !! k = mp !! k).
Proof.
  revert mp k. induction l as [|w l IH]; intros mp k Hnd; [split; [intros w Hw; by apply not_elem_of_nil in Hw|done]|].
  rewrite fmap_cons in *. apply NoDup_cons in Hnd as [Hw Hnd]. change (record_all (w :: l) mp) with (record_all l (<[hex_owner w := recorded w]> mp)).
  split.
  - intros w' [->|Hw']%elem_of_cons; [|by apply (IH _ k Hnd)].
    destruct (IH (<[hex_owner w := recorded w]> mp) (hex_owner w) Hnd) as [_ ->]; [apply lookup_insert_eq|done].
  - rewrite not_elem_of_cons. intros [Hne Hk]. destruct (IH (<[hex_owner w := recorded w]> mp) k Hnd) as [_ ->];
      [by rewrite lookup_insert_ne|done].
Qed.

Lemma initial_rep :
  tally_rep (mk_tallied tally_results Rat.ZeroRat (record_all vals ∅)) (fun _ => 0%Q) (fun _ => 0%Q) (fun _ => OptionEmpty).
Proof.
  constructor; cbn [ta_results ta_totalVotingPower ta_currValidators].
  - intros o. unfold validVoteOption. repeat rewrite orb_true_iff. rewrite !Z.eqb_eq.
    intros [[[-> | ->] | ->] | ->]; by exists Rat.ZeroRat.
  - reflexivity.
  - intros k. split.
    + intros Hk. destruct (decide (k ∈ keys)) as [|Hn]; [done|]. destruct (record_all_lookup vals ∅ k Hkeys) as [_ E].
      rewrite E in Hk by done. rewrite lookup_empty in Hk. by destruct Hk.
    + intros (w & Hw & <-)%elem_of_keys. destruct (record_all_lookup vals ∅ "" Hkeys) as [E _]. rewrite E by done. by eexists.
  - intros w Hw. destruct (record_all_lookup vals ∅ "" Hkeys) as [E _]. exists (recorded w). by split_and!; [apply E|..].
Qed.

(** The validators' own power, after the shares counted directly. *)
Definition info_power (vi : validatorGovInfo) : Q :=
  (vi_Power vi * ((vi_DelegatorShares vi - vi_Minus vi) / vi_DelegatorShares vi))%Q.

Lemma tally_validators_rep l ta R D V nv :
  tally_rep ta R D V ->
  (forall vi, vi ∈ l -> ~ (vi_DelegatorShares vi == 0)%Q /\ (vi_Vote vi = OptionEmpty \/ validVoteOption (vi_Vote vi) = true)) ->
  exists ta' nv', tally_validators l ta nv = Ok (ta', nv ++ nv') /\
    nv' = vi_Address <$> filter (fun vi => vi_Vote vi = OptionEmpty) l /\
    tally_rep ta' (fun o => R o + sumQ (fun vi => if decide (vi_Vote vi = OptionEmpty) then 0 else
      if decide (vi_Vote vi = o) then info_power vi else 0) l)%Q D V.
Proof.
  revert ta R nv. induction l as [|vi l IH]; intros ta R nv HR Hl.
  - exists ta, []. split_and!; [by rewrite app_nil_r|done|]. eapply tally_rep_ext; [exact HR|intros; simpl; ring|done..].
  - destruct (Hl vi) as [Hne Hv]; [by left|]. cbn [tally_validators]. rewrite filter_cons. destruct (Z.eqb_spec (vi_Vote vi) OptionEmpty) as [Hn|Hn].
    + destruct (IH ta R (nv ++ [vi_Address vi]) HR) as (ta' & nv' & E & -> & HR'); [intros; apply Hl; by right|].
      exists ta'. eexists. split_and!; [rewrite E, <- app_assoc; reflexivity|by rewrite decide_True|].
      eapply tally_rep_ext; [exact HR'| |done|done]. intros o _. simpl. rewrite decide_True by done. ring.
    + destruct Hv as [|Hv]; [done|].
      destruct (Quo_nonzero (Rat.Sub (vi_DelegatorShares vi) (vi_Minus vi)) _ Hne) as (x & -> & Ex). cbn [mbind outcome_bind].
      destruct (add_power_rep ta R D V (vi_Vote vi) (Rat.Mul (vi_Power vi) x) HR Hv) as (ta1 & -> & HR1). cbn [mbind outcome_bind].
      destruct (IH ta1 _ nv HR1) as (ta' & nv' & E & -> & HR'); [intros; apply Hl; by right|].
      exists ta'. eexists. split_and!; [exact E|by rewrite decide_False|].
      eapply tally_rep_ext; [exact HR'| |done|done]. intros o _. unfold add_at. simpl. rewrite (decide_False (P := vi_Vote vi = OptionEmpty)) by done.
      destruct (decide _); [|ring]. rewrite Rat.Mul_eq, Ex, Rat.Sub_eq. unfold info_power. ring.
Qed.

(** The entries of the map are the validators'. *)
Lemma entries_perm ta R D V :
  tally_rep ta R D V -> exists f, (map_to_list (ta_currValidators ta)).*2 ≡ₚ f <$> vals /\
    forall w, w ∈ vals -> ta_currValidators ta !! hex_owner w = Some (f w).
Proof.
  intros [R1 R2 R3 R4]. set (f w := default (recorded w) (ta_currValidators ta !! hex_owner w)).
  assert (Hf : forall w, w ∈ vals -> ta_currValidators ta !! hex_owner w = Some (f w)).
  { intros w Hw. destruct (R4 w Hw) as (vi & E & _). unfold f. by rewrite E. }
  exists f. split; [|done].
  replace (f <$> vals) with (((fun w => (hex_owner w, f w)) <$> vals).*2) by (rewrite <- list_fmap_compose; by apply list_fmap_ext).
  apply fmap_Permutation, NoDup_Permutation; [apply NoDup_map_to_list| |].
  - apply (NoDup_fmap_1 fst). replace (_.*1) with keys; [done|]. unfold keys. rewrite <- list_fmap_compose. by apply list_fmap_ext.
  - intros [k vi]. rewrite elem_of_map_to_list, list_elem_of_fmap. split.
    + intros E. assert (Hk : k ∈ keys) by (apply R3; by eexists). apply elem_of_keys in Hk as (w & Hw & <-).
      exists w. split; [|done]. rewrite Hf in E by done. by injection E as ->.
    + intros (w & [= -> ->] & Hw). by apply Hf.
Qed.

Lemma voted_for_valid votes w :
  (forall v, v ∈ votes -> validVoteOption (vt_Option v) = true) -> voted_for votes w = OptionEmpty \/ validVoteOption (voted_for votes w) = true.
Proof.
  unfold voted_for. assert (Hg : forall o, o = OptionEmpty \/ validVoteOption o = true ->
    (forall v, v ∈ votes -> validVoteOption (vt_Option v) = true) ->
    foldl (next_vote w) o votes = OptionEmpty \/ validVoteOption (foldl (next_vote w) o votes) = true); [|apply Hg; by left].
  induction votes as [|v votes IH]; intros o Ho Hv; [done|]. simpl. apply IH; [|intros; apply Hv; by right].
  unfold next_vote. destruct (decide _); [right; apply Hv; by left|done].
Qed.

(** ** The outcome *)

Lemma final_rep votes ta f l :
  (forall v, v ∈ votes -> validVoteOption (vt_Option v) = true) ->
  tally_rep ta (fun o => 0 + sumQ (fun v => vote_gain v o) votes)%Q (fun w => 0 + sumQ (fun v => vote_shares v w) votes)%Q (voted_for votes) ->
  l ≡ₚ f <$> vals -> (forall w, w ∈ vals -> ta_currValidators ta !! hex_owner w = Some (f w)) ->
  exists ta' nv, tally_validators l ta [] = Ok (ta', nv) /\
    nv ≡ₚ sv_GetOwner <$> filter (fun w => voted_for votes w = OptionEmpty) vals /\
    tally_rep ta' (option_power votes) (direct_shares votes) (voted_for votes).
Proof.
  intros Hv HR Hl Hf. pose proof HR as [_ _ _ R4].
  assert (Hw : forall w, w ∈ vals -> vi_Address (f w) = sv_GetOwner w /\ vi_Power (f w) = sv_GetPower w /\
    vi_DelegatorShares (f w) = sv_GetDelegatorShares w /\ (vi_Minus (f w) == direct_shares votes w)%Q /\ vi_Vote (f w) = voted_for votes w).
  { intros w Hw. destruct (R4 w Hw) as (vi & E & A1 & A2 & A3 & A4 & A5). rewrite Hf in E by done. injection E as <-.
    split_and!; try done. rewrite A4. unfold direct_shares. rewrite <- sumQ_direct. unfold vote_shares. ring. }
  destruct (tally_validators_rep l ta _ _ _ [] HR) as (ta' & nv & E & -> & HR').
  { intros vi Hvi. rewrite Hl in Hvi. apply list_elem_of_fmap in Hvi as (w & -> & Hw').
    destruct (Hw w Hw') as (_ & _ & -> & _ & ->). split; [|by apply voted_for_valid]. destruct (Hpos w Hw'). intros Hz. lra. }
  exists ta'. eexists. split_and!; [exact E| |].
  - cbn [app]. rewrite Hl. clear -Hw. induction vals as [|w ws IH]; [done|]. rewrite fmap_cons, !filter_cons.
    destruct (Hw w) as (E1 & _ & _ & _ & E2); [by left|].
    destruct (decide (vi_Vote (f w) = OptionEmpty)), (decide (voted_for votes w = OptionEmpty)); try congruence.
    + rewrite !fmap_cons, E1, IH; [done|]. intros; apply Hw; by right.
    + apply IH. intros; apply Hw; by right.
  - eapply tally_rep_ext; [exact HR'| | |done].
    + intros o Ho. cbv beta. unfold option_power. rewrite (sumQ_perm _ _ _ Hl), sumQ_fmap.
      rewrite <- sumQ_direct. unfold vote_gain. rewrite Qplus_0_l. apply Qplus_comp; [reflexivity|].
      apply sumQ_ext. intros w Hw'. destruct (Hw w Hw') as (_ & E2 & E3 & E4 & ->).
      destruct (decide (voted_for votes w = OptionEmpty)) as [En|_].
      * rewrite decide_False; [reflexivity|]. rewrite En. by intros <-.
      * destruct (decide _); [|reflexivity]. unfold info_power, share_power. by rewrite E2, E3, E4.
    + intros w. unfold direct_shares. rewrite <- sumQ_direct. unfold vote_shares. ring.
Qed.

Lemma passes_rep ta R D V :
  tally_rep ta R D V -> (forall o, validVoteOption o = true -> (0 <= R o)%Q) ->
  exists b, tally_passes ta = Ok b /\ (b = true <-> decision R).
Proof.
  intros [R1 R2 _ _] Hn. unfold tally_passes, decision. cbn [GetTallyingProcedure mbind outcome_bind].
  change GetTallyingProcedure with (Ok (mk_TallyingProcedure (1 # 2) (1 # 3) (1 # 100))). cbn [mbind outcome_bind Veto Threshold].
  destruct (R1 OptionAbstain eq_refl) as (a & Ea & Ha). destruct (R1 OptionNoWithVeto eq_refl) as (n & En & Hnv).
  destruct (R1 OptionYes eq_refl) as (y & Ey & Hy). unfold result_of. rewrite Ea, En, Ey. cbn [mbind outcome_bind].
  pose proof (Hn OptionYes eq_refl). pose proof (Hn OptionAbstain eq_refl).
  pose proof (Hn OptionNo eq_refl). pose proof (Hn OptionNoWithVeto eq_refl).
  assert (HT : (Rat.Sub (ta_totalVotingPower ta) a == four R - R OptionAbstain)%Q) by by rewrite Rat.Sub_eq, R2, Ha.
  destruct (Rat.Equal _ _) eqn:Ez.
  { apply Rat.Rat_Equal_spec in Ez. rewrite HT in Ez. eexists. split; [done|]. split; [done|]. intros [Hne _]. exfalso. apply Hne.
    unfold Rat.ZeroRat in Ez. assert (four R - R OptionAbstain == 0)%Q by by rewrite Ez. lra. }
  assert (Hnz : ~ (four R - R OptionAbstain == 0)%Q).
  { intros E. rewrite <- not_true_iff_false in Ez. apply Ez, Rat.Rat_Equal_spec. rewrite HT, E. reflexivity. }
  assert (HT0 : ~ (ta_totalVotingPower ta == 0)%Q) by (rewrite R2; unfold four in *; intros E; apply Hnz; lra).
  destruct (Quo_nonzero n _ HT0) as (q & -> & Hq). cbn [mbind outcome_bind]. rewrite Hnv, R2 in Hq.
  destruct (Rat.GT q (1 # 3)) eqn:Eg.
  { apply Rat.Rat_GT_spec in Eg. rewrite Hq in Eg. eexists. split; [done|]. split; [done|]. intros (_ & Hle & _). lra. }
  rewrite <- not_true_iff_false, Rat.Rat_GT_spec, Hq in Eg.
  destruct (Quo_nonzero y (Rat.Sub (ta_totalVotingPower ta) a)) as (q' & -> & Hq'); [by rewrite HT|]. cbn [mbind outcome_bind].
  rewrite Hy, HT in Hq'. eexists. split; [done|]. rewrite Rat.Rat_GT_spec, Hq'. split.
  - intros Hlt. split_and!; [intros E; apply Hnz; lra|lra|exact Hlt].
  - by intros (_ & _ & ?).
Qed.

(** ** The power that votes *)

Lemma share_power_nonneg w q : w ∈ vals -> (0 <= q)%Q -> (0 <= share_power w q)%Q.
Proof.
  intros Hw Hq. destruct (Hpos w Hw) as [Hp Hd]. unfold share_power, Qdiv.
  apply Qmult_le_0_compat; [done|]. apply Qmult_le_0_compat; [done|]. by apply Qinv_le_0_compat, Qlt_le_weak.
Qed.

Lemma share_power_split w q : w ∈ vals ->
  (share_power w q + share_power w (sv_GetDelegatorShares w - q) == sv_GetPower w)%Q.
Proof. intros Hw. destruct (Hpos w Hw) as [Hp Hd]. unfold share_power. field. intros Hz. lra. Qed.

Lemma share_power_sum {A : Type} w (f : A -> Q) l : (sumQ (fun a => share_power w (f a)) l == share_power w (sumQ f l))%Q.
Proof. induction l as [|a l IH]; simpl; [unfold share_power, Qdiv; ring|]. rewrite IH. unfold share_power, Qdiv. ring. Qed.

Lemma four_sum {A : Type} (f : VoteOption -> A -> Q) l : (four (fun o => sumQ (f o) l) == sumQ (fun a => four (fun o => f o a)) l)%Q.
Proof. unfold four. by rewrite !sumQ_add. Qed.

Lemma four_pick x q : validVoteOption x = true -> (four (fun o => if decide (x = o) then q else 0) == q)%Q.
Proof.
  intros Hx. pose proof (four_add (fun _ => 0%Q) x q Hx) as E. unfold four, add_at in *. rewrite !Qplus_0_l in E.
  rewrite E. ring.
Qed.

Lemma del_powers votes :
  (sumQ (fun v => sumQ del_power (dels (vt_Voter v))) (direct votes) == sumQ (fun w => share_power w (direct_shares votes w)) vals)%Q.
Proof.
  unfold del_power. rewrite (sumQ_ext _ (fun v => sumQ (fun w => sumQ (fun d => share_power w (shares_in d w)) (dels (vt_Voter v))) vals))
    by (intros v _; apply sumQ_swap).
  rewrite sumQ_swap. apply sumQ_ext. intros w _. unfold direct_shares. rewrite <- share_power_sum.
  apply sumQ_ext. intros v _. apply share_power_sum.
Qed.

Lemma power_once votes :
  (forall v, v ∈ votes -> validVoteOption (vt_Option v) = true) ->
  (four (option_power votes) == sumQ (fun w => if decide (voted_for votes w = OptionEmpty)
     then share_power w (direct_shares votes w) else sv_GetPower w) vals)%Q.
Proof.
  intros Hv. set (A o := sumQ (fun v => if decide (vt_Option v = o) then sumQ del_power (dels (vt_Voter v)) else 0%Q) (direct votes)).
  set (B o := sumQ (fun w => if decide (voted_for votes w = o) then share_power w (sv_GetDelegatorShares w - direct_shares votes w) else 0%Q) vals).
  assert (E : (four (option_power votes) == four A + four B)%Q) by (unfold four, option_power, A, B; ring).
  rewrite E. unfold A, B. rewrite !four_sum.
  rewrite (sumQ_ext _ (fun v => sumQ del_power (dels (vt_Voter v)))).
  2:{ intros v [_ Hin]%list_elem_of_filter. apply four_pick. by apply Hv. }
  rewrite del_powers, <- sumQ_add. apply sumQ_ext. intros w Hw.
  destruct (voted_for_valid votes w Hv) as [En|Ev].
  - rewrite En, decide_True by done. unfold four. repeat (rewrite decide_False by done). ring.
  - rewrite four_pick by done. rewrite decide_False by (intros En; by rewrite En in Ev). by apply share_power_split.
Qed.

Lemma option_power_nonneg votes o :
  (forall v d, v ∈ direct votes -> d ∈ dels (vt_Voter v) -> hex_validator d ∈ keys /\ (0 <= sd_GetBondShares d)%Q) ->
  (forall w, w ∈ vals -> (direct_shares votes w <= sv_GetDelegatorShares w)%Q) -> (0 <= option_power votes o)%Q.
Proof.
  intros Hb Hs. unfold option_power. assert (H1 : forall a b, (0 <= a -> 0 <= b -> 0 <= a + b)%Q) by (intros; lra). apply H1.
  - apply sumQ_nonneg. intros v Hv. destruct (decide _); [|lra]. apply sumQ_nonneg. intros d Hd. apply sumQ_nonneg.
    intros w Hw. apply share_power_nonneg; [done|]. unfold shares_in. destruct (decide _); [by apply (Hb v)|lra].
  - apply sumQ_nonneg. intros w Hw. destruct (decide _); [|lra]. apply share_power_nonneg; [done|].
    specialize (Hs w Hw). lra.
Qed.
End reference.

(** ** A delegation to a validator that is not bonded *)

Section unbonded.
Context `{Crypto} (vals : list sdk_Validator) (dels : Address -> list sdk_Delegation).

Definition keys_ok (ta : tallied) : Prop := forall k, is_Some (ta_currValidators ta !! k) <-> k ∈ keys vals.

Lemma keys_ok_insert ta k vi r t :
  keys_ok ta -> is_Some (ta_currValidators ta !! k) -> keys_ok (mk_tallied r t (<[k := vi]> (ta_currValidators ta))).
Proof.
  intros Hk Hs x. simpl. rewrite <- (Hk x). destruct (decide (k = x)) as [ <- |Hne].
  - rewrite lookup_insert_eq. split; [done|by eexists].
  - by rewrite lookup_insert_ne.
Qed.

Lemma tally_delegation_keys o d ta ta' :
  keys_ok ta -> tally_delegation o d ta = Ok ta' -> keys_ok ta' /\ hex_validator d ∈ keys vals.
Proof.
  intros Hk. unfold tally_delegation. fold (hex_validator d).
  destruct (ta_currValidators ta !! hex_validator d) as [vi|] eqn:E; [|done].
  destruct (Rat.Quo _ _); [|done]. cbn [mbind outcome_bind]. unfold add_power, result_of. cbn [ta_results].
  destruct (ta_results ta !! o); [|done]. cbn [mbind outcome_bind ta_currValidators]. intros [= <-].
  split; [apply keys_ok_insert; [done|by eexists]|]. apply Hk. by eexists.
Qed.

Lemma tally_delegations_keys o l ta ta' :
  keys_ok ta -> foldO (tally_delegation o) l ta = Ok ta' -> keys_ok ta' /\ forall d, d ∈ l -> hex_validator d ∈ keys vals.
Proof.
  revert ta. induction l as [|d l IH]; intros ta Hk; simpl.
  - intros [= <-]. split; [done|]. intros d Hd. by apply not_elem_of_nil in Hd.
  - destruct (tally_delegation o d ta) as [ta1|] eqn:E1; [|done]. cbn. intros E2.
    destruct (tally_delegation_keys _ _ _ _ Hk E1) as [Hk1 Hd]. destruct (IH _ Hk1 E2) as [Hk2 Hl].
    split; [done|]. intros d' [->|Hd']%elem_of_cons; [done|by apply Hl].
Qed.

Lemma count_votes_keys votes ta ta' :
  keys_ok ta -> foldO (count_vote dels) votes ta = Ok ta' ->
  forall v d, v ∈ votes -> is_validator vals (vt_Voter v) = false -> d ∈ dels (vt_Voter v) -> hex_validator d ∈ keys vals.
Proof.
  revert ta. induction votes as [|v votes IH]; intros ta Hk E v' d Hv Hnv Hd; [by apply not_elem_of_nil in Hv|].
  cbn [foldO] in E. destruct (count_vote dels v ta) as [ta1|] eqn:E1; [|done]. cbn in E. unfold count_vote in E1.
  destruct (ta_currValidators ta !! HexString (vt_Voter v)) as [vi|] eqn:Ev.
  - injection E1 as <-. apply elem_of_cons in Hv as [->|Hv].
    + unfold is_validator in Hnv. rewrite bool_decide_eq_false in Hnv. exfalso. apply Hnv, Hk. by eexists.
    + eapply IH; [|exact E|done..]. apply keys_ok_insert; [done|by eexists].
  - destruct (tally_delegations_keys _ _ _ _ Hk E1) as [Hk1 Hl]. apply elem_of_cons in Hv as [->|Hv]; [by apply Hl|].
    by eapply IH.
Qed.

Lemma tally_of_unbonded order votes v d :
  v ∈ votes -> is_validator vals (vt_Voter v) = false -> d ∈ dels (vt_Voter v) -> hex_validator d ∉ keys vals ->
  exists q, tally_of order vals dels votes = Panicked q.
Proof.
  intros Hv Hnv Hd Hn. unfold tally_of. destruct (foldO _ _ _) as [ta|q] eqn:E; [|by exists q]. exfalso. apply Hn.
  refine (count_votes_keys votes _ _ _ E v d Hv Hnv Hd). intros k. simpl. clear.
  assert (Hg : forall mp, is_Some (record_all vals mp !! k) <-> k ∈ keys vals \/ is_Some (mp !! k)).
  { unfold keys. induction vals as [|w l IH]; intros mp; simpl.
    - rewrite elem_of_nil. tauto.
    - rewrite IH, elem_of_cons. destruct (decide (hex_owner w = k)) as [ <- |Hne].
      + rewrite lookup_insert_eq. split; [tauto|]. intros _. right. by eexists.
      + rewrite lookup_insert_ne by done. intuition congruence. }
  rewrite Hg, lookup_empty. split; [intros [?|[? ?]]; done|by left].
Qed.
End unbonded.

(** ** The theorems *)

Section theorems.
Context `{Crypto} (vals : list sdk_Validator) (dels : Address -> list sdk_Delegation) (votes : list Vote).
Context (order : list validatorGovInfo -> list validatorGovInfo).

(** C14: on bonded validators with positive shares, delegations of the voters to
    bonded validators only and votes with options that exist, the tally
    returns, in whatever order it ranges over its map: it passes exactly when
    the reference decides so, the validators it lists are those without a
    vote, every option has a non-negative power, and of each validator the
    power of the shares its voting delegators hold is counted, or all of it
    when it votes: never more than once. *)
Theorem tally_counts (Hin : tally_input vals dels votes) (Hord : forall l, order l ≡ₚ l) :
  exists passes nonVoting, tally_of order vals dels votes = Ok (passes, nonVoting) /\
    (passes = true <-> decision (option_power vals dels votes)) /\
    nonVoting ≡ₚ sv_GetOwner <$> filter (fun w => voted_for votes w = OptionEmpty) vals /\
    (forall o, 0 <= option_power vals dels votes o)%Q /\
    (four (option_power vals dels votes) == sumQ (fun w => if decide (voted_for votes w = OptionEmpty)
       then share_power w (direct_shares vals dels votes w) else sv_GetPower w) vals)%Q.
Proof.
  destruct Hin as [I1 I2 I3 I4 I5]. unfold tally_of.
  destruct (count_votes_rep vals dels I1 I2 votes _ _ _ _ (initial_rep vals I1) I3) as (ta & -> & HR).
  { intros v d Hv Hd. by apply (I4 v d). }
  cbn [mbind outcome_bind]. destruct (entries_perm vals I1 _ _ _ _ HR) as (f & Hperm & Hf).
  destruct (final_rep vals dels I2 votes ta f (order (map_to_list (ta_currValidators ta)).*2) I3 HR) as (ta' & nv & E & Hnv & HR');
    [by rewrite Hord|done|].
  unfold tally_result. rewrite E. cbn [mbind outcome_bind].
  assert (Hn : forall o, (0 <= option_power vals dels votes o)%Q) by (intros o; by apply option_power_nonneg).
  destruct (passes_rep vals ta' _ _ _ HR') as (b & -> & Hb); [done|]. cbn [mbind outcome_bind].
  exists b, nv. split_and!; [done..|]. by apply power_once.
Qed.
End theorems.
