(* ===== verification/GovSteps.v ===== *)
(** * Governance as a state machine

    [gov_step h]: what a message or the end of a block at height [h] does to the
    accounts and the governance state.  It is what the programs of [GovKeeper]
    are specified by: [GovBlock] shows that they do such steps.  The invariant
    of the module is kept by every step, no step makes coins, and no identifier
    is given twice. *)
From Stdlib Require Import Strings.Byte Strings.String.
From S2P Require Import Prelude Int Rational Errors Coin KVStore MultiStore Account Context ProgLogic Auth Records Ante Bank.
From S2P Require Import Pool Validator StakeKey StakeKeeper GovTypes GovKeeper GovRep GovDeposit GovTally GovCount.
#[local] Open Scope string_scope.
#[local] Open Scope list_scope.
#[local] Open Scope Z_scope.

(** ** Removing the records of a proposal *)

Definition drop_deps (G : gstate) (p : Z) : gmap (Z * Address) Deposit := filter (fun kv => kv.1.1 <> p) (gs_deps G).
Definition drop_votes (G : gstate) (p : Z) : gmap (Z * Address) Vote := filter (fun kv => kv.1.1 <> p) (gs_votes G).

Lemma drop_deps_lookup G p q a : drop_deps G p !! (q, a) = if decide (q = p) then None else gs_deps G !! (q, a).
Proof.
  unfold drop_deps. destruct (decide (q = p)) as [->|Hne].
  - apply map_lookup_filter_None. right. intros r _. simpl. tauto.
  - destruct (gs_deps G !! (q, a)) as [r|] eqn:E; [by apply map_lookup_filter_Some|].
    apply map_lookup_filter_None. by left.
Qed.

(** ** The steps *)

Definition gov_st `{Crypto} : Type := gmap Address BaseAccount * gstate.

(** The proposal [t] at the end of its voting period, already out of the queue. *)
Definition finished (G : gstate) (p : Z) (t : TextProposal) (passes : bool) : gstate :=
  mk_gstate (gs_next G) (<[p := SetStatus t (if passes then StatusPassed else StatusRejected)]> (gs_props G))
    (drop_deps G p) (drop_votes G p) (gs_active G) (gs_inactive G).

(** The blocks at which the two periods end. *)
Definition deposit_end (t : TextProposal) : Z := tp_SubmitBlock t + MaxDepositPeriod GetDepositProcedure.
Definition voting_end (t : TextProposal) : Z := tp_VotingStartBlock t + VotingPeriod GetVotingProcedure.

Section steps.
Context `{Crypto} (h : Z) (outcome_of : list Vote -> bool -> Prop).

(** The votes for [p]. *)
Definition votes_for (G : gstate) (p : Z) (l : list Vote) : Prop :=
  exists avs : list (Address * Vote), NoDup avs.*1 /\ (forall a v, (a, v) ∈ avs <-> gs_votes G !! (p, a) = Some v) /\ l = avs.*2.

Inductive gov_step : gov_st -> gov_st -> Prop :=
  | step_submit accs G n t :
      gs_next G = Some n -> n + 1 < 2 ^ 63 -> tp_Status t = StatusDepositPeriod -> tp_SubmitBlock t = h -> tp_TotalDeposit t = [] ->
      gov_step (accs, G) (accs, submitted h G n t)
  | step_deposit accs accs' G p a c t tot own :
      coins_ok c -> gs_props G !! p = Some t -> is_open t ->
      transfer accs accs' (fun b d => if decide (b = a) then - amt c d else 0) (fun d => - amt c d) ->
      Plus (tp_TotalDeposit t) c = Ok tot -> Plus (own_deposit G p a) c = Ok own ->
      gov_step (accs, G) (accs', deposited h G p a t tot own ((tp_Status t =? StatusDepositPeriod) && minimum tot))
  | step_vote accs G p a opt t :
      gs_props G !! p = Some t -> tp_Status t = StatusVotingPeriod -> validVoteOption opt = true ->
      gov_step (accs, G) (accs, voted G p a opt)
  | step_drop accs G p q t :
      gs_inactive G = p :: q -> gs_props G !! p = Some t -> tp_Status t = StatusDepositPeriod -> deposit_end t <= h ->
      gov_step (accs, G) (accs, with_props (with_inactive G q) (delete p (gs_props G)))
  | step_skip accs G p q t :
      gs_inactive G = p :: q -> gs_props G !! p = Some t -> tp_Status t <> StatusDepositPeriod ->
      gov_step (accs, G) (accs, with_inactive G q)
  | step_pass accs accs' G p q t l :
      gs_active G = p :: q -> gs_props G !! p = Some t -> voting_end t <= h -> votes_for G p l -> outcome_of l true ->
      transfer accs accs' (fun a d => amt (own_deposit G p a) d) (fun d => dep_sum G p d) ->
      gov_step (accs, G) (accs', finished (with_active G q) p t true)
  | step_reject accs G p q t l :
      gs_active G = p :: q -> gs_props G !! p = Some t -> voting_end t <= h -> votes_for G p l -> outcome_of l false ->
      gov_step (accs, G) (accs, finished (with_active G q) p t false).

(** ** The invariant *)

Lemma queued_delete f G G' p q :
  gs_props G' = delete p (gs_props G) -> p ∉ q -> queued f h G q -> queued f h G' q.
Proof.
  intros HG Hp. apply queued_ext. intros x Hx. rewrite HG, lookup_delete_ne; [done|]. by intros <-.
Qed.

Lemma drop_inv G p q t :
  gov_inv h G -> gs_inactive G = p :: q -> gs_props G !! p = Some t -> tp_Status t = StatusDepositPeriod ->
  gov_inv h (with_props (with_inactive G q) (delete p (gs_props G))).
Proof.
  intros [(n & Hn & Hp & Hd) I2 I3 I4 I5 I6 I7 I8] Hq Ht Hs. rewrite Hq in I5. pose proof I5 as (Hnd & _ & _).
  apply NoDup_cons in Hnd as [Hpq _].
  constructor; cbn [with_props with_inactive gs_next gs_props gs_deps gs_active gs_inactive].
  - exists n. split_and!; [done| |done]. intros x [t' [_ Hx]%lookup_delete_Some]. apply Hp. by eexists.
  - done.
  - intros x t' [_ Hx]%lookup_delete_Some. by eapply I3.
  - intros x t' d [_ Hx]%lookup_delete_Some. by apply I4.
  - eapply queued_delete; [reflexivity|exact Hpq|by eapply queued_tail].
  - eapply queued_delete; [reflexivity| |exact I6]. rewrite (I8 p t Ht), Hs. done.
  - intros x t' [Hne Hx]%lookup_delete_Some Hst. specialize (I7 x t' Hx Hst). rewrite Hq in I7.
    apply elem_of_cons in I7 as [->|?]; done.
  - intros x t' [_ Hx]%lookup_delete_Some. by apply I8.
Qed.

Lemma skip_inv G p q t :
  gov_inv h G -> gs_inactive G = p :: q -> gs_props G !! p = Some t -> tp_Status t <> StatusDepositPeriod ->
  gov_inv h (with_inactive G q).
Proof.
  intros [(n & Hn & Hp & Hd) I2 I3 I4 I5 I6 I7 I8] Hq Ht Hs. rewrite Hq in I5.
  constructor; cbn [with_inactive gs_next gs_props gs_deps gs_active gs_inactive]; try done.
  - by exists n.
  - by eapply queued_tail.
  - intros x t' Hx Hst. specialize (I7 x t' Hx Hst). rewrite Hq in I7. apply elem_of_cons in I7 as [->|?]; [congruence|done].
Qed.

Lemma finished_lookup G p t b x t' :
  gs_props (finished G p t b) !! x = Some t' ->
  (x = p /\ t' = SetStatus t (if b then StatusPassed else StatusRejected)) \/ (x <> p /\ gs_props G !! x = Some t').
Proof. cbn [finished gs_props]. rewrite lookup_insert_Some. intros [[ <- <- ]|[? ?]]; [by left|by right]. Qed.

Lemma dep_sum_finished G p t b q d : dep_sum (finished G p t b) q d = if decide (q = p) then 0 else dep_sum G q d.
Proof.
  unfold dep_sum. cbn [finished gs_deps]. unfold drop_deps. rewrite map_total_filter. destruct (decide (q = p)) as [->|Hne].
  - rewrite (map_total_ext _ (fun _ _ => 0)).
    + induction (gs_deps G) as [|k r M Hk IH] using map_ind; [by rewrite map_total_empty|]. rewrite map_total_new by done. by rewrite IH.
    + intros [x a] r _. unfold dep_part. simpl. by repeat case_decide.
  - apply map_total_ext. intros [x a] r _. unfold dep_part. simpl. repeat case_decide; try done. congruence.
Qed.

Lemma dep_total_finished G p t b d : dep_total (finished G p t b) d = dep_total G d - dep_sum G p d.
Proof.
  unfold dep_total, dep_sum. cbn [finished gs_deps]. unfold drop_deps. rewrite map_total_filter.
  rewrite (map_total_ext (fun _ r => amt (dp_Amount r) d)
    (fun k r => (if decide (k.1 <> p) then amt (dp_Amount r) d else 0) + dep_part p d k r)).
  - rewrite map_total_add. cbn [fst]. lia.
  - intros [x a] r _. unfold dep_part. simpl. repeat case_decide; lia.
Qed.

Lemma finished_inv G p q t b :
  gov_inv h G -> gs_active G = p :: q -> gs_props G !! p = Some t -> gov_inv h (finished (with_active G q) p t b).
Proof.
  intros [(n & Hn & Hp & Hd) I2 I3 I4 I5 I6 I7 I8] Hq Ht. rewrite Hq in I6. pose proof I6 as (Hnd & _ & _).
  apply NoDup_cons in Hnd as [Hpq _].
  assert (Hst : forall d, tp_Status (SetStatus t (if b then StatusPassed else StatusRejected)) = d -> d = StatusDepositPeriod \/ d = StatusVotingPeriod -> False).
  { intros d <-. destruct b; cbn; intros [|]; done. }
  assert (Hqd : forall f l, f (SetStatus t (if b then StatusPassed else StatusRejected)) = f t ->
    queued f h G l -> queued f h (finished (with_active G q) p t b) l).
  { intros f l Hf. by eapply queued_update; [exact Ht|reflexivity|]. }
  constructor.
  - exists n. split_and!; [done| |].
    + intros x Hx. apply Hp. destruct (decide (x = p)) as [->|Hne]; [by eexists|].
      cbn [finished gs_props] in Hx. by rewrite lookup_insert_ne in Hx.
    + intros x a. cbn [finished gs_deps]. rewrite drop_deps_lookup. case_decide; [by intros [? ?]|apply Hd].
  - intros [x a] r. cbn [finished gs_deps]. rewrite drop_deps_lookup. case_decide; [done|apply I2].
  - intros x t' [[-> ->]|[_ Hx]]%finished_lookup; [by apply (I3 p t)|by eapply I3].
  - intros x t' d [[-> ->]|[Hne Hx]]%finished_lookup Ho; [exfalso; destruct Ho as [Ho|Ho]; eapply Hst; eauto|].
    rewrite dep_sum_finished, decide_False by done. by apply I4.
  - by apply Hqd.
  - apply Hqd; [by destruct b|]. by eapply queued_tail.
  - intros x t' [[-> ->]|[_ Hx]]%finished_lookup Hs; [exfalso; eapply Hst; eauto|by eapply I7].
  - intros x t' [[-> ->]|[Hne Hx]]%finished_lookup; cbn [finished with_active gs_active].
    + split; [done|]. intros Hs. exfalso. eapply Hst; eauto.
    + rewrite <- (I8 x t' Hx), Hq, elem_of_cons. tauto.
Qed.

Lemma gov_step_inv accs G accs' G' : gov_step (accs, G) (accs', G') -> gov_inv h G -> gov_inv h G'.
Proof.
  intros Hs Hi. inversion Hs; subst.
  - by apply submitted_inv.
  - by eapply deposited_inv.
  - by destruct Hi.
  - by eapply drop_inv.
  - by eapply skip_inv.
  - by apply finished_inv.
  - by apply finished_inv.
Qed.

(** A proposal's deposits are not negative. *)
Lemma dep_sum_nonneg G p d : gov_inv h G -> 0 <= dep_sum G p d.
Proof.
  intros Hi. apply map_total_nonneg. intros k r Hr. unfold dep_part. case_decide; [|done].
  apply (gi_deps _ _ Hi _ _ Hr).
Qed.

(** No step makes coins; only a rejected proposal's deposits are destroyed. *)
Lemma gov_step_coins accs G accs' G' d :
  gov_step (accs, G) (accs', G') -> gov_inv h G -> total accs' d + dep_total G' d <= total accs d + dep_total G d.
Proof.
  intros Hs Hi. inversion Hs; subst; try (change (dep_total (submitted _ _ _ _) d) with (dep_total G d); lia); try (unfold dep_total; simpl; lia).
  - rewrite dep_total_deposited. match goal with Htr : transfer _ _ _ _ |- _ => rewrite (tr_total _ _ _ _ Htr) end.
    match goal with Hp : Plus (own_deposit _ _ _) _ = Ok _ |- _ => pose proof (Plus_amt _ _ _ d Hp) end. lia.
  - rewrite dep_total_finished. match goal with Htr : transfer _ _ _ _ |- _ => rewrite (tr_total _ _ _ _ Htr) end.
    change (dep_total (with_active G q) d) with (dep_total G d). change (dep_sum (with_active G q) p d) with (dep_sum G p d). lia.
  - rewrite dep_total_finished. change (dep_total (with_active G q) d) with (dep_total G d).
    change (dep_sum (with_active G q) p d) with (dep_sum G p d). pose proof (dep_sum_nonneg G p d Hi). lia.
Qed.

(** ** Identifiers *)

(** The same proposal, whatever its status and the numbers that go with it. *)
Definition same_text (t t' : TextProposal) : Prop :=
  tp_ProposalID t' = tp_ProposalID t /\ tp_Title t' = tp_Title t /\ tp_Description t' = tp_Description t /\
  tp_ProposalType t' = tp_ProposalType t /\ tp_SubmitBlock t' = tp_SubmitBlock t.

(** No identifier given is given again: a proposal with one is the proposal it
    was given to, and where there is none there are the same deposits for good. *)
Record ids_kept (G G' : gstate) : Prop := mk_ids_kept {
  ik_next : exists n n', gs_next G = Some n /\ gs_next G' = Some n' /\ n <= n';
  ik_props : forall n p t', gs_next G = Some n -> p < n -> gs_props G' !! p = Some t' ->
    exists t, gs_props G !! p = Some t /\ same_text t t';
  ik_gone : forall n p a, gs_next G = Some n -> p < n -> gs_props G !! p = None -> gs_deps G' !! (p, a) = gs_deps G !! (p, a)
}.

Lemma same_text_refl t : same_text t t.
Proof. done. Qed.

Lemma ids_kept_refl G : (exists n, gs_next G = Some n) -> ids_kept G G.
Proof. intros [n Hn]. constructor; [by exists n, n|intros m p t' _ _ Ht; by exists t'|done]. Qed.

Lemma ids_kept_trans G1 G2 G3 : ids_kept G1 G2 -> ids_kept G2 G3 -> ids_kept G1 G3.
Proof.
  intros [(n1 & n2 & N1 & N2 & Hle) P1 D1] [(n2' & n3 & N2' & N3 & Hle') P2 D2]. rewrite N2 in N2'. injection N2' as <-.
  constructor.
  - exists n1, n3. split_and!; [done..|lia].
  - intros n p t' Hn Hp Ht. rewrite N1 in Hn. injection Hn as <-.
    destruct (P2 n2 p t' N2 ltac:(lia) Ht) as (t2 & Ht2 & S1 & S2 & S3 & S4 & S5).
    destruct (P1 n1 p t2 N1 Hp Ht2) as (t1 & Ht1 & R1 & R2 & R3 & R4 & R5).
    exists t1. split; [done|]. split_and!; congruence.
  - intros n p a Hn Hp Hnone. rewrite N1 in Hn. injection Hn as <-. rewrite <- (D1 n1 p a N1 Hp Hnone).
    apply (D2 n2); [done|lia|]. apply eq_None_not_Some. intros [t2 Ht2].
    destruct (P1 n1 p t2 N1 Hp Ht2) as (t1 & Ht1 & _). congruence.
Qed.

Lemma same_text_funded hh t c act : same_text t (funded hh t c act).
Proof. by destruct act. Qed.

(** A step that changes the proposal [p] to [t']. *)
Lemma ids_kept_update G G' p t t' :
  (exists n, gs_next G = Some n) -> gs_next G' = gs_next G -> gs_props G !! p = Some t -> same_text t t' ->
  gs_props G' = <[p := t']> (gs_props G) ->
  (forall q a, q <> p -> gs_deps G' !! (q, a) = gs_deps G !! (q, a)) -> ids_kept G G'.
Proof.
  intros [n Hn] Hn' Ht Hs Hp Hd. constructor.
  - exists n, n. by rewrite Hn'.
  - intros m q x _ _. rewrite Hp, lookup_insert_Some. intros [[<- <-]|[_ Hx]]; [by exists t|by exists x].
  - intros m q a _ _ Hq. apply Hd. congruence.
Qed.

Lemma gov_step_ids accs G accs' G' : gov_step (accs, G) (accs', G') -> gov_inv h G -> ids_kept G G'.
Proof.
  intros Hs Hi. destruct (gi_fresh _ _ Hi) as (n & Hn & _). assert (Hex : exists n, gs_next G = Some n) by by exists n.
  inversion Hs; subst.
  - match goal with Hx : gs_next G = Some ?k |- _ => rewrite Hn in Hx; injection Hx as <- end. constructor; [|intros k p t' Hk Hp|done].
    + exists n, (n + 1). split_and!; [done|done|lia].
    + rewrite Hn in Hk. injection Hk as <-. cbn [submitted gs_props]. rewrite lookup_insert_ne by lia. intros Ht. by exists t'.
  - eapply ids_kept_update; [done|done|done|apply same_text_funded|reflexivity|].
    intros q b Hq. cbn [deposited gs_deps]. rewrite lookup_insert_ne; [done|]. congruence.
  - constructor; [by exists n, n|intros k y x _ _ Hx; by exists x|done].
  - constructor; [by exists n, n|intros k y x _ _; cbn [with_props gs_props]; intros [_ Hx]%lookup_delete_Some; by exists x|done].
  - constructor; [by exists n, n|intros k y x _ _ Hx; by exists x|done].
  - eapply ids_kept_update; [done|done|done| |reflexivity|]; [done|].
    intros q' b Hq. cbn [finished gs_deps]. by rewrite drop_deps_lookup, decide_False.
  - eapply ids_kept_update; [done|done|done| |reflexivity|]; [done|].
    intros q' b Hq. cbn [finished gs_deps]. by rewrite drop_deps_lookup, decide_False.
Qed.

(** Any number of steps. *)
Lemma gov_steps_inv accs G accs' G' :
  rtc gov_step (accs, G) (accs', G') -> gov_inv h G ->
  gov_inv h G' /\ (forall d, total accs' d + dep_total G' d <= total accs d + dep_total G d) /\ ids_kept G G'.
Proof.
  remember (accs, G) as x eqn:Ex. remember (accs', G') as y eqn:Ey. intros Hr. revert accs G Ex.
  induction Hr as [x|x [accs1 G1] z Hs _ IH]; intros accs0 G0 -> Hi.
  - injection Ey as -> ->. split_and!; [done|done|]. apply ids_kept_refl. destruct (gi_fresh _ _ Hi) as (n & Hn & _). by exists n.
  - destruct (IH Ey accs1 G1 eq_refl) as (Hi' & Hc & Hk); [by eapply gov_step_inv|]. split_and!; [done| |].
    + intros d. specialize (Hc d). pose proof (gov_step_coins _ _ _ _ d Hs Hi). lia.
    + eapply ids_kept_trans; [by eapply gov_step_ids|done].
Qed.
End steps.
