(* ===== verification/GovBlock.v ===== *)
(** * The handlers and the end of a block

    They do steps of the state machine of [GovSteps]; the loops of EndBlocker
    end with a fuel above the lengths of the queues, and afterwards no proposal
    is past its period.  A chain is any sequence of messages, ends of blocks and
    programs of other modules. *)
From Stdlib Require Import Strings.Byte Strings.String.
From S2P Require Import Prelude Int Rational Errors Coin KVStore MultiStore Account Context ProgLogic Auth Records Ante Bank.
From S2P Require Import Pool Validator StakeKey StakeKeeper GovTypes GovKeeper GovRep GovDeposit GovTally GovCount GovSteps Footprint.
From Stdlib Require Import QArith Qreduction Lqa.
#[local] Open Scope string_scope.
#[local] Open Scope list_scope.
#[local] Open Scope Z_scope.

(** The panics the end of a block can have: none of them is the loops'. *)
Definition tally_panic (q : panic_value) : Prop := q = nil_pointer \/ q = PanicString "division by zero".
Definition end_panic (q : panic_value) : Prop := overflows q \/ q = out_of_memory \/ tally_panic q.

Lemma out_of_fuel_no_panic : ~ end_panic out_of_fuel.
Proof. by intros [?|[?|[?|?]]]. Qed.

Section tally_panics.
Context `{Crypto}.

Lemma Quo_panic r s q : Rat.Quo r s = Panicked q -> tally_panic q.
Proof. unfold Rat.Quo. destruct (_ =? 0); [|done]. intros [= <-]. by right. Qed.

Lemma result_of_panic m o q : result_of m o = Panicked q -> tally_panic q.
Proof. unfold result_of. destruct (m !! o); [done|]. intros [= <-]. by left. Qed.

Lemma add_power_panic ta o r q : add_power ta o r = Panicked q -> tally_panic q.
Proof. unfold add_power. destruct (result_of _ _) eqn:E; cbn; [done|]. intros [= <-]. by eapply result_of_panic. Qed.

Lemma foldO_panic {A S : Type} (f : A -> S -> outcome S) l s q :
  (forall a s q, f a s = Panicked q -> tally_panic q) -> foldO f l s = Panicked q -> tally_panic q.
Proof.
  intros Hf. revert s. induction l as [|a l IH]; intros s; simpl; [done|].
  destruct (f a s) eqn:E; cbn; [apply IH|]. intros [= <-]. by eapply Hf.
Qed.

Lemma tally_delegation_panic o d ta q : tally_delegation o d ta = Panicked q -> tally_panic q.
Proof.
  unfold tally_delegation. destruct (_ !! _); [|intros [= <-]; by left].
  destruct (Rat.Quo _ _) eqn:E; cbn; [apply add_power_panic|]. intros [= <-]. by eapply Quo_panic.
Qed.

Lemma tally_validators_panic l ta nv q : tally_validators l ta nv = Panicked q -> tally_panic q.
Proof.
  revert ta nv. induction l as [|vi l IH]; intros ta nv; simpl; [done|]. destruct (_ =? _); [apply IH|].
  destruct (Rat.Quo _ _) eqn:E; cbn; [|intros [= <-]; by eapply Quo_panic].
  destruct (add_power _ _ _) eqn:E2; cbn; [apply IH|]. intros [= <-]. by eapply add_power_panic.
Qed.

Lemma tally_passes_panic ta q : tally_passes ta = Panicked q -> tally_panic q.
Proof.
  unfold tally_passes. change GetTallyingProcedure with (Ok (mk_TallyingProcedure (1 # 2) (1 # 3) (1 # 100))). cbn [mbind outcome_bind].
  destruct (result_of _ OptionAbstain) eqn:E1; cbn [mbind outcome_bind]; [|intros [= <-]; by eapply result_of_panic].
  destruct (Rat.Equal _ _); [done|].
  destruct (result_of _ OptionNoWithVeto) eqn:E2; cbn [mbind outcome_bind]; [|intros [= <-]; by eapply result_of_panic].
  destruct (Rat.Quo _ _) eqn:E3; cbn [mbind outcome_bind]; [|intros [= <-]; by eapply Quo_panic].
  destruct (Rat.GT _ _); [done|].
  destruct (result_of _ OptionYes) eqn:E4; cbn [mbind outcome_bind]; [|intros [= <-]; by eapply result_of_panic].
  destruct (Rat.Quo _ (Rat.Sub _ _)) eqn:E5; cbn [mbind outcome_bind]; [done|intros [= <-]; by eapply Quo_panic].
Qed.

Lemma tally_of_panic order vals dels votes q : tally_of order vals dels votes = Panicked q -> tally_panic q.
Proof.
  unfold tally_of. destruct (foldO _ _ _) as [ta|q'] eqn:E; cbn [mbind outcome_bind].
  - unfold tally_result. destruct (tally_validators _ _ _) as [[ta' nv]|] eqn:E2; cbn [mbind outcome_bind];
      [|intros [= <-]; by eapply tally_validators_panic].
    destruct (tally_passes _) eqn:E3; cbn [mbind outcome_bind]; [done|]. intros [= <-]. by eapply tally_passes_panic.
  - intros [= <-]. refine (foldO_panic _ _ _ _ _ E). intros v s q. unfold count_vote. destruct (_ !! _); [done|].
    apply foldO_panic. intros d s'. apply tally_delegation_panic.
Qed.
End tally_panics.

Section block.
Context `{HCL : CodecLaws} `{HGC : GovCodecLaws} `{HAF : AddrFmtLaws} (keeper : Keeper) (ctx : Ctx) (st0 : stores).
Context (vals : list sdk_Validator) (dels : Address -> list sdk_Delegation).
Context (order : list validatorGovInfo -> list validatorGovInfo).
Context `{HDL : !Delegations (gk_ds keeper) ctx (gk_storeKey keeper) (am_key (gk_ck keeper)) st0 vals dels}.
Abbreviation m := (cx_GasMeter ctx).
Abbreviation gkey := (gk_storeKey keeper).
Abbreviation am := (gk_ck keeper).
Abbreviation h := (cx_BlockHeight ctx).
Abbreviation world := (world keeper st0).
Hypothesis Hkeys : am_key am <> gkey.
Hypothesis Hheight : is_int64 h.

(** What the tally says of some votes. *)
Definition verdict (l : list Vote) (b : bool) : Prop := exists nv, tally_of order vals dels l = Ok (b, nv).

(** The stores hold a state reached from [(accs, G)]. *)
Definition reaches (accs : gmap Address BaseAccount) (G : gstate) (st' : stores) : Prop :=
  exists accs' G', world st' accs' G' /\ rtc (gov_step h verdict) (accs, G) (accs', G').

Lemma reaches_refl accs G st : world st accs G -> reaches accs G st.
Proof. intros Hw. by exists accs, G. Qed.

Lemma reaches_step accs G accs1 G1 st' : gov_step h verdict (accs, G) (accs1, G1) -> reaches accs1 G1 st' -> reaches accs G st'.
Proof. intros Hs (accs' & G' & Hw & Hr). exists accs', G'. split; [done|]. by eapply rtc_l. Qed.

(** ** The handlers *)

(** The coins of a message, its kind of proposal. *)
Definition gov_msg_ok (msg : gov_Msg) : Prop :=
  match msg with
  | SubmitProposal msg => coins_ok (sp_InitialDeposit msg) /\ is_byte (sp_ProposalType msg)
  | DepositMsg msg => coins_ok (md_Amount msg)
  | VoteMsg _ => True
  end.

Lemma AddDeposit_reaches st accs G p a c (Q : option sdkError * bool -> stores -> Prop) :
  world st accs G -> gov_inv h G -> coins_ok c ->
  (forall err st', reaches accs G st' -> Q (Some err, false) st') ->
  (forall act st' t, gs_props G !! p = Some t -> reaches accs G st' -> Q (None, act) st') ->
  pspec m (AddDeposit keeper ctx p a c) st Q overflows.
Proof.
  intros Hw Hi Hc HQe HQ. eapply AddDeposit_spec; [done|done|done|done|apply Hi|apply Hi| |].
  - intros err _. by apply HQe, reaches_refl.
  - intros t accs' tot own st' act Ht Ho Htr Htot Hown Hw'. eapply HQ; [done|].
    eapply reaches_step; [by eapply step_deposit|by apply reaches_refl].
Qed.

Lemma handler_reaches (st : stores) (accs : gmap Address BaseAccount) (G : gstate) (msg : gov_Msg)
    (Hw : world st accs G) (Hi : gov_inv h G) (Hids : ids_left G) (Hm : gov_msg_ok msg) :
  pspec m (NewHandler keeper ctx Some msg) st (fun _ st' => reaches accs G st') overflows.
Proof.
  destruct msg as [msg|msg|msg]; cbn [NewHandler gov_msg_ok] in *.
  - destruct Hm as [Hc Hk]. apply pspec_bind. eapply NewTextProposal_spec; [done|done|done|done|done|]. cbv zeta. intros n st1 Hn Hw1.
    set (t := mk_TextProposal n _ _ _ _ _ _ _) in Hw1 |- *.
    assert (Hs : gov_step h verdict (accs, G) (accs, submitted h G n t)).
    { destruct Hids as (n' & Hn' & ?). apply step_submit; try done. rewrite Hn in Hn'. by injection Hn' as <-. }
    pose proof (gov_step_inv _ _ _ _ _ _ Hs Hi) as Hi1.
    destruct (world_fits keeper st0 _ _ _ Hw1 n t) as [bz Hbz]; [apply lookup_insert_eq|].
    apply pspec_bind. eapply AddDeposit_reaches; [exact Hw1|done|done| |].
    + intros err st2 Hr. apply pspec_ret. by eapply reaches_step.
    + intros act st2 t' _ Hr. eapply IDBare_spec; [exact Hbz|]. eapply tags_spec; [reflexivity|].
      apply pspec_ret. by eapply reaches_step.
  - apply pspec_bind. eapply AddDeposit_reaches; [exact Hw|done|done| |].
    + intros err st2 Hr. by apply pspec_ret.
    + intros act st2 t Ht Hr. destruct (world_fits keeper st0 _ _ _ Hw _ _ Ht) as [bz Hbz].
      eapply IDBare_spec; [exact Hbz|]. eapply tags_spec; [reflexivity|]. by apply pspec_ret.
  - apply pspec_bind. eapply AddVote_spec; [done|exact Hw| |].
    + intros err _. apply pspec_ret. by apply reaches_refl.
    + intros t st2 Ht Hst Hv Hw2. destruct (world_fits keeper st0 _ _ _ Hw _ _ Ht) as [bz Hbz].
      eapply IDBare_spec; [exact Hbz|]. eapply tags_spec; [reflexivity|]. apply pspec_ret.
      eapply reaches_step; [by eapply step_vote|by apply reaches_refl].
Qed.

(** C16: the handler of the module's messages only does steps of the state
    machine, whether it returns a success or an error; its panics are
    overflows of a sum of coins. *)
Theorem gov_handler_steps (st : stores) (accs : gmap Address BaseAccount) (G : gstate) (msg : gov_Msg)
    (Hw : world st accs G) (Hi : gov_inv h G) (Hids : ids_left G) (Hm : gov_msg_ok msg) :
  pspec m (NewHandler keeper ctx Some msg) st (fun _ st' => reaches accs G st') overflows.
Proof. by apply handler_reaches. Qed.

(** ** Refunds *)

(** The deposits of a list as transfers. *)
Definition refunds (l : list (Address * Deposit)) : list (Address * Coins) := (fun ad => (ad.1, dp_Amount ad.2)) <$> l.

Lemma refunds_cons a d l : refunds ((a, d) :: l) = (a, dp_Amount d) :: refunds l.
Proof. done. Qed.

Lemma spent_own (p : Z) (G : gstate) (l : list (Address * Deposit)) (a : Address) (d : string) :
  NoDup l.*1 -> (forall b r, (b, r) ∈ l <-> gs_deps G !! (p, b) = Some r) -> spent (refunds l) a d = amt (own_deposit G p a) d.
Proof.
  intros Hnd Hin. unfold own_deposit. destruct (gs_deps G !! (p, a)) as [r|] eqn:E.
  - apply Hin in E. clear Hin. induction l as [|[b s] l IH]; [by apply not_elem_of_nil in E|]. rewrite refunds_cons. simpl spent.
    rewrite fmap_cons in Hnd. apply NoDup_cons in Hnd as [Hb Hnd]. apply elem_of_cons in E as [[= <- <-]|E].
    + rewrite decide_True by done. assert (Hz : spent (refunds l) a d = 0); [|simpl; lia]. clear IH Hnd.
      induction l as [|[c u] l IH]; [done|]. rewrite refunds_cons. simpl. rewrite fmap_cons, not_elem_of_cons in Hb. simpl in Hb.
      destruct Hb. rewrite decide_False by done. rewrite IH by done. done.
    + rewrite decide_False; [by rewrite IH|]. intros ->. apply Hb, list_elem_of_fmap. by exists (b, r).
  - simpl. assert (Hout : forall b r, (b, r) ∈ l -> b <> a) by (intros b r Hb ->; apply Hin in Hb; congruence). clear Hin E Hnd.
    induction l as [|[b s] l IH]; [done|]. rewrite refunds_cons. simpl. rewrite decide_False.
    + rewrite IH; [done|]. intros c r Hc. eapply Hout. by right.
    + intros ->. eapply Hout; [by left|done].
Qed.

Lemma spent_sum (p : Z) (M : gmap (Z * Address) Deposit) (l : list (Address * Deposit)) (d : string) :
  NoDup l.*1 -> (forall b r, (b, r) ∈ l <-> M !! (p, b) = Some r) -> spent_total (refunds l) d = map_total (dep_part p d) M.
Proof.
  revert M. induction l as [|[b r] l IH]; intros M Hnd Hin.
  - simpl. symmetry. rewrite (map_total_ext _ (fun _ _ => 0)).
    + clear. induction M as [|k r M Hk IH] using map_ind; [by rewrite map_total_empty|]. rewrite map_total_new by done. by rewrite IH.
    + intros [x a] r Hr. unfold dep_part. simpl. case_decide as E; [subst x|done]. apply Hin in Hr. by apply not_elem_of_nil in Hr.
  - rewrite fmap_cons in Hnd. apply NoDup_cons in Hnd as [Hb Hnd]. rewrite refunds_cons. simpl.
    assert (Hr : M !! (p, b) = Some r) by (apply Hin; by left).
    rewrite (IH (delete (p, b) M)); [|done|].
    + rewrite map_total_delete, Hr. simpl. unfold dep_part at 2. simpl. rewrite decide_True by done. lia.
    + intros c s. rewrite lookup_delete_Some. split.
      * intros Hc. split; [|by apply Hin; right]. intros [= <-]. apply Hb, list_elem_of_fmap. by exists (b, s).
      * intros [Hne Hc]. apply Hin in Hc. apply elem_of_cons in Hc as [[= -> ->]|Hc]; [done|done].
Qed.

Definition iter_panic (q : panic_value) : Prop := overflows q \/ q = out_of_memory.

Lemma refund_loop entries l st accs G p (Q : unit -> stores -> Prop) :
  world st accs G -> Forall2 (entry_for "deposits:" UnmarshalDeposit p) entries l ->
  Forall (fun ad => dp_Depositer ad.2 = ad.1 /\ coins_ok (dp_Amount ad.2)) l ->
  (forall accs' st', transfer accs accs' (spent (refunds l)) (spent_total (refunds l)) ->
     world st' accs' (with_deps G (remove_all p l.*1 (gs_deps G))) -> Q tt st') ->
  pspec m (forP entries (fun e =>
    deposit ← read_value ctx UnmarshalDeposit e;
    '(_, _, err) ← addCoins ctx am (dp_Depositer deposit) (dp_Amount deposit);
    match err with
    | Some _ => Fault (PanicString "should not happen")
    | None => key ← iter_Key ctx e; store_Delete ctx gkey (slice_bytes key)
    end)) st Q iter_panic.
Proof.
  intros Hw Hl. revert st accs G Hw. induction Hl as [|e [a r] entries l [E1 (bz & E2 & E3)] _ IH]; intros st accs G Hw Hok HQ.
  - apply pspec_ret. eapply HQ; [apply transfer_refl|]. by destruct G.
  - inversion Hok as [|? ? [Ha Hr] Hok']; subst. cbn [fst snd] in *. cbn [forP].
    apply pspec_bind. apply pspec_bind, pspec_bind, pspec_iter_Value. rewrite E2.
    apply pspec_lift; unfold must_unmarshal; rewrite E3; [|done]. intros r' [= <-].
    destruct (w_auth _ _ _ _ _ Hw) as [n Hn]. rewrite Ha.
    eapply pspec_call; [apply (addCoins_spec ctx am st accs n a (dp_Amount r) iter_panic); [exact Hn|apply Hw|done|by left]|].
    intros [[nc ts] err] st1 Hpost. unfold move_post, moved_post in Hpost. simpl in Hpost. destruct err as [err|].
    { exfalso. destruct Hpost as ([d Hd] & _). destruct (coins_at_ok accs a (w_accs _ _ _ _ _ Hw)) as (_ & Hn1 & _).
      destruct Hr as (_ & Hn2 & _). specialize (Hn1 d). specialize (Hn2 d). lia. }
    destruct Hpost as (accs1 & n1 & Hst1 & Hok1 & Hf1 & Htr).
    pose proof (world_bank keeper st0 Hkeys _ _ _ _ _ _ Hw Hst1 Hok1 Hf1) as Hw1.
    apply pspec_bind, pspec_iter_Key. rewrite E1. simpl slice_bytes.
    apply (deleteDeposit_spec keeper ctx st0 Hkeys st1 accs1 G p a); [exact Hw1|]. intros st2 Hw2.
    eapply IH; [exact Hw2|done|]. intros accs' st' Htr' Hw'. apply (HQ accs'); [|exact Hw'].
    eapply transfer_ext; [| |exact (transfer_trans _ _ _ _ _ _ _ Htr Htr')]; intros; rewrite refunds_cons; simpl;
      [case_decide|]; lia.
Qed.

Lemma RefundDeposits_spec st accs G p (Q : unit -> stores -> Prop) :
  world st accs G -> (forall key r, gs_deps G !! key = Some r -> coins_ok (dp_Amount r)) ->
  (forall accs' st', transfer accs accs' (fun a d => amt (own_deposit G p a) d) (fun d => dep_sum G p d) ->
     world st' accs' (with_deps G (drop_deps G p)) -> Q tt st') ->
  pspec m (RefundDeposits keeper ctx p) st Q iter_panic.
Proof.
  intros Hw Hc HQ. apply pspec_bind. eapply GetDeposits_spec; [exact Hw|by right|]. intros entries l Hl.
  pose proof Hl as (Hnd & Hin & Hf). eapply refund_loop; [exact Hw|exact Hf| |].
  - apply Forall_forall. intros [a r] Har%Hin. destruct (w_gov _ _ _ _ _ Hw) as (s & _ & Hr).
    split; [by eapply r_dep_id|by eapply Hc].
  - intros accs' st' Htr Hw'. eapply HQ.
    + eapply transfer_ext; [| |exact Htr]; intros; [by apply spent_own|by apply spent_sum].
    + unfold drop_deps. by rewrite <- (remove_all_listed _ _ _ _ _ _ Hl).
Qed.

Lemma delete_loop entries l st accs G p (Q : unit -> stores -> Prop) :
  world st accs G -> Forall2 (entry_for "deposits:" UnmarshalDeposit p) entries l ->
  (forall st', world st' accs (with_deps G (remove_all p l.*1 (gs_deps G))) -> Q tt st') ->
  pspec m (forP entries (fun e => key ← iter_Key ctx e; store_Delete ctx gkey (slice_bytes key))) st Q iter_panic.
Proof.
  intros Hw Hl. revert st G Hw. induction Hl as [|e [a r] entries l [E1 _] _ IH]; intros st G Hw HQ.
  - apply pspec_ret, HQ. by destruct G.
  - cbn [forP fst] in *. apply pspec_bind, pspec_bind, pspec_iter_Key. rewrite E1. simpl slice_bytes.
    apply (deleteDeposit_spec keeper ctx st0 Hkeys st accs G p a); [exact Hw|]. intros st2 Hw2. eapply IH; [exact Hw2|exact HQ].
Qed.

Lemma DeleteDeposits_spec st accs G p (Q : unit -> stores -> Prop) :
  world st accs G -> (forall st', world st' accs (with_deps G (drop_deps G p)) -> Q tt st') ->
  pspec m (DeleteDeposits keeper ctx p) st Q iter_panic.
Proof.
  intros Hw HQ. apply pspec_bind. eapply GetDeposits_spec; [exact Hw|by right|]. intros entries l Hl.
  eapply delete_loop; [exact Hw|apply Hl|]. intros st' Hw'. apply HQ. unfold drop_deps. by rewrite <- (remove_all_listed _ _ _ _ _ _ Hl).
Qed.

Lemma pspec_weaken {A : Type} (p : prog A) st (Q : A -> stores -> Prop) (E E' : panic_value -> Prop) :
  pspec m p st Q E -> (forall q, E q -> E' q) -> pspec m p st Q E'.
Proof. intros Hp HE. by eapply pspec_mono. Qed.

Lemma iter_end q : iter_panic q -> end_panic q.
Proof. intros [?|?]; [by left|by right; left]. Qed.

(** ** The end of a voting period *)

Hypothesis Hlate : h + 200 < 2 ^ 63.

Lemma voting_over_end t : is_int64 (tp_VotingStartBlock t) -> tp_VotingStartBlock t <= h -> voting_over ctx t = (voting_end t <=? h).
Proof.
  intros Hs Hle. unfold voting_over, voting_end. change (VotingPeriod GetVotingProcedure) with 200.
  rewrite wrap64_id; [done|]. unfold is_int64, min_int64, max_int64 in *. lia.
Qed.

Lemma finish_spec st accs G p q t tags :
  gov_inv h G -> gs_active G = p :: q -> gs_props G !! p = Some t -> proposal_wf t -> tp_ProposalID t = p -> voting_end t <= h ->
  world st accs (with_active G q) ->
  pspec m (finish_proposal keeper ctx order t tags) st (fun _ st' => exists accs' b,
    world st' accs' (finished (with_active G q) p t b) /\ gov_step h verdict (accs, G) (accs', finished (with_active G q) p t b)) end_panic.
Proof.
  intros Hi Hq Ht Hwf Hid Hend Hw. unfold finish_proposal. apply pspec_bind.
  eapply (tally_spec keeper ctx st0 vals dels order Hkeys); [exact Hw|by right; left|]. rewrite Hid. intros entries l Hl. split.
  2:{ intros x Hx. right. right. by eapply tally_of_panic. }
  intros [b nv] st1 Hv Hw1. destruct (IDBare_total p) as [bz Hbz]; [rewrite <- Hid; apply Hwf|].
  eapply (IDBare_spec ctx _ bz); [exact Hbz|].
  assert (Hvotes : votes_for G p l.*2) by (exists l; split_and!; [apply Hl|apply Hl|done]).
  assert (Hwf' : forall s, is_byte s -> proposal_wf (SetStatus t s)) by (intros s Hs; by destruct Hwf; constructor).
  apply pspec_bind. destruct b; apply pspec_bind; (eapply pspec_weaken; [|exact iter_end]).
  - eapply RefundDeposits_spec; [exact Hw1|apply Hi|]. intros accs' st2 Htr Hw2. apply pspec_ret.
    apply pspec_bind. eapply SetProposal_spec; [done|exact Hw2|by apply Hwf'|].
    change (tp_ProposalID (SetStatus t StatusPassed)) with (tp_ProposalID t). rewrite Hid. intros st3 Hw3.
    apply pspec_ret. exists accs', true. split; [exact Hw3|]. eapply step_pass; try done. by exists nv.
  - eapply DeleteDeposits_spec; [exact Hw1|]. intros st2 Hw2. apply pspec_ret.
    apply pspec_bind. eapply SetProposal_spec; [done|exact Hw2|by apply Hwf'|].
    change (tp_ProposalID (SetStatus t StatusRejected)) with (tp_ProposalID t). rewrite Hid. intros st3 Hw3.
    apply pspec_ret. exists accs, false. split; [exact Hw3|]. eapply step_reject; try done. by exists nv.
Qed.

(** ** The loops *)

Definition deposits_in_time (G : gstate) : Prop :=
  forall p t, gs_props G !! p = Some t -> tp_Status t = StatusDepositPeriod -> h < deposit_end t.
Definition votes_in_time (G : gstate) : Prop :=
  forall p t, gs_props G !! p = Some t -> tp_Status t = StatusVotingPeriod -> h < voting_end t.

(** The front of a queue and the rest. *)
Lemma queued_front f G p q :
  queued f h G (p :: q) -> exists t, gs_props G !! p = Some t /\ f t <= h /\
    forall p' t', p' ∈ p :: q -> gs_props G !! p' = Some t' -> f t <= f t'.
Proof.
  intros (_ & R2 & R3). destruct (R2 p) as [[t Ht] Hle]; [by left|]. exists t. unfold field_of in *. rewrite Ht in Hle.
  split_and!; [done|done|]. intros p' t' Hp' Ht'. apply elem_of_cons in Hp' as [->|Hp']; [rewrite Ht in Ht'; by injection Ht' as ->|].
  inversion R3 as [|? ? _ Hall]; subst. rewrite Forall_forall in Hall. specialize (Hall p' Hp'). by rewrite Ht, Ht' in Hall.
Qed.

Lemma pop_inactive_spec st accs G (Q : bool -> stores -> Prop) (E : panic_value -> Prop) :
  world st accs G -> gov_inv h G ->
  match gs_inactive G with
  | [] => Q false st
  | p :: q => forall t, gs_props G !! p = Some t -> proposal_wf t -> tp_ProposalID t = p ->
      Q (negb (tp_Status t =? StatusDepositPeriod) || (deposit_end t <=? h)) st
  end ->
  pspec m (shouldPopInactiveProposalQueue keeper ctx) st Q E.
Proof.
  intros Hw Hi HQ. apply pspec_bind. eapply (QueuePeek_spec keeper ctx st0 _ _ _ false); [exact Hw|]. simpl gq.
  pose proof (gi_inactive _ _ Hi) as Hq. destruct (gs_inactive G) as [|p q]; [by apply pspec_ret|].
  destruct (queued_front _ _ _ _ Hq) as (t & Ht & Hle & _). rewrite Ht. intros Hwf. destruct (Hwf t eq_refl) as [Hwt Hid].
  specialize (HQ t Ht Hwt Hid). destruct (negb _) eqn:Es; [by apply pspec_ret|]. apply pspec_ret.
  simpl in HQ. unfold deposit_end in HQ. change (MaxDepositPeriod GetDepositProcedure) with 200 in *.
  rewrite wrap64_id; [exact HQ|]. pose proof (pw_submit _ Hwt). unfold is_int64, min_int64, max_int64 in *. lia.
Qed.

(** Popping the queue of inactive proposals leaves those being voted on. *)
Definition kept (G G' : gstate) : Prop :=
  gs_active G' = gs_active G /\ gs_votes G' = gs_votes G /\ forall p, p ∈ gs_active G -> gs_props G' !! p = gs_props G !! p.

Lemma kept_trans G1 G2 G3 : kept G1 G2 -> kept G2 G3 -> kept G1 G3.
Proof.
  intros (A1 & B1 & C1) (A2 & B2 & C2). split_and!; [congruence|congruence|]. intros p Hp. rewrite C2, C1; [done..|by rewrite A1].
Qed.

Lemma drop_kept G p q t :
  gov_inv h G -> gs_props G !! p = Some t -> tp_Status t = StatusDepositPeriod ->
  kept G (with_props (with_inactive G q) (delete p (gs_props G))).
Proof.
  intros Hi Ht Hs. split_and!; [done|done|]. intros x Hx. cbn [with_props gs_props]. rewrite lookup_delete_ne; [done|].
  intros <-. rewrite (gi_voting _ _ Hi p t Ht), Hs in Hx. done.
Qed.

Lemma inactive_loop_spec fuel st accs G tags (Q : Tags -> stores -> Prop) :
  world st accs G -> gov_inv h G -> (length (gs_inactive G) < fuel)%nat ->
  (forall st' G', world st' accs G' -> rtc (gov_step h verdict) (accs, G) (accs, G') -> gov_inv h G' ->
     kept G G' -> deposits_in_time G' -> Q tags st') ->
  pspec m (inactive_loop keeper ctx fuel tags) st Q end_panic.
Proof.
  revert st G. induction fuel as [|fuel IH]; intros st G Hw Hi Hf HQ; [lia|]. cbn [inactive_loop].
  apply pspec_bind. eapply pop_inactive_spec; [exact Hw|done|]. pose proof (gi_inactive _ _ Hi) as Hqd.
  destruct (gs_inactive G) as [|p q] eqn:Eq.
  { apply pspec_ret. eapply HQ; [exact Hw|done|done|done|]. intros p t Ht Hs. pose proof (gi_pending _ _ Hi p t Ht Hs) as Hin.
    rewrite Eq in Hin. by apply not_elem_of_nil in Hin. }
  intros t Ht Hwt Hid. destruct (_ || _) eqn:Epop.
  2:{ apply pspec_ret. eapply HQ; [exact Hw|done|done|done|]. apply orb_false_iff in Epop as [_ Elate]. rewrite Z.leb_gt in Elate.
      intros p' t' Ht' Hs'. destruct (queued_front _ _ _ _ Hqd) as (t0 & Ht0 & _ & Hle). rewrite Ht in Ht0. injection Ht0 as <-.
      pose proof (gi_pending _ _ Hi p' t' Ht' Hs') as Hin. rewrite Eq in Hin. specialize (Hle p' t' Hin Ht').
      unfold deposit_end in *. lia. }
  apply pspec_bind. eapply (QueuePop_spec keeper ctx st0 Hkeys _ _ _ false); [exact Hw|exact Eq|]. intros st1 Hw1 _. rewrite Ht.
  simpl length in Hf. cbn [with_q] in Hw1. destruct (Z.eqb_spec (tp_Status t) StatusDepositPeriod) as [Hs|Hs].
  - assert (Hstep : gov_step h verdict (accs, G) (accs, with_props (with_inactive G q) (delete p (gs_props G)))).
    { eapply step_drop; [exact Eq|exact Ht|exact Hs|]. simpl in Epop. by apply Z.leb_le. }
    destruct (IDBare_total p) as [bz Hbz]; [rewrite <- Hid; apply Hwt|].
    apply pspec_bind. rewrite Hid. eapply (IDBare_spec ctx _ bz); [exact Hbz|].
    apply pspec_bind. eapply DeleteProposal_spec; [done|exact Hw1|]. rewrite Hid. intros st2 Hw2. apply pspec_ret.
    eapply IH; [exact Hw2|by eapply gov_step_inv|simpl; lia|]. intros st' G' Hw' Hr' Hi' Ha' Hd'.
    eapply HQ; [exact Hw'|by eapply rtc_l|done| |done]. eapply kept_trans; [by eapply drop_kept|exact Ha'].
  - apply pspec_bind, pspec_ret.
    assert (Hstep : gov_step h verdict (accs, G) (accs, with_inactive G q)) by by eapply step_skip.
    eapply IH; [exact Hw1|by eapply gov_step_inv|simpl; lia|]. intros st' G' Hw' Hr' Hi' Ha' Hd'.
    eapply HQ; [exact Hw'|by eapply rtc_l|done|exact Ha'|done].
Qed.

Lemma pop_active_spec st accs G (Q : bool -> stores -> Prop) (E : panic_value -> Prop) :
  world st accs G -> gov_inv h G ->
  match gs_active G with
  | [] => Q false st
  | p :: q => forall t, gs_props G !! p = Some t -> Q (voting_end t <=? h) st
  end ->
  pspec m (shouldPopActiveProposalQueue keeper ctx) st Q E.
Proof.
  intros Hw Hi HQ. apply pspec_bind. eapply (QueuePeek_spec keeper ctx st0 _ _ _ true); [exact Hw|]. simpl gq.
  pose proof (gi_active _ _ Hi) as Hq. destruct (gs_active G) as [|p q]; [by apply pspec_ret|].
  destruct (queued_front _ _ _ _ Hq) as (t & Ht & Hle & _). rewrite Ht. intros Hwf. destruct (Hwf t eq_refl) as [Hwt _].
  apply pspec_ret. rewrite voting_over_end; [by apply HQ|apply Hwt|done].
Qed.

Lemma finished_in_time G p t b : deposits_in_time G -> deposits_in_time (finished G p t b).
Proof.
  intros Hd x t' [[-> ->]|[_ Hx]]%finished_lookup Hs; [by destruct b|by eapply Hd].
Qed.

Lemma active_loop_spec fuel st accs G tags nv (Q : Tags * list Address -> stores -> Prop) :
  world st accs G -> gov_inv h G -> deposits_in_time G -> (length (gs_active G) < fuel)%nat ->
  (forall st' accs' G' r, world st' accs' G' -> rtc (gov_step h verdict) (accs, G) (accs', G') -> gov_inv h G' ->
     deposits_in_time G' -> votes_in_time G' -> Q r st') ->
  pspec m (active_loop keeper ctx order fuel tags nv) st Q end_panic.
Proof.
  revert st accs G nv. induction fuel as [|fuel IH]; intros st accs G nv Hw Hi Hd Hf HQ; [lia|]. cbn [active_loop].
  apply pspec_bind. eapply pop_active_spec; [exact Hw|done|]. pose proof (gi_active _ _ Hi) as Hqd.
  destruct (gs_active G) as [|p q] eqn:Eq.
  { apply pspec_ret. eapply HQ; [exact Hw|done|done|done|]. intros p t Ht Hs. apply (gi_voting _ _ Hi p t Ht) in Hs.
    rewrite Eq in Hs. by apply not_elem_of_nil in Hs. }
  destruct (queued_front _ _ _ _ Hqd) as (t & Ht & Hstart & Hle). intros t0 Ht0. rewrite Ht in Ht0. injection Ht0 as <-.
  destruct (world_prop keeper st0 _ _ _ _ _ Hw Ht) as [Hwt Hid]. destruct (Z.leb_spec (voting_end t) h) as [Hend|Hend].
  2:{ apply pspec_ret. eapply HQ; [exact Hw|done|done|done|]. intros p' t' Ht' Hs'. apply (gi_voting _ _ Hi p' t' Ht') in Hs'.
      rewrite Eq in Hs'. specialize (Hle p' t' Hs' Ht'). unfold voting_end in *. lia. }
  apply pspec_bind. eapply (QueuePop_spec keeper ctx st0 Hkeys _ _ _ true); [exact Hw|exact Eq|]. intros st1 Hw1 _. rewrite Ht.
  rewrite voting_over_end by (apply Hwt || done). rewrite (proj2 (Z.leb_le _ _) Hend).
  eapply pspec_call; [by eapply (finish_spec st1 accs G p q t tags)|]. intros nv' st2 (accs2 & b & Hw2 & Hstep).
  eapply IH; [exact Hw2|by eapply gov_step_inv|by apply finished_in_time|simpl in *; lia|].
  intros st' accs' G' r Hw' Hr' Hi' Hd' Hv'. eapply HQ; [exact Hw'|by eapply rtc_l|done..].
Qed.

Lemma EndBlocker_reaches (st : stores) (accs : gmap Address BaseAccount) (G : gstate) (fuel : nat)
    (Hw : world st accs G) (Hi : gov_inv h G) (Hf1 : (length (gs_inactive G) < fuel)%nat) (Hf2 : (length (gs_active G) < fuel)%nat) :
  pspec m (EndBlocker keeper ctx order fuel) st (fun _ st' => exists accs' G', world st' accs' G' /\
    rtc (gov_step h verdict) (accs, G) (accs', G') /\ gov_inv h G' /\ deposits_in_time G' /\ votes_in_time G') end_panic.
Proof.
  unfold EndBlocker. eapply tags_spec; [reflexivity|]. apply pspec_bind.
  eapply inactive_loop_spec; [exact Hw|done|done|]. intros st1 G1 Hw1 Hr1 Hi1 Ha1 Hd1.
  eapply active_loop_spec; [exact Hw1|done|done|by rewrite (proj1 Ha1)|]. intros st' accs' G' r Hw' Hr' Hi' Hd' Hv'.
  exists accs', G'. split_and!; [done| |done..]. by etransitivity.
Qed.

(** C15: the end of a block terminates within a number of turns above the lengths
    of the two queues: it returns, or panics in the tally, on an overflow of
    coins or for lack of memory - never for lack of fuel.  What it does is
    steps of the state machine, and afterwards every proposal still taking
    deposits or votes is within its period. *)
Theorem gov_EndBlocker_settles (st : stores) (accs : gmap Address BaseAccount) (G : gstate) (fuel : nat)
    (Hw : world st accs G) (Hi : gov_inv h G) (Hf1 : (length (gs_inactive G) < fuel)%nat) (Hf2 : (length (gs_active G) < fuel)%nat) :
  ~ end_panic out_of_fuel /\
  pspec m (EndBlocker keeper ctx order fuel) st (fun _ st' => exists accs' G', world st' accs' G' /\
    rtc (gov_step h verdict) (accs, G) (accs', G') /\ gov_inv h G' /\ deposits_in_time G' /\ votes_in_time G') end_panic.
Proof. split; [apply out_of_fuel_no_panic|]. by apply EndBlocker_reaches. Qed.

(** C18: a voter who is not a bonded validator and has a delegation to a validator
    that is not bonded makes the tally read a missing entry of its map, whose
    numbers are nil: the end of the block in which the vote is counted
    panics, whatever the other votes are, and the block never ends. *)
Theorem unbonded_delegation_halts (st : stores) (accs : gmap Address BaseAccount) (G : gstate) (fuel : nat)
    (p : Z) (q : ProposalQueue) (t : TextProposal) (a : Address) (v : Vote) (d : sdk_Delegation)
    (Hw : world st accs G) (Hi : gov_inv h G) (Hf : (length (gs_inactive G) < fuel)%nat)
    (Hq : gs_active G = p :: q) (Ht : gs_props G !! p = Some t) (Hend : voting_end t <= h)
    (Hv : gs_votes G !! (p, a) = Some v) (Ha : is_validator vals a = false)
    (Hd : d ∈ dels a) (Hn : hex_validator d ∉ keys vals) :
  pspec m (EndBlocker keeper ctx order fuel) st (fun _ _ => False) end_panic.
Proof.
  unfold EndBlocker. eapply tags_spec; [reflexivity|]. apply pspec_bind.
  eapply inactive_loop_spec; [exact Hw|done|done|]. intros st1 G1 Hw1 _ Hi1 (K1 & K2 & K3) _.
  destruct fuel as [|fuel]; [lia|]. cbn [active_loop]. rewrite Hq in K1.
  assert (Ht1 : gs_props G1 !! p = Some t) by (rewrite K3; [done|rewrite Hq; by left]).
  pose proof (gi_active _ _ Hi1) as Hqd. rewrite K1 in Hqd. destruct (queued_front _ _ _ _ Hqd) as (t0 & Ht0 & Hstart & _).
  rewrite Ht1 in Ht0. injection Ht0 as <-. destruct (world_prop keeper st0 _ _ _ _ _ Hw1 Ht1) as [Hwt Hid].
  apply pspec_bind. eapply pop_active_spec; [exact Hw1|done|]. rewrite K1. intros t0 Ht0. rewrite Ht1 in Ht0. injection Ht0 as <-.
  rewrite (proj2 (Z.leb_le _ _) Hend).
  apply pspec_bind. eapply (QueuePop_spec keeper ctx st0 Hkeys _ _ _ true); [exact Hw1|exact K1|]. intros st2 Hw2 _. rewrite Ht1.
  rewrite voting_over_end by (apply Hwt || done). rewrite (proj2 (Z.leb_le _ _) Hend).
  apply pspec_bind. unfold finish_proposal. apply pspec_bind.
  eapply (tally_spec keeper ctx st0 vals dels order Hkeys); [exact Hw2|by right; left|]. rewrite Hid. intros entries l (_ & Hin & _).
  assert (Hav : (a, v) ∈ l) by (apply Hin; cbn [with_q with_active gs_votes]; by rewrite K2).
  destruct (w_gov _ _ _ _ _ Hw) as (s & _ & Hr). destruct (r_vote_id _ _ Hr _ _ _ Hv) as [_ Hva].
  destruct (tally_of_unbonded vals dels order l.*2 v d) as [x Hx]; [apply list_elem_of_fmap; by exists (a, v)|by rewrite Hva..|done|].
  rewrite Hx. split; [done|]. intros x' [= <-]. right. right. by eapply tally_of_panic.
Qed.
End block.

(** ** Chains of messages, ends of blocks and other programs *)

Section chain.
Context `{HCL : CodecLaws} `{HGC : GovCodecLaws} `{HAF : AddrFmtLaws} (keeper : Keeper).
Abbreviation gkey := (gk_storeKey keeper).
Abbreviation am := (gk_ck keeper).
Hypothesis Hkeys : am_key am <> gkey.
#[local] Set Default Proof Using "All".

(** A store from which one more identifier can be given. *)
Definition id_left (st : stores) : Prop := forall s bz n,
  st !! gkey = Some s -> (s : spec_store) !! KeyNextProposalID = Some bz -> UnmarshalID bz = Some n -> n + 1 < 2 ^ 63.

(** What a chain asks of another module: valid accounts, and no coins made. *)
Definition accounts_kept (st st' : stores) : Prop := forall accs n, auth_st am st accs n -> accs_ok accs ->
  exists accs' n', auth_st am st' accs' n' /\ accs_ok accs' /\ forall d, total accs' d <= total accs d.

(** At heights that do not decrease.  The end of a block is one that returns
    with every fuel from some on: the code's loops have none. *)
Inductive gov_chain : Z -> stores -> Z -> stores -> Prop :=
  | gchain_done h st : gov_chain h st h st
  | gchain_msg h ctx msg r st st1 h' st' :
      h <= cx_BlockHeight ctx -> is_int64 (cx_BlockHeight ctx) -> gov_msg_ok msg -> id_left st ->
      runs (cx_GasMeter ctx) (NewHandler keeper ctx Some msg) st r st1 ->
      gov_chain (cx_BlockHeight ctx) st1 h' st' -> gov_chain h st h' st'
  | gchain_end h ctx vals dels order least r st st1 h' st' :
      h <= cx_BlockHeight ctx -> is_int64 (cx_BlockHeight ctx) -> cx_BlockHeight ctx + 200 < 2 ^ 63 ->
      Delegations (gk_ds keeper) ctx gkey (am_key am) st vals dels ->
      (forall fuel, (least <= fuel)%nat -> runs (cx_GasMeter ctx) (EndBlocker keeper ctx order fuel) st r st1) ->
      gov_chain (cx_BlockHeight ctx) st1 h' st' -> gov_chain h st h' st'
  | gchain_other h m (A : Type) (p : prog A) a st st1 h' st' :
      touches (fun key => key <> gkey) p -> accounts_kept st st1 -> runs m p st a st1 ->
      gov_chain h st1 h' st' -> gov_chain h st h' st'.

(** The state of governance a store holds; the other stores are any. *)
Abbreviation holds_gov st := (GovRep.world keeper st st).

Lemma world_here st0 st accs G : GovRep.world keeper st0 st accs G -> holds_gov st accs G.
Proof using Type. by intros [? ? ? _]. Qed.

Lemma id_left_ids st accs G h : holds_gov st accs G -> gov_inv h G -> id_left st -> ids_left G.
Proof using Type.
  intros [_ _ (s & Hs & Hr) _] Hi Hl. destruct (gi_fresh _ _ Hi) as (n & Hn & _). exists n. split; [done|].
  pose proof (r_next _ _ Hr) as Hh. rewrite Hn in Hh. destruct (holds_Some _ _ _ Hh) as (bz & Eb & Ed). by eapply Hl.
Qed.

(** What a program of another module does is not governance's. *)
Lemma other_world {A : Type} m (p : prog A) a st st1 accs G :
  touches (fun key => key <> gkey) p -> accounts_kept st st1 -> runs m p st a st1 -> holds_gov st accs G ->
  exists accs1, holds_gov st1 accs1 G /\ forall d, total accs1 d <= total accs d.
Proof using Type.
  intros Hp Hk Hr [[n Hn] Ho (s & Hs & Hg) _]. destruct (Hk accs n Hn Ho) as (accs1 & n1 & Hn1 & Ho1 & Hc).
  assert (Hsame : st1 !! gkey = st !! gkey).
  { eapply (runs_pspec _ _ _ _ _ (fun _ st1 => st1 !! gkey = st !! gkey)); [exact Hr|].
    eapply pspec_runs; [exact Hp|]. intros ? ? _ Hx. apply Hx. intros Hne. by apply Hne. }
  exists accs1. split; [|done]. constructor; [by exists n1|done| |done]. exists s. by rewrite Hsame.
Qed.

(** C17: over any sequence of governance messages - with valid coins, and while
    identifiers are left -, of ends of blocks, and of programs of other modules
    that leave the governance store alone, keep the accounts valid and make no
    coins, all of which return and at heights that do not decrease: the
    invariant of the module holds at the end, the accounts and the deposits
    together never hold more coins than at the start, and identifiers are never
    given again - the next one never decreases, a proposal under an identifier
    given before is the one it was given to, with the same text, kind and block,
    and the deposits of a proposal that is gone, which a drop leaves in the
    store, stay there for good. *)
Theorem gov_chain_inv (h h' : Z) (st st' : stores) (accs : gmap Address BaseAccount) (G : gstate)
    (Hc : gov_chain h st h' st') (Hw : holds_gov st accs G) (Hi : gov_inv h G) :
  exists accs' G', holds_gov st' accs' G' /\ gov_inv h' G' /\
    (forall d, total accs' d + dep_total G' d <= total accs d + dep_total G d) /\ ids_kept G G'.
Proof.
  revert accs G Hw Hi. induction Hc as [h st|h ctx msg r st st1 h' st' Hh Hint Hm Hl Hr _ IH
    |h ctx vals dels order least r st st1 h' st' Hh Hint Hlate Hdel Hr _ IH|h m A p a st st1 h' st' Hp Hk Hr _ IH]; intros accs G Hw Hi.
  - exists accs, G. split_and!; [done..|]. apply ids_kept_refl. destruct (gi_fresh _ _ Hi) as (n & Hn & _). by exists n.
  - apply (gov_inv_later _ _ _ Hh) in Hi.
    pose proof (runs_pspec _ _ _ _ _ _ _ Hr (handler_reaches keeper ctx st [] (fun _ => []) (fun l => l) Hkeys Hint st accs G msg
      Hw Hi (id_left_ids _ _ _ _ Hw Hi Hl) Hm)) as (accs1 & G1 & Hw1 & Hs).
    destruct (gov_steps_inv _ _ _ _ _ _ Hs Hi) as (Hi1 & Hc1 & Hk1).
    destruct (IH accs1 G1 (world_here _ _ _ _ Hw1) Hi1) as (accs2 & G2 & Hw2 & Hi2 & Hc2 & Hk2).
    exists accs2, G2. split_and!; [done..| |by eapply ids_kept_trans]. intros d. specialize (Hc1 d). specialize (Hc2 d). lia.
  - apply (gov_inv_later _ _ _ Hh) in Hi. set (fuel := (least + S (length (gs_inactive G) + length (gs_active G)))%nat).
    pose proof (runs_pspec _ _ _ _ _ _ _ (Hr fuel ltac:(lia)) (EndBlocker_reaches keeper ctx st vals dels order Hkeys Hlate st accs G fuel
      Hw Hi ltac:(lia) ltac:(lia))) as (accs1 & G1 & Hw1 & Hs & _).
    destruct (gov_steps_inv _ _ _ _ _ _ Hs Hi) as (Hi1 & Hc1 & Hk1).
    destruct (IH accs1 G1 (world_here _ _ _ _ Hw1) Hi1) as (accs2 & G2 & Hw2 & Hi2 & Hc2 & Hk2).
    exists accs2, G2. split_and!; [done..| |by eapply ids_kept_trans]. intros d. specialize (Hc1 d). specialize (Hc2 d). lia.
  - destruct (other_world m p a st st1 accs G Hp Hk Hr Hw) as (accs1 & Hw1 & Hc1).
    destruct (IH accs1 G Hw1 Hi) as (accs2 & G2 & Hw2 & Hi2 & Hc2 & Hk2).
    exists accs2, G2. split_and!; [done..| |done]. intros d. specialize (Hc1 d). specialize (Hc2 d). lia.
Qed.
End chain.
