(* ===== verification/GovStake.v ===== *)
(** * Governance on the staking module

    The staking keeper's iterations are what the tally asks for
    ([GovTally.Delegations]): over the validators the index of bonded ones
    leads to and the delegations below a voter's key. *)
From Stdlib Require Import Strings.Byte Strings.String.
From S2P Require Import Prelude Int Rational Errors Coin KVStore MultiStore Account Context ProgLogic Auth Records Ante Bank.
From S2P Require Import Pool Validator StakeKey StakeKeeper GovTypes GovKeeper GovRep GovTally.
#[local] Open Scope string_scope.
#[local] Open Scope list_scope.
#[local] Open Scope Z_scope.

Section stake.
Context `{StakeCodec} `{!AddrCodec} (k : StakeKeeper.Keeper) (ctx : Ctx) (k1 k2 : StoreKey) (st0 : stores) (s : spec_store).
Abbreviation m := (cx_GasMeter ctx).
Abbreviation sk := (storeKey k).

(** The pairs of the store below a prefix. *)
Definition below (p : bytes) : list (bytes * bytes) := range true (Some p) (prefix_end p) s.

(** The bonded validators and the delegations that the store holds. *)
Record staking_holds (vals : list Validator) (dels : Address -> list Delegation) : Prop := mk_staking_holds {
  sh_bonded : Forall2 (fun kv v => holds UnmarshalValidator (s !! GetValidatorKey kv.2) (Some v)) (below ValidatorsBondedIndexKey) vals;
  sh_dels : forall a, exists key, GetDelegationsKey a = Ok key /\ key <> [] /\
    Forall2 (fun kv d => UnmarshalDelegation kv.2 = Some d) (below key) (dels a)
}.

(** Reading an entry gives its record, on every store considered. *)
Definition reads {A : Type} (read : slice * slice -> prog A) (kv : bytes * bytes) (a : A) : Prop :=
  forall st (Q : A -> stores -> Prop) (E : panic_value -> Prop),
    st !! sk = Some s -> Q a st -> pspec m (read (Some kv.1, Some kv.2)) st Q E.

Lemma iterate_spec {A V S : Type} (read : slice * slice -> prog A) (view : A -> V) (entries : list (bytes * bytes)) (l : list A)
    (fn : Z -> A -> S -> prog (bool * S)) g i (x : S) st (Q : S -> stores -> Prop) (E : panic_value -> Prop) :
  Forall2 (reads read) entries l -> (forall i a x, fn i a x = lift (g (view a) x)) -> st !! sk = Some s ->
  (forall x', run_list g (view <$> l) x = Ok x' -> Q x' st) -> (forall q, run_list g (view <$> l) x = Panicked q -> E q) ->
  pspec m (iterate_loop read fn (slices entries) i x) st Q E.
Proof.
  intros Hl Hfn Hs. revert i x. induction Hl as [|kv a entries l Hr _ IH]; intros i x HQ HP; [by apply pspec_ret, HQ|].
  rewrite fmap_cons in HQ, HP. change (slices (kv :: entries)) with ((Some kv.1, Some kv.2) :: slices entries). cbn [iterate_loop].
  apply pspec_bind, Hr; [done|]. rewrite Hfn. cbn [run_list] in HQ, HP.
  apply pspec_bind, pspec_lift.
  - intros [stop x'] Hg. rewrite Hg in HQ, HP. cbn in HQ, HP. destruct stop; [by apply pspec_ret, HQ|]. by apply IH.
  - intros q Hg. apply HP. by rewrite Hg.
Qed.

Lemma stake_Delegations (vals : list Validator) (dels : Address -> list Delegation) :
  sk <> k1 -> sk <> k2 -> st0 !! sk = Some s -> staking_holds vals dels ->
  Delegations (stake_DelegationSet k) ctx k1 k2 st0 (validator_view <$> vals) (fun a => delegation_view <$> dels a).
Proof.
  intros Hk1 Hk2 Hs [Hb Hd]. split.
  - intros S fn g x st Q E Ho HE Hfn HQ HP. assert (Hst : st !! sk = Some s) by (rewrite Ho by done; exact Hs).
    apply pspec_bind, (pspec_Prefix _ _ _ s); [done|done|done|].
    eapply (iterate_spec _ validator_view _ vals); [|by intros; apply Hfn|done|exact HQ|exact HP].
    eapply Forall2_impl; [exact Hb|]. intros kv v Hh st' Q' E' Hst' HQ'. apply pspec_bind, pspec_iter_Value.
    unfold indexed_validator. apply pspec_bind. eapply pspec_read; [exact Hst'|exact Hh|]. by apply pspec_ret.
  - intros S fn g x a st Q E Ho HE Hfn HQ HP. assert (Hst : st !! sk = Some s) by (rewrite Ho by done; exact Hs).
    destruct (Hd a) as (key & Hkey & Hne & Hf). apply pspec_bind, pspec_lift; rewrite Hkey; [|done]. intros ? [= <-].
    apply pspec_bind, (pspec_Prefix _ _ _ s); [done|done|done|].
    eapply (iterate_spec _ delegation_view _ (dels a)); [|by intros; apply Hfn|done|exact HQ|exact HP].
    eapply Forall2_impl; [exact Hf|]. intros kv d Hh st' Q' E' Hst' HQ'. apply pspec_bind, pspec_iter_Value.
    simpl. apply pspec_lift; unfold must_unmarshal; rewrite Hh; [|done]. by intros ? [= <-].
Qed.
End stake.
