(* ===== verification/GovExamples.v ===== *)
(** * Governance examples

    An encoding of the governance records, and a small world on the staking
    module's store: validator 07 is bonded with all of the 10 shares that
    account 05 delegated, validator 08 is not bonded and has a delegation of
    account 06.  Proposal 1 is being voted on, proposal 2 takes deposits. *)
From Stdlib Require Import Strings.Byte Strings.String.
From S2P Require Import Prelude Wire Int Rational Errors Coin KVStore MultiStore Account Context ProgLogic Auth Records Ante Bank.
From S2P Require Import Pool Validator StakeKey StakeKeeper StakeModel StakeRep StakeExamples GovTypes GovKeeper GovRep GovDeposit GovTally GovCount GovSteps Footprint GovBlock GovStake.
From Stdlib Require Import QArith.
#[local] Open Scope string_scope.
#[local] Open Scope list_scope.
#[local] Open Scope Z_scope.

#[local] Existing Instance model_Crypto.
#[local] Existing Instance model_CryptoLaws.
#[local] Existing Instance model_Codec.
#[local] Existing Instance model_CodecLaws.
#[local] Existing Instance model_TM2PB.
#[local] Existing Instance model_StakeCodec.
#[local] Existing Instance model_StakeCodecLaws.
#[local] Existing Instance model_AddrCodec.
#[local] Existing Instance model_AddrCodecLaws.

(** ** An encoding *)

#[export] Instance wire_TextProposal : Wire TextProposal.
Proof.
  refine (wire_iso (fun t => (tp_ProposalID t, tp_Title t, tp_Description t, tp_ProposalType t, tp_Status t, tp_SubmitBlock t,
    tp_TotalDeposit t, tp_VotingStartBlock t)) (fun '(a, b, c, d, e, f, g, h) => mk_TextProposal a b c d e f g h) _). by intros [].
Defined.
#[export] Instance wire_Vote : Wire Vote.
Proof.
  refine (wire_iso (fun v => (vt_Voter v, vt_ProposalID v, vt_Option v)) (fun '(a, b, c) => mk_Vote a b c) _). by intros [].
Defined.
#[export] Instance wire_Deposit : Wire Deposit.
Proof.
  refine (wire_iso (fun d => (dp_Depositer d, dp_ProposalID d, dp_Amount d)) (fun '(a, b, c) => mk_Deposit a b c) _). by intros [].
Defined.

#[export] Instance is_byte_dec z : Decision (is_byte z).
Proof. unfold is_byte. apply _. Defined.
#[export] Instance proposal_wf_dec t : Decision (proposal_wf t).
Proof.
  refine (decide_record (is_int64 (tp_ProposalID t) /\ is_byte (tp_ProposalType t) /\ is_byte (tp_Status t) /\
    is_int64 (tp_SubmitBlock t) /\ amounts_wf (tp_TotalDeposit t) /\ is_int64 (tp_VotingStartBlock t)) _ _ _);
    [by intros (? & ? & ? & ? & ? & ?)|by intros []].
Defined.
#[export] Instance deposit_wf_dec d : Decision (deposit_wf d).
Proof. unfold deposit_wf. apply _. Defined.
#[export] Instance vote_wf_dec v : Decision (vote_wf v).
Proof. unfold vote_wf. apply _. Defined.
#[export] Instance queue_wf_dec q : Decision (queue_wf q).
Proof. unfold queue_wf. apply _. Defined.

Definition model_GovCodec : GovCodec := {|
  MarshalProposal := enc_some; UnmarshalProposal := dec_checked proposal_wf;
  MarshalVote := enc_some; UnmarshalVote := dec_checked vote_wf;
  MarshalDeposit := enc_some; UnmarshalDeposit := dec_checked deposit_wf;
  MarshalQueue := enc_some; UnmarshalQueue := dec_checked queue_wf;
  MarshalID := enc_some; UnmarshalID := dec_checked is_int64;
  MarshalIDBare := enc_some |}.
#[local] Existing Instance model_GovCodec.

Lemma model_GovCodecLaws : GovCodecLaws.
Proof. split; try (apply checked_decoded || apply checked_roundtrip). intros z _. by eexists. Qed.
#[local] Existing Instance model_GovCodecLaws.

Definition model_AddrFmt : AddrFmt := {| FmtAddress := string_of_list_byte |}.
#[local] Existing Instance model_AddrFmt.
Lemma model_AddrFmtLaws : AddrFmtLaws.
Proof.
  constructor. intros a b E. apply (f_equal list_byte_of_string) in E. simpl in E.
  by rewrite !list_byte_of_string_of_list_byte in E.
Qed.
#[local] Existing Instance model_AddrFmtLaws.

(** ** The staking store *)

Definition a5 : Address := [Byte.x05].
Definition a6 : Address := [Byte.x06].
Definition v7 : Validator := ex_val ([Byte.x07] : bytes) Bonded (10 # 1) (10 # 1).
Definition v8 : Validator := ex_v8.
Definition del5 : Delegation := mk_Delegation a5 [Byte.x07] (10 # 1) 0.
Definition del6 : Delegation := mk_Delegation a6 [Byte.x08] (10 # 1) 0.

Definition stake_s : spec_store :=
  <[GetValidatorsBondedIndexKey [Byte.x07] := [Byte.x07]]>
  (<[GetValidatorKey (Owner v8) := enc v8]> (<[GetValidatorKey (Owner v7) := enc v7]>
  (<[key_of (GetDelegationKey a6 [Byte.x08]) := enc del6]> {[ key_of (GetDelegationKey a5 [Byte.x07]) := enc del5 ]}))).

(** The delegations of [a] as the store has them. *)
Definition stored_dels (a : Address) : list Delegation :=
  omap (fun kv => UnmarshalDelegation kv.2) (below stake_s (key_of (GetDelegationsKey a))).

Lemma delegation_entries k bz : stake_s !! k = Some bz -> head k = head DelegationKey -> exists d, UnmarshalDelegation bz = Some d.
Proof.
  unfold stake_s. rewrite !lookup_insert_Some, lookup_singleton_Some.
  intros [[ <- _ ]|[_ [[ <- _ ]|[_ [[ <- _ ]|[_ [[_ <-]|[_ [_ <-]]]]]]]]] Hk; try discriminate Hk; vm_compute; by eexists.
Qed.

Lemma Forall2_omap {A B : Type} (f : A -> option B) (l : list A) :
  Forall (fun a => is_Some (f a)) l -> Forall2 (fun a b => f a = Some b) l (omap f l).
Proof.
  induction 1 as [|a l [b Hb] _ IH]; [constructor|]. simpl. rewrite Hb. by constructor.
Qed.

Lemma stake_s_holds : staking_holds stake_s [v7] stored_dels.
Proof.
  split.
  - replace (below stake_s ValidatorsBondedIndexKey) with [(GetValidatorsBondedIndexKey [Byte.x07], [Byte.x07] : bytes)].
    + repeat constructor; vm_compute; reflexivity.
    + vm_compute. reflexivity.
  - intros a. destruct (GetDelegationsKey a) as [key|q] eqn:Ek; [|by unfold GetDelegationsKey in Ek].
    exists key. unfold GetDelegationsKey in Ek. cbn in Ek. injection Ek as <-. split_and!; [done|done|].
    unfold stored_dels. apply Forall2_omap, Forall_forall. intros [k bz] Hin. unfold below in Hin.
    apply (proj2 (range_spec true _ _ stake_s)) in Hin as [Hk Hd]. apply prefix_end_domain in Hd as [r ->].
    destruct (delegation_entries _ _ Hk) as [d Hd]; [done|]. by exists d.
Qed.

(** ** The governance store *)

Definition stake_k : StakeKeeper.Keeper := StakeKeeper.NewKeeper (mk_StoreKey 3 "stake") ex_am 4.
Definition gov_key : StoreKey := mk_StoreKey 5 "gov".
Definition gov_k : GovKeeper.Keeper := GovKeeper.NewKeeper gov_key ex_am (stake_DelegationSet stake_k) GovErrors.DefaultCodespace.

Definition steak (n : Z) : Coins := [mk_Coin "steak" n].
Definition prop1 : TextProposal := mk_TextProposal 1 "one" "d" ProposalTypeText StatusVotingPeriod 0 (steak 10) 0.
Definition prop2 : TextProposal := mk_TextProposal 2 "two" "d" ProposalTypeText StatusDepositPeriod 0 (steak 3) (-1).
Definition dep1 : Deposit := mk_Deposit a5 1 (steak 10).
Definition dep2 : Deposit := mk_Deposit a5 2 (steak 3).

(** The states, a record at a time; the last has the vote of [v]. *)
Definition G0 : gstate := mk_gstate None ∅ ∅ ∅ [] [].
Definition G1 : gstate := with_next G0 (Some 3).
Definition G2 : gstate := with_props G1 (<[1 := prop1]> (gs_props G1)).
Definition G3 : gstate := with_props G2 (<[2 := prop2]> (gs_props G2)).
Definition G4 : gstate := with_deps G3 (<[(1, a5) := dep1]> (gs_deps G3)).
Definition G5 : gstate := with_deps G4 (<[(2, a5) := dep2]> (gs_deps G4)).
Definition G6 : gstate := with_active G5 [1].
Definition G7 : gstate := with_inactive G6 [2].
Definition ex_G (v : Vote) : gstate := with_votes G7 (<[(vt_ProposalID v, vt_Voter v) := v]> (gs_votes G7)).

Definition gov_s (v : Vote) : spec_store :=
  <[KeyVote (vt_ProposalID v) (vt_Voter v) := enc v]> (<[KeyInactiveProposalQueue := enc [2]]> (<[KeyActiveProposalQueue := enc [1]]>
  (<[KeyDeposit 2 a5 := enc dep2]> (<[KeyDeposit 1 a5 := enc dep1]> (<[KeyProposal 2 := enc prop2]> (<[KeyProposal 1 := enc prop1]>
  (<[KeyNextProposalID := enc 3]> ∅))))))).

Lemma gov_rep (v : Vote) : vote_wf v -> GovRep.rep (gov_s v) (ex_G v).
Proof.
  intros Hv. unfold gov_s, ex_G.
  destruct (checked_roundtrip vote_wf v Hv) as (bz & [= <-] & E). refine (GovRep.rep_SetVote _ G7 v (enc v) _ E). clear E.
  refine (GovRep.rep_SetInactive _ G6 [2] (enc [2]) _ _); [|vm_compute; reflexivity].
  refine (GovRep.rep_SetActive _ G5 [1] (enc [1]) _ _); [|vm_compute; reflexivity].
  refine (GovRep.rep_SetDeposit _ G4 dep2 (enc dep2) _ _); [|vm_compute; reflexivity].
  refine (GovRep.rep_SetDeposit _ G3 dep1 (enc dep1) _ _); [|vm_compute; reflexivity].
  refine (GovRep.rep_SetProposal _ G2 prop2 (enc prop2) _ _); [|vm_compute; reflexivity].
  refine (GovRep.rep_SetProposal _ G1 prop1 (enc prop1) _ _); [|vm_compute; reflexivity].
  refine (GovRep.rep_SetNext _ G0 3 (enc 3) _ _); [|vm_compute; reflexivity].
  split; simpl; try done; try (intros; by rewrite lookup_empty); intros k [? Hk]; by rewrite lookup_empty in Hk.
Qed.

(** ** The world *)

Definition gov_acc : BaseAccount := mk_BaseAccount a5 [mk_Coin "steak" 20] None 0 3.
Definition gov_accs : gmap Address BaseAccount := {[ a5 := gov_acc ]}.
Definition gov_world (v : Vote) : stores :=
  <[gov_key := gov_s v]> (<[mk_StoreKey 3 "stake" := stake_s]> {[ example_key := {[ AddressStoreKey a5 := ser (account_data gov_acc) ]} ]}).
Definition gov_ctx : Ctx := WithBlockHeight ex_ctx 200.

Lemma gov_accs_ok : accs_ok gov_accs.
Proof.
  intros a acc. unfold gov_accs. rewrite lookup_singleton_Some. intros [_ <-]. split_and!.
  - split; [repeat constructor|]. by repeat constructor.
  - intros d. simpl. destruct (decide _); lia.
  - by repeat constructor.
Qed.

Lemma ex_world_ok (v : Vote) : vote_wf v -> GovRep.world gov_k (gov_world v) (gov_world v) gov_accs (ex_G v).
Proof.
  intros Hv. split; [|exact gov_accs_ok| |done].
  - exists 0. eexists. split; [reflexivity|]. split; [|split; [reflexivity|split; vm_compute; discriminate]].
    intros addr. unfold gov_accs. destruct (decide (a5 = addr)) as [ <- |Hne].
    + rewrite !lookup_singleton_eq. split; [vm_compute; reflexivity|]. split; [|reflexivity].
      split; [by repeat constructor|split; split; vm_compute; discriminate].
    + rewrite !lookup_singleton_ne; [exact I|exact Hne|]. intros Heq. apply Hne. by apply AddressStoreKey_inj.
  - exists (gov_s v). split; [apply lookup_insert_eq|]. by apply gov_rep.
Qed.

Lemma ex_Delegations (v : Vote) :
  Delegations (gk_ds gov_k) gov_ctx (gk_storeKey gov_k) (am_key (gk_ck gov_k)) (gov_world v)
    [validator_view v7] (fun a => delegation_view <$> stored_dels a).
Proof. apply (stake_Delegations stake_k gov_ctx _ _ _ stake_s [v7] stored_dels); [done|done|reflexivity|exact stake_s_holds]. Qed.

Lemma steak_ok n : 0 < n < 100 -> coins_ok (steak n).
Proof.
  intros Hn. split_and!.
  - split; [repeat constructor|]. constructor; [simpl; lia|constructor].
  - intros d. simpl. destruct (decide _); lia.
  - constructor; [|constructor]. unfold Int.wf. simpl. lia.
Qed.

Lemma ex_inv (v : Vote) : gov_inv 200 (ex_G v).
Proof.
  assert (Hl : forall p t, gs_props (ex_G v) !! p = Some t -> (p = 2 /\ t = prop2) \/ (p = 1 /\ t = prop1)).
  { intros p t. unfold ex_G. cbn -[insert]. rewrite !lookup_insert_Some, lookup_empty. naive_solver. }
  assert (Hdl : forall k r, gs_deps (ex_G v) !! k = Some r -> (k = (2, a5) /\ r = dep2) \/ (k = (1, a5) /\ r = dep1)).
  { intros k r. unfold ex_G. cbn -[insert]. rewrite !lookup_insert_Some, lookup_empty. naive_solver. }
  constructor.
  - exists 3. split_and!; [done| |].
    + intros p [t [[-> _]|[-> _]]%Hl]; done.
    + intros p a [r [[[= -> _] _]|[[= -> _] _]]%Hdl]; done.
  - intros k r [[_ ->]|[_ ->]]%Hdl; by apply steak_ok.
  - intros p t [[_ ->]|[_ ->]]%Hl; by apply steak_ok.
  - intros p t d [[-> ->]|[-> ->]]%Hl _; unfold dep_sum; cbn [gs_deps ex_G G7 G6 G5 G4 G3 G2 G1 G0 with_votes with_inactive with_active with_deps with_props with_next];
      (rewrite map_total_insert, map_total_insert, map_total_empty); unfold dep_part; cbn -[insert]; repeat case_decide; done.
  - split_and!; [by apply NoDup_singleton| |repeat constructor]. intros p ->%list_elem_of_singleton. split; [by eexists|by vm_compute].
  - split_and!; [by apply NoDup_singleton| |repeat constructor]. intros p ->%list_elem_of_singleton. split; [by eexists|by vm_compute].
  - intros p t [[-> ->]|[-> ->]]%Hl; [|done]. intros _. by left.
  - intros p t [[-> ->]|[-> ->]]%Hl; cbn; rewrite list_elem_of_singleton; done.
Qed.

(** ** Runs *)

Definition vote5 : Vote := mk_Vote a5 1 OptionYes.
Definition vote6 : Vote := mk_Vote a6 1 OptionYes.
Definition same_order (l : list validatorGovInfo) : list validatorGovInfo := l.

Definition run_gov {A} (v : Vote) (p : prog A) : outcome A * spec_store * option Coins :=
  let '(r, w) := interp p (mk_World (mk_spec_ms (gov_world v) ∅) [NewInfiniteGasMeter]) in
  (r, default ∅ (sm_stores (w_ms w) !! gov_key),
   bz ← (s ← sm_stores (w_ms w) !! example_key; (s : spec_store) !! AddressStoreKey a5); acc_Coins <$> UnmarshalAccount bz).

(** With the vote of 05, proposal 1 passes and its deposit is returned;
    proposal 2 is dropped and its deposit stays.  With the vote of 06, who
    delegates to the validator that is not bonded, the block panics. *)
Example gov_EndBlocker_run :
  (let '(r, s, c) := run_gov vote5 (EndBlocker gov_k gov_ctx same_order 2) in
   (r, tp_Status <$> (s !! KeyProposal 1 ≫= UnmarshalProposal), s !! KeyProposal 2,
    dp_Amount <$> (s !! KeyDeposit 2 a5 ≫= UnmarshalDeposit), c) =
   (Ok ([], [[Byte.x07]]), Some StatusPassed, None, Some (steak 3), Some (steak 30))) /\
  (run_gov vote6 (EndBlocker gov_k gov_ctx same_order 2)).1.1 = Panicked nil_pointer.
Proof. vm_compute. split; reflexivity. Qed.

(** ** The theorems at the example *)

#[local] Existing Instance ex_Delegations.

Lemma ex_keys : am_key (gk_ck gov_k) <> gk_storeKey gov_k.
Proof. done. Qed.
Lemma ex_gov_height : is_int64 (cx_BlockHeight gov_ctx).
Proof. split; vm_compute; discriminate. Qed.
Lemma vote5_wf : vote_wf vote5.
Proof. split; [split; vm_compute; discriminate|split; [vm_compute; discriminate|reflexivity]]. Qed.
Lemma vote6_wf : vote_wf vote6.
Proof. split; [split; vm_compute; discriminate|split; [vm_compute; discriminate|reflexivity]]. Qed.

Lemma gov_EndBlocker_settles_witness :
  pspec 0 (EndBlocker gov_k gov_ctx same_order 2) (gov_world vote5) (fun _ st' => exists accs' G',
    GovRep.world gov_k (gov_world vote5) st' accs' G' /\ gov_inv 200 G') end_panic.
Proof.
  eapply pspec_mono.
  - exact (proj2 (gov_EndBlocker_settles gov_k gov_ctx (gov_world vote5) _ _ same_order (HDL:=ex_Delegations vote5) ex_keys eq_refl
      (gov_world vote5) gov_accs (ex_G vote5) 2 (ex_world_ok vote5 vote5_wf) (ex_inv vote5) ltac:(vm_compute; lia) ltac:(vm_compute; lia))).
  - intros r st' (accs' & G' & Hw & _ & Hi & _). by exists accs', G'.
  - done.
Defined.

Lemma unbonded_delegation_halts_witness :
  pspec 0 (EndBlocker gov_k gov_ctx same_order 2) (gov_world vote6) (fun _ _ => False) end_panic.
Proof.
  refine (unbonded_delegation_halts gov_k gov_ctx (gov_world vote6) _ _ same_order (HDL:=ex_Delegations vote6) ex_keys eq_refl
    (gov_world vote6) gov_accs (ex_G vote6) 2 1 [] prop1 a6 vote6 (delegation_view del6)
    (ex_world_ok vote6 vote6_wf) (ex_inv vote6) _ eq_refl eq_refl _ eq_refl _ _ _).
  - vm_compute. lia.
  - vm_compute. discriminate.
  - reflexivity.
  - apply list_elem_of_fmap. exists del6. split; [done|]. replace (stored_dels a6) with [del6] by (vm_compute; reflexivity). by left.
  - apply (bool_decide_eq_false (hex_validator (delegation_view del6) ∈ keys [validator_view v7])). reflexivity.
Defined.

Definition ex_deposit_msg : gov_Msg := DepositMsg (mk_MsgDeposit 2 a5 (steak 7)).

Lemma gov_handler_steps_witness :
  pspec 0 (NewHandler gov_k gov_ctx Some ex_deposit_msg) (gov_world vote5)
    (fun _ st' => reaches gov_k gov_ctx (gov_world vote5) [validator_view v7] (fun a => delegation_view <$> stored_dels a)
       same_order gov_accs (ex_G vote5) st') overflows.
Proof.
  refine (gov_handler_steps gov_k gov_ctx (gov_world vote5) _ _ same_order ex_keys ex_gov_height
    (gov_world vote5) gov_accs (ex_G vote5) ex_deposit_msg (ex_world_ok vote5 vote5_wf) (ex_inv vote5) _ (steak_ok 7 ltac:(lia))).
  exists 3. split; [done|lia].
Defined.

(** A chain: the block that passes proposal 1 and drops proposal 2, and then a
    new proposal. *)
Definition next_ctx : Ctx := WithBlockHeight ex_ctx 210.
Definition ex_submit_msg : gov_Msg := SubmitProposal (mk_MsgSubmitProposal "three" "d" ProposalTypeText a5 (steak 4)).

Definition end_run (fuel : nat) :=
  interp (EndBlocker gov_k gov_ctx same_order fuel) (mk_World (mk_spec_ms (gov_world vote5) ∅) [NewInfiniteGasMeter]).
Definition end_stores : stores := sm_stores (w_ms (end_run 2).2).
Definition submit_run :=
  interp (NewHandler gov_k next_ctx Some ex_submit_msg) (mk_World (mk_spec_ms end_stores ∅) [NewInfiniteGasMeter]).

(** A fuel above 2 makes no difference. *)
Lemma end_run_fuel fuel : (2 <= fuel)%nat -> end_run fuel = end_run 2.
Proof. destruct fuel as [|[|fuel]]; [lia|lia|]. intros _. vm_compute. reflexivity. Qed.

Lemma end_run_ok fuel : (2 <= fuel)%nat ->
  runs 0 (EndBlocker gov_k gov_ctx same_order fuel) (gov_world vote5) ([], [[Byte.x07]]) end_stores.
Proof.
  intros Hf. exists ∅, [NewInfiniteGasMeter], (end_run 2).2. split; [by eexists|]. split; [|done].
  change (end_run fuel = (Ok ([], [[Byte.x07]]), (end_run 2).2)). rewrite (end_run_fuel fuel Hf).
  assert (E : (end_run 2).1 = Ok ([], [[Byte.x07]])) by (vm_compute; reflexivity).
  rewrite <- E. apply surjective_pairing.
Qed.

Lemma submit_run_ok : exists r, runs 0 (NewHandler gov_k next_ctx Some ex_submit_msg) end_stores r (sm_stores (w_ms submit_run.2)).
Proof.
  assert (E : exists r, submit_run.1 = Ok r) by (eexists; vm_compute; reflexivity). destruct E as [r E].
  exists r, ∅, [NewInfiniteGasMeter], submit_run.2. split; [by eexists|]. split; [|done].
  rewrite <- E. apply surjective_pairing.
Qed.

Lemma end_id_left : id_left gov_k end_stores.
Proof.
  intros s bz n. change (gk_storeKey gov_k) with gov_key.
  assert (E : (end_stores !! gov_key ≫= (fun s : spec_store => s !! KeyNextProposalID)) = Some (enc 3)) by (vm_compute; reflexivity).
  intros Hs Hb Hn. rewrite Hs in E. simpl in E. rewrite Hb in E. injection E as ->.
  vm_compute in Hn. by injection Hn as <-.
Qed.

Lemma ex_gov_chain : gov_chain gov_k 200 (gov_world vote5) 210 (sm_stores (w_ms submit_run.2)).
Proof.
  refine (gchain_end gov_k 200 gov_ctx _ _ same_order 2 _ _ _ _ _ _ ex_gov_height eq_refl (ex_Delegations vote5) end_run_ok _);
    [vm_compute; discriminate|].
  destruct submit_run_ok as [r Hr].
  refine (gchain_msg gov_k _ next_ctx ex_submit_msg r _ _ _ _ _ _ (conj (steak_ok 4 ltac:(lia)) _) end_id_left Hr (gchain_done gov_k _ _)).
  - vm_compute. discriminate.
  - split; vm_compute; discriminate.
  - split; vm_compute; [discriminate|reflexivity].
Qed.

Lemma gov_chain_inv_witness :
  exists accs' G', GovRep.world gov_k (sm_stores (w_ms submit_run.2)) (sm_stores (w_ms submit_run.2)) accs' G' /\ gov_inv 210 G' /\
    total accs' "steak" + dep_total G' "steak" <= 33 /\ ids_kept (ex_G vote5) G'.
Proof.
  destruct (gov_chain_inv gov_k ex_keys 200 210 _ _ gov_accs (ex_G vote5) ex_gov_chain (ex_world_ok vote5 vote5_wf) (ex_inv vote5))
    as (accs' & G' & Hw & Hi & Hc & Hk).
  exists accs', G'. split; [exact Hw|]. split; [exact Hi|]. split; [|exact Hk].
  etransitivity; [apply Hc|]. vm_compute. discriminate.
Defined.

(** One validator with power 10, whose only delegator votes. *)
Lemma tally_counts_witness :
  exists nonVoting, tally_of same_order [validator_view v7] (fun _ => [delegation_view del5]) [vote5] = Ok (true, nonVoting).
Proof.
  destruct (tally_counts [validator_view v7] (fun _ => [delegation_view del5]) [vote5] same_order) as (b & nv & E & Hb & _).
  - constructor.
    + by apply NoDup_singleton.
    + intros w ->%list_elem_of_singleton. split; [vm_compute; discriminate|reflexivity].
    + intros v ->%list_elem_of_singleton. reflexivity.
    + intros v d _ ->%list_elem_of_singleton. split; [by left|vm_compute; discriminate].
    + intros w ->%list_elem_of_singleton. vm_compute. discriminate.
  - reflexivity.
  - exists nv. rewrite E. f_equal. f_equal. apply Hb. split_and!; [vm_compute; discriminate|vm_compute; discriminate|reflexivity].
Defined.
