(* ===== verification/SlashTypes.v ===== *)
(** * x/slashing: errors, parameters, the message, signing infos and keys

    errors.go, params.go, msg.go and the data of signing_info.go.  The module
    keeps, for each validator (by the address of its key), a record of its
    signatures and one bit for each of the last SignedBlocksWindow blocks it
    should have signed. *)
From Stdlib Require Import Strings.Byte Strings.String.
From S2P Require Import Prelude Names Int Rational Errors Coin KVStore MultiStore Account Context Auth Address Pool Validator StakeKey.
From stdpp Require Import pretty.
#[local] Open Scope string_scope.
#[local] Open Scope list_scope.
#[local] Open Scope Z_scope.

(** ** errors.go *)

Module SlashErrors.
Definition DefaultCodespace : CodespaceType := 10.
Definition CodeInvalidValidator : CodeType := 101.
Definition CodeValidatorJailed : CodeType := 102.
Definition CodeValidatorNotRevoked : CodeType := 103.

Section errors.
Context (codespace : CodespaceType).
Definition ErrNoValidatorForAddress : sdkError :=
  NewError codespace CodeInvalidValidator "that address is not associated with any known validator".
Definition ErrBadValidatorAddr : sdkError :=
  NewError codespace CodeInvalidValidator "validator does not exist for that address".
Definition ErrValidatorJailed : sdkError :=
  NewError codespace CodeValidatorJailed "validator jailed, cannot yet be unrevoked".
Definition ErrValidatorNotRevoked : sdkError :=
  NewError codespace CodeValidatorNotRevoked "validator not revoked, cannot be unrevoked".
End errors.
End SlashErrors.

(** ** params.go *)

Definition MaxEvidenceAge : Z := 60 * 2.
Definition SignedBlocksWindow : Z := 40000.
Definition MinSignedPerWindow : Z := Z.quot SignedBlocksWindow 2.
Definition DowntimeUnbondDuration : Z := 60 * 5.
Definition DoubleSignUnbondDuration : Z := 60 * 5.
Definition SlashFractionDoubleSign : outcome Rat :=
  a ← Rat.NewRat 1 []; b ← Rat.NewRat 20 []; Rat.Quo a b.
Definition SlashFractionDowntime : outcome Rat :=
  a ← Rat.NewRat 1 []; b ← Rat.NewRat 100 []; Rat.Quo a b.

(** ** msg.go *)

Definition MsgType : string := "slashing".

(** The address is a Go slice, nil or not. *)
Record MsgUnrevoke := mk_MsgUnrevoke { un_ValidatorAddr : slice }.
Definition NewMsgUnrevoke (validatorAddr : slice) : MsgUnrevoke := mk_MsgUnrevoke validatorAddr.

(** cdc.MarshalJSON at the struct that is signed. *)
Class SlashJSON := { MarshalJSON_unrevoke : string -> option bytes }.

Definition MsgUnrevoke_ValidateBasic (msg : MsgUnrevoke) : option sdkError :=
  match un_ValidatorAddr msg with
  | None => Some (SlashErrors.ErrBadValidatorAddr SlashErrors.DefaultCodespace)
  | Some _ => None
  end.

Section msgs.
Context `{Crypto} `{!Bech32} `{SlashJSON}.

Definition MsgUnrevoke_GetSignBytes (msg : MsgUnrevoke) : outcome bytes :=
  address ← MustBech32ifyVal (slice_bytes (un_ValidatorAddr msg));
  must (MarshalJSON_unrevoke address) "MarshalJSON".

#[global] Instance MsgUnrevoke_Msg : Msg MsgUnrevoke := {
  Type_ _ := MsgType;
  ValidateBasic m := Ok (MsgUnrevoke_ValidateBasic m);
  GetSignBytes := MsgUnrevoke_GetSignBytes;
  msg_GetSigners m := [slice_bytes (un_ValidatorAddr m)];
}.
End msgs.

(** ** signing_info.go: the data *)

Record ValidatorSigningInfo := mk_ValidatorSigningInfo {
  si_StartHeight : Z; si_IndexOffset : Z; si_JailedUntil : Z; si_SignedBlocksCounter : Z }.
Definition NewValidatorSigningInfo (startHeight indexOffset jailedUntil signedBlocksCounter : Z) : ValidatorSigningInfo :=
  mk_ValidatorSigningInfo startHeight indexOffset jailedUntil signedBlocksCounter.

(** Assignments to fields of copies. *)
Definition with_StartHeight (i : ValidatorSigningInfo) (height : Z) : ValidatorSigningInfo :=
  mk_ValidatorSigningInfo height (si_IndexOffset i) (si_JailedUntil i) (si_SignedBlocksCounter i).
Definition with_IndexOffset (i : ValidatorSigningInfo) (offset : Z) : ValidatorSigningInfo :=
  mk_ValidatorSigningInfo (si_StartHeight i) offset (si_JailedUntil i) (si_SignedBlocksCounter i).
Definition with_JailedUntil (i : ValidatorSigningInfo) (time : Z) : ValidatorSigningInfo :=
  mk_ValidatorSigningInfo (si_StartHeight i) (si_IndexOffset i) time (si_SignedBlocksCounter i).
Definition with_SignedBlocksCounter (i : ValidatorSigningInfo) (counter : Z) : ValidatorSigningInfo :=
  mk_ValidatorSigningInfo (si_StartHeight i) (si_IndexOffset i) (si_JailedUntil i) counter.

Definition HumanReadableString (i : ValidatorSigningInfo) : string :=
  ("Start height: " ++ pretty (si_StartHeight i) ++ ", index offset: " ++ pretty (si_IndexOffset i) ++
   ", jailed until: " ++ pretty (si_JailedUntil i) ++ ", signed blocks counter: " ++
   pretty (si_SignedBlocksCounter i))%string.

(** binary.LittleEndian.PutUint64 of [n] bytes. *)
Fixpoint le_bytes (n : nat) (z : Z) : bytes :=
  match n with O => [] | S n => byte_of_Z z :: le_bytes n (z / 256) end.

Definition GetValidatorSigningInfoKey (v : Address) : bytes := [Byte.x01] ++ v.
Definition GetValidatorSigningBitArrayKey (v : Address) (i : Z) : bytes :=
  [Byte.x02] ++ v ++ le_bytes 8 (wrapu64 i).

(** ** The keys *)

Lemma le_bytes_rev n z : le_bytes n z = rev (be_bytes n z).
Proof. revert z. induction n as [|n IH]; intros z; [done|]. simpl. by rewrite rev_app_distr, IH. Qed.
Lemma le_bytes_length n z : length (le_bytes n z) = n.
Proof. by rewrite le_bytes_rev, length_rev, be_bytes_length. Qed.

Lemma le_bytes_inj a b : is_uint64 a -> is_uint64 b -> le_bytes 8 a = le_bytes 8 b -> a = b.
Proof.
  intros Ha Hb E. rewrite !le_bytes_rev in E. apply (f_equal (rev (A:=_))) in E. rewrite !rev_involutive in E.
  apply Z.compare_eq. unfold is_uint64 in *.
  rewrite <- (be_bytes_compare 8 a b) by (change (256 ^ Z.of_nat 8) with (2 ^ 64); lia).
  rewrite E. apply bytes_compare_refl.
Qed.

Lemma SigningInfoKey_inj a b : GetValidatorSigningInfoKey a = GetValidatorSigningInfoKey b -> a = b.
Proof. by intros [= ->]. Qed.

Lemma SigningBitArrayKey_inj a b i j :
  is_uint64 i -> is_uint64 j ->
  GetValidatorSigningBitArrayKey a i = GetValidatorSigningBitArrayKey b j -> (a, i) = (b, j).
Proof.
  intros Hi Hj E. apply (inj (cons Byte.x02)) in E. rewrite !wrapu64_id in E by done.
  apply app_inj_2 in E as [-> E]; [|by rewrite !le_bytes_length]. by apply le_bytes_inj in E as ->.
Qed.

Lemma SigningKeys_disjoint a b i : GetValidatorSigningInfoKey a <> GetValidatorSigningBitArrayKey b i.
Proof. done. Qed.
