(* ===== verification/SlashKeeper.v ===== *)
(** * x/slashing: the keeper, the handler and the begin blocker

    keeper.go, signing_info.go, handler.go and tick.go.  The staking module is
    reached through the interface sdk.ValidatorSet, here a record of the
    programs the module calls. *)
From Stdlib Require Import Strings.Byte Strings.String.
From S2P Require Import Prelude Int Rational Errors Coin KVStore MultiStore Account Context ProgLogic Auth Records Ante.
From S2P Require Import Pool Validator StakeKey StakeKeeper StakeDel SlashTypes.
#[local] Open Scope string_scope.
#[local] Open Scope list_scope.
#[local] Open Scope Z_scope.

(** ** What the module uses of types/stake.go *)

(** sdk.Validator by the methods called. *)
Record sdk_Validator `{Crypto} := mk_sdk_Validator { sv_GetRevoked : bool; sv_GetPubKey : option PubKey }.
#[global] Arguments mk_sdk_Validator {_}.

(** sdk.ValidatorSet by the methods called; a nil validator is [None]. *)
Record ValidatorSet `{Crypto} := mk_ValidatorSet {
  vs_Validator : Ctx -> Address -> prog (option sdk_Validator);
  vs_Slash : Ctx -> option PubKey -> Z -> Z -> Rat -> prog unit;
  vs_Revoke : Ctx -> option PubKey -> prog unit;
  vs_Unrevoke : Ctx -> option PubKey -> prog unit
}.
#[global] Arguments mk_ValidatorSet {_}.

(** The staking keeper as one. *)
Definition slash_validator_view `{Crypto} (v : Validator) : sdk_Validator :=
  mk_sdk_Validator (GetRevoked v) (val_PubKey v).
Definition stake_Validator `{StakeCodec} `{!AddrCodec} (k : StakeKeeper.Keeper) (ctx : Ctx) (address : Address)
    : prog (option sdk_Validator) :=
  val ← GetValidator k ctx address;
  mret (match val with None => None | Some val => Some (slash_validator_view val) end).
Definition stake_ValidatorSet `{StakeCodec} `{!AddrCodec} `{!Codec} (k : StakeKeeper.Keeper) : ValidatorSet :=
  mk_ValidatorSet (stake_Validator k) (Slash k) (Revoke k) (Unrevoke k).

(** ** Encoding and third-party conversions *)

Class SlashCodec := {
  MarshalInfo : ValidatorSigningInfo -> option bytes;
  UnmarshalInfo : bytes -> option ValidatorSigningInfo;
  MarshalBool : bool -> option bytes;
  UnmarshalBool : bytes -> option bool;
}.

(** tmtypes.PB2TM.PubKey and tmtypes.WRSPEvidenceTypeDuplicateVote. *)
Class PB2TM `{Crypto} := {
  PB2TM_PubKey : bytes -> PubKey + string;
  WRSPEvidenceTypeDuplicateVote : string;
}.

(** wrsp.Evidence and wrsp.RequestBeginBlock, the fields the module reads. *)
Record Evidence := mk_Evidence {
  ev_Type : string; ev_PubKey : bytes; ev_Power : Z; ev_Height : Z; ev_Time : Z }.
Record RequestBeginBlock := mk_RequestBeginBlock {
  rb_Header : Header; rb_Validators : list SigningValidator; rb_ByzantineValidators : list Evidence }.

(** ** keeper.go *)

Record Keeper `{Crypto} := mk_Keeper {
  sl_storeKey : StoreKey; sl_validatorSet : ValidatorSet; sl_codespace : CodespaceType }.
#[global] Arguments mk_Keeper {_}.
Definition NewKeeper `{Crypto} (key : StoreKey) (vs : ValidatorSet) (codespace : CodespaceType) : Keeper :=
  mk_Keeper key vs codespace.

Section keeper.
Context `{Crypto} `{SlashCodec} (k : Keeper) (ctx : Ctx).
Abbreviation slkey := (sl_storeKey k).
Abbreviation vset := (sl_validatorSet k).

(** *** signing_info.go *)

Definition getValidatorSigningInfo (address : Address) : prog (option ValidatorSigningInfo) :=
  bz ← store_Get ctx slkey (GetValidatorSigningInfoKey address);
  match bz with
  | None => mret None
  | Some _ => info ← lift (must_unmarshal UnmarshalInfo bz); mret (Some info)
  end.

Definition setValidatorSigningInfo (address : Address) (info : ValidatorSigningInfo) : prog unit :=
  bz ← lift (must_marshal MarshalInfo info); store_Set ctx slkey (GetValidatorSigningInfoKey address) bz.

Definition getValidatorSigningBitArray (address : Address) (index : Z) : prog bool :=
  bz ← store_Get ctx slkey (GetValidatorSigningBitArrayKey address index);
  match bz with
  | None => mret false
  | Some _ => lift (must_unmarshal UnmarshalBool bz)
  end.

Definition setValidatorSigningBitArray (address : Address) (index : Z) (signed : bool) : prog unit :=
  bz ← lift (must_marshal MarshalBool signed); store_Set ctx slkey (GetValidatorSigningBitArrayKey address index) bz.

(** *** The two kinds of faults; logging is left out *)

Definition handleDoubleSign (pubkey : PubKey) (infractionHeight timestamp power : Z) : prog unit :=
  let time := hd_Time (cx_BlockHeader ctx) in
  let age := wrap64 (time - timestamp) in
  let address := PubKey_Address pubkey in
  if MaxEvidenceAge <? age then mret tt
  else
    fraction ← lift SlashFractionDoubleSign;
    vs_Slash vset ctx (Some pubkey) infractionHeight power fraction;;
    vs_Revoke vset ctx (Some pubkey);;
    signInfo ← getValidatorSigningInfo address;
    match signInfo with
    | None => Fault (PanicString "Expected signing info for validator but not found")
    | Some signInfo =>
        setValidatorSigningInfo address (with_JailedUntil signInfo (wrap64 (time + DoubleSignUnbondDuration)))
    end.

(** The bit at [index] becomes [signed]; the counter follows it. *)
Definition update_bit (address : Address) (index : Z) (signed : bool) (signInfo : ValidatorSigningInfo)
    : prog ValidatorSigningInfo :=
  previous ← getValidatorSigningBitArray address index;
  if Bool.eqb previous signed then mret signInfo
  else if previous && negb signed then
    setValidatorSigningBitArray address index false;;
    mret (with_SignedBlocksCounter signInfo (wrap64 (si_SignedBlocksCounter signInfo - 1)))
  else if negb previous && signed then
    setValidatorSigningBitArray address index true;;
    mret (with_SignedBlocksCounter signInfo (wrap64 (si_SignedBlocksCounter signInfo + 1)))
  else mret signInfo.

Definition handleValidatorSignature (pubkey : PubKey) (power : Z) (signed : bool) : prog unit :=
  let height := cx_BlockHeight ctx in
  let address := PubKey_Address pubkey in
  signInfo ← getValidatorSigningInfo address;
  let signInfo := default (NewValidatorSigningInfo height 0 0 0) signInfo in
  let index := Z.rem (si_IndexOffset signInfo) SignedBlocksWindow in
  let signInfo := with_IndexOffset signInfo (wrap64 (si_IndexOffset signInfo + 1)) in
  signInfo ← update_bit address index signed signInfo;
  let minHeight := wrap64 (si_StartHeight signInfo + SignedBlocksWindow) in
  signInfo ←
    (if (minHeight <? height) && (si_SignedBlocksCounter signInfo <? MinSignedPerWindow) then
       fraction ← lift SlashFractionDowntime;
       vs_Slash vset ctx (Some pubkey) height power fraction;;
       vs_Revoke vset ctx (Some pubkey);;
       mret (with_JailedUntil signInfo (wrap64 (hd_Time (cx_BlockHeader ctx) + DowntimeUnbondDuration)))
     else mret signInfo);
  setValidatorSigningInfo address signInfo.

(** ** handler.go *)

Definition handleMsgUnrevoke (msg : MsgUnrevoke) : prog Result :=
  validator ← vs_Validator vset ctx (slice_bytes (un_ValidatorAddr msg));
  match validator with
  | None => mret (err_Result (SlashErrors.ErrNoValidatorForAddress (sl_codespace k)))
  | Some validator =>
      if negb (sv_GetRevoked validator)
      then mret (err_Result (SlashErrors.ErrValidatorNotRevoked (sl_codespace k)))
      else
        pubkey ← lift (match sv_GetPubKey validator with Some pk => Ok pk | None => Panicked nil_pointer end);
        let addr := PubKey_Address pubkey in
        info ← getValidatorSigningInfo addr;
        match info with
        | None => mret (err_Result (SlashErrors.ErrNoValidatorForAddress (sl_codespace k)))
        | Some info =>
            if hd_Time (cx_BlockHeader ctx) <? si_JailedUntil info
            then mret (err_Result (SlashErrors.ErrValidatorJailed (sl_codespace k)))
            else if cx_IsCheckTx ctx then mret (tags_Result [])
            else
              setValidatorSigningInfo addr (with_StartHeight info (cx_BlockHeight ctx));;
              vs_Unrevoke vset ctx (sv_GetPubKey validator);;
              tags ← lift (NewTags [ArgString "action"; ArgBytes (string_bytes "unrevoke");
                                    ArgString "validator";
                                    ArgBytes (string_bytes (HexString (slice_bytes (un_ValidatorAddr msg))))]);
              mret (tags_Result tags)
        end
  end.

(** The type switch: [as_slash] is the message as the module's. *)
Definition NewHandler {T} (as_slash : T -> option MsgUnrevoke) (msg : T) : prog Result :=
  match as_slash msg with
  | Some msg => handleMsgUnrevoke msg
  | None => mret (err_Result (ErrTxDecode "invalid message parse in staking module"))
  end.

(** ** tick.go *)

Definition pb_PubKey `{!PB2TM} (bz : bytes) : outcome PubKey :=
  match PB2TM_PubKey bz with inl pubkey => Ok pubkey | inr err => Panicked (PanicString err) end.

Definition BeginBlocker `{!PB2TM} (req : RequestBeginBlock) : prog Tags :=
  tags ← lift (NewTags [ArgString "height"; ArgBytes (le_bytes 8 (wrapu64 (hd_Height (rb_Header req))))]);
  forP (rb_Validators req) (fun signingValidator =>
    pubkey ← lift (pb_PubKey (sv_PubKey signingValidator));
    handleValidatorSignature pubkey (sv_Power signingValidator) (sv_SignedLastBlock signingValidator));;
  forP (rb_ByzantineValidators req) (fun evidence =>
    pk ← lift (pb_PubKey (ev_PubKey evidence));
    if decide (ev_Type evidence = WRSPEvidenceTypeDuplicateVote)
    then handleDoubleSign pk (ev_Height evidence) (ev_Time evidence) (ev_Power evidence)
    else mret tt);;
  mret tags.
End keeper.
