(* ===== verification/SlashRep.v ===== *)
(** * The abstract state of the slashing store

    [sstate] is what the bytes of the store stand for: the signing infos and
    the signed bits by validator.  The keeper's accessors have specifications
    on it, and [handleValidatorSignature_spec] is the whole handler as an
    update of it, around the calls to the validator set. *)
From Stdlib Require Import Strings.Byte Strings.String.
From S2P Require Import Prelude Int Rational Errors Coin KVStore MultiStore Account Context ProgLogic Auth Records Ante.
From S2P Require Import Pool Validator StakeKey SlashTypes SlashKeeper.
#[local] Open Scope string_scope.
#[local] Open Scope list_scope.
#[local] Open Scope Z_scope.

Record sstate := mk_sstate {
  ss_infos : gmap Address ValidatorSigningInfo;
  ss_bits : gmap (Address * Z) bool
}.
Definition put_info (S : sstate) (a : Address) (info : ValidatorSigningInfo) : sstate :=
  mk_sstate (<[a := info]> (ss_infos S)) (ss_bits S).
Definition put_bit (S : sstate) (a : Address) (i : Z) (signed : bool) : sstate :=
  mk_sstate (ss_infos S) (<[(a, i) := signed]> (ss_bits S)).

(** The values the Go type holds. *)
Record info_wf (i : ValidatorSigningInfo) : Prop := {
  iw_start : is_int64 (si_StartHeight i); iw_offset : is_int64 (si_IndexOffset i);
  iw_jailed : is_int64 (si_JailedUntil i); iw_counter : is_int64 (si_SignedBlocksCounter i) }.

Class SlashCodecLaws `{SlashCodec} : Prop := {
  Info_roundtrip : forall i, info_wf i -> exists bz, MarshalInfo i = Some bz /\ UnmarshalInfo bz = Some i;
  Bool_roundtrip : forall b, exists bz, MarshalBool b = Some bz /\ UnmarshalBool bz = Some b;
  Info_decoded : forall bz i, UnmarshalInfo bz = Some i -> info_wf i;
}.

Section rep.
Context `{HSL : SlashCodecLaws}.

Record rep (s : spec_store) (S : sstate) : Prop := mk_rep {
  r_infos : forall a, holds UnmarshalInfo (s !! GetValidatorSigningInfoKey a) (ss_infos S !! a);
  r_bits : forall a i, is_uint64 i -> holds UnmarshalBool (s !! GetValidatorSigningBitArrayKey a i) (ss_bits S !! (a, i))
}.

Lemma rep_info_wf s S a i : rep s S -> ss_infos S !! a = Some i -> info_wf i.
Proof.
  intros Hr Hi. pose proof (r_infos _ _ Hr a) as Hh. rewrite Hi in Hh.
  destruct (holds_Some _ _ _ Hh) as (bz & _ & E). by eapply Info_decoded.
Qed.

Lemma rep_put_info s S a info bz :
  rep s S -> UnmarshalInfo bz = Some info -> rep (<[GetValidatorSigningInfoKey a := bz]> s) (put_info S a info).
Proof.
  intros [R1 R2] Hbz. split; simpl.
  - intros b. destruct (decide (a = b)) as [ <- |Hne]; [by rewrite !lookup_insert_eq|].
    rewrite !lookup_insert_ne; [done|done|]. by intros ?%SigningInfoKey_inj.
  - intros b i Hi. rewrite lookup_insert_ne by apply SigningKeys_disjoint. by apply R2.
Qed.

Lemma rep_put_bit s S a i signed bz :
  is_uint64 i -> rep s S -> UnmarshalBool bz = Some signed ->
  rep (<[GetValidatorSigningBitArrayKey a i := bz]> s) (put_bit S a i signed).
Proof.
  intros Hi [R1 R2] Hbz. split; simpl.
  - intros b. rewrite lookup_insert_ne; [done|]. intros E. by apply (SigningKeys_disjoint b a i).
  - intros b j Hj. destruct (decide ((a, i) = (b, j))) as [[= <- <-]|Hne]; [by rewrite !lookup_insert_eq|].
    rewrite !lookup_insert_ne; [by apply R2|done|]. by intros ?%SigningBitArrayKey_inj.
Qed.
End rep.

(** ** What a signature does to the state *)

Definition info_at (S : sstate) (height : Z) (a : Address) : ValidatorSigningInfo :=
  default (NewValidatorSigningInfo height 0 0 0) (ss_infos S !! a).
Definition bit_at (S : sstate) (a : Address) (i : Z) : bool := default false (ss_bits S !! (a, i)).
Definition index_of (info : ValidatorSigningInfo) : Z := Z.rem (si_IndexOffset info) SignedBlocksWindow.

(** The info counted up to a signature over the bit [previous]. *)
Definition counted (info : ValidatorSigningInfo) (previous signed : bool) : ValidatorSigningInfo :=
  mk_ValidatorSigningInfo (si_StartHeight info) (wrap64 (si_IndexOffset info + 1)) (si_JailedUntil info)
    (if Bool.eqb previous signed then si_SignedBlocksCounter info
     else if signed then wrap64 (si_SignedBlocksCounter info + 1)
     else wrap64 (si_SignedBlocksCounter info - 1)).
Definition signed_info (S : sstate) (height : Z) (a : Address) (signed : bool) : ValidatorSigningInfo :=
  let info := info_at S height a in counted info (bit_at S a (index_of info)) signed.
Definition signed_bits (S : sstate) (height : Z) (a : Address) (signed : bool) : sstate :=
  let i := index_of (info_at S height a) in
  if Bool.eqb (bit_at S a i) signed then S else put_bit S a i signed.
Definition downtime (height : Z) (info : ValidatorSigningInfo) : bool :=
  (wrap64 (si_StartHeight info + SignedBlocksWindow) <? height) && (si_SignedBlocksCounter info <? MinSignedPerWindow).

Lemma counted_wf info p b : info_wf info -> info_wf (counted info p b).
Proof.
  intros [R1 R2 R3 R4]. split; simpl; auto with sdk. destruct (Bool.eqb p b), b; auto with sdk.
Qed.
Lemma index_of_range info : 0 <= si_IndexOffset info -> 0 <= index_of info < SignedBlocksWindow.
Proof. intros Hi. apply Z.rem_bound_pos; [done|reflexivity]. Qed.
Lemma index_of_uint64 info : 0 <= si_IndexOffset info -> is_uint64 (index_of info).
Proof. intros Hi%index_of_range. unfold is_uint64, SignedBlocksWindow in *. lia. Qed.

(** ** The keeper's accessors *)

Section specs.
Context `{HSL : SlashCodecLaws} `{Crypto} (k : Keeper) (ctx : Ctx).
Abbreviation m := (cx_GasMeter ctx).
Abbreviation slkey := (sl_storeKey k).

Definition slash_st (st : stores) (S : sstate) : Prop := exists s, st !! slkey = Some s /\ rep s S.

Lemma slash_st_frame st st' S : st' !! slkey = st !! slkey -> slash_st st S -> slash_st st' S.
Proof. intros E (s & Hs & Hr). exists s. by rewrite E. Qed.

Lemma getInfo_spec st S a (Q : option ValidatorSigningInfo -> stores -> Prop) (E : panic_value -> Prop) :
  slash_st st S -> ((forall i, ss_infos S !! a = Some i -> info_wf i) -> Q (ss_infos S !! a) st) ->
  pspec m (getValidatorSigningInfo k ctx a) st Q E.
Proof.
  intros (s & Hs & Hr) HQ. eapply pspec_read; [done|apply (r_infos _ _ Hr)|]. apply HQ.
  intros i. by apply (rep_info_wf s).
Qed.

Lemma setInfo_spec st S a info (Q : unit -> stores -> Prop) (E : panic_value -> Prop) :
  slash_st st S -> info_wf info ->
  (forall st', slash_st st' (put_info S a info) -> frame slkey st st' -> Q tt st') ->
  pspec m (setValidatorSigningInfo k ctx a info) st Q E.
Proof.
  intros (s & Hs & Hr) Hi HQ. destruct (Info_roundtrip info Hi) as (bz & Em & Ed).
  unshelve eapply (pspec_write ctx slkey _ _ st s); [done|done|done|]. apply HQ; [|apply frame_insert].
  eexists. rewrite lookup_insert_eq. split; [done|]. by apply rep_put_info.
Qed.

Lemma getBit_spec st S a i (Q : bool -> stores -> Prop) (E : panic_value -> Prop) :
  slash_st st S -> is_uint64 i -> Q (bit_at S a i) st -> pspec m (getValidatorSigningBitArray k ctx a i) st Q E.
Proof.
  intros (s & Hs & Hr) Hi HQ. apply pspec_bind, (pspec_Get _ _ _ s); [done|].
  pose proof (r_bits _ _ Hr a i Hi) as Hh. unfold bit_at in HQ.
  destruct (s !! _) as [bz|], (ss_bits S !! (a, i)) as [b|]; try done.
  apply pspec_lift; rewrite (must_unmarshal_holds UnmarshalBool (Some bz) b) by done; [|done]. by intros ? [= <-].
Qed.

Lemma setBit_spec st S a i signed (Q : unit -> stores -> Prop) (E : panic_value -> Prop) :
  slash_st st S -> is_uint64 i ->
  (forall st', slash_st st' (put_bit S a i signed) -> frame slkey st st' -> Q tt st') ->
  pspec m (setValidatorSigningBitArray k ctx a i signed) st Q E.
Proof.
  intros (s & Hs & Hr) Hi HQ. destruct (Bool_roundtrip signed) as (bz & Em & Ed).
  unshelve eapply (pspec_write ctx slkey _ _ st s); [done|done|done|]. apply HQ; [|apply frame_insert].
  eexists. rewrite lookup_insert_eq. split; [done|]. by apply rep_put_bit.
Qed.

Lemma update_bit_spec st S a info signed (Q : ValidatorSigningInfo -> stores -> Prop) (E : panic_value -> Prop) :
  slash_st st S -> 0 <= si_IndexOffset info ->
  (forall st', slash_st st' (if Bool.eqb (bit_at S a (index_of info)) signed then S
                             else put_bit S a (index_of info) signed) -> frame slkey st st' ->
     Q (counted info (bit_at S a (index_of info)) signed) st') ->
  pspec m (update_bit k ctx a (index_of info) signed (with_IndexOffset info (wrap64 (si_IndexOffset info + 1)))) st Q E.
Proof.
  intros Hst Hi HQ. pose proof (index_of_uint64 _ Hi) as Hu. apply pspec_bind. eapply getBit_spec; [exact Hst|exact Hu|].
  unfold counted in HQ. destruct (bit_at S a (index_of info)), signed; simpl in *.
  1,4: apply pspec_ret, HQ; [exact Hst|apply frame_refl].
  all: apply pspec_bind; eapply setBit_spec; [exact Hst|exact Hu|]; intros st' Hst' Hf; apply pspec_ret; by apply HQ.
Qed.

(** ** The handler of a signature *)

Lemma handleValidatorSignature_spec st S pk power signed (Q : unit -> stores -> Prop) (E : panic_value -> Prop) :
  let a := PubKey_Address pk in
  let height := cx_BlockHeight ctx in
  let info := signed_info S height a signed in
  slash_st st S -> is_int64 height -> 0 <= si_IndexOffset (info_at S height a) ->
  (downtime height info = false ->
     forall st', slash_st st' (put_info (signed_bits S height a signed) a info) -> frame slkey st st' -> Q tt st') ->
  (downtime height info = true -> forall st1 fraction,
     slash_st st1 (signed_bits S height a signed) -> frame slkey st st1 -> SlashFractionDowntime = Ok fraction ->
     pspec m (vs_Slash (sl_validatorSet k) ctx (Some pk) height power fraction) st1 (fun _ st2 =>
       pspec m (vs_Revoke (sl_validatorSet k) ctx (Some pk)) st2 (fun _ st3 =>
         slash_st st3 (signed_bits S height a signed) /\ forall st',
           slash_st st' (put_info (signed_bits S height a signed) a
             (with_JailedUntil info (wrap64 (hd_Time (cx_BlockHeader ctx) + DowntimeUnbondDuration)))) ->
           frame slkey st3 st' -> Q tt st') E) E) ->
  pspec m (handleValidatorSignature k ctx pk power signed) st Q E.
Proof.
  intros a height info Hst Hh Hi Hok Hdown. apply pspec_bind. eapply getInfo_spec; [exact Hst|]. intros Hwf.
  fold a height. fold (info_at S height a).
  assert (Hiw : info_wf info).
  { apply counted_wf. unfold info_at. destruct (ss_infos S !! a) as [i|] eqn:Ei; [by apply Hwf|].
    split; simpl; first [exact Hh|unfold is_int64, min_int64, max_int64; lia]. }
  apply pspec_bind. apply (update_bit_spec st S); [exact Hst|exact Hi|]. intros st1 Hst1 Hf1.
  fold (signed_info S height a signed) in *. fold (signed_bits S height a signed) in Hst1. fold info.
  apply pspec_bind. fold (downtime height info). destruct (downtime height info) eqn:Ed.
  - apply pspec_bind, pspec_lift; [|by vm_compute]. intros fraction Ef.
    specialize (Hdown eq_refl st1 fraction Hst1 Hf1 Ef).
    eapply pspec_call; [exact Hdown|]. intros [] st2 Hrev.
    eapply pspec_call; [exact Hrev|]. intros [] st3 [Hst3 HQ]. apply pspec_ret.
    eapply setInfo_spec; [exact Hst3| |exact HQ]. destruct Hiw. split; simpl; auto with sdk.
  - apply pspec_ret. eapply setInfo_spec; [exact Hst1|exact Hiw|]. intros st2 Hst2 Hf2.
    apply Hok; [done|exact Hst2|]. by eapply frame_trans.
Qed.
End specs.
