(* ===== verification/SlashWindow.v ===== *)
(** * The window of signed blocks

    The bit array is a ring buffer over the history of a validator's
    signatures: [window] relates the two, and the counter is the number of
    blocks signed among the last SignedBlocksWindow of the history.  The
    handler of a signature keeps the relation, whatever it slashes. *)
From Stdlib Require Import Strings.Byte Strings.String.
From S2P Require Import Prelude Int Rational Errors Coin KVStore MultiStore Account Context ProgLogic Auth Records Ante Footprint.
From S2P Require Import Pool Validator StakeKey SlashTypes SlashKeeper SlashRep.
#[local] Open Scope string_scope.
#[local] Open Scope list_scope.
#[local] Open Scope Z_scope.

(** ** Counting *)

Definition b2z (b : bool) : Z := if b then 1 else 0.
Fixpoint count_true (l : list bool) : Z := match l with [] => 0 | b :: l => b2z b + count_true l end.

Lemma count_true_bounds l : 0 <= count_true l <= Z.of_nat (length l).
Proof. induction l as [|[] l IH]; simpl; lia. Qed.

Lemma count_true_take_S l n : count_true (take (S n) l) = count_true (take n l) + b2z (default false (l !! n)).
Proof.
  revert n. induction l as [|b l IH]; intros n; [by rewrite !take_nil|].
  destruct n as [|n]; [by simpl; lia|]. rewrite !firstn_cons. simpl. rewrite IH. lia.
Qed.

(** One more block: the one that leaves the window is no longer counted. *)
Lemma count_true_push l b n :
  count_true (take (S n) (b :: l)) = count_true (take (S n) l) + b2z b - b2z (default false (l !! n)).
Proof. rewrite firstn_cons, count_true_take_S. simpl. lia. Qed.

(** ** The ring buffer

    [hist] is the history, the latest block first. *)

Definition window_size : nat := Z.to_nat SignedBlocksWindow.
Lemma window_size_Z : Z.of_nat window_size = SignedBlocksWindow.
Proof. unfold window_size. rewrite Z2Nat.id; [done|]. by vm_compute. Qed.
#[global] Opaque window_size.

Record window (hist : list bool) (info : ValidatorSigningInfo) (bit : Z -> bool) : Prop := mk_window {
  wd_offset : si_IndexOffset info = Z.of_nat (length hist);
  wd_bits : forall j b, hist !! j = Some b -> (j < window_size)%nat ->
    bit ((Z.of_nat (length hist) - 1 - Z.of_nat j) mod SignedBlocksWindow) = b;
  wd_unset : forall i, Z.of_nat (length hist) <= i < SignedBlocksWindow -> bit i = false;
  wd_counter : si_SignedBlocksCounter info = count_true (take window_size hist)
}.

Lemma window_nil height bit : (forall i, bit i = false) -> window [] (NewValidatorSigningInfo height 0 0 0) bit.
Proof. intros Hb. split; simpl; [done|by intros ? ?|auto|by rewrite take_nil]. Qed.

(** The relation says nothing about heights and jail. *)
Lemma window_ext hist info info' bit bit' :
  si_IndexOffset info' = si_IndexOffset info -> si_SignedBlocksCounter info' = si_SignedBlocksCounter info ->
  (forall i, 0 <= i -> bit' i = bit i) -> window hist info bit -> window hist info' bit'.
Proof.
  intros Eo Ec Eb [R1 R2 R3 R4]. split; [congruence| | |congruence].
  - intros j b Hj Hw. rewrite Eb; [by apply R2|]. by apply Z.mod_pos_bound.
  - intros i Hi. rewrite Eb by lia. by apply R3.
Qed.

(** The bit that is overwritten is the block that leaves the window. *)
Lemma window_previous hist info bit :
  window hist info bit ->
  bit (Z.of_nat (length hist) mod SignedBlocksWindow) = default false (hist !! (window_size - 1)%nat).
Proof.
  intros [_ R2 R3 _]. pose proof window_size_Z as Hw. assert (0 < SignedBlocksWindow) as Hp by reflexivity.
  destruct (hist !! (window_size - 1)%nat) as [b|] eqn:Eb; simpl.
  - rewrite <- (R2 _ _ Eb) by lia. f_equal.
    replace (Z.of_nat (length hist) - 1 - Z.of_nat (window_size - 1)) with (Z.of_nat (length hist) + (-1) * SignedBlocksWindow) by lia.
    by rewrite Z.mod_add by lia.
  - apply lookup_ge_None in Eb. rewrite Z.mod_small by lia. apply R3. lia.
Qed.

Definition set_bit (bit : Z -> bool) (i : Z) (b : bool) : Z -> bool := fun j => if decide (i = j) then b else bit j.

Lemma mod_distinct (W a b : Z) : 0 < W -> 0 <= a -> a < b < a + W -> a mod W <> b mod W.
Proof.
  intros HW Ha Hb E. pose proof (Z.div_mod a W ltac:(lia)). pose proof (Z.div_mod b W ltac:(lia)).
  assert (b - a = W * (b / W - a / W)) by lia. assert (0 < b / W - a / W) by nia. nia.
Qed.

(** A signature: the history grows, the buffer and the counter follow. *)
Lemma window_push hist info bit (b : bool) :
  window hist info bit -> Z.of_nat (length hist) < max_int64 ->
  let i := Z.of_nat (length hist) mod SignedBlocksWindow in
  window (b :: hist) (counted info (bit i) b) (set_bit bit i b).
Proof.
  intros Hw Hlen i. pose proof window_size_Z as Hz. assert (0 < SignedBlocksWindow) as Hp by reflexivity.
  pose proof (window_previous _ _ _ Hw) as Hprev. fold i in Hprev. destruct Hw as [R1 R2 R3 R4].
  split; simpl.
  - rewrite R1, wrap64_id by (unfold is_int64, min_int64; lia). lia.
  - intros [|j] c Hj Hw; simpl in Hj.
    + injection Hj as <-. unfold set_bit. rewrite decide_True; [done|]. unfold i. f_equal. lia.
    + pose proof (lookup_lt_Some _ _ _ Hj). unfold set_bit. rewrite decide_False.
      * rewrite <- (R2 j c) by (done || lia). f_equal. f_equal. lia.
      * apply not_eq_sym. unfold i. apply mod_distinct; lia.
  - intros x Hx. unfold set_bit. rewrite decide_False; [apply R3; lia|].
    unfold i. rewrite Z.mod_small by lia. lia.
  - destruct window_size as [|n] eqn:En; [lia|]. replace (S n - 1)%nat with n in Hprev by lia.
    rewrite count_true_push, <- Hprev, <- R4. pose proof (count_true_bounds (take (S n) hist)).
    pose proof (length_take hist (S n)). rewrite <- R4 in *.
    destruct (bit i), b; simpl; rewrite ?wrap64_id by (unfold is_int64, min_int64, max_int64 in *; lia); lia.
Qed.

(** ** All the validators of a state *)

Abbreviation histories := (gmap Address (list bool)).
Definition hist_of (H : histories) (a : Address) : list bool := default [] (H !! a).
Definition record_vote (a : Address) (signed : bool) (H : histories) : histories := <[a := signed :: hist_of H a]> H.

Definition windows (S : sstate) (H : histories) : Prop :=
  forall a, window (hist_of H a) (info_at S 0 a) (bit_at S a).

Lemma info_at_height S h h' a :
  si_IndexOffset (info_at S h a) = si_IndexOffset (info_at S h' a) /\
  si_SignedBlocksCounter (info_at S h a) = si_SignedBlocksCounter (info_at S h' a).
Proof. unfold info_at. by destruct (ss_infos S !! a). Qed.

Lemma windows_offset S H h a : windows S H -> si_IndexOffset (info_at S h a) = Z.of_nat (length (hist_of H a)).
Proof. intros Hw. rewrite (proj1 (info_at_height S h 0 a)). apply Hw. Qed.

Lemma windows_index S H h a :
  windows S H -> index_of (info_at S h a) = Z.of_nat (length (hist_of H a)) mod SignedBlocksWindow.
Proof. intros Hw. unfold index_of. rewrite (windows_offset _ _ _ _ Hw). apply Z.rem_mod_nonneg; [lia|reflexivity]. Qed.

(** The window of the signer once it has signed or not. *)
Lemma signed_window S H height a b :
  windows S H -> Z.of_nat (length (hist_of H a)) < max_int64 ->
  window (b :: hist_of H a) (signed_info S height a b)
    (set_bit (bit_at S a) (Z.of_nat (length (hist_of H a)) mod SignedBlocksWindow) b).
Proof.
  intros Hw Hl. pose proof (window_push _ _ _ b (Hw a) Hl) as Hp. cbn zeta in Hp.
  unfold signed_info. rewrite (windows_index _ _ _ _ Hw).
  destruct (info_at_height S height 0 a) as [Eo Ec].
  eapply window_ext; [..|exact Hp]; unfold counted; simpl; by rewrite ?Eo, ?Ec.
Qed.

Lemma bit_at_signed S height a b c j :
  let i := index_of (info_at S height a) in
  bit_at (signed_bits S height a b) c j = if decide (c = a) then set_bit (bit_at S a) i b j else bit_at S c j.
Proof.
  intros i. unfold signed_bits, set_bit. fold i. destruct (Bool.eqb (bit_at S a i) b) eqn:E.
  - apply Bool.eqb_prop in E. destruct (decide (c = a)) as [ -> |]; [|done]. by destruct (decide (i = j)) as [ <- |].
  - unfold bit_at, put_bit. simpl. destruct (decide (c = a)) as [ -> |Hne]; [destruct (decide (i = j)) as [ <- |Hne]|].
    + by rewrite lookup_insert_eq.
    + rewrite lookup_insert_ne; [done|]. by intros [= ?].
    + rewrite lookup_insert_ne; [done|]. by intros [= ? _].
Qed.

Lemma info_at_put S a info b : info_at (put_info S a info) 0 b = if decide (b = a) then info else info_at S 0 b.
Proof.
  unfold info_at, put_info. simpl. destruct (decide (b = a)) as [ -> |Hne]; [by rewrite lookup_insert_eq|].
  by rewrite lookup_insert_ne.
Qed.

Lemma info_at_signed_bits S height a b h c : info_at (signed_bits S height a b) h c = info_at S h c.
Proof. unfold signed_bits. by destruct (Bool.eqb _ _). Qed.

(** What the handler writes, whether it jails or not. *)
Lemma signature_windows S H height a b info' :
  windows S H -> Z.of_nat (length (hist_of H a)) < max_int64 ->
  si_IndexOffset info' = si_IndexOffset (signed_info S height a b) ->
  si_SignedBlocksCounter info' = si_SignedBlocksCounter (signed_info S height a b) ->
  windows (put_info (signed_bits S height a b) a info') (record_vote a b H).
Proof.
  intros Hw Hl Eo Ec c. unfold hist_of, record_vote. rewrite info_at_put. destruct (decide (c = a)) as [ -> |Hne].
  - rewrite lookup_insert_eq. simpl. eapply window_ext; [exact Eo|exact Ec| |by apply signed_window].
    intros j Hj. change (bit_at (put_info ?S a info') a j) with (bit_at S a j).
    rewrite bit_at_signed, decide_True by done. by rewrite (windows_index _ _ _ _ Hw).
  - rewrite lookup_insert_ne by congruence. rewrite info_at_signed_bits.
    eapply window_ext; [done|done| |apply Hw]. intros j Hj.
    change (bit_at (put_info ?S a info') c j) with (bit_at S c j). by rewrite bit_at_signed, decide_False.
Qed.

(** An info with other heights and jail times. *)
Lemma windows_put_same S H a info :
  windows S H -> si_IndexOffset info = si_IndexOffset (info_at S 0 a) ->
  si_SignedBlocksCounter info = si_SignedBlocksCounter (info_at S 0 a) -> windows (put_info S a info) H.
Proof.
  intros Hw Eo Ec c. rewrite info_at_put. destruct (decide (c = a)) as [ -> |Hne]; [|apply Hw].
  eapply window_ext; [exact Eo|exact Ec|done|apply Hw].
Qed.

(** Downtime is decided on the history: the blocks signed among the last
    SignedBlocksWindow, the present one included. *)
Definition absent (H : histories) (S : sstate) (height : Z) (a : Address) (signed : bool) : bool :=
  (wrap64 (si_StartHeight (info_at S height a) + SignedBlocksWindow) <? height) &&
  (count_true (take window_size (signed :: hist_of H a)) <? MinSignedPerWindow).

Lemma downtime_absent S H height a b :
  windows S H -> Z.of_nat (length (hist_of H a)) < max_int64 ->
  downtime height (signed_info S height a b) = absent H S height a b.
Proof.
  intros Hw Hl. unfold downtime, absent. f_equal. by rewrite (wd_counter _ _ _ (signed_window _ _ height a b Hw Hl)).
Qed.

Lemma count_true_all l : (forall b, b ∈ l -> b = true) -> count_true l = Z.of_nat (length l).
Proof.
  induction l as [|b l IH]; intros Hl; [done|]. cbn [count_true length].
  rewrite (Hl b) by (by left). rewrite IH; [simpl; lia|]. intros c Hc. apply Hl. by right.
Qed.

(** A validator that signed every block it was asked to, but was asked to sign
    fewer than 20000, is absent once its start height is long enough ago. *)
Lemma absent_without_missing (S : sstate) (hs : histories) (height : Z) (a : Address) :
  (forall b, b ∈ hist_of hs a -> b = true) -> Z.of_nat (length (hist_of hs a)) + 1 < MinSignedPerWindow ->
  wrap64 (si_StartHeight (info_at S height a) + SignedBlocksWindow) < height ->
  absent hs S height a true = true.
Proof.
  intros Hall Hlen Hh. unfold absent. apply andb_true_intro. split; [by apply Z.ltb_lt|]. apply Z.ltb_lt.
  rewrite count_true_all.
  - rewrite length_take. simpl. lia.
  - intros b Hb. apply elem_of_take in Hb as (i & Hb & _). apply list_elem_of_lookup_2, elem_of_cons in Hb as [->|Hb]; auto.
Qed.

(** A validator that missed at most half of the blocks of a full window is
    not. *)
Lemma present_enough (S : sstate) (hs : histories) (height : Z) (a : Address) (signed : bool) :
  MinSignedPerWindow <= count_true (take window_size (signed :: hist_of hs a)) -> absent hs S height a signed = false.
Proof. intros Hc. unfold absent. apply andb_false_intro2, Z.ltb_ge. exact Hc. Qed.

(** ** The validator set's promise: it stays off the slashing store *)

Class OffStore `{Crypto} (key : StoreKey) (vs : ValidatorSet) : Prop := {
  Validator_off : forall ctx a, touches (fun k => k <> key) (vs_Validator vs ctx a);
  Slash_off : forall ctx pk h p f, touches (fun k => k <> key) (vs_Slash vs ctx pk h p f);
  Revoke_off : forall ctx pk, touches (fun k => k <> key) (vs_Revoke vs ctx pk);
  Unrevoke_off : forall ctx pk, touches (fun k => k <> key) (vs_Unrevoke vs ctx pk)
}.
