(* ===== verification/SlashOps.v ===== *)
(** * What the slashing module does

    Against the interface of the validator set ([OffStore]): the handler of a
    signature slashes exactly the validators whose history says so, the begin
    blocker and the handlers keep the windows over any sequence of blocks and
    messages, the message to unrevoke and double signs on every branch. *)
From Stdlib Require Import Strings.Byte Strings.String.
From S2P Require Import Prelude Int Rational Errors Coin KVStore MultiStore Account Context ProgLogic Auth Records Ante Footprint.
From S2P Require Import Pool Validator StakeKey SlashTypes SlashKeeper SlashRep SlashWindow.
From Stdlib Require Import QArith.
#[local] Open Scope string_scope.
#[local] Open Scope list_scope.
#[local] Open Scope Z_scope.

Lemma downtime_fraction : SlashFractionDowntime = Ok (1 # 100).
Proof. by vm_compute. Qed.
Lemma double_sign_fraction : SlashFractionDoubleSign = Ok (1 # 20).
Proof. by vm_compute. Qed.

Section ops.
Context `{HSL : SlashCodecLaws} `{HC : Crypto} (k : Keeper) (ctx : Ctx).
Abbreviation m := (cx_GasMeter ctx).
Abbreviation slkey := (sl_storeKey k).
Abbreviation vset := (sl_validatorSet k).
Context `{HOff : !OffStore slkey vset}.
Abbreviation now := (hd_Time (cx_BlockHeader ctx)).
Abbreviation height := (cx_BlockHeight ctx).
Hypothesis Hheight : is_int64 height.

(** A call to the validator set: it leaves the slashing store alone. *)
Lemma off_spec {A B : Type} (p : prog A) (f : A -> prog B) (st : stores) (S : sstate) (Q : B -> stores -> Prop) :
  touches (fun key => key <> slkey) p -> slash_st k st S ->
  (forall a st', runs m p st a st' -> slash_st k st' S -> pspec m (f a) st' Q any_panic) ->
  pspec m (p ≫= f) st Q any_panic.
Proof.
  intros Hp Hst HQ. apply pspec_bind. eapply pspec_runs; [exact Hp|]. intros a st' Hr Hs.
  apply HQ; [done|]. eapply slash_st_frame; [|exact Hst]. apply Hs. intros Hne. by apply Hne.
Qed.

Definition jailed_info (info : ValidatorSigningInfo) : ValidatorSigningInfo :=
  with_JailedUntil info (wrap64 (now + DowntimeUnbondDuration)).

(** [st] to [st'] slashes and revokes the key once, between writes of the
    module to its own store. *)
Definition slashed_once (pk : PubKey) (infraction power : Z) (fraction : Rat) (st st' : stores) : Prop :=
  exists st1 st2 st3, frame slkey st st1 /\
    runs m (vs_Slash vset ctx (Some pk) infraction power fraction) st1 tt st2 /\
    runs m (vs_Revoke vset ctx (Some pk)) st2 tt st3 /\ frame slkey st3 st'.

(** ** Signatures *)

(** a validator that the history does not show as absent - it signed at least
    half of the last 40000 blocks, or its start height is not that long ago -
    is neither slashed nor jailed: the handler does not panic, writes to the
    slashing store only, and records the signature. *)
Theorem present_not_slashed (st : stores) (S : sstate) (hs : histories) (pk : PubKey) (power : Z) (signed : bool) :
  let a := PubKey_Address pk in
  slash_st k st S -> windows S hs -> Z.of_nat (length (hist_of hs a)) < max_int64 ->
  absent hs S height a signed = false ->
  pspec m (handleValidatorSignature k ctx pk power signed) st
    (fun _ st' => frame slkey st st' /\ exists S', slash_st k st' S' /\ windows S' (record_vote a signed hs) /\
       si_JailedUntil (info_at S' height a) = si_JailedUntil (info_at S height a)) no_panic.
Proof.
  intros a Hst Hw Hl Ha. apply (handleValidatorSignature_spec k ctx st S); [done|done|..].
  - rewrite (windows_offset _ _ _ _ Hw). lia.
  - intros _ st' Hst' Hf. split; [done|]. eexists. split; [exact Hst'|]. split; [by apply signature_windows|].
    unfold info_at at 1. simpl. fold a. by rewrite lookup_insert_eq.
  - fold a. rewrite (downtime_absent _ _ _ _ _ Hw Hl). by rewrite Ha.
Qed.

Lemma absent_effect (st : stores) (S : sstate) (hs : histories) (pk : PubKey) (power : Z) (signed : bool) :
  let a := PubKey_Address pk in
  slash_st k st S -> windows S hs -> Z.of_nat (length (hist_of hs a)) < max_int64 ->
  absent hs S height a signed = true ->
  pspec m (handleValidatorSignature k ctx pk power signed) st
    (fun _ st' => slashed_once pk height power (1 # 100) st st' /\
       exists S', slash_st k st' S' /\ windows S' (record_vote a signed hs) /\
       si_JailedUntil (info_at S' height a) = wrap64 (now + DowntimeUnbondDuration)) any_panic.
Proof.
  intros a Hst Hw Hl Ha. apply (handleValidatorSignature_spec k ctx st S); [done|done|..].
  - rewrite (windows_offset _ _ _ _ Hw). lia.
  - fold a. rewrite (downtime_absent _ _ _ _ _ Hw Hl). by rewrite Ha.
  - intros _ st1 fraction Hst1 Hf1. rewrite downtime_fraction. intros [= <-].
    eapply pspec_runs; [apply Slash_off|]. intros [] st2 Hr2 Hs2.
    eapply pspec_runs; [apply Revoke_off|]. intros [] st3 Hr3 Hs3.
    split.
    { eapply slash_st_frame; [apply Hs3|eapply slash_st_frame; [apply Hs2|exact Hst1]]; intros Hne; by apply Hne. }
    intros st' Hst' Hf'. split; [by exists st1, st2, st3|]. eexists. split; [exact Hst'|].
    split; [by apply signature_windows|]. unfold info_at at 1. simpl. fold a. by rewrite lookup_insert_eq.
Qed.

(** a validator that the history shows as absent - the start height is more
    than 40000 blocks ago and fewer than 20000 of the last 40000 were signed -
    is slashed by 1% of the power reported and revoked, once, and jailed for
    five minutes from the block's time. *)
Theorem absent_slashed (st : stores) (S : sstate) (hs : histories) (pk : PubKey) (power : Z) (signed : bool) :
  let a := PubKey_Address pk in
  slash_st k st S -> windows S hs -> Z.of_nat (length (hist_of hs a)) < max_int64 ->
  absent hs S height a signed = true ->
  pspec m (handleValidatorSignature k ctx pk power signed) st
    (fun _ st' => slashed_once pk height power (1 # 100) st st' /\
       exists S', slash_st k st' S' /\ windows S' (record_vote a signed hs) /\
       si_JailedUntil (info_at S' height a) = wrap64 (now + DowntimeUnbondDuration)) any_panic.
Proof. apply absent_effect. Qed.

(** a validator that signed every block it was ever asked to sign is slashed
    for downtime and jailed all the same, if it was asked to sign fewer than
    19999 of the blocks since its start height, more than 40000 blocks ago:
    the window counts blocks it was not in the set for as missed. *)
Theorem perfect_signer_slashed (st : stores) (S : sstate) (hs : histories) (pk : PubKey) (power : Z) :
  let a := PubKey_Address pk in
  slash_st k st S -> windows S hs ->
  (forall b, b ∈ hist_of hs a -> b = true) -> Z.of_nat (length (hist_of hs a)) + 1 < MinSignedPerWindow ->
  wrap64 (si_StartHeight (info_at S height a) + SignedBlocksWindow) < height ->
  pspec m (handleValidatorSignature k ctx pk power true) st
    (fun _ st' => slashed_once pk height power (1 # 100) st st' /\
       exists S', slash_st k st' S' /\ windows S' (record_vote a true hs) /\
       si_JailedUntil (info_at S' height a) = wrap64 (now + DowntimeUnbondDuration)) any_panic.
Proof.
  intros a Hst Hw Hall Hlen Hh. apply (absent_effect st S hs); [done|done| |by apply absent_without_missing].
  fold a. replace MinSignedPerWindow with 20000 in Hlen by reflexivity. unfold max_int64. lia.
Qed.

(** In both cases. *)
Lemma signature_spec (st : stores) (S : sstate) (hs : histories) (pk : PubKey) (power : Z) (signed : bool) (Q : unit -> stores -> Prop) :
  slash_st k st S -> windows S hs -> Z.of_nat (length (hist_of hs (PubKey_Address pk))) < max_int64 ->
  (forall st' S', slash_st k st' S' -> windows S' (record_vote (PubKey_Address pk) signed hs) -> Q tt st') ->
  pspec m (handleValidatorSignature k ctx pk power signed) st Q any_panic.
Proof.
  intros Hst Hw Hl HQ. apply (handleValidatorSignature_spec k ctx st S); [done|done|..].
  - rewrite (windows_offset _ _ _ _ Hw). lia.
  - intros _ st' Hst' _. eapply HQ; [exact Hst'|]. by apply signature_windows.
  - intros _ st1 fraction Hst1 _ _.
    eapply pspec_runs; [apply Slash_off|]. intros [] st2 _ Hs2.
    eapply pspec_runs; [apply Revoke_off|]. intros [] st3 _ Hs3. split.
    { eapply slash_st_frame; [apply Hs3|eapply slash_st_frame; [apply Hs2|exact Hst1]]; intros Hne; by apply Hne. }
    intros st' Hst' _. eapply HQ; [exact Hst'|]. by apply signature_windows.
Qed.
(** ** Double signs *)

Lemma double_sign_effect (st : stores) (S : sstate) (hs : histories) (pk : PubKey) (infraction timestamp power : Z) :
  let a := PubKey_Address pk in
  slash_st k st S -> windows S hs ->
  pspec m (handleDoubleSign k ctx pk infraction timestamp power) st
    (fun _ st' => if MaxEvidenceAge <? wrap64 (now - timestamp) then st' = st
       else slashed_once pk infraction power (1 # 20) st st' /\ exists info S', ss_infos S !! a = Some info /\
         slash_st k st' S' /\ windows S' hs /\
         ss_infos S' !! a = Some (with_JailedUntil info (wrap64 (now + DoubleSignUnbondDuration)))) any_panic.
Proof.
  intros a Hst Hw. unfold handleDoubleSign. destruct (MaxEvidenceAge <? wrap64 (now - timestamp)); [by apply pspec_ret|].
  rewrite double_sign_fraction. apply pspec_bind, pspec_lift_any. intros ? [= <-].
  eapply off_spec; [apply Slash_off|exact Hst|]. intros [] st1 Hr1 Hst1.
  eapply off_spec; [apply Revoke_off|exact Hst1|]. intros [] st2 Hr2 Hst2.
  apply pspec_bind. eapply getInfo_spec; [exact Hst2|]. intros Hwf. fold a.
  destruct (ss_infos S !! a) as [info|] eqn:Ei; [|apply pspec_fault_any].
  eapply setInfo_spec; [exact Hst2| |].
  { destruct (Hwf info Ei). split; simpl; auto with sdk. }
  intros st3 Hst3 Hf3. split; [by exists st, st1, st2|]. exists info. eexists. split; [done|]. split; [exact Hst3|].
  assert (Ea : info_at S 0 a = info) by (unfold info_at; by rewrite Ei).
  split; [|apply lookup_insert_eq]. apply windows_put_same; simpl; by rewrite ?Ea.
Qed.
(** As far as the windows are concerned. *)
Lemma double_sign_spec (st : stores) (S : sstate) (hs : histories) (pk : PubKey) (infraction timestamp power : Z) :
  slash_st k st S -> windows S hs ->
  pspec m (handleDoubleSign k ctx pk infraction timestamp power) st
    (fun _ st' => exists S', slash_st k st' S' /\ windows S' hs) any_panic.
Proof.
  intros Hst Hw. eapply pspec_mono; [by apply (double_sign_effect st S hs)| |done]. intros [] st'. cbn beta.
  destruct (MaxEvidenceAge <? _); [intros ->; by exists S|]. intros (_ & info & S' & _ & Hst' & Hw' & _). by exists S'.
Qed.

(** C20: evidence of a double sign that is older than two minutes changes nothing;
    otherwise the validator is slashed by 5% of the power reported and revoked,
    once, and jailed for five minutes from the block's time, its window of
    signed blocks untouched - and for a key without a signing info the handler
    never returns. *)
Theorem double_sign_jails (st : stores) (S : sstate) (hs : histories) (pk : PubKey) (infraction timestamp power : Z) :
  let a := PubKey_Address pk in
  slash_st k st S -> windows S hs ->
  pspec m (handleDoubleSign k ctx pk infraction timestamp power) st
    (fun _ st' => if MaxEvidenceAge <? wrap64 (now - timestamp) then st' = st
       else slashed_once pk infraction power (1 # 20) st st' /\ exists info S', ss_infos S !! a = Some info /\
         slash_st k st' S' /\ windows S' hs /\
         ss_infos S' !! a = Some (with_JailedUntil info (wrap64 (now + DoubleSignUnbondDuration)))) any_panic.
Proof. apply double_sign_effect. Qed.

(** ** Unrevoking *)

Ltac unchanged v st1 S Hr :=
  apply pspec_ret; exists v, st1, S; split; [exact Hr|split; [by econstructor|by split]].

(** The outcomes of the message: the validator the set has for the address
    ([v]), the result, the stores before ([st]) and after, and the state after. *)
Inductive unrevoked (addr : slice) (S : sstate) (st : stores) : option sdk_Validator -> Result -> stores -> sstate -> Prop :=
  | unrevoked_unknown :
      unrevoked addr S st None (err_Result (SlashErrors.ErrNoValidatorForAddress (sl_codespace k))) st S
  | unrevoked_not_revoked v :
      sv_GetRevoked v = false ->
      unrevoked addr S st (Some v) (err_Result (SlashErrors.ErrValidatorNotRevoked (sl_codespace k))) st S
  | unrevoked_no_info v pk :
      sv_GetRevoked v = true -> sv_GetPubKey v = Some pk -> ss_infos S !! PubKey_Address pk = None ->
      unrevoked addr S st (Some v) (err_Result (SlashErrors.ErrNoValidatorForAddress (sl_codespace k))) st S
  | unrevoked_jailed v pk info :
      sv_GetRevoked v = true -> sv_GetPubKey v = Some pk -> ss_infos S !! PubKey_Address pk = Some info ->
      now < si_JailedUntil info ->
      unrevoked addr S st (Some v) (err_Result (SlashErrors.ErrValidatorJailed (sl_codespace k))) st S
  | unrevoked_checked v pk info :
      sv_GetRevoked v = true -> sv_GetPubKey v = Some pk -> ss_infos S !! PubKey_Address pk = Some info ->
      si_JailedUntil info <= now -> cx_IsCheckTx ctx = true ->
      unrevoked addr S st (Some v) (tags_Result []) st S
  | unrevoked_done v pk info st1 st2 :
      sv_GetRevoked v = true -> sv_GetPubKey v = Some pk -> ss_infos S !! PubKey_Address pk = Some info ->
      si_JailedUntil info <= now -> cx_IsCheckTx ctx = false ->
      frame slkey st st1 -> runs m (vs_Unrevoke vset ctx (Some pk)) st1 tt st2 ->
      unrevoked addr S st (Some v)
        (tags_Result [MakeTag "action" (string_bytes "unrevoke");
                      MakeTag "validator" (string_bytes (HexString (slice_bytes addr)))]) st2
        (put_info S (PubKey_Address pk) (with_StartHeight info height)).

Lemma unrevoke_effect (st : stores) (S : sstate) (hs : histories) (msg : MsgUnrevoke) :
  slash_st k st S -> windows S hs ->
  pspec m (handleMsgUnrevoke k ctx msg) st
    (fun r st' => exists v st1 S', runs m (vs_Validator vset ctx (slice_bytes (un_ValidatorAddr msg))) st v st1 /\
       unrevoked (un_ValidatorAddr msg) S st1 v r st' S' /\ slash_st k st' S' /\ windows S' hs) any_panic.
Proof.
  intros Hst Hw. eapply off_spec; [apply Validator_off|exact Hst|]. intros v st1 Hr Hst1.
  destruct v as [v|]; [|unchanged (None (A:=sdk_Validator)) st1 S Hr].
  destruct (sv_GetRevoked v) eqn:Ev; cbn [negb];
    [|unchanged (Some v) st1 S Hr].
  apply pspec_bind, pspec_lift_any. intros pk Epk. destruct (sv_GetPubKey v) as [pk'|] eqn:Ek; [|done]. injection Epk as ->.
  apply pspec_bind. eapply getInfo_spec; [exact Hst1|]. intros Hwf.
  destruct (ss_infos S !! PubKey_Address pk) as [info|] eqn:Ei;
    [|unchanged (Some v) st1 S Hr].
  destruct (Z.ltb_spec now (si_JailedUntil info)) as [Hj|Hj];
    [unchanged (Some v) st1 S Hr|].
  destruct (cx_IsCheckTx ctx) eqn:Ec;
    [unchanged (Some v) st1 S Hr|].
  apply pspec_bind. eapply setInfo_spec; [exact Hst1| |].
  { destruct (Hwf info eq_refl). by split. }
  intros st2 Hst2 Hf2. eapply off_spec; [apply Unrevoke_off|exact Hst2|]. intros [] st3 Hr3 Hst3.
  apply pspec_bind, pspec_lift_any. intros tags [= <-]. apply pspec_ret.
  exists (Some v), st1. eexists. split; [exact Hr|]. split; [by econstructor|]. split; [exact Hst3|].
  assert (Ea : info_at S 0 (PubKey_Address pk) = info) by (unfold info_at; by rewrite Ei).
  apply windows_put_same; simpl; by rewrite ?Ea.
Qed.
Lemma unrevoke_spec (st : stores) (S : sstate) (hs : histories) (msg : MsgUnrevoke) :
  slash_st k st S -> windows S hs ->
  pspec m (handleMsgUnrevoke k ctx msg) st (fun _ st' => exists S', slash_st k st' S' /\ windows S' hs) any_panic.
Proof.
  intros Hst Hw. eapply pspec_mono; [by apply (unrevoke_effect st S hs)| |done].
  intros r st' (v & st1 & S' & _ & _ & Hst' & Hw'). by exists S'.
Qed.

(** the message to unrevoke, on every branch: an unknown validator, one that
    is not revoked, one without a signing info and one still in jail are
    errors that change nothing; on CheckTx nothing changes either; otherwise
    the validator's start height becomes the block's and the set unrevokes it,
    once. *)
Theorem handleMsgUnrevoke_outcomes (st : stores) (S : sstate) (hs : histories) (msg : MsgUnrevoke) :
  slash_st k st S -> windows S hs ->
  pspec m (handleMsgUnrevoke k ctx msg) st
    (fun r st' => exists v st1 S', runs m (vs_Validator vset ctx (slice_bytes (un_ValidatorAddr msg))) st v st1 /\
       unrevoked (un_ValidatorAddr msg) S st1 v r st' S' /\ slash_st k st' S' /\ windows S' hs) any_panic.
Proof. apply unrevoke_effect. Qed.
End ops.
