(* ===== verification/SlashBlock.v ===== *)
(** * The slashing module over blocks

    The begin blocker, and the state of the module after any sequence of
    blocks, messages and programs of other modules: the windows of all
    validators are those of the votes the blocks reported. *)
From Stdlib Require Import Strings.Byte Strings.String QArith.
From S2P Require Import Prelude Wire Int Rational Errors Coin KVStore MultiStore Account Context ProgLogic Auth Records Address Ante Bank Pool Validator StakeKey StakeMsg StakeKeeper StakeVal StakeDel StakeHandler StakeModel StakeRep StakeExamples Footprint SlashTypes SlashKeeper SlashRep SlashWindow SlashOps.
#[local] Open Scope string_scope.
#[local] Open Scope list_scope.
#[local] Open Scope Z_scope.

(** ** Histories of blocks *)

(** Room for [n] more votes of any validator. *)
Definition room (n : nat) (hs : histories) : Prop :=
  forall a, Z.of_nat (length (hist_of hs a) + n) <= max_int64.

Lemma room_record a b n hs : room (S n) hs -> room n (record_vote a b hs).
Proof.
  intros Hr c. specialize (Hr c). unfold record_vote, hist_of in *. destruct (decide (a = c)) as [ <- |Hne].
  - rewrite lookup_insert_eq. simpl. lia.
  - rewrite lookup_insert_ne by done. lia.
Qed.
Lemma room_mono n n' hs : (n <= n')%nat -> room n' hs -> room n hs.
Proof. intros Hn Hr a. specialize (Hr a). lia. Qed.

Section blocks.
Context `{HSL : SlashCodecLaws} `{HC : Crypto} `{HPB : !PB2TM} (k : Keeper).
Abbreviation slkey := (sl_storeKey k).
Abbreviation vset := (sl_validatorSet k).
Context `{HOff : !OffStore slkey vset}.

(** The votes a block reports. *)
Definition record_block (vals : list SigningValidator) (hs : histories) : histories :=
  fold_left (fun hs v => match PB2TM_PubKey (sv_PubKey v) with
                         | inl pk => record_vote (PubKey_Address pk) (sv_SignedLastBlock v) hs
                         | inr _ => hs
                         end) vals hs.

Lemma votes_spec ctx vals : forall st S hs (Q : unit -> stores -> Prop),
  is_int64 (cx_BlockHeight ctx) -> slash_st k st S -> windows S hs -> room (length vals) hs ->
  (forall st' S', slash_st k st' S' -> windows S' (record_block vals hs) -> Q tt st') ->
  pspec (cx_GasMeter ctx) (forP vals (fun v => pubkey ← lift (pb_PubKey (sv_PubKey v));
    handleValidatorSignature k ctx pubkey (sv_Power v) (sv_SignedLastBlock v))) st Q any_panic.
Proof.
  induction vals as [|v vals IH]; intros st S hs Q Hh Hst Hw Hr HQ; [apply pspec_ret; by eapply HQ|].
  cbn [forP]. apply pspec_bind, pspec_bind, pspec_lift_any. intros pk Epk. unfold pb_PubKey in Epk.
  unfold record_block in HQ. cbn [fold_left] in HQ.
  destruct (PB2TM_PubKey (sv_PubKey v)) as [pk'|]; [|done]. injection Epk as ->.
  eapply (signature_spec k ctx Hh st S hs); [exact Hst|exact Hw| |].
  { specialize (Hr (PubKey_Address pk)). simpl in Hr. lia. }
  intros st' S' Hst' Hw'. eapply IH; [exact Hh|exact Hst'|exact Hw'| |exact HQ]. by apply room_record.
Qed.

Lemma evidence_spec ctx evs : forall st S hs (Q : unit -> stores -> Prop),
  is_int64 (cx_BlockHeight ctx) -> slash_st k st S -> windows S hs ->
  (forall st' S', slash_st k st' S' -> windows S' hs -> Q tt st') ->
  pspec (cx_GasMeter ctx) (forP evs (fun evidence => pk ← lift (pb_PubKey (ev_PubKey evidence));
    if decide (ev_Type evidence = WRSPEvidenceTypeDuplicateVote)
    then handleDoubleSign k ctx pk (ev_Height evidence) (ev_Time evidence) (ev_Power evidence)
    else mret tt)) st Q any_panic.
Proof.
  induction evs as [|e evs IH]; intros st S hs Q Hh Hst Hw HQ; [apply pspec_ret; by eapply HQ|].
  cbn [forP]. apply pspec_bind, pspec_bind, pspec_lift_any. intros pk _. destruct (decide _).
  - eapply pspec_mono; [by apply (double_sign_spec k ctx st S hs)| |done].
    intros [] st' (S' & Hst' & Hw'). by eapply IH.
  - apply pspec_ret. by eapply IH.
Qed.

Lemma BeginBlocker_spec ctx req st S hs (Q : Tags -> stores -> Prop) :
  is_int64 (cx_BlockHeight ctx) -> slash_st k st S -> windows S hs -> room (length (rb_Validators req)) hs ->
  (forall tags st' S', slash_st k st' S' -> windows S' (record_block (rb_Validators req) hs) -> Q tags st') ->
  pspec (cx_GasMeter ctx) (BeginBlocker k ctx req) st Q any_panic.
Proof.
  intros Hh Hst Hw Hr HQ. apply pspec_bind, pspec_lift_any. intros tags _.
  apply pspec_bind. eapply votes_spec; [exact Hh|exact Hst|exact Hw|exact Hr|]. intros st1 S1 Hst1 Hw1.
  apply pspec_bind. eapply evidence_spec; [exact Hh|exact Hst1|exact Hw1|]. intros st2 S2 Hst2 Hw2.
  apply pspec_ret. by eapply HQ.
Qed.

(** ** Chains of blocks, messages and other programs *)

Inductive slash_chain : nat -> stores -> histories -> stores -> histories -> Prop :=
  | chain_done st hs : slash_chain 0 st hs st hs
  | chain_block n ctx req tags st hs st1 st' hs' :
      is_int64 (cx_BlockHeight ctx) -> runs (cx_GasMeter ctx) (BeginBlocker k ctx req) st tags st1 ->
      slash_chain n st1 (record_block (rb_Validators req) hs) st' hs' ->
      slash_chain (length (rb_Validators req) + n) st hs st' hs'
  | chain_unrevoke n ctx msg r st hs st1 st' hs' :
      is_int64 (cx_BlockHeight ctx) -> runs (cx_GasMeter ctx) (handleMsgUnrevoke k ctx msg) st r st1 ->
      slash_chain n st1 hs st' hs' -> slash_chain n st hs st' hs'
  | chain_other n m (A : Type) (p : prog A) a st hs st1 st' hs' :
      touches (fun key => key <> slkey) p -> runs m p st a st1 ->
      slash_chain n st1 hs st' hs' -> slash_chain n st hs st' hs'.

Lemma record_block_room vals n hs : room (length vals + n) hs -> room n (record_block vals hs).
Proof.
  unfold record_block. revert hs. induction vals as [|v vals IH]; intros hs Hr; [done|]. cbn [fold_left].
  apply IH. simpl in Hr. destruct (PB2TM_PubKey _); [by apply room_record|]. by eapply room_mono; [|exact Hr]; lia.
Qed.

(** C19: after any sequence of blocks, messages to unrevoke and programs of other
    modules, every validator's counter is the number of blocks it signed among
    the last 40000 the blocks reported for it, and its bit array is the ring
    buffer of those votes. *)
Theorem slash_chain_windows (n : nat) (st st' : stores) (hs hs' : histories) :
  slash_chain n st hs st' hs' -> forall S, slash_st k st S -> windows S hs -> room n hs ->
  exists S', slash_st k st' S' /\ windows S' hs'.
Proof.
  induction 1 as [st hs|n ctx req tags st hs st1 st' hs' Hh Hr _ IH|n ctx msg r st hs st1 st' hs' Hh Hr _ IH
    |n m A p a st hs st1 st' hs' Hp Hr _ IH]; intros S Hst Hw Hroom; [by exists S|..].
  - assert (exists S1, slash_st k st1 S1 /\ windows S1 (record_block (rb_Validators req) hs)) as (S1 & Hst1 & Hw1).
    { eapply (runs_pspec _ _ _ _ _ (fun _ st1 => exists S1, slash_st k st1 S1 /\ windows S1 _)); [exact Hr|].
      eapply BeginBlocker_spec; [exact Hh|exact Hst|exact Hw| |intros ? ? S1 ? ?; by exists S1].
      eapply room_mono; [|exact Hroom]. lia. }
    eapply IH; [exact Hst1|exact Hw1|]. by apply record_block_room.
  - destruct (runs_pspec _ _ _ _ _ _ _ Hr (unrevoke_spec k ctx Hh st S hs msg Hst Hw)) as (S1 & Hst1 & Hw1). by eapply IH.
  - eapply IH; [|exact Hw|exact Hroom]. eapply slash_st_frame; [|exact Hst].
    eapply (runs_pspec _ _ _ _ _ (fun _ st1 => st1 !! slkey = st !! slkey)); [exact Hr|].
    eapply pspec_runs; [exact Hp|]. intros ? ? _ Hs. apply Hs. intros Hne. by apply Hne.
Qed.
End blocks.

(** * Slashing on the staking module, and examples

    The staking keeper is a validator set that stays off the slashing store.
    The examples run on the world of the staking examples, with validator 07
    found by its key and with a signing info. *)

(** ** The staking keeper as a validator set *)

Section stake.
Context `{StakeCodec} `{!AddrCodec} `{!Codec} (k : StakeKeeper.Keeper).

Lemma stake_OffStore (key : StoreKey) :
  storeKey k <> key -> am_key (coinKeeper k) <> key -> OffStore key (stake_ValidatorSet k).
Proof.
  intros Hs Ha. split; intros; unfold stake_ValidatorSet; cbn [vs_Validator vs_Slash vs_Revoke vs_Unrevoke];
    [|by apply touches_Slash|by apply touches_Revoke|by apply touches_Unrevoke].
  apply touches_bind; [by apply touches_GetValidator|done].
Qed.

(** evidence of a recent double sign by a key that no validator has (it
    unbonded and was removed) never gets past the slashing: the begin blocker
    cannot finish the block. *)
Theorem unknown_evidence_halts `{SlashCodec} (sl : SlashKeeper.Keeper) (ctx : Ctx) (st : stores) (s : spec_store)
    (pk : PubKey) (infraction timestamp power : Z) :
  sl_validatorSet sl = stake_ValidatorSet k ->
  st !! storeKey k = Some s -> s !! key_of (GetValidatorByPubKeyIndexKey (Some pk)) = None ->
  wrap64 (hd_Time (cx_BlockHeader ctx) - timestamp) <= MaxEvidenceAge ->
  pspec (cx_GasMeter ctx) (handleDoubleSign sl ctx pk infraction timestamp power) st (fun _ _ => False) any_panic.
Proof.
  intros Hvs Hs Hk Hage. unfold handleDoubleSign. rewrite Hvs.
  destruct (Z.ltb_spec MaxEvidenceAge (wrap64 (hd_Time (cx_BlockHeader ctx) - timestamp))); [lia|].
  apply pspec_bind, pspec_lift_any. intros fraction _.
  apply pspec_bind. simpl. unfold Slash. destruct (Rat.LT fraction Rat.ZeroRat); [apply pspec_fault_any|].
  apply pspec_bind, pspec_lift_any. intros powerRat _. apply pspec_bind, pspec_lift_any. intros amount _.
  apply pspec_bind. unfold GetValidatorByPubKey. apply pspec_bind, pspec_lift_any. intros key Hkey. rewrite Hkey in Hk.
  apply pspec_bind, (pspec_Get _ _ _ s); [done|]. cbn [key_of] in Hk. rewrite Hk. apply pspec_ret, pspec_fault_any.
Qed.
End stake.

(** ** An encoding *)

#[local] Existing Instance model_Crypto.
#[local] Existing Instance model_CryptoLaws.
#[local] Existing Instance model_Codec.
#[local] Existing Instance model_CodecLaws.
#[local] Existing Instance model_TM2PB.
#[local] Existing Instance model_StakeCodec.
#[local] Existing Instance model_StakeCodecLaws.
#[local] Existing Instance model_AddrCodec.
#[local] Existing Instance model_AddrCodecLaws.
#[local] Existing Instance model_Bech32.

#[export] Instance wire_info : Wire ValidatorSigningInfo.
Proof.
  refine (wire_iso (fun i => (si_StartHeight i, si_IndexOffset i, si_JailedUntil i, si_SignedBlocksCounter i))
    (fun '(a, b, c, d) => mk_ValidatorSigningInfo a b c d) _). by intros [].
Defined.
#[export] Instance info_wf_dec i : Decision (info_wf i).
Proof.
  refine (decide_record (is_int64 (si_StartHeight i) /\ is_int64 (si_IndexOffset i) /\ is_int64 (si_JailedUntil i) /\
    is_int64 (si_SignedBlocksCounter i)) _ _ _); [by intros (? & ? & ? & ?)|by intros []].
Defined.

Definition model_SlashCodec : SlashCodec := {|
  MarshalInfo := enc_some; UnmarshalInfo := dec_checked info_wf;
  MarshalBool b := Some (ser b); UnmarshalBool := deser |}.
#[local] Existing Instance model_SlashCodec.
Lemma model_SlashCodecLaws : SlashCodecLaws.
Proof.
  split; [apply checked_roundtrip| |apply checked_decoded].
  intros b. eexists. split; [done|]. apply deser_ser.
Qed.
#[local] Existing Instance model_SlashCodecLaws.

Definition model_PB2TM : PB2TM := {| PB2TM_PubKey bz := inl bz; WRSPEvidenceTypeDuplicateVote := "duplicate/vote" |}.
#[local] Existing Instance model_PB2TM.

(** ** The world *)

Definition slash_key : StoreKey := mk_StoreKey 6 "slash".
Definition slash_k : SlashKeeper.Keeper :=
  SlashKeeper.NewKeeper slash_key (stake_ValidatorSet ex_keeper) SlashErrors.DefaultCodespace.
Lemma slash_off : OffStore (sl_storeKey slash_k) (sl_validatorSet slash_k).
Proof. by apply stake_OffStore. Qed.
#[local] Existing Instance slash_off.

Definition pk7 : PubKey := ([Byte.x07] : bytes).
Definition info7 : ValidatorSigningInfo := NewValidatorSigningInfo 0 0 0 0.
Definition slash_S : sstate := put_info (mk_sstate ∅ ∅) pk7 info7.
Definition slash_s : spec_store := <[GetValidatorSigningInfoKey pk7 := enc info7]> ∅.
Definition slash_world : stores :=
  <[slash_key := slash_s]> (<[stake_key := <[key_of (GetValidatorByPubKeyIndexKey (Some pk7)) := Owner ex_v7]> ex_s]> ex_world).

Lemma slash_world_st : slash_st slash_k slash_world slash_S.
Proof.
  exists slash_s. split; [apply lookup_insert_eq|]. apply (rep_put_info ∅ (mk_sstate ∅ ∅)); [|by vm_compute].
  split; intros; by rewrite !lookup_empty.
Qed.

Lemma slash_windows : windows slash_S ∅.
Proof.
  intros a. replace (hist_of ∅ a) with (@nil bool) by (unfold hist_of; by rewrite lookup_empty).
  unfold slash_S. rewrite (info_at_put (mk_sstate ∅ ∅) pk7 info7 a).
  destruct (decide _); [|unfold info_at; simpl; rewrite lookup_empty]; apply window_nil; intros i; unfold bit_at; simpl; by rewrite lookup_empty.
Qed.

(** At height 50000 the window of validator 07 is over. *)
Definition late_ctx : Ctx := WithBlockHeight (WithBlockHeader ex_ctx (mk_Header "" 50000 1000)) 50000.
Lemma late_height : is_int64 (cx_BlockHeight late_ctx).
Proof. split; vm_compute; discriminate. Qed.
Lemma early_height : is_int64 (cx_BlockHeight ex_ctx).
Proof. split; vm_compute; discriminate. Qed.

(** ** Runs *)

Definition run_slash {A} (p : prog A) : outcome A * option bool * option Rat * option ValidatorSigningInfo :=
  let '(r, w) := interp p (mk_World (mk_spec_ms slash_world ∅) [NewInfiniteGasMeter]) in
  let v := s ← sm_stores (w_ms w) !! stake_key; bz ← (s : spec_store) !! GetValidatorKey (Owner ex_v7); UnmarshalValidator bz in
  (r, Revoked <$> v, (fun v => ps_Amount (val_PoolShares v)) <$> v,
   s ← sm_stores (w_ms w) !! slash_key; bz ← (s : spec_store) !! GetValidatorSigningInfoKey pk7; UnmarshalInfo bz).

(** A validator late in its window that signs its first block: it is slashed
    by 1% of the reported power of 300, revoked and jailed until 1300.  On the
    next block, before the set changes, it is slashed again. *)
Example signature_runs :
  run_slash (handleValidatorSignature slash_k ex_ctx pk7 300 true) =
    (Ok tt, Some false, Some (10 # 1), Some (NewValidatorSigningInfo 0 1 0 1)) /\
  run_slash (handleValidatorSignature slash_k late_ctx pk7 300 true) =
    (Ok tt, Some true, Some (7 # 1), Some (NewValidatorSigningInfo 0 1 1300 1)) /\
  run_slash (handleValidatorSignature slash_k late_ctx pk7 300 true;; handleValidatorSignature slash_k late_ctx pk7 300 true) =
    (Ok tt, Some true, Some (4 # 1), Some (NewValidatorSigningInfo 0 2 1300 2)).
Proof. vm_compute. repeat split. Qed.

Definition double_req : RequestBeginBlock :=
  mk_RequestBeginBlock (mk_Header "" 50000 1000) [] [mk_Evidence "duplicate/vote" pk7 100 50000 1000].
Definition unknown_req : RequestBeginBlock :=
  mk_RequestBeginBlock (mk_Header "" 50000 1000) [] [mk_Evidence "duplicate/vote" [Byte.x09] 100 50000 1000].
Example BeginBlocker_runs :
  (let '(r, rv, am, i) := run_slash (BeginBlocker slash_k late_ctx double_req) in
   (match r with Ok _ => true | _ => false end, rv, am, i)) =
    (true, Some true, Some (5 # 1), Some (NewValidatorSigningInfo 0 0 1300 0)) /\
  (let '(r, _, _, _) := run_slash (BeginBlocker slash_k late_ctx unknown_req) in r) =
    Panicked (PanicString "attempted to slash a nonexistent validator").
Proof. vm_compute. repeat split. Qed.

(** ** The theorems on the world *)

Lemma slash_room (n : nat) : (n <= 10)%nat -> room n ∅.
Proof. intros Hn a. unfold hist_of. rewrite lookup_empty. simpl. unfold max_int64. lia. Qed.

Lemma late_absent : absent ∅ slash_S 50000 pk7 true = true.
Proof.
  unfold absent. apply andb_true_intro. split; [vm_compute; reflexivity|]. apply Z.ltb_lt.
  pose proof (count_true_bounds (take window_size (true :: hist_of ∅ pk7))) as [_ Hc].
  rewrite length_take in Hc. unfold hist_of in *. rewrite lookup_empty in *.
  replace MinSignedPerWindow with 20000 by reflexivity. simpl length in Hc. simpl default in *. lia.
Qed.

Lemma present_not_slashed_witness :
  absent ∅ slash_S 0 pk7 false = false /\
  pspec 0 (handleValidatorSignature slash_k ex_ctx pk7 300 false) slash_world
    (fun _ st' => frame slash_key slash_world st' /\ exists S', slash_st slash_k st' S' /\
       windows S' (record_vote pk7 false ∅) /\ si_JailedUntil (info_at S' 0 pk7) = 0) no_panic.
Proof.
  split; [reflexivity|].
  refine (present_not_slashed slash_k ex_ctx early_height slash_world slash_S ∅ pk7 300 false slash_world_st slash_windows _ _);
    reflexivity.
Defined.

Lemma absent_slashed_witness :
  absent ∅ slash_S 50000 pk7 true = true /\
  pspec 0 (handleValidatorSignature slash_k late_ctx pk7 300 true) slash_world
    (fun _ st' => slashed_once slash_k late_ctx pk7 50000 300 (1 # 100) slash_world st' /\
       exists S', slash_st slash_k st' S' /\ windows S' (record_vote pk7 true ∅) /\
         si_JailedUntil (info_at S' 50000 pk7) = 1300) any_panic.
Proof.
  split; [exact late_absent|].
  refine (absent_slashed slash_k late_ctx late_height slash_world slash_S ∅ pk7 300 true slash_world_st slash_windows _ late_absent).
  reflexivity.
Defined.

Lemma double_sign_jails_witness :
  pspec 0 (handleDoubleSign slash_k late_ctx pk7 50000 1000 100) slash_world
    (fun _ st' => slashed_once slash_k late_ctx pk7 50000 100 (1 # 20) slash_world st' /\ exists info S',
       ss_infos slash_S !! (pk7 : Address) = Some info /\ slash_st slash_k st' S' /\ windows S' ∅ /\
       ss_infos S' !! (pk7 : Address) = Some (with_JailedUntil info 1300)) any_panic.
Proof. exact (double_sign_jails slash_k late_ctx slash_world slash_S ∅ pk7 50000 1000 100 slash_world_st slash_windows). Defined.

Definition unrevoke7 : MsgUnrevoke := NewMsgUnrevoke (Some pk7).
Lemma handleMsgUnrevoke_outcomes_witness :
  MsgUnrevoke_ValidateBasic unrevoke7 = None /\
  pspec 0 (handleMsgUnrevoke slash_k late_ctx unrevoke7) slash_world
    (fun r st' => exists v st1 S', runs 0 (stake_Validator ex_keeper late_ctx pk7) slash_world v st1 /\
       unrevoked slash_k late_ctx (Some pk7) slash_S st1 v r st' S' /\ slash_st slash_k st' S' /\ windows S' ∅) any_panic.
Proof.
  split; [reflexivity|].
  exact (handleMsgUnrevoke_outcomes slash_k late_ctx late_height slash_world slash_S ∅ unrevoke7 slash_world_st slash_windows).
Defined.

Definition quiet_req : RequestBeginBlock :=
  mk_RequestBeginBlock (mk_Header "" 0 0) [mk_SigningValidator pk7 10 true; mk_SigningValidator [Byte.x08] 10 false] [].
Definition quiet_run := interp (BeginBlocker slash_k ex_ctx quiet_req) (mk_World (mk_spec_ms slash_world ∅) [NewInfiniteGasMeter]).
Lemma quiet_run_ok : exists tags, quiet_run.1 = Ok tags.
Proof. eexists. vm_compute. reflexivity. Qed.

Lemma slash_chain_windows_witness :
  exists st' S', slash_chain slash_k 2 slash_world ∅ st' (record_block (rb_Validators quiet_req) ∅) /\
    slash_st slash_k st' S' /\ windows S' (record_block (rb_Validators quiet_req) ∅) /\
    hist_of (record_block (rb_Validators quiet_req) ∅) [Byte.x08] = [false].
Proof.
  assert (Hc : exists st', slash_chain slash_k 2 slash_world ∅ st' (record_block (rb_Validators quiet_req) ∅)).
  { destruct quiet_run_ok as [tags Ht]. exists (sm_stores (w_ms quiet_run.2)).
    refine (chain_block slash_k 0 ex_ctx quiet_req tags _ _ _ _ _ early_height _ (chain_done _ _ _)).
    exists ∅, [NewInfiniteGasMeter], quiet_run.2. split; [by eexists|]. split; [|done].
    rewrite <- Ht. apply surjective_pairing. }
  destruct Hc as [st' Hc].
  destruct (slash_chain_windows slash_k 2 _ _ _ _ Hc slash_S slash_world_st slash_windows (slash_room 2 ltac:(lia))) as (S' & Hst & Hw).
  exists st', S'. split; [exact Hc|]. split; [exact Hst|]. split; [exact Hw|]. vm_compute. reflexivity.
Defined.

Lemma perfect_signer_slashed_witness :
  hist_of ∅ pk7 = [] /\ si_StartHeight (info_at slash_S 50000 pk7) = 0 /\
  pspec 0 (handleValidatorSignature slash_k late_ctx pk7 300 true) slash_world
    (fun _ st' => slashed_once slash_k late_ctx pk7 50000 300 (1 # 100) slash_world st' /\
       exists S', slash_st slash_k st' S' /\ windows S' (record_vote pk7 true ∅) /\
         si_JailedUntil (info_at S' 50000 pk7) = 1300) any_panic.
Proof.
  split; [reflexivity|]. split; [reflexivity|].
  refine (perfect_signer_slashed slash_k late_ctx late_height slash_world slash_S ∅ pk7 300 slash_world_st slash_windows _ _ _).
  - intros b Hb. exfalso. unfold hist_of in Hb. rewrite lookup_empty in Hb. inversion Hb.
  - reflexivity.
  - reflexivity.
Defined.

Lemma unknown_evidence_halts_witness :
  pspec 0 (handleDoubleSign slash_k late_ctx ([Byte.x09] : bytes) 100 1000 300) slash_world (fun _ _ => False) any_panic.
Proof.
  apply (unknown_evidence_halts ex_keeper slash_k late_ctx slash_world
    (<[key_of (GetValidatorByPubKeyIndexKey (Some pk7)) := Owner ex_v7]> ex_s)).
  - reflexivity.
  - unfold slash_world. rewrite lookup_insert_ne by done. apply lookup_insert_eq.
  - vm_compute. reflexivity.
  - vm_compute. discriminate.
Defined.
