(* ===== verification/IbcTypes.v ===== *)
(** * x/ibc: errors, packets, messages, the mapper and the handler

    errors.go, types.go, mapper.go and handler.go.  A chain posts the packets
    it sends in its own store, in a queue for each destination, and counts the
    packets it received from each source; a relayer carries them over. *)
From Stdlib Require Import Strings.Byte Strings.String.
From S2P Require Import Prelude Int Coin Errors KVStore MultiStore Account Context ProgLogic Auth Records Address Ante Bank.
From stdpp Require Import pretty.
#[local] Open Scope string_scope.
#[local] Open Scope list_scope.
#[local] Open Scope Z_scope.

(** ** errors.go *)

Module IbcErrors.
Definition DefaultCodespace : CodespaceType := 3.
Definition CodeInvalidSequence : CodeType := 200.
Definition CodeIdenticalChains : CodeType := 201.
Definition CodeUnknownRequest : CodeType := Errors.CodeUnknownRequest.

Definition codeToDefaultMsg (code : CodeType) : string :=
  if code =? CodeInvalidSequence then "invalid IBC packet sequence"
  else if code =? CodeIdenticalChains then "source and destination chain cannot be identical"
  else CodeToDefaultMsg code.
Definition msgOrDefaultMsg (msg : string) (code : CodeType) : string :=
  if decide (msg = "") then codeToDefaultMsg code else msg.
Definition newError (codespace : CodespaceType) (code : CodeType) (msg : string) : sdkError :=
  NewError codespace code (msgOrDefaultMsg msg code).
Definition ErrInvalidSequence (codespace : CodespaceType) : sdkError := newError codespace CodeInvalidSequence "".
Definition ErrIdenticalChains (codespace : CodespaceType) : sdkError := newError codespace CodeIdenticalChains "".
End IbcErrors.

(** ** types.go *)

Record IBCPacket := mk_IBCPacket {
  SrcAddr : Address; DestAddr : Address; pk_Coins : Coins; SrcChain : string; DestChain : string }.
Definition NewIBCPacket (srcAddr destAddr : Address) (coins : Coins) (srcChain destChain : string) : IBCPacket :=
  mk_IBCPacket srcAddr destAddr coins srcChain destChain.

Record IBCTransferMsg := mk_IBCTransferMsg { tm_IBCPacket : IBCPacket }.
Record IBCReceiveMsg := mk_IBCReceiveMsg { rm_IBCPacket : IBCPacket; Relayer : Address; Sequence : Z }.

(** msgCdc.MarshalJSON at the anonymous structs that are signed. *)
Class IbcJSON := {
  MarshalJSON_packet : string -> string -> Coins -> string -> string -> option bytes;
  MarshalJSON_receive : bytes -> string -> Z -> option bytes;
}.

Definition IBCPacket_ValidateBasic (p : IBCPacket) : option sdkError :=
  if decide (SrcChain p = DestChain p)
  then Some (TraceSDK (IbcErrors.ErrIdenticalChains IbcErrors.DefaultCodespace) "")
  else if negb (IsValid (pk_Coins p)) then Some (ErrInvalidCoins "")
  else None.

Section msgs.
Context `{Crypto} `{!Bech32} `{IbcJSON}.

Definition IBCPacket_GetSignBytes (p : IBCPacket) : outcome bytes :=
  srcAddr ← MustBech32ifyAcc (SrcAddr p);
  destAddr ← MustBech32ifyAcc (DestAddr p);
  must (MarshalJSON_packet srcAddr destAddr (pk_Coins p) (SrcChain p) (DestChain p)) "MarshalJSON".
Definition IBCReceiveMsg_GetSignBytes (msg : IBCReceiveMsg) : outcome bytes :=
  packet ← IBCPacket_GetSignBytes (rm_IBCPacket msg);
  relayer ← MustBech32ifyAcc (Relayer msg);
  must (MarshalJSON_receive packet relayer (Sequence msg)) "MarshalJSON".

(** The messages as [sdk.Msg]s. *)
Inductive ibc_Msg := Transfer (msg : IBCTransferMsg) | Receive (msg : IBCReceiveMsg).

#[global] Instance ibc_Msg_Msg : Msg ibc_Msg := {
  Type_ _ := "ibc";
  ValidateBasic m := Ok (IBCPacket_ValidateBasic match m with
    | Transfer m => tm_IBCPacket m
    | Receive m => rm_IBCPacket m
    end);
  GetSignBytes m := match m with
    | Transfer m => IBCPacket_GetSignBytes (tm_IBCPacket m)
    | Receive m => IBCReceiveMsg_GetSignBytes m
    end;
  msg_GetSigners m := [match m with
    | Transfer m => SrcAddr (tm_IBCPacket m)
    | Receive m => Relayer m
    end];
}.
End msgs.

(** ** mapper.go *)

(** MarshalBinary of a packet; packets are never read back from the store. *)
Class IbcCodec := { MarshalPacket : IBCPacket -> option bytes }.

Definition EgressKey (destChain : string) (index : Z) : bytes :=
  string_bytes ("egress/" ++ destChain ++ "/" ++ pretty index)%string.
Definition EgressLengthKey (destChain : string) : bytes := string_bytes ("egress/" ++ destChain)%string.
Definition IngressSequenceKey (srcChain : string) : bytes := string_bytes ("ingress/" ++ srcChain)%string.

Record Mapper := mk_Mapper { ib_key : StoreKey; ib_codespace : CodespaceType }.
Definition NewMapper (key : StoreKey) (codespace : CodespaceType) : Mapper := mk_Mapper key codespace.

Section mapper.
Context `{Codec} `{IbcCodec} (ibcm : Mapper) (ctx : Ctx).
Abbreviation ibkey := (ib_key ibcm).

(** marshalBinaryPanic and unmarshalBinaryPanic, at int64. *)
Definition marshalBinaryPanic (value : Z) : outcome bytes := must (MarshalInt64 value) "MarshalBinary".
Definition unmarshalBinaryPanic (bz : slice) : outcome Z :=
  must (match bz with Some bz => UnmarshalInt64 bz | None => None end) "UnmarshalBinary".

Definition getEgressLength (destChain : string) : prog Z :=
  bz ← store_Get ctx ibkey (EgressLengthKey destChain);
  match bz with
  | None =>
      zero ← lift (marshalBinaryPanic 0);
      store_Set ctx ibkey (EgressLengthKey destChain) zero;;
      mret 0
  | Some _ => lift (unmarshalBinaryPanic bz)
  end.

(** The sdk.Error is always nil. *)
Definition PostIBCPacket (packet : IBCPacket) : prog (option sdkError) :=
  index ← getEgressLength (DestChain packet);
  bz ← lift (must (MarshalPacket packet) "MarshalBinary");
  store_Set ctx ibkey (EgressKey (DestChain packet) index) bz;;
  bz ← lift (must (MarshalInt64 (wrap64 (index + 1))) "MarshalBinary");
  store_Set ctx ibkey (EgressLengthKey (DestChain packet)) bz;;
  mret None.

Definition ReceiveIBCPacket (packet : IBCPacket) : prog (option sdkError) := mret None.

Definition GetIngressSequence (srcChain : string) : prog Z :=
  let key := IngressSequenceKey srcChain in
  bz ← store_Get ctx ibkey key;
  match bz with
  | None => zero ← lift (marshalBinaryPanic 0); store_Set ctx ibkey key zero;; mret 0
  | Some _ => lift (unmarshalBinaryPanic bz)
  end.

Definition SetIngressSequence (srcChain : string) (sequence : Z) : prog unit :=
  bz ← lift (marshalBinaryPanic sequence);
  store_Set ctx ibkey (IngressSequenceKey srcChain) bz.

(** ** handler.go *)

Variable ck : AccountMapper.

Definition handleIBCTransferMsg (msg : IBCTransferMsg) : prog Result :=
  let packet := tm_IBCPacket msg in
  '(_, _, err) ← subtractCoins ctx ck (SrcAddr packet) (pk_Coins packet);
  match err with
  | Some err => mret (err_Result err)
  | None =>
      err ← PostIBCPacket packet;
      match err with
      | Some err => mret (err_Result err)
      | None => mret (tags_Result [])
      end
  end.

Definition handleIBCReceiveMsg (msg : IBCReceiveMsg) : prog Result :=
  let packet := rm_IBCPacket msg in
  seq ← GetIngressSequence (SrcChain packet);
  if negb (Sequence msg =? seq) then mret (err_Result (IbcErrors.ErrInvalidSequence (ib_codespace ibcm)))
  else
    '(_, _, err) ← addCoins ctx ck (DestAddr packet) (pk_Coins packet);
    match err with
    | Some err => mret (err_Result err)
    | None =>
        SetIngressSequence (SrcChain packet) (wrap64 (seq + 1));;
        mret (tags_Result [])
    end.

(** The type switch: [as_ibc] is the message as one of the module's types. *)
Definition NewHandler {T} (as_ibc : T -> option ibc_Msg) (type_name : T -> string) (msg : T) : prog Result :=
  match as_ibc msg with
  | Some (Transfer msg) => handleIBCTransferMsg msg
  | Some (Receive msg) => handleIBCReceiveMsg msg
  | None => mret (err_Result (ErrUnknownRequest ("Unrecognized IBC Msg type: " ++ type_name msg)%string))
  end.
End mapper.
