(* ===== verification/IbcOps.v ===== *)
(** * The abstract state of the IBC store

    For each destination the packets sent to it, in order, and for each source
    the number of packets received.  The keys of the queue of a destination
    are told apart from the lengths of the others only if the names of chains
    have no slash ([no_slash]). *)
From Stdlib Require Import Strings.Byte Strings.Ascii Strings.String.
From stdpp Require Import pretty.
From S2P Require Import Prelude Names Int Errors Coin KVStore MultiStore Account Context ProgLogic Auth Records Address Ante Bank Footprint IbcTypes.
#[local] Open Scope string_scope.
#[local] Open Scope list_scope.
#[local] Open Scope Z_scope.

(** ** Names without a slash *)

Definition no_slash : string -> Prop := without "/"%char.

Lemma EgressLengthKey_inj a b : EgressLengthKey a = EgressLengthKey b -> a = b.
Proof. unfold EgressLengthKey. rewrite !string_bytes_app. by intros E%app_inv_head%string_bytes_inj. Qed.
Lemma IngressSequenceKey_inj a b : IngressSequenceKey a = IngressSequenceKey b -> a = b.
Proof. unfold IngressSequenceKey. rewrite !string_bytes_app. by intros E%app_inv_head%string_bytes_inj. Qed.
Lemma EgressKey_inj a b i j :
  no_slash a -> no_slash b -> EgressKey a i = EgressKey b j -> (a, i) = (b, j).
Proof.
  intros Ha Hb. unfold EgressKey. rewrite !(string_bytes_app "egress/"). intros E%app_inv_head%string_bytes_inj.
  apply (split_at "/"%char) in E as [-> E]; [|done|done]. by apply (inj pretty) in E as ->.
Qed.
Lemma EgressKey_length a b i : no_slash a -> EgressLengthKey a <> EgressKey b i.
Proof.
  intros Ha. unfold EgressKey, EgressLengthKey. rewrite !(string_bytes_app "egress/").
  intros E%app_inv_head%string_bytes_inj. by eapply (without_name "/"%char).
Qed.
Lemma Ingress_Egress a k : IngressSequenceKey a <> string_bytes ("egress/" ++ k)%string.
Proof. intros E. apply (f_equal head) in E. by vm_compute in E. Qed.

(** the length of the queue to a chain whose name ends in a slash and a
    number is stored where a packet to another chain is. *)
Lemma egress_keys_collide (d : string) (i : Z) : EgressLengthKey (d ++ "/" ++ pretty i)%string = EgressKey d i.
Proof. done. Qed.

(** ** The abstract state *)

Record istate := mk_istate { is_out : gmap string (list IBCPacket); is_in : gmap string Z }.
Definition outbox (S : istate) (d : string) : list IBCPacket := default [] (is_out S !! d).
Definition inbox (S : istate) (c : string) : Z := default 0 (is_in S !! c).
Definition post (S : istate) (p : IBCPacket) : istate :=
  mk_istate (<[DestChain p := outbox S (DestChain p) ++ [p]]> (is_out S)) (is_in S).
Definition put_in (S : istate) (c : string) (n : Z) : istate := mk_istate (is_out S) (<[c := n]> (is_in S)).

Lemma inbox_put_in S c n c' : inbox (put_in S c n) c' = if decide (c' = c) then n else inbox S c'.
Proof.
  unfold inbox, put_in. simpl. destruct (decide (c' = c)) as [ -> |Hne]; [by rewrite lookup_insert_eq|].
  by rewrite lookup_insert_ne.
Qed.
Lemma outbox_post S p d : outbox (post S p) d = if decide (d = DestChain p) then outbox S d ++ [p] else outbox S d.
Proof.
  unfold outbox, post. simpl. destruct (decide (d = DestChain p)) as [ -> |Hne]; [by rewrite lookup_insert_eq|].
  by rewrite lookup_insert_ne.
Qed.

(** Packets of the Go type can be encoded. *)
Class IbcCodecLaws `{IbcCodec} : Prop := {
  Packet_total : forall p, amounts_wf (pk_Coins p) -> exists bz, MarshalPacket p = Some bz
}.

Section rep.
Context `{HCL : CodecLaws} `{HIC : IbcCodecLaws}.

Definition counter_holds (b : slice) (n : Z) : Prop :=
  match b with None => n = 0 | Some bz => UnmarshalInt64 bz = Some n end.

Record rep (s : spec_store) (S : istate) : Prop := mk_rep {
  r_len : forall d, no_slash d -> counter_holds (s !! EgressLengthKey d) (Z.of_nat (length (outbox S d)));
  r_out : forall d i p, no_slash d -> outbox S d !! i = Some p ->
    exists bz, s !! EgressKey d (Z.of_nat i) = Some bz /\ MarshalPacket p = Some bz;
  r_in : forall c, counter_holds (s !! IngressSequenceKey c) (inbox S c);
  r_in_range : forall c, is_int64 (inbox S c)
}.

Lemma rep_put_in s S c n bz :
  rep s S -> is_int64 n -> UnmarshalInt64 bz = Some n -> rep (<[IngressSequenceKey c := bz]> s) (put_in S c n).
Proof.
  intros [R1 R2 R3 R4] Hn Hbz. split.
  - intros d Hd. rewrite lookup_insert_ne by apply Ingress_Egress. by apply R1.
  - intros d i p Hd Hp. rewrite lookup_insert_ne by apply Ingress_Egress. by apply R2.
  - intros c'. rewrite inbox_put_in. destruct (decide (c' = c)) as [ -> |Hne]; [by rewrite lookup_insert_eq|].
    rewrite lookup_insert_ne; [done|]. by intros ?%IngressSequenceKey_inj.
  - intros c'. rewrite inbox_put_in. by destruct (decide _).
Qed.

(** Writing the length that a missing entry stands for. *)
Lemma rep_zero_length s S d bz :
  rep s S -> no_slash d -> s !! EgressLengthKey d = None -> UnmarshalInt64 bz = Some 0 ->
  rep (<[EgressLengthKey d := bz]> s) S.
Proof.
  intros [R1 R2 R3 R4] Hd Hn Hbz. split; [| | |done].
  - intros d' Hd'. destruct (decide (d = d')) as [ <- |Hne].
    + rewrite lookup_insert_eq. specialize (R1 d Hd). rewrite Hn in R1. simpl in R1. by rewrite R1.
    + rewrite lookup_insert_ne; [by apply R1|]. by intros ?%EgressLengthKey_inj.
  - intros d' i p Hd' Hp. rewrite lookup_insert_ne by (by apply EgressKey_length). by apply R2.
  - intros c. rewrite lookup_insert_ne; [done|]. apply not_eq_sym, Ingress_Egress.
Qed.

Lemma rep_post s S p bz bz' :
  rep s S -> no_slash (DestChain p) -> MarshalPacket p = Some bz ->
  UnmarshalInt64 bz' = Some (Z.of_nat (length (outbox S (DestChain p))) + 1) ->
  rep (<[EgressLengthKey (DestChain p) := bz']> (<[EgressKey (DestChain p) (Z.of_nat (length (outbox S (DestChain p)))) := bz]> s)) (post S p).
Proof.
  intros [R1 R2 R3 R4] Hd Hbz Hbz'. set (n := length (outbox S (DestChain p))) in *. split; [| | |done].
  - intros d Hd'. rewrite outbox_post. destruct (decide (d = DestChain p)) as [ -> |Hne].
    + rewrite lookup_insert_eq, length_app. simpl. rewrite Hbz'. f_equal. fold n. lia.
    + rewrite lookup_insert_ne by (by intros ?%EgressLengthKey_inj).
      rewrite lookup_insert_ne by (by apply not_eq_sym, EgressKey_length). by apply R1.
  - intros d i q Hd' Hq. rewrite lookup_insert_ne by (by apply EgressKey_length). rewrite outbox_post in Hq.
    destruct (decide (d = DestChain p)) as [ -> |Hne].
    + apply lookup_app_Some in Hq as [Hq|[Hi Hq]].
      * rewrite lookup_insert_ne; [by apply R2|]. apply lookup_lt_Some in Hq.
        intros [= E]%EgressKey_inj; [|done|done]. unfold n in E. lia.
      * fold n in Hi, Hq. apply list_lookup_singleton_Some in Hq as [Hz <-]. exists bz.
        replace i with n by lia. by rewrite lookup_insert_eq.
    + rewrite lookup_insert_ne; [by apply R2|]. intros [= E _]%EgressKey_inj; [congruence|done|done].
  - intros c. rewrite !lookup_insert_ne by apply not_eq_sym, Ingress_Egress. apply R3.
Qed.
End rep.

(** ** The mapper *)

Section specs.
Context `{HCL : CodecLaws} `{HIC : IbcCodecLaws} (ibcm : Mapper) (ctx : Ctx).
Abbreviation m := (cx_GasMeter ctx).
Abbreviation ibkey := (ib_key ibcm).

Definition ibc_st (st : stores) (S : istate) : Prop := exists s, st !! ibkey = Some s /\ rep s S.

Lemma int64_marshalled z : is_int64 z -> exists bz, marshalBinaryPanic z = Ok bz /\ UnmarshalInt64 bz = Some z.
Proof. intros Hz. destruct (Int64_roundtrip z Hz) as (bz & E & Ed). exists bz. unfold marshalBinaryPanic. by rewrite E. Qed.
Lemma is_int64_0 : is_int64 0.
Proof. split; vm_compute; discriminate. Qed.

(** Reading a counter of 0 that is not there stores it. *)
Lemma GetIngressSequence_spec st S c (Q : Z -> stores -> Prop) (E : panic_value -> Prop) :
  ibc_st st S -> (forall st', ibc_st st' S -> frame ibkey st st' -> Q (inbox S c) st') ->
  pspec m (GetIngressSequence ibcm ctx c) st Q E.
Proof.
  intros (s & Hs & Hr) HQ. apply pspec_bind, (pspec_Get _ _ _ s); [done|]. pose proof (r_in _ _ Hr c) as Hc.
  destruct (s !! IngressSequenceKey c) as [bz|] eqn:Eb; simpl in Hc.
  - apply pspec_lift; unfold unmarshalBinaryPanic; rewrite Hc; [|done]. intros ? [= <-]. apply HQ; [by exists s|apply frame_refl].
  - destruct (int64_marshalled 0 is_int64_0) as (bz & Em & Ed).
    apply pspec_bind, pspec_lift; rewrite Em; [|done]. intros ? [= <-].
    apply pspec_bind, (pspec_Set _ _ _ s); [done|]. apply pspec_ret. rewrite <- Hc. apply HQ; [|apply frame_insert].
    eexists. rewrite lookup_insert_eq. split; [done|].
    pose proof (rep_put_in s S c 0 bz Hr is_int64_0 Ed) as [Q1 Q2 Q3 Q4]. split; [exact Q1|exact Q2| |apply (r_in_range _ _ Hr)].
    intros c'. specialize (Q3 c'). rewrite inbox_put_in in Q3. destruct (decide (c' = c)) as [ -> |]; [by rewrite Hc|done].
Qed.

Lemma SetIngressSequence_spec st S c n (Q : unit -> stores -> Prop) (E : panic_value -> Prop) :
  ibc_st st S -> is_int64 n -> (forall st', ibc_st st' (put_in S c n) -> frame ibkey st st' -> Q tt st') ->
  pspec m (SetIngressSequence ibcm ctx c n) st Q E.
Proof.
  intros (s & Hs & Hr) Hn HQ. destruct (int64_marshalled n Hn) as (bz & Em & Ed).
  apply pspec_bind, pspec_lift; rewrite Em; [|done]. intros ? [= <-]. apply (pspec_Set _ _ _ s); [done|].
  apply HQ; [|apply frame_insert]. eexists. rewrite lookup_insert_eq. split; [done|]. by apply rep_put_in.
Qed.

Lemma getEgressLength_spec st S d (Q : Z -> stores -> Prop) (E : panic_value -> Prop) :
  ibc_st st S -> no_slash d ->
  (forall st', ibc_st st' S -> frame ibkey st st' -> Q (Z.of_nat (length (outbox S d))) st') ->
  pspec m (getEgressLength ibcm ctx d) st Q E.
Proof.
  intros (s & Hs & Hr) Hd HQ. apply pspec_bind, (pspec_Get _ _ _ s); [done|]. pose proof (r_len _ _ Hr d Hd) as Hc.
  destruct (s !! EgressLengthKey d) as [bz|] eqn:Eb; simpl in Hc.
  - apply pspec_lift; unfold unmarshalBinaryPanic; rewrite Hc; [|done]. intros ? [= <-]. apply HQ; [by exists s|apply frame_refl].
  - destruct (int64_marshalled 0 is_int64_0) as (bz & Em & Ed).
    apply pspec_bind, pspec_lift; rewrite Em; [|done]. intros ? [= <-].
    apply pspec_bind, (pspec_Set _ _ _ s); [done|]. apply pspec_ret. rewrite <- Hc. apply HQ; [|apply frame_insert].
    eexists. rewrite lookup_insert_eq. split; [done|]. by apply rep_zero_length.
Qed.

Lemma PostIBCPacket_spec st S p (Q : option sdkError -> stores -> Prop) (E : panic_value -> Prop) :
  ibc_st st S -> no_slash (DestChain p) -> amounts_wf (pk_Coins p) ->
  Z.of_nat (length (outbox S (DestChain p))) < max_int64 ->
  (forall st', ibc_st st' (post S p) -> frame ibkey st st' -> Q None st') ->
  pspec m (PostIBCPacket ibcm ctx p) st Q E.
Proof.
  intros Hst Hd Hwf Hl HQ. apply pspec_bind. eapply getEgressLength_spec; [exact Hst|exact Hd|].
  intros st1 (s & Hs & Hr) Hf1. destruct (Packet_total p Hwf) as [bz Ep].
  apply pspec_bind, pspec_lift; rewrite Ep; [|done]. intros ? [= <-].
  apply pspec_bind, (pspec_Set _ _ _ s); [done|].
  rewrite wrap64_id by (unfold is_int64, min_int64; lia).
  destruct (Int64_roundtrip (Z.of_nat (length (outbox S (DestChain p))) + 1)) as (bz' & Em & Ed);
    [unfold is_int64, min_int64; lia|].
  apply pspec_bind, pspec_lift; rewrite Em; [|done]. intros ? [= <-].
  eapply pspec_bind, pspec_Set; [by rewrite lookup_insert_eq|]. apply pspec_ret. apply HQ.
  - eexists. rewrite lookup_insert_eq. split; [done|]. by apply rep_post.
  - eapply frame_trans; [exact Hf1|]. eapply frame_trans; apply frame_insert.
Qed.
End specs.

(** * What the IBC module does

    The two handlers on the accounts and the queues, and two chains whose
    packets a relayer carries: every packet that was sent is received at most
    once and in order, whatever the relayer repeats, and the coins of both
    chains and of the packets in flight stay the same. *)

Section handlers.
Context `{HCL : CodecLaws} `{HIC : IbcCodecLaws} (ibcm : Mapper) (ck : AccountMapper) (ctx : Ctx).
Abbreviation m := (cx_GasMeter ctx).
Abbreviation ibkey := (ib_key ibcm).
Hypothesis Hkeys : am_key ck <> ibkey.

Record iworld (st : stores) (accs : gmap Address BaseAccount) (S : istate) : Prop := mk_iworld {
  iw_auth : exists n, auth_st ck st accs n;
  iw_accs : accs_ok accs;
  iw_ibc : ibc_st ibcm st S
}.

Lemma iworld_frame st st' accs S S' :
  iworld st accs S -> ibc_st ibcm st' S' -> frame ibkey st st' -> iworld st' accs S'.
Proof.
  intros [[n R1] R2 _] Hs Hf. split; [|done|done]. exists n. eapply (auth_st_frame ck ibkey); [exact Hf| |exact R1].
  by apply not_eq_sym.
Qed.

(** Coins a message may carry: [IsValid] does not look at signs. *)
Definition packet_ok (p : IBCPacket) : Prop := canonical (pk_Coins p) /\ amounts_wf (pk_Coins p) /\ no_slash (DestChain p).

Lemma world_moved st st1 accs accs1 n1 S f g :
  iworld st accs S -> auth_st ck st1 accs1 n1 -> accs_ok accs1 -> frame (am_key ck) st st1 ->
  transfer accs accs1 f g -> iworld st1 accs1 S.
Proof.
  intros [_ _ (s & Hs & Hr)] Hst1 Hok1 Hf _. split; [by exists n1|done|]. exists s. split; [|done].
  by rewrite Hf by (by apply not_eq_sym).
Qed.

Lemma transfer_effect (st : stores) (accs : gmap Address BaseAccount) (S : istate) (p : IBCPacket) :
  iworld st accs S -> packet_ok p -> Z.of_nat (length (outbox S (DestChain p))) < max_int64 ->
  pspec m (handleIBCTransferMsg ibcm ctx ck (mk_IBCTransferMsg p)) st
    (fun r st' => if Result_IsOK r
       then exists accs', iworld st' accs' (post S p) /\
         transfer accs accs' (fun a d => if decide (a = SrcAddr p) then - amt (pk_Coins p) d else 0)
           (fun d => - amt (pk_Coins p) d)
       else st' = st /\ exists d, amt (coins_at accs (SrcAddr p)) d < amt (pk_Coins p) d) int_overflow.
Proof.
  intros Hw (Hcan & Hwf & Hd) Hl. destruct (iw_auth _ _ _ Hw) as [n Hst].
  unfold handleIBCTransferMsg. cbn [tm_IBCPacket].
  eapply pspec_call; [apply (subtractCoins_any ctx ck st accs n); [exact Hst|apply Hw|done|done|]|].
  { intros q Hq. by apply (Plus_panics _ _ _ Hq). }
  intros [[c tags] [err|]] st1 Hp; unfold move_post, moved_post in Hp; simpl in Hp.
  - destruct Hp as ([d Hlt] & He & ->). apply pspec_ret. rewrite He. split; [done|]. exists d. lia.
  - destruct Hp as (accs1 & n1 & Hst1 & Hok1 & Hf1 & Htr).
    pose proof (world_moved _ _ _ _ _ _ _ _ Hw Hst1 Hok1 Hf1 Htr) as Hw1.
    apply pspec_bind. eapply PostIBCPacket_spec; [apply Hw1|done|done|done|].
    intros st2 Hst2 Hf2. apply pspec_ret. exists accs1. split; [by eapply iworld_frame|].
    destruct Htr as [R1 R2 R3]. split; [|intros d; rewrite R2; lia|done].
    intros a d. rewrite R1. case_decide; lia.
Qed.

Definition bad_sequence : Result := err_Result (IbcErrors.ErrInvalidSequence (ib_codespace ibcm)).

Lemma receive_effect (st : stores) (accs : gmap Address BaseAccount) (S : istate) (p : IBCPacket) (relayer : Address) (seq : Z) :
  iworld st accs S -> canonical (pk_Coins p) -> amounts_wf (pk_Coins p) ->
  pspec m (handleIBCReceiveMsg ibcm ctx ck (mk_IBCReceiveMsg p relayer seq)) st
    (fun r st' => if decide (seq = inbox S (SrcChain p)) then
       if Result_IsOK r
       then exists accs', iworld st' accs' (put_in S (SrcChain p) (wrap64 (seq + 1))) /\
         transfer accs accs' (fun a d => if decide (a = DestAddr p) then amt (pk_Coins p) d else 0)
           (fun d => amt (pk_Coins p) d)
       else iworld st' accs S /\ exists d, amt (coins_at accs (DestAddr p)) d + amt (pk_Coins p) d < 0
     else r = bad_sequence /\ iworld st' accs S) int_overflow.
Proof.
  intros Hw Hcan Hwf. unfold handleIBCReceiveMsg. cbn [rm_IBCPacket Sequence]. apply pspec_bind.
  eapply GetIngressSequence_spec; [apply Hw|]. intros st1 Hst1 Hf1.
  assert (Hw1 : iworld st1 accs S) by (by eapply iworld_frame).
  destruct (decide (seq = inbox S (SrcChain p))) as [Hseq|Hne].
  2:{ rewrite (proj2 (Z.eqb_neq _ _)) by done. apply pspec_ret. by split. }
  rewrite (proj2 (Z.eqb_eq _ _)) by done. cbn [negb]. destruct (iw_auth _ _ _ Hw1) as [n Hn].
  eapply pspec_call; [by apply (addCoins_any ctx ck st1 accs n); [exact Hn|apply Hw1|..]|].
  intros [[c tags] [err|]] st2 Hp; unfold move_post, moved_post in Hp; simpl in Hp.
  - destruct Hp as ([d Hlt] & He & ->). apply pspec_ret. rewrite He. split; [done|]. exists d. lia.
  - destruct Hp as (accs2 & n2 & Hst2 & Hok2 & Hf2 & Htr).
    pose proof (world_moved _ _ _ _ _ _ _ _ Hw1 Hst2 Hok2 Hf2 Htr) as Hw2.
    apply pspec_bind. eapply SetIngressSequence_spec; [apply Hw2|auto with sdk|].
    intros st3 Hst3 Hf3. apply pspec_ret. rewrite <- Hseq in Hst3. exists accs2. split; [by eapply iworld_frame|].
    destruct Htr as [R1 R2 R3]. split; [|intros d; rewrite R2; lia|done].
    intros a d. rewrite R1. case_decide; lia.
Qed.

(** a packet is accepted exactly at the sequence number the chain expects
    from its source: any other number is an error that changes nothing;
    accepted, it credits the destination with its coins and the next number is
    expected - unless its coins are negative and more than the destination
    has. *)
Theorem receive_in_sequence (st : stores) (accs : gmap Address BaseAccount) (S : istate) (p : IBCPacket) (relayer : Address) (seq : Z) :
  iworld st accs S -> canonical (pk_Coins p) -> amounts_wf (pk_Coins p) ->
  pspec m (handleIBCReceiveMsg ibcm ctx ck (mk_IBCReceiveMsg p relayer seq)) st
    (fun r st' => if decide (seq = inbox S (SrcChain p)) then
       if Result_IsOK r
       then exists accs', iworld st' accs' (put_in S (SrcChain p) (wrap64 (seq + 1))) /\
         transfer accs accs' (fun a d => if decide (a = DestAddr p) then amt (pk_Coins p) d else 0)
           (fun d => amt (pk_Coins p) d)
       else iworld st' accs S /\ exists d, amt (coins_at accs (DestAddr p)) d + amt (pk_Coins p) d < 0
     else r = bad_sequence /\ iworld st' accs S) int_overflow.
Proof. apply receive_effect. Qed.

(** C23: a transfer of negative coins passes the message's checks and mints: the
    sender's balance and the supply of the chain grow by their absolute
    value. *)
Theorem negative_transfer_mints (st : stores) (accs : gmap Address BaseAccount) (S : istate) (p : IBCPacket) (d : string) (n : Z) :
  iworld st accs S -> packet_ok p -> Z.of_nat (length (outbox S (DestChain p))) < max_int64 ->
  SrcChain p <> DestChain p -> pk_Coins p = [mk_Coin d (- n)] -> 0 < n ->
  IBCPacket_ValidateBasic p = None /\
  pspec m (handleIBCTransferMsg ibcm ctx ck (mk_IBCTransferMsg p)) st
    (fun r st' => Result_IsOK r = true /\ exists accs', iworld st' accs' (post S p) /\
       amt (coins_at accs' (SrcAddr p)) d = amt (coins_at accs (SrcAddr p)) d + n /\
       total accs' d = total accs d + n) int_overflow.
Proof.
  intros Hw Hp Hl Hne Hc Hn.
  assert (Hamt : forall e, amt (pk_Coins p) e = if decide (d = e) then - n else 0).
  { intros e. rewrite Hc. simpl. destruct (decide _); lia. }
  split.
  - unfold IBCPacket_ValidateBasic. rewrite decide_False by done. rewrite Hc. simpl.
    unfold Coin_IsZero. rewrite Int.IsZero_spec, bool_decide_eq_false_2; [done|]. simpl. lia.
  - eapply pspec_mono; [by apply (transfer_effect st accs S p)| |done]. intros r st' Hr. cbn beta in Hr.
    destruct (Result_IsOK r).
    + split; [done|]. destruct Hr as (accs' & Hw' & [R1 R2 _]). exists accs'. split; [done|].
      rewrite R1, R2, !Hamt, !decide_True by done. lia.
    + exfalso. destruct Hr as [_ [e He]]. rewrite Hamt in He.
      pose proof (proj1 (proj2 (coins_at_ok accs (SrcAddr p) (iw_accs _ _ _ Hw))) e). case_decide; lia.
Qed.
End handlers.
