(* ===== verification/IbcNet.v ===== *)
(** * Two chains and a relayer

    A step of the pair is a transfer on one of them or the delivery, by
    anyone and any number of times, of a packet the other has sent, under the
    sequence number it was sent with. *)
From Stdlib Require Import Strings.Byte Strings.String.
From S2P Require Import Prelude Names Wire Int Errors Coin KVStore MultiStore Account Context ProgLogic Auth Records Address Ante Bank StakeModel Footprint IbcTypes IbcOps.
#[local] Open Scope string_scope.
#[local] Open Scope list_scope.
#[local] Open Scope Z_scope.

(** The coins of packets. *)
Fixpoint coins_of (ps : list IBCPacket) (d : string) : Z :=
  match ps with [] => 0 | p :: ps => amt (pk_Coins p) d + coins_of ps d end.

Lemma coins_of_app l l' d : coins_of (l ++ l') d = coins_of l d + coins_of l' d.
Proof. induction l as [|p l IH]; simpl; lia. Qed.

Lemma drop_next {A : Type} (l : list A) i x : l !! i = Some x -> drop i l = x :: drop (S i) l.
Proof. intros Hx. by apply drop_S. Qed.

Section net.
Context `{HCL : CodecLaws} `{HIC : IbcCodecLaws}.

(** A chain by its name and keepers; with its stores and the packets it has
    sent to the other. *)
Record chain := mk_chain { ch_id : string; ch_ibcm : Mapper; ch_ck : AccountMapper }.
Record side := mk_side { sd_chain : chain; sd_st : stores; sd_out : list IBCPacket }.

(** A packet from one to the other. *)
Definition packet_between (a b : chain) (p : IBCPacket) : Prop :=
  SrcChain p = ch_id a /\ DestChain p = ch_id b /\ canonical (pk_Coins p) /\ amounts_wf (pk_Coins p).

Inductive net_step : side * side -> side * side -> Prop :=
  | net_send a b ctx p r st' :
      packet_between (sd_chain a) (sd_chain b) p -> Z.of_nat (length (sd_out a)) < max_int64 ->
      runs (cx_GasMeter ctx) (handleIBCTransferMsg (ch_ibcm (sd_chain a)) ctx (ch_ck (sd_chain a)) (mk_IBCTransferMsg p))
        (sd_st a) r st' ->
      net_step (a, b) (mk_side (sd_chain a) st' (if Result_IsOK r then sd_out a ++ [p] else sd_out a), b)
  | net_deliver a b ctx p i relayer r st' :
      sd_out a !! i = Some p ->
      runs (cx_GasMeter ctx) (handleIBCReceiveMsg (ch_ibcm (sd_chain b)) ctx (ch_ck (sd_chain b))
        (mk_IBCReceiveMsg p relayer (Z.of_nat i))) (sd_st b) r st' ->
      net_step (a, b) (a, mk_side (sd_chain b) st' (sd_out b))
  | net_swap a b a' b' : net_step (a, b) (a', b') -> net_step (b, a) (b', a').

(** One side as the other sees it: its world, the packets sent, and how many
    of the other's packets it received. *)
Record side_inv (a b : side) (accs : gmap Address BaseAccount) (received : nat) : Prop := mk_side_inv {
  si_keys : am_key (ch_ck (sd_chain a)) <> ib_key (ch_ibcm (sd_chain a));
  si_world : exists S, iworld (ch_ibcm (sd_chain a)) (ch_ck (sd_chain a)) (sd_st a) accs S /\
    outbox S (ch_id (sd_chain b)) = sd_out a /\ inbox S (ch_id (sd_chain b)) = Z.of_nat received;
  si_name : no_slash (ch_id (sd_chain b));
  si_packets : Forall (packet_between (sd_chain a) (sd_chain b)) (sd_out a);
  si_received : (received <= length (sd_out b))%nat;
  si_bound : Z.of_nat (length (sd_out b)) <= max_int64
}.

(** The coins of the accounts and of the packets that are under way are
    [supply]. *)
Definition net_inv (supply : string -> Z) (ab : side * side) : Prop :=
  let '(a, b) := ab in
  exists accsA accsB na nb, side_inv a b accsA na /\ side_inv b a accsB nb /\
    forall d, total accsA d + total accsB d + coins_of (drop nb (sd_out a)) d + coins_of (drop na (sd_out b)) d = supply d.

Lemma net_inv_swap supply a b : net_inv supply (a, b) -> net_inv supply (b, a).
Proof.
  intros (accsA & accsB & na & nb & Ha & Hb & Hs). exists accsB, accsA, nb, na. split; [done|]. split; [done|].
  intros d. specialize (Hs d). lia.
Qed.

(** What changes when a side has sent. *)
Lemma side_inv_other a b st' out accs n :
  side_inv b a accs n -> (n <= length out)%nat -> Z.of_nat (length out) <= max_int64 ->
  side_inv b (mk_side (sd_chain a) st' out) accs n.
Proof. intros [R1 R2 R3 R4 R5 R6] Hn Hl. by split. Qed.

Lemma net_send_inv supply a b ctx p r st' :
  packet_between (sd_chain a) (sd_chain b) p -> Z.of_nat (length (sd_out a)) < max_int64 ->
  runs (cx_GasMeter ctx) (handleIBCTransferMsg (ch_ibcm (sd_chain a)) ctx (ch_ck (sd_chain a)) (mk_IBCTransferMsg p))
    (sd_st a) r st' ->
  net_inv supply (a, b) ->
  net_inv supply (mk_side (sd_chain a) st' (if Result_IsOK r then sd_out a ++ [p] else sd_out a), b).
Proof.
  intros Hp Hl Hr (accsA & accsB & na & nb & Ha & Hb & Hs). destruct Hp as (Hsrc & Hdst & Hcan & Hwf).
  destruct Ha as [Hk (S & Hw & Ho & Hi) Hname Hps Hrec Hbound].
  assert (Hpk : packet_ok p) by (split; [done|]; split; [done|]; by rewrite Hdst).
  assert (Hlen : Z.of_nat (length (outbox S (DestChain p))) < max_int64) by (by rewrite Hdst, Ho).
  pose proof (runs_pspec _ _ _ _ _ _ _ Hr (transfer_effect _ _ ctx Hk _ _ S p Hw Hpk Hlen)) as Heff.
  cbn beta in Heff.
  destruct (Result_IsOK r) eqn:Er.
  - destruct Heff as (accs' & Hw' & Htr). exists accs', accsB, na, nb. split; [|split].
    + split; [done| |done| |done|done].
      * exists (post S p). split; [exact Hw'|]. split; [|exact Hi].
        cbn [sd_out]. by rewrite outbox_post, decide_True, Ho.
      * apply Forall_app. split; [done|]. apply Forall_singleton. by split_and!.
    + apply side_inv_other; [exact Hb| |]; rewrite length_app; simpl; [|lia].
      pose proof (si_received _ _ _ _ Hb). lia.
    + intros d. specialize (Hs d). cbn [sd_out]. rewrite (tr_total _ _ _ _ Htr).
      rewrite drop_app_le by apply Hb. rewrite coins_of_app. simpl. lia.
  - destruct Heff as [-> _]. exists accsA, accsB, na, nb. split; [|split; [|exact Hs]].
    + split; [done| |done..]. by exists S.
    + apply side_inv_other; [exact Hb|apply Hb|lia].
Qed.

Lemma net_deliver_inv supply a b ctx p i relayer r st' :
  sd_out a !! i = Some p ->
  runs (cx_GasMeter ctx) (handleIBCReceiveMsg (ch_ibcm (sd_chain b)) ctx (ch_ck (sd_chain b))
    (mk_IBCReceiveMsg p relayer (Z.of_nat i))) (sd_st b) r st' ->
  net_inv supply (a, b) -> net_inv supply (a, mk_side (sd_chain b) st' (sd_out b)).
Proof.
  intros Hp Hr (accsA & accsB & na & nb & Ha & Hb & Hs).
  destruct (Forall_lookup_1 _ _ _ _ (si_packets _ _ _ _ Ha) Hp) as (Hsrc & Hdst & Hcan & Hwf).
  destruct Hb as [Hk (S & Hw & Ho & Hi) Hname Hps Hrec Hbound].
  pose proof (runs_pspec _ _ _ _ _ _ _ Hr (receive_effect _ _ ctx Hk _ _ S p relayer _ Hw Hcan Hwf)) as Heff.
  cbn beta in Heff.
  assert (Hsame : forall accs' S', iworld (ch_ibcm (sd_chain b)) (ch_ck (sd_chain b)) st' accs' S' ->
    outbox S' (ch_id (sd_chain a)) = sd_out b -> forall n, inbox S' (ch_id (sd_chain a)) = Z.of_nat n ->
    (n <= length (sd_out a))%nat -> side_inv (mk_side (sd_chain b) st' (sd_out b)) a accs' n).
  { intros accs' S' Hw' Ho' n Hi' Hn. split; [done| |done|done|done|done]. by exists S'. }
  assert (Ha' : side_inv a (mk_side (sd_chain b) st' (sd_out b)) accsA na) by (by destruct Ha; split).
  rewrite Hsrc, Hi in Heff. destruct (decide _) as [Heq|Hne].
  - apply Nat2Z.inj in Heq as ->. destruct (Result_IsOK r) eqn:Er.
    + destruct Heff as (accs' & Hw' & Htr). exists accsA, accs', na, (Datatypes.S nb).
      pose proof (lookup_lt_Some _ _ _ Hp).
      split; [done|]. split.
      * eapply Hsame; [exact Hw'|exact Ho| |lia]. rewrite inbox_put_in, decide_True by done.
        rewrite wrap64_id; [lia|]. unfold is_int64, min_int64. lia.
      * intros d. specialize (Hs d). cbn [sd_out]. rewrite (tr_total _ _ _ _ Htr).
        rewrite (drop_next _ _ _ Hp) in Hs. simpl in Hs. lia.
    + destruct Heff as [Hw' _]. exists accsA, accsB, na, nb. split; [done|]. split; [|done]. by eapply Hsame.
  - destruct Heff as [_ Hw']. exists accsA, accsB, na, nb. split; [done|]. split; [|done]. by eapply Hsame.
Qed.

(** C22: over any sequence of transfers on two chains and deliveries of their
    packets - repeated and in any order - each chain has received a prefix of
    the packets the other sent, each once, and the coins of the accounts of
    both and of the packets not yet received stay what they were. *)
Theorem net_conserves (supply : string -> Z) (ab ab' : side * side) :
  rtc net_step ab ab' -> net_inv supply ab -> net_inv supply ab'.
Proof.
  induction 1 as [ab|ab ab1 ab' Hstep _ IH]; intros Hinv; [exact Hinv|]. apply IH. clear IH.
  induction Hstep as [a b ctx p r st' Hp Hl Hr|a b ctx p i relayer r st' Hp Hr|a b a' b' _ IH].
  - by eapply net_send_inv.
  - by eapply net_deliver_inv.
  - apply net_inv_swap, IH. by apply net_inv_swap.
Qed.
End net.

(** * IBC examples

    Two chains with the accounts of the ante handler's example: a transfer, its
    delivery, and the delivery again. *)

#[local] Existing Instance model_Crypto.
#[local] Existing Instance model_CryptoLaws.
#[local] Existing Instance model_Codec.
#[local] Existing Instance model_CodecLaws.

Definition model_IbcCodec : IbcCodec := {|
  MarshalPacket p := Some (ser (SrcAddr p, DestAddr p, pk_Coins p, SrcChain p, DestChain p)) |}.
#[local] Existing Instance model_IbcCodec.
Lemma model_IbcCodecLaws : IbcCodecLaws.
Proof. constructor. intros p _. by eexists. Qed.
#[local] Existing Instance model_IbcCodecLaws.

Definition ibc_key : StoreKey := mk_StoreKey 7 "ibc".
Definition ex_ibcm : Mapper := NewMapper ibc_key IbcErrors.DefaultCodespace.
Definition ibc_world : stores := <[ibc_key := ∅]> ex_stores.
Definition ibc_S : istate := mk_istate ∅ ∅.

Lemma ibc_rep : rep ∅ ibc_S.
Proof.
  split; unfold outbox, inbox, counter_holds; simpl; intros; rewrite ?lookup_empty in *; done.
Qed.

Lemma ibc_iworld : iworld ex_ibcm ex_am ibc_world ex_accs ibc_S.
Proof.
  split; [exists 0|exact ex_accs_ok|exists ∅; split; [apply lookup_insert_eq|exact ibc_rep]].
  eapply (auth_st_frame ex_am ibc_key); [apply frame_insert|done|exact ex_auth_st].
Qed.

Lemma ibc_keys : am_key ex_am <> ib_key ex_ibcm.
Proof. done. Qed.

(** ** Packets *)

Definition packet (n : Z) : IBCPacket := NewIBCPacket ex_addr [Byte.x09] [mk_Coin "atom" n] "one" "two".
Lemma packet_canonical (n : Z) : n <> 0 -> canonical (pk_Coins (packet n)).
Proof. intros Hn. split; repeat constructor. exact Hn. Qed.
Lemma packet_wf (n : Z) : -100 < n < 100 -> amounts_wf (pk_Coins (packet n)).
Proof. intros Hn. constructor; [|constructor]. unfold Int.wf. simpl. lia. Qed.
Lemma two_no_slash : no_slash "two".
Proof. by apply (bool_decide_unpack _); vm_compute. Qed.
Lemma one_no_slash : no_slash "one".
Proof. by apply (bool_decide_unpack _); vm_compute. Qed.
Lemma packet_is_ok (n : Z) : n <> 0 -> -100 < n < 100 -> packet_ok (packet n).
Proof. intros Hn Hb. split; [by apply packet_canonical|]. split; [by apply packet_wf|exact two_no_slash]. Qed.

(** A run of a handler: its verdict, the sender's and the receiver's coins. *)
Definition run_ibc {A} (p : prog A) : outcome A * option Coins * option Coins :=
  let '(r, w) := interp p (mk_World (mk_spec_ms ibc_world ∅) [NewInfiniteGasMeter]) in
  let coins a := s ← sm_stores (w_ms w) !! example_key; bz ← (s : spec_store) !! AddressStoreKey a; acc_Coins <$> UnmarshalAccount bz in
  (r, coins ex_addr, coins [Byte.x09]).
Definition code_of (r : Result) : Z := Code r.

Example ibc_runs :
  run_ibc (r ← handleIBCTransferMsg ex_ibcm ex_ctx ex_am (mk_IBCTransferMsg (packet 7)); mret (code_of r)) =
    (Ok 0, Some [mk_Coin "atom" 13], None) /\
  run_ibc (r1 ← handleIBCReceiveMsg ex_ibcm ex_ctx ex_am (mk_IBCReceiveMsg (packet 7) ex_addr 0);
           r2 ← handleIBCReceiveMsg ex_ibcm ex_ctx ex_am (mk_IBCReceiveMsg (packet 7) ex_addr 0);
           mret (code_of r1, code_of r2)) =
    (Ok (0, ToWRSPCode 3 200), Some [mk_Coin "atom" 20], Some [mk_Coin "atom" 7]) /\
  run_ibc (r ← handleIBCTransferMsg ex_ibcm ex_ctx ex_am (mk_IBCTransferMsg (packet (-7))); mret (code_of r)) =
    (Ok 0, Some [mk_Coin "atom" 27], None).
Proof. vm_compute. repeat split. Qed.

(** ** The theorems on the world *)

Lemma receive_in_sequence_witness :
  pspec 0 (handleIBCReceiveMsg ex_ibcm ex_ctx ex_am (mk_IBCReceiveMsg (packet 7) ex_addr 0)) ibc_world
    (fun r st' => if Result_IsOK r
       then exists accs', iworld ex_ibcm ex_am st' accs' (put_in ibc_S "one" 1) /\ total accs' "atom" = 27
       else iworld ex_ibcm ex_am st' ex_accs ibc_S) int_overflow.
Proof.
  eapply pspec_mono.
  - refine (receive_in_sequence ex_ibcm ex_am ex_ctx ibc_keys ibc_world ex_accs ibc_S (packet 7) ex_addr 0 ibc_iworld _ _).
    + by apply packet_canonical.
    + by apply packet_wf.
  - intros r st' Hr. cbn beta in Hr. rewrite decide_True in Hr by reflexivity. destruct (Result_IsOK r).
    + destruct Hr as (accs' & Hw & Ht). exists accs'. split; [exact Hw|]. rewrite (tr_total _ _ _ _ Ht). vm_compute. reflexivity.
    + apply Hr.
  - done.
Defined.

Lemma negative_transfer_mints_witness :
  IBCPacket_ValidateBasic (packet (-7)) = None /\
  pspec 0 (handleIBCTransferMsg ex_ibcm ex_ctx ex_am (mk_IBCTransferMsg (packet (-7)))) ibc_world
    (fun r st' => Result_IsOK r = true /\ exists accs', iworld ex_ibcm ex_am st' accs' (post ibc_S (packet (-7))) /\
       total accs' "atom" = 27) int_overflow.
Proof.
  destruct (negative_transfer_mints ex_ibcm ex_am ex_ctx ibc_keys ibc_world ex_accs ibc_S (packet (-7)) "atom" 7) as [Hv Hr].
  - exact ibc_iworld.
  - by apply packet_is_ok.
  - reflexivity.
  - discriminate.
  - reflexivity.
  - lia.
  - split; [exact Hv|]. eapply pspec_mono; [exact Hr| |done].
    intros r st' [Hok (accs' & Hw & _ & Ht)]. split; [exact Hok|]. exists accs'. split; [exact Hw|].
    rewrite Ht. vm_compute. reflexivity.
Defined.

(** Chain one sends 7 atoms to chain two. *)
Definition side1 : side := mk_side (mk_chain "one" ex_ibcm ex_am) ibc_world [].
Definition side2 : side := mk_side (mk_chain "two" ex_ibcm ex_am) ibc_world [].
Definition send_run := interp (handleIBCTransferMsg ex_ibcm ex_ctx ex_am (mk_IBCTransferMsg (packet 7)))
  (mk_World (mk_spec_ms ibc_world ∅) [NewInfiniteGasMeter]).
Lemma send_run_ok : exists r, send_run.1 = Ok r /\ Result_IsOK r = true.
Proof. eexists. vm_compute. split; reflexivity. Qed.

Lemma sides_inv : net_inv (fun d => total ex_accs d + total ex_accs d) (side1, side2).
Proof.
  exists ex_accs, ex_accs, 0%nat, 0%nat. split; [|split].
  1,2: split; [done|exists ibc_S; split; [exact ibc_iworld|by split]|first [exact two_no_slash|exact one_no_slash]|constructor|done|done].
  intros d. simpl. lia.
Qed.

Lemma net_conserves_witness :
  exists st', rtc net_step (side1, side2) (mk_side (mk_chain "one" ex_ibcm ex_am) st' [packet 7], side2) /\
    net_inv (fun d => total ex_accs d + total ex_accs d) (mk_side (mk_chain "one" ex_ibcm ex_am) st' [packet 7], side2).
Proof.
  assert (Hs : exists st', rtc net_step (side1, side2) (mk_side (mk_chain "one" ex_ibcm ex_am) st' [packet 7], side2)).
  { destruct send_run_ok as (r & Hr & Hok). exists (sm_stores (w_ms send_run.2)). apply rtc_once.
    pose proof (net_send side1 side2 ex_ctx (packet 7) r (sm_stores (w_ms send_run.2))) as Hstep. rewrite Hok in Hstep.
    apply Hstep.
    - refine (conj eq_refl (conj eq_refl (conj (packet_canonical 7 _) (packet_wf 7 _)))); [discriminate|lia].
    - reflexivity.
    - exists ∅, [NewInfiniteGasMeter], send_run.2. split; [by eexists|]. split; [|done].
      rewrite <- Hr. apply surjective_pairing. }
  destruct Hs as [st' Hs]. exists st'. split; [exact Hs|].
  exact (net_conserves (fun d => total ex_accs d + total ex_accs d) _ _ Hs sides_inv).
Defined.
